(* ===== verification/_CoqProject ===== *)
-Q . S2P
Prelude.v
Genesis.v
Crypto.v
Address.v
Predicate.v
Utxo.v
UtxoTx.v
Escrow.v
Bdpe.v
Registry.v
Custody.v
Block.v
Ledger.v
Dag.v
Ghostdag.v
Reachability.v
Reindex.v
ReachBuild.v
Determinism.v
FeeHistory.v
Stark.v
VersionBits.v
Superproof.v
State.v
Chain.v
ChainInv.v
Admission.v
Persist.v
Sync.v
Mempool.v
MempoolInv.v
FeeEstimate.v
AccountPool.v
Net.v
AddrMan.v
P2p.v
Dispatch.v
P2pInv.v
NodeInv.v
NodeSafety.v
Mining.v
Stratum.v
Kernel.v
PeerPin.v
NodeRole.v
Indexer.v
Stream.v
Tor.v
Transport.v
Api.v
Economics.v
Trace.v
Explorer.v
Http.v
Startup.v
Signing.v
LongChain.v
