(* ===== verification/Prelude.v ===== *)
(** * Hassan: a verification of the BlockDAG node

    Hassan is a proof-of-work BlockDAG node in Rust.  Blocks carry account
    transfers, UTXO transactions, title and escrow operations and custody
    certificates; GHOSTDAG orders the DAG; a ledger replays the blocks in that
    order; mempools collect what the next block may carry; peers exchange blocks
    and transactions over an encrypted transport, through Tor if asked to; a producer
    and external miners extend the chain; an HTTP server reports on it.  This
    library translates the deterministic code of [src/src] and [src/tuep-escrow]
    into Rocq functions and proves what makes it correct.  The functions evaluate on
    concrete data; the files of stateful components close with an example module that
    runs them, and the witnesses of the theorems apply them there.

    ** Parts, files and correspondence

    Foundations:
    - [Prelude] (this file): machine integers at their width ([sat_add], [wrap],
      [checked_add]), byte strings, [Result<T, String>] as [result] with the
      source's error texts, loops that may fail ([try_fold]) or fail after having
      mutated ([run]), sums over maps ([total]), and the tactics [steps in] and
      [zbool].
    - [Genesis]: the constants, subsidy and emission of [genesis.rs]; the
      proof-of-work target, the retarget and the hop bounds of [lib.rs].
    - [Crypto]: the wrappers of [abs_sig.rs] and [lib.rs] around Blake3 and
      ML-DSA-87.  The primitives are third-party code and so the operations of the
      class [Crypto]; what is documented about them is the class [CryptoLaws]
      (output lengths, byte ranges, the hex round trip).  Nothing assumes that a hash
      is injective: where the code relies on a new identifier the theorems ask for
      that identifier to be new.  [Crypto.Toy] implements the classes.
    - [Address]: [address.rs], Bech32m down to the polynomial and the bit regrouping.
    - [Kernel]: the stateless checks of [kernel.rs].

    Value:
    - [Predicate]: [predicate.rs], the covenant language and its evaluator.
    - [Utxo], [UtxoTx]: [utxo.rs] and [utxo_tx.rs].  [apply_utxo_tx] returns the
      outcome together with the state it leaves, since it can fail after mutating.
      Sizes and bytes that [bincode] produces are the class [UtxoCodec].
    - [Escrow]: the escrow law of [tuep-escrow], a state machine ([Law.transition],
      [Law.apply]) with its reachable records ([Law.reachable]).
    - [Bdpe]: [bdpe.rs], which enforces that law with a vault predicate and builds
      the transactions that fund and spend it.
    - [Registry]: [registry.rs], titles and account escrows; one definition per arm
      of [RegistryState::apply_op], with the mutation order of the source.
    - [Custody]: certificate checking of [custody.rs], [dual_sig.rs] and
      [issuance.rs].
    - [Block]: [Block] and [TransparentTx] of [lib.rs], identity and body hashing.
    - [Ledger]: the value state of [ChainState] ([accounts], [staked], [registry],
      [utxo], [minted_supply], [fees_burned], [treasury]) and everything that
      changes it: the effects of each body operation, the conflict-skipping replay
      [apply_block_effects], the strict admission check
      [simulate_apply_block_body], the coinbase and the account-to-UTXO bridge.

    Consensus:
    - [Dag]: parent edges, the graph search all DAG code shares, and the class
      [AncestorOracle], which is what the reachability index promises to GHOSTDAG;
      the reference search [bfs_is_ancestor] implements it.
    - [Ghostdag]: [ghostdag.rs] in full and the canonical order of [lib.rs].  The
      relation [built] generates the pairs of DAG and GHOSTDAG data that block
      admission can produce.
    - [Reachability], [Reindex], [ReachBuild]: [reachability.rs].  The interval labels
      and covering sets with their queries; the relabelling of the whole forest;
      and [rbuilt], the DAG, GHOSTDAG data and index that admission grows together.
      The index is the second implementation of [AncestorOracle], so everything
      proved in [Ghostdag] holds with it.
    - [Determinism]: GHOSTDAG data depends on the past of a block only.
    - [Stark]: [stark.rs] around the [winterfell] crate (class [Winterfell]).
    - [VersionBits]: [versionbits.rs].
    - [Superproof]: [superproof.rs] and the linear pruning proof of [lib.rs].
    - [State]: [ChainState] with its queries and the replay that derives the live
      ledger from the finalised base.
    - [Chain], [ChainInv], [Admission]: [add_block], the pre-checks, the body rules,
      pruning and [assume_valid.rs]; the invariant of admission over the [reachable] states;
      the time and difficulty rules.
    - [Persist]: the state file, its framing, the steps of a save and the fall-backs of
      a load.
    - [Sync]: pruning-point proofs and ledgers, served and adopted.

    Pools and production:
    - [FeeHistory], [FeeEstimate]: the ring of fee samples and the estimates.
    - [Mempool], [MempoolInv]: the UTXO pool with replacement, packages, eviction and
      template; the registry and custody pools.
    - [AccountPool]: the account pool behind its feature switch.
    - [Mining]: the producer of [consensus.rs] from template to admission.
    - [Stratum]: [stratum.rs], the endpoint for external miners.

    Node:
    - [Net]: [net_policy.rs], [security.rs] and the dial filter of [p2p.rs].
    - [AddrMan]: [addrman.rs].  [PeerPin]: [peer_pin.rs].
    - [NodeRole]: [node_role.rs] and what it writes into the environment that [Net]
      reads.
    - [P2p], [Dispatch]: [p2p.rs] as a transition system; the wire messages and shared
      state, one definition per arm of [dispatch], the life of a connection, and the
      events a node reacts to ([net_step]).
    - [P2pInv], [NodeInv], [NodeSafety]: its invariants and safety theorems.
    - [Indexer]: the index of [indexer.rs] and its file.

    Edges of the process:
    - [Stream]: a TCP stream as its users see it and the state-and-error monad of the code
      that reads and writes it.
    - [Tor]: [tor.rs], the SOCKS5 client and the layer's configuration; every name
      resolved and address connected to is recorded.
    - [Transport]: the frames, the key exchange, the Noise handshake, the post-quantum
      authentication and the identity file of [p2p.rs], over the class [Wire] for
      [snow], [fips203] and [bincode].
    - [Api], [Economics], [Trace], [Explorer]: the methods of [api.rs] with the reports of
      [economics.rs], [ai_trace.rs], [indexer.rs] and [versionbits.rs] that they return, as
      functions from the chain state to JSON values.
    - [Http]: the server of [main.rs]; reading a request, guarding writes, the routing
      table, the event stream and the connection counters ([http_step]).
    - [Startup]: [main] itself; from the command line to the listeners and the first dials,
      the thread that saves, the shutdown handler, the mempool dump.
    - [Signing]: the signing side of [abs_sig.rs], [registry.rs], [dual_sig.rs] and
      [custody.rs]; the solitary miner.

    A long run:
    - [LongChain]: no code of its own; the state of a node after any number of mined blocks,
      past the finality depth, at which the theorems on finality are applied.

    [Utxo] calls [Predicate] and [Crypto]; [Bdpe] joins [Escrow] to [UtxoTx];
    [Ledger] composes [UtxoTx], [Registry], [Custody] and [Block]; [Ghostdag] stands
    on [Dag] and decides the order in which [Ledger] is replayed; [Chain] composes all
    of them; [Mempool], [Mining], [Dispatch] and [Indexer] act on its [ChainState]; [Startup]
    composes [NodeRole], [Net], [Tor] and [Persist] into a running process, and [Http]
    serves [Api] and [Explorer] from it.

    ** What the theorems show

    Archival nodes.  The theorems on whole runs of a node (the live ledger as a replay,
    agreement, finality, reported finality, chains the network gives a node, restarts, the
    index, the producer) start from [seeded], a node with [archival = true], and the
    [reachable] states are those of such a node.  The default, [archival = false], prunes
    bodies and history.  [prune_bodies] and [prune_history] are modelled in [Chain], and the
    checks of one admission, the ledger, GHOSTDAG, the index, the pools and the tables are
    proved for any state; but a pruning node does not keep what a replay reads, and agreement
    and finality do not hold of it in general (a side branch that is merged after its bodies
    were cleared is replayed empty; a cleared side leaf is missing from the index that answers
    the finality test).

    - Money: replaying any well-formed block keeps every unit accounted for, and no
      block mints above the cap or above its subsidy ([Ledger]); UTXO transactions
      and registry operations conserve value; the closed form of the emission is the
      sum of the subsidies ([Genesis]).
    - Authority: spent outputs were live, mature and unlocked by their predicate
      under a verified signature; no output is spent twice; the evaluator agrees
      with the declarative meaning of predicates; multisig, vault and escrow funds
      move only by the parties' right.
    - Consensus: the blue set of every block is a k-cluster; the canonical order lists
      the past exactly once and extends the order of the selected parent; the interval
      index answers ancestry exactly, through every relabelling; on an archival node the live
      ledger is the replay of the canonical order and a function of the set of blocks, and
      finality is irreversible; an accepted header commits to the ledger it leaves; the pre-checks
      refuse nothing that admission accepts.
    - Persistence and synchronisation: a save that stops anywhere leaves a loadable
      state; loading restores what was saved; accepted header proofs are linked,
      worked chains down to genesis; headers that passed verification import into a fresh
      node that then adopts the served ledger; an adopted pruning-point ledger is the one its
      header commits to, in the sections the commitment covers.
    - Node: the tables of [node_ok] stay within their limits (the orphan pool within its
      limit and the parents of one block) and every handler of an archival node returns; such
      a node's chain is one its own rules admit; banned peers stay out while the list of
      banned addresses has room; penalties fall on the sender of
      an invalid block; the pruning point moves only to more work; the address tables
      keep their shape; public and Tor-only starts write the policy they promise.
    - Production: a block the producer assembles is admitted, under the conditions the
      theorem names; a Stratum share is
      accepted only from an authorised name, for a live job, at its target and once; the UTXO
      pool holds pairwise compatible transactions within its limits and replacement
      pays for what it displaces; the index follows the selected chain through
      reorganisations.
    - Edges: two honest nodes establish a session, and what one writes the other reads; a
      kept connection has authenticated its peer; a Tor-only start resolves and connects to
      nothing but its proxy when it dials and takes peers on loopback only, while its API
      listens where it was told to; a clean stop and start restores the chain of a ledger that
      passes the supply test; no request changes
      the state except through a guarded path with the configured token, and then only the
      pools; connections and event streams stay within their limits; requests are
      reassembled whatever the network did to them.
    - Reports: a block that an archival node reports final stays so; equal audit fingerprints mean equal audit
      trails or a known collision; the trace log is the tail of the full history; a search
      for a block hash finds exactly the blocks of the selected chain; what is signed
      verifies and a sealed block yields a valid certificate.
    - Data: addresses decode to what was encoded; the vault parser inverts the
      builder; built transactions balance; the proof-of-work test and the retarget
      meet their arithmetic specification; an escrow's history rebuilds it; the
      constraints of the sequential-work proof have one solution.
    - Divergences: theorems that exhibit behaviour that a comment of the source
      excludes (order of merged blocks, the supply test and escrowed funds, partial
      mutation, truncated bounds, ledger sections a served pruning point may forge,
      a producer that stalls or panics, pins that accept every key, a crash window after
      which a start ignores the backup, an identity proof that can be reflected).

    ** Fuel

    [cumulative_issuance_loop] runs [ISSUANCE_FUEL] halvings, more than the reward
    has bits; [emit_bits] at most as many digits as the accumulator holds; [walk]
    at most the initial stack plus every parent edge ([walk_complete]: it always
    finishes); walks along selected parents at most the size of the GHOSTDAG map
    ([chain_loop_enough], [blues_loop_enough]: more fuel changes nothing); the two
    loops of a relabelling twice and once the number of nodes ([size_loop_forest],
    [assign_forest]); [dfs_loop] two visits per block and one per edge
    ([dfs_fuel_enough]); [ingest_loop] a bound quadratic in the number of waiting
    orphans, which every run stays under ([ingest_fuel], [ingest_total]);
    [lower_hex_loop] the sixteen digits of a 64-bit number.  A nonce walk of the
    account pool ends within the length of the pool plus one unless it saturates at
    [u64::MAX], where the source does not return: there the model is [None], and the
    theorems say so.  The fuel of a mining lane is the number of attempts before its
    deadline, an input of the search, as is the number of hashes of [light_search] and of
    [solo_search].  Loops over text ([base32_loop], [lossy_loop], [percent_loop],
    [words_loop], [trim_start_matches]) and the reassembly of a message ([chunks_loop],
    [read_chunks], where every frame consumes input) run at most once per byte; the
    superblock walk of a pruning report once per block ([proof_fuel]).

    ** Not modelled

    Operating-system sockets, threads and clocks: connects, reads, interleavings and times
    are inputs of the model.  Third-party code: Blake3, ML-DSA, SLH-DSA, ML-KEM, Noise,
    [bincode], [serde_json] text, [winterfell], [num-bigint], which are the parameters
    named above.  Key generation, which is those crates' own.  Floating point: the cost
    basis of [economics.rs], the transfer rate of the analytics, the payout of
    [MiningPool].  Printing: banners, help texts and log lines.  The self-tests of
    [assurance.rs], whose subjects are verified here directly. *)

From stdpp Require Export base tactics numbers list list_numbers strings gmap sets pretty sorting.
From Stdlib Require Export ZArith Lia.

#[global] Open Scope Z_scope.

(** ** Representation of the source's primitive types

    A [u8]/[u32]/[u64]/[u128]/[usize] is a [Z]; the arithmetic the source
    performs on it is one of the width-indexed operations below.  A byte string
    ([Vec<u8>], [&[u8]]) is a list of such [Z].  The newtype [Hash([u8; 64])] is
    the 512-bit number its bytes spell big-endian: the derived [Ord] on the
    array is lexicographic, which is the numeric order on that number. *)
Abbreviation Hash := Z (only parsing).
Abbreviation bytes := (list Z) (only parsing).

Definition umax (w : Z) : Z := 2 ^ w - 1.
Abbreviation U32_MAX := (umax 32).
Abbreviation U64_MAX := (umax 64).
Abbreviation U128_MAX := (umax 128).
Definition HASH_ZERO : Hash := 0.
Definition HASH_MAX : Hash := umax 512.

(** [in_width w x]: [x] is a value of the unsigned type of width [w]. *)
Definition in_width (w x : Z) : Prop := 0 <= x <= umax w.
Abbreviation is_u8 := (in_width 8).
Abbreviation is_u32 := (in_width 32).
Abbreviation is_u64 := (in_width 64).
Abbreviation is_u128 := (in_width 128).

(** [a + b] of a release build wraps; the named variants are the std methods. *)
Definition wrap (w x : Z) : Z := x mod 2 ^ w.
Definition sat_add (w a b : Z) : Z := Z.min (a + b) (umax w).
Definition sat_sub (a b : Z) : Z := Z.max 0 (a - b).
Definition sat_mul (w a b : Z) : Z := Z.min (a * b) (umax w).
Definition checked_add (w a b : Z) : option Z :=
  if a + b <=? umax w then Some (a + b) else None.
(** [Ord::clamp]. *)
Definition clamp (x lo hi : Z) : Z := if x <? lo then lo else if hi <? x then hi else x.
(** [x.len()] as a machine integer. *)
Definition len {A} (l : list A) : Z := Z.of_nat (length l).

(** [to_le_bytes] of an integer of [n] bytes, and the big-endian bytes of a digest. *)
Fixpoint le_bytes (n : nat) (z : Z) : bytes :=
  match n with O => [] | S n => z mod 256 :: le_bytes n (z / 256) end.
Definition be_bytes (n : nat) (z : Z) : bytes := rev (le_bytes n z).
Definition hash_bytes (h : Hash) : bytes := be_bytes 64 h.
Fixpoint le_int (bs : bytes) : Z :=
  match bs with [] => 0 | b :: bs => b + 256 * le_int bs end.
Definition be_int (bs : bytes) : Z := le_int (rev bs).
(** [str::as_bytes]. *)
Definition str_bytes (s : string) : bytes :=
  (λ a, Z.of_N (Ascii.N_of_ascii a)) <$> String.list_ascii_of_string s.

(** ** Results

    [Result<T, String>]; error strings are the source's. *)
Inductive result (A : Type) : Type :=
| Ok (a : A)
| Err (e : string).
Arguments Ok {A} a.
Arguments Err {A} e.

#[global] Instance result_ret : MRet result := λ A a, Ok a.
#[global] Instance result_bind : MBind result :=
  λ A B f m, match m with Ok a => f a | Err e => Err e end.
#[global] Instance result_fmap : FMap result :=
  λ A B f m, match m with Ok a => Ok (f a) | Err e => Err e end.
#[global] Instance result_eq_dec {A} `{EqDecision A} : EqDecision (result A).
Proof. solve_decision. Defined.

Definition is_ok {A} (r : result A) : bool := match r with Ok _ => true | Err _ => false end.
Definition is_err {A} (r : result A) : bool := negb (is_ok r).
(** [Option::ok_or]. *)
Definition ok_or {A} (o : option A) (e : string) : result A :=
  match o with Some a => Ok a | None => Err e end.
(** [Result::map_err] with a prefix, the only way the source uses it on its own errors. *)
Definition map_err {A} (f : string → string) (r : result A) : result A :=
  match r with Ok a => Ok a | Err e => Err (f e) end.

Declare Scope hassan_scope.
Delimit Scope hassan_scope with hassan.
Open Scope hassan_scope.

(** [fail_if c as e; k]: the source's [if c { return Err(e) }] followed by [k]. *)
Notation "'fail_if' c 'as' e ; k" := (if c then Err e else k)
  (at level 100, c at level 99, e at level 99, k at level 200, right associativity,
   format "'fail_if'  c  'as'  e ; '//' k") : hassan_scope.

(** Loop over a list where an iteration may fail. *)
Fixpoint try_fold {S A : Type} (f : S → A → result S) (s : S) (l : list A) : result S :=
  match l with
  | [] => Ok s
  | x :: l => match f s x with Ok s' => try_fold f s' l | Err e => Err e end
  end.

(** Loop of a function that mutates as it goes: an iteration may fail after having
    changed the state, and the state at the failure is what the caller keeps. *)
Fixpoint run {S A : Type} (f : S → A → result unit * S) (s : S) (l : list A) : result unit * S :=
  match l with
  | [] => (Ok (), s)
  | x :: l =>
      match f s x with
      | (Ok _, s') => run f s' l
      | (Err e, s') => (Err e, s')
      end
  end.

(** ** Proof automation of the development *)

(** Decide the boolean tests the source branches on. *)
Create HintDb hassan discriminated.
Create Rewrite HintDb hassan.



(** Case analysis on one scrutinee of a hypothesis, dropping absurd branches. *)
Ltac step_in H :=
  match type of H with
  | context [match ?x with _ => _ end] =>
      lazymatch x with
      | context [match _ with _ => _ end] => fail
      | _ => let E := fresh "E" in destruct x eqn:E
      end
  end; simplify_eq/=.
Ltac steps_in H := repeat (step_in H; try done).
Tactic Notation "steps" "in" hyp(H) := steps_in H.

(** Turn boolean comparisons on [Z] into propositions. *)
Ltac zbool :=
  repeat match goal with
  | H : (_ <=? _)%Z = true |- _ => apply Z.leb_le in H
  | H : (_ <=? _)%Z = false |- _ => apply Z.leb_gt in H
  | H : (_ <? _)%Z = true |- _ => apply Z.ltb_lt in H
  | H : (_ <? _)%Z = false |- _ => apply Z.ltb_ge in H
  | H : (_ =? _)%Z = true |- _ => apply Z.eqb_eq in H
  | H : (_ =? _)%Z = false |- _ => apply Z.eqb_neq in H
  | H : bool_decide _ = true |- _ => apply bool_decide_eq_true in H
  | H : bool_decide _ = false |- _ => apply bool_decide_eq_false in H
  | H : negb _ = true |- _ => apply negb_true_iff in H
  | H : negb _ = false |- _ => apply negb_false_iff in H
  | H : (_ && _) = true |- _ => apply andb_true_iff in H; destruct H
  | H : (_ || _) = false |- _ => apply orb_false_iff in H; destruct H
  end.

(** A run whose outcome evaluates to [a]. *)
Lemma outcome {A B} (p : A * B) a : p.1 = a → p = (a, p.2).
Proof. destruct p; simpl; by intros ->. Qed.

(** A result that evaluates to a success. *)
Lemma ok_exists {A} (r : result A) : is_ok r = true → ∃ a, r = Ok a.
Proof. destruct r; [eauto|done]. Qed.

(** ** Machine integers *)

Lemma umax_pos w : 0 <= w → 0 <= umax w.
Proof. unfold umax. intros. pose proof (Z.pow_pos_nonneg 2 w). lia. Qed.

Lemma wrap_small w x : in_width w x → wrap w x = x.
Proof. unfold in_width, umax, wrap. intros. apply Z.mod_small. lia. Qed.

Lemma sat_add_exact w a b : a + b <= umax w → sat_add w a b = a + b.
Proof. unfold sat_add. lia. Qed.

Lemma sat_mul_exact w a b : a * b <= umax w → sat_mul w a b = a * b.
Proof. unfold sat_mul. lia. Qed.

Lemma sat_add_width w a b : 0 <= w → 0 <= a → 0 <= b → in_width w (sat_add w a b).
Proof. unfold in_width, sat_add. intros Hw ??. pose proof (umax_pos w Hw). lia. Qed.

Lemma checked_add_Some w a b c :
  checked_add w a b = Some c ↔ c = a + b ∧ a + b <= umax w.
Proof. unfold checked_add. destruct (Z.leb_spec (a + b) (umax w)); naive_solver lia. Qed.

Lemma clamp_range x lo hi : lo <= hi → lo <= clamp x lo hi <= hi.
Proof. unfold clamp. destruct (Z.ltb_spec x lo), (Z.ltb_spec hi x); lia. Qed.

Lemma clamp_mono x y lo hi : lo <= hi → x <= y → clamp x lo hi <= clamp y lo hi.
Proof.
  unfold clamp. destruct (Z.ltb_spec x lo), (Z.ltb_spec hi x), (Z.ltb_spec y lo), (Z.ltb_spec hi y); lia.
Qed.

#[export] Hint Rewrite @length_app @length_map @length_fmap @length_rev : hassan.
#[export] Hint Resolve wrap_small sat_add_exact sat_mul_exact umax_pos : hassan.

Lemma len_nonneg {A} (l : list A) : 0 <= len l.
Proof. unfold len. lia. Qed.
Lemma filter_bool_sublist {A} (f : A → bool) l : List.filter f l `sublist_of` l.
Proof. induction l as [|x l IH]; [done|]. simpl. destruct (f x); by constructor. Qed.
Lemma len_filter_le {A} (f : A → bool) l : len (List.filter f l) <= len l.
Proof. unfold len. pose proof (sublist_length _ _ (filter_bool_sublist f l)). lia. Qed.

(** ** Sums over finite maps

    [total f m] is [m.values().map(f).sum()] before any wrap-around. *)
Section total.
Context {K : Type} `{Countable K} {V : Type}.
Implicit Types (m : gmap K V) (f : V → Z).

Definition total f m : Z := map_fold (λ _ v acc, f v + acc) 0 m.

(** What key [k] contributes to the sum. *)
Definition contrib f m (k : K) : Z := from_option f 0 (m !! k).

Lemma total_empty f : total f ∅ = 0.
Proof. apply map_fold_empty. Qed.

Lemma total_insert_None f m k v : m !! k = None → total f (<[k:=v]> m) = f v + total f m.
Proof. intros Hk. unfold total. rewrite map_fold_insert_L; [done| |done]. intros; lia. Qed.

Lemma total_delete f m k : total f (delete k m) = total f m - contrib f m k.
Proof.
  unfold contrib. destruct (m !! k) as [v|] eqn:Hk; simpl.
  - rewrite <- (insert_delete_id m k v Hk) at 2.
    rewrite total_insert_None; [lia|]. apply lookup_delete_eq.
  - rewrite delete_id; [lia|done].
Qed.

Lemma total_insert f m k v : total f (<[k:=v]> m) = total f m - contrib f m k + f v.
Proof.
  rewrite <- insert_delete_eq, total_insert_None, total_delete; [lia|].
  apply lookup_delete_eq.
Qed.

Lemma total_nonneg f m : map_Forall (λ _ v, 0 <= f v) m → 0 <= total f m.
Proof.
  induction m as [|k v m Hk IH] using map_ind; intros Hall; [done|].
  rewrite total_insert_None by done.
  apply map_Forall_insert in Hall as [? ?]; [|done]. specialize (IH ltac:(done)). lia.
Qed.

Lemma contrib_le_total f m k : map_Forall (λ _ v, 0 <= f v) m → contrib f m k <= total f m.
Proof.
  intros Hall. pose proof (total_delete f m k) as Hd.
  assert (0 <= total f (delete k m)); [|lia].
  apply total_nonneg. by apply map_Forall_delete.
Qed.

Lemma total_filter_le f m (P : K * V → Prop) `{!∀ kv, Decision (P kv)} :
  (∀ v, 0 <= f v) → total f (filter P m) <= total f m.
Proof.
  intros Hf. induction m as [|k v m Hk IH] using map_ind; [by rewrite map_filter_empty|].
  rewrite map_filter_insert, total_insert_None by done. specialize (Hf v). case_decide.
  - rewrite total_insert_None; [lia|]. apply map_lookup_filter_None_2. by left.
  - rewrite delete_id by done. lia.
Qed.

Lemma contrib_insert_eq f m k v : contrib f (<[k:=v]> m) k = f v.
Proof. unfold contrib. by rewrite lookup_insert_eq. Qed.

Lemma contrib_insert_ne f m j k v : j ≠ k → contrib f (<[j:=v]> m) k = contrib f m k.
Proof. intros. unfold contrib. by rewrite lookup_insert_ne. Qed.

Lemma contrib_Some f m k v : m !! k = Some v → contrib f m k = f v.
Proof. unfold contrib. by intros ->. Qed.

Lemma contrib_None f m k : m !! k = None → contrib f m k = 0.
Proof. unfold contrib. by intros ->. Qed.
End total.

(** Sum of a list of integers, as [iter().sum()] computes it before wrap-around. *)
Definition zsum (l : list Z) : Z := foldr Z.add 0 l.

Lemma zsum_cons x l : zsum (x :: l) = x + zsum l.
Proof. done. Qed.

Lemma zsum_app l1 l2 : zsum (l1 ++ l2) = zsum l1 + zsum l2.
Proof. induction l1; simpl; lia. Qed.

Lemma zsum_nonneg l : Forall (Z.le 0) l → 0 <= zsum l.
Proof. induction 1; simpl; lia. Qed.


(** ** Byte strings as numbers *)

Lemma le_int_app l1 l2 : le_int (l1 ++ l2) = le_int l1 + 256 ^ len l1 * le_int l2.
Proof.
  unfold len. induction l1 as [|b l1 IH]; simpl app; simpl le_int; [simpl Z.of_nat; lia|].
  rewrite IH. simpl length. rewrite Nat2Z.inj_succ, Z.pow_succ_r by lia. lia.
Qed.

Lemma be_int_cons b l : be_int (b :: l) = b * 256 ^ len l + be_int l.
Proof.
  unfold be_int. simpl rev. rewrite le_int_app. simpl le_int.
  unfold len. rewrite length_rev. lia.
Qed.

Lemma be_int_zeros n l : be_int (replicate n 0 ++ l) = be_int l.
Proof. induction n as [|n IH]; [done|]. simpl app. rewrite be_int_cons, IH. lia. Qed.

Lemma le_int_bytes n z : 0 <= z < 256 ^ Z.of_nat n → le_int (le_bytes n z) = z.
Proof.
  revert z. induction n as [|n IH]; intros z Hz; simpl le_bytes; simpl le_int; [simpl in Hz; lia|].
  rewrite Nat2Z.inj_succ, Z.pow_succ_r in Hz by lia.
  rewrite IH; [pose proof (Z.div_mod z 256); lia|].
  split; [apply Z.div_pos; lia|apply Z.div_lt_upper_bound; lia].
Qed.

Lemma length_le_bytes n z : length (le_bytes n z) = n.
Proof. revert z. induction n; intros; simpl; auto. Qed.

Lemma be_int_bytes n z : 0 <= z < 256 ^ Z.of_nat n → be_int (be_bytes n z) = z.
Proof. intros. unfold be_int, be_bytes. rewrite rev_involutive. by apply le_int_bytes. Qed.

Lemma length_be_bytes n z : length (be_bytes n z) = n.
Proof. unfold be_bytes. by rewrite length_rev, length_le_bytes. Qed.

#[export] Hint Rewrite @length_le_bytes @length_be_bytes : hassan.

(** Exhaustive check of a decidable property on an initial segment. *)
Lemma forallb_seqZ (f : Z → bool) n d :
  forallb f (seqZ 0 n) = true → 0 <= d < n → f d = true.
Proof.
  intros Hall Hd. rewrite forallb_forall in Hall. apply Hall.
  apply list_elem_of_In, elem_of_seqZ. lia.
Qed.

(** An invariant of the body of a mutating loop holds wherever the loop stops. *)
Lemma run_inv {S A} (P : S → Prop) (f : S → A → result unit * S) l s :
  P s → (∀ s x, x ∈ l → P s → P (f s x).2) → P (run f s l).2.
Proof.
  revert s. induction l as [|x l IH]; intros s Hs Hf; [done|]. simpl.
  pose proof (Hf s x ltac:(apply elem_of_cons; by left) Hs) as Hx.
  destruct (f s x) as [[[]|e] s']; simpl in *; [|done].
  apply IH; [done|]. intros s0 y Hy. apply Hf. apply elem_of_cons. by right.
Qed.

Lemma foldl_inv {S A} (P : S → Prop) (f : S → A → S) l s :
  P s → (∀ s x, x ∈ l → P s → P (f s x)) → P (foldl f s l).
Proof.
  revert s. induction l as [|x l IH]; intros s Hs Hf; [done|]. simpl. apply IH.
  - apply Hf; [apply elem_of_cons; by left|done].
  - intros s0 y Hy. apply Hf. apply elem_of_cons. by right.
Qed.

(** A loop that adds, with saturation, what each accepted element is worth: when the
    sum fits, the result is the exact sum, and every element was accepted. *)
Lemma try_fold_sum {S A} (f : S → A → result S) (w : S → Z) (g : A → Z) (P : A → Prop) l s s' :
  (∀ s x s', f s x = Ok s' → P x ∧ w s' = sat_add 128 (w s) (g x)) →
  Forall (λ x, 0 <= g x) l → w s + zsum (g <$> l) <= U128_MAX →
  try_fold f s l = Ok s' → Forall P l ∧ w s' = w s + zsum (g <$> l).
Proof.
  intros Hf. revert s. induction l as [|x l IH]; intros s Hg Hle; cbn [try_fold].
  - intros [= <-]. unfold zsum in *. simpl in *. split; [constructor|lia].
  - apply Forall_cons in Hg as [Hx Hg]. rewrite fmap_cons, zsum_cons in Hle |- *.
    assert (0 <= zsum (g <$> l)) as Hl by (apply zsum_nonneg; by apply Forall_fmap).
    destruct (f s x) as [s1|] eqn:Hs; [|done]. destruct (Hf _ _ _ Hs) as [HP Hw].
    rewrite sat_add_exact in Hw by lia. intros Ht. destruct (IH s1 Hg ltac:(lia) Ht) as [HPl ->].
    split; [by constructor|lia].
Qed.

Lemma zsum_rev l : zsum (rev l) = zsum l.
Proof. induction l as [|x l IH]; [done|]. cbn [rev]. rewrite zsum_app, zsum_cons, IH. simpl. lia. Qed.

Lemma zsum_le_bound (l : list Z) b : Forall (λ x, x <= b) l → zsum l <= b * len l.
Proof. unfold len. induction 1 as [|x l Hx _ IH]; cbn [length]; [simpl; lia|]. rewrite zsum_cons. lia. Qed.

Lemma fmap_rev {A B} (f : A → B) l : f <$> rev l = rev (f <$> l).
Proof. apply map_rev. Qed.

Lemma rev_perm {A} (l : list A) : rev l ≡ₚ l.
Proof. symmetry. apply Permutation_rev. Qed.
