(* ===== verification/Genesis.v ===== *)
(** * Monetary schedule, proof-of-work targets and difficulty

    [src/src/genesis.rs] (consensus constants, subsidy, cumulative issuance, era
    floor) and the difficulty arithmetic of [src/src/lib.rs] ([pow_target],
    [verify_pow], [retarget_difficulty], [hop_difficulty_bounds]).

    The theorems: the O(halvings) closed form of the issuance is the sum of the
    per-block subsidies and stays under the hard cap; the proof-of-work test is
    a comparison with [MAX_TARGET / difficulty]; a retarget stays inside its
    clamp and above the floor; the hop bounds bracket the older difficulty as
    long as they fit 64 bits, and what happens when they do not. *)

From S2P Require Import Prelude.

(** ** Constants (genesis.rs) *)
Definition ACCOUNT_PEER_TRANSFERS : bool := false.
Definition BLOCK_TIME_MS : Z := 100.
Definition TARGET_BLOCK_TIME_MS : Z := BLOCK_TIME_MS.
Definition MAX_BLOCK_PARENTS : Z := 10.
Definition MAX_MERGESET_SIZE : Z := 512.
Definition DAA_WINDOW : Z := 661.
Definition MIN_TX_FEE : Z := 1000.
Definition MIN_FEE_PER_BYTE : Z := 1.
Definition DUST_THRESHOLD : Z := 546.
Definition FINALITY_TARGET_HOURS : Z := 12.
Definition FINALITY_DEPTH : Z := sat_mul 64 FINALITY_TARGET_HOURS 3600000 / BLOCK_TIME_MS.
Definition PRUNING_DEPTH : Z := sat_mul 64 FINALITY_DEPTH 2.
Definition GENESIS_TIMESTAMP_MS : Z := 1785024000000.
Definition MAX_FUTURE_DRIFT_MS : Z := 2 * 60 * 60 * 1000.
Definition CHAIN_ID : Z := 16858749123010493047.
Definition COIN : Z := 100000000.
Definition MAX_SUPPLY_COINS : Z := 25000000.
Definition MAX_SUPPLY : Z := MAX_SUPPLY_COINS * COIN.
Definition BLOCK_REWARD_COINS : Z := 50.
Definition BLOCK_REWARD : Z := BLOCK_REWARD_COINS * COIN.
Definition HALVING_INTERVAL : Z := 250000.
Definition BOOTSTRAP_ERA_END : Z := 1000000 * COIN.
Definition HARD_ERA_MIN_DIFFICULTY : Z := Z.shiftl 1 24.
Definition BOOTSTRAP_MIN_DIFFICULTY : Z := 7000.
Definition GENESIS_DIFFICULTY : Z := 1.

(** ** Subsidy and issuance (genesis.rs) *)

(** [block_subsidy]. *)
Definition block_subsidy (blue_score : Z) : Z :=
  let halvings := blue_score / HALVING_INTERVAL in
  if 128 <=? halvings then 0 else Z.shiftr BLOCK_REWARD halvings.

(** The loop of [cumulative_issuance]: state [(total, remaining, reward)].  The
    reward loses a bit per iteration, so [log2 BLOCK_REWARD + 2] iterations
    exhaust it whatever [remaining] is. *)
Fixpoint cumulative_issuance_loop (fuel : nat) (total remaining reward : Z) : Z :=
  match fuel with
  | O => total
  | S fuel =>
      if (0 <? remaining) && (0 <? reward) then
        let take := Z.min remaining HALVING_INTERVAL in
        cumulative_issuance_loop fuel
          (sat_add 128 total (sat_mul 128 reward take))
          (remaining - take)
          (Z.shiftr reward 1)
      else total
  end.

Definition ISSUANCE_FUEL : nat := 64.

(** [cumulative_issuance]. *)
Definition cumulative_issuance (up_to_blue : Z) : Z :=
  Z.min (cumulative_issuance_loop ISSUANCE_FUEL 0 up_to_blue BLOCK_REWARD) MAX_SUPPLY.

(** [era_min_difficulty]; [lab_easy] is the process flag read by [lab_easy_pow]. *)
Definition era_min_difficulty (lab_easy : bool) (minted_before timestamp_ms : Z) : Z :=
  if lab_easy || (minted_before <? BOOTSTRAP_ERA_END)
  then BOOTSTRAP_MIN_DIFFICULTY else HARD_ERA_MIN_DIFFICULTY.

(** [effective_min_difficulty]. *)
Definition effective_min_difficulty (lab_easy : bool) : Z :=
  era_min_difficulty lab_easy 0 GENESIS_TIMESTAMP_MS.

(** ** Proof of work (lib.rs) *)

Definition MAX_TARGET : Hash := HASH_MAX.

(** [BigUint::to_bytes_be]: big-endian digits without leading zeros. *)
Fixpoint to_bytes_be_aux (fuel : nat) (z : Z) (acc : bytes) : bytes :=
  match fuel with
  | O => acc
  | S fuel => if z =? 0 then acc else to_bytes_be_aux fuel (z / 256) (z mod 256 :: acc)
  end.
Definition to_bytes_be (z : Z) : bytes :=
  if z =? 0 then [0] else to_bytes_be_aux 65 z [].

(** [pow_target]: the quotient right-aligned in 64 bytes. *)
Definition pow_target (difficulty : Z) : Hash :=
  let target := MAX_TARGET / Z.max difficulty 1 in
  let target_bytes := to_bytes_be target in
  let copy_len := Nat.min (length target_bytes) 64 in
  let start := (length target_bytes - copy_len)%nat in
  be_int (replicate (64 - copy_len)%nat 0 ++ drop start target_bytes).

(** [hash_meets_target]: lexicographic comparison of the byte arrays. *)
Definition hash_meets_target (hash target : Hash) : bool := hash <? target.

(** [verify_pow]. *)
Definition verify_pow (hash : Hash) (difficulty : Z) : bool :=
  hash_meets_target hash (pow_target difficulty).

(** ** Difficulty adjustment (lib.rs) *)

(** [retarget_difficulty]; [as u64] truncates. *)
Definition retarget_difficulty (base_difficulty newest_ts oldest_ts floor : Z) : Z :=
  let actual_span_ms := Z.max (sat_sub newest_ts oldest_ts) 1 in
  let target_span_ms := DAA_WINDOW * TARGET_BLOCK_TIME_MS in
  let sp := Z.max base_difficulty floor in
  let raw := sat_mul 128 sp target_span_ms / actual_span_ms in
  let up := Z.max (sp * 5 / 4) (sp + 1) in
  let down := Z.max (sp * 3 / 4) floor in
  let clamped := clamp raw down up in
  Z.max (wrap 64 clamped) floor.

(** The window loop of [hop_difficulty_bounds]. *)
Fixpoint hop_bounds_loop (windows : nat) (lo hi floor : Z) : Z * Z :=
  match windows with
  | O => (lo, hi)
  | S windows =>
      hop_bounds_loop windows (Z.max (lo * 3 / 4) floor) (Z.max (hi * 5 / 4) (hi + 1)) floor
  end.

(** [hop_difficulty_bounds]. *)
Definition hop_difficulty_bounds (older_diff height_gap floor : Z) : Z * Z :=
  let base := Z.max older_diff floor in
  let windows := sat_add 64 (sat_sub height_gap 1 / DAA_WINDOW) 1 in
  let windows := Z.min windows 64 in
  let '(lo, hi) := hop_bounds_loop (Z.to_nat windows) base base floor in
  (Z.max (wrap 64 lo) floor, wrap 64 hi).

(** ** Issuance: the closed form is the sum of the subsidies *)

(** Reference: the subsidies of blue scores [0 .. n-1], added one by one. *)
Definition subsidy_sum (n : Z) : Z := zsum (block_subsidy <$> seqZ 0 n).

Section issuance.
Local Abbreviation RW k := (Z.shiftr BLOCK_REWARD k).
Local Abbreviation HI := HALVING_INTERVAL.

Lemma reward_nonneg k : 0 <= RW k.
Proof. by apply Z.shiftr_nonneg. Qed.

Lemma reward_exhausted k : 33 <= k → RW k = 0.
Proof. intros. apply Z.shiftr_eq_0; [done|]. assert (Z.log2 BLOCK_REWARD = 32) as -> by done. lia. Qed.

Lemma reward_halves k : 0 <= k → 2 * RW (k + 1) <= RW k.
Proof.
  intros. rewrite <- Z.shiftr_shiftr by lia. rewrite (Z.shiftr_div_pow2 _ 1) by lia.
  change (2 ^ 1) with 2. pose proof (Z.mul_div_le (RW k) 2). lia.
Qed.

Lemma block_subsidy_shift b : 0 <= b → block_subsidy b = RW (b / HI).
Proof.
  intros. unfold block_subsidy. destruct (Z.leb_spec 128 (b / HI)); [|done].
  by rewrite reward_exhausted by lia.
Qed.

Lemma zsum_const (l : list Z) (f : Z → Z) c :
  Forall (λ x, f x = c) l → zsum (f <$> l) = len l * c.
Proof.
  unfold len. induction 1 as [|x l Hx _ IH]; [done|].
  change (zsum (f <$> x :: l)) with (f x + zsum (f <$> l)). rewrite Hx, IH. simpl length. lia.
Qed.

(** Within one halving period the subsidies are constant. *)
Lemma subsidy_sum_period k m :
  0 <= k → 0 <= m <= HI → subsidy_sum (k * HI + m) = subsidy_sum (k * HI) + m * RW k.
Proof.
  intros Hk Hm. unfold subsidy_sum. rewrite seqZ_app by (unfold HALVING_INTERVAL in *; lia).
  rewrite fmap_app, zsum_app, Z.add_0_l. f_equal.
  rewrite (zsum_const _ block_subsidy (RW k)).
  - unfold len. rewrite length_seqZ. rewrite Z2Nat.id; lia.
  - apply Forall_forall. intros b [Hlo Hhi]%elem_of_seqZ.
    unfold HALVING_INTERVAL in *. rewrite block_subsidy_shift by lia; unfold HALVING_INTERVAL in *.
    destruct (decide (m = 0)); [lia|].
    assert (b / 250000 = k) as ->; [|done].
    symmetry. apply (Z.div_unique _ _ _ (b - k * 250000)); lia.
Qed.

Lemma subsidy_sum_bound k : 0 <= k → subsidy_sum (k * HI) + 2 * HI * RW k <= MAX_SUPPLY.
Proof.
  intros Hk. revert k Hk. refine (natlike_ind _ _ _); [vm_compute; discriminate|].
  intros k Hk IH. unfold Z.succ.
  replace ((k + 1) * HI) with (k * HI + HI) by lia.
  rewrite subsidy_sum_period by (unfold HALVING_INTERVAL; lia).
  pose proof (reward_halves k Hk). unfold HALVING_INTERVAL in *. lia.
Qed.

Lemma subsidy_nonneg b : 0 <= b → 0 <= block_subsidy b.
Proof. intros. rewrite block_subsidy_shift by done. apply reward_nonneg. Qed.

Lemma subsidy_sum_nonneg n : 0 <= subsidy_sum n.
Proof.
  apply zsum_nonneg, Forall_fmap, Forall_forall. intros b [Hb _]%elem_of_seqZ.
  by apply subsidy_nonneg.
Qed.

(** Once the reward is exhausted, further blocks add nothing. *)
Lemma subsidy_sum_exhausted k m :
  0 <= k → 0 <= m → RW k = 0 → subsidy_sum (k * HI + m) = subsidy_sum (k * HI).
Proof.
  intros Hk Hm HR. unfold subsidy_sum, HALVING_INTERVAL. rewrite seqZ_app by lia.
  rewrite fmap_app, zsum_app, (zsum_const (seqZ (_ + _) _) block_subsidy 0); [lia|].
  apply Forall_forall. intros b [Hb _]%elem_of_seqZ.
  rewrite block_subsidy_shift by lia. unfold HALVING_INTERVAL.
  assert (k <= b / 250000) by (apply Z.div_le_lower_bound; lia).
  replace (b / 250000) with (k + (b / 250000 - k)) by lia.
  rewrite <- Z.shiftr_shiftr by lia. rewrite HR. apply Z.shiftr_0_l.
Qed.

Lemma issuance_loop_correct fuel k rem :
  0 <= k → 0 <= rem → 33 <= k + Z.of_nat fuel →
  cumulative_issuance_loop fuel (subsidy_sum (k * HI)) rem (RW k) = subsidy_sum (k * HI + rem).
Proof.
  revert k rem. induction fuel as [|fuel IH]; intros k rem Hk Hrem Hf; simpl.
  { rewrite subsidy_sum_exhausted; [done..|]. apply reward_exhausted. lia. }
  destruct (Z.ltb_spec 0 rem) as [Hr|Hr]; simpl.
  2: { by assert (rem = 0) as -> by lia; rewrite Z.add_0_r. }
  destruct (Z.ltb_spec 0 (RW k)) as [HR|HR].
  2: { pose proof (reward_nonneg k). rewrite subsidy_sum_exhausted by lia. done. }
  pose proof (subsidy_sum_bound k Hk) as Hbound.
  pose proof (subsidy_sum_nonneg (k * HI)) as Hn.
  assert (MAX_SUPPLY < umax 128) as Hw by done.
  set (take := Z.min rem HI).
  assert (0 <= take <= HI) as Ht by (unfold take, HALVING_INTERVAL in *; lia).
  assert (RW k * take <= RW k * HI) as Htake by (apply Z.mul_le_mono_nonneg_l; lia).
  assert (RW k * HI <= MAX_SUPPLY - subsidy_sum (k * HI)) as Hroom
    by (unfold HALVING_INTERVAL in *; lia).
  rewrite sat_mul_exact, sat_add_exact by lia.
  rewrite (Z.mul_comm (RW k)), <- subsidy_sum_period by lia. rewrite Z.shiftr_shiftr by lia.
  destruct (decide (rem <= HI)) as [Hle|Hgt].
  - assert (take = rem) as -> by (unfold take; lia). rewrite Z.sub_diag.
    by destruct fuel.
  - assert (take = HI) as -> by (unfold take; lia).
    replace (k * HI + HI) with ((k + 1) * HI) by lia.
    rewrite IH by (unfold HALVING_INTERVAL in *; lia). f_equal. lia.
Qed.
End issuance.

(** C32. The closed form of the emission, [cumulative_issuance n], is exactly the
    sum of the subsidies of the blue scores below [n], for every [u64] argument,
    and never exceeds [MAX_SUPPLY]: the [min] at its end is never taken. *)
Theorem cumulative_issuance_spec n :
  0 <= n → cumulative_issuance n = subsidy_sum n ∧ subsidy_sum n <= MAX_SUPPLY.
Proof.
  intros Hn. assert (subsidy_sum n <= MAX_SUPPLY) as Hle.
  { pose proof (subsidy_sum_bound (n / HALVING_INTERVAL)) as Hb.
    pose proof (Z.div_mod n HALVING_INTERVAL ltac:(done)) as Hdm.
    pose proof (Z.mod_pos_bound n HALVING_INTERVAL ltac:(done)) as Hm.
    assert (0 <= n / HALVING_INTERVAL) by (apply Z.div_pos; done).
    pose proof (reward_nonneg (n / HALVING_INTERVAL)) as Hr.
    rewrite Hdm, Z.mul_comm, subsidy_sum_period by lia. specialize (Hb ltac:(lia)).
    assert (HALVING_INTERVAL * Z.shiftr BLOCK_REWARD (n / HALVING_INTERVAL) >=
            n mod HALVING_INTERVAL * Z.shiftr BLOCK_REWARD (n / HALVING_INTERVAL)) by nia.
    lia. }
  split; [|done]. unfold cumulative_issuance.
  pose proof (issuance_loop_correct ISSUANCE_FUEL 0 n) as Hloop.
  change (subsidy_sum (0 * HALVING_INTERVAL)) with 0 in Hloop.
  change (Z.shiftr BLOCK_REWARD 0) with BLOCK_REWARD in Hloop.
  rewrite Hloop by done. by apply Z.min_l.
Qed.

Lemma cumulative_issuance_spec_witness :
  cumulative_issuance 250001 = 1250002500000000 ∧ subsidy_sum 250001 <= MAX_SUPPLY.
Proof.
  destruct (cumulative_issuance_spec 250001 ltac:(done)) as [_ Hle].
  split; [vm_compute; reflexivity|exact Hle].
Defined.

(** ** Proof of work: the target is [MAX_TARGET / difficulty] *)

Lemma to_bytes_be_aux_int fuel z acc :
  0 <= z < 256 ^ Z.of_nat fuel →
  be_int (to_bytes_be_aux fuel z acc) = z * 256 ^ len acc + be_int acc.
Proof.
  revert z acc. induction fuel as [|fuel IH]; intros z acc Hz; simpl to_bytes_be_aux.
  { simpl in Hz. assert (z = 0) as -> by lia. lia. }
  destruct (Z.eqb_spec z 0) as [->|Hnz]; [lia|].
  rewrite Nat2Z.inj_succ, Z.pow_succ_r in Hz by lia.
  rewrite IH by (split; [apply Z.div_pos; lia|apply Z.div_lt_upper_bound; lia]).
  rewrite be_int_cons. unfold len. simpl length. rewrite Nat2Z.inj_succ, Z.pow_succ_r by lia.
  rewrite (Z.div_mod z 256) at 3 by lia. lia.
Qed.

Lemma to_bytes_be_aux_length fuel z acc n :
  0 <= z < 256 ^ Z.of_nat n →
  (length (to_bytes_be_aux fuel z acc) <= n + length acc)%nat.
Proof.
  revert z acc n. induction fuel as [|fuel IH]; intros z acc n Hz; simpl; [lia|].
  destruct (Z.eqb_spec z 0) as [->|Hnz]; [lia|].
  destruct n as [|n]; [simpl in Hz; lia|].
  rewrite Nat2Z.inj_succ, Z.pow_succ_r in Hz by lia.
  etransitivity; [apply (IH _ _ n)|simpl; lia].
  split; [apply Z.div_pos; lia|apply Z.div_lt_upper_bound; lia].
Qed.

Lemma pow_target_eq d : pow_target d = MAX_TARGET / Z.max d 1.
Proof.
  unfold pow_target. set (t := MAX_TARGET / Z.max d 1).
  assert (0 <= t < 256 ^ Z.of_nat 64) as Ht.
  { assert (256 ^ Z.of_nat 64 = MAX_TARGET + 1) as -> by done.
    assert (0 < MAX_TARGET) as Hm by done.
    split; [apply Z.div_pos; lia|]. apply Z.div_lt_upper_bound; nia. }
  assert (length (to_bytes_be t) <= 64)%nat as Hlen.
  { unfold to_bytes_be. destruct (t =? 0); [simpl; lia|].
    pose proof (to_bytes_be_aux_length 65 t [] 64 Ht) as Hl.
    by rewrite Nat.add_0_r in Hl. }
  rewrite Nat.min_l by done. rewrite Nat.sub_diag, drop_0, be_int_zeros.
  unfold to_bytes_be. destruct (Z.eqb_spec t 0) as [->|Hn]; [done|].
  rewrite to_bytes_be_aux_int; [change (be_int []) with 0; change (len []) with 0; lia|].
  split; [lia|]. etransitivity; [apply Ht|]. done.
Qed.

(** The proof-of-work test accepts a hash exactly when, read as a 512-bit
    number, it is below [MAX_TARGET / max(difficulty, 1)]: the byte-array
    plumbing of [pow_target] (digits without leading zeros, right-aligned in 64
    bytes) and the lexicographic comparison compute that comparison, for every
    difficulty, 0 included. *)
Theorem verify_pow_spec hash difficulty :
  verify_pow hash difficulty = true ↔ hash < MAX_TARGET / Z.max difficulty 1.
Proof. unfold verify_pow, hash_meets_target. by rewrite pow_target_eq, Z.ltb_lt. Qed.

(** Work proven against a harder target is never refused by an easier one. *)
Lemma verify_pow_antitone hash d d' :
  d' <= d → verify_pow hash d = true → verify_pow hash d' = true.
Proof.
  unfold verify_pow, hash_meets_target. rewrite !pow_target_eq, !Z.ltb_lt. intros Hd Hh.
  eapply Z.lt_le_trans; [exact Hh|]. apply Z.div_le_compat_l; [done|lia].
Qed.

(** ** Difficulty adjustment: clamps and hop bounds *)

(** The per-window clamp: [retarget_difficulty]'s [up] and [down], which are also
    the two sides [hop_difficulty_bounds] iterates. *)
Definition clamp_up (d : Z) : Z := Z.max (d * 5 / 4) (d + 1).
Definition clamp_down (floor d : Z) : Z := Z.max (d * 3 / 4) floor.

Lemma clamp_up_mono d d' : d <= d' → clamp_up d <= clamp_up d'.
Proof. unfold clamp_up. intros. assert (d * 5 / 4 <= d' * 5 / 4) by (apply Z.div_le_mono; lia). lia. Qed.

Lemma clamp_down_mono floor d d' : d <= d' → clamp_down floor d <= clamp_down floor d'.
Proof. unfold clamp_down. intros. assert (d * 3 / 4 <= d' * 3 / 4) by (apply Z.div_le_mono; lia). lia. Qed.

Lemma clamp_up_ge d : d < clamp_up d.
Proof. unfold clamp_up. lia. Qed.

Lemma clamp_down_le floor d : 0 <= floor <= d → floor <= clamp_down floor d <= d.
Proof. unfold clamp_down. intros. assert (d * 3 / 4 <= d) by (apply Z.div_le_upper_bound; lia). lia. Qed.

Lemma retarget_unfold base newest oldest floor :
  0 <= floor → clamp_up (Z.max base floor) <= U64_MAX →
  let sp := Z.max base floor in
  retarget_difficulty base newest oldest floor =
    clamp (sp * (DAA_WINDOW * TARGET_BLOCK_TIME_MS) / Z.max (sat_sub newest oldest) 1)
      (clamp_down floor sp) (clamp_up sp).
Proof.
  intros Hf Hup sp. unfold retarget_difficulty. fold sp. fold (clamp_up sp).
  fold (clamp_down floor sp). assert (0 <= floor <= sp) as Hsp by lia.
  pose proof (clamp_down_le floor sp Hsp). pose proof (clamp_up_ge sp).
  assert (sp <= U64_MAX) by (subst sp; lia).
  rewrite sat_mul_exact.
  2: { unfold DAA_WINDOW, TARGET_BLOCK_TIME_MS, BLOCK_TIME_MS, umax in *. lia. }
  match goal with |- context [clamp ?r ?a ?b] =>
    pose proof (clamp_range r a b ltac:(lia)) end.
  rewrite wrap_small by (unfold in_width; subst sp; lia). lia.
Qed.

(** The difficulty adjustment honours its clamp: for every pair of window
    timestamps the new difficulty stays within the 3/4 .. 5/4 band of the
    selected parent's (floored) difficulty and never under the floor; a window
    faster than its target never lowers it, a slower one never raises it (so an
    on-schedule window is a fixed point).  The only assumption is that the upper
    clamp fits the [u64] the result is cast to. *)
Theorem retarget_difficulty_bounds base newest oldest floor :
  0 <= floor →
  clamp_up (Z.max base floor) <= U64_MAX →
  let sp := Z.max base floor in
  let span := Z.max (sat_sub newest oldest) 1 in
  let r := retarget_difficulty base newest oldest floor in
  Z.max (sp * 3 / 4) floor <= r <= Z.max (sp * 5 / 4) (sp + 1) ∧
  floor <= r ∧
  (span <= DAA_WINDOW * TARGET_BLOCK_TIME_MS → sp <= r) ∧
  (DAA_WINDOW * TARGET_BLOCK_TIME_MS <= span → r <= sp).
Proof.
  intros Hf Hup sp span r. assert (0 <= floor <= sp) as Hsp by lia.
  pose proof (clamp_down_le floor sp Hsp) as Hd. pose proof (clamp_up_ge sp) as Hu.
  unfold r. rewrite retarget_unfold by done. fold sp span.
  set (T := DAA_WINDOW * TARGET_BLOCK_TIME_MS).
  pose proof (clamp_range (sp * T / span) (clamp_down floor sp) (clamp_up sp) ltac:(lia)) as Hr.
  assert (0 < T) by done. assert (0 < span) by lia.
  split; [exact Hr|]. split; [lia|]. split; intros Hs.
  - assert (sp <= sp * T / span) by (apply Z.div_le_lower_bound; nia).
    unfold clamp. destruct (Z.ltb_spec (sp * T / span) (clamp_down floor sp)),
      (Z.ltb_spec (clamp_up sp) (sp * T / span)); lia.
  - assert (sp * T / span <= sp) by (apply Z.div_le_upper_bound; nia).
    unfold clamp. destruct (Z.ltb_spec (sp * T / span) (clamp_down floor sp)),
      (Z.ltb_spec (clamp_up sp) (sp * T / span)); lia.
Qed.

Lemma retarget_difficulty_bounds_witness :
  retarget_difficulty 8000 1066000 1000000 7000 = 8012 ∧ 8000 <= retarget_difficulty 8000 1066000 1000000 7000.
Proof.
  destruct (retarget_difficulty_bounds 8000 1066000 1000000 7000) as (_ & _ & Hup & _).
  - done.
  - vm_compute. discriminate.
  - split; [reflexivity|]. apply Hup. vm_compute. discriminate.
Defined.

(** [retargets floor n d d']: [n] successive adjustments, whatever the timestamps
    of their windows, can take the difficulty from [d] to [d']. *)
Inductive retargets (floor : Z) : nat → Z → Z → Prop :=
| retargets_0 d : retargets floor 0 d d
| retargets_S n d d' newest oldest :
    retargets floor n d d' →
    retargets floor (S n) d (retarget_difficulty d' newest oldest floor).

Lemma hop_bounds_loop_iter n lo hi floor :
  hop_bounds_loop n lo hi floor = (Nat.iter n (clamp_down floor) lo, Nat.iter n clamp_up hi).
Proof.
  revert lo hi. induction n as [|n IH]; intros lo hi; [done|].
  simpl hop_bounds_loop. rewrite IH. f_equal; by rewrite Nat.iter_succ_r.
Qed.

Lemma iter_up_mono n m d d' :
  (n <= m)%nat → d <= d' → Nat.iter n clamp_up d <= Nat.iter m clamp_up d'.
Proof.
  intros Hnm Hd. induction Hnm as [|m Hnm IH].
  - induction n as [|n IH]; [done|]. simpl. by apply clamp_up_mono.
  - simpl. pose proof (clamp_up_ge (Nat.iter m clamp_up d')). lia.
Qed.

Lemma iter_down_range floor n d :
  0 <= floor <= d → floor <= Nat.iter n (clamp_down floor) d <= d.
Proof.
  intros Hd. induction n as [|n IH]; simpl; [lia|].
  pose proof (clamp_down_le floor (Nat.iter n (clamp_down floor) d)). lia.
Qed.

Lemma iter_down_anti floor n m d :
  0 <= floor <= d → (n <= m)%nat →
  Nat.iter m (clamp_down floor) d <= Nat.iter n (clamp_down floor) d.
Proof.
  intros Hd. induction 1 as [|m Hnm IH]; [done|]. simpl.
  pose proof (iter_down_range floor m d Hd).
  pose proof (clamp_down_le floor (Nat.iter m (clamp_down floor) d)). lia.
Qed.

Lemma retargets_range floor n d d' :
  0 <= floor <= d → Nat.iter n clamp_up d <= U64_MAX → retargets floor n d d' →
  Nat.iter n (clamp_down floor) d <= d' <= Nat.iter n clamp_up d ∧ floor <= d'.
Proof.
  intros Hd Hup Hr. induction Hr as [d|n d d' newest oldest Hr IH]; [simpl; lia|].
  simpl in Hup |- *. pose proof (clamp_up_ge (Nat.iter n clamp_up d)).
  destruct (IH Hd ltac:(lia)) as [[Hlo Hhi] Hfl].
  pose proof (clamp_up_mono _ _ Hhi). pose proof (clamp_down_mono floor _ _ Hlo).
  pose proof (clamp_down_le floor d'). pose proof (clamp_up_ge d').
  rewrite retarget_unfold; [|lia|by rewrite Z.max_l by lia; lia].
  rewrite (Z.max_l d') by lia.
  match goal with |- context [clamp ?r ?a ?b] => pose proof (clamp_range r a b ltac:(lia)) end.
  lia.
Qed.

Definition hop_windows (height_gap : Z) : Z :=
  Z.min (sat_add 64 (sat_sub height_gap 1 / DAA_WINDOW) 1) 64.

(** The anchor-hop check never rejects an honest chain that retargets once
    per window: starting from a difficulty of at most 2^43 (at or above the
    floor), every difficulty reachable by as many adjustments as the hop has
    windows lies within [hop_difficulty_bounds], whatever the timestamps were. *)
Theorem hop_difficulty_bounds_complete older_diff height_gap floor n d :
  0 <= floor <= older_diff → older_diff <= 2 ^ 43 →
  0 <= height_gap →
  Z.of_nat n <= hop_windows height_gap →
  retargets floor n older_diff d →
  let '(lo, hi) := hop_difficulty_bounds older_diff height_gap floor in
  lo <= d <= hi.
Proof.
  intros Hfl Hmax Hgap Hn Hr. unfold hop_difficulty_bounds. fold (hop_windows height_gap).
  rewrite Z.max_l, hop_bounds_loop_iter by lia. set (w := Z.to_nat (hop_windows height_gap)).
  assert (w <= 64)%nat as Hw by (unfold w, hop_windows; lia). assert (n <= w)%nat as Hnw by lia.
  assert (Nat.iter 64 clamp_up (2 ^ 43) <= U64_MAX) as Hfit by (vm_compute; discriminate).
  pose proof (iter_up_mono w 64 older_diff _ Hw Hmax) as Hw64.
  pose proof (iter_up_mono n w older_diff _ Hnw (Z.le_refl _)) as Hup.
  pose proof (iter_down_anti floor n w older_diff Hfl Hnw) as Hdown.
  pose proof (iter_down_range floor w older_diff Hfl).
  pose proof (iter_up_mono 0 w older_diff older_diff ltac:(lia) (Z.le_refl _)) as Hge.
  simpl in Hge.
  destruct (retargets_range floor n older_diff d Hfl ltac:(lia) Hr) as [Hin Hfd].
  rewrite !wrap_small by (unfold in_width; lia). lia.
Qed.

Lemma hop_difficulty_bounds_complete_witness :
  let '(lo, hi) := hop_difficulty_bounds 8000 2000 7000 in
  lo <= retarget_difficulty 8000 1060000 1000000 7000 <= hi.
Proof.
  apply (hop_difficulty_bounds_complete 8000 2000 7000 1).
  - lia.
  - vm_compute. discriminate.
  - lia.
  - vm_compute. discriminate.
  - exact (retargets_S 7000 0 8000 8000 1060000 1000000 (retargets_0 7000 8000)).
Defined.

(** Outside that range the check is unsound: the cast of the upper bound to
    [u64] truncates.  From difficulty 11579208923733 over 64 windows the "upper"
    bound comes back as 406512, below the older difficulty itself, so the
    unchanged difficulty is refused. *)
Theorem hop_difficulty_bounds_truncates :
  hop_difficulty_bounds 11579208923733 (64 * DAA_WINDOW) 7000 = (116841, 406512).
Proof. vm_compute. reflexivity. Qed.

(** The bounds count one clamp per 661-block window, while the live rule
    clamps once per header: two consecutive headers of a fast chain reach 10937
    from 7000, above the bound of 8750 that the hop check allows for a gap of 2. *)
Theorem hop_difficulty_bounds_per_header :
  ∃ d, retargets 7000 2 7000 d ∧
       snd (hop_difficulty_bounds 7000 2 7000) < d.
Proof.
  exists (retarget_difficulty (retarget_difficulty 7000 2 1 7000) 3 1 7000). split.
  - exact (retargets_S 7000 1 7000 _ 3 1 (retargets_S 7000 0 7000 7000 2 1 (retargets_0 7000 7000))).
  - vm_compute. reflexivity.
Qed.
