(* ===== verification/Crypto.v ===== *)
(** * Hashing, signatures and the third-party primitives under them

    [src/src/abs_sig.rs] ([digest512], [sign_pq512], [verify_pq512]) and the
    signature helpers of [src/src/lib.rs].  The primitives themselves (the
    [blake3], [fips204] and [hex] crates) are not part of the repository: they
    are the fields of the class [Crypto], and what is documented about them is
    the class [CryptoLaws].  Nothing is assumed about collisions. *)

From S2P Require Import Prelude.

(** ** Third-party primitives *)
Class Crypto := {
  (** [blake3::Hasher::finalize_xof]: the first [n] bytes of the output stream
      for a given input. *)
  blake3_xof : bytes → nat → bytes;
  (** [fips204::ml_dsa_87] sizes, key parsing, verification, and signing; the
      last argument of [ml_dsa_sign] is the randomness it draws. *)
  PK_LEN : nat;
  SK_LEN : nat;
  SIG_LEN : nat;
  ml_dsa_pk_parses : bytes → bool;
  ml_dsa_verify : bytes → bytes → bytes → bool;
  ml_dsa_sign : bytes → bytes → bytes → result bytes;
  (** the [hex] crate. *)
  hex_encode : bytes → string;
  hex_decode : string → option bytes;
}.

Definition is_bytes (l : bytes) : Prop := Forall is_u8 l.

(** Documented behaviour of these crates. *)
Class CryptoLaws `{!Crypto} : Prop := {
  blake3_xof_bytes i n : is_bytes (blake3_xof i n);
  blake3_xof_length i n : length (blake3_xof i n) = n;
  ml_dsa_sign_length sk m r s : ml_dsa_sign sk m r = Ok s → length s = SIG_LEN;
  hex_decode_encode l : is_bytes l → hex_decode (hex_encode l) = Some l;
  hex_encode_length l : String.length (hex_encode l) = (2 * length l)%nat;
}.

Section crypto.
Context `{!Crypto}.

Definition PQ_PUBLIC_KEY_SIZE : Z := Z.of_nat PK_LEN.
Definition PQ_SECRET_KEY_SIZE : Z := Z.of_nat SK_LEN.
Definition PQ_SIGNATURE_SIZE : Z := Z.of_nat SIG_LEN.

(** A [blake3::Hasher] fed with the concatenation of its updates, read as 64 bytes. *)
Definition blake3_512 (input : bytes) : Hash := be_int (blake3_xof input 64).

(** [abs_sig::digest512]. *)
Definition digest512 (domain message : bytes) : bytes :=
  blake3_xof (str_bytes "hassan-pq-512-v1" ++ domain ++ message) 64.

(** [sign_message]. *)
Definition sign_message (signing_key_bytes message rng : bytes) : result bytes :=
  fail_if negb (len signing_key_bytes =? PQ_SECRET_KEY_SIZE)
    as ("signing key must be exactly " +:+ pretty PQ_SECRET_KEY_SIZE +:+ " bytes");
  ml_dsa_sign signing_key_bytes message rng.

(** [verify_signature]. *)
Definition verify_signature (public_key message signature : bytes) : bool :=
  if negb (len public_key =? PQ_PUBLIC_KEY_SIZE) then false else
  if negb (ml_dsa_pk_parses public_key) then false else
  if negb (len signature =? PQ_SIGNATURE_SIZE) then false else
  ml_dsa_verify public_key message signature.

(** [abs_sig::sign_pq512], [abs_sig::verify_pq512]. *)
Definition sign_pq512 (domain message secret_key rng : bytes) : result bytes :=
  sign_message secret_key (digest512 domain message) rng.
Definition verify_pq512 (domain message public_key signature : bytes) : bool :=
  verify_signature public_key (digest512 domain message) signature.

(** [hash512], [address_hash]. *)
Definition hash512 (data : bytes) : Hash := be_int (digest512 (str_bytes "raw") data).
Definition address_hash (pubkey : bytes) : Hash := be_int (digest512 (str_bytes "address") pubkey).

(** An accepted signature has the exact key and signature sizes. *)
Lemma verify_pq512_sizes dom msg pk sig :
  verify_pq512 dom msg pk sig = true →
  len pk = PQ_PUBLIC_KEY_SIZE ∧ len sig = PQ_SIGNATURE_SIZE.
Proof.
  unfold verify_pq512, verify_signature. intros Hv.
  destruct (Z.eqb_spec (len pk) PQ_PUBLIC_KEY_SIZE), (ml_dsa_pk_parses pk),
    (Z.eqb_spec (len sig) PQ_SIGNATURE_SIZE); done.
Qed.
End crypto.

(** ** Digest ranges *)

Lemma le_int_range l : is_bytes l → 0 <= le_int l < 256 ^ len l.
Proof.
  unfold len. induction 1 as [|b l Hb _ IH]; simpl le_int; [simpl; lia|].
  simpl length. rewrite Nat2Z.inj_succ, Z.pow_succ_r by lia.
  unfold in_width in Hb. change (umax 8) with 255 in Hb. lia.
Qed.

Lemma be_int_range l : is_bytes l → 0 <= be_int l < 256 ^ len l.
Proof.
  intros Hl. unfold be_int. replace (len l) with (len (rev l)).
  - apply le_int_range. by apply List.Forall_rev.
  - unfold len. by rewrite length_rev.
Qed.

Lemma le_bytes_is_bytes n z : is_bytes (le_bytes n z).
Proof.
  revert z. induction n as [|n IH]; intros z; simpl; constructor; [|apply IH].
  unfold in_width. change (umax 8) with 255. pose proof (Z.mod_pos_bound z 256). lia.
Qed.

Lemma be_bytes_is_bytes n z : is_bytes (be_bytes n z).
Proof.
  apply List.Forall_rev, le_bytes_is_bytes.
Qed.

Lemma blake3_512_range `{!Crypto, !CryptoLaws} i : 0 <= blake3_512 i <= HASH_MAX.
Proof.
  unfold blake3_512. pose proof (be_int_range _ (blake3_xof_bytes i 64)) as Hr.
  unfold len in Hr. rewrite blake3_xof_length in Hr.
  change (256 ^ Z.of_nat 64) with (HASH_MAX + 1) in Hr. lia.
Qed.

(** ** A concrete instance

    Small executable stand-ins for the primitives, used to evaluate the
    definitions on concrete inputs and to show that the laws above are
    satisfiable.  A signature is the digest itself under the signer's key. *)
Module Toy.

Definition mix (l : bytes) : Z := foldl (λ acc b, (acc * 257 + b + 1) mod 2 ^ 512) 7 l.

Definition hex_digit (d : Z) : Ascii.ascii :=
  Ascii.ascii_of_N (Z.to_N (if d <? 10 then 48 + d else 87 + d)).
Definition hex_value (a : Ascii.ascii) : option Z :=
  let c := Z.of_N (Ascii.N_of_ascii a) in
  if (48 <=? c) && (c <=? 57) then Some (c - 48)
  else if (97 <=? c) && (c <=? 102) then Some (c - 87)
  else if (65 <=? c) && (c <=? 70) then Some (c - 55) else None.
Fixpoint encode_hex (l : bytes) : string :=
  match l with
  | [] => EmptyString
  | b :: l => String (hex_digit (b / 16)) (String (hex_digit (b mod 16)) (encode_hex l))
  end.
Fixpoint decode_hex (s : string) : option bytes :=
  match s with
  | EmptyString => Some []
  | String a (String b s) =>
      x ← hex_value a; y ← hex_value b; l ← decode_hex s; Some (x * 16 + y :: l)
  | String _ EmptyString => None
  end.

#[export] Instance toy_crypto : Crypto := {|
  blake3_xof i n := le_bytes n (mix i);
  PK_LEN := 2;
  SK_LEN := 2;
  SIG_LEN := 4;
  ml_dsa_pk_parses _ := true;
  ml_dsa_verify pk m s := bool_decide (s = le_bytes 4 (mix (pk ++ m)));
  ml_dsa_sign sk m _ := Ok (le_bytes 4 (mix (sk ++ m)));
  hex_encode := encode_hex;
  hex_decode := decode_hex;
|}.

Lemma hex_value_digit d : 0 <= d < 16 → hex_value (hex_digit d) = Some d.
Proof.
  intros Hd. set (f d := bool_decide (hex_value (hex_digit d) = Some d)).
  assert (f d = true) as Hf by (apply (forallb_seqZ f 16); [vm_compute; reflexivity|done]).
  by apply bool_decide_eq_true in Hf.
Qed.

#[export] Instance toy_laws : CryptoLaws.
Proof.
  split.
  - intros i n. apply le_bytes_is_bytes.
  - intros i n. apply length_le_bytes.
  - intros sk m r s [= <-]. reflexivity.
  - intros l. simpl. induction 1 as [|b l Hb _ IH]; [done|]. simpl.
    unfold in_width in Hb. change (umax 8) with 255 in Hb.
    rewrite !hex_value_digit.
    + simpl. rewrite IH. simpl. do 2 f_equal. pose proof (Z.div_mod b 16 ltac:(lia)). lia.
    + split; [apply Z.div_pos; lia|apply Z.div_lt_upper_bound; lia].
    + apply Z.mod_pos_bound. lia.
  - intros l. simpl. induction l as [|b l IH]; simpl; [done|]. rewrite IH. lia.
Qed.

(** The same primitives with small digests, so that proof of work is immediate, and
    fast to evaluate on whole blocks. *)
Definition quick_mix (l : bytes) : Z := foldl (λ acc b, Z.land (acc * 257 + b + 1) 0x1FFFFFFFFFFFFFFF) 7 l.
Definition EASY_BASE : Z := Eval vm_compute in 2 ^ 495.
Definition easy_crypto : Crypto := {|
  blake3_xof i n := be_bytes n (EASY_BASE + quick_mix i);
  PK_LEN := 2;
  SK_LEN := 2;
  SIG_LEN := 4;
  ml_dsa_pk_parses _ := true;
  ml_dsa_verify pk m s := bool_decide (s = le_bytes 4 (quick_mix (pk ++ m)));
  ml_dsa_sign sk m _ := Ok (le_bytes 4 (quick_mix (sk ++ m)));
  hex_encode := encode_hex;
  hex_decode := decode_hex;
|}.
End Toy.
