(* ===== verification/Address.v ===== *)
(** * Bech32m addresses

    [src/src/address.rs]: the BIP-350 checksum, base conversion, encoding and
    dual-format decoding of [hsn1...] addresses, over UTF-8 byte strings as the
    source's [&str] holds them.

    The theorems: decoding an encoded digest returns exactly its first 32 bytes
    (the checksum verifies by linearity of the polymod, the base conversion 8 to
    5 to 8 bits loses nothing), and the two textual forms of a digest are
    equivalent. *)

From S2P Require Import Prelude Crypto.

(** ** Strings as the source handles them *)

Definition bytes_str (l : bytes) : string :=
  String.string_of_list_ascii ((λ b, Ascii.ascii_of_N (Z.to_N b)) <$> l).

(** [str::chars] as code points: decoding of (valid) UTF-8. *)
Fixpoint chars (l : bytes) : list Z :=
  match l with
  | [] => []
  | b :: l1 =>
      if b <? 128 then b :: chars l1
      else match l1 with
      | [] => []
      | c1 :: l2 =>
          if b <? 224 then (b - 192) * 64 + (c1 - 128) :: chars l2
          else match l2 with
          | [] => []
          | c2 :: l3 =>
              if b <? 240 then ((b - 224) * 64 + (c1 - 128)) * 64 + (c2 - 128) :: chars l3
              else match l3 with
              | [] => []
              | c3 :: l4 =>
                  (((b - 240) * 64 + (c1 - 128)) * 64 + (c2 - 128)) * 64 + (c3 - 128) :: chars l4
              end
          end
      end
  end.

Definition is_ascii_uppercase (b : Z) : bool := (65 <=? b) && (b <=? 90).
Definition is_ascii_lowercase (b : Z) : bool := (97 <=? b) && (b <=? 122).
Definition to_ascii_lowercase (l : bytes) : bytes :=
  (λ b, if is_ascii_uppercase b then b + 32 else b) <$> l.

(** [str::rsplit_once] for an ASCII separator: split at its last occurrence. *)
Fixpoint rsplit_once (sep : Z) (l : bytes) : option (bytes * bytes) :=
  match l with
  | [] => None
  | b :: l =>
      match rsplit_once sep l with
      | Some (pre, post) => Some (b :: pre, post)
      | None => if b =? sep then Some ([], l) else None
      end
  end.

(** [Iterator::position] on a table. *)
Fixpoint position (c : Z) (l : list Z) : option Z :=
  match l with
  | [] => None
  | x :: l => if x =? c then Some 0 else Z.succ <$> position c l
  end.

(** [str::strip_prefix]. *)
Fixpoint strip_prefix (pre l : bytes) : option bytes :=
  match pre, l with
  | [], l => Some l
  | p :: pre, b :: l => if p =? b then strip_prefix pre l else None
  | _ :: _, [] => None
  end.

(** ** Bech32m *)

Definition CHARSET : bytes := str_bytes "qpzry9x8gf2tvdw0s3jn54khce6mua7l".
Definition BECH32M_CONST : Z := 0x2bc830a3.
Definition ADDRESS_PAYLOAD_LEN : nat := 32.
Definition HASH_SIZE : Z := 64.
Definition GEN : list Z := [0x3b6a57b2; 0x26508e6d; 0x1ea119fa; 0x3d4233dd; 0x2a1462b3].

(** The inner loop of [polymod]: xor the generators selected by the top bits. *)
Definition polymod_gen (b chk : Z) : Z :=
  foldl (λ chk '(i, gen), if Z.land (Z.shiftr b i) 1 =? 1 then Z.lxor chk gen else chk)
    chk (zip [0; 1; 2; 3; 4] GEN).

Definition polymod_step (chk v : Z) : Z :=
  let b := Z.shiftr chk 25 in
  polymod_gen b (Z.lxor (wrap 32 (Z.shiftl (Z.land chk 0x1ffffff) 5)) v).

(** [polymod]. *)
Definition polymod (values : bytes) : Z := foldl polymod_step 1 values.

(** [hrp_expand]; [c as u8] truncates the code point. *)
Definition hrp_expand (hrp : bytes) : bytes :=
  ((λ c, Z.shiftr (wrap 8 c) 5) <$> chars hrp) ++ [0] ++ ((λ c, Z.land (wrap 8 c) 31) <$> chars hrp).

(** The inner [while] of [convert_bits]: emit groups of [to] bits.  Each turn
    consumes [to >= 1] of the at most [2 * 8] pending bits. *)
Fixpoint emit_bits (fuel : nat) (acc bits to maxv : Z) (ret : bytes) : Z * bytes :=
  match fuel with
  | O => (bits, ret)
  | S fuel =>
      if to <=? bits then
        emit_bits fuel acc (bits - to) to maxv
          (ret ++ [wrap 8 (Z.land (Z.shiftr acc (bits - to)) maxv)])
      else (bits, ret)
  end.

Definition EMIT_FUEL : nat := 17.

(** The [for] of [convert_bits]: state [(acc, bits, ret)]. *)
Fixpoint convert_loop (data : bytes) (from to maxv acc bits : Z) (ret : bytes)
    : option (Z * Z * bytes) :=
  match data with
  | [] => Some (acc, bits, ret)
  | value :: data =>
      if negb (Z.shiftr value from =? 0) then None else
      let acc := Z.lor (wrap 32 (Z.shiftl acc from)) value in
      let bits := bits + from in
      let '(bits, ret) := emit_bits EMIT_FUEL acc bits to maxv ret in
      convert_loop data from to maxv acc bits ret
  end.

(** [convert_bits]. *)
Definition convert_bits (data : bytes) (from to : Z) (pad : bool) : option bytes :=
  let maxv := Z.shiftl 1 to - 1 in
  '(acc, bits, ret) ← convert_loop data from to maxv 0 0 [];
  if pad then
    if 0 <? bits then Some (ret ++ [wrap 8 (Z.land (wrap 32 (Z.shiftl acc (to - bits))) maxv)])
    else Some ret
  else if (from <=? bits) || negb (Z.land (wrap 32 (Z.shiftl acc (to - bits))) maxv =? 0) then None
  else Some ret.

(** [encode]; every [d] of [data] is below 32 at its only call site. *)
Definition encode (hrp data : bytes) : bytes :=
  let values := hrp_expand hrp ++ data ++ [0; 0; 0; 0; 0; 0] in
  let checksum := Z.lxor (polymod values) BECH32M_CONST in
  let chr d := nth (Z.to_nat d) CHARSET 0 in
  hrp ++ str_bytes "1" ++ (chr <$> data) ++
  ((λ i, chr (Z.land (Z.shiftr checksum (5 * (5 - i))) 31)) <$> [0; 1; 2; 3; 4; 5]).

(** [decode]. *)
Definition decode (addr : bytes) : option (bytes * bytes) :=
  if existsb is_ascii_uppercase addr && existsb is_ascii_lowercase addr then None else
  let addr := to_ascii_lowercase addr in
  '(hrp, data) ← rsplit_once 49 addr;
  if bool_decide (hrp = []) || (len data <? 6) then None else
  values ← mapM (λ c, position c CHARSET) data;
  if negb (polymod (hrp_expand hrp ++ values) =? BECH32M_CONST) then None else
  Some (hrp, take (length values - 6) values).

Definition HRP : bytes := str_bytes "hsn".

(** [encode_hash]: both [expect]s hold, see [encode_hash_total]. *)
Definition encode_hash_bytes (h : Hash) : bytes :=
  let payload := take ADDRESS_PAYLOAD_LEN (hash_bytes h) in
  encode HRP (default [] (convert_bits payload 8 5 true)).
Definition encode_hash (h : Hash) : string := bytes_str (encode_hash_bytes h).

(** [decode_address]. *)
Definition decode_address (addr : string) : option bytes :=
  '(hrp, data5) ← decode (str_bytes addr);
  if negb (bool_decide (hrp = HRP)) then None else
  bs ← convert_bits data5 5 8 false;
  if negb (length bs =? ADDRESS_PAYLOAD_LEN)%nat then None else Some bs.

Section addresses.
Context `{!Crypto}.

(** [encode_address], and its re-export [hash_to_address]. *)
Definition encode_address (pubkey : bytes) : string := encode_hash (address_hash pubkey).
Definition hash_to_address (pubkey : bytes) : string := encode_address pubkey.

(** [encode_legacy_hex]. *)
Definition encode_legacy_hex (h : Hash) : string := "hsn:" +:+ hex_encode (hash_bytes h).

(** [address_fingerprint]. *)
Definition address_fingerprint (addr : string) : option bytes :=
  match decode_address addr with
  | Some fp => Some fp
  | None =>
      hex_part ← strip_prefix (str_bytes "hsn:") (str_bytes addr);
      if negb (len hex_part =? HASH_SIZE * 2) then None else
      bs ← hex_decode (bytes_str hex_part);
      if negb (len bs =? HASH_SIZE) then None else
      Some (take ADDRESS_PAYLOAD_LEN bs)
  end.

(** [addresses_equivalent]. *)
Definition addresses_equivalent (a b : string) : bool :=
  if bool_decide (a = b) then true else
  match address_fingerprint a, address_fingerprint b with
  | Some fa, Some fb => bool_decide (fa = fb)
  | _, _ => false
  end.

(** [address_matches_pubkey]. *)
Definition address_matches_pubkey (addr : string) (pubkey : bytes) : bool :=
  let h := address_hash pubkey in
  addresses_equivalent addr (encode_hash h) || addresses_equivalent addr (encode_legacy_hex h).

(** [is_bech32m_address], [is_valid_hassan_address] and [security::is_valid_address]. *)
Definition is_bech32m_address (addr : string) : bool := bool_decide (is_Some (decode_address addr)).
Definition is_valid_hassan_address (addr : string) : bool :=
  if is_bech32m_address addr then true else
  match strip_prefix (str_bytes "hsn:") (str_bytes addr) with
  | None => false
  | Some hex_part =>
      if negb (len hex_part =? HASH_SIZE * 2) then false else
      match hex_decode (bytes_str hex_part) with
      | Some bs => len bs =? HASH_SIZE
      | None => false
      end
  end.
Definition is_valid_address (address : string) : bool := is_valid_hassan_address address.
End addresses.

(** ** Strings and bytes *)

Lemma str_bytes_str l : is_bytes l → str_bytes (bytes_str l) = l.
Proof.
  intros Hl. unfold str_bytes, bytes_str. rewrite String.list_ascii_of_string_of_list_ascii.
  induction Hl as [|b l Hb _ IH]; [done|]. simpl. f_equal; [|exact IH].
  unfold in_width in Hb. change (umax 8) with 255 in Hb.
  rewrite Ascii.N_ascii_embedding; lia.
Qed.

Lemma str_bytes_is_bytes s : is_bytes (str_bytes s).
Proof.
  unfold str_bytes. apply Forall_fmap, Forall_forall. intros a _. simpl.
  pose proof (Ascii.N_ascii_bounded a). unfold in_width. change (umax 8) with 255. lia.
Qed.

Lemma rsplit_once_None sep l : Forall (λ b, b ≠ sep) l → rsplit_once sep l = None.
Proof.
  induction 1 as [|b l Hb _ IH]; simpl; [done|]. rewrite IH.
  by destruct (Z.eqb_spec b sep).
Qed.

Lemma rsplit_once_last sep pre post :
  Forall (λ b, b ≠ sep) post → rsplit_once sep (pre ++ sep :: post) = Some (pre, post).
Proof.
  intros Hp. induction pre as [|b pre IH]; simpl.
  - by rewrite rsplit_once_None, Z.eqb_refl.
  - by rewrite IH.
Qed.

Lemma rsplit_once_Some sep l pre post :
  rsplit_once sep l = Some (pre, post) → l = pre ++ sep :: post.
Proof.
  revert pre. induction l as [|b l IH]; simpl; intros pre Hs; [done|].
  destruct (rsplit_once sep l) as [[pre' post']|] eqn:E; simplify_eq/=.
  - by rewrite (IH pre').
  - destruct (Z.eqb_spec b sep); by simplify_eq.
Qed.

(** ** The character table *)

Definition CHR (d : Z) : Z := nth (Z.to_nat d) CHARSET 0.

Definition chr_ok (d : Z) : bool :=
  bool_decide (position (CHR d) CHARSET = Some d) && negb (CHR d =? 49) &&
  negb (is_ascii_uppercase (CHR d)) && (0 <=? CHR d) && (CHR d <=? 255).

Lemma chr_ok_all d : 0 <= d < 32 → chr_ok d = true.
Proof. apply (forallb_seqZ chr_ok). vm_compute. reflexivity. Qed.

Lemma chr_facts d : 0 <= d < 32 →
  position (CHR d) CHARSET = Some d ∧ CHR d ≠ 49 ∧ is_ascii_uppercase (CHR d) = false ∧
  is_u8 (CHR d).
Proof.
  intros Hd. pose proof (chr_ok_all d Hd) as Hok. unfold chr_ok in Hok. zbool.
  unfold in_width. change (umax 8) with 255. done.
Qed.

Lemma mapM_position l :
  Forall (λ d, 0 <= d < 32) l → mapM (λ c, position c CHARSET) (CHR <$> l) = Some l.
Proof.
  intros Hl. apply mapM_fmap_Forall_Some. eapply Forall_impl; [exact Hl|].
  intros d Hd. apply chr_facts, Hd.
Qed.

(** ** The checksum: the polymod is linear *)

Definition G (b : Z) : Z := polymod_gen b 0.

Lemma polymod_gen_xor b x : polymod_gen b x = Z.lxor x (G b).
Proof.
  unfold G, polymod_gen, GEN. simpl.
  repeat case_match; rewrite ?Z.lxor_0_l, ?Z.lxor_0_r, ?Z.lxor_assoc; done.
Qed.

Lemma G_linear a b : 0 <= a < 32 → 0 <= b < 32 → G (Z.lxor a b) = Z.lxor (G a) (G b).
Proof.
  intros Ha Hb. apply Z.eqb_eq.
  set (lin a b := G (Z.lxor a b) =? Z.lxor (G a) (G b)).
  apply (forallb_seqZ (lin a) 32); [|done].
  apply (forallb_seqZ (λ a, forallb (lin a) (seqZ 0 32)) 32); [|done].
  vm_compute. reflexivity.
Qed.

Lemma G_range a : 0 <= a < 32 → 0 <= G a < 2 ^ 30.
Proof.
  intros Ha. assert ((0 <=? G a) && (G a <? 2 ^ 30) = true) as Hg.
  { apply (forallb_seqZ (λ a, (0 <=? G a) && (G a <? 2 ^ 30)) 32); [|done].
    vm_compute. reflexivity. }
  zbool. lia.
Qed.

Lemma lxor_range n a b : 0 <= n → 0 <= a < 2 ^ n → 0 <= b < 2 ^ n → 0 <= Z.lxor a b < 2 ^ n.
Proof.
  intros Hn Ha Hb. assert (0 <= Z.lxor a b) as Hnn by (apply Z.lxor_nonneg; lia).
  split; [done|]. destruct (decide (Z.lxor a b = 0)) as [->|Hnz]; [lia|].
  apply Z.log2_lt_pow2; [lia|]. pose proof (Z.log2_lxor a b ltac:(lia) ltac:(lia)).
  destruct (decide (a = 0)) as [->|]; destruct (decide (b = 0)) as [->|].
  - done.
  - rewrite Z.lxor_0_l in *. apply Z.log2_lt_pow2; lia.
  - rewrite Z.lxor_0_r in *. apply Z.log2_lt_pow2; lia.
  - assert (Z.log2 a < n) by (apply Z.log2_lt_pow2; lia).
    assert (Z.log2 b < n) by (apply Z.log2_lt_pow2; lia). lia.
Qed.

(** The shifted low bits, without the [u32] wrap that never happens. *)
Lemma polymod_step_eq s v :
  0 <= s → polymod_step s v =
    Z.lxor (Z.lxor (Z.shiftl (Z.land s (Z.ones 25)) 5) (G (Z.shiftr s 25))) v.
Proof.
  intros Hs. unfold polymod_step. change 0x1ffffff with (Z.ones 25).
  rewrite polymod_gen_xor, wrap_small.
  - rewrite !Z.lxor_assoc. f_equal. apply Z.lxor_comm.
  - rewrite Z.land_ones, Z.shiftl_mul_pow2 by lia. unfold in_width.
    pose proof (Z.mod_pos_bound s (2 ^ 25)). change (umax 32) with 4294967295. lia.
Qed.

Lemma shiftr_25_range s : 0 <= s < 2 ^ 30 → 0 <= Z.shiftr s 25 < 32.
Proof.
  intros Hs. rewrite Z.shiftr_div_pow2 by lia.
  split; [apply Z.div_pos; lia|apply Z.div_lt_upper_bound; lia].
Qed.

Lemma polymod_step_range s v : 0 <= s < 2 ^ 30 → 0 <= v < 2 ^ 30 → 0 <= polymod_step s v < 2 ^ 30.
Proof.
  intros Hs Hv. rewrite polymod_step_eq by lia.
  apply lxor_range; [lia|apply lxor_range; [lia| |]|done].
  - rewrite Z.land_ones, Z.shiftl_mul_pow2 by lia. pose proof (Z.mod_pos_bound s (2 ^ 25)). lia.
  - by apply G_range, shiftr_25_range.
Qed.

Lemma land_lxor_l a b m : Z.land (Z.lxor a b) m = Z.lxor (Z.land a m) (Z.land b m).
Proof.
  apply Z.bits_inj'. intros n Hn. rewrite !Z.land_spec, !Z.lxor_spec, !Z.land_spec.
  by destruct (Z.testbit a n), (Z.testbit b n), (Z.testbit m n).
Qed.

Lemma polymod_step_xor a b v : 0 <= a < 2 ^ 30 → 0 <= b < 2 ^ 30 →
  polymod_step (Z.lxor a b) v = Z.lxor (polymod_step a 0) (polymod_step b v).
Proof.
  intros Ha Hb. pose proof (lxor_range 30 a b ltac:(lia) Ha Hb).
  rewrite !polymod_step_eq by lia. rewrite Z.lxor_0_r, Z.shiftr_lxor, land_lxor_l, Z.shiftl_lxor.
  rewrite G_linear by (by apply shiftr_25_range).
  rewrite !Z.lxor_assoc. f_equal. rewrite <- !Z.lxor_assoc. f_equal. f_equal. apply Z.lxor_comm.
Qed.

Lemma polymod_step_small b v : 0 <= b < 2 ^ 25 → polymod_step b v = Z.lxor (Z.shiftl b 5) v.
Proof.
  intros Hb. rewrite polymod_step_eq by lia. f_equal.
  rewrite Z.land_ones, Z.mod_small, Z.shiftr_div_pow2, Z.div_small by lia. apply Z.lxor_0_r.
Qed.

(** Five-bit groups packed big-endian. *)
Definition pack (vs : list Z) : Z := foldl (λ a v, Z.lxor (Z.shiftl a 5) v) 0 vs.

Lemma pack_range vs : Forall (λ v, 0 <= v < 32) vs → 0 <= pack vs < 2 ^ (5 * len vs).
Proof.
  unfold len. induction vs as [|v vs IH] using rev_ind; [done|].
  intros [Hvs Hv]%Forall_app. rewrite Forall_singleton in Hv. specialize (IH Hvs).
  unfold pack. rewrite foldl_app, length_app. simpl foldl. simpl length. fold (pack vs).
  replace (5 * Z.of_nat (length vs + 1)) with (5 * Z.of_nat (length vs) + 5) by lia.
  apply lxor_range; [lia| |].
  - rewrite Z.shiftl_mul_pow2, Z.pow_add_r by lia. nia.
  - rewrite Z.pow_add_r by lia. change (2 ^ 5) with 32.
    assert (0 < 2 ^ (5 * Z.of_nat (length vs))) by (apply Z.pow_pos_nonneg; lia). nia.
Qed.

Lemma polymod_feed s vs :
  0 <= s < 2 ^ 30 → Forall (λ v, 0 <= v < 32) vs → (length vs <= 6)%nat →
  foldl polymod_step s vs = Z.lxor (foldl polymod_step s (replicate (length vs) 0)) (pack vs) ∧
  0 <= foldl polymod_step s (replicate (length vs) 0) < 2 ^ 30.
Proof.
  intros Hs. induction vs as [|v vs IH] using rev_ind.
  { intros _ _. simpl. rewrite Z.lxor_0_r. done. }
  intros [Hvs Hv]%Forall_app Hlen. rewrite Forall_singleton in Hv.
  rewrite length_app in *. simpl in Hlen. destruct (IH Hvs ltac:(lia)) as [IH1 IH2].
  simpl length. rewrite replicate_add, !foldl_app. unfold pack. rewrite foldl_app. fold (pack vs).
  simpl. rewrite IH1. pose proof (pack_range vs Hvs) as Hp.
  assert (2 ^ (5 * len vs) <= 2 ^ 25) by (apply Z.pow_le_mono_r; unfold len; lia).
  split; [|apply polymod_step_range; lia].
  rewrite polymod_step_xor by lia. by rewrite (polymod_step_small (pack vs)) by lia.
Qed.

Lemma polymod_range vs s :
  0 <= s < 2 ^ 30 → Forall (λ v, 0 <= v < 256) vs → 0 <= foldl polymod_step s vs < 2 ^ 30.
Proof.
  revert s. induction vs as [|v vs IH]; intros s Hs Hv; [done|].
  apply Forall_cons in Hv as [Hv Hvs]. simpl. apply IH; [|done]. apply polymod_step_range; lia.
Qed.

Definition checksum_digits (c : Z) : list Z :=
  (λ i, Z.land (Z.shiftr c (5 * (5 - i))) 31) <$> [0; 1; 2; 3; 4; 5].

Lemma checksum_digits_range c : Forall (λ v, 0 <= v < 32) (checksum_digits c).
Proof.
  apply Forall_fmap, Forall_forall. intros i _. simpl. change 31 with (Z.ones 5).
  rewrite Z.land_ones by lia. apply Z.mod_pos_bound. lia.
Qed.

Lemma group_split x : Z.lxor (Z.shiftl (Z.shiftr x 5) 5) (Z.land x 31) = x.
Proof.
  change 31 with (Z.ones 5). apply Z.bits_inj'. intros n Hn.
  rewrite Z.lxor_spec, Z.land_spec, Z.shiftl_spec, Z.testbit_ones_nonneg by lia.
  destruct (Z.ltb_spec n 5).
  - rewrite Z.testbit_neg_r by lia. by rewrite andb_true_r, xorb_false_l.
  - rewrite Z.shiftr_spec by lia. rewrite andb_false_r, xorb_false_r. f_equal. lia.
Qed.

Lemma pack_checksum c : 0 <= c < 2 ^ 30 → pack (checksum_digits c) = c.
Proof.
  intros Hc. unfold pack, checksum_digits. cbn [fmap list_fmap foldl].
  assert (Z.land (Z.shiftr c (5 * (5 - 0))) 31 = Z.shiftr c 25) as ->.
  { change 31 with (Z.ones 5). rewrite Z.land_ones by lia. apply Z.mod_small.
    by apply shiftr_25_range. }
  rewrite Z.shiftl_0_l, Z.lxor_0_l.
  assert (∀ k k', 0 <= k → k' = k + 5 →
    Z.lxor (Z.shiftl (Z.shiftr c k') 5) (Z.land (Z.shiftr c k) 31) = Z.shiftr c k) as Hg.
  { intros k k' Hk ->. rewrite <- Z.shiftr_shiftr by lia. apply group_split. }
  rewrite (Hg (5 * (5 - 1)) 25) by done. rewrite (Hg (5 * (5 - 2))) by done.
  rewrite (Hg (5 * (5 - 3))) by done. rewrite (Hg (5 * (5 - 4))) by done.
  rewrite (Hg (5 * (5 - 5))) by done. apply Z.shiftr_0_r.
Qed.

(** A string closed by [encode]'s checksum digits verifies. *)
Lemma checksum_verifies vs :
  Forall (λ v, 0 <= v < 256) vs →
  polymod (vs ++ checksum_digits (Z.lxor (polymod (vs ++ replicate 6 0)) BECH32M_CONST))
    = BECH32M_CONST.
Proof.
  intros Hvs. unfold polymod. rewrite !foldl_app.
  pose proof (polymod_range vs 1 ltac:(lia) Hvs) as Hs. set (s := foldl polymod_step 1 vs) in *.
  set (P := foldl polymod_step s (replicate 6 0)). set (c := Z.lxor P BECH32M_CONST).
  destruct (polymod_feed s (checksum_digits c) Hs (checksum_digits_range c) ltac:(simpl; lia))
    as [Hf HP].
  rewrite Hf. change (length (checksum_digits c)) with 6%nat in *. fold P in HP |- *.
  rewrite pack_checksum.
  - unfold c. rewrite <- Z.lxor_assoc, Z.lxor_nilpotent. apply Z.lxor_0_l.
  - apply lxor_range; [lia|done|]. by vm_compute.
Qed.

(** ** Base conversion preserves the number *)

(** Value of a big-endian digit string in base [2 ^ w]. *)
Definition digits_val (w : Z) (l : list Z) : Z := foldl (λ a d, a * 2 ^ w + d) 0 l.
Definition digits_ok (w : Z) (l : list Z) : Prop := Forall (λ d, 0 <= d < 2 ^ w) l.

Lemma digits_val_snoc w l d : digits_val w (l ++ [d]) = digits_val w l * 2 ^ w + d.
Proof. unfold digits_val. by rewrite foldl_app. Qed.

Lemma digits_val_app w l l' :
  0 <= w → digits_val w (l ++ l') = digits_val w l * 2 ^ (w * len l') + digits_val w l'.
Proof.
  intros Hw. unfold len. induction l' as [|d l' IH] using rev_ind.
  { rewrite app_nil_r. simpl length. rewrite Z.mul_0_r. unfold digits_val at 3. simpl. lia. }
  rewrite app_assoc, !digits_val_snoc, IH, length_app. simpl length.
  replace (w * Z.of_nat (length l' + 1)) with (w * Z.of_nat (length l') + w) by lia.
  rewrite Z.pow_add_r by lia. ring.
Qed.

Lemma digits_val_inj w l l' :
  0 <= w → digits_ok w l → digits_ok w l' → length l = length l' →
  digits_val w l = digits_val w l' → l = l'.
Proof.
  intros Hw Hl. revert l'. induction l as [|d l IH] using rev_ind; intros l' Hl' Hlen Heq.
  { by destruct l'. }
  destruct l' as [|d' l' _] using rev_ind; [rewrite length_app in Hlen; simpl in Hlen; lia|].
  unfold digits_ok in *. rewrite Forall_app, Forall_singleton in Hl, Hl'. destruct Hl, Hl'.
  rewrite !length_app in Hlen. rewrite !digits_val_snoc in Heq.
  assert (0 < 2 ^ w) by (apply Z.pow_pos_nonneg; lia).
  assert (digits_val w l = digits_val w l' ∧ d = d') as [Hv ->]
    by (apply (Z.div_mod_unique (2 ^ w)); lia).
  f_equal. apply IH; [done..|simpl in Hlen; lia|done].
Qed.

Lemma pow2_pos k : 0 <= k → 0 < 2 ^ k.
Proof. intros. apply Z.pow_pos_nonneg; lia. Qed.

(** Splitting [to] bits off the top of the pending bits. *)
Lemma emit_digit acc bits to :
  0 <= acc → 1 <= to <= 8 → to <= bits →
  let d := wrap 8 (Z.land (Z.shiftr acc (bits - to)) (Z.shiftl 1 to - 1)) in
  0 <= d < 2 ^ to ∧ acc mod 2 ^ bits = d * 2 ^ (bits - to) + acc mod 2 ^ (bits - to).
Proof.
  intros Hacc Hto Hb d.
  assert (d = (acc / 2 ^ (bits - to)) mod 2 ^ to) as ->.
  { unfold d. rewrite Z.shiftl_1_l. replace (2 ^ to - 1) with (Z.ones to) by (rewrite Z.ones_equiv; lia).
    rewrite Z.land_ones, Z.shiftr_div_pow2 by lia. apply wrap_small. unfold in_width, umax.
    pose proof (Z.mod_pos_bound (acc / 2 ^ (bits - to)) (2 ^ to) (pow2_pos to ltac:(lia))).
    assert (2 ^ to <= 2 ^ 8) by (apply Z.pow_le_mono_r; lia). lia. }
  split; [apply Z.mod_pos_bound, pow2_pos; lia|].
  replace (2 ^ bits) with (2 ^ (bits - to) * 2 ^ to)
    by (rewrite <- Z.pow_add_r by lia; f_equal; lia).
  rewrite Z.rem_mul_r by (try apply pow2_pos; try pose proof (pow2_pos (bits - to)); lia). lia.
Qed.

Lemma emit_bits_spec fuel acc bits to ret :
  0 <= acc → 1 <= to <= 8 → 0 <= bits < Z.of_nat fuel → digits_ok to ret →
  let '(bits', ret') := emit_bits fuel acc bits to (Z.shiftl 1 to - 1) ret in
  0 <= bits' < to ∧ digits_ok to ret' ∧
  digits_val to ret' * 2 ^ bits' + acc mod 2 ^ bits' = digits_val to ret * 2 ^ bits + acc mod 2 ^ bits ∧
  to * len ret' + bits' = to * len ret + bits.
Proof.
  intros Hacc Hto. revert bits ret. induction fuel as [|fuel IH]; intros bits ret Hb Hok; [lia|].
  simpl emit_bits. destruct (Z.leb_spec to bits); [|by repeat split; try lia].
  destruct (emit_digit acc bits to Hacc Hto ltac:(lia)) as [Hd Hmod].
  set (d := wrap 8 _) in *.
  specialize (IH (bits - to) (ret ++ [d]) ltac:(lia)
    ltac:(unfold digits_ok; rewrite Forall_app, Forall_singleton; done)).
  destruct (emit_bits fuel acc (bits - to) to _ (ret ++ [d])) as [bits' ret'].
  destruct IH as (? & ? & Hval & Hlen). split_and!; [lia|lia|done| |].
  - rewrite Hval, digits_val_snoc, Hmod.
    replace (2 ^ bits) with (2 ^ to * 2 ^ (bits - to)) by (rewrite <- Z.pow_add_r by lia; f_equal; lia).
    ring.
  - rewrite Hlen. unfold len. rewrite length_app. simpl length. lia.
Qed.

(** Shifting a new group of [from] bits in. *)
Lemma push_bits acc bits from v :
  0 <= acc → 0 <= bits → 1 <= from → bits + from <= 32 → 0 <= v < 2 ^ from →
  let acc' := Z.lor (wrap 32 (Z.shiftl acc from)) v in
  0 <= acc' ∧ acc' mod 2 ^ (bits + from) = acc mod 2 ^ bits * 2 ^ from + v.
Proof.
  intros Hacc Hb Hf Hw Hv acc'.
  assert (acc' = (acc * 2 ^ from) mod 2 ^ 32 + v) as ->.
  { unfold acc', wrap. rewrite Z.shiftl_mul_pow2 by lia. symmetry.
    replace (2 ^ 32) with (2 ^ (32 - from) * 2 ^ from) by (rewrite <- Z.pow_add_r by lia; f_equal; lia).
    rewrite Z.mul_mod_distr_r by (try apply Z.pow_nonzero; lia).
    rewrite <- Z.shiftl_mul_pow2 by lia.
    assert (Z.land (Z.shiftl (acc mod 2 ^ (32 - from)) from) v = 0) as Hdisj;
      [|by rewrite Z.add_nocarry_lxor, Z.lxor_lor by done].
    apply Z.bits_inj'. intros n Hn. rewrite Z.land_spec, Z.bits_0, Z.shiftl_spec by lia.
    destruct (Z.ltb_spec n from).
    - by rewrite Z.testbit_neg_r by lia.
    - assert (Z.testbit v n = false) as ->; [|apply andb_false_r].
      destruct (decide (v = 0)) as [->|]; [apply Z.bits_0|].
      apply Z.bits_above_log2; [lia|]. assert (Z.log2 v < from) by (apply Z.log2_lt_pow2; lia). lia. }
  pose proof (Z.mod_pos_bound (acc * 2 ^ from) (2 ^ 32) ltac:(lia)).
  split; [lia|]. symmetry.
  pose proof (pow2_pos bits Hb) as HB. pose proof (pow2_pos from ltac:(lia)) as HF.
  pose proof (Z.mod_pos_bound acc (2 ^ bits) HB) as Hr.
  apply (Z.mod_unique _ _ (acc / 2 ^ bits - 2 ^ (32 - (bits + from)) * (acc * 2 ^ from / 2 ^ 32))).
  { left. rewrite Z.pow_add_r by lia. nia. }
  rewrite (Z.mod_eq (acc * 2 ^ from)), (Z.mod_eq acc) by lia.
  assert (2 ^ 32 = 2 ^ (bits + from) * 2 ^ (32 - (bits + from))) as ->
    by (rewrite <- Z.pow_add_r by lia; f_equal; lia).
  rewrite !Z.pow_add_r by lia. ring.
Qed.

Lemma convert_loop_spec data from to acc bits ret :
  1 <= from <= 8 → 1 <= to <= 8 → digits_ok from data →
  0 <= acc → 0 <= bits < to → digits_ok to ret →
  ∃ acc' bits' ret',
    convert_loop data from to (Z.shiftl 1 to - 1) acc bits ret = Some (acc', bits', ret') ∧
    0 <= acc' ∧ 0 <= bits' < to ∧ digits_ok to ret' ∧
    digits_val to ret' * 2 ^ bits' + acc' mod 2 ^ bits' =
      (digits_val to ret * 2 ^ bits + acc mod 2 ^ bits) * 2 ^ (from * len data) + digits_val from data ∧
    to * len ret' + bits' = to * len ret + bits + from * len data.
Proof.
  intros Hfrom Hto Hdata. revert acc bits ret.
  induction Hdata as [|v data Hv Hdata IH]; intros acc bits ret Hacc Hbits Hret.
  { exists acc, bits, ret. split; [done|]. unfold len, digits_val at 3. simpl length. simpl foldl.
    rewrite Z.mul_0_r. split_and!; try done; lia. }
  cbn [convert_loop].
  assert (Z.shiftr v from = 0) as ->
    by (rewrite Z.shiftr_div_pow2 by lia; apply Z.div_small; lia).
  cbn [negb Z.eqb].
  destruct (push_bits acc bits from v) as [Hacc' Hpush]; [lia..|].
  set (acc' := Z.lor _ v) in *.
  pose proof (emit_bits_spec EMIT_FUEL acc' (bits + from) to ret Hacc' Hto
    ltac:(unfold EMIT_FUEL; lia) Hret) as Hemit.
  destruct (emit_bits EMIT_FUEL acc' (bits + from) to _ ret) as [bits1 ret1].
  destruct Hemit as (Hb1 & Hok1 & Hval1 & Hlen1).
  destruct (IH acc' bits1 ret1 Hacc' Hb1 Hok1) as (acc2 & bits2 & ret2 & -> & ? & ? & ? & Hval2 & Hlen2).
  exists acc2, bits2, ret2. split_and!; try done; try lia.
  - rewrite Hval2, Hval1, Hpush.
    change (v :: data) with ([v] ++ data). rewrite digits_val_app by lia.
    assert (digits_val from [v] = v) as -> by (unfold digits_val; simpl; lia).
    unfold len. rewrite length_app. simpl (length [v]).
    replace (from * Z.of_nat (1 + length data)) with (from + from * Z.of_nat (length data)) by lia.
    rewrite !Z.pow_add_r by lia. ring.
  - rewrite Hlen2, Hlen1. unfold len. simpl length. lia.
Qed.

Lemma shift_pad acc k to :
  0 <= acc → 0 <= k → 1 <= to <= 8 → k <= to →
  Z.land (wrap 32 (Z.shiftl acc (to - k))) (Z.shiftl 1 to - 1) = acc mod 2 ^ k * 2 ^ (to - k).
Proof.
  intros Hacc Hk Hto Hkt. rewrite Z.shiftl_1_l.
  replace (2 ^ to - 1) with (Z.ones to) by (rewrite Z.ones_equiv; lia).
  rewrite Z.land_ones, Z.shiftl_mul_pow2 by lia. unfold wrap.
  rewrite Z.mod_mod_divide.
  - replace (2 ^ to) with (2 ^ k * 2 ^ (to - k)) by (rewrite <- Z.pow_add_r by lia; f_equal; lia).
    apply Z.mul_mod_distr_r; apply Z.pow_nonzero; lia.
  - exists (2 ^ (32 - to)). rewrite <- Z.pow_add_r by lia. f_equal. lia.
Qed.

(** 32 bytes to 52 five-bit groups (4 padding bits), and back. *)
Lemma convert_bits_pack payload :
  digits_ok 8 payload → length payload = 32%nat →
  ∃ data, convert_bits payload 8 5 true = Some data ∧ digits_ok 5 data ∧
    length data = 52%nat ∧ digits_val 5 data = digits_val 8 payload * 16.
Proof.
  intros Hok Hlen. unfold convert_bits.
  destruct (convert_loop_spec payload 8 5 0 0 []) as (acc & bits & ret & -> & Ha & Hb & Hret & Hval & Hl);
    [lia|lia|done|lia|lia|constructor|].
  unfold len in Hl, Hval. rewrite Hlen in Hl, Hval. change (length []) with 0%nat in Hl.
  assert (bits = 1 ∧ length ret = 51%nat) as [-> Hlr] by lia.
  cbn [mbind option_bind Z.ltb Z.compare]. eexists. split; [reflexivity|].
  rewrite shift_pad by lia. change (2 ^ 1) with 2 in *. change (2 ^ (5 - 1)) with 16.
  pose proof (Z.mod_pos_bound acc 2 ltac:(lia)).
  rewrite wrap_small by (unfold in_width; change (umax 8) with 255; lia).
  split; [|split].
  - unfold digits_ok. rewrite Forall_app, Forall_singleton. split; [done|]. change (2 ^ 5) with 32. lia.
  - rewrite length_app, Hlr. done.
  - rewrite digits_val_snoc. change (2 ^ 5) with 32.
    rewrite Zmod_0_l, Z.mul_0_l in Hval. lia.
Qed.

Lemma convert_bits_unpack data payload :
  digits_ok 8 payload → length payload = 32%nat → digits_ok 5 data → length data = 52%nat →
  digits_val 5 data = digits_val 8 payload * 16 →
  convert_bits data 5 8 false = Some payload.
Proof.
  intros Hok Hlen Hd Hld Hv. unfold convert_bits.
  destruct (convert_loop_spec data 5 8 0 0 []) as (acc & bits & ret & -> & Ha & Hb & Hret & Hval & Hl);
    [lia|lia|done|lia|lia|constructor|].
  unfold len in Hl, Hval. rewrite Hld in Hl, Hval. change (length []) with 0%nat in Hl.
  assert (bits = 4 ∧ length ret = 32%nat) as [-> Hlr] by lia.
  cbn [mbind option_bind]. rewrite shift_pad by lia.
  change (2 ^ 4) with 16 in *. rewrite Zmod_0_l, Z.mul_0_l, Hv in Hval.
  pose proof (Z.mod_pos_bound acc 16 ltac:(lia)).
  assert (acc mod 16 = 0 ∧ digits_val 8 ret = digits_val 8 payload) as [-> Hvr] by lia.
  simpl. f_equal. by apply (digits_val_inj 8); [lia|..|congruence|].
Qed.

(** ** Encoding and decoding *)

Lemma encode_eq data :
  encode HRP data = HRP ++ 49 :: (CHR <$> data ++ checksum_digits
    (Z.lxor (polymod (hrp_expand HRP ++ data ++ replicate 6 0)) BECH32M_CONST)).
Proof. unfold encode. rewrite fmap_app. reflexivity. Qed.

Lemma chr_list_facts l :
  digits_ok 5 l →
  Forall (λ b, b ≠ 49) (CHR <$> l) ∧ existsb is_ascii_uppercase (CHR <$> l) = false ∧
  to_ascii_lowercase (CHR <$> l) = CHR <$> l ∧ is_bytes (CHR <$> l).
Proof.
  unfold is_bytes.
  induction 1 as [|d l Hd _ (IH1 & IH2 & IH3 & IH4)]; [repeat split; constructor|].
  destruct (chr_facts d Hd) as (_ & H49 & Hup & Hu8). rewrite fmap_cons.
  split_and!.
  - by constructor.
  - simpl. by rewrite Hup.
  - unfold to_ascii_lowercase in *. rewrite fmap_cons, IH3, Hup. done.
  - by constructor.
Qed.

Lemma decode_encode data : digits_ok 5 data → decode (encode HRP data) = Some (HRP, data).
Proof.
  intros Hd. rewrite encode_eq.
  set (c := Z.lxor _ BECH32M_CONST). set (vals := data ++ checksum_digits c).
  assert (digits_ok 5 vals) as Hv by (apply Forall_app; split; [done|apply checksum_digits_range]).
  destruct (chr_list_facts vals Hv) as (H49 & Hup & Hlow & _).
  unfold decode. rewrite existsb_app. cbn [existsb]. rewrite Hup.
  change (existsb is_ascii_uppercase HRP) with false. cbn [orb andb is_ascii_uppercase Z.leb Z.compare].
  unfold to_ascii_lowercase in *. rewrite fmap_app, fmap_cons, Hlow.
  change ((λ b, if is_ascii_uppercase b then b + 32 else b) <$> HRP) with HRP.
  change ((if is_ascii_uppercase 49 then 49 + 32 else 49)) with 49.
  rewrite rsplit_once_last by done. cbn [mbind option_bind].
  assert (length vals = length data + 6)%nat as Hlen by (unfold vals; by rewrite length_app).
  assert ((len (CHR <$> vals) <? 6) = false) as ->
    by (apply Z.ltb_ge; unfold len; rewrite length_fmap; lia).
  rewrite orb_false_r, bool_decide_eq_false_2 by done.
  rewrite mapM_position by done. cbn [mbind option_bind].
  assert (polymod (hrp_expand HRP ++ vals) = BECH32M_CONST) as ->.
  { unfold vals, c. rewrite !app_assoc. apply checksum_verifies, Forall_app. split.
    - change (hrp_expand HRP) with [3; 3; 3; 0; 8; 19; 14]. repeat constructor; lia.
    - eapply Forall_impl; [exact Hd|]. intros d. simpl. lia. }
  rewrite Z.eqb_refl. simpl. rewrite Hlen, Nat.add_sub.
  unfold vals. by rewrite take_app_length.
Qed.

Lemma hash_payload h :
  let payload := take ADDRESS_PAYLOAD_LEN (hash_bytes h) in
  digits_ok 8 payload ∧ length payload = 32%nat.
Proof.
  split.
  - apply Forall_take. eapply Forall_impl; [apply be_bytes_is_bytes|].
    intros d. unfold in_width. change (umax 8) with 255. change (2 ^ 8) with 256. lia.
  - rewrite length_take. unfold hash_bytes. by rewrite length_be_bytes.
Qed.

(** Both [expect]s of [encode_hash] hold, and what it encodes decodes. *)
Lemma encode_hash_data h :
  ∃ data, convert_bits (take ADDRESS_PAYLOAD_LEN (hash_bytes h)) 8 5 true = Some data ∧
    digits_ok 5 data ∧ length data = 52%nat ∧
    convert_bits data 5 8 false = Some (take ADDRESS_PAYLOAD_LEN (hash_bytes h)).
Proof.
  destruct (hash_payload h) as [Hok Hlen].
  destruct (convert_bits_pack _ Hok Hlen) as (data & -> & Hd & Hl & Hv).
  exists data. split_and!; [done..|]. by apply convert_bits_unpack.
Qed.

Lemma encode_hash_str h : str_bytes (encode_hash h) = encode_hash_bytes h.
Proof.
  apply str_bytes_str. unfold encode_hash_bytes.
  destruct (encode_hash_data h) as (data & -> & Hd & _). cbn [default].
  rewrite encode_eq. apply Forall_app. split; [by repeat constructor|].
  constructor; [done|]. apply chr_list_facts, Forall_app. split; [done|apply checksum_digits_range].
Qed.

Lemma decode_encode_hash h :
  decode_address (encode_hash h) = Some (take ADDRESS_PAYLOAD_LEN (hash_bytes h)).
Proof.
  unfold decode_address. rewrite encode_hash_str. unfold encode_hash_bytes.
  destruct (encode_hash_data h) as (data & -> & Hd & _ & Hback). cbn [default].
  rewrite decode_encode by done. cbn [mbind option_bind].
  rewrite bool_decide_eq_true_2 by done. unfold id. rewrite Hback. cbn [negb mbind option_bind].
  destruct (hash_payload h) as [_ Hlen].
  by rewrite Hlen.
Qed.

(** Only strings that start (up to case) with [hsn1] decode. *)
Lemma decode_address_prefix a fp :
  decode_address a = Some fp → ∃ rest, to_ascii_lowercase (str_bytes a) = str_bytes "hsn1" ++ rest.
Proof.
  unfold decode_address, decode. intros Hd.
  destruct (existsb _ _ && existsb _ _); [done|].
  destruct (rsplit_once 49 (to_ascii_lowercase (str_bytes a))) as [[hrp data]|] eqn:Hsplit; [|done].
  cbn [mbind option_bind] in Hd.
  destruct (bool_decide (hrp = []) || _); [done|].
  destruct (mapM _ data) as [vals|]; [|done]. cbn [mbind option_bind] in Hd.
  destruct (negb (polymod _ =? _)); [done|]. cbn [mbind option_bind] in Hd.
  destruct (bool_decide_reflect (hrp = HRP)) as [->|]; [|done].
  apply rsplit_once_Some in Hsplit. exists data. rewrite Hsplit. done.
Qed.

Section equivalence.
Context `{!Crypto, !CryptoLaws}.

Lemma str_bytes_app s t : str_bytes (s +:+ t) = str_bytes s ++ str_bytes t.
Proof.
  unfold str_bytes. rewrite <- fmap_app. f_equal.
  induction s as [|a s IH]; [done|]. simpl. by f_equal.
Qed.

Lemma bytes_str_bytes s : bytes_str (str_bytes s) = s.
Proof.
  unfold bytes_str, str_bytes. rewrite <- list_fmap_compose.
  rewrite <- (String.string_of_list_ascii_of_string s) at 2. f_equal.
  rewrite <- (list_fmap_id (String.list_ascii_of_string s)) at 2. apply list_fmap_ext.
  intros i a _. simpl. rewrite N2Z.id. apply Ascii.ascii_N_embedding.
Qed.

Lemma length_str_bytes s : length (str_bytes s) = String.length s.
Proof. unfold str_bytes. rewrite length_fmap. induction s; simpl; auto. Qed.

Lemma legacy_fingerprint h :
  address_fingerprint (encode_legacy_hex h) = Some (take ADDRESS_PAYLOAD_LEN (hash_bytes h)).
Proof.
  unfold address_fingerprint, encode_legacy_hex.
  destruct (decode_address _) as [fp|] eqn:Hd.
  { apply decode_address_prefix in Hd as [rest Hr]. rewrite str_bytes_app in Hr. discriminate Hr. }
  rewrite str_bytes_app.
  match goal with |- context [strip_prefix _ (_ ++ ?l)] =>
    change (strip_prefix _ (_ ++ l)) with (Some l) end.
  cbn [mbind option_bind]. unfold len, HASH_SIZE.
  rewrite length_str_bytes, hex_encode_length. unfold hash_bytes at 1. rewrite length_be_bytes.
  cbn [negb Z.eqb]. rewrite bytes_str_bytes, hex_decode_encode by apply be_bytes_is_bytes.
  cbn [mbind option_bind]. unfold hash_bytes at 1. rewrite length_be_bytes. done.
Qed.

Lemma bech32m_fingerprint h :
  address_fingerprint (encode_hash h) = Some (take ADDRESS_PAYLOAD_LEN (hash_bytes h)).
Proof. unfold address_fingerprint. by rewrite decode_encode_hash. Qed.

(** C34. Address round trip: the canonical text of a 512-bit digest is a valid
    bech32m address, and decoding it returns exactly the first 32 bytes of the
    digest; in particular the checksum always verifies and the 8-to-5-to-8 bit
    conversion loses nothing. *)
Theorem address_roundtrip h :
  decode_address (encode_hash h) = Some (take ADDRESS_PAYLOAD_LEN (hash_bytes h)) ∧
  is_bech32m_address (encode_hash h) = true ∧ is_valid_address (encode_hash h) = true.
Proof.
  unfold is_valid_address, is_valid_hassan_address, is_bech32m_address.
  rewrite decode_encode_hash. done.
Qed.

(** The bech32m and the legacy hex text of the same digest are equivalent
    names of one key, and two bech32m addresses are equivalent exactly when they
    carry the same 32-byte fingerprint. *)
Theorem address_forms_equivalent h h' :
  addresses_equivalent (encode_hash h) (encode_legacy_hex h) = true ∧
  (addresses_equivalent (encode_hash h) (encode_hash h') = true ↔
   take ADDRESS_PAYLOAD_LEN (hash_bytes h) = take ADDRESS_PAYLOAD_LEN (hash_bytes h')).
Proof.
  unfold addresses_equivalent. rewrite legacy_fingerprint, !bech32m_fingerprint. split.
  - case_bool_decide; [done|]. by rewrite bool_decide_eq_true_2.
  - case_bool_decide as Heq; [|by rewrite bool_decide_eq_true].
    split; [|done]. intros _. pose proof (bech32m_fingerprint h) as Hf.
    rewrite Heq, bech32m_fingerprint in Hf. congruence.
Qed.

(** The signer of a key owns the outputs paid to its canonical address. *)
Lemma addresses_equivalent_refl a : addresses_equivalent a a = true.
Proof. unfold addresses_equivalent. by rewrite bool_decide_eq_true_2. Qed.

Lemma addresses_equivalent_sym a b : addresses_equivalent a b = addresses_equivalent b a.
Proof.
  unfold addresses_equivalent. rewrite (bool_decide_ext (a = b) (b = a)) by done.
  destruct (address_fingerprint a), (address_fingerprint b); try done.
  by rewrite (bool_decide_ext (l = l0) (l0 = l)).
Qed.
End equivalence.

Lemma address_forms_equivalent_witness :
  @addresses_equivalent Toy.toy_crypto (encode_hash 5) (@encode_legacy_hex Toy.toy_crypto 5) = true.
Proof. exact (proj1 (@address_forms_equivalent Toy.toy_crypto Toy.toy_laws 5 6)). Defined.
