(* ===== verification/Predicate.v ===== *)
(** * Spending predicates

    [src/src/predicate.rs]: the covenant language of transparent outputs, its
    witnesses and the evaluator.

    [auth] is the declarative meaning of a predicate: who may spend, when, and
    with which secrets and cosignatures.  [evaluate_full_spec] shows that the
    evaluator accepts some witness exactly when that meaning holds (and the
    nesting bound is respected), and [multisig_safety] that an accepted N-of-M
    spend carries at least N distinct authorised members. *)

From S2P Require Import Prelude Genesis Crypto Address.

(** ** Data *)
Inductive Predicate : Type :=
| PayToAddress (address : string)
| HashLock (hash : Hash)
| AbsoluteLock (address : string) (unlock_blue : Z)
| RelativeLock (address : string) (relative_blues : Z)
| And (lhs rhs : Predicate)
| Or (lhs rhs : Predicate)
| MultiSig (n : Z) (addresses : list string)
| CreditAccount (address : string)
| AnnulAfter (address : string) (expire_blue : Z)
| ExactValue (value : Z) (inner : Predicate)
| CommitData (commit : Hash).

#[warnings="-register-all"]
Inductive UnlockWitness : Type :=
| Signature
| Preimage (pre : bytes)
| Stack (stack : list UnlockWitness)
| CosignerAddress (addr : string)
| CosignerSig (pubkey signature : bytes).

#[global] Instance predicate_eq_dec : EqDecision Predicate.
Proof. solve_decision. Defined.

Definition MAX_PRED_DEPTH : Z := 8.
Definition MAX_STACK : Z := 16.

(** ** Structural queries *)
Fixpoint is_account_credit (p : Predicate) : bool :=
  match p with
  | CreditAccount _ => true
  | And lhs rhs | Or lhs rhs => is_account_credit lhs || is_account_credit rhs
  | ExactValue _ inner => is_account_credit inner
  | _ => false
  end.

Fixpoint locked_address (p : Predicate) : option string :=
  match p with
  | PayToAddress address | AbsoluteLock address _ | RelativeLock address _
  | AnnulAfter address _ | CreditAccount address => Some address
  | And lhs _ | Or lhs _ => locked_address lhs
  | ExactValue _ inner => locked_address inner
  | HashLock _ | MultiSig _ _ | CommitData _ => None
  end.

Fixpoint depth (p : Predicate) : Z :=
  match p with
  | And lhs rhs | Or lhs rhs => 1 + Z.max (depth lhs) (depth rhs)
  | ExactValue _ inner => 1 + depth inner
  | _ => 1
  end.

Fixpoint needs_sighash (p : Predicate) : bool :=
  match p with
  | MultiSig _ _ => true
  | And lhs rhs | Or lhs rhs => needs_sighash lhs || needs_sighash rhs
  | ExactValue _ inner => needs_sighash inner
  | _ => false
  end.

Section eval.
Context `{!Crypto}.

(** [hashlock_commitment]. *)
Definition hashlock_commitment (preimage : bytes) : Hash :=
  blake3_512 (str_bytes "hassan-hashlock-v1" ++ preimage).

(** The [HashLock]/[CommitData] arms: a one-element stack re-enters the same arm
    with its element, so the recursion is on the witness. *)
Fixpoint eval_preimage (h : Hash) (mismatch expected : string) (witness : UnlockWitness)
    : result unit :=
  match witness with
  | Preimage pre => fail_if negb (hashlock_commitment pre =? h) as mismatch; Ok ()
  | Stack [w] => eval_preimage h mismatch expected w
  | _ => Err expected
  end.

(** [canon] of [eval_multisig]: the first set entry equivalent to [addr]. *)
Definition canon (addresses : list string) (addr : string) : option string :=
  List.find (λ a, addresses_equivalent a addr) addresses.

(** One turn of the cosigner loop of [eval_multisig]. *)
Definition multisig_step (addresses : list string) (msg : bytes)
    (present : gset string) (w : UnlockWitness) : result (gset string) :=
  match w with
  | CosignerAddress _ => Err "MultiSig: CosignerAddress tags are not signatures"
  | CosignerSig pubkey signature =>
      fail_if negb (len pubkey =? PQ_PUBLIC_KEY_SIZE) as "MultiSig: cosigner pubkey length";
      fail_if negb (len signature =? PQ_SIGNATURE_SIZE) as "MultiSig: cosigner signature length";
      let addr := encode_hash (address_hash pubkey) in
      key ← ok_or (canon addresses addr) "MultiSig: cosigner not in set";
      fail_if negb (verify_pq512 (str_bytes "utxo-tx") msg pubkey signature)
        as "MultiSig: cosigner signature invalid";
      Ok ({[ key ]} ∪ present)
  | Signature => Ok present
  | Stack _ | Preimage _ => Err "MultiSig: unexpected nested witness"
  end.

(** [eval_multisig]. *)
Definition eval_multisig (n : Z) (addresses : list string) (witness : UnlockWitness)
    (signer_address : string) (sighash : option bytes) : result unit :=
  fail_if (n =? 0) || (len addresses =? 0) || (len addresses <? n) as "MultiSig: invalid n-of-m";
  fail_if negb (existsb (λ a, addresses_equivalent a signer_address) addresses)
    as "MultiSig: primary signer not in set";
  msg ← ok_or sighash "MultiSig: missing sighash for cosigner verify";
  primary ← ok_or (canon addresses signer_address) "MultiSig: primary signer not in set";
  stack ← match witness with
          | Signature => Ok []
          | Stack s => fail_if MAX_STACK <? len s as "Witness stack too large"; Ok s
          | CosignerAddress _ => Err "MultiSig: CosignerAddress tags are not signatures"
          | CosignerSig _ _ | Preimage _ => Err "MultiSig: expected Signature or Stack witness"
          end;
  present ← try_fold (multisig_step addresses msg) {[ primary ]} stack;
  fail_if Z.of_nat (size present) <? n
    as ("MultiSig: need " +:+ pretty n +:+ " cosigners, have " +:+ pretty (size present));
  Ok ().

(** [eval_inner]. *)
Fixpoint eval_inner (predicate : Predicate) (witness : UnlockWitness) (signer_address : string)
    (media_blue created_blue : Z) (sighash : option bytes) : result unit :=
  match predicate with
  | PayToAddress address =>
      fail_if negb (addresses_equivalent address signer_address)
        as "PayToAddress: signer does not own output";
      match witness with
      | Signature | Stack _ => Ok ()
      | _ => Err "PayToAddress: expected signature witness"
      end
  | AbsoluteLock address unlock_blue =>
      fail_if media_blue <? unlock_blue
        as ("AbsoluteLock: media blue " +:+ pretty media_blue +:+ " < unlock_blue " +:+ pretty unlock_blue);
      fail_if negb (addresses_equivalent address signer_address)
        as "AbsoluteLock: signer does not own output";
      Ok ()
  | RelativeLock address relative_blues =>
      let need := sat_add 64 created_blue relative_blues in
      fail_if media_blue <? need
        as ("RelativeLock: media blue " +:+ pretty media_blue +:+ " < created+rel " +:+ pretty need);
      fail_if negb (addresses_equivalent address signer_address)
        as "RelativeLock: signer does not own output";
      Ok ()
  | HashLock hash =>
      eval_preimage hash "HashLock: preimage mismatch" "HashLock: expected preimage witness" witness
  | And lhs rhs =>
      match witness with
      | Stack (w0 :: w1 :: rest) =>
          fail_if MAX_STACK <? len (w0 :: w1 :: rest) as "Witness stack too large";
          _ ← eval_inner lhs w0 signer_address media_blue created_blue sighash;
          _ ← eval_inner rhs w1 signer_address media_blue created_blue sighash;
          Ok ()
      | _ => Err "And: expected Stack of 2 witnesses"
      end
  | Or lhs rhs =>
      match witness with
      | Stack (w :: _) | (Signature | Preimage _) as w =>
          if is_ok (eval_inner lhs w signer_address media_blue created_blue sighash)
             || is_ok (eval_inner rhs w signer_address media_blue created_blue sighash)
          then Ok () else Err "Or: neither branch unlocked"
      | _ => Err "Or: empty witness"
      end
  | MultiSig n addresses => eval_multisig n addresses witness signer_address sighash
  | CreditAccount _ => Err "CreditAccount outputs are not spendable"
  | AnnulAfter address expire_blue =>
      fail_if expire_blue <=? media_blue
        as ("AnnulAfter: media blue " +:+ pretty media_blue +:+ " ≥ expire_blue " +:+ pretty expire_blue);
      fail_if negb (addresses_equivalent address signer_address)
        as "AnnulAfter: signer does not own output";
      Ok ()
  | ExactValue _ inner => eval_inner inner witness signer_address media_blue created_blue sighash
  | CommitData commit =>
      eval_preimage commit "CommitData: commitment mismatch" "CommitData: expected preimage witness" witness
  end.

(** [evaluate_full], [evaluate]. *)
Definition evaluate_full (predicate : Predicate) (witness : UnlockWitness) (signer_address : string)
    (media_blue created_blue : Z) (sighash : option bytes) : result unit :=
  fail_if MAX_PRED_DEPTH <? depth predicate as "Predicate nesting too deep";
  eval_inner predicate witness signer_address media_blue created_blue sighash.

Definition evaluate (predicate : Predicate) (witness : UnlockWitness) (signer_address : string)
    (media_blue : Z) : result unit :=
  evaluate_full predicate witness signer_address media_blue 0 None.

(** ** Declarative meaning *)

(** A cosignature over the sighash by a member of the set. *)
Definition cosig_ok (addresses : list string) (msg : bytes) (c : bytes * bytes) : Prop :=
  verify_pq512 (str_bytes "utxo-tx") msg c.1 c.2 = true ∧
  is_Some (canon addresses (encode_hash (address_hash c.1))).

(** The canonical names of the members that authorise the spend. *)
Definition members (addresses : list string) (signer : string) (cosigs : list (bytes * bytes))
    : gset string :=
  list_to_set (omap (canon addresses) (signer :: ((λ c, encode_hash (address_hash c.1)) <$> cosigs))).

Fixpoint auth (p : Predicate) (signer : string) (media created : Z) (sighash : option bytes) : Prop :=
  match p with
  | PayToAddress a => addresses_equivalent a signer = true
  | AbsoluteLock a unlock => unlock <= media ∧ addresses_equivalent a signer = true
  | RelativeLock a rel => sat_add 64 created rel <= media ∧ addresses_equivalent a signer = true
  | HashLock h | CommitData h => ∃ pre, hashlock_commitment pre = h
  | And l r => auth l signer media created sighash ∧ auth r signer media created sighash
  | Or l r => auth l signer media created sighash ∨ auth r signer media created sighash
  | MultiSig n addrs =>
      n ≠ 0 ∧ n <= len addrs ∧ is_Some (canon addrs signer) ∧
      ∃ msg cosigs, sighash = Some msg ∧ len cosigs <= MAX_STACK ∧
        Forall (cosig_ok addrs msg) cosigs ∧
        n <= Z.of_nat (size (members addrs signer cosigs))
  | CreditAccount _ => False
  | AnnulAfter a expire => media < expire ∧ addresses_equivalent a signer = true
  | ExactValue _ inner => auth inner signer media created sighash
  end.

(** ** The evaluator implements the meaning *)

Lemma eval_preimage_sound h m e w :
  eval_preimage h m e w = Ok () → ∃ pre, hashlock_commitment pre = h.
Proof.
  revert w. fix IH 1. intros [|pre|stack|a|pk sig]; simpl; try done.
  - destruct (Z.eqb_spec (hashlock_commitment pre) h); [|done]. eauto.
  - destruct stack as [|w [|]]; [done| |done]. apply IH.
Qed.

Definition cosig_addr (c : bytes * bytes) : string := encode_hash (address_hash c.1).

Lemma members_eq addrs signer primary cosigs :
  canon addrs signer = Some primary →
  members addrs signer cosigs =
    {[ primary ]} ∪ list_to_set (omap (canon addrs) (cosig_addr <$> cosigs)).
Proof. intros Hp. unfold members. cbn [omap list_omap]. by rewrite Hp. Qed.

Lemma omap_canon_cons addrs c cosigs key :
  canon addrs (cosig_addr c) = Some key →
  omap (canon addrs) (cosig_addr <$> c :: cosigs) =
    key :: omap (canon addrs) (cosig_addr <$> cosigs).
Proof. intros Hk. rewrite fmap_cons. simpl. by rewrite Hk. Qed.

Lemma multisig_loop_sound addrs msg stack present present' :
  try_fold (multisig_step addrs msg) present stack = Ok present' →
  ∃ cosigs, len cosigs <= len stack ∧ Forall (cosig_ok addrs msg) cosigs ∧
    present' = present ∪ list_to_set (omap (canon addrs) (cosig_addr <$> cosigs)).
Proof.
  unfold len. revert present. induction stack as [|w stack IH]; simpl; intros present Hf.
  { injection Hf as <-. exists []. split; [done|]. split; [constructor|]. simpl. set_solver. }
  destruct w as [|pre|s|a|pk sig]; simpl in Hf; try done.
  - destruct (IH _ Hf) as (cosigs & ? & ? & ?). exists cosigs. split; [lia|done].
  - destruct (negb (len pk =? _)); [done|]. destruct (negb (len sig =? _)); [done|].
    destruct (canon addrs (encode_hash (address_hash pk))) as [key|] eqn:Hk; [|done]. simpl in Hf.
    destruct (verify_pq512 _ msg pk sig) eqn:Hv; [|done]. simpl in Hf.
    destruct (IH _ Hf) as (cosigs & ? & ? & ->). exists ((pk, sig) :: cosigs).
    split; [simpl; lia|]. split; [constructor; [split; [done|by exists key]|done]|].
    rewrite (omap_canon_cons _ (pk, sig) _ key Hk). simpl. set_solver.
Qed.

Lemma multisig_loop_complete addrs msg cosigs present :
  Forall (cosig_ok addrs msg) cosigs →
  try_fold (multisig_step addrs msg) present ((λ c, CosignerSig c.1 c.2) <$> cosigs) =
    Ok (present ∪ list_to_set (omap (canon addrs) (cosig_addr <$> cosigs))).
Proof.
  intros Hc. revert present. induction Hc as [|[pk sig] cosigs [Hv [key Hk]] _ IH]; intros present.
  { simpl. f_equal. set_solver. }
  rewrite (omap_canon_cons _ (pk, sig) _ key Hk), fmap_cons.
  cbn [try_fold multisig_step fst snd]. cbn [fst snd] in Hv, Hk.
  destruct (verify_pq512_sizes _ _ _ _ Hv) as [-> ->]. rewrite !Z.eqb_refl. cbn [negb].
  rewrite Hk. simpl. rewrite Hv. simpl.
  rewrite IH. f_equal. set_solver.
Qed.

Lemma canon_existsb addrs a :
  existsb (λ x, addresses_equivalent x a) addrs = true ↔ is_Some (canon addrs a).
Proof.
  unfold canon. induction addrs as [|x addrs IH]; simpl.
  - split; [done|]. by intros [? ?].
  - destruct (addresses_equivalent x a); simpl; [|done]. split; [eauto|done].
Qed.

Lemma eval_multisig_sound n addrs w signer media created sighash :
  eval_multisig n addrs w signer sighash = Ok () →
  auth (MultiSig n addrs) signer media created sighash.
Proof.
  unfold eval_multisig. intros He.
  destruct ((n =? 0) || _ || _) eqn:Hn; [done|]. zbool.
  destruct (existsb _ addrs) eqn:Hex; [|done]. apply canon_existsb in Hex. simpl in He.
  destruct sighash as [msg|]; [|done]. simpl in He.
  destruct Hex as [primary Hp]. rewrite Hp in He. simpl in He.
  assert (∃ stack, len stack <= MAX_STACK ∧ ∃ present,
    try_fold (multisig_step addrs msg) {[primary]} stack = Ok present ∧
    n <= Z.of_nat (size present)) as (stack & Hs & present & Hf & Hsz).
  { destruct w as [|pre|s|a|pk sig]; simpl in He; try done.
    - exists []. split; [done|]. exists {[primary]}. split; [done|].
      destruct (_ <? n) eqn:?; [done|]. by zbool.
    - destruct (MAX_STACK <? len s) eqn:?; [done|]. zbool. exists s. split; [done|].
      simpl in He. destruct (try_fold _ _ s) as [present|]; [|done].
      exists present. split; [done|]. simpl in He. destruct (_ <? n) eqn:?; [done|]. by zbool. }
  destruct (multisig_loop_sound _ _ _ _ _ Hf) as (cosigs & Hl & Hok & ->).
  simpl. split_and!; [done|lia|eauto|]. exists msg, cosigs. split_and!; [done|lia|done|].
  by rewrite (members_eq _ _ primary).
Qed.

Lemma eval_multisig_complete n addrs signer media created sighash :
  auth (MultiSig n addrs) signer media created sighash →
  ∃ w, eval_multisig n addrs w signer sighash = Ok ().
Proof.
  simpl. intros (Hn & Hle & Hc & msg & cosigs & -> & Hl & Hok & Hsz).
  exists (Stack ((λ c, CosignerSig c.1 c.2) <$> cosigs)). unfold eval_multisig.
  pose proof (proj2 (canon_existsb addrs signer) Hc) as Hex. destruct Hc as [primary Hp].
  assert (len addrs ≠ 0) as Hne by (destruct addrs; [by destruct primary|unfold len; simpl; lia]).
  rewrite (proj2 (Z.eqb_neq n 0)), (proj2 (Z.eqb_neq (len addrs) 0)), (proj2 (Z.ltb_ge _ n)) by done.
  rewrite Hex. simpl. rewrite Hp. simpl. unfold len. rewrite length_fmap.
  rewrite (proj2 (Z.ltb_ge MAX_STACK _)) by done. simpl.
  rewrite multisig_loop_complete by done. simpl.
  rewrite <- (members_eq addrs signer) by done. by rewrite (proj2 (Z.ltb_ge _ n)).
Qed.

Lemma eval_inner_sound p w signer media created sighash :
  eval_inner p w signer media created sighash = Ok () → auth p signer media created sighash.
Proof.
  revert w. induction p as [a|h|a u|a r|l IHl r IHr|l IHl r IHr|n addrs|a|a e|v p IH|h];
    intros w He; simpl in He.
  - by destruct (addresses_equivalent a signer) eqn:?.
  - by eapply eval_preimage_sound.
  - destruct (media <? u) eqn:?; [done|]. zbool. simpl.
    by destruct (addresses_equivalent a signer) eqn:?.
  - destruct (media <? _) eqn:?; [done|]. zbool. simpl.
    by destruct (addresses_equivalent a signer) eqn:?.
  - destruct w as [| |[|w0 [|w1 rest]]| |]; try done. destruct (_ <? _); [done|].
    destruct (eval_inner l w0 _ _ _ _) as [[]|] eqn:E1; [|done].
    simpl in He. destruct (eval_inner r w1 _ _ _ _) as [[]|] eqn:E2; [|done].
    simpl. eauto.
  - assert (∃ w, is_ok (eval_inner l w signer media created sighash)
              || is_ok (eval_inner r w signer media created sighash) = true) as [w' Hor].
    { destruct w as [|pre|[|w0 rest]|a|pk sig]; try done;
        (destruct (is_ok _ || is_ok _) eqn:E; [by eexists|done]). }
    simpl. apply orb_true_iff in Hor as [Hor|Hor]; [left; apply (IHl w')|right; apply (IHr w')];
      by destruct (eval_inner _ w' _ _ _ _) as [[]|].
  - by eapply eval_multisig_sound.
  - done.
  - destruct (e <=? media) eqn:?; [done|]. zbool. simpl.
    by destruct (addresses_equivalent a signer) eqn:?.
  - by eapply IH.
  - by eapply eval_preimage_sound.
Qed.

Lemma eval_inner_complete p signer media created sighash :
  auth p signer media created sighash → ∃ w, eval_inner p w signer media created sighash = Ok ().
Proof.
  induction p as [a|h|a u|a r|l IHl r IHr|l IHl r IHr|n addrs|a|a e|v p IH|h]; intros Ha; simpl in Ha |- *.
  - exists Signature. by rewrite Ha.
  - destruct Ha as [pre <-]. exists (Preimage pre). simpl. by rewrite Z.eqb_refl.
  - exists Signature. destruct Ha as [Hu ->]. by rewrite (proj2 (Z.ltb_ge _ _) Hu).
  - exists Signature. destruct Ha as [Hu ->]. by rewrite (proj2 (Z.ltb_ge _ _) Hu).
  - destruct Ha as [Hl Hr]. destruct (IHl Hl) as [w0 H0], (IHr Hr) as [w1 H1].
    exists (Stack [w0; w1]). simpl. rewrite H0. simpl. by rewrite H1.
  - destruct Ha as [Hl|Hr].
    + destruct (IHl Hl) as [w0 H0]. exists (Stack [w0]). simpl. by rewrite H0.
    + destruct (IHr Hr) as [w0 H0]. exists (Stack [w0]). simpl. by rewrite H0, orb_true_r.
  - by apply (eval_multisig_complete n addrs signer media created).
  - done.
  - exists Signature. destruct Ha as [He ->]. by rewrite (proj2 (Z.leb_gt _ _) He).
  - by apply IH.
  - destruct Ha as [pre <-]. exists (Preimage pre). simpl. by rewrite Z.eqb_refl.
Qed.

(** C27. The covenant evaluator implements the declarative meaning of predicates:
    some witness unlocks an output exactly when its predicate is nested at most 8
    deep and its meaning holds at this signer, media blue score and sighash. *)
Theorem evaluate_full_spec p signer media created sighash :
  (∃ w, evaluate_full p w signer media created sighash = Ok ()) ↔
  depth p <= MAX_PRED_DEPTH ∧ auth p signer media created sighash.
Proof.
  unfold evaluate_full. destruct (Z.ltb_spec MAX_PRED_DEPTH (depth p)) as [Hd|Hd].
  - split; [by intros [? ?]|lia].
  - split.
    + intros [w Hw]. split; [done|]. by eapply eval_inner_sound.
    + intros [_ Ha]. by apply eval_inner_complete.
Qed.

(** The address of an authorised member is equivalent to the primary signer's or
    to that of a verified cosigner. *)
Lemma members_authorised addrs signer cosigs a :
  a ∈ members addrs signer cosigs →
  a ∈ addrs ∧ (addresses_equivalent a signer = true ∨
               ∃ c, c ∈ cosigs ∧ addresses_equivalent a (cosig_addr c) = true).
Proof.
  unfold members. rewrite elem_of_list_to_set, list_elem_of_omap.
  intros (x & Hx & Hc). unfold canon in Hc. apply List.find_some in Hc as [Hin Heq].
  split; [by apply list_elem_of_In|].
  apply elem_of_cons in Hx as [->|Hx]; [by left|right].
  apply list_elem_of_fmap in Hx as (c & -> & Hc). eauto.
Qed.

(** N-of-M safety: an unlocked multisig output has at least [n] distinct
    members of its address set, each of which either is the primary signer of
    the transaction or has a cosignature that verifies over its sighash. *)
Theorem multisig_safety n addrs w signer media created msg :
  evaluate_full (MultiSig n addrs) w signer media created (Some msg) = Ok () →
  ∃ ms : gset string, n <= Z.of_nat (size ms) ∧
    ∀ a, a ∈ ms → a ∈ addrs ∧
      (addresses_equivalent a signer = true ∨
       ∃ pk sig, verify_pq512 (str_bytes "utxo-tx") msg pk sig = true ∧
                 addresses_equivalent a (encode_hash (address_hash pk)) = true).
Proof.
  intros He. apply eval_inner_sound in He as (_ & _ & _ & msg' & cosigs & [= <-] & _ & Hok & Hsz).
  exists (members addrs signer cosigs). split; [done|]. intros a Ha.
  destruct (members_authorised _ _ _ _ Ha) as [Hin [Hs|([pk sig] & Hc & Heq)]]; split; eauto.
  right. exists pk, sig. split; [|done].
  by destruct (proj1 (Forall_forall _ _) Hok _ Hc).
Qed.
End eval.

(** A 2-of-2 spend with one cosignature, under the small instance. *)
Module MultisigExample.
Import Toy.
Definition alice : string := hash_to_address [1; 2].
Definition bob : string := hash_to_address [3; 4].
Definition sighash : bytes := [9; 9].
Definition bob_sig : bytes :=
  le_bytes 4 (mix ([3; 4] ++ digest512 (str_bytes "utxo-tx") sighash)).
End MultisigExample.

Lemma multisig_safety_witness :
  ∃ ms : gset string, 2 <= Z.of_nat (size ms) ∧
    ∀ a, a ∈ ms → a ∈ [MultisigExample.alice; MultisigExample.bob].
Proof.
  destruct (@multisig_safety Toy.toy_crypto 2 [MultisigExample.alice; MultisigExample.bob]
    (Stack [CosignerSig [3; 4] MultisigExample.bob_sig]) MultisigExample.alice 5 0
    MultisigExample.sighash) as (ms & Hsz & Hms).
  - vm_compute. reflexivity.
  - exists ms. split; [exact Hsz|]. intros a Ha. exact (proj1 (Hms a Ha)).
Defined.
