(* ===== verification/Utxo.v ===== *)
(** * The UTXO set

    [src/src/utxo.rs]: outpoints, outputs, the live set with its spent
    nullifiers, and its commitment.  [utxo_wf] (no outpoint is both live and
    nullified) is the invariant of every operation; [spend]/[insert] are
    specified by their effect on the total value. *)

From S2P Require Import Prelude Genesis Crypto Address Predicate.

Record OutPoint := { txid : Hash; vout : Z }.

#[global] Instance outpoint_eq_dec : EqDecision OutPoint.
Proof. solve_decision. Defined.
#[global] Instance outpoint_countable : Countable OutPoint.
Proof.
  refine (inj_countable' (λ o, (txid o, vout o)) (λ p, {| txid := p.1; vout := p.2 |}) _).
  by intros [].
Defined.

(** The derived [Ord]. *)
Definition outpoint_le (a b : OutPoint) : Prop :=
  txid a < txid b ∨ (txid a = txid b ∧ vout a <= vout b).
#[global] Instance outpoint_le_dec : RelDecision outpoint_le.
Proof. intros a b. unfold outpoint_le. apply _. Defined.

(** [OutPoint::coinbase], [OutPoint::is_coinbase]. *)
Definition OutPoint_coinbase (coinbase_txid : Hash) : OutPoint :=
  {| txid := coinbase_txid; vout := U32_MAX |}.
Definition is_coinbase (op : OutPoint) : bool := vout op =? U32_MAX.

Record TxOut := { value : Z; predicate : Predicate; created_blue : Z }.

Record TxIn := { previous : OutPoint; relative_lock_blues : Z; witness : UnlockWitness }.

Record UtxoSet := { entries : gmap OutPoint TxOut; spent : gset OutPoint }.
Definition UtxoSet_default : UtxoSet := {| entries := ∅; spent := ∅ |}.

Definition COINBASE_MATURITY_BLUES : Z := 100.
Definition UTXO_DUST : Z := 546.

(** ** Operations *)

Definition get (u : UtxoSet) (op : OutPoint) : option TxOut := entries u !! op.
Definition contains (u : UtxoSet) (op : OutPoint) : bool := bool_decide (is_Some (entries u !! op)).
Definition is_spent (u : UtxoSet) (op : OutPoint) : bool :=
  bool_decide (op ∈ spent u) || negb (contains u op).

Definition insert_utxo (u : UtxoSet) (op : OutPoint) (out : TxOut) : UtxoSet :=
  {| entries := <[op := out]> (entries u); spent := spent u ∖ {[ op ]} |}.

Definition spend (u : UtxoSet) (op : OutPoint) : result TxOut * UtxoSet :=
  if bool_decide (op ∈ spent u) then (Err "Outpoint already spent", u) else
  match entries u !! op with
  | None => (Err "Unknown outpoint", u)
  | Some out => (Ok out, {| entries := delete op (entries u); spent := {[ op ]} ∪ spent u |})
  end.

(** The values before the [u128] sum could wrap. *)
Definition utxo_value (u : UtxoSet) : Z := total value (entries u).
Definition total_value (u : UtxoSet) : Z := wrap 128 (utxo_value u).

(** [bincode] of a predicate, a third-party serializer; [None] is its error. *)
Class PredicateCodec := { ser_predicate : Predicate → option bytes }.

(** [UtxoSet::commitment]: the entries in key order. *)
Definition outpoint_entry_le (a b : OutPoint * TxOut) : Prop := outpoint_le a.1 b.1.
#[global] Instance outpoint_entry_le_dec : RelDecision outpoint_entry_le.
Proof. intros a b. unfold outpoint_entry_le. apply _. Defined.

Definition commitment `{!Crypto, !PredicateCodec} (u : UtxoSet) : Hash :=
  blake3_512 (str_bytes "hassan-utxo-set-v1" ++
    concat ((λ '(op, out), hash_bytes (txid op) ++ le_bytes 4 (vout op) ++
               le_bytes 16 (value out) ++ le_bytes 8 (created_blue out) ++
               default [] (ser_predicate (predicate out)))
            <$> merge_sort outpoint_entry_le (map_to_list (entries u)))).

(** ** Invariant and effects *)

(** No live outpoint is nullified. *)
Definition utxo_wf (u : UtxoSet) : Prop := ∀ op, op ∈ spent u → entries u !! op = None.

Lemma utxo_wf_default : utxo_wf UtxoSet_default.
Proof. intros op ?. done. Qed.

Lemma utxo_wf_insert u op out : utxo_wf u → utxo_wf (insert_utxo u op out).
Proof.
  intros Hwf op' [Hs Hne]%elem_of_difference. simpl in *.
  rewrite lookup_insert_ne by set_solver. by apply Hwf.
Qed.

Lemma spend_inv u op r u' :
  spend u op = (r, u') →
  match r with
  | Ok out => entries u !! op = Some out ∧ (op ∉ spent u) ∧
              entries u' = delete op (entries u) ∧ spent u' = ({[ op ]} ∪ spent u)
  | Err _ => u' = u ∧ (op ∈ spent u ∨ entries u !! op = None)
  end.
Proof.
  unfold spend. case_bool_decide; [intros [= <- <-]; by eauto|].
  destruct (entries u !! op) eqn:?; intros [= <- <-]; eauto.
Qed.

Lemma utxo_wf_spend u op r u' : utxo_wf u → spend u op = (r, u') → utxo_wf u'.
Proof.
  intros Hwf Hs. apply spend_inv in Hs. destruct r as [out|e]; [|by destruct Hs as [-> _]].
  destruct Hs as (Hl & Hn & He & Hsp). intros op'. rewrite He, Hsp, elem_of_union, elem_of_singleton.
  intros [->|Hop]; [apply lookup_delete_eq|]. apply lookup_delete_None. right. by apply Hwf.
Qed.

Lemma spend_live u op out :
  utxo_wf u → entries u !! op = Some out →
  spend u op = (Ok out, {| entries := delete op (entries u); spent := {[ op ]} ∪ spent u |}).
Proof.
  intros Hwf Hl. unfold spend. rewrite bool_decide_eq_false_2, Hl; [done|].
  intros Hs. apply Hwf in Hs. congruence.
Qed.

Lemma utxo_value_insert u op out :
  entries u !! op = None → utxo_value (insert_utxo u op out) = utxo_value u + value out.
Proof. intros Hn. unfold utxo_value. simpl. rewrite total_insert_None by done. lia. Qed.

#[export] Hint Resolve utxo_wf_insert utxo_wf_spend utxo_wf_default : hassan.
