(* ===== verification/UtxoTx.v ===== *)
(** * UTXO transactions

    [src/src/utxo_tx.rs]: form rules, the sighash and the transaction ids, the
    payment builder, [apply_utxo_tx] and [mint_coinbase].

    [apply_utxo_tx] keeps the order of the source: every check, then the spends,
    then the outputs, mutating as it goes; a failure after the first mutation
    returns the state as it is at that point.  The theorems: value conservation,
    authorisation of every input, no double spend, atomicity of failures when no
    output credits the account overlay (and the counterexample when one does),
    and the balance of built payments. *)

From S2P Require Import Prelude Genesis Crypto Address Predicate Utxo.

(** ** Data *)

(** [Account] of lib.rs. *)
Record Account := {
  balance : Z;
  nonce : Z;
  last_spend_blue : Z;
  code_hash : option Hash;
  storage_root : Hash;
}.
Definition Account_default : Account :=
  {| balance := 0; nonce := 0; last_spend_blue := 0; code_hash := None; storage_root := HASH_ZERO |}.
Definition with_balance (a : Account) (b : Z) : Account :=
  {| balance := b; nonce := nonce a; last_spend_blue := last_spend_blue a;
     code_hash := code_hash a; storage_root := storage_root a |}.
Abbreviation Accounts := (gmap string Account) (only parsing).

Record UtxoTx := {
  inputs : list TxIn;
  outputs : list TxOut;
  lock_blue_score : Z;
  fee : Z;
  chain_id : Z;
  from_pubkey : bytes;
  signature : bytes;
}.

Definition with_signature (tx : UtxoTx) (s : bytes) : UtxoTx :=
  {| inputs := inputs tx; outputs := outputs tx; lock_blue_score := lock_blue_score tx;
     fee := fee tx; chain_id := chain_id tx; from_pubkey := from_pubkey tx; signature := s |}.
Definition with_fee_outputs (tx : UtxoTx) (f : Z) (outs : list TxOut) : UtxoTx :=
  {| inputs := inputs tx; outputs := outs; lock_blue_score := lock_blue_score tx;
     fee := f; chain_id := chain_id tx; from_pubkey := from_pubkey tx; signature := signature tx |}.

(** [bincode] of witnesses, and the encoded length of a whole transaction. *)
Class UtxoCodec := {
  utxo_predicate_codec :: PredicateCodec;
  ser_witness : UnlockWitness → option bytes;
  ser_utxo_tx_len : UtxoTx → option Z;
}.

(** The state [apply_utxo_tx] mutates through its [&mut] arguments. *)
Record UtxoState := { utxos : UtxoSet; accounts : Accounts; fees_out : Z }.

Section utxo_tx.
Context `{!Crypto, !UtxoCodec}.

(** ** Identity and form *)

Definition from_address (tx : UtxoTx) : string := hash_to_address (from_pubkey tx).

Definition relay_bytes (tx : UtxoTx) : Z :=
  let priced := if negb (len (signature tx) =? PQ_SIGNATURE_SIZE)
                then with_signature tx (replicate SIG_LEN 0) else tx in
  default (sat_add 64 (sat_add 64 PQ_PUBLIC_KEY_SIZE PQ_SIGNATURE_SIZE) 256) (ser_utxo_tx_len priced).

Definition min_fee_required (tx : UtxoTx) : Z :=
  Z.max (sat_mul 128 (relay_bytes tx) MIN_FEE_PER_BYTE) MIN_TX_FEE.

(** The duplicate-input loop of [validate_form]. *)
Fixpoint duplicate_input (seen : gset OutPoint) (ins : list TxIn) : bool :=
  match ins with
  | [] => false
  | tin :: ins =>
      if bool_decide (previous tin ∈ seen) then true
      else duplicate_input ({[ previous tin ]} ∪ seen) ins
  end.

(** The output loop of [validate_form]. *)
Definition validate_output (_ : unit) (out : TxOut) : result unit :=
  fail_if value out =? 0 as "Output value must be > 0";
  fail_if negb (is_account_credit (predicate out)) && (value out <? UTXO_DUST)
    as ("Output below dust (" +:+ pretty UTXO_DUST +:+ ")");
  match locked_address (predicate out) with
  | Some addr =>
      fail_if negb (is_valid_address addr) as "Invalid output address";
      fail_if negb (is_bech32m_address addr) as "New UTXO outputs must use bech32m hsn1… addresses";
      Ok ()
  | None => Ok ()
  end.

Definition validate_form (tx : UtxoTx) : result unit :=
  fail_if len (inputs tx) =? 0 as "UtxoTx requires at least one input";
  fail_if len (outputs tx) =? 0 as "UtxoTx requires at least one output";
  fail_if 64 <? len (outputs tx) as "Too many outputs";
  fail_if 64 <? len (inputs tx) as "Too many inputs";
  fail_if negb (len (from_pubkey tx) =? PQ_PUBLIC_KEY_SIZE) as "Invalid from_pubkey length";
  fail_if fee tx <? min_fee_required tx as ("Fee must be ≥ " +:+ pretty (min_fee_required tx));
  fail_if duplicate_input ∅ (inputs tx) as "Duplicate input outpoint";
  _ ← try_fold validate_output () (outputs tx);
  fail_if negb (len (signature tx) =? PQ_SIGNATURE_SIZE) && negb (len (signature tx) =? 0)
    as "Invalid signature length";
  Ok ().

Definition signing_bytes (tx : UtxoTx) : bytes :=
  le_bytes 8 (lock_blue_score tx) ++ le_bytes 16 (fee tx) ++ le_bytes 8 (chain_id tx) ++
  le_bytes 4 (len (inputs tx)) ++
  concat ((λ tin, hash_bytes (txid (previous tin)) ++ le_bytes 4 (vout (previous tin)) ++
                  le_bytes 4 (relative_lock_blues tin)) <$> inputs tx) ++
  le_bytes 4 (len (outputs tx)) ++
  concat ((λ out, le_bytes 16 (value out) ++ default [] (ser_predicate (predicate out))) <$> outputs tx).

Definition sign (tx : UtxoTx) (signing_key_bytes rng : bytes) : result UtxoTx :=
  s ← sign_pq512 (str_bytes "utxo-tx") (signing_bytes tx) signing_key_bytes rng;
  Ok (with_signature tx s).

Definition verify (tx : UtxoTx) : bool :=
  verify_pq512 (str_bytes "utxo-tx") (signing_bytes tx) (from_pubkey tx) (signature tx).

(** [UtxoTx::txid], [tx_hash] (= [wtxid]). *)
Definition tx_id (tx : UtxoTx) : Hash :=
  be_int (digest512 (str_bytes "utxo-txid") (signing_bytes tx ++ signature tx)).
Definition tx_hash (tx : UtxoTx) : Hash :=
  be_int (digest512 (str_bytes "utxo-tx-hash")
    (signing_bytes tx ++ signature tx ++
     concat ((λ tin, default [] (ser_witness (witness tin))) <$> inputs tx))).

(** ** Payment builder *)
Definition pay_out (to : string) (v : Z) : TxOut :=
  {| value := v; predicate := PayToAddress to; created_blue := 0 |}.

(** The single-input body both the size probe and the result are built with. *)
Definition payment_body (from_pubkey : bytes) (funding : OutPoint)
    (chain_id lock_blue_score relative_lock_blues f : Z) (outs : list TxOut) : UtxoTx :=
  {| inputs := [{| previous := funding; relative_lock_blues := relative_lock_blues;
                   witness := Signature |}];
     outputs := outs; lock_blue_score := lock_blue_score; fee := f; chain_id := chain_id;
     from_pubkey := from_pubkey; signature := [] |}.

(** The tail of [payment]: the change output may have raised the size floor. *)
Definition payment_rebump (tx : UtxoTx) : result UtxoTx :=
  let need_fee := min_fee_required tx in
  if fee tx <? need_fee then
    let extra := need_fee - fee tx in
    match last (outputs tx) with
    | Some l =>
        if wrap 128 (extra + UTXO_DUST) <? value l then
          let l' := {| value := value l - extra; predicate := predicate l; created_blue := created_blue l |} in
          Ok (with_fee_outputs tx need_fee
                (<[(length (outputs tx) - 1)%nat := l']> (outputs tx)))
        else Err ("Fee must be ≥ " +:+ pretty need_fee)
    | None => Err ("Fee must be ≥ " +:+ pretty need_fee)
    end
  else Ok tx.

Definition payment (from_pubkey : bytes) (funding : OutPoint) (funding_value : Z) (to : string)
    (amount fee0 chain_id lock_blue_score relative_lock_blues : Z) : result UtxoTx :=
  let change_addr := hash_to_address from_pubkey in
  let body := payment_body from_pubkey funding chain_id lock_blue_score relative_lock_blues in
  let probe := body (Z.max fee0 MIN_TX_FEE) [pay_out to amount] in
  let fee1 := Z.max fee0 (min_fee_required probe) in
  need ← ok_or (checked_add 128 amount fee1) "amount+fee overflow";
  fail_if funding_value <? need as "Insufficient funding UTXO";
  let change := funding_value - need in
  outs ← (if 0 <? change then
            fail_if change <? UTXO_DUST as "Change below dust";
            Ok [pay_out to amount; pay_out change_addr change]
          else Ok [pay_out to amount]);
  payment_rebump (body fee1 outs).

(** ** Application *)

Fixpoint assert_exact_value_binds (pred : Predicate) (v : Z) : result unit :=
  match pred with
  | ExactValue bound inner =>
      fail_if negb (bound =? v)
        as ("ExactValue: spent " +:+ pretty v +:+ " != covenant bound " +:+ pretty bound);
      assert_exact_value_binds inner v
  | And lhs rhs | Or lhs rhs =>
      _ ← assert_exact_value_binds lhs v;
      assert_exact_value_binds rhs v
  | _ => Ok ()
  end.

(** Body of the input loop of [apply_utxo_tx]: state [(input_sum, spent_outs)]. *)
Definition check_input (u : UtxoSet) (tx : UtxoTx) (media_blue : Z)
    (acc : Z * list (OutPoint * TxOut)) (tin : TxIn) : result (Z * list (OutPoint * TxOut)) :=
  let '(input_sum, spent_outs) := acc in
  out ← ok_or (get u (previous tin)) "Unknown outpoint";
  fail_if is_coinbase (previous tin) &&
          (media_blue <? sat_add 64 (created_blue out) COINBASE_MATURITY_BLUES)
    as "Coinbase immature";
  let unlock_at := sat_add 64 (created_blue out) (relative_lock_blues tin) in
  fail_if (0 <? relative_lock_blues tin) && (media_blue <? unlock_at)
    as ("Relative lock: media " +:+ pretty media_blue +:+ " < unlock " +:+ pretty unlock_at);
  _ ← evaluate_full (predicate out) (witness tin) (from_address tx) media_blue (created_blue out)
        (Some (signing_bytes tx));
  _ ← assert_exact_value_binds (predicate out) (value out);
  input_sum ← ok_or (checked_add 128 input_sum (value out)) "input value overflow";
  Ok (input_sum, spent_outs ++ [(previous tin, out)]).

Definition sum_output (output_sum : Z) (out : TxOut) : result Z :=
  ok_or (checked_add 128 output_sum (value out)) "output value overflow".

(** The checks of [apply_utxo_tx], up to its first mutation: the outputs to spend. *)
Definition check_utxo_tx (u : UtxoSet) (tx : UtxoTx) (media_blue : Z)
    : result (list (OutPoint * TxOut)) :=
  _ ← validate_form tx;
  fail_if negb (verify tx) as "Invalid UTXO signature";
  fail_if (0 <? lock_blue_score tx) && (media_blue <? lock_blue_score tx)
    as ("Tx lock_blue_score " +:+ pretty (lock_blue_score tx) +:+ " not reached (media " +:+
        pretty media_blue +:+ ")");
  '(input_sum, spent_outs) ← try_fold (check_input u tx media_blue) (0, []) (inputs tx);
  output_sum ← try_fold sum_output (fee tx) (outputs tx);
  fail_if negb (input_sum =? output_sum)
    as ("Value imbalance: inputs " +:+ pretty input_sum +:+ " != outputs+fee " +:+ pretty output_sum);
  Ok spent_outs.

Definition spend_one (s : UtxoState) (so : OutPoint * TxOut) : result unit * UtxoState :=
  match spend (utxos s) so.1 with
  | (Ok _, u) => (Ok (), {| utxos := u; accounts := accounts s; fees_out := fees_out s |})
  | (Err e, u) => (Err e, {| utxos := u; accounts := accounts s; fees_out := fees_out s |})
  end.

(** Body of the output loop: [accounts.entry(addr).or_default()] has created the
    account even when the credit then overflows. *)
Definition create_output (id : Hash) (media_blue : Z) (s : UtxoState) (iout : Z * TxOut)
    : result unit * UtxoState :=
  let '(i, out) := iout in
  if is_account_credit (predicate out) then
    match locked_address (predicate out) with
    | None => (Err "CreditAccount missing address", s)
    | Some addr =>
        let acct := default Account_default (accounts s !! addr) in
        let set b := {| utxos := utxos s; accounts := <[addr := with_balance acct b]> (accounts s);
                        fees_out := fees_out s |} in
        match checked_add 128 (balance acct) (value out) with
        | Some b => (Ok (), set b)
        | None => (Err "account credit overflow", set (balance acct))
        end
    end
  else
    let created := {| value := value out; predicate := predicate out; created_blue := media_blue |} in
    (Ok (), {| utxos := insert_utxo (utxos s) {| txid := id; vout := wrap 32 i |} created;
               accounts := accounts s; fees_out := fees_out s |}).

Definition enumerate {A} (l : list A) : list (Z * A) := zip (seqZ 0 (len l)) l.

Definition apply_utxo_tx (s : UtxoState) (tx : UtxoTx) (media_blue : Z) : result unit * UtxoState :=
  match check_utxo_tx (utxos s) tx media_blue with
  | Err e => (Err e, s)
  | Ok spent_outs =>
      match run spend_one s spent_outs with
      | (Err e, s) => (Err e, s)
      | (Ok _, s) =>
          match run (create_output (tx_hash tx) media_blue) s (enumerate (outputs tx)) with
          | (Err e, s) => (Err e, s)
          | (Ok _, s) =>
              (Ok (), {| utxos := utxos s; accounts := accounts s;
                         fees_out := sat_add 128 (fees_out s) (fee tx) |})
          end
      end
  end.

(** [mint_coinbase]. *)
Definition mint_coinbase (u : UtxoSet) (block_hash : Hash) (miner_address : string)
    (subsidy media_blue : Z) : UtxoSet :=
  if subsidy =? 0 then u else
  insert_utxo u (OutPoint_coinbase block_hash)
    {| value := subsidy; predicate := PayToAddress miner_address; created_blue := media_blue |}.

(** ** What the checks establish *)

Definition state_value (s : UtxoState) : Z := utxo_value (utxos s) + total balance (accounts s).

Fixpoint exact_value_ok (p : Predicate) (v : Z) : Prop :=
  match p with
  | ExactValue bound inner => bound = v ∧ exact_value_ok inner v
  | And l r | Or l r => exact_value_ok l v ∧ exact_value_ok r v
  | _ => True
  end.

(** Input [tin] of [tx] may spend [out] at [media]. *)
Definition input_ok (u : UtxoSet) (tx : UtxoTx) (media : Z) (tin : TxIn) (out : TxOut) : Prop :=
  entries u !! previous tin = Some out ∧
  (is_coinbase (previous tin) = true → sat_add 64 (created_blue out) COINBASE_MATURITY_BLUES <= media) ∧
  (0 < relative_lock_blues tin → sat_add 64 (created_blue out) (relative_lock_blues tin) <= media) ∧
  auth (predicate out) (from_address tx) media (created_blue out) (Some (signing_bytes tx)) ∧
  exact_value_ok (predicate out) (value out).

Lemma assert_exact_value_binds_ok p v : assert_exact_value_binds p v = Ok () → exact_value_ok p v.
Proof.
  induction p as [| | | |l IHl r IHr|l IHl r IHr| | | |b p IH|]; simpl; try done.
  - intros He. destruct (assert_exact_value_binds l v) as [[]|]; [|done]. eauto.
  - intros He. destruct (assert_exact_value_binds l v) as [[]|]; [|done]. eauto.
  - destruct (Z.eqb_spec b v); [|done]. eauto.
Qed.

Lemma check_input_spec u tx media sum outs tin r :
  check_input u tx media (sum, outs) tin = Ok r →
  ∃ out, input_ok u tx media tin out ∧ r = (sum + value out, outs ++ [(previous tin, out)]).
Proof.
  unfold check_input, get. destruct (entries u !! previous tin) as [out|] eqn:Hl; [|done]. simpl.
  intros Hc. exists out.
  destruct (is_coinbase _ && _) eqn:Hcb; [done|].
  destruct ((0 <? _) && _) eqn:Hrel; [done|].
  destruct (evaluate_full _ _ _ _ _ _) as [[]|] eqn:Hev; [|done]. simpl in Hc.
  destruct (assert_exact_value_binds _ _) as [[]|] eqn:Hex; [|done]. simpl in Hc.
  destruct (checked_add 128 sum (value out)) eqn:Hadd; [|done]. simpl in Hc. simplify_eq/=.
  apply checked_add_Some in Hadd as [-> _]. split; [|done].
  unfold evaluate_full in Hev. destruct (MAX_PRED_DEPTH <? _); [done|].
  split_and!; [done| | |by eapply eval_inner_sound|by apply assert_exact_value_binds_ok].
  - intros Hc. rewrite Hc in Hcb. simpl in Hcb. by zbool.
  - intros Hc. rewrite (proj2 (Z.ltb_lt _ _) Hc) in Hrel. simpl in Hrel. by zbool.
Qed.

Lemma check_inputs_spec u tx media ins sum outs r :
  try_fold (check_input u tx media) (sum, outs) ins = Ok r →
  ∃ os, Forall2 (input_ok u tx media) ins os ∧
    r = (sum + zsum (value <$> os), outs ++ zip (previous <$> ins) os).
Proof.
  revert sum outs. induction ins as [|tin ins IH]; intros sum outs Hf.
  { injection Hf as <-. exists []. split; [constructor|]. simpl. rewrite app_nil_r. f_equal. lia. }
  cbn [try_fold] in Hf. destruct (check_input u tx media (sum, outs) tin) as [r'|] eqn:Hc; [|done].
  apply check_input_spec in Hc as (out & Hok & ->).
  destruct (IH _ _ Hf) as (os & Hos & ->). exists (out :: os).
  split; [by constructor|]. rewrite !fmap_cons, zsum_cons, <- app_assoc. simpl. f_equal. lia.
Qed.

Lemma sum_outputs_spec outs f r :
  try_fold sum_output f outs = Ok r → r = f + zsum (value <$> outs).
Proof.
  revert f. induction outs as [|o outs IH]; intros f Hf; cbn [try_fold] in Hf.
  { injection Hf as <-. simpl. lia. }
  unfold sum_output at 1 in Hf. destruct (checked_add 128 f (value o)) eqn:Ha; [|done].
  apply checked_add_Some in Ha as [-> _]. apply IH in Hf. rewrite fmap_cons, zsum_cons. lia.
Qed.

Lemma duplicate_input_NoDup seen ins :
  duplicate_input seen ins = false →
  NoDup (previous <$> ins) ∧ ∀ op, op ∈ previous <$> ins → op ∉ seen.
Proof.
  revert seen. induction ins as [|tin ins IH]; simpl; intros seen Hd.
  { split; [constructor|]. by intros op ?%elem_of_nil. }
  case_bool_decide as Hin; [done|]. destruct (IH _ Hd) as [Hnd Hseen]. split.
  - constructor; [|done]. intros Hp. apply Hseen in Hp. set_solver.
  - intros op [->|Hop]%elem_of_cons; [done|]. apply Hseen in Hop. set_solver.
Qed.

(** Everything [check_utxo_tx] guarantees about the transaction. *)
Lemma check_utxo_tx_spec u tx media spent_outs :
  check_utxo_tx u tx media = Ok spent_outs →
  verify tx = true ∧ (0 < lock_blue_score tx → lock_blue_score tx <= media) ∧
  len (outputs tx) <= 64 ∧ NoDup (previous <$> inputs tx) ∧
  ∃ os, Forall2 (input_ok u tx media) (inputs tx) os ∧
    spent_outs = zip (previous <$> inputs tx) os ∧
    zsum (value <$> os) = fee tx + zsum (value <$> outputs tx).
Proof.
  unfold check_utxo_tx. intros Hc.
  destruct (validate_form tx) as [[]|] eqn:Hform; [|done]. simpl in Hc.
  destruct (verify tx) eqn:Hv; [|done]. simpl in Hc.
  destruct ((0 <? _) && _) eqn:Hlock; [done|].
  destruct (try_fold (check_input _ _ _) _ _) as [[isum so]|] eqn:Hin; [|done]. simpl in Hc.
  destruct (try_fold sum_output _ _) as [osum|] eqn:Hout; [|done]. simpl in Hc.
  destruct (Z.eqb_spec isum osum) as [->|]; [|done]. simpl in Hc. injection Hc as <-.
  apply check_inputs_spec in Hin as (os & Hos & [= -> ->]). apply sum_outputs_spec in Hout.
  unfold validate_form in Hform.
  destruct (len (inputs tx) =? 0); [done|]. destruct (len (outputs tx) =? 0); [done|].
  destruct (64 <? len (outputs tx)) eqn:Ho; [done|]. zbool.
  destruct (64 <? len (inputs tx)); [done|]. destruct (negb (len (from_pubkey tx) =? _)); [done|].
  destruct (fee tx <? _); [done|]. destruct (duplicate_input ∅ _) eqn:Hd; [done|].
  split_and!; [done| |done|by eapply duplicate_input_NoDup|].
  - intros Hl. rewrite (proj2 (Z.ltb_lt _ _) Hl) in Hlock. simpl in Hlock. by zbool.
  - exists os. split_and!; [done|done|lia].
Qed.

(** ** What the mutations do *)

Lemma spend_loop_spec s ops outs :
  utxo_wf (utxos s) → NoDup ops → Forall2 (λ op out, entries (utxos s) !! op = Some out) ops outs →
  ∃ s', run spend_one s (zip ops outs) = (Ok (), s') ∧ utxo_wf (utxos s') ∧
    utxo_value (utxos s') = utxo_value (utxos s) - zsum (value <$> outs) ∧
    (∀ op, entries (utxos s') !! op = if bool_decide (op ∈ ops) then None else entries (utxos s) !! op) ∧
    spent (utxos s') = list_to_set ops ∪ spent (utxos s) ∧
    accounts s' = accounts s ∧ fees_out s' = fees_out s.
Proof.
  intros Hwf Hnd Hf. revert s Hwf Hnd Hf.
  induction ops as [|op ops IH] in outs |- *; intros s Hwf Hnd Hf.
  { apply Forall2_nil_inv_l in Hf as ->. exists s. split_and!; [done|done|simpl; lia| |set_solver|done|done].
    intros op. case_bool_decide as Hn; [by apply elem_of_nil in Hn|done]. }
  apply Forall2_cons_inv_l in Hf as (out & outs' & Hl & Hf & ->). apply NoDup_cons in Hnd as [Hni Hnd].
  cbn [zip_with run]. unfold spend_one at 1. cbn [fst]. rewrite (spend_live _ _ out) by done.
  set (s1 := {| utxos := _; accounts := _; fees_out := _ |}).
  destruct (IH outs' s1) as (s' & Hrun & Hwf' & Hval & Hlk & Hsp & Hac & Hfe).
  - eapply utxo_wf_spend; [exact Hwf|]. by apply spend_live.
  - done.
  - apply Forall2_same_length_lookup. split; [by eapply Forall2_length|]. simpl.
    intros i x y Hx Hy. rewrite lookup_delete_ne.
    + exact (Forall2_lookup_lr _ _ _ _ _ _ Hf Hx Hy).
    + intros ->. apply Hni. by eapply list_elem_of_lookup_2.
  - exists s'. split_and!; [done|done| | | |done|done].
    + rewrite Hval, fmap_cons, zsum_cons. unfold utxo_value. cbn [utxos entries s1].
      rewrite total_delete, (contrib_Some _ _ _ _ Hl). lia.
    + intros op'. rewrite Hlk. simpl. destruct (decide (op' = op)) as [->|Hne].
      * rewrite bool_decide_eq_false_2 by done. rewrite lookup_delete_eq.
        by rewrite bool_decide_eq_true_2 by set_solver.
      * rewrite lookup_delete_ne by done. by rewrite (bool_decide_ext (op' ∈ op :: ops) (op' ∈ ops)) by set_solver.
    + rewrite Hsp. simpl. set_solver.
Qed.

(** No live output carries the identifier [id]. *)
Definition fresh_txid (u : UtxoSet) (id : Hash) : Prop :=
  ∀ i, entries u !! {| txid := id; vout := i |} = None.

Lemma credit_value (m : gmap string Account) addr v :
  total balance (<[addr := with_balance (default Account_default (m !! addr)) v]> m) =
  total balance m - balance (default Account_default (m !! addr)) + v.
Proof.
  rewrite total_insert. simpl. unfold contrib. by destruct (m !! addr).
Qed.

Lemma create_loop_spec id media k outs s s' :
  0 <= k → k + len outs <= 2 ^ 32 → utxo_wf (utxos s) →
  (∀ i, k <= i → entries (utxos s) !! {| txid := id; vout := i |} = None) →
  run (create_output id media) s (zip (seqZ k (len outs)) outs) = (Ok (), s') →
  utxo_wf (utxos s') ∧ state_value s' = state_value s + zsum (value <$> outs) ∧
  (∀ op, txid op ≠ id → entries (utxos s') !! op = entries (utxos s) !! op) ∧
  (∀ op, txid op ≠ id → op ∈ spent (utxos s) → op ∈ spent (utxos s')) ∧
  fees_out s' = fees_out s.
Proof.
  revert k s. induction outs as [|out outs IH]; intros k s Hk Hlen Hwf Hfresh Hrun.
  { simpl in Hrun. injection Hrun as <-. simpl. split_and!; [done|lia|done..]. }
  unfold len in Hlen, Hrun. simpl length in Hlen, Hrun.
  rewrite seqZ_cons in Hrun by lia. cbn [zip_with run] in Hrun.
  replace (Z.pred (Z.of_nat (S (length outs)))) with (len outs) in Hrun by (unfold len; lia).
  rewrite fmap_cons, zsum_cons. destruct (create_output id media s (k, out)) as [[[]|e] s1] eqn:Hc; [|done].
  assert (utxo_wf (utxos s1) ∧ state_value s1 = state_value s + value out ∧
    (∀ op, txid op ≠ id → entries (utxos s1) !! op = entries (utxos s) !! op) ∧
    (∀ op, txid op ≠ id → op ∈ spent (utxos s) → op ∈ spent (utxos s1)) ∧
    fees_out s1 = fees_out s ∧
    (∀ i, k + 1 <= i → entries (utxos s1) !! {| txid := id; vout := i |} = None))
    as (Hwf1 & Hv1 & He1 & Hs1 & Hf1 & Hfresh1).
  { unfold create_output in Hc. destruct (is_account_credit (predicate out)).
    - destruct (locked_address (predicate out)) as [addr|]; [|done].
      destruct (checked_add 128 _ _) as [b|] eqn:Hadd; [|done]. injection Hc as <-.
      apply checked_add_Some in Hadd as [-> _]. unfold state_value. cbn [utxos accounts fees_out].
      split_and!; [done|rewrite credit_value; lia|done|done|done|]. intros. apply Hfresh. lia.
    - injection Hc as <-. unfold state_value. cbn [utxos accounts fees_out].
      rewrite wrap_small by (unfold in_width, umax; lia).
      split_and!.
      + by apply utxo_wf_insert.
      + rewrite utxo_value_insert by (apply Hfresh; lia). simpl. lia.
      + intros op Hop. simpl. apply lookup_insert_ne. by intros <-.
      + intros op Hop Hin. simpl. apply elem_of_difference. split; [done|].
        rewrite elem_of_singleton. by intros ->.
      + done.
      + intros i Hi. simpl. rewrite lookup_insert_ne by (intros [=]; lia). apply Hfresh. lia. }
  destruct (IH (Z.succ k) s1) as (Hwf' & Hv' & He' & Hs' & Hf'); [lia|unfold len; lia|done| |done|].
  { intros i Hi. apply Hfresh1. lia. }
  split_and!; [done|lia| | |congruence].
  - intros op Hop. rewrite He', He1 by done. done.
  - eauto.
Qed.

(** The effect of an accepted transaction. *)
Lemma accepted_checks s tx media s' :
  apply_utxo_tx s tx media = (Ok (), s') →
  verify tx = true ∧ (0 < lock_blue_score tx → lock_blue_score tx <= media) ∧
  ∃ os, Forall2 (input_ok (utxos s) tx media) (inputs tx) os.
Proof.
  unfold apply_utxo_tx. destruct (check_utxo_tx (utxos s) tx media) as [so|] eqn:Hc; [|done]. intros _.
  apply check_utxo_tx_spec in Hc as (Hv & Hl & _ & _ & os & Hos & _). split_and!; [done..|by exists os].
Qed.

Lemma apply_utxo_tx_ok s tx media s' :
  utxo_wf (utxos s) → fresh_txid (utxos s) (tx_hash tx) →
  apply_utxo_tx s tx media = (Ok (), s') →
  utxo_wf (utxos s') ∧ state_value s' + fee tx = state_value s ∧
  fees_out s' = sat_add 128 (fees_out s) (fee tx) ∧
  verify tx = true ∧ (0 < lock_blue_score tx → lock_blue_score tx <= media) ∧
  (∃ os, Forall2 (input_ok (utxos s) tx media) (inputs tx) os) ∧
  ∀ op, op ∈ previous <$> inputs tx → op ∈ spent (utxos s') ∧ entries (utxos s') !! op = None.
Proof.
  intros Hwf Hfresh. unfold apply_utxo_tx.
  destruct (check_utxo_tx (utxos s) tx media) as [so|] eqn:Hc; [|done].
  apply check_utxo_tx_spec in Hc as (Hv & Hlock & Hlen & Hnd & os & Hos & -> & Hsum).
  destruct (spend_loop_spec s (previous <$> inputs tx) os) as (s1 & -> & Hwf1 & Hv1 & He1 & Hs1 & Ha1 & Hf1).
  { done. } { done. }
  { apply Forall2_fmap_l. eapply Forall2_impl; [exact Hos|]. by intros ?? [? _]. }
  assert (∀ op, op ∈ previous <$> inputs tx → txid op ≠ tx_hash tx) as Hne.
  { intros op Hop Heq. apply list_elem_of_fmap in Hop as (tin & -> & Htin).
    apply list_elem_of_lookup in Htin as [i Hi].
    destruct (Forall2_lookup_l _ _ _ _ _ Hos Hi) as (out & _ & Hout & _).
    specialize (Hfresh (vout (previous tin))). rewrite <- Heq in Hfresh.
    destruct (previous tin); simpl in *; congruence. }
  destruct (run (create_output _ _) s1 _) as [[[]|] s2] eqn:Hrun; [|done].
  intros [= <-]. unfold enumerate in Hrun.
  destruct (create_loop_spec (tx_hash tx) media 0 (outputs tx) s1 s2)
    as (Hwf2 & Hv2 & He2 & Hs2 & Hf2); [lia|unfold len in *; lia|done| |done|].
  { intros i _. rewrite He1. case_bool_decide; [done|]. apply Hfresh. }
  split_and!; [done| | |done|done|by exists os|].
  - unfold state_value in *. simpl. rewrite Ha1 in Hv2. lia.
  - simpl. congruence.
  - intros op Hop. specialize (Hne op Hop). simpl. rewrite He2, He1, bool_decide_eq_true_2 by done.
    split; [|done]. apply Hs2; [done|]. rewrite Hs1. apply elem_of_union_l. by apply elem_of_list_to_set.
Qed.

(** Some input of [tx] spends an outpoint that is not live: refused, state kept. *)
Lemma apply_unknown_input s tx media tin :
  tin ∈ inputs tx → entries (utxos s) !! previous tin = None →
  ∃ e, apply_utxo_tx s tx media = (Err e, s).
Proof.
  intros Hin Hn. unfold apply_utxo_tx.
  destruct (check_utxo_tx (utxos s) tx media) as [so|e] eqn:Hc; [|eauto]. exfalso.
  apply check_utxo_tx_spec in Hc as (_ & _ & _ & _ & os & Hos & _).
  apply list_elem_of_lookup in Hin as [i Hi].
  destruct (Forall2_lookup_l _ _ _ _ _ Hos Hi) as (out & _ & Hout & _). congruence.
Qed.

Lemma create_loop_total id media k outs s :
  Forall (λ o, is_account_credit (predicate o) = false) outs →
  ∃ s', run (create_output id media) s (zip (seqZ k (len outs)) outs) = (Ok (), s').
Proof.
  intros Hf. revert k s. induction Hf as [|o outs Ho _ IH]; intros k s.
  { by eexists. }
  unfold len. simpl length. rewrite seqZ_cons by lia. cbn [zip_with run].
  replace (Z.pred (Z.of_nat (S (length outs)))) with (len outs) by (unfold len; lia).
  unfold create_output at 1. rewrite Ho. apply IH.
Qed.

(** ** Side conditions a ledger needs *)

(** The amounts of a state and of a transaction are unsigned. *)
Definition utxo_amounts_ok (s : UtxoState) : Prop :=
  map_Forall (λ _ o, 0 <= value o) (entries (utxos s)) ∧ map_Forall (λ _ a, 0 <= balance a) (accounts s).
Definition outputs_ok (tx : UtxoTx) : Prop := Forall (λ o, 0 <= value o) (outputs tx).

(** Every output that credits the overlay names the account it credits. *)
Definition credits_named (tx : UtxoTx) : Prop :=
  Forall (λ o, is_account_credit (predicate o) = true → is_Some (locked_address (predicate o))) (outputs tx).

Lemma total_credit_bound (m : gmap string Account) addr :
  map_Forall (λ _ a, 0 <= balance a) m →
  0 <= balance (default Account_default (m !! addr)) <= total balance m.
Proof.
  intros Hnn. pose proof (total_nonneg _ _ Hnn). destruct (m !! addr) as [a|] eqn:Ha; simpl; [|lia].
  pose proof (contrib_le_total _ _ addr Hnn) as Hc. rewrite (contrib_Some _ _ _ _ Ha) in Hc.
  apply Hnn in Ha. lia.
Qed.

Lemma create_output_amounts id media s iout :
  0 <= value iout.2 → utxo_amounts_ok s → utxo_amounts_ok (create_output id media s iout).2.
Proof.
  destruct iout as [i out]. intros Hv [Hu Ha]. simpl in Hv. unfold create_output.
  destruct (is_account_credit (predicate out)); [|split; [by apply map_Forall_insert_2|done]].
  destruct (locked_address (predicate out)) as [addr|]; [|done].
  destruct (total_credit_bound _ addr Ha) as [Hb _].
  destruct (checked_add 128 _ _) as [b|] eqn:Hadd;
    (split; [done|]; apply map_Forall_insert_2; [|done]); simpl.
  - apply checked_add_Some in Hadd as [-> _]. lia.
  - done.
Qed.

Lemma create_loop_succeeds id media k outs s :
  Forall (λ o, is_account_credit (predicate o) = true → is_Some (locked_address (predicate o))) outs →
  Forall (λ o, 0 <= value o) outs → utxo_amounts_ok s →
  total balance (accounts s) + zsum (value <$> outs) <= U128_MAX →
  ∃ s', run (create_output id media) s (zip (seqZ k (len outs)) outs) = (Ok (), s').
Proof.
  intros Hc Hv. revert k s Hc. induction Hv as [|o outs Ho Hv IH]; intros k s Hc Hok Hb.
  { by eexists. }
  apply Forall_cons in Hc as [Hco Hc].
  unfold len. simpl length. rewrite seqZ_cons by lia. cbn [zip_with run].
  replace (Z.pred (Z.of_nat (S (length outs)))) with (len outs) by (unfold len; lia).
  pose proof (create_output_amounts id media s (k, o) Ho Hok) as Hok1.
  rewrite fmap_cons, zsum_cons in Hb.
  assert (0 <= zsum (value <$> outs)) as Hnn by (by apply zsum_nonneg, Forall_fmap).
  destruct Hok as [_ Ha]. unfold create_output in Hok1 |- *.
  destruct (is_account_credit (predicate o)); [|apply IH; [done|done|]; simpl; lia].
  destruct (Hco eq_refl) as [addr Haddr]. rewrite Haddr in Hok1 |- *.
  destruct (total_credit_bound _ addr Ha) as [Hb1 Hb2].
  rewrite (proj2 (checked_add_Some 128 _ _ _)) in Hok1 |- * by (split; [done|lia]).
  apply IH; [done|done|]. cbn [accounts]. rewrite credit_value. lia.
Qed.

(** On a bounded state, a transaction whose credits are named is all or nothing,
    and keeps amounts unsigned. *)
Lemma apply_utxo_tx_outcome s tx media r s' :
  utxo_wf (utxos s) → utxo_amounts_ok s → state_value s <= U128_MAX →
  outputs_ok tx → credits_named tx → apply_utxo_tx s tx media = (r, s') →
  utxo_amounts_ok s' ∧ match r with Ok _ => True | Err _ => s' = s end.
Proof.
  intros Hwf Hok Hb Hv Hc. unfold apply_utxo_tx.
  destruct (check_utxo_tx (utxos s) tx media) as [so|] eqn:Hck; [|by intros [= <- <-]].
  pose proof (check_utxo_tx_spec _ _ _ _ Hck) as (_ & _ & _ & Hnd & os & Hos & -> & Hsum).
  destruct (spend_loop_spec s (previous <$> inputs tx) os) as (s1 & -> & _ & Hv1 & He1 & _ & Ha1 & _).
  { done. } { done. }
  { apply Forall2_fmap_l. eapply Forall2_impl; [exact Hos|]. by intros ?? [? _]. }
  destruct Hok as [Hu Ha].
  assert (utxo_amounts_ok s1) as Hok1.
  { split; [|by rewrite Ha1]. intros op o Ho. rewrite He1 in Ho. case_bool_decide; [done|].
    by apply Hu in Ho. }
  assert (MIN_TX_FEE <= fee tx) as Hfee.
  { unfold check_utxo_tx in Hck. destruct (validate_form tx) as [[]|] eqn:Hf; [|done].
    unfold validate_form in Hf.
    destruct (len (inputs tx) =? 0); [done|]. destruct (len (outputs tx) =? 0); [done|].
    destruct (64 <? len (outputs tx)); [done|]. destruct (64 <? len (inputs tx)); [done|].
    destruct (negb (len (from_pubkey tx) =? _)); [done|].
    destruct (fee tx <? min_fee_required tx) eqn:Hm; [done|]. zbool.
    unfold min_fee_required in Hm. lia. }
  pose proof (total_nonneg value (entries (utxos s1)) (proj1 Hok1)) as Hn1.
  unfold state_value in Hb. unfold utxo_value in Hv1. unfold MIN_TX_FEE in Hfee.
  destruct (create_loop_succeeds (tx_hash tx) media 0 (outputs tx) s1 Hc Hv Hok1) as (s2 & Hrun).
  { rewrite Ha1. unfold utxo_value in *. lia. }
  unfold enumerate. rewrite Hrun. intros [= <- <-]. split; [|done].
  pose proof (run_inv utxo_amounts_ok (create_output (tx_hash tx) media)
    (zip (seqZ 0 (len (outputs tx))) (outputs tx)) s1 Hok1) as Hinv.
  rewrite Hrun in Hinv. apply Hinv. intros s0 [i o] Hin. apply create_output_amounts.
  apply elem_of_zip_r in Hin. exact (proj1 (Forall_forall _ _) Hv _ Hin).
Qed.

(** A transaction only ever adds outputs under its own identifier, at indexes
    below 64. *)
Lemma apply_utxo_tx_entries s tx media op :
  entries (utxos s) !! op = None → txid op ≠ tx_hash tx ∨ 64 <= vout op →
  entries (utxos (apply_utxo_tx s tx media).2) !! op = None.
Proof.
  intros Hn Hop. set (P := λ s : UtxoState, entries (utxos s) !! op = None). change (P s) in Hn.
  change (P (apply_utxo_tx s tx media).2). unfold apply_utxo_tx.
  destruct (check_utxo_tx (utxos s) tx media) as [so|] eqn:Hck; [|done].
  apply check_utxo_tx_spec in Hck as (_ & _ & Hlen & _).
  assert (P (run spend_one s so).2) as Hn1.
  { apply run_inv; [done|]. intros s0 [op' o'] _ Hs0. unfold spend_one. simpl.
    destruct (spend (utxos s0) op') as [r u] eqn:Hsp. apply spend_inv in Hsp.
    unfold P in *. destruct r; simpl; [|by destruct Hsp as [-> _]].
    destruct Hsp as (_ & _ & -> & _). by apply lookup_delete_None; right. }
  destruct (run spend_one s so) as [[[]|e] s1]; [|done]. simpl in Hn1.
  assert (P (run (create_output (tx_hash tx) media) s1 (enumerate (outputs tx))).2) as Hn2.
  { apply run_inv; [done|]. intros s0 [i o] Hin Hs0. unfold create_output.
    destruct (is_account_credit _).
    { destruct (locked_address _); [|done]. by destruct (checked_add 128 _ _). }
    unfold P in *. simpl. rewrite lookup_insert_ne; [done|]. intros <-. simpl in Hop.
    unfold enumerate in Hin. apply elem_of_zip_l, elem_of_seqZ in Hin.
    destruct Hop as [Hop|Hop]; [done|]. rewrite wrap_small in Hop by (unfold in_width, umax; lia). lia. }
  destruct (run _ s1 _) as [[[]|e] s2]; exact Hn2.
Qed.

(** ** Properties *)

(** C5. Value conservation: an accepted UTXO transaction moves value between the
    UTXO set and the account overlay and pays its fee, and creates or destroys
    nothing; the collected fees grow by exactly the fee (saturating) and the
    set invariant is kept.  The identifier it gives its outputs must not already
    name a live output. *)
Theorem apply_utxo_tx_conserves s tx media s' :
  utxo_wf (utxos s) → fresh_txid (utxos s) (tx_hash tx) →
  apply_utxo_tx s tx media = (Ok (), s') →
  utxo_value (utxos s') + total balance (accounts s') + fee tx =
    utxo_value (utxos s) + total balance (accounts s) ∧
  fees_out s' = sat_add 128 (fees_out s) (fee tx) ∧ utxo_wf (utxos s').
Proof.
  intros Hwf Hfr Ha. destruct (apply_utxo_tx_ok _ _ _ _ Hwf Hfr Ha) as (? & Hv & ? & _).
  unfold state_value in Hv. split_and!; [lia|done|done].
Qed.

(** C6. Authorisation, in any state: every output an accepted transaction spends was live,
    mature, past its relative lock, satisfied its exact-value covenants, and its
    predicate's meaning held for the transaction's signer, whose signature over
    the sighash verified; the transaction's own lock was reached. *)
Theorem apply_utxo_tx_authorised s tx media s' tin :
  apply_utxo_tx s tx media = (Ok (), s') → tin ∈ inputs tx →
  verify tx = true ∧ (0 < lock_blue_score tx → lock_blue_score tx <= media) ∧
  ∃ out, entries (utxos s) !! previous tin = Some out ∧
    (is_coinbase (previous tin) = true → sat_add 64 (created_blue out) COINBASE_MATURITY_BLUES <= media) ∧
    (0 < relative_lock_blues tin → sat_add 64 (created_blue out) (relative_lock_blues tin) <= media) ∧
    auth (predicate out) (from_address tx) media (created_blue out) (Some (signing_bytes tx)) ∧
    exact_value_ok (predicate out) (value out).
Proof.
  intros Ha Hin. destruct (accepted_checks _ _ _ _ Ha) as (Hv & Hl & os & Hos).
  split; [done|]. split; [done|]. apply list_elem_of_lookup in Hin as [i Hi].
  destruct (Forall2_lookup_l _ _ _ _ _ Hos Hi) as (out & _ & Hok). by exists out.
Qed.

(** C7. No double spend: once a transaction is accepted by a UTXO set in which no
    live output is recorded as spent and none carries the transaction's own id, the outpoint of every input of it is recorded in the nullifier set
    and is gone from the live outputs, and any transaction spending one of them (itself
    included, at any later media score) is refused without touching the state. *)
Theorem no_double_spend s tx media s' tx2 media2 tin tin2 :
  utxo_wf (utxos s) → fresh_txid (utxos s) (tx_hash tx) →
  apply_utxo_tx s tx media = (Ok (), s') →
  tin ∈ inputs tx → tin2 ∈ inputs tx2 → previous tin2 = previous tin →
  previous tin ∈ spent (utxos s') ∧ entries (utxos s') !! previous tin = None ∧
  ∃ e, apply_utxo_tx s' tx2 media2 = (Err e, s').
Proof.
  intros Hwf Hfr Ha Hin Hin2 Heq.
  destruct (apply_utxo_tx_ok _ _ _ _ Hwf Hfr Ha) as (_ & _ & _ & _ & _ & _ & Hdead).
  destruct (Hdead (previous tin)) as [Hs Hn]; [by apply list_elem_of_fmap_2|]. split_and!; [done..|].
  apply (apply_unknown_input _ _ _ tin2); [done|congruence].
Qed.

(** Failures are atomic for transactions without account-credit outputs: a
    refused transaction leaves the UTXO set, the accounts and the fees as they were. *)
Theorem apply_utxo_tx_atomic s tx media e s' :
  utxo_wf (utxos s) →
  Forall (λ o, is_account_credit (predicate o) = false) (outputs tx) →
  apply_utxo_tx s tx media = (Err e, s') → s' = s.
Proof.
  intros Hwf Hnc. unfold apply_utxo_tx.
  destruct (check_utxo_tx (utxos s) tx media) as [so|] eqn:Hc; [|by intros [= _ <-]].
  apply check_utxo_tx_spec in Hc as (_ & _ & _ & Hnd & os & Hos & -> & _).
  destruct (spend_loop_spec s (previous <$> inputs tx) os) as (s1 & -> & _).
  { done. } { done. }
  { apply Forall2_fmap_l. eapply Forall2_impl; [exact Hos|]. by intros ?? [? _]. }
  destruct (create_loop_total (tx_hash tx) media 0 (outputs tx) s1 Hnc) as (s2 & Hrun).
  unfold enumerate. by rewrite Hrun.
Qed.

Lemma mint_coinbase_value u h miner subsidy media :
  entries u !! OutPoint_coinbase h = None → 
  utxo_value (mint_coinbase u h miner subsidy media) = utxo_value u + subsidy ∧
  (utxo_wf u → utxo_wf (mint_coinbase u h miner subsidy media)).
Proof.
  intros Hn. unfold mint_coinbase. destruct (Z.eqb_spec subsidy 0) as [->|]; [split; [lia|done]|].
  rewrite utxo_value_insert by done. split; [done|]. apply utxo_wf_insert.
Qed.
End utxo_tx.

(** ** The payment builder *)

(** [bincode]'s default configuration writes integers at fixed width: the encoded
    length does not depend on the amounts, and is a [usize]. *)
Definition tx_shape (tx : UtxoTx) : UtxoTx :=
  with_fee_outputs tx 0
    ((λ o, {| value := 0; predicate := predicate o; created_blue := created_blue o |}) <$> outputs tx).

Class UtxoCodecLaws `{!UtxoCodec} : Prop := {
  ser_utxo_tx_len_shape tx tx' :
    tx_shape tx = tx_shape tx' → ser_utxo_tx_len tx = ser_utxo_tx_len tx';
  ser_utxo_tx_len_usize tx n : ser_utxo_tx_len tx = Some n → is_u64 n;
}.

Section payment.
Context `{!Crypto, !UtxoCodec, !UtxoCodecLaws}.

Lemma min_fee_required_shape tx tx' :
  tx_shape tx = tx_shape tx' → min_fee_required tx = min_fee_required tx'.
Proof.
  intros Hs. unfold min_fee_required, relay_bytes.
  assert (signature tx = signature tx') as -> by (by injection Hs).
  erewrite ser_utxo_tx_len_shape; [reflexivity|].
  destruct (negb _); [|done]. unfold tx_shape, with_fee_outputs, with_signature in *. simpl in *.
  by injection Hs as -> -> -> -> -> _.
Qed.

Lemma min_fee_required_bound tx : MIN_TX_FEE <= min_fee_required tx <= 2 ^ 64 + MIN_TX_FEE.
Proof.
  unfold min_fee_required, MIN_FEE_PER_BYTE. assert (relay_bytes tx <= 2 ^ 64) as Hr.
  { unfold relay_bytes. destruct (ser_utxo_tx_len _) as [n|] eqn:Hn; simpl.
    - apply ser_utxo_tx_len_usize in Hn. unfold in_width, umax in Hn. lia.
    - unfold sat_add, umax. lia. }
  unfold sat_mul, MIN_TX_FEE. lia.
Qed.

(** Re-pricing a payment with a change output takes the difference from the change. *)
Lemma payment_rebump_two pk funding cid lock rel f o chg_addr chg tx :
  let body := payment_body pk funding cid lock rel in
  0 <= f → UTXO_DUST <= chg →
  payment_rebump (body f [o; pay_out chg_addr chg]) = Ok tx →
  ∃ chg' f', tx = body f' [o; pay_out chg_addr chg'] ∧
    chg' + f' = chg + f ∧ f <= f' ∧ min_fee_required tx <= f' ∧ UTXO_DUST <= chg'.
Proof.
  intros body Hf Hdust. unfold payment_rebump. set (tx1 := body f _).
  pose proof (min_fee_required_bound tx1) as Hb. change (fee tx1) with f.
  destruct (f <? min_fee_required tx1) eqn:Hfee; zbool; intros Hp.
  2: { injection Hp as <-. exists chg, f. split_and!; [done|lia|lia|done|done]. }
  change (last (outputs tx1)) with (Some (pay_out chg_addr chg)) in Hp. cbn [value pay_out] in Hp.
  rewrite wrap_small in Hp by (unfold in_width, umax, UTXO_DUST, MIN_TX_FEE in *; lia).
  destruct (_ <? chg) eqn:Hlt; [|done]. zbool. injection Hp as <-.
  exists (chg - (min_fee_required tx1 - f)), (min_fee_required tx1).
  split_and!; [done|lia|lia| |lia].
  rewrite (min_fee_required_shape _ tx1); [lia|done].
Qed.

(** A built payment balances: its outputs and fee are exactly the funding
    value, the recipient gets exactly [amount], any change returns to the sender
    above the dust limit, the caller's fee is honoured as a minimum and the
    result clears the relay floor for its own size. *)
Theorem payment_spec pk funding funding_value to amount fee0 cid lock rel tx :
  payment pk funding funding_value to amount fee0 cid lock rel = Ok tx →
  zsum (value <$> outputs tx) + fee tx = funding_value ∧
  fee0 <= fee tx ∧ min_fee_required tx <= fee tx ∧
  ∃ change, outputs tx = pay_out to amount :: change ∧
    Forall (λ o, predicate o = PayToAddress (hash_to_address pk) ∧ UTXO_DUST <= value o) change.
Proof.
  unfold payment. intros Hp. set (body := payment_body pk funding cid lock rel) in Hp.
  set (probe := body (Z.max fee0 MIN_TX_FEE) [pay_out to amount]) in Hp.
  set (fee1 := Z.max fee0 (min_fee_required probe)) in Hp.
  destruct (checked_add 128 amount fee1) as [need|] eqn:Hadd; [|done].
  apply checked_add_Some in Hadd as [-> _]. cbn [ok_or mbind result_bind] in Hp.
  destruct (funding_value <? amount + fee1) eqn:Hfund; [done|].
  set (chg := funding_value - (amount + fee1)) in *.
  destruct (0 <? chg) eqn:Hchg.
  - destruct (chg <? UTXO_DUST) eqn:Hdust; [done|]. cbn [mbind result_bind] in Hp. zbool.
    pose proof (min_fee_required_bound probe) as Hb. unfold MIN_TX_FEE in Hb.
    apply payment_rebump_two in Hp as (chg' & fee' & -> & Hsum & Hge & Hmin & Hd); [|lia|done].
    simpl. split_and!; [lia|lia|done|]. eexists. split; [reflexivity|].
    constructor; [split; [done|simpl; lia]|constructor].
  - zbool. cbn [mbind result_bind] in Hp. unfold payment_rebump in Hp.
    assert (min_fee_required (body fee1 [pay_out to amount]) = min_fee_required probe) as Hmin
      by (by apply min_fee_required_shape).
    change (fee (body fee1 _)) with fee1 in Hp. rewrite Hmin in Hp.
    destruct (fee1 <? _) eqn:Hfee; zbool; [lia|]. injection Hp as <-. simpl.
    split_and!; [lia|lia|rewrite Hmin; lia|]. exists []. split; [done|constructor].
Qed.
End payment.

(** ** Concrete runs *)
Module UtxoExample.
Import Toy.

#[export] Instance toy_codec : UtxoCodec := {|
  utxo_predicate_codec := {| ser_predicate _ := Some [] |};
  ser_witness _ := Some [];
  ser_utxo_tx_len _ := Some 900;
|}.

#[export] Instance toy_codec_laws : UtxoCodecLaws.
Proof. split; [done|]. intros tx n [= <-]. done. Qed.

Definition alice : bytes := [1; 2].
Definition alice_addr : string := hash_to_address alice.
Definition bob_addr : string := hash_to_address [3; 4].
Definition fund : OutPoint := {| txid := 9; vout := 0 |}.
Definition funded : UtxoState := {|
  utxos := {| entries := {[ fund := {| value := 50000; predicate := PayToAddress alice_addr;
                                      created_blue := 1 |} ]}; spent := ∅ |};
  accounts := ∅;
  fees_out := 0;
|}.

(** Signing with the small scheme, whose secret key is the public key. *)
Definition signed (tx : UtxoTx) : UtxoTx :=
  match sign tx (from_pubkey tx) [] with Ok tx => tx | Err _ => tx end.

Definition payment_tx : UtxoTx :=
  match payment alice fund 50000 bob_addr 20000 0 CHAIN_ID 0 0 with
  | Ok tx => signed tx
  | Err _ => signed (payment_body alice fund 0 0 0 0 [])
  end.

(** A credit hidden under a hash lock: no address, so no form rule refuses it. *)
Definition credit_tx : UtxoTx :=
  signed (payment_body alice fund CHAIN_ID 0 0 1000
    [{| value := 49000; predicate := And (HashLock 7) (CreditAccount bob_addr); created_blue := 0 |}]).

Definition after_payment : UtxoState := (apply_utxo_tx funded payment_tx 5).2.

Lemma funded_wf : utxo_wf (utxos funded).
Proof. intros op Hop. by apply elem_of_empty in Hop. Qed.

Lemma payment_applies : apply_utxo_tx funded payment_tx 5 = (Ok (), after_payment).
Proof.
  assert ((apply_utxo_tx funded payment_tx 5).1 = Ok ()) as Hok by (vm_compute; reflexivity).
  unfold after_payment. exact (outcome _ _ Hok).
Qed.

Lemma fresh_singleton op o sp id :
  (txid op =? id) = false → fresh_txid {| entries := {[ op := o ]}; spent := sp |} id.
Proof.
  intros Hne i. apply lookup_singleton_ne. intros ->. simpl in Hne. by rewrite Z.eqb_refl in Hne.
Qed.

Lemma payment_fresh : fresh_txid (utxos funded) (tx_hash payment_tx).
Proof. apply fresh_singleton. vm_compute. reflexivity. Qed.
End UtxoExample.

Lemma apply_utxo_tx_conserves_witness :
  utxo_value (utxos UtxoExample.after_payment) = 49000 ∧
  utxo_value (utxos UtxoExample.after_payment) + total balance (accounts UtxoExample.after_payment)
    + fee UtxoExample.payment_tx = 50000.
Proof.
  destruct (@apply_utxo_tx_conserves Toy.toy_crypto UtxoExample.toy_codec UtxoExample.funded
    UtxoExample.payment_tx 5 UtxoExample.after_payment UtxoExample.funded_wf
    UtxoExample.payment_fresh UtxoExample.payment_applies) as (Hv & _).
  split; [vm_compute; reflexivity|]. rewrite Hv. vm_compute. reflexivity.
Defined.

Lemma apply_utxo_tx_authorised_witness :
  @verify Toy.toy_crypto UtxoExample.toy_codec UtxoExample.payment_tx = true.
Proof.
  refine (proj1 (@apply_utxo_tx_authorised Toy.toy_crypto UtxoExample.toy_codec UtxoExample.funded
    UtxoExample.payment_tx 5 UtxoExample.after_payment
    {| previous := UtxoExample.fund; relative_lock_blues := 0; witness := Signature |}
    UtxoExample.payment_applies _)).
  apply list_elem_of_In. vm_compute. left. reflexivity.
Defined.

Lemma no_double_spend_witness :
  UtxoExample.fund ∈ spent (utxos UtxoExample.after_payment) ∧ entries (utxos UtxoExample.after_payment) !! UtxoExample.fund = None ∧
  ∃ e, @apply_utxo_tx Toy.toy_crypto UtxoExample.toy_codec UtxoExample.after_payment
         UtxoExample.payment_tx 6 = (Err e, UtxoExample.after_payment).
Proof.
  set (tin := {| previous := UtxoExample.fund; relative_lock_blues := 0; witness := Signature |}).
  assert (tin ∈ inputs UtxoExample.payment_tx) as Hin
    by (apply list_elem_of_In; vm_compute; left; reflexivity).
  exact (@no_double_spend Toy.toy_crypto UtxoExample.toy_codec UtxoExample.funded
    UtxoExample.payment_tx 5 UtxoExample.after_payment UtxoExample.payment_tx 6 tin tin
    UtxoExample.funded_wf UtxoExample.payment_fresh UtxoExample.payment_applies Hin Hin eq_refl).
Defined.

Lemma apply_utxo_tx_atomic_witness :
  ∃ s', @apply_utxo_tx Toy.toy_crypto UtxoExample.toy_codec UtxoExample.funded
          (with_signature UtxoExample.payment_tx []) 6 = (Err "Invalid UTXO signature", s') ∧
        s' = UtxoExample.funded.
Proof.
  eexists. split; [vm_compute; reflexivity|].
  eapply (@apply_utxo_tx_atomic Toy.toy_crypto UtxoExample.toy_codec UtxoExample.funded
    (with_signature UtxoExample.payment_tx []) 6 "Invalid UTXO signature").
  - exact UtxoExample.funded_wf.
  - vm_compute. repeat constructor.
  - vm_compute. reflexivity.
Defined.

Lemma payment_spec_witness :
  ∃ tx, @payment Toy.toy_crypto UtxoExample.toy_codec UtxoExample.alice UtxoExample.fund 50000
          UtxoExample.bob_addr 20000 0 CHAIN_ID 0 0 = Ok tx ∧
        zsum (value <$> outputs tx) + fee tx = 50000.
Proof.
  eexists. split; [vm_compute; reflexivity|].
  eapply (proj1 (@payment_spec Toy.toy_crypto UtxoExample.toy_codec UtxoExample.toy_codec_laws
    UtxoExample.alice UtxoExample.fund 50000 UtxoExample.bob_addr 20000 0 CHAIN_ID 0 0 _ _)).
  Unshelve. vm_compute. reflexivity.
Defined.

(** With an account-credit output that names no address (a credit under a
    hash lock) the source is not atomic: the transaction passes every check, its
    input is spent, and only then does it fail: the value of the input is gone. *)
Theorem apply_utxo_tx_not_atomic :
  ∃ s', @apply_utxo_tx Toy.toy_crypto UtxoExample.toy_codec UtxoExample.funded UtxoExample.credit_tx 5
          = (Err "CreditAccount missing address", s') ∧
        state_value UtxoExample.funded = 50000 ∧ state_value s' = 0.
Proof. eexists. split; [vm_compute; reflexivity|]. split; vm_compute; reflexivity. Qed.
