(* ===== verification/Escrow.v ===== *)
(** * The escrow law

    [src/tuep-escrow/src/lib.rs]: phases, clocks, payout vectors, typed events,
    the transition table, and the event-sourced record.

    The record's life is a step relation ([reachable]); the invariant, the
    replay theorem and the exit theorem below are about every record the public
    operations can produce. *)

From S2P Require Import Prelude Crypto.

Module Law.

(** ** Data *)
Inductive EscrowPhase := Offered | Funded | Settled | Refunded | TimedOut | Disputed.
Inductive Party := Buyer | Seller | Arbiter.
Inductive Clock := AbsoluteBlue (unlock_blue : Z).
Inductive PayoutVector := ToSeller | ToBuyer.

Inductive EscrowEvent :=
| EvOpened (escrow_id buyer seller : string) (amount timeout_blue : Z) (memo : string)
| EvFunded (escrow_id outpoint_txid : string) (outpoint_vout amount media_blue : Z)
| EvCoopSettled (escrow_id : string) (payout : PayoutVector) (to : string) (amount : Z)
    (spend_txid : string)
| EvCoopRefunded (escrow_id : string) (payout : PayoutVector) (to : string) (amount : Z)
    (spend_txid : string)
| EvTimeoutClaimed (escrow_id : string) (payout : PayoutVector) (to : string) (amount : Z)
    (spend_txid : string) (media_blue : Z)
| EvDisputeOpened (escrow_id : string) (by_ : Party).

#[global] Instance phase_eq_dec : EqDecision EscrowPhase.
Proof. solve_decision. Defined.
#[global] Instance payout_eq_dec : EqDecision PayoutVector.
Proof. solve_decision. Defined.

Record EscrowTerms := {
  buyer : string;
  seller : string;
  amount : Z;
  clock : Clock;
  memo : string;
  seed_hex : string;
}.

Record VaultOutpoint := { txid_hex : string; vault_vout : Z }.

Record EscrowRecord := {
  escrow_id : string;
  opener : string;
  terms : EscrowTerms;
  phase : EscrowPhase;
  vault : option VaultOutpoint;
  history : list EscrowEvent;
}.

Inductive SpendPath := Coop2of2 (payout : PayoutVector) | TimeoutBuyer.

(** ** Queries *)
Definition phase_str (p : EscrowPhase) : string :=
  match p with
  | Offered => "offered" | Funded => "funded" | Settled => "settled"
  | Refunded => "refunded" | TimedOut => "timed_out" | Disputed => "disputed"
  end.

Definition is_terminal (p : EscrowPhase) : bool :=
  match p with Settled | Refunded | TimedOut => true | _ => false end.

Definition is_locked (p : EscrowPhase) : bool := bool_decide (p = Funded).

Definition unlock_blue (c : Clock) : Z := match c with AbsoluteBlue u => u end.
Definition reached (c : Clock) (media_blue : Z) : bool := unlock_blue c <=? media_blue.
Definition timeout_blue (t : EscrowTerms) : Z := unlock_blue (clock t).

Definition phase1_allowed (p : PayoutVector) : bool :=
  match p with ToSeller | ToBuyer => true end.

Definition event_id (e : EscrowEvent) : string :=
  match e with
  | EvOpened i _ _ _ _ _ | EvFunded i _ _ _ _ | EvCoopSettled i _ _ _ _
  | EvCoopRefunded i _ _ _ _ | EvTimeoutClaimed i _ _ _ _ _ | EvDisputeOpened i _ => i
  end.

(** [std::mem::discriminant], as its [Debug] shows it. *)
Definition discriminant (e : EscrowEvent) : string :=
  "Discriminant(" +:+
  match e with
  | EvOpened _ _ _ _ _ _ => "0" | EvFunded _ _ _ _ _ => "1" | EvCoopSettled _ _ _ _ _ => "2"
  | EvCoopRefunded _ _ _ _ _ => "3" | EvTimeoutClaimed _ _ _ _ _ _ => "4"
  | EvDisputeOpened _ _ => "5"
  end +:+ ")".

(** ** Operations *)
Definition validate (t : EscrowTerms) : result unit :=
  fail_if bool_decide (buyer t = "") || bool_decide (seller t = "") as "buyer and seller required";
  fail_if bool_decide (buyer t = seller t) as "buyer and seller must differ";
  fail_if amount t =? 0 as "amount must be positive";
  fail_if bool_decide (seed_hex t = "") as "seed required";
  Ok ().

(** [EscrowTerms::derive_id]. *)
Definition derive_id `{!Crypto} (t : EscrowTerms) (opener : string) : string :=
  hex_encode (blake3_xof (str_bytes "tuep-bdpe-v1" ++ str_bytes opener ++ str_bytes (buyer t) ++
    str_bytes (seller t) ++ le_bytes 16 (amount t) ++ le_bytes 8 (timeout_blue t) ++
    str_bytes (memo t) ++ str_bytes (seed_hex t)) 64).

(** [EscrowRecord::open]. *)
Definition open `{!Crypto} (opener : string) (t : EscrowTerms) : result EscrowRecord :=
  _ ← validate t;
  let id := derive_id t opener in
  Ok {| escrow_id := id; opener := opener; terms := t; phase := Offered; vault := None;
        history := [EvOpened id (buyer t) (seller t) (amount t) (timeout_blue t) (memo t)] |}.

Definition assert_payout (payout : PayoutVector) (to : string) (t : EscrowTerms) : result unit :=
  fail_if negb (phase1_allowed payout) as "payout vector not allowed in Phase 1";
  match payout with
  | ToSeller =>
      fail_if negb (bool_decide (to = seller t)) as "ToSeller payout must target seller address"; Ok ()
  | ToBuyer =>
      fail_if negb (bool_decide (to = buyer t)) as "ToBuyer payout must target buyer address"; Ok ()
  end.

(** [transition]: the pure transition table. *)
Definition transition (p : EscrowPhase) (e : EscrowEvent) (t : EscrowTerms) : result EscrowPhase :=
  match e with
  | EvDisputeOpened _ _ => Err "Phase 1: dispute not enabled"
  | _ =>
      fail_if is_terminal p as ("escrow already closed (" +:+ phase_str p +:+ ")");
      match p, e with
      | Offered, EvFunded _ _ _ amt _ =>
          fail_if negb (amt =? amount t) as "fund amount mismatch"; Ok Funded
      | Funded, EvCoopSettled _ payout to _ _ =>
          fail_if negb (bool_decide (payout = ToSeller)) as "coop settle requires ToSeller vector";
          fail_if negb (bool_decide (to = seller t)) as "settle must pay seller";
          Ok Settled
      | Funded, EvCoopRefunded _ payout to _ _ =>
          fail_if negb (bool_decide (payout = ToBuyer)) as "coop refund requires ToBuyer vector";
          fail_if negb (bool_decide (to = buyer t)) as "refund must pay buyer";
          Ok Refunded
      | Funded, EvTimeoutClaimed _ payout to _ _ media_blue =>
          fail_if negb (bool_decide (payout = ToBuyer)) as "timeout claim requires ToBuyer vector";
          fail_if negb (bool_decide (to = buyer t)) as "timeout claim must pay buyer";
          fail_if negb (reached (clock t) media_blue) as "timeout clock not reached";
          Ok TimedOut
      | p, e => Err ("illegal transition from " +:+ phase_str p +:+ " via " +:+ discriminant e)
      end
  end.

(** [EscrowRecord::apply]; [set_vault] is its one early mutation. *)
Definition set_vault (r : EscrowRecord) (v : VaultOutpoint) : EscrowRecord :=
  {| escrow_id := escrow_id r; opener := opener r; terms := terms r; phase := phase r;
     vault := Some v; history := history r |}.

Definition commit (r : EscrowRecord) (next : EscrowPhase) (e : EscrowEvent) : EscrowRecord :=
  {| escrow_id := escrow_id r; opener := opener r; terms := terms r; phase := next;
     vault := vault r; history := history r ++ [e] |}.

Definition apply (r : EscrowRecord) (e : EscrowEvent) : result unit * EscrowRecord :=
  if negb (bool_decide (event_id e = escrow_id r)) then (Err "event escrow_id mismatch", r) else
  match transition (phase r) e (terms r) with
  | Err msg => (Err msg, r)
  | Ok next =>
      match e with
      | EvFunded _ outpoint_txid outpoint_vout amt _ =>
          if negb (amt =? amount (terms r)) then (Err "fund amount must equal terms.amount", r) else
          let r := set_vault r {| txid_hex := outpoint_txid; vault_vout := outpoint_vout |} in
          (Ok (), commit r next e)
      | EvCoopSettled _ payout to _ _ | EvCoopRefunded _ payout to _ _
      | EvTimeoutClaimed _ payout to _ _ _ =>
          match assert_payout payout to (terms r) with
          | Err msg => (Err msg, r)
          | Ok _ => (Ok (), commit r next e)
          end
      | EvDisputeOpened _ _ => (Err "Phase 1: dispute not enabled", r)
      | EvOpened _ _ _ _ _ _ => (Err "already opened", r)
      end
  end.

(** [SpendPath::validate], [reject_unilateral_seller_settle]. *)
Definition spend_path_validate (path : SpendPath) (t : EscrowTerms) (media_blue : Z) : result unit :=
  match path with
  | Coop2of2 payout => fail_if negb (phase1_allowed payout) as "payout not allowed"; Ok ()
  | TimeoutBuyer => fail_if negb (reached (clock t) media_blue) as "timeout not reached"; Ok ()
  end.

Definition reject_unilateral_seller_settle : result unit :=
  Err "unilateral seller settle forbidden — need Coop2of2 or timeout buyer reclaim".

(** ** Reachable records *)

Inductive reachable `{!Crypto} : EscrowRecord → Prop :=
| reach_open op t r : open op t = Ok r → reachable r
| reach_apply r e r' : reachable r → apply r e = (Ok (), r') → reachable r'.

(** An accepted event is one of the four legal moves. *)
Inductive legal_move (r : EscrowRecord) : EscrowEvent → EscrowRecord → Prop :=
| move_fund tx vo media :
    phase r = Offered →
    let e := EvFunded (escrow_id r) tx vo (amount (terms r)) media in
    legal_move r e (commit (set_vault r {| txid_hex := tx; vault_vout := vo |}) Funded e)
| move_settle amt tx :
    phase r = Funded →
    let e := EvCoopSettled (escrow_id r) ToSeller (seller (terms r)) amt tx in
    legal_move r e (commit r Settled e)
| move_refund amt tx :
    phase r = Funded →
    let e := EvCoopRefunded (escrow_id r) ToBuyer (buyer (terms r)) amt tx in
    legal_move r e (commit r Refunded e)
| move_timeout amt tx media :
    phase r = Funded → timeout_blue (terms r) <= media →
    let e := EvTimeoutClaimed (escrow_id r) ToBuyer (buyer (terms r)) amt tx media in
    legal_move r e (commit r TimedOut e).

(** Decide every equality test of the table. *)
Ltac table :=
  repeat match goal with
  | H : context [bool_decide ?P] |- _ => destruct (bool_decide_reflect P); subst; simpl in H
  | H : context [?a =? ?b] |- _ => destruct (Z.eqb_spec a b); subst; simpl in H
  | H : context [?a <=? ?b] |- _ => destruct (Z.leb_spec a b); simpl in H
  end; try done.

Lemma apply_ok_iff r e r' : apply r e = (Ok (), r') ↔ legal_move r e r'.
Proof.
  split.
  - unfold apply. destruct (bool_decide_reflect (event_id e = escrow_id r)) as [Hid|]; [|done].
    simpl. intros Ha.
    destruct e as [i b s a tb m|i tx vo a med|i po to a tx|i po to a tx|i po to a tx med|i p];
      simpl in Hid; subst i; unfold transition, assert_payout, reached in Ha; try done;
      destruct (phase r) eqn:Hph; simpl in Ha; try done; table.
    + injection Ha as <-. by apply move_fund.
    + injection Ha as <-. by apply move_settle.
    + injection Ha as <-. by apply move_refund.
    + injection Ha as <-. by apply move_timeout.
  - unfold apply, assert_payout. destruct 1 as [tx vo media Hph e|amt tx Hph e|amt tx Hph e|amt tx media Hph Ht e];
      subst e; simpl; rewrite bool_decide_eq_true_2, Hph by done; simpl.
    + by rewrite Z.eqb_refl.
    + repeat (rewrite bool_decide_eq_true_2 by done; simpl). done.
    + repeat (rewrite bool_decide_eq_true_2 by done; simpl). done.
    + unfold reached. unfold timeout_blue in Ht.
      repeat (rewrite bool_decide_eq_true_2 by done; simpl).
      rewrite (proj2 (Z.leb_le _ _) Ht). simpl.
      repeat (rewrite bool_decide_eq_true_2 by done; simpl). done.
Qed.

Lemma apply_err r e msg r' : apply r e = (Err msg, r') → r' = r.
Proof.
  unfold apply. destruct (negb _); [by intros [= _ <-]|].
  destruct (transition _ _ _); [|by intros [= _ <-]].
  destruct e; try (by intros [= _ <-]); [destruct (negb _); by intros [= _ <-]|..];
    destruct (assert_payout _ _ _); by intros [= _ <-].
Qed.

(** What the record of each phase looks like. *)
Definition record_ok (r : EscrowRecord) : Prop :=
  let t := terms r in
  let opened := EvOpened (escrow_id r) (buyer t) (seller t) (amount t) (timeout_blue t) (memo t) in
  validate t = Ok () ∧
  match phase r with
  | Offered => vault r = None ∧ history r = [opened]
  | Disputed => False
  | p =>
      ∃ v media, vault r = Some v ∧
      let funded := EvFunded (escrow_id r) (txid_hex v) (vault_vout v) (amount t) media in
      match p with
      | Funded => history r = [opened; funded]
      | Settled => ∃ amt tx,
          history r = [opened; funded; EvCoopSettled (escrow_id r) ToSeller (seller t) amt tx]
      | Refunded => ∃ amt tx,
          history r = [opened; funded; EvCoopRefunded (escrow_id r) ToBuyer (buyer t) amt tx]
      | TimedOut => ∃ amt tx m, timeout_blue t <= m ∧
          history r = [opened; funded; EvTimeoutClaimed (escrow_id r) ToBuyer (buyer t) amt tx m]
      | _ => False
      end
  end.

Section properties.
Context `{!Crypto}.

Lemma open_inv op t r :
  open op t = Ok r →
  validate t = Ok () ∧ r = {| escrow_id := derive_id t op; opener := op; terms := t; phase := Offered;
    vault := None; history := [EvOpened (derive_id t op) (buyer t) (seller t) (amount t)
                                 (timeout_blue t) (memo t)] |}.
Proof.
  unfold open. destruct (validate t) as [[]|] eqn:Hv; [|done]. simpl. by intros [= <-].
Qed.

(** The escrow invariant, by rule induction over every record that [open]
    and [apply] can produce: the dispute phase is unreachable; a vault exists
    exactly from funding on, with the agreed amount; and the history is exactly
    the one its phase allows, with the settlement paid to the seller, refunds and
    timeouts to the buyer, and a timeout only at or after the agreed clock. *)
Theorem escrow_reachable_invariant r : reachable r → record_ok r.
Proof.
  induction 1 as [op t r Ho|r e r' _ IH Ha].
  - apply open_inv in Ho as [Hv ->]. by split.
  - apply apply_ok_iff in Ha. destruct IH as [Hv IH]. unfold record_ok.
    destruct Ha as [tx vo media Hph ev|amt tx Hph ev|amt tx Hph ev|amt tx media Hph Ht ev];
      rewrite Hph in IH; simpl; (split; [done|]).
    + destruct IH as [_ Hh]. exists {| txid_hex := tx; vault_vout := vo |}, media.
      split; [done|]. by rewrite Hh.
    + destruct IH as (v & media & Hva & Hh). exists v, media. split; [done|]. exists amt, tx. by rewrite Hh.
    + destruct IH as (v & media & Hva & Hh). exists v, media. split; [done|]. exists amt, tx. by rewrite Hh.
    + destruct IH as (v & m & Hva & Hh). exists v, m. split; [done|]. exists amt, tx, media. by rewrite Hh.
Qed.

(** Applying a list of events to a record, keeping only success. *)
Definition replay (r : EscrowRecord) (es : list EscrowEvent) : option EscrowRecord :=
  foldl (λ o e, r ← o; match apply r e with (Ok _, r') => Some r' | _ => None end) (Some r) es.

Lemma replay_snoc r es e :
  replay r (es ++ [e]) = (r' ← replay r es; match apply r' e with (Ok _, r'') => Some r'' | _ => None end).
Proof. unfold replay. by rewrite foldl_app. Qed.

Lemma history_length r : reachable r → (1 <= length (history r))%nat.
Proof.
  induction 1 as [op t r Ho|r e r' _ IH Ha].
  - apply open_inv in Ho as [_ ->]. done.
  - apply apply_ok_iff in Ha. destruct Ha; simpl; rewrite length_app; simpl; lia.
Qed.

(** C30. Event sourcing: re-applying the recorded events, after the opening one,
    to a freshly opened escrow of the same opener and terms rebuilds exactly the
    record; the history is a complete account of the state. *)
Theorem escrow_history_replays r :
  reachable r →
  ∃ r0, open (opener r) (terms r) = Ok r0 ∧ replay r0 (drop 1 (history r)) = Some r.
Proof.
  induction 1 as [op t r Ho|r e r' Hr IH Ha].
  - exists r. pose proof (open_inv _ _ _ Ho) as [_ ->]. by split.
  - destruct IH as (r0 & Ho & Hre). exists r0.
    assert (opener r' = opener r ∧ terms r' = terms r ∧ history r' = history r ++ [e]) as (-> & -> & ->).
    { apply apply_ok_iff in Ha. by destruct Ha. }
    split; [done|]. rewrite drop_app_le by (pose proof (history_length r Hr); lia).
    rewrite replay_snoc, Hre. simpl. by rewrite Ha.
Qed.

(** Closed escrows stay closed, refused events change nothing, and funds are
    never stuck: every event on a terminal record is refused and any refused
    event leaves the record untouched, while a funded record accepts, at any time,
    the cooperative settlement to the seller and the refund to the buyer, and from
    its clock on the buyer's reclaim. *)
Theorem escrow_exits r :
  (∀ e, is_terminal (phase r) = true → ∃ msg, apply r e = (Err msg, r)) ∧
  (∀ e msg r', apply r e = (Err msg, r') → r' = r) ∧
  (phase r = Funded →
     (∀ amt tx, ∃ r', apply r (EvCoopSettled (escrow_id r) ToSeller (seller (terms r)) amt tx) = (Ok (), r')
        ∧ phase r' = Settled) ∧
     (∀ amt tx, ∃ r', apply r (EvCoopRefunded (escrow_id r) ToBuyer (buyer (terms r)) amt tx) = (Ok (), r')
        ∧ phase r' = Refunded) ∧
     (∀ amt tx media, timeout_blue (terms r) <= media →
        ∃ r', apply r (EvTimeoutClaimed (escrow_id r) ToBuyer (buyer (terms r)) amt tx media) = (Ok (), r')
        ∧ phase r' = TimedOut)).
Proof.
  split_and!.
  - intros e Ht. destruct (apply r e) as [[[]|msg] r'] eqn:Ha.
    + apply apply_ok_iff in Ha. by destruct Ha as [??? Hph|?? Hph|?? Hph|??? Hph]; rewrite Hph in Ht.
    + exists msg. by rewrite (apply_err _ _ _ _ Ha).
  - apply apply_err.
  - intros Hph. split_and!; intros; eexists; (split; [apply apply_ok_iff|]).
    + by apply move_settle.
    + done.
    + by apply move_refund.
    + done.
    + by apply move_timeout.
    + done.
Qed.

(** The law does not look at the amounts of the closing events: a funded
    escrow settles with a recorded payout of zero. *)
Theorem escrow_amount_unchecked r :
  phase r = Funded →
  ∃ r', apply r (EvCoopSettled (escrow_id r) ToSeller (seller (terms r)) 0 "") = (Ok (), r').
Proof. intros Hph. eexists. apply apply_ok_iff. by apply move_settle. Qed.
End properties.
End Law.

(** A funded and settled escrow, run through the definitions. *)
Module LawExample.
Import Toy Law.
Definition deal : EscrowTerms :=
  {| buyer := "hsn1buyer"; seller := "hsn1seller"; amount := 1000; clock := AbsoluteBlue 100;
     memo := ""; seed_hex := "aa" |}.
Definition offered : EscrowRecord :=
  match open "hsn1buyer" deal with
  | Ok r => r
  | Err e => {| escrow_id := e; opener := ""; terms := deal; phase := Disputed; vault := None; history := [] |}
  end.
Definition fund_event : EscrowEvent := EvFunded (escrow_id offered) "00" 0 1000 10.
Definition funded : EscrowRecord := (apply offered fund_event).2.
Definition settle_event : EscrowEvent :=
  EvCoopSettled (escrow_id offered) ToSeller "hsn1seller" 1000 "11".
Definition settled : EscrowRecord := (apply funded settle_event).2.

Lemma settled_reachable : reachable settled.
Proof.
  apply (reach_apply funded settle_event).
  - apply (reach_apply offered fund_event).
    + apply (reach_open "hsn1buyer" deal). vm_compute. reflexivity.
    + vm_compute. reflexivity.
  - vm_compute. reflexivity.
Qed.
End LawExample.

Lemma escrow_reachable_invariant_witness : Law.record_ok LawExample.settled.
Proof. exact (@Law.escrow_reachable_invariant Toy.toy_crypto _ LawExample.settled_reachable). Defined.

Lemma escrow_history_replays_witness :
  ∃ r0, Law.replay r0 (drop 1 (Law.history LawExample.settled)) = Some LawExample.settled.
Proof.
  destruct (@Law.escrow_history_replays Toy.toy_crypto _ LawExample.settled_reachable) as (r0 & _ & Hr).
  exists r0. exact Hr.
Defined.

Lemma escrow_amount_unchecked_witness :
  ∃ r', Law.apply LawExample.funded
    (Law.EvCoopSettled (Law.escrow_id LawExample.funded) Law.ToSeller
       (Law.seller (Law.terms LawExample.funded)) 0 "") = (Ok (), r').
Proof. apply Law.escrow_amount_unchecked. vm_compute. reflexivity. Defined.
