(* ===== verification/Bdpe.v ===== *)
(** * The BDPE vault

    [src/src/bdpe.rs]: the covenant that locks an escrow's value, its parser, and
    the builders of the funding and spending transactions.

    The central theorem composes the UTXO layer with the covenant: whatever
    transaction the ledger accepts, a vault is only ever spent by the buyer after
    the timeout, or with the authorisation of both parties. *)

From S2P Require Import Prelude Genesis Crypto Address Predicate Utxo UtxoTx Escrow.
Import Law.

(** [vault_predicate], [vault_predicate_from_terms]. *)
Definition vault_predicate (buyer seller : string) (timeout_blue : Z) : Predicate :=
  Or (MultiSig 2 [buyer; seller]) (AbsoluteLock buyer timeout_blue).
Definition vault_predicate_from_terms (t : EscrowTerms) : Predicate :=
  vault_predicate (buyer t) (seller t) (timeout_blue t).

(** [coop_witness], [timeout_witness]. *)
Definition coop_witness (cosigner_pubkey cosigner_signature : bytes) : UnlockWitness :=
  Stack [Stack [CosignerSig cosigner_pubkey cosigner_signature]].
Definition timeout_witness : UnlockWitness := Signature.

(** [payout_address]. *)
Definition payout_address (t : EscrowTerms) (payout : PayoutVector) : result string :=
  fail_if negb (phase1_allowed payout) as "payout vector not allowed in Phase 1";
  Ok (match payout with ToSeller => seller t | ToBuyer => buyer t end).

(** [terms_with_timeout]. *)
Definition terms_with_timeout (b s : string) (amt timeout : Z) (m seed : string) : EscrowTerms :=
  {| buyer := b; seller := s; amount := amt; clock := AbsoluteBlue timeout; memo := m; seed_hex := seed |}.

Section bdpe.
Context `{!Crypto, !UtxoCodec}.

(** [parse_vault_predicate]. *)
Definition parse_vault_predicate (p : Predicate) : option (string * string * Z) :=
  match p with
  | Or (MultiSig n [a0; a1]) (AbsoluteLock b unlock) =>
      if negb (n =? 2) then None else
      if addresses_equivalent a0 b then Some (b, a1, unlock)
      else if addresses_equivalent a1 b then Some (b, a0, unlock)
      else None
  | _ => None
  end.

(** [predicate_involves_address]. *)
Fixpoint predicate_involves_address (p : Predicate) (address : string) : bool :=
  match p with
  | PayToAddress a | AbsoluteLock a _ | RelativeLock a _ | AnnulAfter a _ | CreditAccount a =>
      addresses_equivalent a address
  | MultiSig _ addresses => existsb (λ a, addresses_equivalent a address) addresses
  | And l r | Or l r => predicate_involves_address l address || predicate_involves_address r address
  | ExactValue _ inner => predicate_involves_address inner address
  | HashLock _ | CommitData _ => false
  end.

(** ** Builders *)

Definition vault_out (t : EscrowTerms) : TxOut :=
  {| value := amount t; predicate := vault_predicate_from_terms t; created_blue := 0 |}.

(** [build_fund_tx]; the tail is the same re-pricing as a payment's. *)
Definition build_fund_tx (from_pubkey : bytes) (funding : OutPoint) (funding_value : Z)
    (t : EscrowTerms) (fee0 chain_id : Z) : result UtxoTx :=
  _ ← validate t;
  let change_addr := hash_to_address from_pubkey in
  fail_if negb (addresses_equivalent change_addr (buyer t)) as "only the buyer may fund the vault";
  let body := payment_body from_pubkey funding chain_id 0 0 in
  let probe := body (Z.max fee0 MIN_TX_FEE) [vault_out t] in
  let fee1 := Z.max fee0 (min_fee_required probe) in
  let probe := body fee1 [vault_out t] in
  let fee1 := min_fee_required probe in
  need ← ok_or (checked_add 128 (amount t) fee1) "amount+fee overflow";
  fail_if funding_value <? need as "Insufficient funding UTXO";
  let change := funding_value - need in
  outs ← (if 0 <? change then
            fail_if change <? UTXO_DUST as "Change below dust";
            Ok [vault_out t; pay_out change_addr change]
          else Ok [vault_out t]);
  payment_rebump (body fee1 outs).

(** A vault spend with witness [w]. *)
Definition spend_body (from_pubkey : bytes) (vault : OutPoint) (chain_id : Z) (to : string)
    (w : UnlockWitness) (f v : Z) : UtxoTx :=
  {| inputs := [{| previous := vault; relative_lock_blues := 0; witness := w |}];
     outputs := [pay_out to v]; lock_blue_score := 0; fee := f; chain_id := chain_id;
     from_pubkey := from_pubkey; signature := [] |}.

(** [provisional_spend]; the witness is the same before and after re-pricing. *)
Definition provisional_spend (from_pubkey : bytes) (vault : OutPoint) (vault_value : Z) (to : string)
    (fee0 chain_id : Z) (w : UnlockWitness) : result UtxoTx :=
  let body := spend_body from_pubkey vault chain_id to w in
  let fee1 := min_fee_required (body (Z.max fee0 MIN_TX_FEE) 1) in
  fail_if vault_value <=? fee1 as "vault value too small to cover fee";
  let pay := vault_value - fee1 in
  fail_if pay <? UTXO_DUST as "payout below dust";
  let need := min_fee_required (body fee1 pay) in
  if fee1 <? need then
    let extra := need - fee1 in
    if wrap 128 (extra + UTXO_DUST) <? pay then Ok (body need (pay - extra))
    else Err ("Fee must be ≥ " +:+ pretty need)
  else Ok (body fee1 pay).

(** The value of the only output of a [provisional_spend]. *)
Definition first_value (tx : UtxoTx) : Z :=
  match outputs tx with o :: _ => value o | [] => 0 end.

(** The cooperative branch of [build_spend_tx]: [tx.inputs[0].witness = ...],
    then one re-pricing with a fresh cosigner signature. *)
Definition coop_spend (primary_pubkey cpk csk : bytes) (vault : OutPoint) (vault_value : Z)
    (to : string) (fee0 chain_id : Z) (rng1 rng2 : bytes) : result UtxoTx :=
  let body := spend_body primary_pubkey vault chain_id to in
  let fee0 := Z.max fee0 MIN_TX_FEE in
  tx ← provisional_spend primary_pubkey vault vault_value to fee0 chain_id Signature;
  sig ← sign_pq512 (str_bytes "utxo-tx") (signing_bytes tx) csk rng1;
  let tx := body (coop_witness cpk sig) (fee tx) (first_value tx) in
  let need := min_fee_required tx in
  if fee tx <? need then
    let extra := need - fee tx in
    if wrap 128 (extra + UTXO_DUST) <? first_value tx then
      let tx2 := body (coop_witness cpk sig) need (first_value tx - extra) in
      sig2 ← sign_pq512 (str_bytes "utxo-tx") (signing_bytes tx2) csk rng2;
      Ok (body (coop_witness cpk sig2) need (first_value tx - extra))
    else Err ("Fee must be ≥ " +:+ pretty need)
  else Ok tx.

(** [build_spend_tx]. *)
Definition build_spend_tx (primary_pubkey : bytes) (cosigner_pubkey cosigner_secret : option bytes)
    (vault : OutPoint) (vault_value : Z) (t : EscrowTerms) (path : SpendPath)
    (media_blue fee0 chain_id : Z) (rng1 rng2 : bytes) : result UtxoTx :=
  _ ← validate t;
  _ ← spend_path_validate path t media_blue;
  let primary := hash_to_address primary_pubkey in
  match path with
  | Coop2of2 payout =>
      cpk ← ok_or cosigner_pubkey "coop spend needs cosigner pubkey";
      csk ← ok_or cosigner_secret "coop spend needs cosigner secret";
      let cosigner_addr := hash_to_address cpk in
      let set_ok := (addresses_equivalent primary (buyer t) && addresses_equivalent cosigner_addr (seller t))
                    || (addresses_equivalent primary (seller t) && addresses_equivalent cosigner_addr (buyer t)) in
      fail_if negb set_ok as "coop cosigners must be buyer and seller";
      to ← payout_address t payout;
      coop_spend primary_pubkey cpk csk vault vault_value to fee0 chain_id rng1 rng2
  | TimeoutBuyer =>
      fail_if negb (addresses_equivalent primary (buyer t)) as "timeout claim must be signed by buyer";
      to ← payout_address t ToBuyer;
      provisional_spend primary_pubkey vault vault_value to fee0 chain_id timeout_witness
  end.

(** [outpoint_from_hex]. *)
Definition outpoint_from_hex (txid_hex : string) (vo : Z) : result OutPoint :=
  bs ← ok_or (hex_decode txid_hex) "bad txid hex";
  fail_if negb (len bs =? HASH_SIZE) as "txid must be 64 bytes";
  Ok {| txid := be_int bs; vout := vo |}.

(** ** Who can open a vault *)

(** Party [a] took part in a spend with sighash [msg]: as the transaction's
    signer, or through a cosignature that verifies. *)
Definition authorised_by (a signer : string) (msg : bytes) : Prop :=
  addresses_equivalent a signer = true ∨
  ∃ pk sig, verify_pq512 (str_bytes "utxo-tx") msg pk sig = true ∧
            addresses_equivalent a (encode_hash (address_hash pk)) = true.

Lemma members_authorised_by addrs signer msg cosigs a :
  Forall (cosig_ok addrs msg) cosigs → a ∈ members addrs signer cosigs →
  a ∈ addrs ∧ authorised_by a signer msg.
Proof.
  intros Hok Ha. destruct (members_authorised _ _ _ _ Ha) as [Hin [Hs|([pk sig] & Hc & Heq)]].
  - split; [done|by left].
  - split; [done|]. right. exists pk, sig. split; [|done].
    by destruct (proj1 (Forall_forall _ _) Hok _ Hc).
Qed.

(** A two-member quorum of a two-element set is the whole set. *)
Lemma quorum_of_two (a b : string) (ms : gset string) :
  (∀ x, x ∈ ms → x ∈ [a; b]) → 2 <= Z.of_nat (size ms) → a ∈ ms ∧ b ∈ ms.
Proof.
  intros Hsub Hsz. assert (ms ⊆ {[a; b]}) as Hs by set_solver.
  assert (size ({[a; b]} : gset string) <= 2)%nat as Hle.
  { rewrite size_union_alt, size_singleton. pose proof (size_singleton (C:=gset string) b).
    assert (({[b]} ∖ {[a]} : gset string) ⊆ {[b]}) as Hd by set_solver.
    apply subseteq_size in Hd. lia. }
  assert (ms = {[a; b]}) as ->; [|set_solver].
  apply set_eq. intros x. split; [set_solver|]. intros Hx.
  destruct (decide (x ∈ ms)) as [|Hn]; [done|]. exfalso.
  assert (ms ⊂ {[a; b]}) as Hss by set_solver. apply subset_size in Hss. lia.
Qed.

Lemma vault_auth b s timeout signer media created msg :
  auth (vault_predicate b s timeout) signer media created (Some msg) →
  (addresses_equivalent b signer = true ∧ timeout <= media) ∨
  (authorised_by b signer msg ∧ authorised_by s signer msg).
Proof.
  intros [(_ & _ & _ & msg' & cosigs & [= <-] & _ & Hok & Hsz)|[Ht Hb]]; [right|by left].
  destruct (quorum_of_two b s (members [b; s] signer cosigs)) as [Hb Hs]; [|done|].
  - intros x Hx. by eapply members_authorised_by.
  - split; by eapply members_authorised_by.
Qed.

(** C29. Vault safety, end to end: in any state, whatever transaction the ledger
    accepts, an output locked by the vault covenant of a buyer and a seller is
    spent only if the buyer signed and the media score reached the timeout, or if
    both the buyer and the seller authorised that very transaction.  The seller
    alone can never take the funds. *)
Theorem vault_spend_safety st tx media st' tin out b s timeout :
  apply_utxo_tx st tx media = (Ok (), st') →
  tin ∈ inputs tx → entries (utxos st) !! previous tin = Some out →
  predicate out = vault_predicate b s timeout →
  verify tx = true ∧
  ((addresses_equivalent b (from_address tx) = true ∧ timeout <= media) ∨
   (authorised_by b (from_address tx) (signing_bytes tx) ∧
    authorised_by s (from_address tx) (signing_bytes tx))).
Proof.
  intros Ha Hin Hout Hpred. destruct (accepted_checks _ _ _ _ Ha) as (Hv & _ & os & Hos).
  split; [done|]. apply list_elem_of_lookup in Hin as [i Hi].
  destruct (Forall2_lookup_l _ _ _ _ _ Hos Hi) as (out' & _ & Hout' & _ & _ & Hauth & _).
  rewrite Hout in Hout'. injection Hout' as <-. rewrite Hpred in Hauth. by eapply vault_auth.
Qed.

(** The covenant parser recognises exactly what the builder writes: parsing a
    built vault returns its parties and timeout, and anything the parser accepts
    is a two-of-two with an absolute lock for the party it calls the buyer, so
    the same safety holds for it. *)
Theorem parse_vault_spec p b s timeout :
  parse_vault_predicate (vault_predicate b s timeout) = Some (b, s, timeout) ∧
  (parse_vault_predicate p = Some (b, s, timeout) →
   ∃ b', addresses_equivalent b' b = true ∧
     (p = Or (MultiSig 2 [b'; s]) (AbsoluteLock b timeout) ∨
      p = Or (MultiSig 2 [s; b']) (AbsoluteLock b timeout))).
Proof.
  split; [simpl; by rewrite addresses_equivalent_refl|].
  unfold parse_vault_predicate. intros Hp.
  destruct p as [| | | | |[| | | | | |n [|a0 [|a1 [|]]]| | | |] [| |b' u| | | | | | | |]| | | | |]; try done.
  destruct (Z.eqb_spec n 2) as [->|]; [|done]. simpl in Hp.
  destruct (addresses_equivalent a0 b') eqn:Ha0; [injection Hp as -> -> ->; eauto|].
  destruct (addresses_equivalent a1 b') eqn:Ha1; [injection Hp as -> -> ->; eauto|done].
Qed.
End bdpe.

(** ** The builders balance *)
Section builders.
Context `{!Crypto, !UtxoCodec, !UtxoCodecLaws}.

(** The funding transaction locks exactly the agreed amount under the vault
    covenant of the terms, balances, clears the relay floor, returns any change
    to the buyer, and can only be built by the buyer. *)
Theorem build_fund_tx_spec pk funding funding_value t fee0 cid tx :
  build_fund_tx pk funding funding_value t fee0 cid = Ok tx →
  ∃ change, outputs tx = vault_out t :: change ∧
    zsum (value <$> outputs tx) + fee tx = funding_value ∧ min_fee_required tx <= fee tx ∧
    Forall (λ o, predicate o = PayToAddress (hash_to_address pk) ∧ UTXO_DUST <= value o) change ∧
    addresses_equivalent (hash_to_address pk) (buyer t) = true.
Proof.
  unfold build_fund_tx. intros Hp.
  destruct (validate t) as [[]|]; [|done]. cbn [mbind result_bind] in Hp.
  destruct (addresses_equivalent _ (buyer t)) eqn:Hbuyer; [|done]. cbn [negb] in Hp.
  set (body := payment_body pk funding cid 0 0) in Hp.
  set (probe := body (Z.max fee0 _) [vault_out t]) in Hp.
  set (fee1 := min_fee_required probe) in Hp.
  destruct (checked_add 128 (amount t) fee1) as [need|] eqn:Hadd; [|done].
  apply checked_add_Some in Hadd as [-> _]. cbn [ok_or mbind result_bind] in Hp.
  destruct (funding_value <? amount t + fee1) eqn:Hfund; [done|].
  set (chg := funding_value - (amount t + fee1)) in *.
  assert (MIN_TX_FEE <= fee1) as Hb by apply min_fee_required_bound. unfold MIN_TX_FEE in Hb.
  destruct (0 <? chg) eqn:Hchg.
  - destruct (chg <? UTXO_DUST) eqn:Hdust; [done|]. cbn [mbind result_bind] in Hp. zbool.
    apply payment_rebump_two in Hp as (chg' & fee' & -> & Hsum & Hge & Hmin & Hd); [|lia|done].
    exists [pay_out (hash_to_address pk) chg']. simpl. split_and!; [done|lia|done| |done].
    constructor; [split; [done|simpl; lia]|constructor].
  - zbool. cbn [mbind result_bind] in Hp. unfold payment_rebump in Hp.
    assert (min_fee_required (body fee1 [vault_out t]) = fee1) as Hmin by (by apply min_fee_required_shape).
    change (fee (body fee1 _)) with fee1 in Hp. rewrite Hmin, Z.ltb_irrefl in Hp.
    injection Hp as <-. exists []. simpl. split_and!; [done|lia|rewrite Hmin; lia|constructor|done].
Qed.

Lemma provisional_spend_eq pk vault vault_value to fee0 cid w :
  let f := min_fee_required (spend_body pk vault cid to w 0 0) in
  provisional_spend pk vault vault_value to fee0 cid w =
    (fail_if vault_value <=? f as "vault value too small to cover fee";
     fail_if vault_value - f <? UTXO_DUST as "payout below dust";
     Ok (spend_body pk vault cid to w f (vault_value - f))).
Proof.
  intros f. unfold provisional_spend.
  assert (∀ f' v', min_fee_required (spend_body pk vault cid to w f' v') = f) as Hf
    by (intros; by apply min_fee_required_shape).
  rewrite !Hf. destruct (_ <=? _); [done|]. destruct (_ <? UTXO_DUST); [done|].
  by rewrite Z.ltb_irrefl.
Qed.

(** What a vault spend looks like: one input, one output, balanced. *)
Definition spend_shape (tx : UtxoTx) (vault : OutPoint) (vault_value : Z) (to : string) : Prop :=
  ∃ v, outputs tx = [pay_out to v] ∧ v + fee tx = vault_value ∧ UTXO_DUST <= v ∧
       previous <$> inputs tx = [vault].

Lemma provisional_spend_shape pk vault vault_value to fee0 cid w tx :
  provisional_spend pk vault vault_value to fee0 cid w = Ok tx →
  spend_shape tx vault vault_value to ∧ 0 <= fee tx ∧ tx = spend_body pk vault cid to w (fee tx) (first_value tx).
Proof.
  rewrite provisional_spend_eq. set (f := min_fee_required _).
  assert (MIN_TX_FEE <= f) as Hb by apply min_fee_required_bound. unfold MIN_TX_FEE in Hb.
  destruct (_ <=? _); [done|]. destruct (_ <? UTXO_DUST) eqn:Hd; [done|]. zbool. intros [= <-].
  split; [|split; [simpl; lia|done]]. exists (vault_value - f). simpl. split_and!; [done|lia|lia|done].
Qed.

Lemma coop_spend_shape pk cpk csk vault vault_value to fee0 cid r1 r2 tx :
  coop_spend pk cpk csk vault vault_value to fee0 cid r1 r2 = Ok tx →
  spend_shape tx vault vault_value to.
Proof.
  unfold coop_spend. intros Hp.
  destruct (provisional_spend _ _ _ _ _ _ _) as [tx0|] eqn:Hprov; [|done].
  apply provisional_spend_shape in Hprov as ((v & Hout & Hv & Hd & _) & Hf0 & _).
  cbn [mbind result_bind] in Hp. destruct (sign_pq512 _ _ _ r1) as [sig|]; [|done].
  cbn [mbind result_bind] in Hp.
  assert (first_value tx0 = v) as Hfv by (unfold first_value; by rewrite Hout).
  set (tx1 := spend_body pk vault cid to (coop_witness cpk sig) (fee tx0) (first_value tx0)) in Hp.
  change (first_value tx1) with (first_value tx0) in Hp. change (fee tx1) with (fee tx0) in Hp.
  rewrite Hfv in Hp. pose proof (min_fee_required_bound tx1) as Hb.
  destruct (fee tx0 <? min_fee_required tx1) eqn:Hlt; zbool.
  - rewrite wrap_small in Hp by (unfold in_width, umax, UTXO_DUST, MIN_TX_FEE in *; lia).
    destruct (_ <? v) eqn:Hroom; [|done]. zbool.
    destruct (sign_pq512 _ _ _ r2) as [sig2|]; [|done]. injection Hp as <-.
    eexists. cbn [outputs spend_body]. split_and!; [reflexivity|simpl; lia|lia|done].
  - injection Hp as <-. exists v. subst tx1. rewrite Hfv. split_and!; [done|simpl; lia|done|done].
Qed.

(** A built vault spend pays the whole vault, less its fee, in one output to
    the party its path allows: the seller or the buyer for a cooperative spend
    according to the payout vector, the buyer for a timeout; a timeout spend is
    only built for the buyer at or after the clock. *)
Theorem build_spend_tx_spec pk cpk csk vault vault_value t path media fee0 cid r1 r2 tx :
  build_spend_tx pk cpk csk vault vault_value t path media fee0 cid r1 r2 = Ok tx →
  match path with
  | Coop2of2 ToSeller => spend_shape tx vault vault_value (seller t)
  | Coop2of2 ToBuyer => spend_shape tx vault vault_value (buyer t)
  | TimeoutBuyer => spend_shape tx vault vault_value (buyer t) ∧ timeout_blue t <= media ∧
                    addresses_equivalent (hash_to_address pk) (buyer t) = true
  end.
Proof.
  unfold build_spend_tx. destruct (validate t) as [[]|]; [|done]. cbn [mbind result_bind].
  destruct path as [payout|]; intros Hp.
  - destruct (spend_path_validate _ t media) as [[]|]; [|done]. cbn [mbind result_bind] in Hp.
    destruct cpk as [cpk|]; [|done]. cbn [ok_or mbind result_bind] in Hp.
    destruct csk as [csk|]; [|done]. cbn [ok_or mbind result_bind] in Hp.
    destruct (negb _) eqn:Hset; [done|].
    destruct payout; by apply coop_spend_shape in Hp.
  - unfold spend_path_validate, reached in Hp.
    destruct (_ <=? media) eqn:Hclk; [|done]. cbn [negb mbind result_bind] in Hp.
    destruct (addresses_equivalent _ _) eqn:Hb; [|done]. zbool.
    apply provisional_spend_shape in Hp as [Hs _]. done.
Qed.

(** The caller's fee is ignored: funding and timeout spending transactions are
    the same whatever fee is asked for, always at the size floor. *)
Theorem bdpe_fee_ignored pk funding funding_value t fee0 fee0' cid vault vault_value media r1 r2 :
  build_fund_tx pk funding funding_value t fee0 cid = build_fund_tx pk funding funding_value t fee0' cid ∧
  build_spend_tx pk None None vault vault_value t TimeoutBuyer media fee0 cid r1 r2 =
    build_spend_tx pk None None vault vault_value t TimeoutBuyer media fee0' cid r1 r2.
Proof.
  split.
  - unfold build_fund_tx.
    assert (∀ f f', min_fee_required (payment_body pk funding cid 0 0 f [vault_out t]) =
      min_fee_required (payment_body pk funding cid 0 0 f' [vault_out t])) as Hf
      by (intros; by apply min_fee_required_shape).
    rewrite (Hf _ 0). by rewrite (Hf (Z.max fee0' (min_fee_required _)) 0).
  - unfold build_spend_tx. destruct (validate t) as [[]|]; [|done]. cbn [mbind result_bind].
    destruct (spend_path_validate TimeoutBuyer t media) as [[]|]; [|done]. cbn [mbind result_bind].
    destruct (negb _); [done|]. cbn [payout_address phase1_allowed negb mbind result_bind].
    by rewrite !provisional_spend_eq.
Qed.
End builders.

(** ** Concrete vault *)
Module BdpeExample.
Import Toy UtxoExample.
Definition bob : bytes := [3; 4].
Definition deal : EscrowTerms := terms_with_timeout alice_addr bob_addr 20000 50 "" "01".
Definition vault_op : OutPoint := {| txid := 77; vout := 0 |}.
Definition vault_state : UtxoState := {|
  utxos := {| entries := {[ vault_op := vault_out deal ]}; spent := ∅ |};
  accounts := ∅; fees_out := 0 |}.
Definition reclaim : result UtxoTx :=
  build_spend_tx alice None None vault_op 20000 deal TimeoutBuyer 60 0 CHAIN_ID [] [].
Definition reclaim_tx : UtxoTx :=
  match reclaim with Ok tx => signed tx | Err _ => payment_tx end.
Definition reclaimed : UtxoState := (apply_utxo_tx vault_state reclaim_tx 60).2.
Definition reclaim_input : TxIn :=
  {| previous := vault_op; relative_lock_blues := 0; witness := timeout_witness |}.

Definition funding : result UtxoTx := build_fund_tx alice fund 50000 deal 0 CHAIN_ID.
Definition funding_tx : UtxoTx := match funding with Ok tx => tx | Err _ => payment_tx end.
Lemma funding_ok : build_fund_tx alice fund 50000 deal 0 CHAIN_ID = Ok funding_tx.
Proof. vm_compute. reflexivity. Qed.

Lemma reclaim_applies : apply_utxo_tx vault_state reclaim_tx 60 = (Ok (), reclaimed).
Proof.
  assert ((apply_utxo_tx vault_state reclaim_tx 60).1 = Ok ()) as Hok by (vm_compute; reflexivity).
  unfold reclaimed. exact (outcome _ _ Hok).
Qed.
Lemma reclaim_input_in : reclaim_input ∈ inputs reclaim_tx.
Proof. apply list_elem_of_In. vm_compute. left. reflexivity. Qed.
Lemma vault_live : entries (utxos vault_state) !! previous reclaim_input = Some (vault_out deal).
Proof. apply lookup_singleton_eq. Qed.
End BdpeExample.

Lemma vault_spend_safety_witness :
  @verify Toy.toy_crypto UtxoExample.toy_codec BdpeExample.reclaim_tx = true.
Proof.
  exact (proj1 (@vault_spend_safety Toy.toy_crypto UtxoExample.toy_codec BdpeExample.vault_state
    BdpeExample.reclaim_tx 60 BdpeExample.reclaimed BdpeExample.reclaim_input
    (vault_out BdpeExample.deal) UtxoExample.alice_addr UtxoExample.bob_addr 50
    BdpeExample.reclaim_applies
    BdpeExample.reclaim_input_in BdpeExample.vault_live eq_refl)).
Defined.

Lemma build_fund_tx_spec_witness :
  zsum (value <$> outputs BdpeExample.funding_tx) + fee BdpeExample.funding_tx = 50000.
Proof.
  destruct (@build_fund_tx_spec Toy.toy_crypto UtxoExample.toy_codec UtxoExample.toy_codec_laws
    UtxoExample.alice UtxoExample.fund 50000 BdpeExample.deal 0 CHAIN_ID BdpeExample.funding_tx
    BdpeExample.funding_ok) as (change & _ & Hsum & _).
  exact Hsum.
Defined.

Lemma build_spend_tx_spec_witness :
  ∃ tx, BdpeExample.reclaim = Ok tx ∧ spend_shape tx BdpeExample.vault_op 20000 UtxoExample.alice_addr.
Proof.
  eexists. split; [vm_compute; reflexivity|].
  refine (proj1 (@build_spend_tx_spec Toy.toy_crypto UtxoExample.toy_codec UtxoExample.toy_codec_laws
    UtxoExample.alice None None BdpeExample.vault_op 20000 BdpeExample.deal TimeoutBuyer 60 0 CHAIN_ID
    [] [] _ _)).
  vm_compute. reflexivity.
Defined.

Lemma bdpe_fee_ignored_witness :
  @build_fund_tx Toy.toy_crypto UtxoExample.toy_codec UtxoExample.alice UtxoExample.fund 50000
    BdpeExample.deal 0 CHAIN_ID =
  @build_fund_tx Toy.toy_crypto UtxoExample.toy_codec UtxoExample.alice UtxoExample.fund 50000
    BdpeExample.deal 9000 CHAIN_ID.
Proof.
  exact (proj1 (@bdpe_fee_ignored Toy.toy_crypto UtxoExample.toy_codec UtxoExample.toy_codec_laws
    UtxoExample.alice UtxoExample.fund 50000 BdpeExample.deal 0 9000 CHAIN_ID
    BdpeExample.vault_op 20000 60 [] [])).
Defined.
