(* ===== verification/Registry.v ===== *)
(** * Title registry and registry escrow

    [src/src/registry.rs]: titled assets with their public chain of title, the
    account-overlay escrow, the signed operations on them and
    [RegistryState::apply_op].

    [apply_op] advances the signer's nonce before it looks at the operation, so it
    returns the state together with the outcome.  The theorems: the registry
    invariant (locks and escrows agree, the chain of title is linked, the escrow
    life cycle is consistent) is kept by every operation, accepted or refused;
    value is conserved between accounts and escrows; escrowed funds leave an
    escrow only with the signature of the party entitled to send them. *)

From S2P Require Import Prelude Genesis Crypto Address Predicate Utxo UtxoTx.

(** ** Data *)
Inductive AssetClass := Vehicle | Loan | Stake | RealEstate | Generic.
Definition asset_str (c : AssetClass) : string :=
  match c with
  | Vehicle => "vehicle" | Loan => "loan" | Stake => "stake"
  | RealEstate => "real_estate" | Generic => "generic"
  end.

Record TitleEvent := {
  ev_timestamp : Z;
  ev_block_height : Z;
  ev_settlement_id : string;
  ev_event : string;
  ev_from : option string;
  ev_to : string;
  ev_memo : string;
}.

Record TitleDeed := {
  title_id : Hash;
  asset_class : AssetClass;
  description : string;
  current_owner : string;
  issued_at : Z;
  title_history : list TitleEvent;
  deed_escrow_id : option Hash;
  lienholder : option string;
}.

Inductive EscrowStatus := StOpen | StFunded | StReleased | StRefunded | StDisputed.
#[global] Instance status_eq_dec : EqDecision EscrowStatus.
Proof. solve_decision. Defined.

Record EscrowAccount := {
  esc_id : Hash;
  esc_buyer : string;
  esc_seller : string;
  esc_arbiter : option string;
  esc_amount : Z;
  esc_funded : Z;
  esc_status : EscrowStatus;
  esc_title_id : option Hash;
  esc_opened_at : Z;
  esc_memo : string;
  esc_timeout_blue : Z;
}.

Inductive RegistryOp :=
| IssueTitle (from_pubkey : bytes) (owner : string) (class : AssetClass) (desc : string)
    (title_seed : Hash) (nonce chain_id : Z) (signature : bytes)
| TransferTitle (from_pubkey : bytes) (tid : Hash) (to memo : string)
    (nonce chain_id : Z) (signature : bytes)
| OpenEscrow (from_pubkey : bytes) (buyer seller : string) (arbiter : option string) (amount : Z)
    (tid : option Hash) (memo : string) (escrow_seed : Hash) (timeout_blue : Z)
    (nonce chain_id : Z) (signature : bytes)
| FundEscrow (from_pubkey : bytes) (eid : Hash) (amount : Z) (nonce chain_id : Z) (signature : bytes)
| ReleaseEscrow (from_pubkey : bytes) (eid : Hash) (nonce chain_id : Z) (signature : bytes)
| RefundEscrow (from_pubkey : bytes) (eid : Hash) (nonce chain_id : Z) (signature : bytes)
| TimeoutClaimEscrow (from_pubkey : bytes) (eid : Hash) (nonce chain_id : Z) (signature : bytes).

Record RegistryState := { titles : gmap Hash TitleDeed; escrows : gmap Hash EscrowAccount }.
Definition RegistryState_default : RegistryState := {| titles := ∅; escrows := ∅ |}.

(** The fields of the including block that [apply_op] reads. *)
Record OpContext := {
  ctx_timestamp : Z;
  ctx_height : Z;
  ctx_settlement : string;
  ctx_blue : Z;
}.

(** ** The operation's own accessors *)
Definition op_pubkey (op : RegistryOp) : bytes :=
  match op with
  | IssueTitle pk _ _ _ _ _ _ _ | TransferTitle pk _ _ _ _ _ _
  | OpenEscrow pk _ _ _ _ _ _ _ _ _ _ _ | FundEscrow pk _ _ _ _ _
  | ReleaseEscrow pk _ _ _ _ | RefundEscrow pk _ _ _ _ | TimeoutClaimEscrow pk _ _ _ _ => pk
  end.
Definition op_signature (op : RegistryOp) : bytes :=
  match op with
  | IssueTitle _ _ _ _ _ _ _ s | TransferTitle _ _ _ _ _ _ s
  | OpenEscrow _ _ _ _ _ _ _ _ _ _ _ s | FundEscrow _ _ _ _ _ s
  | ReleaseEscrow _ _ _ _ s | RefundEscrow _ _ _ _ s | TimeoutClaimEscrow _ _ _ _ s => s
  end.
Definition op_nonce (op : RegistryOp) : Z :=
  match op with
  | IssueTitle _ _ _ _ _ n _ _ | TransferTitle _ _ _ _ n _ _
  | OpenEscrow _ _ _ _ _ _ _ _ _ n _ _ | FundEscrow _ _ _ n _ _
  | ReleaseEscrow _ _ n _ _ | RefundEscrow _ _ n _ _ | TimeoutClaimEscrow _ _ n _ _ => n
  end.
Definition op_chain_id (op : RegistryOp) : Z :=
  match op with
  | IssueTitle _ _ _ _ _ _ c _ | TransferTitle _ _ _ _ _ c _
  | OpenEscrow _ _ _ _ _ _ _ _ _ _ c _ | FundEscrow _ _ _ _ c _
  | ReleaseEscrow _ _ _ c _ | RefundEscrow _ _ _ c _ | TimeoutClaimEscrow _ _ _ c _ => c
  end.

(** [RegistryOp::signing_bytes]. *)
Definition op_signing_bytes (op : RegistryOp) : bytes :=
  let tail n c := le_bytes 8 n ++ le_bytes 8 c in
  match op with
  | IssueTitle _ owner class desc seed n c _ =>
      str_bytes "issue-title-v1" ++ str_bytes owner ++ str_bytes (asset_str class) ++
      str_bytes desc ++ hash_bytes seed ++ tail n c
  | TransferTitle _ tid to memo n c _ =>
      str_bytes "transfer-title-v1" ++ hash_bytes tid ++ str_bytes to ++ str_bytes memo ++ tail n c
  | OpenEscrow _ buyer seller arbiter amount tid memo seed timeout n c _ =>
      str_bytes "open-escrow-v3" ++ str_bytes buyer ++ str_bytes seller ++
      from_option str_bytes [] arbiter ++ le_bytes 16 amount ++ from_option hash_bytes [] tid ++
      str_bytes memo ++ hash_bytes seed ++ le_bytes 8 timeout ++ tail n c
  | FundEscrow _ eid amount n c _ =>
      str_bytes "fund-escrow-v1" ++ hash_bytes eid ++ le_bytes 16 amount ++ tail n c
  | ReleaseEscrow _ eid n c _ => str_bytes "release-escrow-v1" ++ hash_bytes eid ++ tail n c
  | TimeoutClaimEscrow _ eid n c _ => str_bytes "timeout-claim-escrow-v1" ++ hash_bytes eid ++ tail n c
  | RefundEscrow _ eid n c _ => str_bytes "refund-escrow-v1" ++ hash_bytes eid ++ tail n c
  end.

Section registry.
Context `{!Crypto}.

Definition op_verify (op : RegistryOp) : bool :=
  verify_pq512 (str_bytes "registry-op") (op_signing_bytes op) (op_pubkey op) (op_signature op).
Definition signer_address (op : RegistryOp) : string := hash_to_address (op_pubkey op).

(** [derive_title_id], [derive_escrow_id]. *)
Definition derive_title_id (issuer : string) (seed : Hash) : Hash :=
  be_int (digest512 (str_bytes "hassan-title-id-v1") (str_bytes issuer ++ hash_bytes seed)).
Definition derive_escrow_id (opener : string) (seed : Hash) : Hash :=
  be_int (digest512 (str_bytes "hassan-escrow-id-v1") (str_bytes opener ++ hash_bytes seed)).

(** ** Updates *)

(** [accounts.entry(a).or_insert(default)], read. *)
Definition account_of (accts : Accounts) (a : string) : Account := default Account_default (accts !! a).

Definition with_nonce (a : Account) (n : Z) : Account :=
  {| balance := balance a; nonce := n; last_spend_blue := last_spend_blue a;
     code_hash := code_hash a; storage_root := storage_root a |}.

(** [accounts.entry(a).or_insert(..).balance.saturating_add(v)]. *)
Definition credit (accts : Accounts) (a : string) (v : Z) : Accounts :=
  <[a := with_balance (account_of accts a) (sat_add 128 (balance (account_of accts a)) v)]> accts.

Definition with_escrow (d : TitleDeed) (e : option Hash) : TitleDeed :=
  {| title_id := title_id d; asset_class := asset_class d; description := description d;
     current_owner := current_owner d; issued_at := issued_at d; title_history := title_history d;
     deed_escrow_id := e; lienholder := lienholder d |}.

(** Hand the deed to [to], recording the event. *)
Definition hand_over (d : TitleDeed) (to : string) (ctx : OpContext) (event memo : string) : TitleDeed :=
  {| title_id := title_id d; asset_class := asset_class d; description := description d;
     current_owner := to; issued_at := issued_at d;
     title_history := title_history d ++
       [{| ev_timestamp := ctx_timestamp ctx; ev_block_height := ctx_height ctx;
           ev_settlement_id := ctx_settlement ctx; ev_event := event;
           ev_from := Some (current_owner d); ev_to := to; ev_memo := memo |}];
     deed_escrow_id := deed_escrow_id d; lienholder := lienholder d |}.

Definition with_funds (e : EscrowAccount) (f : Z) (st : EscrowStatus) : EscrowAccount :=
  {| esc_id := esc_id e; esc_buyer := esc_buyer e; esc_seller := esc_seller e;
     esc_arbiter := esc_arbiter e; esc_amount := esc_amount e; esc_funded := f; esc_status := st;
     esc_title_id := esc_title_id e; esc_opened_at := esc_opened_at e; esc_memo := esc_memo e;
     esc_timeout_blue := esc_timeout_blue e |}.

(** [titles.get_mut(tid)] if the escrow has a title that is still there. *)
Definition update_title (ts : gmap Hash TitleDeed) (tid : option Hash) (f : TitleDeed → TitleDeed)
    : gmap Hash TitleDeed :=
  match tid with
  | None => ts
  | Some tid => match ts !! tid with None => ts | Some d => <[tid := f d]> ts end
  end.

(** ** The arms of [apply_op]

    Each takes the registry and the accounts as they are after the nonce step. *)
Abbreviation outcome_t := (result unit * (RegistryState * Accounts))%type.

Definition issue_title (st : RegistryState) (accts : Accounts) (ctx : OpContext) (signer owner : string)
    (class : AssetClass) (desc : string) (seed : Hash) : outcome_t :=
  let tid := derive_title_id signer seed in
  if bool_decide (is_Some (titles st !! tid)) then (Err "Title already issued", (st, accts)) else
  let deed := {| title_id := tid; asset_class := class; description := desc; current_owner := owner;
                 issued_at := ctx_timestamp ctx;
                 title_history := [{| ev_timestamp := ctx_timestamp ctx; ev_block_height := ctx_height ctx;
                                      ev_settlement_id := ctx_settlement ctx; ev_event := "issued";
                                      ev_from := None; ev_to := owner; ev_memo := "original issuance" |}];
                 deed_escrow_id := None; lienholder := None |} in
  (Ok (), ({| titles := <[tid := deed]> (titles st); escrows := escrows st |}, accts)).

Definition transfer_title (st : RegistryState) (accts : Accounts) (ctx : OpContext) (signer : string)
    (tid : Hash) (to memo : string) : outcome_t :=
  match titles st !! tid with
  | None => (Err "Title not found", (st, accts))
  | Some deed =>
      if negb (bool_decide (current_owner deed = signer))
      then (Err "Only the current owner can transfer title", (st, accts)) else
      if bool_decide (is_Some (deed_escrow_id deed))
      then (Err "Title is locked in escrow", (st, accts)) else
      (Ok (), ({| titles := <[tid := hand_over deed to ctx "transferred" memo]> (titles st);
                  escrows := escrows st |}, accts))
  end.

(** The title checks of the [OpenEscrow] arm. *)
Definition open_title_check (st : RegistryState) (seller : string) (tid : option Hash) : result unit :=
  match tid with
  | None => Ok ()
  | Some tid =>
      deed ← ok_or (titles st !! tid) "Title not found for escrow";
      fail_if negb (bool_decide (current_owner deed = seller)) as "Escrow title must be owned by seller";
      fail_if bool_decide (is_Some (deed_escrow_id deed)) as "Title already in escrow";
      Ok ()
  end.

Definition open_escrow (st : RegistryState) (accts : Accounts) (ctx : OpContext)
    (signer buyer seller : string) (arbiter : option string) (amount : Z) (tid : option Hash)
    (memo : string) (seed : Hash) (timeout : Z) : outcome_t :=
  if amount =? 0 then (Err "Escrow amount must be positive", (st, accts)) else
  match open_title_check st seller tid with
  | Err e => (Err e, (st, accts))
  | Ok _ =>
      let eid := derive_escrow_id signer seed in
      if bool_decide (is_Some (escrows st !! eid)) then (Err "Escrow already exists", (st, accts)) else
      let ts := update_title (titles st) tid (λ d, with_escrow d (Some eid)) in
      let esc := {| esc_id := eid; esc_buyer := buyer; esc_seller := seller; esc_arbiter := arbiter;
                    esc_amount := amount; esc_funded := 0; esc_status := StOpen; esc_title_id := tid;
                    esc_opened_at := ctx_timestamp ctx; esc_memo := memo; esc_timeout_blue := timeout |} in
      (Ok (), ({| titles := ts; escrows := <[eid := esc]> (escrows st) |}, accts))
  end.

Definition fund_escrow (st : RegistryState) (accts : Accounts) (signer : string) (eid : Hash) (amount : Z)
    : outcome_t :=
  match escrows st !! eid with
  | None => (Err "Escrow not found", (st, accts))
  | Some esc =>
      if negb (bool_decide (signer = esc_buyer esc))
      then (Err "Only the buyer can fund escrow", (st, accts)) else
      if negb (bool_decide (esc_status esc = StOpen)) && negb (bool_decide (esc_status esc = StFunded))
      then (Err "Escrow is not open for funding", (st, accts)) else
      match accts !! signer with
      | None => (Err "Buyer account missing", (st, accts))
      | Some acct =>
          if balance acct <? amount then (Err "Insufficient balance to fund escrow", (st, accts)) else
          let funded := sat_add 128 (esc_funded esc) amount in
          let status := if esc_amount esc <=? funded then StFunded else esc_status esc in
          (Ok (), ({| titles := titles st; escrows := <[eid := with_funds esc funded status]> (escrows st) |},
                   <[signer := with_balance acct (balance acct - amount)]> accts))
      end
  end.

Definition release_escrow (st : RegistryState) (accts : Accounts) (ctx : OpContext) (signer : string)
    (eid : Hash) : outcome_t :=
  match escrows st !! eid with
  | None => (Err "Escrow not found", (st, accts))
  | Some esc =>
      if negb (bool_decide (signer = esc_buyer esc))
      then (Err "Not authorized to release escrow (buyer must sign; arbiter cannot act alone)",
            (st, accts)) else
      if negb (bool_decide (esc_status esc = StFunded))
      then (Err "Escrow must be fully funded before release", (st, accts)) else
      (Ok (), ({| titles := update_title (titles st) (esc_title_id esc)
                    (λ d, hand_over (with_escrow d None) (esc_buyer esc) ctx "escrow_released"
                            "title cleared through escrow");
                  escrows := <[eid := with_funds esc 0 StReleased]> (escrows st) |},
               credit accts (esc_seller esc) (esc_funded esc)))
  end.

(** The common tail of [RefundEscrow] and [TimeoutClaimEscrow]. *)
Definition give_back (st : RegistryState) (accts : Accounts) (eid : Hash) (esc : EscrowAccount) : outcome_t :=
  (Ok (), ({| titles := update_title (titles st) (esc_title_id esc) (λ d, with_escrow d None);
              escrows := <[eid := with_funds esc 0 StRefunded]> (escrows st) |},
           if 0 <? esc_funded esc then credit accts (esc_buyer esc) (esc_funded esc) else accts)).

Definition refund_escrow (st : RegistryState) (accts : Accounts) (signer : string) (eid : Hash) : outcome_t :=
  match escrows st !! eid with
  | None => (Err "Escrow not found", (st, accts))
  | Some esc =>
      let authorized := match esc_status esc with
                        | StOpen => bool_decide (signer = esc_buyer esc)
                        | StFunded => bool_decide (signer = esc_seller esc)
                        | _ => false
                        end in
      if negb authorized
      then (Err "Not authorized to refund escrow (Open→buyer; Funded→seller; no unilateral arbiter)",
            (st, accts)) else
      if bool_decide (esc_status esc = StReleased) || bool_decide (esc_status esc = StRefunded)
      then (Err "Escrow already closed", (st, accts)) else
      give_back st accts eid esc
  end.

Definition timeout_claim_escrow (st : RegistryState) (accts : Accounts) (ctx : OpContext)
    (signer : string) (eid : Hash) : outcome_t :=
  match escrows st !! eid with
  | None => (Err "Escrow not found", (st, accts))
  | Some esc =>
      if negb (bool_decide (signer = esc_buyer esc))
      then (Err "Only the buyer can timeout-claim escrow", (st, accts)) else
      if negb (bool_decide (esc_status esc = StFunded))
      then (Err "Escrow must be funded for timeout claim", (st, accts)) else
      if esc_timeout_blue esc =? 0 then (Err "Escrow has no timeout path", (st, accts)) else
      if ctx_blue ctx <? esc_timeout_blue esc
      then (Err ("Timeout not reached: blue_score " +:+ pretty (ctx_blue ctx) +:+ " < " +:+
                 pretty (esc_timeout_blue esc)), (st, accts)) else
      give_back st accts eid esc
  end.

(** The dispatch of [apply_op], after the signature and the nonce. *)
Definition apply_op_body (st : RegistryState) (accts : Accounts) (op : RegistryOp) (ctx : OpContext)
    : outcome_t :=
  let signer := signer_address op in
  match op with
  | IssueTitle _ owner class desc seed _ _ _ => issue_title st accts ctx signer owner class desc seed
  | TransferTitle _ tid to memo _ _ _ => transfer_title st accts ctx signer tid to memo
  | OpenEscrow _ buyer seller arbiter amount tid memo seed timeout _ _ _ =>
      open_escrow st accts ctx signer buyer seller arbiter amount tid memo seed timeout
  | FundEscrow _ eid amount _ _ _ => fund_escrow st accts signer eid amount
  | ReleaseEscrow _ eid _ _ _ => release_escrow st accts ctx signer eid
  | RefundEscrow _ eid _ _ _ => refund_escrow st accts signer eid
  | TimeoutClaimEscrow _ eid _ _ _ => timeout_claim_escrow st accts ctx signer eid
  end.

(** [RegistryState::apply_op].  [entry(..).or_insert(..)] leaves the account behind
    even when the nonce is then refused. *)
Definition apply_op (st : RegistryState) (accts : Accounts) (op : RegistryOp) (ctx : OpContext) : outcome_t :=
  if negb (op_verify op) then (Err "Invalid registry signature", (st, accts)) else
  let signer := signer_address op in
  let acct := account_of accts signer in
  if negb (op_nonce op =? nonce acct)
  then (Err "Stale or future nonce on registry op", (st, <[signer := acct]> accts)) else
  let accts := <[signer := with_nonce acct (sat_add 64 (nonce acct) 1)]> accts in
  apply_op_body st accts op ctx.

(** [ChainState::validate_registry_ops]. *)
Definition validate_registry_ops (chain_id : Z) (ops : list RegistryOp) : result unit :=
  try_fold (λ _ op,
    fail_if negb (op_chain_id op =? chain_id) as "Wrong chain_id on registry op";
    fail_if negb (op_verify op) as "Invalid registry signature";
    Ok ()) () ops.

(** ** Value *)

Definition reg_value (st : RegistryState) (accts : Accounts) : Z :=
  total balance accts + total esc_funded (escrows st).

Definition amounts_ok (st : RegistryState) (accts : Accounts) : Prop :=
  map_Forall (λ _ a, 0 <= balance a) accts ∧ map_Forall (λ _ e, 0 <= esc_funded e) (escrows st).

(** The operation's amounts are unsigned. *)
Definition op_wf (op : RegistryOp) : Prop :=
  match op with
  | FundEscrow _ _ amount _ _ _ | OpenEscrow _ _ _ _ amount _ _ _ _ _ _ _ => 0 <= amount
  | _ => True
  end.

Lemma account_of_contrib accts a : balance (account_of accts a) = contrib balance accts a.
Proof. unfold account_of, contrib. by destruct (accts !! a). Qed.

Lemma credit_total accts a v :
  map_Forall (λ _ a, 0 <= balance a) accts → total balance accts + v <= U128_MAX →
  total balance (credit accts a v) = total balance accts + v.
Proof.
  intros Hnn Hb. unfold credit. rewrite total_insert, account_of_contrib. simpl.
  pose proof (contrib_le_total balance accts a Hnn). rewrite sat_add_exact by lia. lia.
Qed.

Lemma credit_nonneg accts a v :
  map_Forall (λ _ a, 0 <= balance a) accts → 0 <= v →
  map_Forall (λ _ a, 0 <= balance a) (credit accts a v).
Proof.
  intros Hnn Hv. unfold credit. apply map_Forall_insert_2; [|done]. simpl.
  assert (0 <= balance (account_of accts a)) as Hb.
  { unfold account_of. destruct (accts !! a) eqn:Ha; [by apply Hnn in Ha|done]. }
  pose proof (umax_pos 128 ltac:(lia)). unfold sat_add. lia.
Qed.

Lemma nonce_step_total accts a n :
  total balance (<[a := with_nonce (account_of accts a) n]> accts) = total balance accts.
Proof. rewrite total_insert, <- account_of_contrib. simpl. lia. Qed.

Lemma account_step_total accts a : total balance (<[a := account_of accts a]> accts) = total balance accts.
Proof. rewrite total_insert, <- account_of_contrib. lia. Qed.

Lemma nonce_step_nonneg accts a b :
  map_Forall (λ _ a, 0 <= balance a) accts → balance b = balance (account_of accts a) →
  map_Forall (λ _ a, 0 <= balance a) (<[a := b]> accts).
Proof.
  intros Hnn Hb. apply map_Forall_insert_2; [|done]. rewrite Hb. unfold account_of.
  destruct (accts !! a) eqn:Ha; [by apply Hnn in Ha|done].
Qed.

(** The value of the escrows after one of them changed its funds. *)
Lemma escrow_total st eid esc f status :
  escrows st !! eid = Some esc →
  total esc_funded (<[eid := with_funds esc f status]> (escrows st)) =
    total esc_funded (escrows st) - esc_funded esc + f.
Proof. intros He. rewrite total_insert, (contrib_Some _ _ _ _ He). done. Qed.

Definition conserves (st : RegistryState) (accts : Accounts) (o : outcome_t) : Prop :=
  reg_value o.2.1 o.2.2 = reg_value st accts ∧ amounts_ok o.2.1 o.2.2.

Lemma give_back_conserves st accts eid esc :
  amounts_ok st accts → reg_value st accts <= U128_MAX → escrows st !! eid = Some esc →
  conserves st accts (give_back st accts eid esc).
Proof.
  intros [Ha He] Hb Hl. pose proof (He _ _ Hl) as Hf. simpl in Hf.
  pose proof (contrib_le_total esc_funded (escrows st) eid He) as Hc.
  rewrite (contrib_Some _ _ _ _ Hl) in Hc.
  unfold conserves, give_back, reg_value in *. cbn [fst snd escrows].
  rewrite (escrow_total _ _ _ _ _ Hl). destruct (Z.ltb_spec 0 (esc_funded esc)).
  - rewrite credit_total by (done || lia). split; [lia|]. split; [by apply credit_nonneg|].
    by apply map_Forall_insert_2.
  - split; [lia|]. split; [done|]. by apply map_Forall_insert_2.
Qed.

Lemma apply_op_body_conserves st accts op ctx :
  op_wf op → amounts_ok st accts → reg_value st accts <= U128_MAX →
  conserves st accts (apply_op_body st accts op ctx).
Proof.
  intros Hop Hok Hb. assert (conserves st accts (Ok (), (st, accts))) as Hid by done.
  destruct Hok as [Ha He].
  destruct op as [pk ow cl de se n c sg|pk tid to me n c sg|pk bu sel ar am ti me se ti' n c sg
    |pk eid am n c sg|pk eid n c sg|pk eid n c sg|pk eid n c sg]; simpl.
  - unfold issue_title. destruct (bool_decide _); done.
  - unfold transfer_title. destruct (titles st !! tid); [|done]. by repeat destruct (bool_decide _).
  - unfold open_escrow. destruct (am =? 0); [done|]. destruct (open_title_check _ _ _); [|done].
    case_bool_decide as Hn; [done|]. apply eq_None_not_Some in Hn.
    split; unfold reg_value; cbn [fst snd escrows].
    + rewrite total_insert_None by done. simpl. lia.
    + split; [done|]. by apply map_Forall_insert_2.
  - unfold fund_escrow. destruct (escrows st !! eid) as [esc|] eqn:Hl; [|done].
    destruct (negb _); [done|]. destruct (negb _ && negb _); [done|].
    destruct (accts !! _) as [acct|] eqn:Hacct; [|done].
    destruct (balance acct <? am) eqn:Hbal; [done|]. zbool. simpl in Hop.
    pose proof (He _ _ Hl) as Hf. simpl in Hf.
    pose proof (contrib_le_total esc_funded (escrows st) eid He) as Hc1.
    pose proof (contrib_le_total balance accts (signer_address (FundEscrow pk eid am n c sg)) Ha) as Hc2.
    rewrite (contrib_Some _ _ _ _ Hl) in Hc1. rewrite (contrib_Some _ _ _ _ Hacct) in Hc2.
    unfold reg_value in Hb.
    rewrite sat_add_exact by lia.
    split; unfold reg_value; cbn [fst snd escrows].
    + rewrite (escrow_total _ _ _ _ _ Hl), total_insert, (contrib_Some _ _ _ _ Hacct). simpl. lia.
    + split; (apply map_Forall_insert_2; [simpl; lia|done]).
  - unfold release_escrow. destruct (escrows st !! eid) as [esc|] eqn:Hl; [|done].
    destruct (negb _); [done|]. destruct (negb _); [done|].
    pose proof (He _ _ Hl) as Hf. simpl in Hf.
    pose proof (contrib_le_total esc_funded (escrows st) eid He) as Hc.
    rewrite (contrib_Some _ _ _ _ Hl) in Hc. unfold reg_value in Hb.
    split; unfold reg_value; cbn [fst snd escrows].
    + rewrite (escrow_total _ _ _ _ _ Hl), credit_total by (done || lia). lia.
    + split; [by apply credit_nonneg|]. by apply map_Forall_insert_2.
  - unfold refund_escrow. destruct (escrows st !! eid) as [esc|] eqn:Hl; [|done].
    destruct (negb _); [done|]. destruct (_ || _); [done|]. by apply give_back_conserves.
  - unfold timeout_claim_escrow. destruct (escrows st !! eid) as [esc|] eqn:Hl; [|done].
    destruct (negb _); [done|]. destruct (negb _); [done|]. destruct (_ =? 0); [done|].
    destruct (_ <? _); [done|]. by apply give_back_conserves.
Qed.

Lemma apply_op_conserves_aux st accts op ctx :
  op_wf op → amounts_ok st accts → reg_value st accts <= U128_MAX →
  conserves st accts (apply_op st accts op ctx).
Proof.
  intros Hop [Ha He] Hb. unfold apply_op. destruct (negb (op_verify op)); [done|].
  destruct (negb _).
  - split; unfold reg_value; cbn [fst snd]; [by rewrite account_step_total|].
    split; [by apply nonce_step_nonneg|done].
  - set (accts1 := <[_ := with_nonce _ _]> accts).
    assert (reg_value st accts1 = reg_value st accts) as Hv
      by (unfold reg_value, accts1; by rewrite nonce_step_total).
    destruct (apply_op_body_conserves st accts1 op ctx) as [Hval Hamt].
    + done.
    + split; [|done]. by apply nonce_step_nonneg.
    + lia.
    + split; [by rewrite Hval|done].
Qed.

(** C24. The registry conserves value: for every operation, accepted or refused,
    the balances of the accounts plus the funds held in escrow add up to the same
    amount before and after (as long as the total fits a [u128], nothing
    saturates), and no balance or escrow becomes negative. *)
Theorem registry_conserves_value st accts op ctx r st' accts' :
  op_wf op → amounts_ok st accts → reg_value st accts <= U128_MAX →
  apply_op st accts op ctx = (r, (st', accts')) →
  total balance accts' + total esc_funded (escrows st') =
    total balance accts + total esc_funded (escrows st) ∧ amounts_ok st' accts'.
Proof.
  intros Hop Hok Hb Ha. pose proof (apply_op_conserves_aux _ _ _ ctx Hop Hok Hb) as Hc.
  by rewrite Ha in Hc.
Qed.

(** ** Chain of title, locks and life cycle *)

(** The history starts with an issuance and each entry starts at the owner the
    previous one ended at. *)
Inductive chain_of_title : list TitleEvent → string → Prop :=
| chain_issue ev : ev_from ev = None → chain_of_title [ev] (ev_to ev)
| chain_next h owner ev :
    chain_of_title h owner → ev_from ev = Some owner → chain_of_title (h ++ [ev]) (ev_to ev).

Definition live_status (s : EscrowStatus) : Prop := s = StOpen ∨ s = StFunded.

Definition escrow_ok (e : EscrowAccount) : Prop :=
  0 <= esc_funded e <= U128_MAX ∧
  match esc_status e with
  | StOpen => esc_funded e < esc_amount e
  | StFunded => esc_amount e <= esc_funded e
  | StReleased | StRefunded => esc_funded e = 0
  | StDisputed => False
  end.

Definition deed_ok (d : TitleDeed) : Prop := chain_of_title (title_history d) (current_owner d).

Record registry_ok (st : RegistryState) : Prop := {
  (** a locked title is held by a live escrow of its owner *)
  ok_locked tid d eid :
    titles st !! tid = Some d → deed_escrow_id d = Some eid →
    ∃ e, escrows st !! eid = Some e ∧ esc_title_id e = Some tid ∧
         live_status (esc_status e) ∧ esc_seller e = current_owner d;
  (** a live escrow over a title locks it *)
  ok_locks eid e tid :
    escrows st !! eid = Some e → live_status (esc_status e) → esc_title_id e = Some tid →
    ∃ d, titles st !! tid = Some d ∧ deed_escrow_id d = Some eid;
  ok_escrows : map_Forall (λ _ e, escrow_ok e) (escrows st);
  ok_titles : map_Forall (λ _ d, deed_ok d) (titles st);
}.

Lemma registry_ok_default : registry_ok RegistryState_default.
Proof. split; try done; apply map_Forall_empty. Qed.

Lemma deed_ok_hand_over d to ctx event memo : deed_ok d → deed_ok (hand_over d to ctx event memo).
Proof.
  unfold deed_ok. simpl. intros Hd.
  exact (chain_next (title_history d) (current_owner d)
    {| ev_timestamp := ctx_timestamp ctx; ev_block_height := ctx_height ctx;
       ev_settlement_id := ctx_settlement ctx; ev_event := event;
       ev_from := Some (current_owner d); ev_to := to; ev_memo := memo |} Hd eq_refl).
Qed.

(** Replacing an unlocked deed (or adding a fresh one) by another unlocked deed. *)
Lemma registry_ok_set_unlocked st tid d' :
  registry_ok st →
  (titles st !! tid = None ∨ ∃ d, titles st !! tid = Some d ∧ deed_escrow_id d = None) →
  deed_escrow_id d' = None → deed_ok d' →
  registry_ok {| titles := <[tid := d']> (titles st); escrows := escrows st |}.
Proof.
  intros [Hl Hk He Ht] Hold Hnew Hdeed. split; simpl.
  - intros tid' d eid Hd Hesc. apply lookup_insert_Some in Hd as [[<- <-]|[_ Hd]]; [congruence|eauto].
  - intros eid e tid' Hesc Hst Htid. destruct (Hk _ _ _ Hesc Hst Htid) as (d & Hd & Hde).
    exists d. split; [|done]. rewrite lookup_insert_ne; [done|]. intros ->.
    destruct Hold as [Hn|(d0 & Hd0 & Hn)]; congruence.
  - done.
  - by apply map_Forall_insert_2.
Qed.

(** Closing an escrow and unlocking its title, if any. *)
Lemma registry_ok_close st eid esc esc' f :
  registry_ok st → escrows st !! eid = Some esc → live_status (esc_status esc) →
  ¬ live_status (esc_status esc') → escrow_ok esc' →
  (∀ d, deed_ok d → deed_escrow_id (f d) = None ∧ deed_ok (f d)) →
  registry_ok {| titles := update_title (titles st) (esc_title_id esc) f;
                 escrows := <[eid := esc']> (escrows st) |}.
Proof.
  intros [Hl Hk He Ht] Hesc Hlive Hdead Hok Hf. split; simpl.
  - intros tid d eid' Hd Hde.
    assert (∀ d0, titles st !! tid = Some d0 → deed_escrow_id d0 = Some eid' → eid' ≠ eid →
      ∃ e, <[eid := esc']> (escrows st) !! eid' = Some e ∧ esc_title_id e = Some tid ∧
           live_status (esc_status e) ∧ esc_seller e = current_owner d0) as Hkeep.
    { intros d0 Hd0 Hde0 Hne. rewrite lookup_insert_ne by done. eauto. }
    unfold update_title in Hd. destruct (esc_title_id esc) as [t|] eqn:Et.
    + destruct (Hk _ _ _ Hesc Hlive Et) as (dt & Hdt & Hdte). rewrite Hdt in Hd.
      apply lookup_insert_Some in Hd as [[<- <-]|[Hne Hd]].
      * destruct (Hf dt (Ht _ _ Hdt)). congruence.
      * apply (Hkeep d); [done..|]. intros ->.
        destruct (Hl _ _ _ Hd Hde) as (e & He' & Hte & _). congruence.
    + apply (Hkeep d); [done..|]. intros ->.
      destruct (Hl _ _ _ Hd Hde) as (e & He' & Hte & _). congruence.
  - intros eid' e tid He' Hst Htid.
    apply lookup_insert_Some in He' as [[<- <-]|[Hne He']]; [done|].
    destruct (Hk _ _ _ He' Hst Htid) as (d & Hd & Hde). exists d. split; [|done].
    unfold update_title. destruct (esc_title_id esc) as [t|] eqn:Et; [|done].
    destruct (Hk _ _ _ Hesc Hlive Et) as (dt & Hdt & Hdte). rewrite Hdt.
    rewrite lookup_insert_ne; [done|]. intros ->. congruence.
  - by apply map_Forall_insert_2.
  - unfold update_title. destruct (esc_title_id esc) as [t|]; [|done].
    destruct (titles st !! t) as [dt|] eqn:Hdt; [|done].
    apply map_Forall_insert_2; [|done]. exact (proj2 (Hf dt (Ht _ _ Hdt))).
Qed.

(** Changing the funds of a live escrow. *)
Lemma registry_ok_refund st eid esc f status :
  registry_ok st → escrows st !! eid = Some esc → live_status (esc_status esc) →
  live_status status → escrow_ok (with_funds esc f status) →
  registry_ok {| titles := titles st; escrows := <[eid := with_funds esc f status]> (escrows st) |}.
Proof.
  intros [Hl Hk He Ht] Hesc Hlive Hlive' Hok. split; simpl.
  - intros tid d eid' Hd Hde. destruct (Hl _ _ _ Hd Hde) as (e & He' & Hte & Hst & Hsel).
    destruct (decide (eid' = eid)) as [->|Hne].
    + rewrite lookup_insert_eq. eexists. split; [done|]. simpl. naive_solver.
    + rewrite lookup_insert_ne by done. eauto.
  - intros eid' e tid He' Hst Htid.
    apply lookup_insert_Some in He' as [[<- <-]|[Hne He']]; eauto.
  - by apply map_Forall_insert_2.
  - done.
Qed.

Lemma registry_ok_open st eid esc tid :
  registry_ok st → escrows st !! eid = None → live_status (esc_status esc) → escrow_ok esc →
  esc_title_id esc = tid → open_title_check st (esc_seller esc) tid = Ok () →
  registry_ok {| titles := update_title (titles st) tid (λ d, with_escrow d (Some eid));
                 escrows := <[eid := esc]> (escrows st) |}.
Proof.
  intros [Hl Hk He Ht] Hfresh Hlive Hok Htid Hcheck.
  assert (∀ t d eid', titles st !! t = Some d → deed_escrow_id d = Some eid' → eid' ≠ eid) as Hne.
  { intros t d eid' Hd Hde ->. destruct (Hl _ _ _ Hd Hde) as (e & He' & _). congruence. }
  destruct tid as [t|]; simpl in *.
  2: { split; simpl; [| |by apply map_Forall_insert_2|done].
    - intros t d eid' Hd Hde. rewrite lookup_insert_ne by (symmetry; by eapply Hne). eauto.
    - intros eid' e t He' Hst Hte. apply lookup_insert_Some in He' as [[<- <-]|[_ He']]; [congruence|eauto]. }
  destruct (titles st !! t) as [dt|] eqn:Hdt; [|done]. simpl in Hcheck.
  destruct (bool_decide_reflect (current_owner dt = esc_seller esc)) as [Hown|]; [|done]. simpl in Hcheck.
  destruct (bool_decide_reflect (is_Some (deed_escrow_id dt))) as [|Hnone]; [done|].
  apply eq_None_not_Some in Hnone. split; simpl.
  - intros t' d eid' Hd Hde. apply lookup_insert_Some in Hd as [[<- <-]|[Hnt Hd]].
    + simpl in Hde. injection Hde as <-. rewrite lookup_insert_eq. exists esc. naive_solver.
    + rewrite lookup_insert_ne by (symmetry; by eapply Hne). eauto.
  - intros eid' e t' He' Hst Hte. apply lookup_insert_Some in He' as [[<- <-]|[Hne' He']].
    + assert (t' = t) as -> by congruence. rewrite lookup_insert_eq. by eexists.
    + destruct (Hk _ _ _ He' Hst Hte) as (d & Hd & Hde). exists d. split; [|done].
      rewrite lookup_insert_ne; [done|]. intros ->. congruence.
  - by apply map_Forall_insert_2.
  - apply map_Forall_insert_2; [|done]. exact (Ht _ _ Hdt).
Qed.

Lemma apply_op_body_ok st accts op ctx :
  op_wf op → registry_ok st → registry_ok (apply_op_body st accts op ctx).2.1.
Proof.
  intros Hop Hst. pose proof Hst as [Hl Hk He Ht].
  destruct op as [pk ow cl de se n c sg|pk tid to me n c sg|pk bu sel ar am ti me se ti' n c sg
    |pk eid am n c sg|pk eid n c sg|pk eid n c sg|pk eid n c sg]; simpl in Hop |- *.
  - unfold issue_title. case_bool_decide as Hn; [done|]. apply eq_None_not_Some in Hn.
    apply registry_ok_set_unlocked; [done|by left|done|]. unfold deed_ok. simpl.
    exact (chain_issue {| ev_timestamp := ctx_timestamp ctx; ev_block_height := ctx_height ctx;
      ev_settlement_id := ctx_settlement ctx; ev_event := "issued"; ev_from := None; ev_to := ow;
      ev_memo := "original issuance" |} eq_refl).
  - unfold transfer_title. destruct (titles st !! tid) as [d|] eqn:Hd; [|done].
    destruct (negb _); [done|]. case_bool_decide as Hn; [done|]. apply eq_None_not_Some in Hn.
    apply registry_ok_set_unlocked; [done|eauto|done|]. apply deed_ok_hand_over. exact (Ht _ _ Hd).
  - unfold open_escrow. destruct (Z.eqb_spec am 0); [done|].
    destruct (open_title_check st sel ti) as [[]|] eqn:Hc; [|done].
    case_bool_decide as Hn; [done|]. apply eq_None_not_Some in Hn.
    apply registry_ok_open; simpl; [done|done|by left| |done|done]. unfold escrow_ok. cbn [esc_funded esc_status esc_amount].
    pose proof (umax_pos 128 ltac:(lia)). lia.
  - unfold fund_escrow. destruct (escrows st !! eid) as [esc|] eqn:Hesc; [|done].
    destruct (negb _); [done|].
    destruct (negb (bool_decide (esc_status esc = StOpen)) && _) eqn:Hs; [done|].
    destruct (accts !! _) as [acct|]; [|done]. destruct (balance acct <? am); [done|].
    assert (live_status (esc_status esc)) as Hlive.
    { apply andb_false_iff in Hs as [Hs|Hs]; zbool; [by left|by right]. }
    pose proof (He _ _ Hesc) as [Hnn Hf]. pose proof (umax_pos 128 ltac:(lia)).
    cbn [fst snd]. apply registry_ok_refund; [done..| |].
    + destruct (_ <=? _); [by right|done].
    + unfold escrow_ok. cbn [with_funds esc_funded esc_status esc_amount].
      destruct (Z.leb_spec (esc_amount esc) (sat_add 128 (esc_funded esc) am)) as [Hle|Hgt].
      * unfold sat_add in *. lia.
      * destruct Hlive as [Hs'|Hs']; rewrite Hs' in Hf |- *; unfold sat_add in *; lia.
  - unfold release_escrow. destruct (escrows st !! eid) as [esc|] eqn:Hesc; [|done].
    destruct (negb _); [done|]. case_bool_decide as Hs; [|done]. simpl.
    apply (registry_ok_close st eid esc); [done|done|by right| |by split|].
    + intros [?|?]; done.
    + intros d Hd. split; [done|]. by apply deed_ok_hand_over.
  - unfold refund_escrow. destruct (escrows st !! eid) as [esc|] eqn:Hesc; [|done].
    destruct (negb _) eqn:Hauth; [done|]. destruct (_ || _); [done|]. simpl.
    apply (registry_ok_close st eid esc); [done|done| | |by split|].
    + destruct (esc_status esc); try done; [by left|by right].
    + intros [?|?]; done.
    + intros d Hd. by split.
  - unfold timeout_claim_escrow. destruct (escrows st !! eid) as [esc|] eqn:Hesc; [|done].
    destruct (negb _); [done|]. case_bool_decide as Hs; [|done]. simpl.
    destruct (_ =? 0); [done|]. destruct (_ <? _); [done|]. simpl.
    apply (registry_ok_close st eid esc); [done|done|by right| |by split|].
    + intros [?|?]; done.
    + intros d Hd. by split.
Qed.

(** C25. The registry invariant is kept by every operation, accepted or refused: a
    title is locked exactly by the live escrow that references it, whose seller
    owns it; every chain of title starts at an issuance and links each owner to
    the next up to the current one; an escrow is funded exactly when its status
    says so and empty once closed; the dispute status is unreachable. *)
Theorem registry_invariant_preserved st accts op ctx r st' accts' :
  op_wf op → registry_ok st → apply_op st accts op ctx = (r, (st', accts')) → registry_ok st'.
Proof.
  intros Hop Hst. unfold apply_op. destruct (negb (op_verify op)); [by intros [= _ <- _]|].
  destruct (negb _); [by intros [= _ <- _]|].
  set (accts1 := <[_ := _]> accts). intros Ha.
  pose proof (apply_op_body_ok st accts1 op ctx Hop Hst) as Hok. by rewrite Ha in Hok.
Qed.

(** Who may take how much out of an escrow. *)
Definition may_withdraw (op : RegistryOp) (eid : Hash) (e : EscrowAccount) (blue : Z) : Prop :=
  op_verify op = true ∧
  match op with
  | ReleaseEscrow _ i _ _ _ => i = eid ∧ signer_address op = esc_buyer e ∧ esc_status e = StFunded
  | RefundEscrow _ i _ _ _ => i = eid ∧
      ((esc_status e = StOpen ∧ signer_address op = esc_buyer e) ∨
       (esc_status e = StFunded ∧ signer_address op = esc_seller e))
  | TimeoutClaimEscrow _ i _ _ _ => i = eid ∧ signer_address op = esc_buyer e ∧
      esc_status e = StFunded ∧ 0 ≠ esc_timeout_blue e ∧ esc_timeout_blue e <= blue
  | _ => False
  end.

(** The parties and terms of an escrow: all of it but the funds and the status. *)
Definition escrow_terms (e : EscrowAccount) : Hash * string * string * option string * Z * option Hash * Z * string * Z :=
  (esc_id e, esc_buyer e, esc_seller e, esc_arbiter e, esc_amount e, esc_title_id e, esc_opened_at e, esc_memo e, esc_timeout_blue e).

(** What every operation leaves of an escrow. *)
Definition escrow_kept (op : RegistryOp) (blue : Z) (eid : Hash) (e : EscrowAccount) (m : gmap Hash EscrowAccount) : Prop :=
  ∃ e', m !! eid = Some e' ∧ escrow_terms e' = escrow_terms e ∧
    (esc_funded e' < esc_funded e → may_withdraw op eid e blue).
Lemma escrow_kept_same op blue eid e m : m !! eid = Some e → escrow_kept op blue eid e m.
Proof. intros Hm. exists e. split_and!; try done. lia. Qed.
(** An insertion either is of another escrow or replaces ours. *)
Lemma escrow_kept_set op blue eid e m i e1 f s :
  m !! eid = Some e → m !! i = Some e1 → (i = eid → e1 = e → f < esc_funded e → may_withdraw op eid e blue) →
  escrow_kept op blue eid e (<[i := with_funds e1 f s]> m).
Proof.
  intros Hm Hi Hmw. unfold escrow_kept. destruct (decide (i = eid)) as [->|Hne].
  - rewrite lookup_insert_eq. assert (e1 = e) as -> by congruence. eexists. split; [done|]. simpl. auto.
  - rewrite lookup_insert_ne by done. by apply escrow_kept_same.
Qed.

(** C26. Escrowed funds move only by right: for every operation with unsigned amounts on a
    registry that satisfies its invariant, accepted or refused, an operation that reduces an
    escrow's funds is a verified release by the buyer of a funded escrow, a refund signed
    by the buyer (while open) or the seller (once funded), or a timeout claim by
    the buyer at or after the agreed blue score, so being the arbiter gives no right to move
    funds; nothing of an escrow but its funds and its status ever changes (id, buyer, seller,
    arbiter, amount, title, opening time, memo and timeout stay), and no escrow disappears. *)
Theorem escrow_withdrawals_authorised st accts op ctx r st' accts' eid e :
  op_wf op → registry_ok st →
  apply_op st accts op ctx = (r, (st', accts')) → escrows st !! eid = Some e →
  ∃ e', escrows st' !! eid = Some e' ∧
    escrow_terms e' = escrow_terms e ∧ (esc_funded e' < esc_funded e → may_withdraw op eid e (ctx_blue ctx)).
Proof.
  intros Hop [_ _ Hfunds _] Ha Hesc. change (escrow_kept op (ctx_blue ctx) eid e (escrows st')). unfold apply_op in Ha.
  pose proof (escrow_kept_same op (ctx_blue ctx) eid e _ Hesc) as Hsame.
  destruct (op_verify op) eqn:Hv; [|by injection Ha as _ <- _]. simpl in Ha. destruct (negb _); [by injection Ha as _ <- _|].
  set (accts1 := <[_ := _]> accts) in Ha.
  destruct op as [pk ow cl de se n c sg|pk tid to me n c sg|pk bu sel ar am ti me se ti' n c sg
    |pk i am n c sg|pk i n c sg|pk i n c sg|pk i n c sg]; simpl in Ha, Hop.
  - unfold issue_title in Ha. destruct (bool_decide _); by injection Ha as _ <- _.
  - unfold transfer_title in Ha. destruct (titles st !! tid); [|by injection Ha as _ <- _].
    destruct (negb _); [by injection Ha as _ <- _|]. destruct (bool_decide _); by injection Ha as _ <- _.
  - unfold open_escrow in Ha. destruct (am =? 0); [by injection Ha as _ <- _|].
    destruct (open_title_check _ _ _); [|by injection Ha as _ <- _]. case_bool_decide as Hn; injection Ha as _ <- _; [done|].
    cbn [escrows]. unfold escrow_kept. rewrite lookup_insert_ne; [done|]. intros Heq. apply Hn. rewrite Heq. eauto.
  - unfold fund_escrow in Ha. destruct (escrows st !! i) as [e1|] eqn:He1; [|by injection Ha as _ <- _].
    destruct (negb _); [by injection Ha as _ <- _|]. destruct (negb _ && negb _); [by injection Ha as _ <- _|].
    destruct (accts1 !! _) as [acct|]; [|by injection Ha as _ <- _].
    destruct (balance acct <? am); [by injection Ha as _ <- _|]. injection Ha as _ <- _.
    apply escrow_kept_set; [done..|]. intros -> ->. pose proof (Hfunds _ _ Hesc) as [Hb _]. unfold sat_add. lia.
  - unfold release_escrow in Ha. destruct (escrows st !! i) as [e1|] eqn:He1; [|by injection Ha as _ <- _].
    case_bool_decide as Hsig; [|by injection Ha as _ <- _]. simpl in Ha.
    case_bool_decide as Hst; [|by injection Ha as _ <- _]. injection Ha as _ <- _.
    apply escrow_kept_set; [done..|]. by intros -> -> _.
  - unfold refund_escrow in Ha. destruct (escrows st !! i) as [e1|] eqn:He1; [|by injection Ha as _ <- _].
    destruct (negb _) eqn:Hauth in Ha; [by injection Ha as _ <- _|]. destruct (_ || _) in Ha; [by injection Ha as _ <- _|].
    injection Ha as _ <- _. apply escrow_kept_set; [done..|]. intros -> -> _.
    split; [done|]. split; [done|]. destruct (esc_status e); zbool; try done; auto.
  - unfold timeout_claim_escrow in Ha. destruct (escrows st !! i) as [e1|] eqn:He1; [|by injection Ha as _ <- _].
    case_bool_decide as Hsig; [|by injection Ha as _ <- _]. simpl in Ha.
    case_bool_decide as Hst; [|by injection Ha as _ <- _]. simpl in Ha.
    destruct (Z.eqb_spec (esc_timeout_blue e1) 0); [by injection Ha as _ <- _|].
    destruct (Z.ltb_spec (ctx_blue ctx) (esc_timeout_blue e1)); [by injection Ha as _ <- _|].
    injection Ha as _ <- _. apply escrow_kept_set; [done..|]. intros -> -> _. split; [done|]. split_and!; [done..|lia|lia].
Qed.

(** A refused operation is not a no-op: once the signature and the nonce are
    good, an operation the registry then refuses (here: a release of an unknown
    escrow) still creates the signer's account and consumes its nonce. *)
Theorem refused_op_consumes_nonce st accts op pk eid n c sg ctx :
  op = ReleaseEscrow pk eid n c sg → op_verify op = true → escrows st !! eid = None →
  n = nonce (account_of accts (signer_address op)) →
  apply_op st accts op ctx =
    (Err "Escrow not found",
     (st, <[signer_address op := with_nonce (account_of accts (signer_address op)) (sat_add 64 n 1)]> accts)).
Proof.
  intros -> Hv Hn Hnonce. unfold apply_op. rewrite Hv. simpl op_nonce. rewrite <- Hnonce, Z.eqb_refl.
  simpl. unfold release_escrow. by rewrite Hn.
Qed.
End registry.

(** ** Concrete runs *)
Module RegistryExample.
Import Toy.
Definition alice_pk : bytes := [1; 2].
Definition alice : string := hash_to_address alice_pk.
Definition bob : string := hash_to_address [3; 4].
Definition toy_sig (msg : bytes) : bytes :=
  le_bytes 4 (mix (alice_pk ++ digest512 (str_bytes "registry-op") msg)).
Definition ctx : OpContext := {| ctx_timestamp := 5; ctx_height := 1; ctx_settlement := ""; ctx_blue := 9 |}.

Definition esc0 : EscrowAccount :=
  {| esc_id := 7; esc_buyer := alice; esc_seller := bob; esc_arbiter := None; esc_amount := 500;
     esc_funded := 0; esc_status := StOpen; esc_title_id := None; esc_opened_at := 1; esc_memo := "";
     esc_timeout_blue := 0 |}.
Definition opened : RegistryState := {| titles := ∅; escrows := {[ 7 := esc0 ]} |}.
Definition funded : RegistryState :=
  {| titles := ∅; escrows := <[7 := with_funds esc0 500 StFunded]> {[ 7 := esc0 ]} |}.
Definition rich : Accounts := {[ alice := with_balance Account_default 1000 ]}.

Definition fund_op : RegistryOp :=
  FundEscrow alice_pk 7 500 0 1 (toy_sig (op_signing_bytes (FundEscrow alice_pk 7 500 0 1 []))).
Definition release_op (eid : Hash) : RegistryOp :=
  ReleaseEscrow alice_pk eid 0 1 (toy_sig (op_signing_bytes (ReleaseEscrow alice_pk eid 0 1 []))).

Lemma opened_ok : registry_ok opened.
Proof.
  apply (registry_ok_open RegistryState_default 7 esc0 None registry_ok_default); try done.
  by left.
Qed.

Lemma funded_ok : registry_ok funded.
Proof.
  apply (registry_ok_refund opened 7 esc0 500 StFunded opened_ok); try done; [by left|by right].
Qed.

Lemma opened_amounts : amounts_ok opened rich.
Proof. split; by apply map_Forall_singleton. Qed.
End RegistryExample.

Lemma registry_conserves_value_witness :
  let '(r, (st', accts')) :=
    @apply_op Toy.toy_crypto RegistryExample.opened RegistryExample.rich RegistryExample.fund_op
      RegistryExample.ctx in
  r = Ok () ∧ total balance accts' + total esc_funded (escrows st') = 1000.
Proof.
  destruct (@apply_op Toy.toy_crypto RegistryExample.opened RegistryExample.rich RegistryExample.fund_op
    RegistryExample.ctx) as [r [st' accts']] eqn:Ha.
  split.
  - assert ((@apply_op Toy.toy_crypto RegistryExample.opened RegistryExample.rich
      RegistryExample.fund_op RegistryExample.ctx).1 = Ok ()) as Hok by (vm_compute; reflexivity).
    rewrite Ha in Hok. exact Hok.
  - assert (reg_value RegistryExample.opened RegistryExample.rich <= U128_MAX) as Hval
      by (vm_compute; discriminate).
    assert (op_wf RegistryExample.fund_op) as Hwf by (vm_compute; discriminate).
    destruct (@registry_conserves_value Toy.toy_crypto RegistryExample.opened RegistryExample.rich
      RegistryExample.fund_op RegistryExample.ctx r st' accts' Hwf RegistryExample.opened_amounts
      Hval Ha) as [Hsum _].
    rewrite Hsum. vm_compute. reflexivity.
Defined.

Lemma registry_invariant_preserved_witness :
  registry_ok (@apply_op Toy.toy_crypto RegistryExample.opened RegistryExample.rich
    RegistryExample.fund_op RegistryExample.ctx).2.1.
Proof.
  destruct (@apply_op Toy.toy_crypto RegistryExample.opened RegistryExample.rich RegistryExample.fund_op
    RegistryExample.ctx) as [r [st' accts']] eqn:Ha.
  assert (op_wf RegistryExample.fund_op) as Hwf by (vm_compute; discriminate).
  exact (@registry_invariant_preserved Toy.toy_crypto RegistryExample.opened RegistryExample.rich
    RegistryExample.fund_op RegistryExample.ctx r st' accts' Hwf RegistryExample.opened_ok Ha).
Defined.

Lemma escrow_withdrawals_authorised_witness :
  ∃ e', escrows (@apply_op Toy.toy_crypto RegistryExample.funded RegistryExample.rich
          (RegistryExample.release_op 7) RegistryExample.ctx).2.1 !! 7 = Some e' ∧
    escrow_terms e' = escrow_terms RegistryExample.esc0 ∧ esc_funded e' < 500 ∧
    @may_withdraw Toy.toy_crypto (RegistryExample.release_op 7) 7 (with_funds RegistryExample.esc0 500 StFunded) 9.
Proof.
  assert (esc_funded <$> escrows (@apply_op Toy.toy_crypto RegistryExample.funded RegistryExample.rich
    (RegistryExample.release_op 7) RegistryExample.ctx).2.1 !! 7 = Some 0) as Hz by (vm_compute; reflexivity).
  destruct (@apply_op Toy.toy_crypto RegistryExample.funded RegistryExample.rich
    (RegistryExample.release_op 7) RegistryExample.ctx) as [r [st' accts']] eqn:Ha.
  destruct (@escrow_withdrawals_authorised Toy.toy_crypto RegistryExample.funded RegistryExample.rich
    (RegistryExample.release_op 7) RegistryExample.ctx r st' accts' 7
    (with_funds RegistryExample.esc0 500 StFunded) I RegistryExample.funded_ok Ha
    ltac:(apply lookup_insert_eq)) as (e' & He' & Hterms & Hmay).
  cbn [fst snd] in *. rewrite He' in Hz. injection Hz as Hz. assert (esc_funded e' < 500) as Hlt by lia.
  exists e'. exact (conj He' (conj Hterms (conj Hlt (Hmay Hlt)))).
Defined.

Lemma refused_op_consumes_nonce_witness :
  (@apply_op Toy.toy_crypto RegistryState_default ∅ (RegistryExample.release_op 8) RegistryExample.ctx).1 =
    Err "Escrow not found".
Proof.
  rewrite (@refused_op_consumes_nonce Toy.toy_crypto RegistryState_default ∅ (RegistryExample.release_op 8)
    RegistryExample.alice_pk 8 0 1
    (RegistryExample.toy_sig (op_signing_bytes (ReleaseEscrow RegistryExample.alice_pk 8 0 1 [])))
    RegistryExample.ctx eq_refl ltac:(vm_compute; reflexivity) eq_refl ltac:(vm_compute; reflexivity)).
  reflexivity.
Defined.
