(* ===== verification/Custody.v ===== *)
(** * Custody certificates

    [src/src/custody.rs] with the birth certificate of [src/src/issuance.rs] and
    the optional second signature of [src/src/dual_sig.rs].  A certificate is
    accepted only with the owner's signature, a matching settlement id and a
    birth certificate of its anchor; a lock/unlock or exit/entry pair only when
    the two agree. *)

From S2P Require Import Prelude Genesis Crypto Address.

Inductive CustodyKind := StakeLock | StakeUnlock | BridgeExit | BridgeEnter.
#[global] Instance custody_kind_eq_dec : EqDecision CustodyKind.
Proof. solve_decision. Defined.

(** [DualSignature]. *)
Record DualSignature := { ds_scheme : string; ds_public_key_hex : string; ds_signature_hex : string }.

(** The [fips205] crate (SLH-DSA): sizes, key parsing and verification under a
    context string. *)
Class DualCrypto := {
  SLH_PK_LEN : nat;
  SLH_SIG_LEN : nat;
  slh_pk_parses : bytes → bool;
  slh_verify : bytes → bytes → bytes → bytes → bool;
}.

Record CustodyCertificate := {
  cc_kind : CustodyKind;
  cc_block_hash : Hash;
  cc_settlement_id : string;
  cc_birth_certificate : bytes;
  cc_issuer_pubkey : bytes;
  cc_foreign_chain_id : Z;
  cc_amount : Z;
  cc_title_id : option Hash;
  cc_owner : string;
  cc_nonce : Z;
  cc_chain_id : Z;
  cc_signature : bytes;
  cc_from_pubkey : bytes;
  cc_dual_signature : option DualSignature;
}.

Definition kind_tag (k : CustodyKind) : string :=
  match k with
  | StakeLock => "stake-lock" | StakeUnlock => "stake-unlock"
  | BridgeExit => "bridge-exit" | BridgeEnter => "bridge-enter"
  end.

(** [CustodyCertificate::message_bytes]. *)
Definition message_bytes (c : CustodyCertificate) : bytes :=
  str_bytes "hassan-custody-v1" ++ hash_bytes (cc_block_hash c) ++ str_bytes (cc_settlement_id c) ++
  cc_birth_certificate c ++ le_bytes 8 (cc_foreign_chain_id c) ++ le_bytes 16 (cc_amount c) ++
  from_option hash_bytes [] (cc_title_id c) ++ str_bytes (cc_owner c) ++ le_bytes 8 (cc_nonce c) ++
  le_bytes 8 (cc_chain_id c) ++ str_bytes (kind_tag (cc_kind c)).

Section custody.
Context `{!Crypto, !DualCrypto}.

(** [BirthCertificate::verify]. *)
Definition birth_verify (signature settlement_id issuer_pubkey : bytes) : bool :=
  if negb (len issuer_pubkey =? PQ_PUBLIC_KEY_SIZE) then false else
  verify_pq512 (str_bytes "birth-certificate") settlement_id issuer_pubkey signature.

(** [dual_sig::verify]. *)
Definition dual_verify (domain message public_key signature : bytes) : bool :=
  if negb (len public_key =? Z.of_nat SLH_PK_LEN) || negb (len signature =? Z.of_nat SLH_SIG_LEN)
  then false else
  if negb (slh_pk_parses public_key) then false else
  slh_verify public_key (digest512 domain message) signature (str_bytes "hassan-dual-sig-v1").

(** [DualSignature::verify]. *)
Definition dual_signature_verify (d : DualSignature) (domain message : bytes) : bool :=
  match hex_decode (ds_public_key_hex d), hex_decode (ds_signature_hex d) with
  | Some pk, Some sig => dual_verify domain message pk sig
  | _, _ => false
  end.

(** [CustodyCertificate::verify]. *)
Definition custody_verify (c : CustodyCertificate) (settlement_id_bytes : bytes) : result unit :=
  fail_if negb (len (cc_from_pubkey c) =? PQ_PUBLIC_KEY_SIZE) as "Invalid custody signer key";
  fail_if negb (address_matches_pubkey (cc_owner c) (cc_from_pubkey c))
    as "Custody owner does not match signer";
  fail_if negb (verify_pq512 (str_bytes "custody") (message_bytes c) (cc_from_pubkey c) (cc_signature c))
    as "Invalid custody signature";
  fail_if match cc_dual_signature c with
          | Some dual => negb (dual_signature_verify dual (str_bytes "custody") (message_bytes c))
          | None => false
          end
    as "Invalid secondary (SLH-DSA) custody signature";
  fail_if negb (bool_decide (hex_encode settlement_id_bytes = cc_settlement_id c))
    as "Settlement ID mismatch on custody certificate";
  fail_if negb (birth_verify (cc_birth_certificate c) settlement_id_bytes (cc_issuer_pubkey c))
    as "Birth Certificate failed on custody anchor — block not authentic";
  Ok ().

(** A 64-byte settlement id from its hex text; the texts of the [hex] crate's own
    errors are that crate's. *)
Definition parse_settlement_id (hex_err bad : string) (s : string) : result bytes :=
  bs ← ok_or (hex_decode s) hex_err;
  fail_if negb (len bs =? HASH_SIZE) as bad;
  Ok bs.

Definition pair_kinds_ok (a b : CustodyKind) : bool :=
  match a, b with
  | BridgeExit, BridgeEnter | StakeLock, StakeUnlock => true
  | _, _ => false
  end.

(** [verify_round_trip]; [hex_err] is the text of a [hex] crate error. *)
Definition verify_round_trip (hex_err : string) (exit_or_lock enter_or_unlock : CustodyCertificate)
    : result unit :=
  fail_if negb (pair_kinds_ok (cc_kind exit_or_lock) (cc_kind enter_or_unlock))
    as "Custody pair kinds do not form an exit→entry or lock→unlock";
  fail_if negb (bool_decide (cc_owner exit_or_lock = cc_owner enter_or_unlock))
    as "Custody round-trip owner mismatch";
  fail_if negb (cc_amount exit_or_lock =? cc_amount enter_or_unlock)
    as "Custody round-trip amount mismatch";
  fail_if negb (bool_decide (cc_title_id exit_or_lock = cc_title_id enter_or_unlock))
    as "Custody round-trip title mismatch";
  fail_if bool_decide (cc_kind exit_or_lock = BridgeExit) &&
          negb (cc_foreign_chain_id exit_or_lock =? cc_foreign_chain_id enter_or_unlock)
    as "Bridge enter must cite the same foreign chain as exit";
  exit_sid ← parse_settlement_id hex_err "bad exit settlement id" (cc_settlement_id exit_or_lock);
  enter_sid ← parse_settlement_id hex_err "bad enter settlement id" (cc_settlement_id enter_or_unlock);
  _ ← custody_verify exit_or_lock exit_sid;
  _ ← custody_verify enter_or_unlock enter_sid;
  Ok ().

(** What an accepted certificate establishes. *)
Definition certificate_authentic (c : CustodyCertificate) (sid : bytes) : Prop :=
  address_matches_pubkey (cc_owner c) (cc_from_pubkey c) = true ∧
  verify_pq512 (str_bytes "custody") (message_bytes c) (cc_from_pubkey c) (cc_signature c) = true ∧
  hex_encode sid = cc_settlement_id c ∧
  verify_pq512 (str_bytes "birth-certificate") sid (cc_issuer_pubkey c) (cc_birth_certificate c) = true.

Lemma custody_verify_authentic c sid : custody_verify c sid = Ok () → certificate_authentic c sid.
Proof.
  unfold custody_verify, birth_verify. intros Hv.
  destruct (negb (len (cc_from_pubkey c) =? _)); [done|].
  destruct (address_matches_pubkey _ _) eqn:Haddr; [|done]. simpl in Hv.
  destruct (verify_pq512 (str_bytes "custody") _ _ _) eqn:Hsig; [|done]. simpl in Hv.
  destruct (match cc_dual_signature c with Some _ => _ | None => _ end); [done|].
  destruct (bool_decide_reflect (hex_encode sid = cc_settlement_id c)); [|done]. simpl in Hv.
  destruct (negb (len (cc_issuer_pubkey c) =? _)); [done|].
  destruct (verify_pq512 (str_bytes "birth-certificate") _ _ _) eqn:Hb; [|done].
  by split_and!.
Qed.

Lemma verify_round_trip_spec e a b :
  verify_round_trip e a b = Ok () →
  pair_kinds_ok (cc_kind a) (cc_kind b) = true ∧ cc_owner a = cc_owner b ∧
  cc_amount a = cc_amount b ∧ cc_title_id a = cc_title_id b ∧
  (cc_kind a = BridgeExit → cc_foreign_chain_id a = cc_foreign_chain_id b) ∧
  ∃ sa sb, certificate_authentic a sa ∧ certificate_authentic b sb ∧
           len sa = HASH_SIZE ∧ len sb = HASH_SIZE.
Proof.
  unfold verify_round_trip, parse_settlement_id. intros Hv.
  destruct (pair_kinds_ok _ _); [|done]. simpl in Hv.
  destruct (bool_decide_reflect (cc_owner a = cc_owner b)); [|done]. simpl in Hv.
  destruct (Z.eqb_spec (cc_amount a) (cc_amount b)); [|done]. simpl in Hv.
  destruct (bool_decide_reflect (cc_title_id a = cc_title_id b)); [|done]. simpl in Hv.
  destruct (bool_decide (cc_kind a = BridgeExit) && _) eqn:Hf; [done|].
  destruct (hex_decode (cc_settlement_id a)) as [sa|]; [|done]. simpl in Hv.
  destruct (Z.eqb_spec (len sa) HASH_SIZE); [|done]. simpl in Hv.
  destruct (hex_decode (cc_settlement_id b)) as [sb|]; [|done]. simpl in Hv.
  destruct (Z.eqb_spec (len sb) HASH_SIZE); [|done]. simpl in Hv.
  destruct (custody_verify a sa) as [[]|] eqn:Ha; [|done]. simpl in Hv.
  destruct (custody_verify b sb) as [[]|] eqn:Hb; [|done].
  split_and!; [done..| |].
  - intros Hk. rewrite bool_decide_eq_true_2 in Hf by done. simpl in Hf. by zbool.
  - exists sa, sb. split_and!; [by apply custody_verify_authentic..|done|done].
Qed.
End custody.
