(* ===== verification/Block.v ===== *)
(** * Blocks and account transfers

    The [Block] and [TransparentTx] types of [src/src/lib.rs], the block identity
    (hash, settlement id, birth certificate, coinbase id) of
    [src/src/issuance.rs] and [src/src/utxo.rs], and the body commitment. *)

From S2P Require Import Prelude Genesis Crypto Address Predicate Utxo UtxoTx Registry Custody.

(** ** Account transfers *)
Record TransparentTx := {
  tt_from : string;
  tt_from_pubkey : bytes;
  tt_to : string;
  tt_amount : Z;
  tt_fee : Z;
  tt_nonce : Z;
  tt_chain_id : Z;
  tt_lock_blue_score : Z;
  tt_relative_lock_blues : Z;
  tt_hashlock : option Hash;
  tt_hashlock_preimage : bytes;
  tt_signature : bytes;
}.

Record Block := {
  blk_height : Z;
  blk_timestamp : Z;
  blk_parents : list Hash;
  blk_interlinks : list Hash;
  blk_transparent_txs : list TransparentTx;
  blk_utxo_txs : list UtxoTx;
  blk_registry_ops : list RegistryOp;
  blk_custody_ops : list CustodyCertificate;
  blk_merkle_root : Hash;
  blk_state_root : Hash;
  blk_miner : Hash;
  blk_creator_pubkey : bytes;
  blk_nonce : Z;
  blk_difficulty : Z;
  blk_version : Z;
  blk_coinbase_entropy : Z;
  blk_stark_proof : bytes;
  blk_birth_certificate : bytes;
  blk_size : Z;
}.

(** [bincode] of the remaining body parts. *)
Class BodyCodec := {
  body_utxo_codec :: UtxoCodec;
  ser_transparent_len : TransparentTx → option Z;
  ser_registry_op : RegistryOp → option bytes;
  ser_custody : CustodyCertificate → option bytes;
}.

Definition GENESIS_DOMAIN : bytes := str_bytes "hassan-genesis-v31".

Section block.
Context `{!Crypto, !DualCrypto, !BodyCodec}.

Definition tt_with_signature (tx : TransparentTx) (s : bytes) : TransparentTx :=
  {| tt_from := tt_from tx; tt_from_pubkey := tt_from_pubkey tx; tt_to := tt_to tx;
     tt_amount := tt_amount tx; tt_fee := tt_fee tx; tt_nonce := tt_nonce tx;
     tt_chain_id := tt_chain_id tx; tt_lock_blue_score := tt_lock_blue_score tx;
     tt_relative_lock_blues := tt_relative_lock_blues tx; tt_hashlock := tt_hashlock tx;
     tt_hashlock_preimage := tt_hashlock_preimage tx; tt_signature := s |}.

(** [TransparentTx::relay_bytes], [min_relay_fee_for_bytes], [min_fee_required]. *)
Definition tt_relay_bytes (tx : TransparentTx) : Z :=
  let priced := if negb (len (tt_signature tx) =? PQ_SIGNATURE_SIZE)
                then tt_with_signature tx (replicate SIG_LEN 0) else tx in
  default (sat_add 64 (sat_add 64 PQ_PUBLIC_KEY_SIZE PQ_SIGNATURE_SIZE) 512) (ser_transparent_len priced).
Definition min_relay_fee_for_bytes (nbytes : Z) : Z :=
  Z.max (sat_mul 128 nbytes MIN_FEE_PER_BYTE) MIN_TX_FEE.
Definition tt_min_fee_required (tx : TransparentTx) : Z := min_relay_fee_for_bytes (tt_relay_bytes tx).

(** [TransparentTx::validate_form]. *)
Definition tt_validate_form (tx : TransparentTx) : result unit :=
  fail_if negb (is_valid_address (tt_from tx)) as "Invalid from address";
  fail_if negb (is_valid_address (tt_to tx)) as "Invalid to address";
  fail_if tt_amount tx =? 0 as "Amount must be > 0";
  fail_if tt_amount tx <? DUST_THRESHOLD
    as ("Amount below dust threshold (" +:+ pretty DUST_THRESHOLD +:+ " base units)");
  let need := tt_min_fee_required tx in
  fail_if tt_fee tx <? need
    as ("Fee must be ≥ " +:+ pretty need +:+ " (size " +:+ pretty (tt_relay_bytes tx) +:+ " B × " +:+
        pretty MIN_FEE_PER_BYTE +:+ "/B, floor " +:+ pretty MIN_TX_FEE +:+ ")");
  fail_if bool_decide (checked_add 128 (tt_amount tx) (tt_fee tx) = None) as "amount+fee overflow";
  fail_if negb (len (tt_from_pubkey tx) =? PQ_PUBLIC_KEY_SIZE) as "Invalid from_pubkey length";
  fail_if negb (len (tt_signature tx) =? PQ_SIGNATURE_SIZE) && negb (len (tt_signature tx) =? 0)
    as "Invalid signature length";
  Ok ().

(** [TransparentTx::signing_bytes], [verify], [tx_hash]. *)
Definition tt_signing_bytes (tx : TransparentTx) : bytes :=
  str_bytes (tt_from tx) ++ str_bytes (tt_to tx) ++ le_bytes 16 (tt_amount tx) ++
  le_bytes 16 (tt_fee tx) ++ le_bytes 8 (tt_nonce tx) ++ le_bytes 8 (tt_chain_id tx) ++
  le_bytes 8 (tt_lock_blue_score tx) ++ le_bytes 4 (tt_relative_lock_blues tx) ++
  match tt_hashlock tx with Some h => 1 :: hash_bytes h | None => [0] end.
Definition tt_verify (tx : TransparentTx) : bool :=
  if negb (address_matches_pubkey (tt_from tx) (tt_from_pubkey tx)) then false else
  verify_pq512 (str_bytes "transparent-tx") (tt_signing_bytes tx) (tt_from_pubkey tx) (tt_signature tx).
Definition tt_tx_hash (tx : TransparentTx) : Hash :=
  be_int (digest512 (str_bytes "tx-hash")
    (tt_signing_bytes tx ++ tt_signature tx ++ tt_hashlock_preimage tx)).

(** ** Block identity *)

(** [Block::absorb_identity]: the bytes fed to the hasher. *)
Definition absorb_identity (b : Block) : bytes :=
  GENESIS_DOMAIN ++ le_bytes 8 (blk_height b) ++ le_bytes 8 (blk_timestamp b) ++
  concat (hash_bytes <$> blk_parents b) ++
  le_bytes 8 (len (blk_interlinks b)) ++ concat (hash_bytes <$> blk_interlinks b) ++
  hash_bytes (blk_merkle_root b) ++ hash_bytes (blk_state_root b) ++ hash_bytes (blk_miner b) ++
  le_bytes 8 (len (blk_creator_pubkey b)) ++ blk_creator_pubkey b ++
  le_bytes 8 (blk_nonce b) ++ le_bytes 8 (blk_difficulty b) ++ le_bytes 4 (blk_version b).

(** [Block::hash], [Block::settlement_id]. *)
Definition block_hash (b : Block) : Hash := blake3_512 (absorb_identity b).
Definition settlement_id (b : Block) : bytes :=
  blake3_xof (str_bytes "hassan-settlement-id-v1" ++ absorb_identity b) 64.

(** [Block::verify_issuance]. *)
Definition verify_issuance (b : Block) : result unit :=
  if bool_decide (blk_parents b = []) then Ok () else
  fail_if negb (len (blk_creator_pubkey b) =? PQ_PUBLIC_KEY_SIZE)
    as "Missing or malformed issuer public key";
  fail_if negb (blk_miner b =? address_hash (blk_creator_pubkey b))
    as "miner / reward address does not match issuer public key";
  fail_if negb (birth_verify (blk_birth_certificate b) (settlement_id b) (blk_creator_pubkey b))
    as "Invalid birth certificate";
  Ok ().

(** [utxo::coinbase_txid]. *)
Definition coinbase_txid (b : Block) : Hash :=
  blake3_512 (str_bytes "hassan-coinbase-txid-v22" ++ le_bytes 8 (blk_height b) ++
    le_bytes 8 (blk_timestamp b) ++ le_bytes 8 (len (blk_parents b)) ++
    concat (hash_bytes <$> blk_parents b) ++ hash_bytes (blk_miner b) ++
    hash_bytes (blk_merkle_root b) ++ le_bytes 8 (blk_coinbase_entropy b) ++
    le_bytes 8 (len (blk_creator_pubkey b)) ++ blk_creator_pubkey b).

(** [Block::header_only]. *)
Definition header_only (b : Block) : Block :=
  {| blk_height := blk_height b; blk_timestamp := blk_timestamp b; blk_parents := blk_parents b;
     blk_interlinks := blk_interlinks b; blk_transparent_txs := []; blk_utxo_txs := [];
     blk_registry_ops := []; blk_custody_ops := []; blk_merkle_root := blk_merkle_root b;
     blk_state_root := blk_state_root b; blk_miner := blk_miner b;
     blk_creator_pubkey := blk_creator_pubkey b; blk_nonce := blk_nonce b;
     blk_difficulty := blk_difficulty b; blk_version := blk_version b;
     blk_coinbase_entropy := blk_coinbase_entropy b; blk_stark_proof := [];
     blk_birth_certificate := []; blk_size := 0 |}.

(** [RegistryOp::op_hash], [custody_fingerprint]. *)
Definition op_hash (op : RegistryOp) : bytes :=
  digest512 (str_bytes "hassan-registry-op-v1") (default [] (ser_registry_op op)).
Definition custody_fingerprint (c : CustodyCertificate) : bytes :=
  digest512 (str_bytes "custody-fp") (default [] (ser_custody c)).

(** [Block::merkle_root]: the commitment to the body. *)
Definition body_root (b : Block) : Hash :=
  if bool_decide (blk_transparent_txs b = [] ∧ blk_utxo_txs b = []) &&
     bool_decide (blk_registry_ops b = [] ∧ blk_custody_ops b = []) then HASH_ZERO else
  blake3_512 (str_bytes "hassan-block-body-v4" ++
    le_bytes 8 (len (blk_transparent_txs b)) ++ concat ((λ t, hash_bytes (tt_tx_hash t)) <$> blk_transparent_txs b) ++
    le_bytes 8 (len (blk_utxo_txs b)) ++ concat ((λ t, hash_bytes (tx_hash t)) <$> blk_utxo_txs b) ++
    le_bytes 8 (len (blk_registry_ops b)) ++ concat (op_hash <$> blk_registry_ops b) ++
    le_bytes 8 (len (blk_custody_ops b)) ++ concat (custody_fingerprint <$> blk_custody_ops b)).
End block.
