(* ===== verification/Ledger.v ===== *)
(** * The value ledger

    The value state of [src/src/lib.rs] ([Ledger] and the value part of
    [ChainState]): account transfers, custody, block bodies, the coinbase, and the
    supply identity.

    [apply_block_effects] is the conflict-skipping replay of one block,
    [simulate_apply_block_body] the strict admission of one.  The theorems: the
    hard cap; the exact supply identity, escrow included, under replay; what the
    source's own [supply_invariant_ok] test says of a sound ledger. *)

From S2P Require Import Prelude Genesis Crypto Address Predicate Utxo UtxoTx Registry Custody Block.

Record Ledger := {
  l_accounts : Accounts;
  minted_supply : Z;
  fees_burned : Z;
  treasury : Z;
  l_registry : RegistryState;
  staked : gmap string Z;
  l_utxo : UtxoSet;
}.

Definition Ledger_default : Ledger :=
  {| l_accounts := ∅; minted_supply := 0; fees_burned := 0; treasury := 0;
     l_registry := RegistryState_default; staked := ∅; l_utxo := UtxoSet_default |}.

Definition set_accounts (l : Ledger) (a : Accounts) : Ledger :=
  {| l_accounts := a; minted_supply := minted_supply l; fees_burned := fees_burned l;
     treasury := treasury l; l_registry := l_registry l; staked := staked l; l_utxo := l_utxo l |}.
Definition set_staked (l : Ledger) (a : Accounts) (s : gmap string Z) : Ledger :=
  {| l_accounts := a; minted_supply := minted_supply l; fees_burned := fees_burned l;
     treasury := treasury l; l_registry := l_registry l; staked := s; l_utxo := l_utxo l |}.
Definition set_registry (l : Ledger) (r : RegistryState) (a : Accounts) : Ledger :=
  {| l_accounts := a; minted_supply := minted_supply l; fees_burned := fees_burned l;
     treasury := treasury l; l_registry := r; staked := staked l; l_utxo := l_utxo l |}.
Definition set_utxo (l : Ledger) (u : UtxoSet) (a : Accounts) : Ledger :=
  {| l_accounts := a; minted_supply := minted_supply l; fees_burned := fees_burned l;
     treasury := treasury l; l_registry := l_registry l; staked := staked l; l_utxo := u |}.

(** ** State commitment *)
Definition string_entry_le (a b : string * Account) : Prop := Is_true (String.leb a.1 b.1).
#[global] Instance string_entry_le_dec : RelDecision string_entry_le.
Proof. intros a b. unfold string_entry_le. apply _. Defined.

Section ledger.
Context `{!Crypto, !DualCrypto, !BodyCodec}.

(** [Ledger::merkle_root]. *)
Definition state_root (l : Ledger) : Hash :=
  blake3_512 (str_bytes "hassan-state-root-v2" ++
    concat ((λ '(addr, acc), str_bytes addr ++ le_bytes 16 (balance acc) ++ le_bytes 8 (nonce acc) ++
                             le_bytes 8 (last_spend_blue acc))
            <$> merge_sort string_entry_le (map_to_list (l_accounts l))) ++
    hash_bytes (commitment (l_utxo l)) ++ le_bytes 16 (minted_supply l) ++ le_bytes 16 (fees_burned l)).

(** ** Account transfers *)

(** [apply_transparent_tx] past its feature test.  [media_blue] is
    [selected_tip_blue_score]. *)
Definition apply_transparent_enabled (l : Ledger) (chain_id media_blue : Z) (tx : TransparentTx)
    : result Ledger :=
  _ ← tt_validate_form tx;
  fail_if negb (tt_chain_id tx =? chain_id) as "Wrong chain_id";
  fail_if negb (tt_verify tx) as "Invalid signature";
  fail_if (0 <? tt_lock_blue_score tx) && (media_blue <? tt_lock_blue_score tx)
    as ("Absolute lock: media blue " +:+ pretty media_blue +:+ " < lock " +:+ pretty (tt_lock_blue_score tx));
  let accts := l_accounts l in
  let last_spend := from_option last_spend_blue 0 (accts !! tt_from tx) in
  let unlock_at := sat_add 64 last_spend (tt_relative_lock_blues tx) in
  fail_if (0 <? tt_relative_lock_blues tx) && (media_blue <? unlock_at)
    as ("Relative lock: media blue " +:+ pretty media_blue +:+ " < unlock " +:+ pretty unlock_at);
  fail_if match tt_hashlock tx with
          | Some h => negb (hashlock_commitment (tt_hashlock_preimage tx) =? h)
          | None => false
          end
    as "Hashlock preimage mismatch";
  let sender_nonce := from_option nonce 0 (accts !! tt_from tx) in
  fail_if negb (tt_nonce tx =? sender_nonce)
    as ("Bad nonce: expected " +:+ pretty sender_nonce +:+ ", got " +:+ pretty (tt_nonce tx));
  total ← ok_or (checked_add 128 (tt_amount tx) (tt_fee tx)) "amount+fee overflow";
  let sender_balance := from_option balance 0 (accts !! tt_from tx) in
  fail_if sender_balance <? total as "Insufficient balance";
  let recipient_balance := from_option balance 0 (accts !! tt_to tx) in
  new_recipient_balance ← ok_or (checked_add 128 recipient_balance (tt_amount tx)) "Recipient balance overflow";
  let sender := account_of accts (tt_from tx) in
  let accts := <[tt_from tx :=
    {| balance := balance sender - total; nonce := sat_add 64 (nonce sender) 1;
       last_spend_blue := media_blue; code_hash := code_hash sender;
       storage_root := storage_root sender |}]> accts in
  let accts := <[tt_to tx := with_balance (account_of accts (tt_to tx)) new_recipient_balance]> accts in
  Ok (set_accounts l accts).

(** [apply_transparent_tx]. *)
Definition apply_transparent_tx (l : Ledger) (chain_id media_blue : Z) (tx : TransparentTx) : result Ledger :=
  fail_if negb ACCOUNT_PEER_TRANSFERS as "Account peer transfers disabled (v27); use UTXO for value moves";
  apply_transparent_enabled l chain_id media_blue tx.

(** ** Custody *)

(** [apply_custody_op]: every check precedes the first mutation; the plain [+] of
    the source wraps in a release build. *)
Definition apply_custody_op (hex_err : string) (l : Ledger) (chain_id : Z) (op : CustodyCertificate)
    : result Ledger :=
  fail_if negb (cc_chain_id op =? chain_id) as "Wrong chain_id";
  fail_if cc_amount op =? 0 as "Custody amount must be > 0";
  fail_if negb (is_valid_address (cc_owner op)) as "Invalid custody owner";
  sid ← parse_settlement_id hex_err "bad settlement id" (cc_settlement_id op);
  _ ← custody_verify op sid;
  let owner := cc_owner op in
  let n := from_option nonce 0 (l_accounts l !! owner) in
  fail_if negb (cc_nonce op =? n) as "Bad custody nonce";
  l ← match cc_kind op with
      | StakeLock =>
          let bal := from_option balance 0 (l_accounts l !! owner) in
          fail_if bal <? cc_amount op as "Insufficient free balance to stake";
          let acct := account_of (l_accounts l) owner in
          Ok (set_staked l (<[owner := with_balance acct (balance acct - cc_amount op)]> (l_accounts l))
                (<[owner := wrap 128 (default 0 (staked l !! owner) + cc_amount op)]> (staked l)))
      | StakeUnlock =>
          let locked := default 0 (staked l !! owner) in
          fail_if locked <? cc_amount op as "Insufficient staked balance";
          let acct := account_of (l_accounts l) owner in
          Ok (set_staked l (<[owner := with_balance acct (wrap 128 (balance acct + cc_amount op))]> (l_accounts l))
                (<[owner := locked - cc_amount op]> (staked l)))
      | BridgeExit | BridgeEnter =>
          Err "Bridge exit/enter disabled until a real cross-chain bridge ships"
      end;
  let acct := account_of (l_accounts l) owner in
  Ok (set_accounts l (<[owner := with_nonce acct (sat_add 64 n 1)]> (l_accounts l))).

(** ** Blocks *)

(** [apply_block_reward]. *)
Definition apply_block_reward (l : Ledger) (block : Block) (blue_score fees : Z) : Ledger :=
  let subsidy := Z.min (block_subsidy blue_score) (sat_sub MAX_SUPPLY (minted_supply l)) in
  let total := sat_add 128 subsidy fees in
  if total =? 0 then l else
  {| l_accounts := l_accounts l;
     minted_supply := if 0 <? subsidy then sat_add 128 (minted_supply l) subsidy else minted_supply l;
     fees_burned := fees_burned l; treasury := treasury l; l_registry := l_registry l;
     staked := staked l;
     l_utxo := insert_utxo (l_utxo l) (OutPoint_coinbase (coinbase_txid block))
       {| value := total; predicate := PayToAddress (encode_hash (blk_miner block));
          created_blue := blue_score |} |}.

(** One UTXO transaction against the ledger: [tx_fee] starts at 0. *)
Definition ledger_utxo_tx (l : Ledger) (tx : UtxoTx) (media_blue : Z) : result Z * Ledger :=
  match apply_utxo_tx {| utxos := l_utxo l; accounts := l_accounts l; fees_out := 0 |} tx media_blue with
  | (Ok _, s) => (Ok (fees_out s), set_utxo l (utxos s) (accounts s))
  | (Err e, s) => (Err e, set_utxo l (utxos s) (accounts s))
  end.

Definition registry_ctx (block : Block) (media_blue : Z) : OpContext :=
  {| ctx_timestamp := blk_timestamp block; ctx_height := blk_height block;
     ctx_settlement := hex_encode (settlement_id block); ctx_blue := media_blue |}.

(** The four loops of [apply_block_effects]; failures are skipped, keeping
    whatever the failed operation had already changed. *)
Definition effects_transparent (chain_id tip_blue : Z) (lf : Ledger * Z) (tx : TransparentTx) : Ledger * Z :=
  match apply_transparent_tx lf.1 chain_id tip_blue tx with
  | Ok l => (l, sat_add 128 lf.2 (tt_fee tx))
  | Err _ => lf
  end.
Definition effects_utxo (media_blue : Z) (lf : Ledger * Z) (tx : UtxoTx) : Ledger * Z :=
  match ledger_utxo_tx lf.1 tx media_blue with
  | (Ok tx_fee, l) => (l, sat_add 128 lf.2 tx_fee)
  | (Err _, l) => (l, lf.2)
  end.
Definition effects_registry (block : Block) (media_blue : Z) (l : Ledger) (op : RegistryOp) : Ledger :=
  let '(_, (r, a)) := apply_op (l_registry l) (l_accounts l) op (registry_ctx block media_blue) in
  set_registry l r a.
Definition effects_custody (hex_err : string) (chain_id : Z) (l : Ledger) (op : CustodyCertificate) : Ledger :=
  match apply_custody_op hex_err l chain_id op with Ok l' => l' | Err _ => l end.

(** [apply_block_effects]: [gd_blue] is the blue score of the block's GHOSTDAG
    entry, when it has one, and [tip_blue] that of the selected tip. *)
Definition apply_block_effects (hex_err : string) (l : Ledger) (chain_id : Z) (block : Block)
    (gd_blue : option Z) (tip_blue : Z) : Ledger :=
  if bool_decide (blk_parents block = []) then l else
  let '(l, fees) := foldl (effects_transparent chain_id tip_blue) (l, 0) (blk_transparent_txs block) in
  let media_blue := default tip_blue gd_blue in
  let '(l, fees) := foldl (effects_utxo media_blue) (l, fees) (blk_utxo_txs block) in
  let l := foldl (effects_registry block media_blue) l (blk_registry_ops block) in
  let l := foldl (effects_custody hex_err chain_id) l (blk_custody_ops block) in
  apply_block_reward l block (default 0 gd_blue) fees.

(** [simulate_apply_block_body]: the same body, any failure refuses. *)
Definition strict_transparent (chain_id tip_blue : Z) (lf : Ledger * Z) (tx : TransparentTx)
    : result (Ledger * Z) :=
  match apply_transparent_tx lf.1 chain_id tip_blue tx with
  | Ok l => Ok (l, sat_add 128 lf.2 (tt_fee tx))
  | Err e => Err ("Transparent tx does not apply on mergeset virtual: " +:+ e)
  end.
Definition strict_utxo (chain_id_ media_blue : Z) (lf : Ledger * Z) (tx : UtxoTx) : result (Ledger * Z) :=
  fail_if negb (chain_id tx =? chain_id_) as "Utxo tx: wrong chain_id";
  match ledger_utxo_tx lf.1 tx media_blue with
  | (Ok tx_fee, l) => Ok (l, sat_add 128 lf.2 tx_fee)
  | (Err e, _) => Err ("Utxo tx does not apply on mergeset virtual: " +:+ e)
  end.
Definition strict_registry (block : Block) (media_blue : Z) (l : Ledger) (op : RegistryOp) : result Ledger :=
  match apply_op (l_registry l) (l_accounts l) op (registry_ctx block media_blue) with
  | (Ok _, (r, a)) => Ok (set_registry l r a)
  | (Err e, _) => Err ("Registry op does not apply on mergeset virtual: " +:+ e)
  end.
Definition strict_custody (hex_err : string) (chain_id : Z) (l : Ledger) (op : CustodyCertificate) : result Ledger :=
  map_err (λ e, "Custody op does not apply on mergeset virtual: " +:+ e) (apply_custody_op hex_err l chain_id op).

Definition simulate_apply_block_body (hex_err : string) (l : Ledger) (chain_id : Z) (block : Block)
    (tip_blue media_blue : Z) : result (Ledger * Z) :=
  '(l, fees) ← try_fold (strict_transparent chain_id tip_blue) (l, 0) (blk_transparent_txs block);
  '(l, fees) ← try_fold (strict_utxo chain_id media_blue) (l, fees) (blk_utxo_txs block);
  l ← try_fold (strict_registry block media_blue) l (blk_registry_ops block);
  l ← try_fold (strict_custody hex_err chain_id) l (blk_custody_ops block);
  Ok (l, fees).

(** [supply_invariant_ok], with the [u128] sums as they wrap. *)
Definition supply_invariant_ok (l : Ledger) : bool :=
  let accounts := wrap 128 (total balance (l_accounts l)) in
  let stake := wrap 128 (total id (staked l)) in
  let utxo := total_value (l_utxo l) in
  sat_add 128 (sat_add 128 (sat_add 128 accounts stake) utxo) (fees_burned l) =? minted_supply l.

(** [bridge_account_to_utxo]. *)
Definition bridge_account_to_utxo (l : Ledger) (address : string) (amount media_blue : Z)
    : result (OutPoint * Ledger) :=
  fail_if amount <? UTXO_DUST as ("Bridge amount below dust (" +:+ pretty UTXO_DUST +:+ ")");
  fail_if negb (is_valid_address address) as "Invalid address";
  acct ← ok_or (l_accounts l !! address) "Account missing";
  fail_if balance acct <? amount as "Insufficient balance";
  let id := blake3_512 (str_bytes "hassan-bridge-utxo-v1" ++ str_bytes address ++ le_bytes 16 amount ++
              le_bytes 8 media_blue ++ le_bytes 8 (nonce acct) ++ hash_bytes (commitment (l_utxo l))) in
  let op := {| txid := id; vout := 0 |} in
  Ok (op, set_utxo l
        (insert_utxo (l_utxo l) op
           {| value := amount; predicate := PayToAddress address; created_blue := media_blue |})
        (<[address := with_balance acct (balance acct - amount)]> (l_accounts l))).

(** ** The supply identity *)

(** All the value of a ledger, the funds held in registry escrows included. *)
Definition ledger_value (l : Ledger) : Z :=
  total balance (l_accounts l) + total id (staked l) + utxo_value (l_utxo l) +
  total esc_funded (escrows (l_registry l)) + fees_burned l.

(** Soundness of a ledger while [f] of collected fees are still to be paid out. *)
Record ledger_sound (f : Z) (l : Ledger) : Prop := {
  ls_supply : ledger_value l + f = minted_supply l;
  ls_cap : minted_supply l <= MAX_SUPPLY;
  ls_fees : 0 <= f;
  ls_burned : 0 <= fees_burned l;
  ls_utxo : utxo_wf (l_utxo l);
  ls_values : map_Forall (λ _ o, 0 <= value o) (entries (l_utxo l));
  ls_balances : map_Forall (λ _ a, 0 <= balance a) (l_accounts l);
  ls_staked : map_Forall (λ _ v, 0 <= v) (staked l);
  ls_escrows : map_Forall (λ _ e, 0 <= esc_funded e) (escrows (l_registry l));
}.
Abbreviation ledger_ok := (ledger_sound 0).

(** Each pool of value is non-negative and bounded by the cap. *)
Lemma ledger_sound_bounds f l :
  ledger_sound f l →
  0 <= total balance (l_accounts l) ∧ 0 <= total id (staked l) ∧ 0 <= utxo_value (l_utxo l) ∧
  0 <= total esc_funded (escrows (l_registry l)) ∧ ledger_value l + f <= MAX_SUPPLY ∧
  MAX_SUPPLY < U128_MAX.
Proof.
  intros [Hs Hc Hf Hb Hw Hu Ha Hst He]. split_and!; try (by apply total_nonneg); [lia|done].
Qed.

Lemma ledger_ok_default : ledger_ok Ledger_default.
Proof. by split. Qed.

(** Well-formedness of a block body: unsigned amounts, and credits that name
    their account. *)
Definition body_wf (b : Block) : Prop :=
  Forall (λ tx, outputs_ok tx ∧ credits_named tx) (blk_utxo_txs b) ∧
  Forall op_wf (blk_registry_ops b) ∧ Forall (λ c, 0 <= cc_amount c) (blk_custody_ops b).

(** The identifiers a block gives to new outputs are new. *)
Definition body_fresh (l : Ledger) (b : Block) : Prop :=
  NoDup (tx_hash <$> blk_utxo_txs b) ∧
  Forall (λ tx, fresh_txid (l_utxo l) (tx_hash tx)) (blk_utxo_txs b) ∧
  entries (l_utxo l) !! OutPoint_coinbase (coinbase_txid b) = None.

Lemma effects_transparent_id chain_id tip txs lf :
  foldl (effects_transparent chain_id tip) lf txs = lf.
Proof. revert lf. induction txs as [|tx txs IH]; intros lf; [done|]. simpl. apply IH. Qed.

Lemma effects_utxo_sound media f l tx :
  ledger_sound f l → outputs_ok tx → credits_named tx → fresh_txid (l_utxo l) (tx_hash tx) →
  let '(l', f') := effects_utxo media (l, f) tx in
  ledger_sound f' l' ∧
  (∀ op, entries (l_utxo l) !! op = None → txid op ≠ tx_hash tx ∨ 64 <= vout op →
         entries (l_utxo l') !! op = None).
Proof.
  intros Hs Ho Hc Hfr. pose proof (ledger_sound_bounds _ _ Hs) as (Hb1 & Hb2 & Hb3 & Hb4 & Hb5 & Hb6).
  destruct Hs as [Hs Hcap Hf Hb Hw Hu Ha Hst He]. unfold ledger_value in *.
  unfold effects_utxo, ledger_utxo_tx. cbn [fst snd].
  set (s0 := {| utxos := l_utxo l; accounts := l_accounts l; fees_out := 0 |}).
  pose proof (λ op, apply_utxo_tx_entries s0 tx media op) as Hent.
  destruct (apply_utxo_tx s0 tx media) as [r s1] eqn:Hap. cbn [snd] in Hent.
  assert (state_value s0 <= U128_MAX) as Hbound by (unfold state_value; simpl; lia).
  destruct (apply_utxo_tx_outcome s0 tx media r s1) as [[Hu1 Ha1] Hr]; [done..|].
  destruct r as [[]|e].
  - destruct (apply_utxo_tx_ok s0 tx media s1 Hw Hfr Hap) as (Hw1 & Hval & Hfe & _).
    unfold state_value in Hval. cbn [utxos accounts s0 fees_out] in Hval, Hfe.
    assert (0 <= total balance (accounts s1)) by (by apply total_nonneg).
    assert (0 <= utxo_value (utxos s1)) by (by apply total_nonneg).
    assert (0 <= fee tx) as Hfee0.
    { pose proof (umax_pos 128 ltac:(lia)). destruct (decide (0 <= fee tx)) as [|Hneg]; [done|].
      exfalso. clear -Hap Hneg. unfold apply_utxo_tx in Hap.
      destruct (check_utxo_tx (utxos s0) tx media) as [so|] eqn:Hck; [|done].
      unfold check_utxo_tx in Hck. destruct (validate_form tx) as [[]|] eqn:Hv; [|done].
      unfold validate_form in Hv. destruct (len (inputs tx) =? 0); [done|].
      destruct (len (outputs tx) =? 0); [done|]. destruct (64 <? len (outputs tx)); [done|].
      destruct (64 <? len (inputs tx)); [done|]. destruct (negb (len (from_pubkey tx) =? _)); [done|].
      destruct (fee tx <? min_fee_required tx) eqn:Hm; [done|]. zbool.
      unfold min_fee_required, MIN_TX_FEE in Hm. lia. }
    assert (fees_out s1 = fee tx) as -> by (rewrite Hfe; apply sat_add_exact; lia).
    rewrite sat_add_exact by lia. split; [|done].
    split; cbn [set_utxo minted_supply fees_burned l_utxo l_accounts staked l_registry]; try done; [|lia].
    unfold ledger_value. cbn [set_utxo minted_supply fees_burned l_utxo l_accounts staked l_registry]. lia.
  - subst s1. cbn [utxos accounts s0]. split; [|done].
    split; cbn [set_utxo minted_supply fees_burned l_utxo l_accounts staked l_registry]; done.
Qed.

Lemma effects_utxo_loop_sound media txs f l :
  ledger_sound f l → Forall (λ tx, outputs_ok tx ∧ credits_named tx) txs →
  NoDup (tx_hash <$> txs) → Forall (λ tx, fresh_txid (l_utxo l) (tx_hash tx)) txs →
  let '(l', f') := foldl (effects_utxo media) (l, f) txs in
  ledger_sound f' l' ∧
  (∀ op, entries (l_utxo l) !! op = None → 64 <= vout op → entries (l_utxo l') !! op = None).
Proof.
  revert f l. induction txs as [|tx txs IH]; intros f l Hs Hwf Hnd Hfr; [by simpl|].
  rewrite fmap_cons in Hnd. apply NoDup_cons in Hnd as [Hni Hnd].
  apply Forall_cons in Hwf as [[Ho Hc] Hwf], Hfr as [Hfr1 Hfr]. cbn [foldl].
  pose proof (effects_utxo_sound media f l tx Hs Ho Hc Hfr1) as Hstep.
  destruct (effects_utxo media (l, f) tx) as [l1 f1]. destruct Hstep as [Hs1 He1].
  specialize (IH f1 l1 Hs1 Hwf Hnd).
  destruct (foldl (effects_utxo media) (l1, f1) txs) as [l2 f2].
  destruct IH as [Hs2 He2]; [|split; [done|]; auto].
  apply Forall_forall. intros tx' Hin i. apply He1.
  - exact (proj1 (Forall_forall _ _) Hfr tx' Hin i).
  - left. simpl. intros Heq. apply Hni. rewrite <- Heq. by apply list_elem_of_fmap_2.
Qed.

Lemma effects_registry_sound block media f l op :
  op_wf op → ledger_sound f l →
  ledger_sound f (effects_registry block media l op) ∧
  l_utxo (effects_registry block media l op) = l_utxo l.
Proof.
  intros Hop Hs. pose proof (ledger_sound_bounds _ _ Hs) as (Hb1 & Hb2 & Hb3 & Hb4 & Hb5 & Hb6).
  destruct Hs as [Hs Hcap Hf Hb Hw Hu Ha Hst He]. unfold ledger_value in *. unfold effects_registry.
  pose proof (apply_op_conserves_aux (l_registry l) (l_accounts l) op (registry_ctx block media)
    Hop (conj Ha He)) as Hc. unfold reg_value in Hc at 1. specialize (Hc ltac:(lia)).
  destruct (apply_op _ _ _ _) as [r [r' a']]. destruct Hc as [Hv [Ha' He']].
  unfold reg_value in Hv. cbn [fst snd] in *. split; [|done].
  split; cbn [set_registry minted_supply fees_burned l_utxo l_accounts staked l_registry]; try done.
  unfold ledger_value. cbn [set_registry minted_supply fees_burned l_utxo l_accounts staked l_registry]. lia.
Qed.

Lemma staked_contrib (m : gmap string Z) k : default 0 (m !! k) = contrib id m k.
Proof. unfold contrib. by destruct (m !! k). Qed.

Lemma custody_kind_sound (accts : Accounts) (st : gmap string Z) owner b v n :
  map_Forall (λ _ a, 0 <= balance a) accts → map_Forall (λ _ v, 0 <= v) st →
  0 <= b → 0 <= v →
  b + v = balance (account_of accts owner) + default 0 (st !! owner) →
  let accts1 := <[owner := with_balance (account_of accts owner) b]> accts in
  let accts2 := <[owner := with_nonce (account_of accts1 owner) n]> accts1 in
  total balance accts2 + total id (<[owner := v]> st) = total balance accts + total id st ∧
  map_Forall (λ _ a, 0 <= balance a) accts2 ∧ map_Forall (λ _ v, 0 <= v) (<[owner := v]> st).
Proof.
  intros Ha Hs Hb Hv Hsum accts1 accts2.
  assert (map_Forall (λ _ a, 0 <= balance a) accts1) as Ha1 by (by apply map_Forall_insert_2).
  split_and!; [|by apply nonce_step_nonneg|by apply map_Forall_insert_2].
  unfold accts2. rewrite nonce_step_total. unfold accts1.
  rewrite !total_insert, <- account_of_contrib, <- staked_contrib. simpl. lia.
Qed.

Lemma effects_custody_sound hex_err chain_id f l op :
  0 <= cc_amount op → ledger_sound f l →
  ledger_sound f (effects_custody hex_err chain_id l op) ∧
  l_utxo (effects_custody hex_err chain_id l op) = l_utxo l.
Proof.
  intros Hop Hs. pose proof (ledger_sound_bounds _ _ Hs) as (Hb1 & Hb2 & Hb3 & Hb4 & Hb5 & Hb6).
  pose proof Hs as [Hsup Hcap Hf Hb Hw Hu Ha Hst He]. unfold ledger_value in *.
  unfold effects_custody. destruct (apply_custody_op hex_err l chain_id op) as [l'|] eqn:Hap; [|done].
  unfold apply_custody_op in Hap.
  destruct (negb (cc_chain_id op =? chain_id)); [done|]. destruct (cc_amount op =? 0); [done|].
  destruct (negb (is_valid_address _)); [done|].
  destruct (parse_settlement_id _ _ _) as [sid|]; [|done]. cbn [mbind result_bind] in Hap.
  destruct (custody_verify op sid) as [[]|]; [|done]. cbn [mbind result_bind] in Hap.
  destruct (negb (cc_nonce op =? _)); [done|].
  set (owner := cc_owner op) in *.
  pose proof (contrib_le_total balance _ owner Ha) as Hcb. rewrite <- account_of_contrib in Hcb.
  pose proof (contrib_le_total id _ owner Hst) as Hcs. rewrite <- staked_contrib in Hcs.
  assert (0 <= balance (account_of (l_accounts l) owner)) as Hbn
    by apply (total_credit_bound _ owner Ha).
  assert (0 <= default 0 (staked l !! owner)) as Hsn.
  { destruct (staked l !! owner) eqn:Hq; [by apply Hst in Hq|done]. }
  assert (from_option balance 0 (l_accounts l !! owner) = balance (account_of (l_accounts l) owner)) as Hbal
    by (unfold account_of; by destruct (l_accounts l !! owner)).
  destruct (cc_kind op); [| |done|done].
  - rewrite Hbal in Hap. destruct (_ <? cc_amount op) eqn:Hlt; [done|]. zbool.
    cbn [mbind result_bind] in Hap. injection Hap as <-.
    rewrite wrap_small by (unfold in_width; lia).
    destruct (custody_kind_sound (l_accounts l) (staked l) owner
      (balance (account_of (l_accounts l) owner) - cc_amount op)
      (default 0 (staked l !! owner) + cc_amount op)
      (sat_add 64 (from_option nonce 0 (l_accounts l !! owner)) 1)) as (Hv & Ha' & Hs'); [done|done|lia..|].
    split; [|done].
    split; cbn [set_accounts set_staked minted_supply fees_burned l_utxo l_accounts staked l_registry]; try done.
    unfold ledger_value.
    cbn [set_accounts set_staked minted_supply fees_burned l_utxo l_accounts staked l_registry]. lia.
  - destruct (_ <? cc_amount op) eqn:Hlt; [done|]. zbool.
    cbn [mbind result_bind] in Hap. injection Hap as <-.
    rewrite wrap_small by (unfold in_width; lia).
    destruct (custody_kind_sound (l_accounts l) (staked l) owner
      (balance (account_of (l_accounts l) owner) + cc_amount op)
      (default 0 (staked l !! owner) - cc_amount op)
      (sat_add 64 (from_option nonce 0 (l_accounts l !! owner)) 1)) as (Hv & Ha' & Hs'); [done|done|lia..|].
    split; [|done].
    split; cbn [set_accounts set_staked minted_supply fees_burned l_utxo l_accounts staked l_registry]; try done.
    unfold ledger_value.
    cbn [set_accounts set_staked minted_supply fees_burned l_utxo l_accounts staked l_registry]. lia.
Qed.

Lemma apply_block_reward_sound f l block blue :
  0 <= blue → ledger_sound f l → entries (l_utxo l) !! OutPoint_coinbase (coinbase_txid block) = None →
  ledger_ok (apply_block_reward l block blue f).
Proof.
  intros Hblue Hs Hfr. pose proof (ledger_sound_bounds _ _ Hs) as (Hb1 & Hb2 & Hb3 & Hb4 & Hb5 & Hb6).
  pose proof Hs as [Hsup Hcap Hf Hb Hw Hu Ha Hst He]. unfold ledger_value in *.
  pose proof (subsidy_nonneg blue Hblue) as Hsub. unfold apply_block_reward.
  set (subsidy := Z.min (block_subsidy blue) (sat_sub MAX_SUPPLY (minted_supply l))).
  assert (0 <= subsidy <= MAX_SUPPLY - minted_supply l) as Hsb by (unfold subsidy, sat_sub; lia).
  rewrite sat_add_exact by lia. destruct (Z.eqb_spec (subsidy + f) 0) as [Hz|Hz].
  - assert (f = 0) as -> by lia. exact Hs.
  - assert ((if 0 <? subsidy then sat_add 128 (minted_supply l) subsidy else minted_supply l) =
            minted_supply l + subsidy) as Hm.
    { destruct (Z.ltb_spec 0 subsidy); [rewrite sat_add_exact; lia|lia]. }
    split; cbn [minted_supply fees_burned l_utxo l_accounts staked l_registry]; try done.
    + unfold ledger_value. cbn [minted_supply fees_burned l_utxo l_accounts staked l_registry].
      rewrite utxo_value_insert, Hm by done. cbn [value]. lia.
    + rewrite Hm. lia.
    + by apply utxo_wf_insert.
    + apply map_Forall_insert_2; [simpl; lia|done].
Qed.

(** C1. The supply identity, exactly: replaying any well-formed block over a
    sound ledger keeps account balances + stakes + unspent outputs + escrowed funds +
    burned fees equal to the minted supply, no pool negative and the mint under
    the hard cap, whatever mix of accepted and skipped operations the block
    carries (its new output identifiers being new). *)
Theorem supply_identity_preserved hex_err l chain_id block gd_blue tip_blue :
  0 <= default 0 gd_blue → body_wf block → body_fresh l block → ledger_ok l →
  ledger_ok (apply_block_effects hex_err l chain_id block gd_blue tip_blue).
Proof.
  intros Hblue (Hwu & Hwr & Hwc) (Hnd & Hfr & Hcb) Hok. unfold apply_block_effects.
  destruct (bool_decide _); [done|]. rewrite effects_transparent_id.
  set (media := default tip_blue gd_blue).
  pose proof (effects_utxo_loop_sound media (blk_utxo_txs block) 0 l Hok Hwu Hnd Hfr) as Hloop.
  destruct (foldl (effects_utxo media) (l, 0) _) as [l1 f1]. destruct Hloop as [Hs1 He1].
  assert (entries (l_utxo l1) !! OutPoint_coinbase (coinbase_txid block) = None) as Hcb1 by (by apply He1).
  set (P := λ l', ledger_sound f1 l' ∧ l_utxo l' = l_utxo l1).
  assert (P (foldl (effects_registry block media) l1 (blk_registry_ops block))) as [Hs2 Hu2].
  { apply foldl_inv; [done|]. intros l' op Hin [Hs Hu].
    destruct (effects_registry_sound block media f1 l' op) as [Hs' Hu'];
      [exact (proj1 (Forall_forall _ _) Hwr _ Hin)|done|]. split; [done|congruence]. }
  set (l2 := foldl (effects_registry block media) l1 _) in *.
  assert (P (foldl (effects_custody hex_err chain_id) l2 (blk_custody_ops block))) as [Hs3 Hu3].
  { apply foldl_inv; [done|]. intros l' op Hin [Hs Hu].
    destruct (effects_custody_sound hex_err chain_id f1 l' op) as [Hs' Hu'];
      [exact (proj1 (Forall_forall _ _) Hwc _ Hin)|done|]. split; [done|congruence]. }
  apply apply_block_reward_sound; [done|done|]. by rewrite Hu3.
Qed.

(** ** The hard cap *)

Lemma effects_registry_minted block media l op : minted_supply (effects_registry block media l op) = minted_supply l.
Proof. unfold effects_registry. by destruct (apply_op _ _ _ _) as [? [? ?]]. Qed.

Lemma effects_utxo_minted media lf tx : minted_supply (effects_utxo media lf tx).1 = minted_supply lf.1.
Proof. unfold effects_utxo, ledger_utxo_tx. by destruct (apply_utxo_tx _ _ _) as [[[]|] ?]. Qed.

Lemma effects_custody_minted hex_err chain_id l op :
  minted_supply (effects_custody hex_err chain_id l op) = minted_supply l.
Proof.
  unfold effects_custody. destruct (apply_custody_op _ _ _ _) as [l'|] eqn:Hap; [|done].
  unfold apply_custody_op in Hap.
  repeat (destruct (negb _) in Hap; [done|]). destruct (_ =? 0) in Hap; [done|].
  destruct (negb _) in Hap; [done|].
  destruct (parse_settlement_id _ _ _); [|done]. cbn [mbind result_bind] in Hap.
  destruct (custody_verify _ _); [|done]. cbn [mbind result_bind] in Hap.
  destruct (negb _) in Hap; [done|].
  destruct (cc_kind op); [| |done|done]; destruct (_ <? _) in Hap; try done; by injection Hap as <-.
Qed.

(** No block takes the minted supply above the cap. *)
Lemma effects_minted hex_err l chain_id block gd_blue tip_blue :
  0 <= default 0 gd_blue → 0 <= minted_supply l <= MAX_SUPPLY →
  let l' := apply_block_effects hex_err l chain_id block gd_blue tip_blue in
  minted_supply l <= minted_supply l' <= MAX_SUPPLY ∧
  minted_supply l' <= minted_supply l + block_subsidy (default 0 gd_blue).
Proof.
  intros Hblue Hm. cbv zeta. pose proof (subsidy_nonneg _ Hblue) as Hsub. unfold apply_block_effects.
  destruct (bool_decide _); [lia|]. rewrite effects_transparent_id.
  destruct (foldl (effects_utxo _) (l, 0) _) as [l1 f1] eqn:Hu.
  assert (minted_supply l1 = minted_supply l) as Hm1.
  { change l1 with (l1, f1).1. rewrite <- Hu.
    apply (foldl_inv (λ lf : Ledger * Z, minted_supply lf.1 = minted_supply l)); [done|].
    intros lf tx _ <-. apply effects_utxo_minted. }
  set (l2 := foldl (effects_registry _ _) l1 _).
  assert (minted_supply l2 = minted_supply l) as Hm2.
  { apply (foldl_inv (λ l', minted_supply l' = minted_supply l)); [done|].
    intros l' op _ <-. apply effects_registry_minted. }
  set (l3 := foldl (effects_custody _ _) l2 _).
  assert (minted_supply l3 = minted_supply l) as Hm3.
  { apply (foldl_inv (λ l', minted_supply l' = minted_supply l)); [done|].
    intros l' op _ <-. apply effects_custody_minted. }
  unfold apply_block_reward. rewrite Hm3. assert (MAX_SUPPLY < U128_MAX) by done.
  destruct (_ =? 0); [lia|]. cbn [minted_supply]. unfold sat_add, sat_sub.
  destruct (Z.ltb_spec 0 (Z.min (block_subsidy (default 0 gd_blue)) (Z.max 0 (MAX_SUPPLY - minted_supply l)))); lia.
Qed.

(** C8. The hard cap, unconditionally: no block, well-formed or not, takes the
    minted supply above [MAX_SUPPLY] = 25 million coins, and each mints at most
    the subsidy of its blue score. *)
Theorem minted_supply_capped hex_err l chain_id block gd_blue tip_blue :
  0 <= default 0 gd_blue → 0 <= minted_supply l <= MAX_SUPPLY →
  let l' := apply_block_effects hex_err l chain_id block gd_blue tip_blue in
  minted_supply l <= minted_supply l' <= MAX_SUPPLY ∧
  minted_supply l' <= minted_supply l + block_subsidy (default 0 gd_blue).
Proof. apply effects_minted. Qed.

(** What the source's own supply test says of a sound ledger: it passes exactly
    when nothing is held in registry escrow.  A funded escrow, which is an
    ordinary state, makes it fail, although every unit is accounted for; loading a
    saved chain state in that condition is refused as corrupt. *)
Theorem supply_invariant_ok_iff l :
  ledger_ok l →
  supply_invariant_ok l = true ↔ total esc_funded (escrows (l_registry l)) = 0.
Proof.
  intros Hok. pose proof (ledger_sound_bounds _ _ Hok) as (Hb1 & Hb2 & Hb3 & Hb4 & Hb5 & Hb6).
  pose proof Hok as [Hsup Hcap Hf Hb Hw Hu Ha Hst He]. unfold ledger_value in *.
  unfold supply_invariant_ok, total_value.
  rewrite !wrap_small by (unfold in_width; lia).
  rewrite (sat_add_exact 128 (total balance _)) by lia.
  rewrite (sat_add_exact 128 (total balance _ + _)) by lia.
  rewrite sat_add_exact by lia. rewrite Z.eqb_eq. lia.
Qed.

(** ** Admission and replay agree *)

Lemma try_fold_foldl {S A} (f : S → A → result S) (g : S → A → S) l s s' :
  (∀ s x s', f s x = Ok s' → g s x = s') → try_fold f s l = Ok s' → foldl g s l = s'.
Proof.
  intros Hfg. revert s. induction l as [|x l IH]; intros s Hf; [by injection Hf|].
  cbn [try_fold foldl] in *. destruct (f s x) as [s1|] eqn:Hx; [|done].
  rewrite (Hfg _ _ _ Hx). by apply IH.
Qed.

(** A body that applies strictly replays to the same ledger. *)
Lemma admission_replay hex_err l chain_id block tip_blue media l' fees :
  blk_parents block ≠ [] →
  simulate_apply_block_body hex_err l chain_id block tip_blue media = Ok (l', fees) →
  apply_block_effects hex_err l chain_id block (Some media) tip_blue =
    apply_block_reward l' block media fees.
Proof.
  intros Hp. unfold simulate_apply_block_body, apply_block_effects. intros Hsim.
  destruct (try_fold (strict_transparent _ _) _ _) as [[l1 f1]|] eqn:Hf1; [|done]. simpl in Hsim.
  destruct (try_fold (strict_utxo _ _) _ _) as [[l2 f2]|] eqn:Hf2; [|done]. simpl in Hsim.
  destruct (try_fold (strict_registry _ _) _ _) as [l3|] eqn:Hf3; [|done]. simpl in Hsim.
  destruct (try_fold (strict_custody _ _) _ _) as [l4|] eqn:Hf4; [|done]. simpl in Hsim.
  injection Hsim as <- <-. rewrite bool_decide_eq_false_2 by done. cbn [default].
  rewrite (try_fold_foldl _ (effects_transparent chain_id tip_blue) _ _ _) with (2 := Hf1).
  2: { intros lf tx lf'. unfold strict_transparent, effects_transparent.
       by destruct (apply_transparent_tx _ _ _ _); intros [= <-]. }
  unfold id. rewrite (try_fold_foldl _ (effects_utxo media) _ _ _) with (2 := Hf2).
  2: { intros lf tx lf'. unfold strict_utxo, effects_utxo. destruct (negb _); [done|].
       by destruct (ledger_utxo_tx _ _ _) as [[]]; intros [= <-]. }
  rewrite (try_fold_foldl _ (effects_registry block media) _ _ _) with (2 := Hf3).
  2: { intros l0 op l0'. unfold strict_registry, effects_registry.
       by destruct (apply_op _ _ _ _) as [[] []]; intros [= <-]. }
  rewrite (try_fold_foldl _ (effects_custody hex_err chain_id) _ _ _) with (2 := Hf4); [done|].
  intros l0 op l0'. unfold strict_custody, effects_custody.
  by destruct (apply_custody_op _ _ _ _); intros [= <-].
Qed.

(** Admission and replay agree: if the strict admission check applies a block's
    body to the virtual state, then the conflict-skipping replay of the block at
    the same blue score skips nothing and produces the very same ledger, coinbase
    included; the state commitment checked at admission is the one every replaying
    node computes. *)
Theorem admission_replay_agree hex_err l chain_id block tip_blue media l' fees :
  blk_parents block ≠ [] →
  simulate_apply_block_body hex_err l chain_id block tip_blue media = Ok (l', fees) →
  apply_block_effects hex_err l chain_id block (Some media) tip_blue =
    apply_block_reward l' block media fees.
Proof. apply admission_replay. Qed.

(** ** Account transfers (disabled by [ACCOUNT_PEER_TRANSFERS]) *)

(** The dormant account transfer moves value correctly only between different
    accounts: then the sender's debit is the recipient's credit plus the fee.  A
    transfer to oneself, which no check refuses, creates [amount] out of nothing
    (the credit computed before the debit overwrites it) and costs no fee. *)
Theorem transparent_transfer_value l chain_id media tx l' :
  apply_transparent_enabled l chain_id media tx = Ok l' →
  (tt_from tx ≠ tt_to tx →
     total balance (l_accounts l') + tt_fee tx = total balance (l_accounts l)) ∧
  (tt_from tx = tt_to tx →
     total balance (l_accounts l') = total balance (l_accounts l) + tt_amount tx).
Proof.
  unfold apply_transparent_enabled. intros Hap.
  destruct (tt_validate_form tx) as [[]|]; [|done]. cbn [mbind result_bind] in Hap.
  destruct (negb (tt_chain_id tx =? chain_id)); [done|]. destruct (negb (tt_verify tx)); [done|].
  destruct ((0 <? tt_lock_blue_score tx) && _); [done|].
  destruct ((0 <? tt_relative_lock_blues tx) && _); [done|].
  destruct (match tt_hashlock tx with Some _ => _ | None => _ end); [done|].
  destruct (negb (tt_nonce tx =? _)); [done|].
  destruct (checked_add 128 (tt_amount tx) (tt_fee tx)) as [tot|] eqn:Ht; [|done].
  apply checked_add_Some in Ht as [-> _]. cbn [ok_or mbind result_bind] in Hap.
  destruct (_ <? _) in Hap; [done|].
  destruct (checked_add 128 _ (tt_amount tx)) as [nb|] eqn:Hn; [|done].
  apply checked_add_Some in Hn as [-> _]. cbn [ok_or mbind result_bind] in Hap. injection Hap as <-.
  cbn [set_accounts l_accounts]. rewrite total_insert, total_insert. cbn [with_balance balance].
  fold (contrib balance (l_accounts l) (tt_to tx)). rewrite account_of_contrib. split; intros Hft.
  - rewrite contrib_insert_ne by done. lia.
  - rewrite Hft, contrib_insert_eq. cbn [balance]. lia.
Qed.

(** Moving account value into a fresh output conserves the supply. *)
Lemma bridge_conserves l address amount media op l' :
  bridge_account_to_utxo l address amount media = Ok (op, l') →
  entries (l_utxo l) !! op = None → ledger_value l' = ledger_value l.
Proof.
  unfold bridge_account_to_utxo. intros Hb Hfr.
  destruct (amount <? UTXO_DUST); [done|]. destruct (negb _); [done|].
  destruct (l_accounts l !! address) as [acct|] eqn:Ha; [|done]. cbn [ok_or mbind result_bind] in Hb.
  destruct (balance acct <? amount); [done|]. injection Hb as <- <-. unfold ledger_value.
  cbn [set_utxo l_accounts staked l_utxo l_registry fees_burned].
  rewrite utxo_value_insert by done. rewrite total_insert, (contrib_Some _ _ _ _ Ha).
  cbn [value with_balance balance]. lia.
Qed.
End ledger.

Abbreviation ledger_ok := (ledger_sound 0).

(** ** Concrete runs *)
Module LedgerExample.
Import Toy UtxoExample.
#[export] Instance toy_dual : DualCrypto :=
  {| SLH_PK_LEN := 1; SLH_SIG_LEN := 1; slh_pk_parses _ := true; slh_verify _ _ _ _ := true |}.
#[export] Instance toy_body : BodyCodec :=
  {| body_utxo_codec := toy_codec; ser_transparent_len _ := Some 100;
     ser_registry_op _ := Some []; ser_custody _ := Some [] |}.

Definition start : Ledger :=
  {| l_accounts := ∅; minted_supply := 50000; fees_burned := 0; treasury := 0;
     l_registry := RegistryState_default; staked := ∅; l_utxo := utxos funded |}.
Definition block (txs : list UtxoTx) (tts : list TransparentTx) : Block :=
  {| blk_height := 1; blk_timestamp := 5; blk_parents := [1]; blk_interlinks := [];
     blk_transparent_txs := tts; blk_utxo_txs := txs; blk_registry_ops := []; blk_custody_ops := [];
     blk_merkle_root := 0; blk_state_root := 0; blk_miner := 3; blk_creator_pubkey := alice;
     blk_nonce := 0; blk_difficulty := 1; blk_version := 0; blk_coinbase_entropy := 0;
     blk_stark_proof := []; blk_birth_certificate := []; blk_size := 0 |}.
Definition pay_block : Block := block [payment_tx] [].

Lemma start_ok : ledger_ok start.
Proof.
  split; try done; by apply map_Forall_singleton.
Qed.

Lemma pay_block_wf : body_wf pay_block.
Proof.
  split_and!; [|constructor|constructor]. apply Forall_singleton. split.
  - vm_compute. repeat constructor; discriminate.
  - vm_compute. repeat constructor; discriminate.
Qed.

Lemma pay_block_fresh : body_fresh start pay_block.
Proof.
  split_and!.
  - apply NoDup_singleton.
  - apply Forall_singleton. exact payment_fresh.
  - apply lookup_singleton_ne. intros Heq. apply (f_equal vout) in Heq. vm_compute in Heq. discriminate.
Qed.

(** A transfer from an account to itself. *)
Definition rich_start : Ledger := set_accounts start {[ alice_addr := with_balance Account_default 9000 ]}.
Definition self_tx_unsigned : TransparentTx :=
  {| tt_from := alice_addr; tt_from_pubkey := alice; tt_to := alice_addr; tt_amount := 5000;
     tt_fee := 1000; tt_nonce := 0; tt_chain_id := CHAIN_ID; tt_lock_blue_score := 0;
     tt_relative_lock_blues := 0; tt_hashlock := None; tt_hashlock_preimage := []; tt_signature := [] |}.
Definition self_tx : TransparentTx :=
  tt_with_signature self_tx_unsigned
    (le_bytes 4 (mix (alice ++ digest512 (str_bytes "transparent-tx") (tt_signing_bytes self_tx_unsigned)))).
Lemma self_transfer_ok : ∃ l', apply_transparent_enabled rich_start CHAIN_ID 0 self_tx = Ok l'.
Proof. apply ok_exists. vm_compute. reflexivity. Qed.

Lemma admitted_ok :
  ∃ p, simulate_apply_block_body "" start CHAIN_ID pay_block 0 5 = Ok p.
Proof. apply ok_exists. vm_compute. reflexivity. Qed.

(** A sound ledger with a funded escrow. *)
Definition escrowed : Ledger :=
  {| l_accounts := ∅; minted_supply := 500; fees_burned := 0; treasury := 0;
     l_registry := RegistryExample.funded; staked := ∅; l_utxo := UtxoSet_default |}.
Lemma escrowed_ok : ledger_ok escrowed.
Proof.
  split; try done; try (vm_compute; discriminate).
  apply map_Forall_insert_2; [done|]. by apply map_Forall_singleton.
Qed.
End LedgerExample.

Lemma supply_identity_preserved_witness :
  ledger_ok (@apply_block_effects Toy.toy_crypto LedgerExample.toy_dual LedgerExample.toy_body ""
    LedgerExample.start CHAIN_ID LedgerExample.pay_block (Some 5) 0).
Proof.
  apply (@supply_identity_preserved Toy.toy_crypto LedgerExample.toy_dual LedgerExample.toy_body).
  - vm_compute. discriminate.
  - exact LedgerExample.pay_block_wf.
  - exact LedgerExample.pay_block_fresh.
  - exact LedgerExample.start_ok.
Defined.

Lemma minted_supply_capped_witness :
  minted_supply (@apply_block_effects Toy.toy_crypto LedgerExample.toy_dual LedgerExample.toy_body ""
    LedgerExample.start CHAIN_ID LedgerExample.pay_block (Some 5) 0) <= MAX_SUPPLY.
Proof.
  destruct (@minted_supply_capped Toy.toy_crypto LedgerExample.toy_dual LedgerExample.toy_body ""
    LedgerExample.start CHAIN_ID LedgerExample.pay_block (Some 5) 0) as [[_ Hcap] _].
  - vm_compute. discriminate.
  - vm_compute. split; discriminate.
  - exact Hcap.
Defined.

Lemma supply_invariant_ok_iff_witness : supply_invariant_ok LedgerExample.escrowed ≠ true.
Proof.
  intros Hok. apply (supply_invariant_ok_iff LedgerExample.escrowed LedgerExample.escrowed_ok) in Hok.
  vm_compute in Hok. discriminate Hok.
Defined.

Lemma admission_replay_agree_witness :
  ∃ l' fees,
    @apply_block_effects Toy.toy_crypto LedgerExample.toy_dual LedgerExample.toy_body ""
      LedgerExample.start CHAIN_ID LedgerExample.pay_block (Some 5) 0 =
    @apply_block_reward Toy.toy_crypto l' LedgerExample.pay_block 5 fees.
Proof.
  destruct LedgerExample.admitted_ok as [[l' fees] Hadm]. exists l', fees.
  exact (@admission_replay_agree Toy.toy_crypto LedgerExample.toy_dual LedgerExample.toy_body ""
    LedgerExample.start CHAIN_ID LedgerExample.pay_block 0 5 l' fees ltac:(discriminate) Hadm).
Defined.

Lemma transparent_transfer_value_witness :
  ∃ l', total balance (l_accounts l') = total balance (l_accounts LedgerExample.rich_start) + 5000.
Proof.
  destruct LedgerExample.self_transfer_ok as [l' Hl]. exists l'.
  exact (proj2 (@transparent_transfer_value Toy.toy_crypto LedgerExample.toy_body
    LedgerExample.rich_start CHAIN_ID 0 LedgerExample.self_tx l' Hl) eq_refl).
Defined.
