(* ===== verification/Dag.v ===== *)
(** * The block DAG

    Parent edges over [ChainState::dag], the graph searches of
    [src/src/reachability.rs] and [src/src/ghostdag.rs], and the interface through
    which the consensus code asks for ancestry: [AncestorOracle] is what
    [Reachability] promises to GHOSTDAG, and the reference search
    [bfs_is_ancestor] is its first implementation. *)

From S2P Require Import Prelude Genesis Crypto Address Predicate Utxo UtxoTx Registry Custody Block.

(** [HashMap<Hash, Block>]. *)
Abbreviation Dag := (gmap Hash Block).

(** [dag.get(h).map(|b| b.parents.clone()).unwrap_or_default()]. *)
Definition parents_of (dag : Dag) (h : Hash) : list Hash := from_option blk_parents [] (dag !! h).

(** ** Searches

    The work-list loop all graph searches of the source share: pop a block, drop it
    if it is excluded or already collected, otherwise collect it and push its
    parents.  A [Vec] used as a stack is kept top first, so pushing a list in order
    reverses it. *)
Fixpoint walk (fuel : nat) (dag : Dag) (skip seen : gset Hash) (stack : list Hash) : gset Hash :=
  match fuel, stack with
  | S fuel, x :: stack =>
      if bool_decide (x ∈ skip) || bool_decide (x ∈ seen) then walk fuel dag skip seen stack
      else walk fuel dag skip ({[x]} ∪ seen) (rev (parents_of dag x) ++ stack)
  | _, _ => seen
  end.

(** Each block is expanded at most once, so the loop pops at most the initial stack
    and every parent edge. *)
Definition walk_fuel (dag : Dag) (stack : list Hash) : nat :=
  Z.to_nat (len stack + total (λ b, len (blk_parents b)) dag).

Definition search (dag : Dag) (skip seen : gset Hash) (vec : list Hash) : gset Hash :=
  walk (walk_fuel dag vec) dag skip seen (rev vec).

(** [bfs_ancestors] and [bfs_is_ancestor]. *)
Definition bfs_ancestors (dag : Dag) (b : Hash) : gset Hash := search dag ∅ ∅ (parents_of dag b).
Definition bfs_is_ancestor (dag : Dag) (a b : Hash) : bool := bool_decide (a ∈ bfs_ancestors dag b).

(** ** Ancestry as a relation *)

(** [edge dag x p]: [p] is a parent of [x]. *)
Definition edge (dag : Dag) (x p : Hash) : Prop := p ∈ parents_of dag x.
(** [ancestor dag a b]: [a] is a strict ancestor of [b]. *)
Definition ancestor (dag : Dag) (a b : Hash) : Prop := tc (edge dag) b a.
(** [in_past dag b a]: [a] is [b] or one of its ancestors. *)
Definition in_past (dag : Dag) (b a : Hash) : Prop := rtc (edge dag) b a.

(** ** Correctness of the search *)

Lemma elem_of_rev {A} (x : A) l : x ∈ rev l ↔ x ∈ l.
Proof. by rewrite !list_elem_of_In, <- in_rev. Qed.

(** The parent edges of blocks not collected yet. *)
Definition pending (dag : Dag) (seen : gset Hash) : Z :=
  total (λ b, len (blk_parents b)) (filter (λ kv, kv.1 ∉ seen) dag).

Lemma pending_nonneg dag seen : 0 <= pending dag seen.
Proof. apply total_nonneg. intros h b _. unfold len. lia. Qed.

Lemma pending_le dag seen : pending dag seen <= total (λ b, len (blk_parents b)) dag.
Proof. apply total_filter_le. intros b. unfold len. lia. Qed.

Lemma pending_step dag seen x :
  x ∉ seen → pending dag ({[x]} ∪ seen) = pending dag seen - len (parents_of dag x).
Proof.
  intros Hx. unfold pending.
  replace (filter (λ kv, kv.1 ∉ {[x]} ∪ seen) dag)
    with (delete x (filter (λ kv : Hash * Block, kv.1 ∉ seen) dag)).
  - rewrite total_delete. f_equal. unfold contrib, parents_of.
    destruct (dag !! x) as [b|] eqn:Hb; simpl.
    + by rewrite (map_lookup_filter_Some_2 _ _ _ _ Hb) by done.
    + by rewrite map_lookup_filter_None_2 by (by left).
  - apply map_eq. intros k. apply option_eq. intros b.
    rewrite lookup_delete_Some, !map_lookup_filter_Some. set_solver.
Qed.

Lemma walk_grows fuel dag skip seen stack : seen ⊆ walk fuel dag skip seen stack.
Proof.
  revert seen stack. induction fuel as [|fuel IH]; intros seen stack; [done|].
  destruct stack as [|x stack]; simpl; [done|].
  destruct (_ || _); [apply IH|]. etrans; [|apply IH]. set_solver.
Qed.

(** What the loop collects comes from the stack along parent edges. *)
Lemma walk_sound fuel dag skip seen stack x :
  x ∈ walk fuel dag skip seen stack →
  x ∈ seen ∨ ((x ∉ skip) ∧ ∃ s, s ∈ stack ∧ in_past dag s x).
Proof.
  revert seen stack. induction fuel as [|fuel IH]; intros seen stack; [by left|].
  destruct stack as [|y stack]; simpl; [by left|].
  destruct (bool_decide (y ∈ skip) || bool_decide (y ∈ seen)) eqn:Hy.
  - intros [?|(? & s & ? & ?)]%IH; [by left|]. right. split; [done|]. exists s. set_solver.
  - zbool. intros [Hx|(Hskip & s & Hs & Hp)]%IH.
    + apply elem_of_union in Hx as [->%elem_of_singleton|?]; [|by left].
      right. split; [done|]. exists y. split; [set_solver|apply rtc_refl].
    + right. split; [done|]. apply elem_of_app in Hs as [Hs|Hs].
      * exists y. split; [set_solver|]. eapply rtc_l; [|exact Hp].
        by apply elem_of_rev.
      * exists s. set_solver.
Qed.

(** With enough fuel it stops with nothing left to do. *)
Lemma walk_complete fuel dag skip seen stack :
  len stack + pending dag seen <= Z.of_nat fuel →
  let R := walk fuel dag skip seen stack in
  (∀ x, x ∈ stack → x ∈ R ∪ skip) ∧
  (∀ x p, x ∈ R → x ∉ seen → edge dag x p → p ∈ R ∪ skip).
Proof.
  revert seen stack. induction fuel as [|fuel IH]; intros seen stack Hfuel.
  { pose proof (pending_nonneg dag seen). destruct stack as [|y stack]; [|unfold len in *; simpl in *; lia].
    split; set_solver. }
  destruct stack as [|y stack]; [split; set_solver|]. cbn [walk].
  unfold len in Hfuel. cbn [length] in Hfuel.
  destruct (bool_decide (y ∈ skip) || bool_decide (y ∈ seen)) eqn:Hy.
  - destruct (IH seen stack) as [Hst Hcl]; [unfold len; lia|]. split; [|exact Hcl].
    intros x [->|Hx]%elem_of_cons; [|by apply Hst].
    apply orb_true_iff in Hy as [?|?]; zbool; [set_solver|].
    pose proof (walk_grows fuel dag skip seen stack). set_solver.
  - zbool. destruct (IH ({[y]} ∪ seen) (rev (parents_of dag y) ++ stack)) as [Hst Hcl].
    { rewrite pending_step by done. unfold len. rewrite length_app, length_rev. lia. }
    pose proof (walk_grows fuel dag skip ({[y]} ∪ seen) (rev (parents_of dag y) ++ stack)) as Hg.
    split.
    + intros x [->|Hx]%elem_of_cons; [set_solver|]. apply Hst. set_solver.
    + intros x p Hx Hseen Hp. destruct (decide (x = y)) as [->|Hne].
      * apply Hst, elem_of_app. left. by apply elem_of_rev.
      * apply (Hcl x p); [done|set_solver|done].
Qed.

Lemma search_complete dag skip seen vec :
  let R := search dag skip seen vec in
  (∀ x, x ∈ vec → x ∈ R ∪ skip) ∧
  (∀ x p, x ∈ R → x ∉ seen → edge dag x p → p ∈ R ∪ skip).
Proof.
  destruct (walk_complete (walk_fuel dag vec) dag skip seen (rev vec)) as [H1 H2].
  - unfold walk_fuel. pose proof (pending_le dag seen). unfold len in *. rewrite length_rev.
    pose proof (pending_nonneg dag seen). lia.
  - split; [|exact H2]. intros x Hx. apply H1. by apply elem_of_rev.
Qed.

Lemma search_sound dag skip seen vec x :
  x ∈ search dag skip seen vec → x ∈ seen ∨ ((x ∉ skip) ∧ ∃ s, s ∈ vec ∧ in_past dag s x).
Proof.
  intros [?|(? & s & Hs & ?)]%walk_sound; [by left|]. right. split; [done|]. exists s. split; [|done].
  by apply elem_of_rev.
Qed.

Lemma ancestor_in_past dag a b : ancestor dag a b ↔ ∃ p, edge dag b p ∧ in_past dag p a.
Proof.
  unfold ancestor, in_past. split.
  - destruct 1 as [? p He|? p ? He Hp]; exists p; (split; [done|]); [apply rtc_refl|by apply tc_rtc].
  - intros (p & He & Hp). eapply tc_rtc_r; [by apply tc_once|done].
Qed.

#[global] Instance ancestor_transitive dag : Transitive (ancestor dag).
Proof. intros a b c Hab Hbc. unfold ancestor in *. by trans b. Qed.

(** A set closed under parents contains the past of each of its members. *)
Lemma closed_past dag (S : gset Hash) x y :
  (∀ z p, z ∈ S → edge dag z p → p ∈ S) → x ∈ S → in_past dag x y → y ∈ S.
Proof. intros Hcl Hx Hp. induction Hp as [|x z y He _ IH]; [done|]. apply IH. by apply (Hcl x). Qed.

(** The reference search computes ancestry, on any graph. *)
Lemma bfs_ancestors_spec dag a b : a ∈ bfs_ancestors dag b ↔ ancestor dag a b.
Proof.
  rewrite ancestor_in_past. unfold bfs_ancestors.
  destruct (search_complete dag ∅ ∅ (parents_of dag b)) as [Hst Hcl]. split.
  - intros [?|(_ & s & Hs & Hp)]%search_sound; [set_solver|]. by exists s.
  - intros (p & He & Hp). rewrite (right_id_L ∅ (∪)) in Hst, Hcl.
    apply (closed_past dag _ p); [|by apply Hst|done].
    intros z q Hz Hq. apply (Hcl z q); set_solver.
Qed.

Lemma bfs_is_ancestor_spec dag a b : bfs_is_ancestor dag a b = true ↔ ancestor dag a b.
Proof. unfold bfs_is_ancestor. by rewrite bool_decide_eq_true, bfs_ancestors_spec. Qed.

(** ** The ancestry interface

    [is_ancestor r dag a b] is [Reachability::is_ancestor]; [oracle_ok r dag] is
    when its answers about blocks of [dag] are promised to be right. *)
Class AncestorOracle (R : Type) := {
  is_ancestor : R → Dag → Hash → Hash → bool;
  oracle_ok : R → Dag → Prop;
  is_ancestor_spec r dag a b :
    oracle_ok r dag → a ∈ dom dag → b ∈ dom dag →
    is_ancestor r dag a b = true ↔ ancestor dag a b;
}.

(** [Reachability::in_anticone]. *)
Definition in_anticone {R} `{!AncestorOracle R} (r : R) (dag : Dag) (x y : Hash) : bool :=
  negb (bool_decide (x = y)) && negb (is_ancestor r dag x y) && negb (is_ancestor r dag y x).

(** Concurrent blocks. *)
Definition concurrent (dag : Dag) (x y : Hash) : Prop :=
  x ≠ y ∧ ¬ ancestor dag x y ∧ ¬ ancestor dag y x.

#[global] Instance bfs_oracle : AncestorOracle unit.
Proof.
  refine {| is_ancestor _ := bfs_is_ancestor; oracle_ok _ _ := True |}.
  intros _ dag a b _ _ _. apply bfs_is_ancestor_spec.
Defined.

Lemma in_anticone_spec {R} `{!AncestorOracle R} (r : R) dag x y :
  oracle_ok r dag → x ∈ dom dag → y ∈ dom dag →
  in_anticone r dag x y = true ↔ concurrent dag x y.
Proof.
  intros Hr Hx Hy. unfold in_anticone, concurrent.
  rewrite !andb_true_iff, !negb_true_iff, bool_decide_eq_false, <- !not_true_iff_false.
  rewrite !is_ancestor_spec by done. tauto.
Qed.

Lemma concurrent_sym dag x y : concurrent dag x y ↔ concurrent dag y x.
Proof. unfold concurrent. naive_solver. Qed.

(** ** Growth of the graph

    A new block leaves the past of the old ones alone. *)
Lemma edge_insert_ne dag h b x p : x ≠ h → edge (<[h:=b]> dag) x p ↔ edge dag x p.
Proof. intros. unfold edge, parents_of. by rewrite lookup_insert_ne. Qed.

Lemma edge_dom dag x p : edge dag x p → x ∈ dom dag.
Proof.
  unfold edge, parents_of. rewrite elem_of_dom. destruct (dag !! x); [done|]. simpl. set_solver.
Qed.

(** Every parent of a block of the graph is in the graph. *)
Definition parents_closed (dag : Dag) : Prop := ∀ x p, edge dag x p → p ∈ dom dag.

Lemma in_past_dom dag x y : parents_closed dag → x ∈ dom dag → in_past dag x y → y ∈ dom dag.
Proof. intros Hc Hx Hp. induction Hp; [done|]. eauto. Qed.

Lemma in_past_insert dag h b x y :
  parents_closed dag → h ∉ dom dag → x ∈ dom dag →
  in_past (<[h:=b]> dag) x y ↔ in_past dag x y.
Proof.
  intros Hc Hh Hx. split; intros Hp.
  - induction Hp as [|x z y He _ IH]; [apply rtc_refl|].
    apply edge_insert_ne in He; [|by intros ->]. eapply rtc_l; [done|]. apply IH. by eapply Hc.
  - induction Hp as [|x z y He _ IH]; [apply rtc_refl|].
    eapply rtc_l; [apply edge_insert_ne; [by intros ->|done]|]. apply IH. by eapply Hc.
Qed.

Lemma ancestor_insert dag h b x y :
  parents_closed dag → h ∉ dom dag → y ∈ dom dag →
  ancestor (<[h:=b]> dag) x y ↔ ancestor dag x y.
Proof.
  intros Hc Hh Hy. rewrite !ancestor_in_past. f_equiv; intros p.
  rewrite edge_insert_ne by (by intros ->). split; intros [He Hp]; (split; [done|]).
  - by apply (in_past_insert dag h b p x Hc Hh (Hc _ _ He)).
  - by apply (in_past_insert dag h b p x Hc Hh (Hc _ _ He)).
Qed.

Lemma concurrent_insert dag h b x y :
  parents_closed dag → h ∉ dom dag → x ∈ dom dag → y ∈ dom dag →
  concurrent (<[h:=b]> dag) x y ↔ concurrent dag x y.
Proof. intros. unfold concurrent. by rewrite !ancestor_insert. Qed.
