(* ===== verification/Ghostdag.v ===== *)
(** * GHOSTDAG

    [src/src/ghostdag.rs]: the selected parent, the mergeset of a new block, its
    topological order, the k-cluster colouring, and the selected chain; with the
    canonical order of [ChainState] ([src/src/lib.rs]) that replays it.  The
    theorems are about every DAG that block admission can build ([built]). *)

From S2P Require Import Prelude Genesis Crypto Address Predicate Utxo UtxoTx Registry Custody Block Dag.

Definition GHOSTDAG_K : Z := 40.

Record GhostdagData := {
  gd_blue_score : Z;
  gd_selected_parent : option Hash;
  gd_mergeset_blues : list Hash;
  gd_mergeset_reds : list Hash;
}.
Abbreviation GdMap := (gmap Hash GhostdagData).

(** [GhostdagData::genesis]. *)
Definition GhostdagData_genesis : GhostdagData :=
  {| gd_blue_score := 0; gd_selected_parent := None; gd_mergeset_blues := []; gd_mergeset_reds := [] |}.

(** [ghostdag[h].blue_score]; only applied to keys of the map. *)
Definition score_of (gd : GdMap) (h : Hash) : Z := from_option gd_blue_score 0 (gd !! h).

(** ** Selection *)

(** The comparison of [select_parent] and [selected_tip]: blue score, then hash. *)
Definition key_le (gd : GdMap) (a b : Hash) : bool :=
  (score_of gd a <? score_of gd b) || ((score_of gd a =? score_of gd b) && (a <=? b)).

(** [Iterator::max_by]: the last of the greatest elements. *)
Definition max_by (le : Hash → Hash → bool) (l : list Hash) : option Hash :=
  foldl (λ acc x, match acc with None => Some x | Some m => if le m x then Some x else Some m end) None l.

Definition select_parent (gd : GdMap) (parents : list Hash) : option Hash :=
  max_by (key_le gd) (List.filter (λ p, bool_decide (p ∈ dom gd)) parents).
Definition selected_tip (gd : GdMap) (tips : list Hash) : option Hash :=
  max_by (key_le gd) (List.filter (λ t, bool_decide (t ∈ dom gd)) tips).

(** ** Walks along selected parents *)

(** Selected parents of admitted blocks never repeat, so the size of the map bounds
    the walk ([chain_loop_enough]). *)
Definition chain_fuel (gd : GdMap) : nat := S (size gd).

Fixpoint blues_loop (fuel : nat) (gd : GdMap) (cursor : option Hash) (blues : gset Hash) : gset Hash :=
  match fuel, cursor with
  | S fuel, Some h =>
      match gd !! h with
      | Some d => blues_loop fuel gd (gd_selected_parent d) (list_to_set (gd_mergeset_blues d) ∪ blues)
      | None => blues
      end
  | _, _ => blues
  end.
Definition materialized_blues (gd : GdMap) (block : Hash) : gset Hash :=
  blues_loop (chain_fuel gd) gd (Some block) {[block]}.

Fixpoint chain_loop (fuel : nat) (gd : GdMap) (cursor : option Hash) : list Hash :=
  match fuel, cursor with
  | S fuel, Some h => h :: chain_loop fuel gd (gd !! h ≫= gd_selected_parent)
  | _, _ => []
  end.
Definition selected_chain (gd : GdMap) (tip : Hash) : list Hash :=
  rev (chain_loop (chain_fuel gd) gd (Some tip)).

(** ** The mergeset

    The source returns a hash set in iteration order; [elements] is one such order,
    and [topological_order], its only consumer, does not depend on it
    ([topological_order_perm]). *)
Definition mergeset (dag : Dag) (parents : list Hash) (selected_parent : Hash) : list Hash :=
  let sp_past := search dag ∅ {[selected_parent]} (parents_of dag selected_parent) in
  elements (search dag sp_past ∅ parents).

Definition rank_le (a b : Z * Hash) : Prop := a.1 < b.1 ∨ (a.1 = b.1 ∧ a.2 <= b.2).
#[global] Instance rank_le_dec : RelDecision rank_le.
Proof. intros a b. unfold rank_le. apply _. Defined.

Section ghostdag.
Context {R : Type} `{!AncestorOracle R}.
Implicit Types (r : R) (dag : Dag) (gd : GdMap).

Definition in_set_ancestors r dag (ms : list Hash) (h : Hash) : list Hash :=
  let set : gset Hash := list_to_set ms in
  List.filter (λ other, negb (bool_decide (other = h)) && bool_decide (other ∈ set) &&
                        is_ancestor r dag other h) ms.
Definition topological_order r dag (ms : list Hash) : list Hash :=
  (merge_sort rank_le ((λ h, (len (in_set_ancestors r dag ms h), h)) <$> ms)).*2.

(** ** Colouring *)

Definition blue_anticone r dag (current_blues : gset Hash) (x : Hash) : list Hash :=
  List.filter (λ b, in_anticone r dag b x) (elements current_blues).

Definition color_candidate_blue r dag (current_blues : gset Hash) (candidate : Hash) : bool :=
  let candidate_anticone := blue_anticone r dag current_blues candidate in
  if GHOSTDAG_K <? len candidate_anticone then false else
  forallb (λ d, negb (GHOSTDAG_K <=? len (blue_anticone r dag current_blues d))) candidate_anticone.

Record Coloring := { current_blues : gset Hash; col_blues : list Hash; col_reds : list Hash }.
Definition color_step r dag (c : Coloring) (candidate : Hash) : Coloring :=
  if color_candidate_blue r dag (current_blues c) candidate
  then {| current_blues := {[candidate]} ∪ current_blues c; col_blues := col_blues c ++ [candidate];
          col_reds := col_reds c |}
  else {| current_blues := current_blues c; col_blues := col_blues c;
          col_reds := col_reds c ++ [candidate] |}.

Definition try_compute_ghostdag_data r dag gd (parents : list Hash) (max_mergeset : Z)
    : result GhostdagData :=
  match select_parent gd parents with
  | None => Ok GhostdagData_genesis
  | Some selected_parent =>
      let ms := mergeset dag parents selected_parent in
      fail_if max_mergeset <? len ms as
        ("Mergeset too large: " +:+ pretty (len ms) +:+ " blocks exceeds cap " +:+ pretty max_mergeset);
      let c := foldl (color_step r dag)
        {| current_blues := materialized_blues gd selected_parent;
           col_blues := [selected_parent]; col_reds := [] |}
        (topological_order r dag ms) in
      Ok {| gd_blue_score := wrap 64 (score_of gd selected_parent + len (col_blues c));
            gd_selected_parent := Some selected_parent;
            gd_mergeset_blues := col_blues c;
            gd_mergeset_reds := col_reds c |}
  end.
End ghostdag.

(** ** The canonical order of [ChainState] *)

(** [gd.mergeset_blues.iter().skip(1).chain(gd.mergeset_reds.iter())]. *)
Definition merged (d : GhostdagData) : list Hash := drop 1 (gd_mergeset_blues d) ++ gd_mergeset_reds d.

(** [if cond && seen.insert(m) { order.push(m) }]. *)
Definition emit (cond : bool) (so : gset Hash * list Hash) (m : Hash) : gset Hash * list Hash :=
  if cond && negb (bool_decide (m ∈ so.1)) then ({[m]} ∪ so.1, so.2 ++ [m]) else so.
Definition emit_chain_block (dag : Dag) (gd : GdMap) (so : gset Hash * list Hash) (h : Hash)
    : gset Hash * list Hash :=
  let so := match gd !! h with
            | Some d => foldl (λ so m, emit (bool_decide (m ∈ dom dag)) so m) so (merged d)
            | None => so
            end in
  emit true so h.
Definition canonical_order_at (dag : Dag) (gd : GdMap) (tip : Hash) : list Hash :=
  if negb (bool_decide (tip ∈ dom gd)) then [] else
  (foldl (emit_chain_block dag gd) (∅, []) (selected_chain gd tip)).2.
Definition canonical_order (dag : Dag) (gd : GdMap) (tips : list Hash) : list Hash :=
  match selected_tip gd tips with Some t => canonical_order_at dag gd t | None => [] end.

(** ** Selection picks the greatest key *)

Lemma key_le_spec gd a b :
  key_le gd a b = true ↔ score_of gd a < score_of gd b ∨ (score_of gd a = score_of gd b ∧ a <= b).
Proof. unfold key_le. rewrite orb_true_iff, andb_true_iff, Z.ltb_lt, Z.eqb_eq, Z.leb_le. done. Qed.

Lemma max_by_foldl gd l acc :
  ∃ m, foldl (λ acc x, match acc with None => Some x
                       | Some m => if key_le gd m x then Some x else Some m end) (Some acc) l = Some m ∧
       (m = acc ∨ m ∈ l) ∧ key_le gd acc m = true ∧ ∀ x, x ∈ l → key_le gd x m = true.
Proof.
  revert acc. induction l as [|y l IH]; intros acc; simpl.
  - exists acc. split; [done|]. split; [by left|]. split; [apply key_le_spec; lia|set_solver].
  - destruct (key_le gd acc y) eqn:Hy.
    + destruct (IH y) as (m & -> & Hin & Hm & Hall). exists m. split; [done|].
      rewrite key_le_spec in Hm, Hy. split; [set_solver|].
      split; [apply key_le_spec; lia|].
      intros x [->|?]%elem_of_cons; [apply key_le_spec; lia|auto].
    + destruct (IH acc) as (m & -> & Hin & Hm & Hall). exists m. split; [done|].
      apply not_true_iff_false in Hy. rewrite key_le_spec in Hm, Hy. split; [set_solver|].
      split; [apply key_le_spec; lia|].
      intros x [->|?]%elem_of_cons; [apply key_le_spec; lia|auto].
Qed.

Lemma max_by_Some gd l m :
  max_by (key_le gd) l = Some m → m ∈ l ∧ ∀ x, x ∈ l → key_le gd x m = true.
Proof.
  destruct l as [|y l]; [done|]. unfold max_by. simpl.
  destruct (max_by_foldl gd l y) as (m' & -> & Hin & Hm & Hall). intros [= <-]. split; [set_solver|].
  intros x [->|?]%elem_of_cons; auto.
Qed.

Lemma max_by_None gd l : max_by (key_le gd) l = None → l = [].
Proof.
  destruct l as [|y l]; [done|]. unfold max_by. simpl.
  by destruct (max_by_foldl gd l y) as (m' & -> & _).
Qed.

Lemma elem_of_filter_bool {A} (f : A → bool) l x : x ∈ List.filter f l ↔ f x = true ∧ x ∈ l.
Proof. rewrite !list_elem_of_In, filter_In. tauto. Qed.

Lemma filter_bool_perm {A} (f : A → bool) l l' : l ≡ₚ l' → List.filter f l ≡ₚ List.filter f l'.
Proof.
  induction 1 as [|x l l' _ IH|x y l|l1 l2 l3 _ IH1 _ IH2]; simpl; [done| | |by etrans].
  - destruct (f x); [by constructor|done].
  - destruct (f x), (f y); try done. apply perm_swap.
Qed.

Lemma select_parent_Some gd ps s :
  select_parent gd ps = Some s →
  s ∈ ps ∧ s ∈ dom gd ∧ ∀ p, p ∈ ps → p ∈ dom gd → key_le gd p s = true.
Proof.
  intros [Hin Hmax]%max_by_Some. apply elem_of_filter_bool in Hin as [Hd Hin]. zbool.
  split_and!; [done|done|]. intros p Hp Hpd. apply Hmax, elem_of_filter_bool.
  by rewrite bool_decide_eq_true.
Qed.

Lemma select_parent_None gd ps p : select_parent gd ps = None → p ∈ ps → p ∉ dom gd.
Proof.
  intros Hn%max_by_None Hp Hd.
  assert (p ∈ List.filter (λ p, bool_decide (p ∈ dom gd)) ps) as Hin.
  { apply elem_of_filter_bool. by rewrite bool_decide_eq_true. }
  rewrite Hn in Hin. set_solver.
Qed.

(** ** The mergeset is the part of the past the selected parent does not reach *)

Lemma sp_past_spec dag s x :
  x ∈ search dag ∅ {[s]} (parents_of dag s) ↔ in_past dag s x.
Proof.
  destruct (search_complete dag ∅ {[s]} (parents_of dag s)) as [Hst Hcl].
  pose proof (walk_grows (walk_fuel dag (parents_of dag s)) dag ∅ {[s]} (rev (parents_of dag s))) as Hg.
  fold (search dag ∅ {[s]} (parents_of dag s)) in Hg.
  rewrite (right_id_L ∅ (∪)) in Hst, Hcl. split.
  - intros [->%elem_of_singleton|(_ & y & Hy & Hp)]%search_sound; [apply rtc_refl|].
    by eapply rtc_l.
  - intros Hp. eapply closed_past; [|apply Hg, elem_of_singleton; reflexivity|done].
    intros z p Hz He. destruct (decide (z = s)) as [->|Hne]; [by apply Hst|].
    apply (Hcl z p); set_solver.
Qed.

Lemma elem_of_mergeset dag ps s x :
  x ∈ mergeset dag ps s ↔ (∃ p, p ∈ ps ∧ in_past dag p x) ∧ ¬ in_past dag s x.
Proof.
  unfold mergeset. set (P := search dag ∅ {[s]} (parents_of dag s)).
  assert (∀ y, y ∈ P ↔ in_past dag s y) as HP by apply sp_past_spec.
  destruct (search_complete dag P ∅ ps) as [Hst Hcl]. rewrite elem_of_elements. split.
  - intros [?|(Hskip & p & Hp & Hpath)]%search_sound; [set_solver|].
    rewrite HP in Hskip. split; [by exists p|done].
  - intros [(p & Hp & Hpath) Hns].
    assert (∀ y, y ∈ search dag P ∅ ps ∪ P → in_past dag y x → x ∈ search dag P ∅ ps ∪ P) as Hc.
    { intros y. apply closed_past. intros z q [Hz|Hz]%elem_of_union Hq.
      - apply (Hcl z q); set_solver.
      - apply elem_of_union. right. rewrite HP in *. by eapply rtc_r. }
    specialize (Hc p (Hst p Hp) Hpath). rewrite elem_of_union, HP in Hc. naive_solver.
Qed.

Lemma NoDup_mergeset dag ps s : NoDup (mergeset dag ps s).
Proof. apply NoDup_elements. Qed.

(** ** The order of the mergeset *)

(** [topo_ordered dag l]: no block of [l] comes after one of its descendants. *)
Definition topo_ordered (dag : Dag) (l : list Hash) : Prop :=
  StronglySorted (λ x y, ¬ ancestor dag y x) l.

Lemma StronglySorted_weaken {A} (P Q : A → A → Prop) l :
  (∀ x y, x ∈ l → y ∈ l → P x y → Q x y) → StronglySorted P l → StronglySorted Q l.
Proof.
  intros HPQ Hs. induction Hs as [|x l Hs IH Hx]; constructor.
  - apply IH. intros; apply HPQ; set_solver.
  - rewrite Forall_forall in *. intros y Hy. apply HPQ; [set_solver..|auto].
Qed.

Lemma StronglySorted_sublist {A} (P : A → A → Prop) l l' :
  l' `sublist_of` l → StronglySorted P l → StronglySorted P l'.
Proof.
  induction 1 as [|x l' l Hsub IH|x l' l Hsub IH]; intros Hs; [done| |]; inversion Hs; subst; [|auto].
  constructor; [auto|]. rewrite Forall_forall in *. intros y Hy. by eauto using elem_of_sublist.
Qed.

#[global] Instance rank_le_total : Total rank_le.
Proof. intros a b. unfold rank_le. lia. Qed.
#[global] Instance rank_le_trans : Transitive rank_le.
Proof. intros a b c. unfold rank_le. lia. Qed.
Lemma rank_le_antisym a b : rank_le a b → rank_le b a → a = b.
Proof. destruct a, b. unfold rank_le. simpl. intros. f_equal; lia. Qed.
#[global] Instance rank_le_AntiSymm : AntiSymm (=) rank_le.
Proof. intros a b. apply rank_le_antisym. Qed.

Section order.
Context {R : Type} `{!AncestorOracle R}.
Implicit Types (r : R) (dag : Dag).

Lemma topological_order_permutation r dag ms : topological_order r dag ms ≡ₚ ms.
Proof.
  unfold topological_order. rewrite (merge_sort_Permutation rank_le).
  rewrite <- list_fmap_compose. by rewrite list_fmap_id.
Qed.

Lemma in_set_ancestors_perm r dag ms ms' h :
  ms ≡ₚ ms' → len (in_set_ancestors r dag ms h) = len (in_set_ancestors r dag ms' h).
Proof.
  intros Hp. unfold in_set_ancestors. rewrite (list_to_set_perm_L _ _ Hp).
  unfold len. f_equal. apply Permutation_length.
  by apply filter_bool_perm.
Qed.

(** The result does not depend on the iteration order of the hash set. *)
Lemma topological_order_perm r dag ms ms' :
  ms ≡ₚ ms' → topological_order r dag ms = topological_order r dag ms'.
Proof.
  intros Hp. unfold topological_order. f_equal. apply (Sorted_unique rank_le).
  - apply Sorted_merge_sort; apply _.
  - apply Sorted_merge_sort; apply _.
  - rewrite !merge_sort_Permutation.
    rewrite (list_fmap_ext _ (λ h, (len (in_set_ancestors r dag ms' h), h)) ms); [by rewrite Hp|].
    intros _ h _. simpl. by rewrite (in_set_ancestors_perm _ _ ms ms').
Qed.

Lemma elem_of_in_set_ancestors r dag ms h x :
  oracle_ok r dag → (∀ x, x ∈ ms → x ∈ dom dag) → h ∈ ms → (∀ x, ¬ ancestor dag x x) →
  x ∈ in_set_ancestors r dag ms h ↔ x ∈ ms ∧ ancestor dag x h.
Proof.
  intros Hr Hd Hh Hac. unfold in_set_ancestors.
  rewrite elem_of_filter_bool, !andb_true_iff, negb_true_iff, bool_decide_eq_false, bool_decide_eq_true,
    elem_of_list_to_set. split.
  - intros [[_ Ha] Hx]. split; [done|]. apply (is_ancestor_spec r) in Ha; auto.
  - intros [Hx Ha]. split_and!; [by intros ->; eapply Hac|done| |done]. apply is_ancestor_spec; auto.
Qed.

Lemma in_set_ancestors_lt r dag ms a b :
  oracle_ok r dag → (∀ x, x ∈ ms → x ∈ dom dag) → NoDup ms → (∀ x, ¬ ancestor dag x x) →
  a ∈ ms → b ∈ ms → ancestor dag a b →
  len (in_set_ancestors r dag ms b) > len (in_set_ancestors r dag ms a).
Proof.
  intros Hr Hd Hnd Hac Ha Hb Hab. unfold len.
  assert (a :: in_set_ancestors r dag ms a ⊆+ in_set_ancestors r dag ms b) as Hsub%submseteq_length.
  { apply NoDup_submseteq.
    - constructor; [rewrite elem_of_in_set_ancestors by done; intros [_ ?]; by eapply Hac|].
      apply NoDup_ListNoDup, List.NoDup_filter, NoDup_ListNoDup. done.
    - intros x [->|Hx]%elem_of_cons; apply elem_of_in_set_ancestors; auto.
      apply elem_of_in_set_ancestors in Hx as [Hx Hxa]; [|done..]. split; [done|]. by etrans. }
  simpl in Hsub. lia.
Qed.

(** A block comes after its ancestors, in a graph without cycles. *)
Lemma topological_order_sorted r dag ms :
  oracle_ok r dag → (∀ x, x ∈ ms → x ∈ dom dag) → NoDup ms → (∀ x, ¬ ancestor dag x x) →
  topo_ordered dag (topological_order r dag ms).
Proof.
  intros Hr Hd Hnd Hac. unfold topological_order, topo_ordered.
  set (l := (λ h, (len (in_set_ancestors r dag ms h), h)) <$> ms).
  assert (StronglySorted rank_le (merge_sort rank_le l)) as Hs by (apply StronglySorted_merge_sort; apply _).
  assert (∀ p, p ∈ merge_sort rank_le l → p.2 ∈ ms ∧ p.1 = len (in_set_ancestors r dag ms p.2)) as Hl.
  { intros p. rewrite merge_sort_Permutation. intros (h & -> & Hh)%list_elem_of_fmap. done. }
  induction Hs as [|p l' Hs IH Hp]; simpl; constructor.
  { apply IH. intros q Hq. apply Hl. set_solver. }
  apply Forall_forall. intros y (q & -> & Hq)%list_elem_of_fmap Hanc.
  rewrite Forall_forall in Hp. specialize (Hp q Hq).
  destruct (Hl p) as [Hpm Hpr]; [set_solver|]. destruct (Hl q) as [Hqm Hqr]; [set_solver|].
  assert (p.1 > q.1); [|destruct Hp; lia]. rewrite Hpr, Hqr.
  by apply in_set_ancestors_lt.
Qed.
End order.

(** ** Walks along selected parents terminate

    [gd_wf]: a selected parent is known and has a smaller blue score. *)
Definition gd_wf (gd : GdMap) : Prop :=
  ∀ h d s, gd !! h = Some d → gd_selected_parent d = Some s →
    ∃ ds, gd !! s = Some ds ∧ 0 <= gd_blue_score ds < gd_blue_score d.

(** Induction along selected parents. *)
Lemma gd_ind gd (P : Hash → Prop) :
  gd_wf gd →
  (∀ h d, gd !! h = Some d → (∀ s, gd_selected_parent d = Some s → P s) → P h) →
  ∀ h, h ∈ dom gd → P h.
Proof.
  intros Hwf Hstep h [d Hd]%elem_of_dom.
  remember (Z.to_nat (gd_blue_score d)) as n eqn:Hn. revert h d Hd Hn.
  induction (lt_wf n) as [n _ IH]; intros h d Hd ->. apply (Hstep h d Hd).
  intros s Hs. destruct (Hwf h d s Hd Hs) as (ds & Hds & Hlt). eapply IH; [|exact Hds|done]. lia.
Qed.

(** The blocks of smaller score than [h]: what a walk from [h] can still visit. *)
Definition lower (gd : GdMap) (h : Hash) : GdMap :=
  filter (λ kv, gd_blue_score kv.2 < score_of gd h) gd.

Lemma lower_size_dom gd h : h ∈ dom gd → (size (lower gd h) < size gd)%nat.
Proof.
  intros [d Hd]%elem_of_dom. apply map_subset_size, strict_spec_alt. split.
  - apply map_filter_subseteq.
  - intros Heq. assert (lower gd h !! h = Some d) as HN by by rewrite Heq.
    apply map_lookup_filter_Some in HN as [_ HN]. unfold score_of in HN. rewrite Hd in HN. simpl in HN. lia.
Qed.

Lemma lower_size_parent gd h d s :
  gd_wf gd → gd !! h = Some d → gd_selected_parent d = Some s →
  (size (lower gd s) < size (lower gd h))%nat.
Proof.
  intros Hwf Hd Hs. destruct (Hwf h d s Hd Hs) as (ds & Hds & Hlt).
  assert (score_of gd h = gd_blue_score d) as Hh by (unfold score_of; by rewrite Hd).
  assert (score_of gd s = gd_blue_score ds) as Hs' by (unfold score_of; by rewrite Hds).
  apply map_subset_size. apply strict_spec_alt. split.
  - apply map_filter_subseteq_ext. intros k v Hk. simpl. lia.
  - intros Heq. assert (lower gd s !! s = None) as HN.
    { apply map_lookup_filter_None_2. right. intros v Hv. simpl. rewrite Hds in Hv. injection Hv as <-. lia. }
    rewrite Heq in HN. unfold lower in HN. rewrite map_lookup_filter_None in HN.
    destruct HN as [HN|HN]; [congruence|]. apply (HN ds Hds). simpl. lia.
Qed.

Lemma blues_loop_acc fuel gd c B : blues_loop fuel gd c B = blues_loop fuel gd c ∅ ∪ B.
Proof.
  revert c B. induction fuel as [|fuel IH]; intros c B; simpl; [set_solver|].
  destruct c as [h|]; [|set_solver]. destruct (gd !! h) as [d|]; [|set_solver].
  rewrite IH, (IH _ (_ ∪ ∅)). set_solver.
Qed.

(** Any fuel beyond the number of lower blocks gives the same walk. *)
Lemma blues_loop_enough gd h n m B :
  gd_wf gd → h ∈ dom gd → (size (lower gd h) < n)%nat → (size (lower gd h) < m)%nat →
  blues_loop n gd (Some h) B = blues_loop m gd (Some h) B.
Proof.
  intros Hwf Hh. revert n m B. revert h Hh. refine (gd_ind gd _ Hwf _). intros h d Hd IH n m B Hn Hm.
  destruct n as [|n], m as [|m]; [lia..|]. simpl. rewrite Hd.
  destruct (gd_selected_parent d) as [s|] eqn:Hs; [|by destruct n, m].
  pose proof (lower_size_parent gd h d s Hwf Hd Hs). apply IH; [done|lia|lia].
Qed.

Lemma chain_loop_enough gd h n m :
  gd_wf gd → h ∈ dom gd → (size (lower gd h) < n)%nat → (size (lower gd h) < m)%nat →
  chain_loop n gd (Some h) = chain_loop m gd (Some h).
Proof.
  intros Hwf Hh. revert n m. revert h Hh. refine (gd_ind gd _ Hwf _). intros h d Hd IH n m Hn Hm.
  destruct n as [|n], m as [|m]; [lia..|]. simpl. rewrite Hd. simpl. f_equal.
  destruct (gd_selected_parent d) as [s|] eqn:Hs; [|by destruct n, m].
  pose proof (lower_size_parent gd h d s Hwf Hd Hs). apply IH; [done|lia|lia].
Qed.

Lemma gd_parent_dom gd h d s :
  gd_wf gd → gd !! h = Some d → gd_selected_parent d = Some s → s ∈ dom gd.
Proof. intros Hwf Hd Hs. destruct (Hwf _ _ _ Hd Hs) as (ds & ? & _). by eapply elem_of_dom_2. Qed.

(** The recursion equations of the two walks. *)
Lemma selected_chain_eq gd h d :
  gd_wf gd → gd !! h = Some d →
  selected_chain gd h =
    from_option (selected_chain gd) [] (gd_selected_parent d) ++ [h].
Proof.
  intros Hwf Hd. unfold selected_chain at 1, chain_fuel. cbn [chain_loop]. rewrite Hd. simpl. f_equal.
  destruct (gd_selected_parent d) as [s|] eqn:Hs; simpl; [|by destruct (size gd)].
  unfold selected_chain. f_equal. pose proof (gd_parent_dom _ _ _ _ Hwf Hd Hs) as Hsd.
  pose proof (lower_size_dom gd s Hsd). apply chain_loop_enough; [done..|unfold chain_fuel; lia].
Qed.

Lemma materialized_blues_eq gd h d :
  gd_wf gd → gd !! h = Some d →
  (∀ s, gd_selected_parent d = Some s → s ∈ gd_mergeset_blues d) →
  materialized_blues gd h =
    {[h]} ∪ list_to_set (gd_mergeset_blues d) ∪
    from_option (materialized_blues gd) ∅ (gd_selected_parent d).
Proof.
  intros Hwf Hd Hin. unfold materialized_blues at 1, chain_fuel. cbn [blues_loop]. rewrite Hd.
  destruct (gd_selected_parent d) as [s|] eqn:Hs; simpl; [|destruct (size gd); simpl; set_solver].
  pose proof (gd_parent_dom _ _ _ _ Hwf Hd Hs) as Hsd. pose proof (lower_size_dom gd s Hsd).
  unfold materialized_blues, chain_fuel.
  rewrite (blues_loop_enough gd s (size gd) (S (size gd))) by (done || lia).
  rewrite blues_loop_acc. rewrite (blues_loop_acc _ _ _ {[s]}).
  specialize (Hin s eq_refl). set_solver.
Qed.

(** A new entry does not disturb the walks of the old ones. *)
Lemma walks_insert gd k dk h :
  gd_wf gd → gd_wf (<[k:=dk]> gd) → k ∉ dom gd → h ∈ dom gd →
  (∀ h d s, gd !! h = Some d → gd_selected_parent d = Some s → s ∈ gd_mergeset_blues d) →
  selected_chain (<[k:=dk]> gd) h = selected_chain gd h ∧
  materialized_blues (<[k:=dk]> gd) h = materialized_blues gd h.
Proof.
  intros Hwf Hwf' Hk Hh Hin. revert h Hh. refine (gd_ind gd _ Hwf _). intros h d Hd IH.
  assert (<[k:=dk]> gd !! h = Some d) as Hd'.
  { rewrite lookup_insert_ne; [done|]. intros ->. apply Hk. by eapply elem_of_dom_2. }
  rewrite (selected_chain_eq _ h d Hwf Hd), (selected_chain_eq _ h d Hwf' Hd').
  rewrite (materialized_blues_eq _ h d Hwf Hd), (materialized_blues_eq _ h d Hwf' Hd') by (intros; by eapply Hin).
  destruct (gd_selected_parent d) as [s|]; simpl; [|done].
  by destruct (IH s eq_refl) as [-> ->].
Qed.

(** ** The k-cluster rule *)

(** No member of [S] is concurrent with more than [K] members of [S]. *)
Definition k_cluster (dag : Dag) (S : gset Hash) : Prop :=
  ∀ x T, x ∈ S → T ⊆ S → (∀ y, y ∈ T → concurrent dag x y) → Z.of_nat (size T) <= GHOSTDAG_K.

Lemma k_cluster_ext dag dag' S :
  (∀ x y, x ∈ S → y ∈ S → concurrent dag' x y → concurrent dag x y) →
  k_cluster dag S → k_cluster dag' S.
Proof. intros Hc Hk x T Hx HT Hall. apply (Hk x T Hx HT). intros y Hy. apply Hc; set_solver. Qed.

(** A member comparable with all others does not hurt. *)
Lemma k_cluster_comparable dag S h :
  k_cluster dag S → (∀ x, x ∈ S → ancestor dag x h) → k_cluster dag ({[h]} ∪ S).
Proof.
  intros Hk Ha x T Hx HT Hall. destruct (decide (x = h)) as [->|Hne].
  - replace T with (∅ : gset Hash); [rewrite size_empty; unfold GHOSTDAG_K; lia|].
    symmetry. apply elem_of_equiv_empty_L. intros y Hy. destruct (Hall y Hy) as (Hxy & _ & Hnb).
    apply Hnb, Ha. set_solver.
  - apply (Hk x T); [set_solver| |done]. intros y Hy. destruct (decide (y = h)) as [->|]; [|set_solver].
    destruct (Hall h Hy) as (_ & Hna & _). exfalso. apply Hna, Ha. set_solver.
Qed.

Lemma size_le_list (T : gset Hash) l : (∀ y, y ∈ T → y ∈ l) → Z.of_nat (size T) <= len l.
Proof.
  intros HT. unfold len. apply inj_le. change (size T) with (length (elements T)).
  apply submseteq_length, NoDup_submseteq; [apply NoDup_elements|].
  intros y Hy. by apply HT, elem_of_elements.
Qed.

Section coloring.
Context {R : Type} `{!AncestorOracle R}.
Context (r : R) (dag : Dag) (Hr : oracle_ok r dag).

Lemma elem_of_blue_anticone S x y :
  S ⊆ dom dag → x ∈ dom dag → y ∈ blue_anticone r dag S x ↔ y ∈ S ∧ concurrent dag y x.
Proof.
  intros HS Hx. unfold blue_anticone. rewrite elem_of_filter_bool, elem_of_elements, (and_comm (y ∈ S)).
  split; intros [H1 H2]; (split; [|done]); apply (in_anticone_spec r dag y x); auto.
Qed.

(** A candidate coloured blue keeps the cluster a k-cluster. *)
Lemma color_candidate_blue_sound S c :
  S ⊆ dom dag → c ∈ dom dag → c ∉ S → k_cluster dag S →
  color_candidate_blue r dag S c = true → k_cluster dag ({[c]} ∪ S).
Proof.
  intros HS Hc HcS Hk Hcol. unfold color_candidate_blue in Hcol.
  destruct (GHOSTDAG_K <? _) eqn:Hlen; [done|]. zbool. rewrite forallb_forall in Hcol.
  intros x T Hx HT Hall. destruct (decide (x = c)) as [->|Hne].
  - etrans; [apply (size_le_list T (blue_anticone r dag S c))|done]. intros y Hy.
    pose proof (Hall y Hy) as Hcon. apply elem_of_blue_anticone; [done..|].
    split; [|by apply concurrent_sym]. destruct Hcon as [? _]. set_solver.
  - assert (x ∈ S) as HxS by set_solver. destruct (decide (c ∈ T)) as [HcT|HcT].
    + assert (x ∈ blue_anticone r dag S c) as Hxa.
      { apply elem_of_blue_anticone; [done..|]. split; [done|]. by apply Hall. }
      specialize (Hcol x (proj1 (list_elem_of_In _ _) Hxa)). zbool.
      assert (Z.of_nat (size (T ∖ {[c]})) <= len (blue_anticone r dag S x)) as Hsz.
      { apply size_le_list. intros y Hy. apply elem_of_blue_anticone; [done|set_solver|].
        split; [set_solver|]. apply concurrent_sym, Hall. set_solver. }
      rewrite size_difference in Hsz by set_solver. rewrite size_singleton in Hsz. lia.
    + apply (Hk x T); [done|set_solver|done].
Qed.

(** The colouring loop: what it adds to a cluster. *)
Lemma color_fold l c :
  NoDup l → (∀ x, x ∈ l → x ∈ dom dag ∧ x ∉ current_blues c) → current_blues c ⊆ dom dag →
  k_cluster dag (current_blues c) →
  ∃ bl rd, let c' := foldl (color_step r dag) c l in
    bl ++ rd ≡ₚ l ∧ bl `sublist_of` l ∧ rd `sublist_of` l ∧
    col_blues c' = col_blues c ++ bl ∧ col_reds c' = col_reds c ++ rd ∧
    current_blues c' = list_to_set bl ∪ current_blues c ∧ k_cluster dag (current_blues c').
Proof.
  revert c. induction l as [|x l IH]; intros c Hnd Hl Hd Hk; simpl.
  { exists [], []. rewrite !app_nil_r. split_and!; try done; set_solver. }
  apply NoDup_cons in Hnd as [Hx Hnd]. destruct (Hl x) as [Hxd Hxc]; [set_solver|].
  destruct (IH (color_step r dag c x)) as (bl & rd & Hp & Hsb & Hsr & Hb & Hrd & Hc & Hk').
  - done.
  - intros y Hy. destruct (Hl y) as [? ?]; [set_solver|]. split; [done|].
    unfold color_step. destruct (color_candidate_blue _ _ _ _); simpl; set_solver.
  - unfold color_step. destruct (color_candidate_blue _ _ _ _); simpl; set_solver.
  - unfold color_step. destruct (color_candidate_blue _ _ _ _) eqn:Hcol; simpl; [|done].
    by apply color_candidate_blue_sound.
  - rewrite Hb, Hrd, Hc in *. clear IH Hb Hrd Hc.
    assert (color_step r dag c x = if color_candidate_blue r dag (current_blues c) x then _ else _) as Hs
      by reflexivity.
    destruct (color_candidate_blue _ _ _ _); rewrite Hs in *; simpl in *.
    + exists (x :: bl), rd. split_and!; [simpl; by rewrite Hp|by constructor|by constructor| |done| |].
      * by rewrite <- app_assoc.
      * set_solver.
      * replace (_ ∪ _) with (list_to_set bl ∪ ({[x]} ∪ current_blues c)) by set_solver. done.
    + exists bl, (x :: rd). split_and!; [by rewrite <- Hp, Permutation_middle|by constructor..|done| |done|done].
      by rewrite <- app_assoc.
Qed.
End coloring.

(** ** The DAGs that admission builds *)

Section built.
Context {R : Type} `{!AncestorOracle R}.

(** What [add_block] does to [dag] and [ghostdag]: the parents are known, the data
    is computed from the graph before the insertion with a sound oracle, and the
    identifier is new.  The number of blocks fits the [u64] blue score. *)
Inductive built : Dag → GdMap → Prop :=
| built_genesis h b :
    blk_parents b = [] → built {[h := b]} {[h := GhostdagData_genesis]}
| built_add dag gd h b (r : R) cap d :
    built dag gd → h ∉ dom dag → blk_parents b ≠ [] →
    (∀ p, p ∈ blk_parents b → p ∈ dom dag) →
    oracle_ok r dag → Z.of_nat (size dag) <= U64_MAX →
    try_compute_ghostdag_data r dag gd (blk_parents b) cap = Ok d →
    built (<[h := b]> dag) (<[h := d]> gd).

(** [entry_ok dag gd h d]: what the data of one block says about the graph. *)
Record entry_ok (dag : Dag) (gd : GdMap) (h : Hash) (d : GhostdagData) : Prop := {
  entry_parent s : gd_selected_parent d = Some s → ∃ tl, gd_mergeset_blues d = s :: tl;
  entry_selected s :
    gd_selected_parent d = Some s → edge dag h s ∧ ∀ p, edge dag h p → key_le gd p s = true;
  entry_past x :
    ancestor dag x h ↔ (∃ s, gd_selected_parent d = Some s ∧ in_past dag s x) ∨ x ∈ merged d;
  entry_nodup : NoDup (merged d);
  entry_disjoint s x : gd_selected_parent d = Some s → x ∈ merged d → ¬ in_past dag s x;
  entry_topo_blues : topo_ordered dag (drop 1 (gd_mergeset_blues d));
  entry_topo_reds : topo_ordered dag (gd_mergeset_reds d);
  entry_blues_past x : x ∈ materialized_blues gd h → in_past dag h x;
  entry_score : gd_blue_score d = Z.of_nat (size (materialized_blues gd h)) - 1;
  entry_cluster : k_cluster dag (materialized_blues gd h);
}.

Record dag_inv (dag : Dag) (gd : GdMap) : Prop := {
  inv_dom : dom gd = dom dag;
  inv_closed : parents_closed dag;
  inv_wf : gd_wf gd;
  inv_edge x p : edge dag x p → score_of gd p < score_of gd x;
  inv_entry h d : gd !! h = Some d → entry_ok dag gd h d;
}.

Lemma ancestor_score dag gd a b : dag_inv dag gd → ancestor dag a b → score_of gd a < score_of gd b.
Proof.
  intros Hi Hab. unfold ancestor in Hab.
  induction Hab as [b a He|b p a He _ IH]; pose proof (inv_edge _ _ Hi _ _ He); lia.
Qed.

Lemma ancestor_irrefl dag gd a : dag_inv dag gd → ¬ ancestor dag a a.
Proof. intros Hi Ha%(ancestor_score _ gd); [lia|done]. Qed.

Lemma past_or_self dag b a : in_past dag b a ↔ a = b ∨ ancestor dag a b.
Proof. unfold in_past, ancestor. rewrite rtc_tc. naive_solver. Qed.

Lemma past_decide dag b a : in_past dag b a ∨ ¬ in_past dag b a.
Proof.
  rewrite past_or_self, <- bfs_ancestors_spec.
  destruct (decide (a = b)), (decide (a ∈ bfs_ancestors dag b)); tauto.
Qed.

Lemma size_le_dom (dag : Dag) (S : gset Hash) : S ⊆ dom dag → Z.of_nat (size S) <= Z.of_nat (size dag).
Proof. intros HS. rewrite <- size_dom. apply inj_le. by apply subseteq_size. Qed.

Lemma mergeset_dom dag ps s x :
  parents_closed dag → (∀ p, p ∈ ps → p ∈ dom dag) → x ∈ mergeset dag ps s → x ∈ dom dag.
Proof. intros Hc Hps [(p & Hp & Hpath) _]%elem_of_mergeset. by apply (in_past_dom _ p x Hc (Hps p Hp)). Qed.

(** The data computed for a new block. *)
Lemma compute_spec (r : R) dag gd ps cap d :
  dag_inv dag gd → oracle_ok r dag → ps ≠ [] → (∀ p, p ∈ ps → p ∈ dom dag) →
  Z.of_nat (size dag) <= U64_MAX →
  try_compute_ghostdag_data r dag gd ps cap = Ok d →
  ∃ s tl, let B := list_to_set tl ∪ materialized_blues gd s in
    gd_selected_parent d = Some s ∧ gd_mergeset_blues d = s :: tl ∧
    s ∈ ps ∧ (∀ p, p ∈ ps → key_le gd p s = true) ∧
    merged d ≡ₚ mergeset dag ps s ∧
    topo_ordered dag tl ∧ topo_ordered dag (gd_mergeset_reds d) ∧
    k_cluster dag B ∧ (∀ x, x ∈ B → ∃ p, p ∈ ps ∧ in_past dag p x) ∧
    gd_blue_score d = Z.of_nat (size B) ∧ gd_blue_score d = score_of gd s + 1 + len tl.
Proof.
  intros Hi Hr Hne Hps Hsz Hcomp. unfold try_compute_ghostdag_data in Hcomp.
  destruct (select_parent gd ps) as [s|] eqn:Hsel.
  2: { destruct ps as [|p ps]; [done|]. exfalso.
       apply (select_parent_None _ _ p Hsel); [set_solver|]. rewrite (inv_dom _ _ Hi). apply Hps. set_solver. }
  apply select_parent_Some in Hsel as (Hs & Hsd & Hmax).
  pose proof Hsd as [ds Hds]%elem_of_dom. pose proof (inv_entry _ _ Hi s ds Hds) as Hes.
  destruct (cap <? _); [done|].
  set (ms := mergeset dag ps s) in *.
  destruct (color_fold r dag Hr (topological_order r dag ms)
    {| current_blues := materialized_blues gd s; col_blues := [s]; col_reds := [] |})
    as (tl & rd & Hp & Hsb & Hsr & Hb & Hrd & Hc & Hk); simpl in *.
  - rewrite topological_order_permutation. apply NoDup_mergeset.
  - intros x. rewrite topological_order_permutation. intros Hx. split.
    + by eapply mergeset_dom; [apply Hi| |].
    + intros Hmb%(entry_blues_past _ _ _ _ Hes). by apply elem_of_mergeset in Hx as [_ ?].
  - intros x Hx%(entry_blues_past _ _ _ _ Hes). eapply in_past_dom; [apply Hi| |done].
    by rewrite <- (inv_dom _ _ Hi).
  - apply (entry_cluster _ _ _ _ Hes).
  - rewrite Hb, Hrd in Hcomp. rewrite Hc in Hk.
    rewrite topological_order_permutation in Hp.
    set (B := list_to_set tl ∪ materialized_blues gd s) in *.
    assert (∀ x, x ∈ tl → x ∈ ms) as Htl by (intros x Hx; rewrite <- Hp; set_solver).
    assert (∀ x, x ∈ B → ∃ p, p ∈ ps ∧ in_past dag p x) as HB.
    { intros x [Hx%elem_of_list_to_set|Hx]%elem_of_union.
      - by apply Htl, elem_of_mergeset in Hx as [? _].
      - exists s. split; [done|]. by apply (entry_blues_past _ _ _ _ Hes). }
    assert (Z.of_nat (size B) = score_of gd s + 1 + len tl) as Hsize.
    { unfold B. rewrite size_union.
      - rewrite size_list_to_set.
        + unfold score_of, len. rewrite Hds. simpl. rewrite (entry_score _ _ _ _ Hes). lia.
        + apply (NoDup_app tl rd). rewrite Hp. apply NoDup_mergeset.
      - intros x Hx%elem_of_list_to_set%Htl%elem_of_mergeset Hmb%(entry_blues_past _ _ _ _ Hes). tauto. }
    assert (Z.of_nat (size B) <= Z.of_nat (size dag)) as Hle.
    { apply size_le_dom. intros x Hx. destruct (HB x Hx) as (p & Hpp & Hpath).
      by apply (in_past_dom _ p x (inv_closed _ _ Hi) (Hps p Hpp)). }
    injection Hcomp as <-. exists s, tl. unfold merged. simpl. rewrite drop_0.
    assert (wrap 64 (score_of gd s + len (s :: tl)) = Z.of_nat (size B)) as Hw.
    { unfold len in *. cbn [length]. rewrite wrap_small; [lia|]. unfold in_width. lia. }
    assert (topo_ordered dag (topological_order r dag ms)) as Htopo.
    { apply topological_order_sorted; [done| |apply NoDup_mergeset|].
      - intros x. by eapply mergeset_dom; [apply Hi|].
      - intros x. by eapply ancestor_irrefl. }
    rewrite Hw. split_and!; try done; try (by eapply StronglySorted_sublist).
    intros p Hpp. apply Hmax; [done|]. rewrite (inv_dom _ _ Hi). by apply Hps.
Qed.

Lemma self_in_blues gd h : h ∈ materialized_blues gd h.
Proof. unfold materialized_blues. rewrite blues_loop_acc. set_solver. Qed.

Lemma score_nonneg dag gd h : dag_inv dag gd → 0 <= score_of gd h.
Proof.
  intros Hi. unfold score_of. destruct (gd !! h) as [d|] eqn:Hd; [|done]. simpl.
  rewrite (entry_score _ _ _ _ (inv_entry _ _ Hi _ _ Hd)).
  assert (size (materialized_blues gd h) ≠ 0%nat); [|lia].
  intros Hz%size_empty_inv. pose proof (self_in_blues gd h). set_solver.
Qed.

Section step.
Context (dag : Dag) (gd : GdMap) (h : Hash) (b : Block) (d : GhostdagData) (s : Hash) (tl : list Hash).
Context (Hi : dag_inv dag gd) (Hh : h ∉ dom dag).
Context (Hps : ∀ p, p ∈ blk_parents b → p ∈ dom dag).
Context (Hsp : gd_selected_parent d = Some s) (Hbl : gd_mergeset_blues d = s :: tl).
Context (Hs : s ∈ blk_parents b).
Context (Hscore : score_of gd s < gd_blue_score d).

Lemma old_ne x : x ∈ dom dag → x ≠ h.
Proof. by intros ? ->. Qed.

Lemma old_entry x dx : gd !! x = Some dx → x ∈ dom dag ∧ <[h:=d]> gd !! x = Some dx.
Proof.
  intros Hx. assert (x ∈ dom dag) as Hd.
  { rewrite <- (inv_dom _ _ Hi). by eapply elem_of_dom_2. }
  split; [done|]. rewrite lookup_insert_ne; [done|]. symmetry. by apply old_ne.
Qed.

Lemma step_wf : gd_wf (<[h:=d]> gd).
Proof.
  intros k dk sk Hk Hsk. apply lookup_insert_Some in Hk as [[<- <-]|[Hne Hk]].
  - rewrite Hsp in Hsk. injection Hsk as <-.
    assert (s ∈ dom gd) as [ds Hds]%elem_of_dom by (rewrite (inv_dom _ _ Hi); by apply Hps).
    exists ds. split; [by apply old_entry|]. pose proof (score_nonneg dag gd s Hi) as Hn.
    unfold score_of in Hn, Hscore. rewrite Hds in Hn, Hscore. simpl in *. lia.
  - destruct (inv_wf _ _ Hi k dk sk Hk Hsk) as (ds & Hds & ?). exists ds. split; [by apply old_entry|done].
Qed.

Lemma step_walks k :
  k ∈ dom dag →
  selected_chain (<[h:=d]> gd) k = selected_chain gd k ∧
  materialized_blues (<[h:=d]> gd) k = materialized_blues gd k.
Proof.
  intros Hk. apply walks_insert; [apply Hi|apply step_wf| | |].
  - by rewrite (inv_dom _ _ Hi).
  - by rewrite (inv_dom _ _ Hi).
  - intros x dx sx Hx Hsx. destruct (entry_parent _ _ _ _ (inv_entry _ _ Hi _ _ Hx) sx Hsx) as [? ->].
    set_solver.
Qed.

Lemma step_score x : x ∈ dom dag → score_of (<[h:=d]> gd) x = score_of gd x.
Proof. intros Hx%old_ne. unfold score_of. by rewrite lookup_insert_ne. Qed.

Lemma step_edge x p : edge (<[h:=b]> dag) x p → (x = h ∧ p ∈ blk_parents b) ∨ (x ≠ h ∧ edge dag x p).
Proof.
  intros He. destruct (decide (x = h)) as [->|Hne]; [left|right]; (split; [done|]).
  - unfold edge, parents_of in He. by rewrite lookup_insert_eq in He.
  - by apply edge_insert_ne in He.
Qed.

Lemma step_ancestor_new x :
  ancestor (<[h:=b]> dag) x h ↔ ∃ p, p ∈ blk_parents b ∧ in_past dag p x.
Proof.
  rewrite ancestor_in_past. f_equiv; intros p. unfold edge, parents_of. rewrite lookup_insert_eq. simpl.
  split; intros [Hp Hpath]; (split; [done|]);
    apply (in_past_insert dag h b p x (inv_closed _ _ Hi) Hh (Hps p Hp)); done.
Qed.

Lemma step_topo l : topo_ordered dag l → (∀ x, x ∈ l → x ∈ dom dag) → topo_ordered (<[h:=b]> dag) l.
Proof.
  intros Ht Hd. eapply StronglySorted_weaken; [|exact Ht]. intros x y Hx Hy Hn.
  rewrite ancestor_insert; [done|apply Hi|done|by apply Hd].
Qed.

(** The old entries stay right. *)
Lemma step_old k dk : gd !! k = Some dk → entry_ok (<[h:=b]> dag) (<[h:=d]> gd) k dk.
Proof.
  intros Hk. pose proof (inv_entry _ _ Hi _ _ Hk) as Hek. destruct (old_entry k dk Hk) as [Hkd _].
  destruct (step_walks k Hkd) as [_ Hmb].
  assert (∀ x y, x ∈ dom dag → in_past (<[h:=b]> dag) x y ↔ in_past dag x y) as Hpast.
  { intros x y. by apply in_past_insert; [apply Hi|]. }
  assert (∀ sk, gd_selected_parent dk = Some sk → sk ∈ dom dag) as Hsk.
  { intros sk Hsk. rewrite <- (inv_dom _ _ Hi). by eapply gd_parent_dom; [apply Hi| |]. }
  assert (∀ x, x ∈ merged dk → x ∈ dom dag) as Hmd.
  { intros x Hx. apply (in_past_dom dag k); [apply Hi|done|]. rewrite past_or_self. right.
    apply (entry_past _ _ _ _ Hek). by right. }
  split; rewrite ?Hmb.
  - apply Hek.
  - intros sk Hsk'. destruct (entry_selected _ _ _ _ Hek sk Hsk') as [Hedge Hmax].
    pose proof (old_ne k Hkd). split; [by apply edge_insert_ne|]. intros p Hp. apply edge_insert_ne in Hp; [|done].
    rewrite key_le_spec, !step_score, <- key_le_spec; [by apply Hmax|by apply Hsk|by eapply (inv_closed _ _ Hi)].
  - intros x. rewrite ancestor_insert by (apply Hi || done). rewrite (entry_past _ _ _ _ Hek).
    f_equiv. f_equiv; intros sk. split; intros [H1 H2]; (split; [done|]); (apply Hpast; [by apply Hsk|done]).
  - apply Hek.
  - intros sk x Hsk' Hx. rewrite Hpast by (by apply Hsk). by apply (entry_disjoint _ _ _ _ Hek).
  - by apply step_topo; [apply (entry_topo_blues _ _ _ _ Hek)|intros x Hx; apply Hmd, elem_of_app; left].
  - by apply step_topo; [apply (entry_topo_reds _ _ _ _ Hek)|intros x Hx; apply Hmd, elem_of_app; right].
  - intros x Hx. apply Hpast; [done|]. by apply (entry_blues_past _ _ _ _ Hek).
  - apply (entry_score _ _ _ _ Hek).
  - apply (k_cluster_ext dag); [|apply (entry_cluster _ _ _ _ Hek)].
    assert (∀ x, x ∈ materialized_blues gd k → x ∈ dom dag) as Hd.
    { intros x Hx%(entry_blues_past _ _ _ _ Hek). by eapply in_past_dom; [apply Hi| |]. }
    intros x y Hx Hy. apply concurrent_insert; [apply Hi|done|by apply Hd..].
Qed.

Lemma step_blues_new :
  materialized_blues (<[h:=d]> gd) h = {[h]} ∪ (list_to_set tl ∪ materialized_blues gd s).
Proof.
  rewrite (materialized_blues_eq _ h d step_wf);
    [|by rewrite lookup_insert_eq|intros s'; rewrite Hsp, Hbl; set_solver].
  rewrite Hsp, Hbl. simpl. rewrite (proj2 (step_walks s (Hps s Hs))).
  pose proof (self_in_blues gd s). set_solver.
Qed.
End step.

Lemma dag_inv_genesis h b : blk_parents b = [] → dag_inv {[h := b]} {[h := GhostdagData_genesis]}.
Proof.
  intros Hb. assert (∀ x p, ¬ edge {[h := b]} x p) as He.
  { intros x p. unfold edge, parents_of. destruct (decide (x = h)) as [->|].
    - rewrite lookup_singleton_eq. simpl. rewrite Hb. set_solver.
    - rewrite lookup_singleton_ne by done. simpl. set_solver. }
  assert (gd_wf {[h := GhostdagData_genesis]}) as Hwf.
  { intros k d s [<- <-]%lookup_singleton_Some. done. }
  split.
  - by rewrite !dom_singleton_L.
  - by intros x p ?%He.
  - done.
  - by intros x p ?%He.
  - intros k d Hd. pose proof Hd as [<- <-]%lookup_singleton_Some.
    assert (materialized_blues {[h := GhostdagData_genesis]} h = {[h]}) as Hmb.
    { rewrite (materialized_blues_eq _ _ _ Hwf Hd) by done. simpl. set_solver. }
    split; rewrite ?Hmb.
    + done.
    + done.
    + intros x. rewrite ancestor_in_past. split; [by intros (p & ?%He & _)|].
      intros [(s & [=] & _)|Hx]. by apply not_elem_of_nil in Hx.
    + constructor.
    + done.
    + constructor.
    + constructor.
    + intros x ->%elem_of_singleton. apply rtc_refl.
    + by rewrite size_singleton.
    + intros x T Hx HT Hall.
      assert (Z.of_nat (size T) <= len [h]) as Hsz by (apply size_le_list; set_solver).
      unfold len, GHOSTDAG_K in *. simpl in *. lia.
Qed.

(** The new entry is right. *)
Lemma step_new dag gd h b (r : R) cap d :
  dag_inv dag gd → h ∉ dom dag → blk_parents b ≠ [] →
  (∀ p, p ∈ blk_parents b → p ∈ dom dag) → oracle_ok r dag → Z.of_nat (size dag) <= U64_MAX →
  try_compute_ghostdag_data r dag gd (blk_parents b) cap = Ok d →
  entry_ok (<[h := b]> dag) (<[h := d]> gd) h d.
Proof.
  intros Hi Hh Hne Hps Hr Hsz Hcomp.
  destruct (compute_spec r dag gd _ cap d Hi Hr Hne Hps Hsz Hcomp)
    as (s & tl & Hsp & Hbl & Hs & Hmax & Hms & Htb & Htr & Hk & HB & Hsize & Hsc).
  assert (score_of gd s < gd_blue_score d) as Hlt by (unfold len in *; lia).
  pose proof (step_blues_new dag gd h b d s tl Hi Hh Hps Hsp Hbl Hs Hlt) as Hmb.
  pose proof (step_ancestor_new dag gd h b Hi Hh Hps) as Hanc.
  set (B := list_to_set tl ∪ materialized_blues gd s) in *.
  assert (∀ x, x ∈ B → x ∈ dom dag) as HBd.
  { intros x (p & Hp & Hpath)%HB. by eapply in_past_dom; [apply Hi|by apply Hps|]. }
  assert (∀ y, in_past (<[h:=b]> dag) s y ↔ in_past dag s y) as Hpast.
  { intros y. apply in_past_insert; [apply Hi|done|by apply Hps]. }
  assert (∀ x, x ∈ merged d → x ∈ dom dag) as Hmd.
  { intros x. rewrite Hms. by apply mergeset_dom; [apply Hi|]. }
  split; rewrite ?Hmb.
  - intros s' Hs'. rewrite Hsp in Hs'. injection Hs' as <-. by exists tl.
  - intros s' Hs'. rewrite Hsp in Hs'. injection Hs' as <-.
    unfold edge, parents_of. rewrite lookup_insert_eq. simpl. split; [done|]. intros p Hp.
    rewrite key_le_spec, !(step_score dag gd h d Hh), <- key_le_spec by (by apply Hps). by apply Hmax.
  - intros x. rewrite Hanc, Hms, elem_of_mergeset, Hsp.
    pose proof (past_decide dag s x) as Hdec. split.
    + intros Hx. destruct Hdec; [left; exists s; by rewrite Hpast|by right].
    + intros [(s' & [= <-] & Hx)|[Hx _]]; [|done]. exists s. by rewrite <- Hpast.
  - rewrite Hms. apply NoDup_mergeset.
  - intros s' x Hs' Hx. rewrite Hsp in Hs'. injection Hs' as <-. rewrite Hpast, Hms in *.
    by apply elem_of_mergeset in Hx as [_ ?].
  - rewrite Hbl. simpl. rewrite drop_0. apply (step_topo dag gd); [done..|].
    intros x Hx. apply Hmd. unfold merged. rewrite Hbl. simpl. rewrite drop_0. set_solver.
  - apply (step_topo dag gd); [done..|]. intros x Hx. apply Hmd, elem_of_app. by right.
  - intros x. rewrite past_or_self. intros [?%elem_of_singleton|Hx%HB]%elem_of_union; [by left|].
    right. by apply Hanc.
  - rewrite size_union, size_singleton; [lia|]. intros x ->%elem_of_singleton Hx%HBd. done.
  - apply k_cluster_comparable; [|intros x Hx%HB; by apply Hanc]. apply (k_cluster_ext dag); [|done].
    intros x y Hx Hy. apply concurrent_insert; [apply Hi|done|auto..].
Qed.

Lemma dag_inv_step dag gd h b (r : R) cap d :
  dag_inv dag gd → h ∉ dom dag → blk_parents b ≠ [] →
  (∀ p, p ∈ blk_parents b → p ∈ dom dag) → oracle_ok r dag → Z.of_nat (size dag) <= U64_MAX →
  try_compute_ghostdag_data r dag gd (blk_parents b) cap = Ok d →
  dag_inv (<[h := b]> dag) (<[h := d]> gd).
Proof.
  intros Hi Hh Hne Hps Hr Hsz Hcomp.
  destruct (compute_spec r dag gd _ cap d Hi Hr Hne Hps Hsz Hcomp)
    as (s & tl & Hsp & Hbl & Hs & Hmax & _ & _ & _ & _ & _ & _ & Hsc).
  assert (score_of gd s < gd_blue_score d) as Hlt by (unfold len in *; lia).
  split.
  - by rewrite !dom_insert_L, (inv_dom _ _ Hi).
  - intros x p [[-> Hp]|[_ Hp]]%step_edge; rewrite dom_insert_L; apply elem_of_union_r;
      [by apply Hps|by eapply (inv_closed _ _ Hi)].
  - by eapply step_wf.
  - intros x p [[-> Hp]|[Hx Hp]]%step_edge.
    + rewrite (step_score dag gd h d Hh p) by (by apply Hps). unfold score_of at 2.
      rewrite lookup_insert_eq. simpl. specialize (Hmax p Hp). apply key_le_spec in Hmax. lia.
    + rewrite !(step_score dag gd h d Hh); [by apply (inv_edge _ _ Hi)|by eapply edge_dom|].
      by eapply (inv_closed _ _ Hi).
  - intros k dk Hkd. apply lookup_insert_Some in Hkd as [[<- <-]|[_ Hkd]]; [by eapply step_new|by eapply step_old].
Qed.

Lemma built_inv dag gd : built dag gd → dag_inv dag gd.
Proof. induction 1; [by apply dag_inv_genesis|by eapply dag_inv_step]. Qed.

(** ** The canonical order lists the past, once *)

Lemma emit_all (dag : Dag) so l :
  (∀ x, x ∈ l → x ∈ dom dag ∧ x ∉ so.1) → NoDup l →
  foldl (λ so m, emit (bool_decide (m ∈ dom dag)) so m) so l = (list_to_set l ∪ so.1, so.2 ++ l).
Proof.
  revert so. induction l as [|x l IH]; intros [S o] Hl Hnd; simpl.
  { by rewrite app_nil_r, (left_id_L ∅ (∪)). }
  apply NoDup_cons in Hnd as [Hx Hnd]. destruct (Hl x) as [Hxd HxS]; [set_solver|]. simpl in HxS.
  unfold emit at 2. rewrite bool_decide_true by done. simpl. rewrite bool_decide_false by done. simpl.
  rewrite IH; simpl; [|set_solver|done]. f_equal; [set_solver|by rewrite <- app_assoc].
Qed.

(** One block of the selected chain appends its merged blocks and itself. *)
Lemma emit_chain_block_eq dag gd h d o :
  dag_inv dag gd → gd !! h = Some d → NoDup o →
  (∀ x, x ∈ o ↔ ∃ s, gd_selected_parent d = Some s ∧ in_past dag s x) →
  let o' := o ++ merged d ++ [h] in
  emit_chain_block dag gd (list_to_set o, o) h = (list_to_set o', o') ∧ NoDup o' ∧
  ∀ x, x ∈ o' ↔ in_past dag h x.
Proof.
  intros Hi Hd Hnd Hin o'. pose proof (inv_entry _ _ Hi h d Hd) as He.
  assert (∀ x, x ∈ merged d → x ∉ o) as Hdis.
  { intros x Hx (s & Hs & Hp)%Hin. by apply (entry_disjoint _ _ _ _ He s x). }
  assert (∀ x, x ∈ merged d → x ∈ dom dag) as Hmd.
  { intros x Hx. apply (in_past_dom dag h); [apply Hi| |].
    - rewrite <- (inv_dom _ _ Hi). by eapply elem_of_dom_2.
    - rewrite past_or_self, (entry_past _ _ _ _ He). tauto. }
  assert ((h ∉ o) ∧ (h ∉ merged d)) as [Hho Hhm].
  { split; intros Hx; eapply (ancestor_irrefl dag gd h Hi), (entry_past _ _ _ _ He); [left; by apply Hin|by right]. }
  split_and!.
  - unfold emit_chain_block. rewrite Hd, emit_all; simpl; [|set_solver|apply He]. unfold emit. simpl.
    rewrite bool_decide_false by set_solver. simpl. unfold o'.
    f_equal; [set_solver|by rewrite <- app_assoc].
  - unfold o'. rewrite !NoDup_app. pose proof (entry_nodup _ _ _ _ He).
    split_and!; [done| |done| |apply NoDup_singleton].
    + intros x Hx [Hm| ->%list_elem_of_singleton]%elem_of_app; [by apply (Hdis x)|done].
    + intros x Hx ->%list_elem_of_singleton. done.
  - intros x. unfold o'.
    rewrite past_or_self, (entry_past _ _ _ _ He), !elem_of_app, Hin, list_elem_of_singleton. tauto.
Qed.

(** The loop over the selected chain of [h]. *)
Definition emit_chain (dag : Dag) (gd : GdMap) (cursor : option Hash) : gset Hash * list Hash :=
  foldl (emit_chain_block dag gd) (∅, []) (from_option (selected_chain gd) [] cursor).

Lemma emit_chain_spec dag gd c :
  dag_inv dag gd → (∀ h, c = Some h → h ∈ dom gd) →
  ∃ o, emit_chain dag gd c = (list_to_set o, o) ∧ NoDup o ∧
       ∀ x, x ∈ o ↔ ∃ h, c = Some h ∧ in_past dag h x.
Proof.
  intros Hi Hc. destruct c as [h|]; [|exists []; split_and!; [done|constructor|set_solver]].
  specialize (Hc h eq_refl). revert h Hc. refine (gd_ind gd _ (inv_wf _ _ Hi) _). intros h d Hd IH.
  assert (∃ o, emit_chain dag gd (gd_selected_parent d) = (list_to_set o, o) ∧ NoDup o ∧
            ∀ x, x ∈ o ↔ ∃ s, gd_selected_parent d = Some s ∧ in_past dag s x) as (o & Ho & Hnd & Hin).
  { destruct (gd_selected_parent d) as [s|]; [by apply IH|].
    exists []. split_and!; [done|constructor|set_solver]. }
  destruct (emit_chain_block_eq dag gd h d o Hi Hd Hnd Hin) as (Heq & Hnd' & Hin').
  exists (o ++ merged d ++ [h]). unfold emit_chain in *. simpl.
  rewrite (selected_chain_eq gd h d (inv_wf _ _ Hi) Hd), foldl_app, Ho. simpl.
  split_and!; [done..|]. intros x. rewrite Hin'. naive_solver.
Qed.

Lemma canonical_order_at_spec dag gd h d :
  dag_inv dag gd → gd !! h = Some d →
  NoDup (canonical_order_at dag gd h) ∧ (∀ x, x ∈ canonical_order_at dag gd h ↔ in_past dag h x) ∧
  canonical_order_at dag gd h =
    from_option (canonical_order_at dag gd) [] (gd_selected_parent d) ++ merged d ++ [h].
Proof.
  intros Hi Hd. assert (h ∈ dom gd) as Hh by by eapply elem_of_dom_2.
  assert (∀ s, gd_selected_parent d = Some s → s ∈ dom gd) as Hs.
  { intros s. by apply gd_parent_dom with h; [apply Hi|]. }
  assert (∀ k, k ∈ dom gd → canonical_order_at dag gd k = (emit_chain dag gd (Some k)).2) as Hco.
  { intros k Hk. unfold canonical_order_at. by rewrite bool_decide_true. }
  assert (from_option (canonical_order_at dag gd) [] (gd_selected_parent d)
          = (emit_chain dag gd (gd_selected_parent d)).2) as ->.
  { destruct (gd_selected_parent d); [by apply Hco, Hs|done]. }
  rewrite Hco by done. destruct (emit_chain_spec dag gd _ Hi Hs) as (o & Ho & Hnd & Hin).
  destruct (emit_chain_block_eq dag gd h d o Hi Hd Hnd Hin) as (Heq & Hnd' & Hin').
  assert (emit_chain dag gd (Some h) = (list_to_set (o ++ merged d ++ [h]), o ++ merged d ++ [h])) as ->; [|by rewrite Ho].
  unfold emit_chain in *. simpl.
  by rewrite (selected_chain_eq gd h d (inv_wf _ _ Hi) Hd), foldl_app, Ho.
Qed.

(** C12. The k-cluster guarantee, for every DAG that admission can build and every
    block of it: among the blue blocks of its view (itself and the blues merged
    along its selected chain) none is concurrent with more than [K] = 40 others;
    they all lie in its past, and its blue score is exactly their number, itself not
    counted, as the documentation of the field says. *)
Theorem ghostdag_k_cluster dag gd h d :
  built dag gd → gd !! h = Some d →
  k_cluster dag (materialized_blues gd h) ∧
  (∀ x, x ∈ materialized_blues gd h → in_past dag h x) ∧
  gd_blue_score d = Z.of_nat (size (materialized_blues gd h ∖ {[h]})).
Proof.
  intros Hi%built_inv Hd. destruct (inv_entry _ _ Hi h d Hd) as [_ _ _ _ _ _ _ Hp Hs Hk].
  split_and!; [done..|]. pose proof (self_in_blues gd h) as Hin.
  rewrite size_difference, size_singleton by set_solver.
  assert (size (materialized_blues gd h) ≠ 0%nat) by (intros Hz%size_empty_inv; set_solver). lia.
Qed.

(** What the data of a merging block says: its selected parent is the parent
    with the greatest blue score (then hash); its past is the past of the selected
    parent plus, disjointly and without repetition, the blocks it merges; and the
    blues and the reds are each listed ancestors first. *)
Theorem mergeset_partition dag gd h d s :
  built dag gd → gd !! h = Some d → gd_selected_parent d = Some s →
  (edge dag h s ∧ ∀ p, edge dag h p → key_le gd p s = true) ∧
  (∀ x, ancestor dag x h ↔ in_past dag s x ∨ x ∈ merged d) ∧
  (∀ x, in_past dag s x → x ∉ merged d) ∧ NoDup (merged d) ∧
  topo_ordered dag (drop 1 (gd_mergeset_blues d)) ∧ topo_ordered dag (gd_mergeset_reds d).
Proof.
  intros Hi%built_inv Hd Hs. pose proof (inv_entry _ _ Hi h d Hd) as He.
  split_and!; [by apply He..| | | | |]; [|intros x Hp Hx; by apply (entry_disjoint _ _ _ _ He s x)|apply He..].
  intros x. rewrite (entry_past _ _ _ _ He), Hs. naive_solver.
Qed.

(** C13. The canonical order replays exactly the past: the order at a tip lists the
    tip and each of its ancestors once and nothing else, and it extends the order
    at the selected parent by the merged blocks and the tip, so everything below a
    block of the selected chain precedes it and a longer chain never reorders a
    shorter one it extends. *)
Theorem canonical_order_exact dag gd tip d :
  built dag gd → gd !! tip = Some d →
  NoDup (canonical_order_at dag gd tip) ∧
  (∀ x, x ∈ canonical_order_at dag gd tip ↔ in_past dag tip x) ∧
  canonical_order_at dag gd tip =
    from_option (canonical_order_at dag gd) [] (gd_selected_parent d) ++ merged d ++ [tip].
Proof. intros Hi%built_inv. by apply canonical_order_at_spec. Qed.
End built.

(** ** Concrete DAGs *)
Module DagExample.
(** A block of which only the parents matter. *)
Definition stub (ps : list Hash) : Block :=
  {| blk_height := 0; blk_timestamp := 0; blk_parents := ps; blk_interlinks := [];
     blk_transparent_txs := []; blk_utxo_txs := []; blk_registry_ops := []; blk_custody_ops := [];
     blk_merkle_root := 0; blk_state_root := 0; blk_miner := 0; blk_creator_pubkey := []; blk_nonce := 0;
     blk_difficulty := 1; blk_version := 1; blk_coinbase_entropy := 0; blk_stark_proof := [];
     blk_birth_certificate := []; blk_size := 0 |}.

Definition genesis : Dag * GdMap := ({[0 := stub []]}, {[0 := GhostdagData_genesis]}).

(** Admit blocks one after the other with the reference oracle. *)
Definition grow1 (s : option (Dag * GdMap)) (hps : Hash * list Hash) : option (Dag * GdMap) :=
  '(dag, gd) ← s;
  if bool_decide (hps.1 ∉ dom dag) && bool_decide (hps.2 ≠ []) &&
     forallb (λ p, bool_decide (p ∈ dom dag)) hps.2 && (Z.of_nat (size dag) <=? U64_MAX)
  then match try_compute_ghostdag_data tt dag gd hps.2 MAX_MERGESET_SIZE with
       | Ok d => Some (<[hps.1 := stub hps.2]> dag, <[hps.1 := d]> gd)
       | Err _ => None
       end
  else None.
Definition grow (l : list (Hash * list Hash)) : option (Dag * GdMap) := foldl grow1 (Some genesis) l.

Lemma grow_built l dag gd : grow l = Some (dag, gd) → built (R := unit) dag gd.
Proof.
  revert dag gd. induction l as [|[h ps] l IH] using rev_ind; intros dag gd.
  - intros [= <- <-]. by apply built_genesis.
  - unfold grow. rewrite foldl_app. simpl. fold (grow l). destruct (grow l) as [[dag0 gd0]|]; [|done]. simpl.
    destruct (_ && _) eqn:Hc; [|done]. zbool. destruct (try_compute_ghostdag_data _ _ _ _ _) as [d|] eqn:Hd; [|done].
    intros [= <- <-]. eapply (built_add dag0 gd0 h (stub ps) tt); [by apply IH|done..| |done|done|exact Hd].
    intros p Hp. match goal with Hf : forallb _ _ = true |- _ => rewrite forallb_forall in Hf;
      specialize (Hf p (proj1 (list_elem_of_In _ _) Hp)) end. by zbool.
Qed.

(** Two parallel children of genesis, merged. *)
Definition diamond : list (Hash * list Hash) := [(1, [0]); (2, [0]); (3, [1; 2])].

(** A chain of 43 blocks; [100] forks off genesis and is merged by [101], a child of
    the chain's block 41; [102] merges both branches. *)
Definition crossing : list (Hash * list Hash) :=
  ((λ i, (i, [i - 1])) <$> seqZ 1 43) ++ [(100, [0]); (101, [100; 41]); (102, [43; 101])].

Definition grown (l : list (Hash * list Hash)) : Dag * GdMap := default genesis (grow l).

Lemma grown_built l : is_Some (grow l) → built (R := unit) (grown l).1 (grown l).2.
Proof. unfold grown. intros [[dag gd] Hl]. rewrite Hl. by eapply grow_built. Qed.
End DagExample.

Section witnesses.
Import DagExample.

Lemma diamond_built : built (R := unit) (grown diamond).1 (grown diamond).2.
Proof. apply grown_built. apply (bool_decide_unpack _). vm_compute. exact I. Qed.

(** The data of the merging block of the diamond. *)
Definition diamond_top : GhostdagData :=
  {| gd_blue_score := 3; gd_selected_parent := Some 2; gd_mergeset_blues := [2; 1]; gd_mergeset_reds := [] |}.

Lemma diamond_lookup : (grown diamond).2 !! 3 = Some diamond_top.
Proof. vm_compute. reflexivity. Qed.

Lemma ghostdag_k_cluster_witness :
  3 = Z.of_nat (size (materialized_blues (grown diamond).2 3 ∖ {[3]})).
Proof. apply (ghostdag_k_cluster _ _ 3 diamond_top diamond_built diamond_lookup). Defined.

Lemma mergeset_partition_witness :
  edge (grown diamond).1 3 2 ∧ ∀ p, edge (grown diamond).1 3 p → key_le (grown diamond).2 p 2 = true.
Proof. apply (mergeset_partition _ _ 3 diamond_top 2 diamond_built diamond_lookup eq_refl). Defined.

Lemma canonical_order_exact_witness : NoDup (canonical_order_at (grown diamond).1 (grown diamond).2 3).
Proof. apply (canonical_order_exact _ _ 3 diamond_top diamond_built diamond_lookup). Defined.

(** The canonical order is not topological, although its documentation says the
    merged blocks are "already topologically ordered": emitting a block's blues
    before its reds puts a blue block before a red ancestor of it.  Block 100 forks
    off genesis and is red for the 41 blocks of the chain it misses; block 101
    merges it and is blue; block 102 merges both, and its order replays 101 before
    its own parent 100, so a transaction of 101 that spends an output of 100,
    valid when 101 was admitted, is skipped. *)
Theorem canonical_order_not_topological :
  ∃ dag gd l, built (R := unit) dag gd ∧ edge dag 101 100 ∧
    canonical_order_at dag gd 102 = l ++ [101; 100; 102].
Proof.
  exists (grown crossing).1, (grown crossing).2, (seqZ 0 44). split_and!.
  - apply grown_built. apply (bool_decide_unpack _). vm_compute. exact I.
  - unfold edge. apply (bool_decide_unpack _). vm_compute. exact I.
  - vm_compute. reflexivity.
Qed.
End witnesses.
