(* ===== verification/Reachability.v ===== *)
(** * The reachability index

    [src/src/reachability.rs]: interval labels on the selected-parent tree and
    future covering sets, as an implementation of [AncestorOracle].  The index is
    maintained by [add_block]; when a node has no room for a child the whole forest
    is relabelled ([reindex_all]). *)

From S2P Require Import Prelude Genesis Crypto Address Predicate Utxo UtxoTx Registry Custody Block Dag Ghostdag.

Definition SCALE : Z := 2 ^ 20.
Definition SIBLING_RESERVE : Z := 64.
Definition SPACE_START : Z := 1.
Definition SPACE_END : Z := 2 ^ 62.

Record Interval := { iv_start : Z; iv_end : Z }.
(** [Interval::contains]. *)
Definition iv_contains (a b : Interval) : bool :=
  (iv_start a <=? iv_start b) && (iv_end b <=? iv_end a).

Record Node := {
  n_interval : Interval;
  n_tree_parent : option Hash;
  n_tree_children : list Hash;
  n_next_free : Z;
  n_fcs : list Hash;
}.
Abbreviation Nodes := (gmap Hash Node).

Record Reachability := { nodes : Nodes; next_root_start : Z }.
Definition Reachability_new : Reachability := {| nodes := ∅; next_root_start := SPACE_START |}.

(** [self.nodes[&h]]; the source indexes only keys it has. *)
Definition no_node : Node :=
  {| n_interval := {| iv_start := 0; iv_end := 0 |}; n_tree_parent := None; n_tree_children := [];
     n_next_free := 0; n_fcs := [] |}.
Definition node_of (ns : Nodes) (h : Hash) : Node := default no_node (ns !! h).
Definition interval_of (ns : Nodes) (h : Hash) : Interval := n_interval (node_of ns h).

(** ** Relabelling *)

(** The roots: no tree parent, or one that was discarded. *)
Definition is_root (ns : Nodes) (n : Node) : bool :=
  match n_tree_parent n with Some p => negb (bool_decide (p ∈ dom ns)) | None => true end.
Definition roots (ns : Nodes) : list Hash := (filter (λ hn, is_root ns hn.2 = true) (map_to_list ns)).*1.

(** [subtree_sizes]: post-order over an explicit stack, top first. *)
Fixpoint size_loop (fuel : nat) (ns : Nodes) (stack : list (Hash * bool)) (sizes : gmap Hash Z)
    : gmap Hash Z :=
  match fuel, stack with
  | S fuel, (h, true) :: stack =>
      let s := 1 + zsum ((λ c, default 0 (sizes !! c)) <$> n_tree_children (node_of ns h)) in
      size_loop fuel ns stack (<[h := s]> sizes)
  | S fuel, (h, false) :: stack =>
      size_loop fuel ns
        (rev ((λ c, (c, false)) <$> n_tree_children (node_of ns h)) ++ (h, true) :: stack) sizes
  | _, _ => sizes
  end.
(** Every node is pushed twice. *)
Definition subtree_sizes (ns : Nodes) : gmap Hash Z :=
  size_loop (2 * size ns) ns (rev ((λ r, (r, false)) <$> roots ns)) ∅.

(** Windows for a list of siblings, from [cursor] on: the starts and the next cursor. *)
Fixpoint windows (sizes : gmap Hash Z) (cursor : Z) (hs : list Hash) : list (Hash * Z) * Z :=
  match hs with
  | [] => ([], cursor)
  | h :: hs =>
      let '(ws, e) := windows sizes (wrap 64 (cursor + sat_mul 64 (default 0 (sizes !! h)) SCALE)) hs in
      ((h, cursor) :: ws, e)
  end.

Definition relabel (n : Node) (start e next_free : Z) : Node :=
  {| n_interval := {| iv_start := start; iv_end := e |}; n_tree_parent := n_tree_parent n;
     n_tree_children := n_tree_children n; n_next_free := next_free; n_fcs := n_fcs n |}.

(** The assignment loop of [reindex_all]. *)
Fixpoint assign_loop (fuel : nat) (sizes : gmap Hash Z) (stack : list (Hash * Z)) (ns : Nodes) : Nodes :=
  match fuel, stack with
  | S fuel, (h, start) :: stack =>
      let n := node_of ns h in
      let e := wrap 64 (start + sat_mul 64 (default 0 (sizes !! h)) SCALE - 1) in
      let '(ws, child_cursor) := windows sizes start (n_tree_children n) in
      assign_loop fuel sizes (rev ws ++ stack) (<[h := relabel n start e child_cursor]> ns)
  | _, _ => ns
  end.

Definition with_fcs (n : Node) (l : list Hash) : Node :=
  {| n_interval := n_interval n; n_tree_parent := n_tree_parent n;
     n_tree_children := n_tree_children n; n_next_free := n_next_free n; n_fcs := l |}.
Definition start_le (ns : Nodes) (a b : Hash) : Prop :=
  iv_start (interval_of ns a) <= iv_start (interval_of ns b).
#[global] Instance start_le_dec ns : RelDecision (start_le ns).
Proof. intros a b. unfold start_le. apply _. Defined.

Definition reindex_all (r : Reachability) : Reachability :=
  let sizes := subtree_sizes (nodes r) in
  let '(stack, cursor) := windows sizes SPACE_START (roots (nodes r)) in
  let ns := assign_loop (size (nodes r)) sizes (rev stack) (nodes r) in
  {| nodes := (λ n, with_fcs n (merge_sort (start_le ns) (n_fcs n))) <$> ns; next_root_start := cursor |}.

(** ** Insertion *)

Definition fresh_node (start e : Z) (parent : option Hash) : Node :=
  {| n_interval := {| iv_start := start; iv_end := e |}; n_tree_parent := parent;
     n_tree_children := []; n_next_free := start; n_fcs := [] |}.

Definition insert_root (r : Reachability) (hash : Hash) : Reachability :=
  let r := if SPACE_END <=? sat_add 64 (next_root_start r) SCALE then reindex_all r else r in
  let start := next_root_start r in
  let e := wrap 64 (start + SCALE - 1) in
  {| nodes := <[hash := fresh_node start e None]> (nodes r); next_root_start := wrap 64 (e + 1) |}.

(** [try_place_child]: [None] when it returns false. *)
Definition try_place_child (r : Reachability) (parent hash : Hash) : option Reachability :=
  let p := node_of (nodes r) parent in
  let p_next := n_next_free p in
  let p_end := iv_end (n_interval p) in
  if p_end <=? p_next then None else
  let avail := p_end - p_next in
  let width := if SIBLING_RESERVE <? avail then avail - SIBLING_RESERVE else avail in
  let start := p_next in
  let e := start + width - 1 in
  let p' := {| n_interval := n_interval p; n_tree_parent := n_tree_parent p;
               n_tree_children := n_tree_children p ++ [hash]; n_next_free := e + 1; n_fcs := n_fcs p |} in
  Some {| nodes := <[hash := fresh_node start e (Some parent)]> (<[parent := p']> (nodes r));
          next_root_start := next_root_start r |}.

Definition insert_tree_child (r : Reachability) (parent hash : Hash) : Reachability :=
  match try_place_child r parent hash with
  | Some r' => r'
  | None =>
      let r := reindex_all r in
      match try_place_child r parent hash with
      | Some r' => r'
      | None => insert_root r hash
      end
  end.

(** [fcs.partition_point(|h| start(h) <= x)] on a list sorted by start. *)
Fixpoint partition_point (ns : Nodes) (x : Z) (l : list Hash) : nat :=
  match l with
  | h :: l => if iv_start (interval_of ns h) <=? x then S (partition_point ns x l) else O
  | [] => O
  end.

(** [fcs_contains_cover]. *)
Definition fcs_contains_cover (ns : Nodes) (block : Hash) (target : Interval) : bool :=
  let fcs := n_fcs (node_of ns block) in
  match partition_point ns (iv_start target) fcs with
  | O => false
  | S i => match fcs !! i with Some cand => iv_contains (interval_of ns cand) target | None => false end
  end.

(** [insert_to_fcs]. *)
Definition insert_to_fcs (ns : Nodes) (block new : Hash) : Nodes :=
  let ni := interval_of ns new in
  if fcs_contains_cover ns block ni then ns else
  let n := node_of ns block in
  let pos := partition_point ns (iv_start ni) (n_fcs n) in
  <[block := with_fcs n (take pos (n_fcs n) ++ new :: drop pos (n_fcs n))]> ns.

(** [Reachability::add_block]. *)
Definition reach_add_block (r : Reachability) (hash : Hash) (selected_parent : option Hash)
    (mergeset : list Hash) : Reachability :=
  if bool_decide (hash ∈ dom (nodes r)) then r else
  let r := match selected_parent with
           | Some p => if bool_decide (p ∈ dom (nodes r)) then insert_tree_child r p hash else insert_root r hash
           | None => insert_root r hash
           end in
  {| nodes := foldl (λ ns m, if negb (bool_decide (m = hash)) && bool_decide (m ∈ dom ns)
                             then insert_to_fcs ns m hash else ns) (nodes r) mergeset;
     next_root_start := next_root_start r |}.

(** ** Queries *)

Definition is_chain_ancestor_incl (ns : Nodes) (a b : Hash) : bool :=
  iv_contains (interval_of ns a) (interval_of ns b).
Definition is_dag_ancestor_incl (ns : Nodes) (a b : Hash) : bool :=
  is_chain_ancestor_incl ns a b || fcs_contains_cover ns a (interval_of ns b).
(** [Reachability::is_ancestor]; the release build has no cross-check. *)
Definition reach_is_ancestor (r : Reachability) (dag : Dag) (a b : Hash) : bool :=
  match nodes r !! a, nodes r !! b with
  | Some _, Some _ => negb (bool_decide (a = b)) && is_dag_ancestor_incl (nodes r) a b
  | _, _ => bfs_is_ancestor dag a b
  end.
(** [Reachability::is_chain_ancestor]. *)
Definition is_chain_ancestor (r : Reachability) (a b : Hash) : option bool :=
  match nodes r !! a, nodes r !! b with
  | Some na, Some nb => Some (iv_contains (n_interval na) (n_interval nb))
  | _, _ => None
  end.

(** ** Removal *)

(** [Reachability::drop_leaf]. *)
Definition drop_leaf (r : Reachability) (hash : Hash) : Reachability :=
  match nodes r !! hash with
  | Some n =>
      match n_tree_children n with
      | [] =>
          let ns := delete hash (nodes r) in
          let ns := match n_tree_parent n with
                    | Some p =>
                        match ns !! p with
                        | Some pn => <[p := {| n_interval := n_interval pn; n_tree_parent := n_tree_parent pn;
                                               n_tree_children := filter (λ c, c ≠ hash) (n_tree_children pn);
                                               n_next_free := n_next_free pn; n_fcs := n_fcs pn |}]> ns
                        | None => ns
                        end
                    | None => ns
                    end in
          {| nodes := (λ n, with_fcs n (filter (λ h, h ≠ hash) (n_fcs n))) <$> ns;
             next_root_start := next_root_start r |}
      | _ => r
      end
  | None => r
  end.

(** [Reachability::retain]. *)
Definition retain (r : Reachability) (keep : gset Hash) : Reachability :=
  let ns := filter (λ hn, hn.1 ∈ keep) (nodes r) in
  let ns := (λ n, {| n_interval := n_interval n;
                     n_tree_parent := n_tree_parent n ≫= (λ p, if bool_decide (p ∈ keep) then Some p else None);
                     n_tree_children := filter (λ c, c ∈ keep) (n_tree_children n);
                     n_next_free := n_next_free n;
                     n_fcs := filter (λ h, h ∈ keep) (n_fcs n) |}) <$> ns in
  {| nodes := ns;
     next_root_start :=
       match (λ hn, wrap 64 (iv_end (n_interval hn.2) + 1)) <$> map_to_list ns with
       | [] => SPACE_START
       | e :: es => foldr Z.max e es
       end |}.

(** ** The tree and its labels *)

(** [tparent ns c p]: [p] is the tree parent of [c]. *)
Definition tparent (ns : Nodes) (c p : Hash) : Prop := c ∈ dom ns ∧ n_tree_parent (node_of ns c) = Some p.
(** [tree_anc ns a b]: [a] is [b] or above it in the tree. *)
Definition tree_anc (ns : Nodes) (a b : Hash) : Prop := rtc (tparent ns) b a.

Abbreviation lo ns h := (iv_start (interval_of ns h)).
Abbreviation hi ns h := (iv_end (interval_of ns h)).
Abbreviation children ns h := (n_tree_children (node_of ns h)).
Abbreviation free ns h := (n_next_free (node_of ns h)).
Definition disj (ns : Nodes) (x y : Hash) : Prop := hi ns x < lo ns y ∨ hi ns y < lo ns x.

(** Parent and child links agree. *)
Record tree_ok (ns : Nodes) : Prop := {
  to_child h c : h ∈ dom ns → c ∈ children ns h → tparent ns c h;
  to_parent c p : tparent ns c p → p ∈ dom ns ∧ c ∈ children ns p;
  child_nodup h : h ∈ dom ns → NoDup (children ns h);
}.

(** The labels are laminar: children live below [next_free] in disjoint windows. *)
Record laminar (ns : Nodes) (bound : Z) : Prop := {
  lam_iv h : h ∈ dom ns → SPACE_START <= lo ns h <= free ns h ∧ free ns h <= hi ns h < bound;
  lam_child h c : h ∈ dom ns → c ∈ children ns h → lo ns h <= lo ns c ∧ hi ns c < free ns h;
  lam_sib h c1 c2 : h ∈ dom ns → c1 ∈ children ns h → c2 ∈ children ns h → c1 ≠ c2 → disj ns c1 c2;
  lam_root h1 h2 : h1 ∈ dom ns → h2 ∈ dom ns → n_tree_parent (node_of ns h1) = None →
    n_tree_parent (node_of ns h2) = None → h1 ≠ h2 → disj ns h1 h2;
}.

Section laminar.
Context (ns : Nodes) (bound : Z) (Ht : tree_ok ns) (Hl : laminar ns bound).

Lemma parent_nested c p :
  tparent ns c p → c ∈ dom ns ∧ p ∈ dom ns ∧ lo ns p <= lo ns c ∧ hi ns c < hi ns p.
Proof.
  intros Hcp. destruct (to_parent _ Ht _ _ Hcp) as [Hp Hc]. destruct Hcp as [Hd _].
  destruct (lam_child _ _ Hl p c Hp Hc). destruct (lam_iv _ _ Hl p Hp). split_and!; [done..|lia].
Qed.

(** Induction towards the root. *)
Lemma up_ind (P : Hash → Prop) :
  (∀ h, h ∈ dom ns → n_tree_parent (node_of ns h) = None → P h) →
  (∀ h p, tparent ns h p → P p → P h) →
  ∀ h, h ∈ dom ns → P h.
Proof.
  intros Hroot Hstep h Hh. remember (Z.to_nat (bound - hi ns h)) as k eqn:Hk. revert h Hh Hk.
  induction (lt_wf k) as [k _ IH]; intros h Hh ->.
  destruct (n_tree_parent (node_of ns h)) as [p|] eqn:Hp; [|by apply Hroot].
  destruct (parent_nested h p) as (_ & Hpd & _ & Hlt); [by split|].
  destruct (lam_iv _ _ Hl p Hpd) as [_ [_ Hb]].
  apply (Hstep h p); [by split|]. eapply IH; [|exact Hpd|reflexivity]. lia.
Qed.

(** Induction towards the leaves. *)
Lemma down_ind (P : Hash → Prop) :
  (∀ h, h ∈ dom ns → (∀ c, c ∈ children ns h → P c) → P h) → ∀ h, h ∈ dom ns → P h.
Proof.
  intros Hstep h Hh. remember (Z.to_nat (hi ns h - lo ns h)) as k eqn:Hk. revert h Hh Hk.
  induction (lt_wf k) as [k _ IH]; intros h Hh ->. apply Hstep; [done|]. intros c Hc.
  destruct (parent_nested c h (to_child _ Ht _ _ Hh Hc)) as (Hcd & _ & H1 & H2).
  destruct (lam_iv _ _ Hl c Hcd). eapply IH; [|exact Hcd|reflexivity]. lia.
Qed.

Lemma tree_anc_dom a b : tree_anc ns a b → b ∈ dom ns → a ∈ dom ns.
Proof. intros Hab. induction Hab as [|b p a Hp _ IH]; [done|]. intros _. by apply IH, (parent_nested b p). Qed.

Lemma tree_anc_nested a b :
  tree_anc ns a b → b ∈ dom ns → lo ns a <= lo ns b ∧ hi ns b <= hi ns a ∧ (a ≠ b → hi ns b < hi ns a).
Proof.
  intros Hab. induction Hab as [b|b p a Hp _ IH]; intros Hb; [lia|].
  destruct (parent_nested b p Hp) as (_ & Hpd & ? & ?). specialize (IH Hpd). lia.
Qed.

(** Proper descendants lie below a child. *)
Lemma tree_anc_child a b : tree_anc ns a b → a ≠ b → ∃ c, tparent ns c a ∧ tree_anc ns c b.
Proof.
  intros Hab Hne. apply rtc_inv_r in Hab; destruct Hab as [->|(c & Hbc & Hca)]; [done|]. by exists c.
Qed.

Lemma disj_below x y z : y ∈ dom ns → disj ns x z → tree_anc ns z y → disj ns x y.
Proof.
  intros Hy Hd Ha. destruct (tree_anc_nested z y Ha Hy) as (? & ? & _).
  destruct (lam_iv _ _ Hl y Hy). unfold disj in *. lia.
Qed.

Lemma disj_sym x y : disj ns x y → disj ns y x.
Proof. unfold disj. lia. Qed.

Lemma trichotomy x y :
  x ∈ dom ns → y ∈ dom ns → tree_anc ns x y ∨ tree_anc ns y x ∨ disj ns x y.
Proof.
  intros Hx. revert y. revert x Hx. refine (up_ind _ _ _).
  - intros x Hx Hrx. refine (up_ind _ _ _).
    + intros y Hy Hry. destruct (decide (x = y)) as [->|Hne]; [left; apply rtc_refl|].
      right; right. by apply (lam_root _ _ Hl).
    + intros y q Hyq [Hq|[Hq|Hq]]; pose proof (parent_nested y q Hyq) as (Hy & _).
      * left. by eapply rtc_l.
      * apply rtc_inv in Hq; destruct Hq as [<-|(z & [_ Hz] & _)]; [left; by apply rtc_once|congruence].
      * right; right. eapply disj_below; [done|exact Hq|by apply rtc_once].
  - intros x p Hxp IH y Hy. pose proof (parent_nested x p Hxp) as (Hx & Hp & _).
    destruct (IH y Hy) as [Hpy|[Hyp|Hd]].
    + destruct (decide (p = y)) as [->|Hne]; [right; left; by apply rtc_once|].
      destruct (tree_anc_child p y Hpy Hne) as (c & Hcp & Hcy).
      destruct (decide (c = x)) as [->|Hcx]; [by left|]. right; right.
      eapply disj_below; [done| |exact Hcy].
      apply (lam_sib _ _ Hl p); [done|by apply (to_parent _ Ht)..|done].
    + right; left. by eapply rtc_l.
    + right; right. apply disj_sym. eapply disj_below; [done|by apply disj_sym|by apply rtc_once].
Qed.

(** Interval containment decides the tree order. *)
Lemma contains_tree_anc a b :
  a ∈ dom ns → b ∈ dom ns → is_chain_ancestor_incl ns a b = true ↔ tree_anc ns a b.
Proof.
  intros Ha Hb. unfold is_chain_ancestor_incl, iv_contains. rewrite andb_true_iff, !Z.leb_le. split.
  - intros [H1 H2]. destruct (trichotomy a b Ha Hb) as [?|[Hba|Hd]]; [done| |].
    + destruct (decide (b = a)) as [->|Hne]; [apply rtc_refl|].
      destruct (tree_anc_nested b a Hba Ha) as (_ & _ & Hlt). specialize (Hlt Hne). lia.
    + destruct (lam_iv _ _ Hl a Ha), (lam_iv _ _ Hl b Hb). unfold disj in Hd. lia.
  - intros Hab. destruct (tree_anc_nested a b Hab Hb). lia.
Qed.
End laminar.

(** ** Covering sets *)

(** [apart ns l]: the windows of [l] are disjoint and in increasing order. *)
Definition apart (ns : Nodes) (l : list Hash) : Prop := StronglySorted (λ x y, hi ns x < lo ns y) l.
Definition nonempty_ivs (ns : Nodes) (l : list Hash) : Prop := ∀ x, x ∈ l → lo ns x <= hi ns x.

Definition cover_in (ns : Nodes) (l : list Hash) (t : Interval) : bool :=
  match partition_point ns (iv_start t) l with
  | O => false
  | S i => match l !! i with Some cand => iv_contains (interval_of ns cand) t | None => false end
  end.

Lemma iv_contains_spec a b :
  iv_contains a b = true ↔ iv_start a <= iv_start b ∧ iv_end b <= iv_end a.
Proof. unfold iv_contains. by rewrite andb_true_iff, !Z.leb_le. Qed.

Lemma partition_point_O ns x l f :
  partition_point ns x l = O → apart ns l → nonempty_ivs ns l → f ∈ l → x < lo ns f.
Proof.
  destruct l as [|h l]; simpl; [set_solver|]. destruct (_ <=? _) eqn:Hh; [done|]. zbool.
  intros _ Ha Hn Hf. inversion Ha as [|? ? _ Hall]; subst.
  apply elem_of_cons in Hf as [->|Hf]; [done|]. rewrite Forall_forall in Hall.
  specialize (Hall f Hf). specialize (Hn h ltac:(set_solver)). lia.
Qed.

(** The binary search finds a covering entry if there is one. *)
Lemma cover_in_spec ns l t :
  apart ns l → nonempty_ivs ns l → iv_start t <= iv_end t →
  cover_in ns l t = true ↔ ∃ f, f ∈ l ∧ iv_contains (interval_of ns f) t = true.
Proof.
  intros Ha Hn Ht. induction l as [|h l IH]; [unfold cover_in; simpl; set_solver|].
  assert (apart ns l ∧ ∀ f, f ∈ l → hi ns h < lo ns f) as [Hal Hhl].
  { inversion Ha as [|? ? Hal Hall]; subst. rewrite Forall_forall in Hall. done. }
  assert (nonempty_ivs ns l) as Hnl by (intros x Hx; apply Hn; set_solver).
  specialize (IH Hal Hnl). pose proof (Hn h ltac:(set_solver)) as Hh.
  unfold cover_in in *. simpl. destruct (_ <=? _) eqn:Hlo; zbool.
  - destruct (partition_point ns (iv_start t) l) as [|i] eqn:Hpp; simpl.
    + split; [intros; exists h; set_solver|]. intros (f & [->|Hf]%elem_of_cons & Hc); [done|].
      rewrite iv_contains_spec in Hc. pose proof (partition_point_O ns _ l f Hpp Hal Hnl Hf). lia.
    + rewrite IH. split; [set_solver|]. intros (f & [->|Hf]%elem_of_cons & Hc); [|by exists f].
      exfalso. rewrite iv_contains_spec in Hc.
      destruct l as [|h2 l]; [done|]. simpl in Hpp. destruct (_ <=? _) eqn:Hlo2; [|done]. zbool.
      specialize (Hhl h2 ltac:(set_solver)). lia.
  - split; [done|]. intros (f & Hf & Hc). rewrite iv_contains_spec in Hc.
    apply elem_of_cons in Hf as [->|Hf]; [lia|]. specialize (Hhl f Hf). lia.
Qed.

(** Sorted insertion of a window disjoint from all others. *)
Definition insert_at (ns : Nodes) (new : Hash) (l : list Hash) : list Hash :=
  let pos := partition_point ns (lo ns new) l in take pos l ++ new :: drop pos l.

Lemma elem_of_insert_at ns new l f : f ∈ insert_at ns new l ↔ f = new ∨ f ∈ l.
Proof.
  unfold insert_at. set (pos := partition_point _ _ _). rewrite <- (take_drop pos l) at 3.
  rewrite !elem_of_app, elem_of_cons. tauto.
Qed.

Lemma apart_insert_at ns new l :
  apart ns l → nonempty_ivs ns (new :: l) → (∀ f, f ∈ l → disj ns f new) → apart ns (insert_at ns new l).
Proof.
  unfold insert_at. intros Ha Hn Hd. pose proof (Hn new ltac:(set_solver)) as Hnew.
  induction l as [|h l IH]; simpl; [by repeat constructor|].
  inversion Ha as [|? ? Hal Hall]; subst. pose proof (Hn h ltac:(set_solver)) as Hh.
  pose proof (Hd h ltac:(set_solver)) as Hdh. rewrite Forall_forall in Hall.
  destruct (_ <=? _) eqn:Hlo; zbool; simpl; constructor.
  - apply IH; [done|intros x Hx; apply Hn; set_solver|intros f Hf; apply Hd; set_solver].
  - apply Forall_forall. intros f Hf. apply (elem_of_insert_at ns new l) in Hf as [->|Hf]; [|by apply Hall].
    unfold disj in Hdh. lia.
  - done.
  - apply Forall_forall. intros f [->|Hf]%elem_of_cons; [unfold disj in Hdh; lia|].
    specialize (Hall f Hf). unfold disj in Hdh. lia.
Qed.

(** ** The invariant of the index *)

(** The covering sets describe [dag] beyond the tree; [missing] are the pairs not
    recorded yet. *)
Record fcs_ok (ns : Nodes) (dag : Dag) (missing : Hash → Hash → Prop) : Prop := {
  fcs_apart m : m ∈ dom ns → apart ns (n_fcs (node_of ns m));
  fcs_sound m f : m ∈ dom ns → f ∈ n_fcs (node_of ns m) → f ∈ dom ns ∧ ancestor dag m f;
  fcs_complete m b : m ∈ dom ns → b ∈ dom ns → ancestor dag m b →
    missing m b ∨ tree_anc ns m b ∨ ∃ f, f ∈ n_fcs (node_of ns m) ∧ tree_anc ns f b;
}.

Record index_ok (ns : Nodes) (bound : Z) (dag : Dag) (missing : Hash → Hash → Prop) : Prop := {
  ok_dom : dom ns = dom dag;
  ok_tree : tree_ok ns;
  ok_lam : laminar ns bound;
  ok_edge c p : tparent ns c p → edge dag c p;
  ok_fcs : fcs_ok ns dag missing;
  ok_acyclic a : ¬ ancestor dag a a;
}.
Definition reach_ok (r : Reachability) (dag : Dag) : Prop :=
  index_ok (nodes r) (next_root_start r) dag (λ _ _, False).

Lemma index_iv ns bound dag E x : index_ok ns bound dag E → x ∈ dom ns → lo ns x <= hi ns x.
Proof. intros Hi Hx. destruct (lam_iv _ _ (ok_lam _ _ _ _ Hi) x Hx). lia. Qed.

Lemma tree_anc_past ns bound dag E a b : index_ok ns bound dag E → tree_anc ns a b → in_past dag b a.
Proof.
  intros Hr Hab. induction Hab as [|b p a Hp _ IH]; [apply rtc_refl|].
  eapply rtc_l; [|exact IH]. by apply (ok_edge _ _ _ _ Hr).
Qed.

Lemma fcs_contains_cover_spec ns bound dag E m b :
  index_ok ns bound dag E → m ∈ dom ns → b ∈ dom ns →
  fcs_contains_cover ns m (interval_of ns b) = true ↔
  ∃ f, f ∈ n_fcs (node_of ns m) ∧ tree_anc ns f b.
Proof.
  intros Hr Hm Hb. pose proof (ok_fcs _ _ _ _ Hr) as Hf.
  change (fcs_contains_cover _ _ _) with (cover_in ns (n_fcs (node_of ns m)) (interval_of ns b)).
  rewrite cover_in_spec; [|by apply (fcs_apart _ _ _ Hf)| |by eapply index_iv].
  2: { intros x Hx. eapply index_iv; [done|]. by apply (fcs_sound _ _ _ Hf m). }
  f_equiv; intros f. split; intros [Hfm Hc]; (split; [done|]);
    pose proof (fcs_sound _ _ _ Hf m f Hm Hfm) as [Hfd _];
    apply (contains_tree_anc ns bound (ok_tree _ _ _ _ Hr) (ok_lam _ _ _ _ Hr)); done.
Qed.

(** The index answers ancestry. *)
Lemma reach_is_ancestor_spec r dag a b :
  reach_ok r dag → a ∈ dom dag → b ∈ dom dag →
  reach_is_ancestor r dag a b = true ↔ ancestor dag a b.
Proof.
  intros Hr Ha Hb. unfold reach_ok in Hr. rewrite <- (ok_dom _ _ _ _ Hr) in Ha, Hb.
  unfold reach_is_ancestor. pose proof Ha as [na ->]%elem_of_dom. pose proof Hb as [nb ->]%elem_of_dom.
  unfold is_dag_ancestor_incl.
  rewrite andb_true_iff, negb_true_iff, bool_decide_eq_false, orb_true_iff.
  rewrite (contains_tree_anc _ _ (ok_tree _ _ _ _ Hr) (ok_lam _ _ _ _ Hr)) by done.
  rewrite (fcs_contains_cover_spec _ _ _ _ _ _ Hr) by done.
  split.
  - intros [Hne [Hab|(f & Hf & Hfb)]].
    + apply (tree_anc_past _ _ _ _ _ _ Hr), past_or_self in Hab as [->|?]; done.
    + destruct (fcs_sound _ _ _ (ok_fcs _ _ _ _ Hr) a f Ha Hf) as [_ Haf].
      apply (tree_anc_past _ _ _ _ _ _ Hr), past_or_self in Hfb as [->|Hfb]; [done|]. by trans f.
  - intros Hab. split; [intros ->; by apply (ok_acyclic _ _ _ _ Hr b)|].
    by destruct (fcs_complete _ _ _ (ok_fcs _ _ _ _ Hr) a b Ha Hb Hab).
Qed.

#[global] Instance reach_oracle : AncestorOracle Reachability := {|
  is_ancestor := reach_is_ancestor;
  oracle_ok := reach_ok;
  is_ancestor_spec := reach_is_ancestor_spec;
|}.
