(* ===== verification/Reindex.v ===== *)
(** * Relabelling the reachability index

    [Reachability::reindex_all] and [subtree_sizes] of [src/src/reachability.rs]: the
    stack loops are followed on the forest of the index as rose trees
    ([size_loop_tree], [assign_tree]); the new labels are laminar, leave every node
    room for a child ([reindex_labels]) and describe the same graph
    ([reindex_ok]). *)

From S2P Require Import Prelude Genesis Crypto Address Predicate Utxo UtxoTx Registry Custody Block Dag Ghostdag Reachability.

(** ** Relabelling is correct

    The loops of [reindex_all] are followed on the forest as rose trees. *)
Inductive rtree := RT (h : Hash) (ch : list rtree).
Definition troot (t : rtree) : Hash := match t with RT h _ => h end.
Fixpoint tnodes (t : rtree) : list Hash := match t with RT h ch => h :: concat (tnodes <$> ch) end.
Abbreviation fnodes ts := (concat (tnodes <$> ts)).
Definition tsize (t : rtree) : Z := len (tnodes t).

Lemma rtree_ind' (P : rtree → Prop) : (∀ h ch, Forall P ch → P (RT h ch)) → ∀ t, P t.
Proof. intros H. fix IH 1. intros [h ch]. apply H. induction ch; constructor; [apply IH|done]. Qed.

(** [rep ns t]: [t] is the subtree of its root. *)
Inductive rep (ns : Nodes) : rtree → Prop :=
| rep_node h ch : h ∈ dom ns → children ns h = troot <$> ch → Forall (rep ns) ch → rep ns (RT h ch).

Lemma len_fnodes ts : len (fnodes ts) = zsum (tsize <$> ts).
Proof.
  induction ts as [|t ts IH]; [done|]. rewrite !fmap_cons, zsum_cons, <- IH.
  unfold tsize, len. simpl. rewrite length_app. lia.
Qed.

Lemma tsize_node h ch : tsize (RT h ch) = 1 + zsum (tsize <$> ch).
Proof. rewrite <- len_fnodes. unfold tsize, len. cbn [tnodes length]. lia. Qed.

Lemma tsize_pos t : 1 <= tsize t.
Proof. destruct t as [h ch]. unfold tsize, len. simpl. lia. Qed.

Lemma troot_in t : troot t ∈ tnodes t.
Proof. destruct t. simpl. set_solver. Qed.

Lemma elem_of_fnodes ts x : x ∈ fnodes ts ↔ ∃ t, t ∈ ts ∧ x ∈ tnodes t.
Proof. induction ts as [|t ts IH]; simpl; [set_solver|]. rewrite elem_of_app, IH. set_solver. Qed.

Lemma troots_in ts x : x ∈ troot <$> ts → x ∈ fnodes ts.
Proof.
  intros (t & -> & Ht)%list_elem_of_fmap. apply elem_of_fnodes. exists t. split; [done|apply troot_in].
Qed.

(** The sizes the loop records for a tree, last child first. *)
Fixpoint tsizes (t : rtree) (m : gmap Hash Z) : gmap Hash Z :=
  match t with RT h ch => <[h := tsize t]> (foldr tsizes m ch) end.

Lemma tsizes_other t m x : x ∉ tnodes t → tsizes t m !! x = m !! x.
Proof.
  revert m. induction t as [h ch IH] using rtree_ind'; intros m Hx. simpl in *.
  rewrite lookup_insert_ne by set_solver. apply not_elem_of_cons in Hx as [_ Hx].
  induction IH as [|c ch Hc _ IHch]; simpl in *; [done|].
  apply not_elem_of_app in Hx as [Hx1 Hx2]. rewrite Hc by done. by apply IHch.
Qed.

Lemma ftsizes_other ts m x : x ∉ fnodes ts → foldr tsizes m ts !! x = m !! x.
Proof.
  induction ts as [|t ts IH]; simpl; [done|]. intros [H1 H2]%not_elem_of_app.
  rewrite tsizes_other by done. by apply IH.
Qed.

Lemma tsizes_root t m : tsizes t m !! troot t = Some (tsize t).
Proof. destruct t. simpl. by rewrite lookup_insert_eq. Qed.

Lemma ftsizes_in ts m t :
  NoDup (fnodes ts) → t ∈ ts → foldr tsizes m ts !! troot t = Some (tsize t).
Proof.
  induction ts as [|u ts IH]; simpl; [set_solver|]. intros Hnd [->|Ht]%elem_of_cons; [apply tsizes_root|].
  apply NoDup_app in Hnd as (_ & Hdis & Hnd). rewrite tsizes_other; [by apply IH|].
  intros Hu. apply (Hdis _ Hu), troots_in, list_elem_of_fmap. eauto.
Qed.

Lemma zsum_ext {A} (f g : A → Z) l : (∀ x, x ∈ l → f x = g x) → zsum (f <$> l) = zsum (g <$> l).
Proof.
  induction l as [|x l IH]; intros Hfg; [done|]. rewrite !fmap_cons, !zsum_cons.
  rewrite Hfg, IH by set_solver. done.
Qed.

Section loops.
Context (ns : Nodes).
#[local] Arguments Nat.mul : simpl never.

(** The size loop processes a tree and goes on with the rest of the stack. *)
Lemma size_loop_tree t fuel stack m :
  rep ns t → NoDup (tnodes t) →
  size_loop (2 * length (tnodes t) + fuel) ns ((troot t, false) :: stack) m =
  size_loop fuel ns stack (tsizes t m).
Proof.
  revert fuel stack m. induction t as [h ch IH] using rtree_ind'; intros fuel stack m Hrep Hnd.
  inversion Hrep as [? ? Hh Hch Hall]; subst. simpl in Hnd. apply NoDup_cons in Hnd as [Hhn Hnd].
  assert (∀ fuel stack m, size_loop (2 * length (fnodes ch) + fuel) ns
      (rev ((λ c, (c, false)) <$> (troot <$> ch)) ++ stack) m = size_loop fuel ns stack (foldr tsizes m ch)) as Hl.
  { clear Hch Hhn Hrep. induction ch as [|c ch IHch] using rev_ind; intros f st m'; [done|].
    apply Forall_app in IH as [IH IHc]. apply Forall_app in Hall as [Hall Hallc].
    inversion IHc as [|? ? Hc _]; subst. inversion Hallc as [|? ? Hrc _]; subst.
    rewrite !fmap_app, concat_app in *. simpl in *. rewrite app_nil_r in *.
    apply NoDup_app in Hnd as (Hnd1 & _ & Hnd2).
    rewrite rev_app_distr. simpl. rewrite foldr_app. simpl.
    rewrite <- IHch by done. rewrite length_app.
    replace (2 * (length (fnodes ch) + length (tnodes c)) + f)%nat
      with (2 * length (tnodes c) + (2 * length (fnodes ch) + f))%nat by lia.
    by rewrite Hc. }
  replace (2 * length (tnodes (RT h ch)) + fuel)%nat
    with (S (2 * length (fnodes ch) + S fuel))%nat by (simpl; lia).
  cbn [size_loop troot]. rewrite Hch, Hl. cbn [size_loop]. rewrite Hch. simpl. do 2 f_equal.
  rewrite tsize_node. f_equal. rewrite <- list_fmap_compose. apply zsum_ext. intros c Hc. simpl.
  by rewrite ftsizes_in.
Qed.

Lemma size_loop_forest ts fuel m :
  Forall (rep ns) ts → NoDup (fnodes ts) →
  size_loop (2 * length (fnodes ts) + fuel) ns ((λ t, (troot t, false)) <$> ts) m =
  foldl (λ m t, tsizes t m) m ts.
Proof.
  revert fuel m. induction ts as [|t ts IH]; intros fuel m Hall Hnd; [by destruct fuel|].
  inversion Hall; subst. rewrite !fmap_cons in *. cbn [concat foldl] in *. apply NoDup_app in Hnd as (Hnd1 & _ & Hnd2).
  replace (2 * length (tnodes t ++ fnodes ts) + fuel)%nat
    with (2 * length (tnodes t) + (2 * length (fnodes ts) + fuel))%nat by (rewrite length_app; lia).
  rewrite size_loop_tree by done. by apply IH.
Qed.
End loops.

(** [sized m t]: [m] holds the subtree sizes of [t]. *)
Inductive sized (m : gmap Hash Z) : rtree → Prop :=
| sized_node h ch : m !! h = Some (tsize (RT h ch)) → Forall (sized m) ch → sized m (RT h ch).

Lemma sized_ext m m' t : (∀ x, x ∈ tnodes t → m' !! x = m !! x) → sized m t → sized m' t.
Proof.
  induction t as [h ch IH] using rtree_ind'. intros Hm Hs. inversion Hs as [? ? Hh Hall]; subst.
  constructor; [rewrite Hm; [done|set_solver]|]. rewrite Forall_forall in *. intros c Hc.
  apply IH; [done| |by apply Hall]. intros x Hx. apply Hm. simpl. apply elem_of_cons. right.
  apply elem_of_fnodes. eauto.
Qed.

Lemma ftsizes_sized ts m :
  Forall (λ t, ∀ m, NoDup (tnodes t) → sized (tsizes t m) t) ts → NoDup (fnodes ts) →
  Forall (sized (foldr tsizes m ts)) ts.
Proof.
  induction ts as [|t ts IH]; intros Hall Hnd; constructor; inversion Hall as [|? ? Ht Hts]; subst;
    rewrite !fmap_cons in Hnd; cbn [concat] in Hnd; apply NoDup_app in Hnd as (H1 & Hdis & H2); simpl.
  - by apply Ht.
  - specialize (IH Hts H2). rewrite Forall_forall in *. intros u Hu. eapply sized_ext; [|by apply IH].
    intros x Hx. apply tsizes_other. intros Hxt. apply (Hdis x Hxt). apply elem_of_fnodes. eauto.
Qed.

Lemma tsizes_sized t m : NoDup (tnodes t) → sized (tsizes t m) t.
Proof.
  revert m. induction t as [h ch IH] using rtree_ind'. intros m Hnd. simpl in *.
  apply NoDup_cons in Hnd as [Hh Hnd]. constructor; [by rewrite lookup_insert_eq|].
  pose proof (ftsizes_sized ch m IH Hnd) as Hs. rewrite Forall_forall in *. intros c Hc.
  eapply sized_ext; [|by apply Hs]. intros x Hx. apply lookup_insert_ne. intros <-.
  apply Hh, elem_of_fnodes. eauto.
Qed.

Lemma foldl_sized ts m : NoDup (fnodes ts) → Forall (sized (foldl (λ m t, tsizes t m) m ts)) ts.
Proof.
  induction ts as [|t ts IH] using rev_ind; intros Hnd; [constructor|].
  rewrite fmap_app, concat_app in Hnd. simpl in Hnd. rewrite app_nil_r in Hnd.
  apply NoDup_app in Hnd as (H1 & Hdis & H2). rewrite foldl_app. simpl. apply Forall_app. split.
  - specialize (IH H1). rewrite Forall_forall in *. intros u Hu. eapply sized_ext; [|by apply IH].
    intros x Hx. apply tsizes_other. intros Hxt. apply (Hdis x); [|done]. apply elem_of_fnodes. eauto.
  - constructor; [|constructor]. by apply tsizes_sized.
Qed.

(** *** The windows *)

Fixpoint fwindows (start : Z) (ts : list rtree) : list (Hash * Z) :=
  match ts with [] => [] | t :: ts => (troot t, start) :: fwindows (start + tsize t * SCALE) ts end.
Abbreviation fspan ts := (zsum (tsize <$> ts) * SCALE).

Lemma fspan_nonneg ts : 0 <= fspan ts.
Proof.
  apply Z.mul_nonneg_nonneg; [|done]. apply zsum_nonneg, Forall_forall.
  intros x (t & -> & _)%list_elem_of_fmap. pose proof (tsize_pos t). lia.
Qed.

Lemma windows_eq m start ts :
  Forall (sized m) ts → 0 <= start → start + fspan ts <= U64_MAX →
  windows m start (troot <$> ts) = (fwindows start ts, start + fspan ts).
Proof.
  revert start. induction ts as [|t ts IH]; intros start Hs H0 Hb; [by simpl; rewrite Z.add_0_r|].
  inversion Hs as [|? ? Ht Hts]; subst. rewrite !fmap_cons, zsum_cons in *.
  pose proof (tsize_pos t). pose proof (fspan_nonneg ts). assert (0 <= tsize t * SCALE) by (apply Z.mul_nonneg_nonneg; [lia|done]).
  rewrite Z.mul_add_distr_r in Hb |- *.
  cbn [windows fwindows].
  assert (default 0 (m !! troot t) = tsize t) as -> by (destruct t; inversion Ht as [? ? Hh _]; subst; simpl; by rewrite Hh).
  rewrite sat_mul_exact, wrap_small by (unfold in_width; lia). rewrite IH by (done || lia). f_equal. lia.
Qed.

Lemma fwindows_app start ts ts' :
  fwindows start (ts ++ ts') = fwindows start ts ++ fwindows (start + fspan ts) ts'.
Proof.
  revert start. induction ts as [|t ts IH]; intros start; [by simpl; rewrite Z.add_0_r|].
  cbn [fwindows app]. rewrite IH, fmap_cons, zsum_cons. do 3 f_equal. lia.
Qed.

(** [labelled m t start]: the window of [t] starts at [start], its children fill it
    from the left and one [SCALE] stays free. *)
Fixpoint labelled (m : Nodes) (t : rtree) (start : Z) : Prop :=
  match t with
  | RT h ch =>
      h ∈ dom m ∧
      interval_of m h = {| iv_start := start; iv_end := start + tsize t * SCALE - 1 |} ∧
      free m h = start + fspan ch ∧
      (fix go (ch : list rtree) (s : Z) : Prop :=
         match ch with [] => True | c :: ch => labelled m c s ∧ go ch (s + tsize c * SCALE) end) ch start
  end.
Fixpoint flabelled (m : Nodes) (ts : list rtree) (start : Z) : Prop :=
  match ts with [] => True | t :: ts => labelled m t start ∧ flabelled m ts (start + tsize t * SCALE) end.

Lemma labelled_node m h ch start :
  labelled m (RT h ch) start ↔
  (h ∈ dom m ∧ interval_of m h = {| iv_start := start; iv_end := start + tsize (RT h ch) * SCALE - 1 |} ∧
   free m h = start + fspan ch ∧ flabelled m ch start).
Proof.
  cbn [labelled]. match goal with |- context [?go ch start] =>
    assert (∀ l s, go l s ↔ flabelled m l s) as Hgo; [|by rewrite Hgo] end.
  induction l as [|c l IH]; intros s; simpl; [done|]. by rewrite IH.
Qed.

Lemma flabelled_app m ts ts' start :
  flabelled m (ts ++ ts') start ↔ flabelled m ts start ∧ flabelled m ts' (start + fspan ts).
Proof.
  revert start. induction ts as [|t ts IH]; intros start.
  - simpl. rewrite Z.add_0_r. tauto.
  - rewrite fmap_cons, zsum_cons. simpl. rewrite IH.
    replace (start + (tsize t + zsum (tsize <$> ts)) * SCALE)
      with (start + tsize t * SCALE + fspan ts) by lia. tauto.
Qed.

Lemma node_of_eq (m m' : Nodes) x : m' !! x = m !! x → node_of m' x = node_of m x.
Proof. unfold node_of. by intros ->. Qed.

Lemma labelled_ext m m' t start :
  (∀ x, x ∈ tnodes t → m' !! x = m !! x) → labelled m t start → labelled m' t start.
Proof.
  revert start. induction t as [h ch IH] using rtree_ind'. intros start Hm. rewrite !labelled_node.
  intros (Hd & Hi & Hf & Hch). pose proof (Hm h ltac:(set_solver)) as Hh.
  unfold interval_of in *. rewrite (node_of_eq m m' h Hh). split_and!; [|done..|].
  - apply elem_of_dom. rewrite Hh. by apply elem_of_dom.
  - simpl in Hm. clear Hi Hf Hh Hd. revert start Hch. induction IH as [|c ch Hc _ IHch]; intros start; simpl; [done|].
    intros [H1 H2]. split.
    + apply Hc; [|done]. intros x Hx. apply Hm. simpl. set_solver.
    + apply IHch; [|done]. intros x Hx. apply Hm. simpl in *. set_solver.
Qed.

(** *** The assignment loop *)

(** [keeps m m']: only labels differ. *)
Definition keeps (m m' : Nodes) : Prop :=
  dom m' = dom m ∧ ∀ h, n_tree_parent (node_of m' h) = n_tree_parent (node_of m h) ∧
    children m' h = children m h ∧ n_fcs (node_of m' h) = n_fcs (node_of m h).

#[global] Instance keeps_preorder : PreOrder keeps.
Proof.
  split; [by intros m|]. intros m1 m2 m3 [Hd1 H1] [Hd2 H2]. split; [by rewrite Hd2|].
  intros h. destruct (H1 h) as (-> & -> & ->) || destruct (H1 h) as (? & ? & ?).
  destruct (H2 h) as (? & ? & ?). split_and!; congruence.
Qed.

Lemma node_of_insert_eq (m : Nodes) h n : node_of (<[h:=n]> m) h = n.
Proof. unfold node_of. by rewrite lookup_insert_eq. Qed.
Lemma node_of_insert_ne (m : Nodes) h n x : h ≠ x → node_of (<[h:=n]> m) x = node_of m x.
Proof. intros. unfold node_of. by rewrite lookup_insert_ne. Qed.

Lemma keeps_relabel m h s e f : h ∈ dom m → keeps m (<[h := relabel (node_of m h) s e f]> m).
Proof.
  intros Hh. split; [rewrite dom_insert_L; set_solver|]. intros x.
  destruct (decide (h = x)) as [->|]; [by rewrite node_of_insert_eq|by rewrite node_of_insert_ne].
Qed.

Lemma rep_keeps m m' t : keeps m m' → rep m t → rep m' t.
Proof.
  intros [Hd Hk]. induction t as [h ch IH] using rtree_ind'. intros Hr.
  inversion Hr as [? ? Hh Hch Hall]; subst. constructor.
  - by rewrite Hd.
  - by rewrite (proj1 (proj2 (Hk h))).
  - rewrite Forall_forall in *. auto.
Qed.

Definition assigns (sizes : gmap Hash Z) (t : rtree) : Prop :=
  ∀ fuel stack m start, rep m t → sized sizes t → NoDup (tnodes t) →
  0 < start → start + tsize t * SCALE <= U64_MAX →
  ∃ m', assign_loop (length (tnodes t) + fuel) sizes ((troot t, start) :: stack) m =
          assign_loop fuel sizes stack m' ∧
        keeps m m' ∧ (∀ x, x ∉ tnodes t → m' !! x = m !! x) ∧ labelled m' t start.

Lemma assign_forest sizes ts fuel stack m start :
  Forall (assigns sizes) ts → Forall (rep m) ts → Forall (sized sizes) ts → NoDup (fnodes ts) →
  0 < start → start + fspan ts <= U64_MAX →
  ∃ m', assign_loop (length (fnodes ts) + fuel) sizes (rev (fwindows start ts) ++ stack) m =
          assign_loop fuel sizes stack m' ∧
        keeps m m' ∧ (∀ x, x ∉ fnodes ts → m' !! x = m !! x) ∧ flabelled m' ts start.
Proof.
  revert fuel stack m. induction ts as [|t ts IH] using rev_ind; intros fuel stack m HA HR HS Hnd H0 Hb.
  { exists m. split_and!; done. }
  apply Forall_app in HA as [HA HAt]. apply Forall_app in HR as [HR HRt].
  apply Forall_app in HS as [HS HSt].
  rewrite Forall_singleton in HAt, HRt, HSt.
  rewrite !fmap_app, concat_app, zsum_app in *. simpl concat in *. simpl (zsum [_]) in *. rewrite app_nil_r in *.
  apply NoDup_app in Hnd as (Hnd1 & Hdis & Hnd2).
  pose proof (tsize_pos t). pose proof (fspan_nonneg ts).
  assert (0 <= tsize t * SCALE) by (apply Z.mul_nonneg_nonneg; [lia|done]).
  replace ((zsum (tsize <$> ts) + zsum (tsize <$> [t])) * SCALE) with (fspan ts + tsize t * SCALE) in Hb
    by (rewrite fmap_cons, zsum_cons; simpl; lia).
  rewrite fwindows_app, rev_app_distr. simpl rev. simpl app. rewrite length_app.
  replace (length (fnodes ts) + length (tnodes t) + fuel)%nat
    with (length (tnodes t) + (length (fnodes ts) + fuel))%nat by lia.
  destruct (HAt (length (fnodes ts) + fuel)%nat (rev (fwindows start ts) ++ stack) m (start + fspan ts))
    as (m1 & -> & Hk1 & Ho1 & Hl1); [done|done|done|lia|lia|].
  destruct (IH fuel stack m1) as (m2 & -> & Hk2 & Ho2 & Hl2); [done| |done|done|done|lia|].
  { rewrite Forall_forall in *. intros u Hu. by eapply rep_keeps; [|apply HR]. }
  exists m2. split_and!; [done|by etrans| |].
  - intros x [Hx1 Hx2]%not_elem_of_app. rewrite Ho2 by done. by apply Ho1.
  - apply flabelled_app. split; [done|]. simpl. split; [|done].
    eapply labelled_ext; [|exact Hl1]. intros x Hx. apply Ho2. intros Hx'. by apply (Hdis x).
Qed.

Lemma assign_tree sizes t : assigns sizes t.
Proof.
  induction t as [h ch IH] using rtree_ind'. intros fuel stack m start HR HS Hnd H0 Hb.
  inversion HR as [? ? Hh Hch HRc]; subst. inversion HS as [? ? Hsz HSc]; subst.
  simpl in Hnd. apply NoDup_cons in Hnd as [Hhn Hnd].
  rewrite tsize_node, Z.mul_add_distr_r in Hb. pose proof (fspan_nonneg ch).
  assert (0 <= SCALE) by done.
  cbn [tnodes length Nat.add assign_loop troot]. rewrite Hsz, Hch. simpl default.
  rewrite windows_eq by (done || lia).
  rewrite sat_mul_exact, wrap_small
    by (rewrite tsize_node; unfold in_width; lia).
  set (n := relabel (node_of m h) _ _ _).
  pose proof (keeps_relabel m h start (start + tsize (RT h ch) * SCALE - 1) (start + fspan ch) Hh) as Hk0.
  fold n in Hk0.
  destruct (assign_forest sizes ch fuel stack (<[h:=n]> m) start) as (m' & -> & Hk & Ho & Hl); [done| |done|done|done|lia|].
  { rewrite Forall_forall in *. intros u Hu. by eapply rep_keeps; [|apply HRc]. }
  exists m'. assert (m' !! h = Some n) as Hm by (rewrite Ho by done; by rewrite lookup_insert_eq).
  split_and!; [done|by etrans| |].
  - intros x [Hx1 Hx2]%not_elem_of_cons. rewrite Ho by done. by rewrite lookup_insert_ne.
  - apply labelled_node. unfold interval_of, node_of. rewrite Hm. split_and!; [by eapply elem_of_dom_2|done..].
Qed.

(** *** The forest of an index *)

Lemma forest_choice (P : rtree → Prop) l :
  (∀ c, c ∈ l → ∃ t, P t ∧ troot t = c) → ∃ ts, Forall P ts ∧ troot <$> ts = l.
Proof.
  induction l as [|c l IH]; intros Hl; [by exists []|].
  destruct (Hl c) as (t & Ht & Hc); [set_solver|]. destruct IH as (ts & Hts & Hr); [set_solver|].
  exists (t :: ts). split; [by constructor|]. rewrite fmap_cons. congruence.
Qed.

Lemma NoDup_fnodes ts :
  NoDup (troot <$> ts) → (∀ t, t ∈ ts → NoDup (tnodes t)) →
  (∀ t u x, t ∈ ts → u ∈ ts → x ∈ tnodes t → x ∈ tnodes u → troot t = troot u) →
  NoDup (fnodes ts).
Proof.
  induction ts as [|t ts IH]; intros Hr Hn Hx; [constructor|]. rewrite !fmap_cons in *. cbn [concat].
  apply NoDup_cons in Hr as [Ht Hr]. apply NoDup_app. split_and!; [apply Hn; set_solver| |].
  - intros x Hxt (u & Hu & Hxu)%elem_of_fnodes. apply Ht. rewrite (Hx t u x); [|set_solver..].
    apply list_elem_of_fmap. eauto.
  - apply IH; [done|set_solver|]. intros t1 t2 x H1 H2. apply Hx; set_solver.
Qed.

Section forest.
Context (ns : Nodes) (bound : Z) (Ht : tree_ok ns) (Hl : laminar ns bound).

(** [t] is the whole subtree below its root. *)
Definition whole (t : rtree) : Prop :=
  rep ns t ∧ NoDup (tnodes t) ∧ ∀ x, x ∈ tnodes t ↔ x ∈ dom ns ∧ tree_anc ns (troot t) x.

(** Two windows that share a node belong to comparable nodes. *)
Lemma common_not_disj a b x :
  x ∈ dom ns → tree_anc ns a x → tree_anc ns b x → ¬ disj ns a b.
Proof.
  intros Hx Ha Hb. destruct (tree_anc_nested ns bound Ht Hl a x Ha Hx) as (? & ? & _).
  destruct (tree_anc_nested ns bound Ht Hl b x Hb Hx) as (? & ? & _).
  destruct (lam_iv _ _ Hl x Hx). unfold disj. lia.
Qed.

Lemma tree_exists h : h ∈ dom ns → ∃ t, whole t ∧ troot t = h.
Proof.
  revert h. refine (down_ind ns bound Ht Hl _ _). intros h Hh IH.
  destruct (forest_choice whole (children ns h)) as (ts & Hw & Hr); [done|].
  rewrite Forall_forall in Hw. exists (RT h ts). split; [|done].
  assert (∀ t, t ∈ ts → troot t ∈ children ns h) as Hc.
  { intros t Hts. rewrite <- Hr. apply list_elem_of_fmap. eauto. }
  assert (∀ x, x ∈ fnodes ts ↔ x ∈ dom ns ∧ ∃ c, tparent ns c h ∧ tree_anc ns c x) as Hf.
  { intros x. rewrite elem_of_fnodes. split.
    - intros (t & Hts & Hx). destruct (Hw t Hts) as (_ & _ & Hi). apply Hi in Hx as [Hx Ha].
      split; [done|]. exists (troot t). split; [by apply (to_child _ Ht _ _ Hh), Hc|done].
    - intros (Hx & c & Hch & Ha). destruct (to_parent _ Ht _ _ Hch) as [_ Hcc].
      rewrite <- Hr in Hcc. apply list_elem_of_fmap in Hcc as (t & -> & Hts).
      exists t. split; [done|]. destruct (Hw t Hts) as (_ & _ & Hi). by apply Hi. }
  split_and!.
  - constructor; [done|done|]. apply Forall_forall. intros t Hts. by apply Hw.
  - simpl. constructor.
    + intros (_ & c & Hch & Ha)%Hf. pose proof (parent_nested ns bound Ht Hl c h Hch) as (_ & _ & _ & ?).
      destruct (tree_anc_nested ns bound Ht Hl c h Ha Hh). lia.
    + apply NoDup_fnodes.
      * rewrite Hr. by apply (child_nodup _ Ht).
      * intros t Hts. by apply Hw.
      * intros t u x Hts Hus Hxt Hxu. destruct (decide (troot t = troot u)) as [|Hne]; [done|]. exfalso.
        destruct (Hw t Hts) as (_ & _ & Hit), (Hw u Hus) as (_ & _ & Hiu).
        apply Hit in Hxt as [Hx Hat]. apply Hiu in Hxu as [_ Hau].
        apply (common_not_disj _ _ x Hx Hat Hau). apply (lam_sib _ _ Hl h); auto.
  - intros x. simpl. rewrite elem_of_cons, Hf. split.
    + intros [->|(Hx & c & Hch & Ha)]; [split; [done|apply rtc_refl]|]. split; [done|]. by eapply rtc_r.
    + intros [Hx Ha]. destruct (decide (h = x)) as [->|Hne]; [by left|right].
      split; [done|]. by apply tree_anc_child.
Qed.

Lemma elem_of_roots h : h ∈ roots ns ↔ h ∈ dom ns ∧ n_tree_parent (node_of ns h) = None.
Proof.
  unfold roots. rewrite list_elem_of_fmap. split.
  - intros ([k n] & -> & Hf). apply list_elem_of_filter in Hf as [Hr Hk%elem_of_map_to_list]. simpl in *.
    assert (k ∈ dom ns) as Hkd by by eapply elem_of_dom_2.
    assert (node_of ns k = n) as Hn by (unfold node_of; by rewrite Hk).
    split; [done|]. rewrite Hn. unfold is_root in Hr.
    destruct (n_tree_parent n) as [p|] eqn:Hp; [|done]. zbool. exfalso. apply Hr.
    apply (to_parent _ Ht k p). split; [done|]. by rewrite Hn.
  - intros [Hh Hp]. pose proof Hh as [n Hn]%elem_of_dom. exists (h, n). split; [done|].
    apply list_elem_of_filter. split; [|by apply elem_of_map_to_list]. simpl. unfold is_root.
    unfold node_of in Hp. rewrite Hn in Hp. simpl in Hp. by rewrite Hp.
Qed.

Lemma NoDup_roots : NoDup (roots ns).
Proof.
  unfold roots. apply (sublist_NoDup _ ((map_to_list ns).*1)); [apply NoDup_fst_map_to_list|].
  apply fmap_sublist, sublist_filter.
Qed.

Lemma root_above x : x ∈ dom ns → ∃ h, h ∈ roots ns ∧ tree_anc ns h x.
Proof.
  revert x. refine (up_ind ns bound Ht Hl _ _ _).
  - intros h Hh Hp. exists h. split; [by apply elem_of_roots|apply rtc_refl].
  - intros h p Hhp (k & Hk & Ha). exists k. split; [done|]. by eapply rtc_l.
Qed.

Lemma forest_exists :
  ∃ ts, troot <$> ts = roots ns ∧ Forall (rep ns) ts ∧ NoDup (fnodes ts) ∧
        (∀ x, x ∈ fnodes ts ↔ x ∈ dom ns) ∧ length (fnodes ts) = size ns.
Proof.
  destruct (forest_choice whole (roots ns)) as (ts & Hw & Hr).
  { intros c [Hc _]%elem_of_roots. by apply tree_exists. }
  rewrite Forall_forall in Hw. exists ts.
  assert (∀ t, t ∈ ts → troot t ∈ roots ns) as Hrt.
  { intros t Hts. rewrite <- Hr. apply list_elem_of_fmap. eauto. }
  assert (NoDup (fnodes ts)) as Hnd.
  { apply NoDup_fnodes; [rewrite Hr; apply NoDup_roots|intros t Hts; by apply Hw|].
    intros t u x Hts Hus Hxt Hxu. destruct (decide (troot t = troot u)) as [|Hne]; [done|]. exfalso.
    destruct (Hw t Hts) as (_ & _ & Hit), (Hw u Hus) as (_ & _ & Hiu).
    apply Hit in Hxt as [Hx Hat]. apply Hiu in Hxu as [_ Hau].
    apply (common_not_disj _ _ x Hx Hat Hau).
    apply Hrt, elem_of_roots in Hts as [? ?]. apply Hrt, elem_of_roots in Hus as [? ?].
    by apply (lam_root _ _ Hl). }
  assert (∀ x, x ∈ fnodes ts ↔ x ∈ dom ns) as Hin.
  { intros x. rewrite elem_of_fnodes. split.
    - intros (t & Hts & Hx). destruct (Hw t Hts) as (_ & _ & Hi). by apply Hi in Hx as [? _].
    - intros Hx. destruct (root_above x Hx) as (k & Hk & Ha). rewrite <- Hr in Hk.
      apply list_elem_of_fmap in Hk as (t & -> & Hts). exists t. split; [done|].
      destruct (Hw t Hts) as (_ & _ & Hi). by apply Hi. }
  split_and!; [done| |done|done|].
  - apply Forall_forall. intros t Hts. by apply Hw.
  - rewrite <- size_dom. apply Permutation_length, NoDup_Permutation; [done|apply NoDup_elements|].
    intros x. by rewrite Hin, elem_of_elements.
Qed.
End forest.

(** *** The new labels are laminar *)

Lemma flabelled_roots m ts start :
  flabelled m ts start →
  (∀ t, t ∈ ts → ∃ s, labelled m t s ∧ start <= s ∧ s + tsize t * SCALE <= start + fspan ts) ∧
  (∀ t u, t ∈ ts → u ∈ ts → troot t ≠ troot u → disj m (troot t) (troot u)).
Proof.
  assert (∀ t s, labelled m t s → lo m (troot t) = s ∧ hi m (troot t) = s + tsize t * SCALE - 1) as Hroot.
  { intros [h ch] s (_ & Hi & _)%labelled_node. simpl. by rewrite Hi. }
  revert start. induction ts as [|t ts IH]; intros start; [set_solver|].
  rewrite fmap_cons, zsum_cons, Z.mul_add_distr_r. intros [Ht Hts].
  destruct (IH _ Hts) as [H1 H2]. pose proof (fspan_nonneg ts).
  assert (0 <= tsize t * SCALE) by (apply Z.mul_nonneg_nonneg; [pose proof (tsize_pos t); lia|done]).
  assert (∀ u, u ∈ ts → disj m (troot t) (troot u)) as Hd.
  { intros u Hu. destruct (H1 u Hu) as (s & Hs & ? & ?). destruct (Hroot t start Ht), (Hroot u s Hs).
    left. lia. }
  split.
  - intros u [->|Hu]%elem_of_cons; [exists start; split; [done|lia]|].
    destruct (H1 u Hu) as (s & ? & ? & ?). exists s. split; [done|]. lia.
  - intros u v [->|Hu]%elem_of_cons [->|Hv]%elem_of_cons Hne; [done|by apply Hd| |by apply H2].
    unfold disj in *. specialize (Hd u Hu). tauto.
Qed.

(** What the labels of a tree say at each of its nodes. *)
Definition node_label_ok (m : Nodes) (x : Hash) : Prop :=
  lo m x <= free m x < hi m x ∧
  (∀ c, c ∈ children m x → lo m x <= lo m c ∧ hi m c < free m x) ∧
  (∀ c1 c2, c1 ∈ children m x → c2 ∈ children m x → c1 ≠ c2 → disj m c1 c2).

Lemma labelled_nodes m t start x :
  rep m t → labelled m t start → x ∈ tnodes t →
  start <= lo m x ∧ hi m x < start + tsize t * SCALE ∧ node_label_ok m x.
Proof.
  revert start x. induction t as [h ch IH] using rtree_ind'. intros start x HR HL Hx.
  inversion HR as [? ? Hh Hch HRc]; subst. apply labelled_node in HL as (_ & Hi & Hf & Hfl).
  destruct (flabelled_roots m ch start Hfl) as [Hc Hd].
  rewrite tsize_node, Z.mul_add_distr_r in *. assert (2 <= SCALE) by done. pose proof (fspan_nonneg ch).
  simpl in Hx. apply elem_of_cons in Hx as [->|Hx].
  - rewrite Hi. simpl. split_and!; [lia|lia|]. unfold node_label_ok. rewrite Hi, Hf, Hch. simpl. split_and!.
    + lia.
    + lia.
    + intros c (t & -> & Htc)%list_elem_of_fmap. destruct (Hc t Htc) as (s & Hs & ? & ?).
      destruct t as [hc cc]. apply labelled_node in Hs as (_ & His & _). simpl. rewrite His. simpl. lia.
    + intros c1 c2 (t & -> & Htc)%list_elem_of_fmap (u & -> & Huc)%list_elem_of_fmap. by apply Hd.
  - apply elem_of_fnodes in Hx as (t & Htc & Hx). rewrite Forall_forall in IH, HRc.
    destruct (Hc t Htc) as (s & Hs & ? & ?). destruct (IH t Htc s x (HRc t Htc) Hs Hx) as (? & ? & ?).
    split_and!; [lia|lia|done].
Qed.

(** [relabels ns m bound]: [m] has the same tree as [ns] and laminar labels with room
    for one more child everywhere. *)
Record relabels (ns m : Nodes) (bound : Z) : Prop := {
  rl_keeps : keeps ns m;
  rl_lam : laminar m bound;
  rl_room h : h ∈ dom m → free m h < hi m h;
}.

Lemma fnodes_perm ts us : ts ≡ₚ us → fnodes ts ≡ₚ fnodes us.
Proof.
  induction 1 as [|t ts us _ IH|t u ts|ts us vs _ IH1 _ IH2]; rewrite ?fmap_cons; cbn [concat].
  - done.
  - by rewrite IH.
  - rewrite !(assoc_L (++)). by rewrite (Permutation_app_comm (tnodes u)).
  - by etrans.
Qed.

Lemma subtree_sizes_sized ns ts :
  troot <$> ts = roots ns → Forall (rep ns) ts → NoDup (fnodes ts) → length (fnodes ts) = size ns →
  Forall (sized (subtree_sizes ns)) ts.
Proof.
  intros Hr HR Hnd Hlen. assert (fnodes (rev ts) ≡ₚ fnodes ts) as Hp.
  { apply fnodes_perm. symmetry. apply Permutation_rev. }
  assert (subtree_sizes ns = foldl (λ m t, tsizes t m) ∅ (rev ts)) as ->.
  { unfold subtree_sizes. rewrite <- Hr, <- Hlen, <- Hp, <- list_fmap_compose.
    rewrite <- (size_loop_forest ns (rev ts) 0 ∅).
    - rewrite Nat.add_0_r. f_equal. symmetry. apply map_rev.
    - rewrite Forall_forall in *. intros t Ht. apply HR. by apply elem_of_rev.
    - by rewrite Hp. }
  assert (NoDup (fnodes (rev ts))) as Hs%(foldl_sized _ ∅) by by rewrite Hp.
  rewrite Forall_forall in *. intros t Ht. apply Hs. by apply elem_of_rev.
Qed.

Lemma reindex_labels ns bound :
  tree_ok ns → laminar ns bound → Z.of_nat (size ns) * SCALE < SPACE_END →
  let sizes := subtree_sizes ns in
  let '(stack, cursor) := windows sizes SPACE_START (roots ns) in
  relabels ns (assign_loop (size ns) sizes (rev stack) ns) cursor.
Proof.
  intros Ht Hl Hsz sizes. destruct (forest_exists ns bound Ht Hl) as (ts & Hr & HR & Hnd & Hin & Hlen).
  assert (fspan ts = Z.of_nat (size ns) * SCALE) as Hspan.
  { rewrite <- len_fnodes. unfold len. by rewrite Hlen. }
  pose proof (subtree_sizes_sized ns ts Hr HR Hnd Hlen) as HS. fold sizes in HS.
  assert (SPACE_START + fspan ts <= U64_MAX) as Hb by (rewrite Hspan; unfold SPACE_START, SPACE_END, umax in *; lia).
  rewrite <- Hr, windows_eq by done.
  destruct (assign_forest sizes ts 0 [] ns SPACE_START) as (m & Hm & Hk & _ & Hfl); [|done..|].
  { apply Forall_forall. intros t _. apply assign_tree. }
  rewrite app_nil_r, Nat.add_0_r, Hlen in Hm. rewrite Hm. cbn [assign_loop].
  assert (∀ x, x ∈ dom m → SPACE_START <= lo m x ∧ hi m x < SPACE_START + fspan ts ∧ node_label_ok m x) as Hx.
  { intros x Hx. rewrite (proj1 Hk), <- Hin in Hx. apply elem_of_fnodes in Hx as (t & Hts & Hx).
    destruct (flabelled_roots m ts _ Hfl) as [H1 _]. destruct (H1 t Hts) as (s & Hs & ? & ?).
    rewrite Forall_forall in HR. pose proof (rep_keeps _ _ _ Hk (HR t Hts)) as HRt.
    destruct (labelled_nodes m t s x HRt Hs Hx) as (? & ? & ?). split_and!; [lia|lia|done]. }
  split; [done| |intros h Hh; apply (Hx h Hh)]. split.
  - intros h Hh. destruct (Hx h Hh) as (? & ? & [? _]). lia.
  - intros h c Hh. apply (Hx h Hh).
  - intros h c1 c2 Hh. apply (Hx h Hh).
  - intros h1 h2 H1 H2. rewrite !(proj1 (proj2 Hk _)). intros Hp1 Hp2 Hne.
    rewrite (proj1 Hk) in H1, H2.
    assert (∀ h, h ∈ dom ns → n_tree_parent (node_of ns h) = None → ∃ t, t ∈ ts ∧ h = troot t) as Hrt.
    { intros h Hh Hp. assert (h ∈ roots ns) as Hroot by by apply elem_of_roots.
      rewrite <- Hr in Hroot. apply list_elem_of_fmap in Hroot. naive_solver. }
    destruct (Hrt h1 H1 Hp1) as (t & Hts & ->), (Hrt h2 H2 Hp2) as (u & Hus & ->).
    by apply (proj2 (flabelled_roots m ts _ Hfl)).
Qed.

(** ** Relabelling keeps the index right *)

Lemma tparent_ext (ns m : Nodes) c p :
  dom m = dom ns → (∀ h, n_tree_parent (node_of m h) = n_tree_parent (node_of ns h)) →
  tparent m c p ↔ tparent ns c p.
Proof. intros Hd Hp. unfold tparent. by rewrite Hd, Hp. Qed.

Lemma tree_anc_ext (ns m : Nodes) a b :
  (∀ c p, tparent m c p ↔ tparent ns c p) → tree_anc m a b ↔ tree_anc ns a b.
Proof. intros Hp. unfold tree_anc. split; apply rtc_subrel; intros x y; apply Hp. Qed.

(** [same_labels ns m]: at most the covering sets differ. *)
Definition same_labels (ns m : Nodes) : Prop :=
  dom m = dom ns ∧ ∀ h, with_fcs (node_of m h) [] = with_fcs (node_of ns h) [].

Lemma same_labels_fields ns m h :
  same_labels ns m →
  interval_of m h = interval_of ns h ∧ n_tree_parent (node_of m h) = n_tree_parent (node_of ns h) ∧
  children m h = children ns h ∧ free m h = free ns h.
Proof.
  intros [_ Hh]. specialize (Hh h). unfold interval_of.
  destruct (node_of m h), (node_of ns h). unfold with_fcs in Hh. simpl in *. by injection Hh.
Qed.

Lemma tree_ok_keeps ns m :
  dom m = dom ns →
  (∀ h, n_tree_parent (node_of m h) = n_tree_parent (node_of ns h) ∧ children m h = children ns h) →
  tree_ok ns → tree_ok m.
Proof.
  intros Hd Hk Ht. assert (∀ c p, tparent m c p ↔ tparent ns c p) as Hp.
  { intros. apply tparent_ext; [done|]. apply Hk. }
  split; intros *; rewrite ?Hp, ?Hd, ?(proj2 (Hk _)); apply Ht.
Qed.

Lemma laminar_same ns m bound : same_labels ns m → laminar ns bound → laminar m bound.
Proof.
  intros Hs Hl.
  assert (∀ h, interval_of m h = interval_of ns h) as Hi by (intros h; by apply same_labels_fields).
  assert (∀ h, n_tree_parent (node_of m h) = n_tree_parent (node_of ns h)) as Hp
    by (intros h; by apply same_labels_fields).
  assert (∀ h, children m h = children ns h) as Hc by (intros h; by apply same_labels_fields).
  assert (∀ h, free m h = free ns h) as Hf by (intros h; by apply same_labels_fields).
  assert (∀ x y, disj m x y ↔ disj ns x y) as Hd by (intros; unfold disj; by rewrite !Hi).
  destruct Hs as [Hdom _].
  split; intros *; rewrite ?Hd, ?Hdom, ?Hi, ?Hp, ?Hc, ?Hf; apply Hl.
Qed.

Lemma apart_disj ns l x y : apart ns l → x ∈ l → y ∈ l → x ≠ y → disj ns x y.
Proof.
  induction 1 as [|z l _ IH Hz]; [set_solver|]. rewrite Forall_forall in Hz.
  intros [->|Hx]%elem_of_cons [->|Hy]%elem_of_cons Hne; [done| | |by apply IH].
  - left. by apply Hz.
  - right. by apply Hz.
Qed.

Lemma apart_NoDup ns l : apart ns l → nonempty_ivs ns l → NoDup l.
Proof.
  induction 1 as [|z l _ IH Hz]; intros Hn; constructor.
  - intros Hzl. rewrite Forall_forall in Hz. specialize (Hz z Hzl). specialize (Hn z ltac:(set_solver)). lia.
  - apply IH. intros x Hx. apply Hn. set_solver.
Qed.

Lemma apart_sorted ns l :
  StronglySorted (start_le ns) l → NoDup l → nonempty_ivs ns l →
  (∀ x y, x ∈ l → y ∈ l → x ≠ y → disj ns x y) → apart ns l.
Proof.
  induction 1 as [|z l _ IH Hz]; intros Hnd Hn Hd; constructor; apply NoDup_cons in Hnd as [Hzl Hnd].
  - apply IH; [done|intros x Hx; apply Hn; set_solver|intros x y Hx Hy; apply Hd; set_solver].
  - rewrite Forall_forall in *. intros y Hy. specialize (Hz y Hy). unfold start_le in Hz.
    pose proof (Hn y ltac:(set_solver)). pose proof (Hn z ltac:(set_solver)).
    destruct (Hd z y) as [?|?]; [set_solver|set_solver|by intros ->|lia|lia].
Qed.

#[global] Instance start_le_total ns : Total (start_le ns).
Proof. intros x y. unfold start_le. lia. Qed.
#[global] Instance start_le_trans ns : Transitive (start_le ns).
Proof. intros x y z. unfold start_le. lia. Qed.

Lemma node_of_fmap (f : Node → Node) (m : Nodes) h :
  f no_node = no_node → node_of (f <$> m) h = f (node_of m h).
Proof. intros Hf. unfold node_of. rewrite lookup_fmap. by destruct (m !! h). Qed.

(** A relabelled and re-sorted index describes the same graph. *)
Lemma resort_ok ns bound m bound' dag E :
  index_ok ns bound dag E → relabels ns m bound' →
  index_ok ((λ n, with_fcs n (merge_sort (start_le m) (n_fcs n))) <$> m) bound' dag E.
Proof.
  intros Hi [[Hdom Hk] Hlam Hroom]. set (m2 := _ <$> m).
  assert (∀ h, node_of m2 h = with_fcs (node_of m h) (merge_sort (start_le m) (n_fcs (node_of m h)))) as Hn
    by (intros h; by apply node_of_fmap).
  assert (dom m2 = dom m) as Hd2 by apply dom_fmap_L.
  assert (same_labels m m2) as Hsame by (split; [done|]; intros h; by rewrite Hn).
  assert (∀ h, n_tree_parent (node_of m2 h) = n_tree_parent (node_of ns h)) as Hp.
  { intros h. rewrite Hn. apply Hk. }
  assert (∀ c p, tparent m2 c p ↔ tparent ns c p) as Htp by (intros; apply tparent_ext; [congruence|done]).
  assert (∀ a b, tree_anc m2 a b ↔ tree_anc ns a b) as Hta by (intros; by apply tree_anc_ext).
  assert (∀ h f, f ∈ n_fcs (node_of m2 h) ↔ f ∈ n_fcs (node_of ns h)) as Hfcs.
  { intros h f. rewrite Hn. simpl. rewrite merge_sort_Permutation. by rewrite (proj2 (proj2 (Hk h))). }
  assert (tree_ok m2) as Ht2.
  { apply (tree_ok_keeps ns); [congruence| |apply Hi]. intros h. split; [done|]. rewrite Hn. apply Hk. }
  assert (laminar m2 bound') as Hl2 by by apply (laminar_same m).
  destruct Hi as [H1 H2 H3 H4 [HA HS HC] H6].
  assert (∀ x, x ∈ dom ns → lo m2 x <= hi m2 x) as Hiv.
  { intros x Hx. destruct (lam_iv _ _ Hl2 x); [congruence|lia]. }
  split; [congruence|done|done|by setoid_rewrite Htp| |done].
  split; rewrite ?Hd2, ?Hdom.
  - intros x Hx. pose proof (HA x Hx) as Hap.
    assert (nonempty_ivs ns (n_fcs (node_of ns x))) as Hne.
    { intros f Hf. destruct (lam_iv _ _ H3 f); [by apply (HS x)|lia]. }
    apply apart_sorted.
    + rewrite Hn. simpl. eapply StronglySorted_weaken;
        [|apply (StronglySorted_merge_sort (start_le m)); apply _].
      intros f g _ _. unfold start_le. by rewrite !(proj1 (same_labels_fields m m2 _ Hsame)).
    + rewrite Hn. simpl. rewrite merge_sort_Permutation, (proj2 (proj2 (Hk x))). by eapply apart_NoDup.
    + intros f Hf. apply Hiv. by apply (HS x), Hfcs.
    + intros f g Hf%Hfcs Hg%Hfcs Hfg. destruct (HS x f Hx Hf) as [Hfd _], (HS x g Hx Hg) as [Hgd _].
      pose proof (apart_disj _ _ f g Hap Hf Hg Hfg) as Hdj.
      destruct (trichotomy m2 bound' Ht2 Hl2 f g) as [Ha|[Ha|?]]; [congruence..| | |done]; exfalso; apply Hta in Ha.
      * by apply (common_not_disj ns bound H2 H3 f g g Hgd Ha (rtc_refl _ _)).
      * by apply (common_not_disj ns bound H2 H3 f g f Hfd (rtc_refl _ _) Ha).
  - intros x f Hx Hf%Hfcs. by apply HS.
  - intros x b Hx Hb Ha. destruct (HC x b Hx Hb Ha) as [?|[?|(f & Hf & Hfb)]]; [by left|right; left; by apply Hta|].
    right; right. exists f. by rewrite Hfcs, Hta.
Qed.

Lemma reindex_ok r dag E :
  index_ok (nodes r) (next_root_start r) dag E → Z.of_nat (size (nodes r)) * SCALE < SPACE_END →
  let r' := reindex_all r in
  index_ok (nodes r') (next_root_start r') dag E ∧
  (∀ h, h ∈ dom (nodes r) → free (nodes r') h < hi (nodes r') h) ∧
  (∀ h, n_tree_parent (node_of (nodes r') h) = n_tree_parent (node_of (nodes r) h)).
Proof.
  intros Hi Hsz. pose proof (reindex_labels _ _ (ok_tree _ _ _ _ Hi) (ok_lam _ _ _ _ Hi) Hsz) as Hl.
  unfold reindex_all. simpl in Hl. destruct (windows _ _ _) as [stack cursor]. simpl.
  split; [by apply (resort_ok (nodes r) (next_root_start r))|].
  split; intros h; unfold interval_of; rewrite !node_of_fmap by done; simpl.
  - intros Hh. apply (rl_room _ _ _ Hl). by rewrite (proj1 (rl_keeps _ _ _ Hl)).
  - apply (rl_keeps _ _ _ Hl).
Qed.
