(* ===== verification/ReachBuild.v ===== *)
(** * Maintaining the reachability index

    [Reachability::add_block] of [src/src/reachability.rs] as block admission calls
    it: a new leaf, with a relabelling when its parent is full, and the covering
    sets of the blocks it merges.  [rbuilt] generates the DAGs, GHOSTDAG data and
    indexes that admission produces together; the index answers ancestry exactly. *)

From S2P Require Import Prelude Genesis Crypto Address Predicate Utxo UtxoTx Registry Custody Block Dag Ghostdag Reachability Reindex.

(** ** A new leaf *)

Section place.
Context (ns : Nodes) (bound : Z) (p h : Hash) (w : Z).
Context (Ht : tree_ok ns) (Hl : laminar ns bound) (Hp : p ∈ dom ns) (Hh : h ∉ dom ns).
Context (Hw : 0 < w <= hi ns p - free ns p).

Definition placed : Nodes :=
  let n := node_of ns p in
  <[h := fresh_node (free ns p) (free ns p + w - 1) (Some p)]>
    (<[p := {| n_interval := n_interval n; n_tree_parent := n_tree_parent n;
               n_tree_children := n_tree_children n ++ [h]; n_next_free := free ns p + w - 1 + 1;
               n_fcs := n_fcs n |}]> ns).

Lemma placed_dom : dom placed = {[h]} ∪ dom ns.
Proof. unfold placed. rewrite !dom_insert_L. set_solver. Qed.

Lemma ph_ne : p ≠ h.
Proof. by intros ->. Qed.

Lemma placed_new : node_of placed h = fresh_node (free ns p) (free ns p + w - 1) (Some p).
Proof. apply node_of_insert_eq. Qed.

Lemma placed_old x : x ≠ h →
  interval_of placed x = interval_of ns x ∧
  n_tree_parent (node_of placed x) = n_tree_parent (node_of ns x) ∧
  n_fcs (node_of placed x) = n_fcs (node_of ns x) ∧
  children placed x = (if decide (x = p) then children ns p ++ [h] else children ns x) ∧
  free placed x = (if decide (x = p) then free ns p + w else free ns x).
Proof.
  intros Hx. unfold interval_of, placed. rewrite node_of_insert_ne by done.
  destruct (decide (x = p)) as [->|Hne].
  - rewrite node_of_insert_eq. simpl. split_and!; done || lia.
  - by rewrite node_of_insert_ne.
Qed.

Lemma old_not_h x : x ∈ dom ns → x ≠ h.
Proof. by intros ? ->. Qed.

Lemma placed_tparent c q : tparent placed c q ↔ tparent ns c q ∨ (c = h ∧ q = p).
Proof.
  unfold tparent. rewrite placed_dom. destruct (decide (c = h)) as [->|Hne].
  - rewrite placed_new. simpl. set_solver.
  - rewrite (proj1 (proj2 (placed_old c Hne))). set_solver.
Qed.

Lemma placed_tree_anc a b : b ∈ dom ns → tree_anc placed a b ↔ tree_anc ns a b.
Proof.
  intros Hb. split; intros Hab; induction Hab as [|b q a Hq _ IH]; try apply rtc_refl.
  - apply placed_tparent in Hq as [Hq|[-> _]]; [|done].
    eapply rtc_l; [done|]. apply IH. by apply (parent_nested ns bound Ht Hl b q).
  - eapply rtc_l; [by apply placed_tparent; left|]. apply IH. by apply (parent_nested ns bound Ht Hl b q).
Qed.

Lemma placed_tree_anc_new a : tree_anc ns a p → tree_anc placed a h.
Proof. intros Ha. eapply rtc_l; [apply placed_tparent; by right|]. by apply placed_tree_anc. Qed.

Lemma placed_child x c : x ∈ dom ns → c ∈ children placed x ↔ c ∈ children ns x ∨ (x = p ∧ c = h).
Proof.
  intros Hx. rewrite (proj1 (proj2 (proj2 (proj2 (placed_old x (old_not_h x Hx)))))).
  destruct (decide (x = p)) as [->|]; [rewrite elem_of_app, list_elem_of_singleton|]; naive_solver.
Qed.

Lemma placed_no_child c : c ∉ children placed h.
Proof. rewrite placed_new. simpl. set_solver. Qed.

Lemma child_old x c : x ∈ dom ns → c ∈ children ns x → c ∈ dom ns.
Proof. intros Hx Hc. by destruct (to_child _ Ht x c Hx Hc). Qed.

Lemma placed_elem x : x ∈ dom placed ↔ x = h ∨ x ∈ dom ns.
Proof. rewrite placed_dom. set_solver. Qed.

Lemma placed_tree_ok : tree_ok placed.
Proof.
  split.
  - intros x c [->|Hx]%placed_elem Hc; [by apply placed_no_child in Hc|].
    apply placed_tparent. apply placed_child in Hc as [Hc|[-> ->]]; [left; by apply (to_child _ Ht)|by right|done].
  - intros c q [Hq|[-> ->]]%placed_tparent.
    + destruct (to_parent _ Ht _ _ Hq) as [Hqd Hc]. split; [apply placed_elem; by right|].
      apply placed_child; [done|by left].
    + split; [apply placed_elem; by right|]. apply placed_child; [done|by right].
  - intros x [->|Hx]%placed_elem; [rewrite placed_new; constructor|].
    rewrite (proj1 (proj2 (proj2 (proj2 (placed_old x (old_not_h x Hx)))))).
    destruct (decide (x = p)) as [->|]; [|by apply (child_nodup _ Ht)].
    apply NoDup_app. split_and!; [by apply (child_nodup _ Ht)| |apply NoDup_singleton].
    intros c Hc ->%list_elem_of_singleton. by apply (child_old p h) in Hc.
Qed.

Lemma placed_iv x : x ∈ dom ns → interval_of placed x = interval_of ns x.
Proof. intros Hx. by apply placed_old, old_not_h. Qed.

Lemma placed_iv_new :
  interval_of placed h = {| iv_start := free ns p; iv_end := free ns p + w - 1 |}.
Proof. unfold interval_of. by rewrite placed_new. Qed.

Lemma placed_free x : x ∈ dom ns → free placed x = if decide (x = p) then free ns p + w else free ns x.
Proof. intros Hx. by apply placed_old, old_not_h. Qed.

Lemma placed_disj x y : x ∈ dom ns → y ∈ dom ns → disj placed x y ↔ disj ns x y.
Proof. intros. unfold disj. by rewrite !placed_iv. Qed.

(** The new window lies right of its siblings. *)
Lemma placed_disj_new c : c ∈ children ns p → disj placed c h.
Proof.
  intros Hc. pose proof (child_old p c Hp Hc). left. rewrite placed_iv, placed_iv_new by done. simpl.
  destruct (lam_child _ _ Hl p c Hp Hc). lia.
Qed.

Lemma placed_laminar : laminar placed bound.
Proof.
  pose proof (lam_iv _ _ Hl p Hp) as Hpiv. split.
  - intros x [->|Hx]%placed_elem.
    + rewrite placed_iv_new, placed_new. simpl. unfold SPACE_START in *. lia.
    + rewrite placed_iv, placed_free by done. pose proof (lam_iv _ _ Hl x Hx).
      destruct (decide (x = p)) as [->|]; lia.
  - intros x c [->|Hx]%placed_elem Hc; [by apply placed_no_child in Hc|].
    rewrite placed_iv, placed_free by done. apply placed_child in Hc as [Hc|[-> ->]]; [| |done].
    + rewrite placed_iv by (by apply (child_old x)). pose proof (lam_child _ _ Hl x c Hx Hc).
      destruct (decide (x = p)) as [->|]; lia.
    + rewrite placed_iv_new. simpl. destruct (decide (p = p)); [lia|done].
  - intros x c1 c2 [->|Hx]%placed_elem Hc1 Hc2 Hne; [by apply placed_no_child in Hc1|].
    apply placed_child in Hc1 as [Hc1|[-> ->]]; [| |done]; apply placed_child in Hc2 as [Hc2|[? ->]]; try done.
    + apply placed_disj; [by apply (child_old x)..|]. by apply (lam_sib _ _ Hl x).
    + subst x. by apply placed_disj_new.
    + apply disj_sym. by apply placed_disj_new.
  - intros x y [->|Hx]%placed_elem [->|Hy]%placed_elem; rewrite ?placed_new; [done..|].
    rewrite (proj1 (proj2 (placed_old x (old_not_h x Hx)))), (proj1 (proj2 (placed_old y (old_not_h y Hy)))).
    intros. apply placed_disj; [done..|]. by apply (lam_root _ _ Hl).
Qed.

(** The index of the graph with the new block, its merged blocks still to record. *)
Lemma placed_index dag b (ms : list Hash) :
  index_ok ns bound dag (λ _ _, False) → h ∉ dom dag → parents_closed dag →
  p ∈ blk_parents b → (∀ x, ancestor (<[h:=b]> dag) x h ↔ in_past dag p x ∨ x ∈ ms) →
  (∀ a, ¬ ancestor (<[h:=b]> dag) a a) →
  index_ok placed bound (<[h:=b]> dag) (λ m x, x = h ∧ m ∈ ms).
Proof.
  intros Hi Hhd Hc Hpb Hanc Hac. pose proof (ok_dom _ _ _ _ Hi) as Hdom.
  destruct (ok_fcs _ _ _ _ Hi) as [HA HS HC].
  assert (∀ m x, x ∈ dom ns → ancestor (<[h:=b]> dag) m x ↔ ancestor dag m x) as Hold.
  { intros m x Hx. apply ancestor_insert; [done..|]. by rewrite <- Hdom. }
  assert (∀ m, m ∈ dom ns → n_fcs (node_of placed m) = n_fcs (node_of ns m)) as Hfcs.
  { intros m Hm. by apply placed_old, old_not_h. }
  split; [by rewrite placed_dom, dom_insert_L, Hdom|apply placed_tree_ok|apply placed_laminar| | |done].
  - intros c q [Hq|[-> ->]]%placed_tparent.
    + apply edge_insert_ne; [|by apply (ok_edge _ _ _ _ Hi)]. apply old_not_h, Hq.
    + unfold edge, parents_of. by rewrite lookup_insert_eq.
  - split.
    + intros m [->|Hm]%placed_elem; [rewrite placed_new; constructor|]. rewrite Hfcs by done.
      eapply StronglySorted_weaken; [|by apply HA]. intros x y Hx Hy.
      destruct (HS m x Hm Hx), (HS m y Hm Hy). by rewrite !placed_iv.
    + intros m f [->|Hm]%placed_elem; [rewrite placed_new; simpl; set_solver|]. rewrite Hfcs by done.
      intros Hf. destruct (HS m f Hm Hf). rewrite Hold by done. split; [apply placed_elem; by right|done].
    + intros m x Hmd [->|Hx]%placed_elem.
      * rewrite Hanc. intros [Hpast|?]; [|by left]. right.
        assert (m ∈ dom ns) as Hm by (rewrite Hdom; eapply in_past_dom; [done| |done]; by rewrite <- Hdom).
        rewrite Hfcs by done. apply past_or_self in Hpast as [->|Ha].
        { left. apply placed_tree_anc_new, rtc_refl. }
        destruct (HC m p Hm Hp Ha) as [[]|[?|(f & Hf & Hfp)]]; [left; by apply placed_tree_anc_new|].
        right. exists f. split; [done|]. by apply placed_tree_anc_new.
      * rewrite Hold by done. intros Ha. assert (m ∈ dom ns) as Hm.
        { rewrite Hdom. eapply (in_past_dom dag x); [done|by rewrite <- Hdom|]. apply past_or_self. by right. }
        rewrite Hfcs by done. right. destruct (HC m x Hm Hx Ha) as [[]|[?|(f & Hf & Hfx)]];
          [left; by apply placed_tree_anc|]. right. exists f. split; [done|]. by apply placed_tree_anc.
Qed.
End place.

(** ** Recording merged blocks *)

Lemma same_labels_fcs ns m l :
  m ∈ dom ns → same_labels ns (<[m := with_fcs (node_of ns m) l]> ns).
Proof.
  intros Hm. split; [rewrite dom_insert_L; set_solver|]. intros x.
  destruct (decide (m = x)) as [->|]; [by rewrite node_of_insert_eq|by rewrite node_of_insert_ne].
Qed.

Lemma same_labels_index ns m bound dag E :
  same_labels ns m → index_ok ns bound dag E → ∀ E', fcs_ok m dag E' → index_ok m bound dag E'.
Proof.
  intros Hs [H1 H2 H3 H4 _ H6] E' Hf. pose proof Hs as [Hd _].
  assert (∀ h, n_tree_parent (node_of m h) = n_tree_parent (node_of ns h)) as Hp
    by (intros h; by apply same_labels_fields).
  split; [congruence| |by apply (laminar_same ns)| |done|done].
  - apply (tree_ok_keeps ns); [done| |done]. intros h. split; [done|]. by apply same_labels_fields.
  - intros c q Hq. apply H4. by apply (tparent_ext ns m).
Qed.

(** A leaf has no proper descendant. *)
Lemma leaf_tree_anc ns h x : tree_ok ns → children ns h = [] → tree_anc ns h x → x = h.
Proof.
  intros Ht Hch Ha. destruct (decide (h = x)) as [|Hne]; [done|].
  destruct (tree_anc_child ns h x Ha Hne) as (c & Hc & _).
  destruct (to_parent _ Ht _ _ Hc) as [_ Hin]. rewrite Hch in Hin. set_solver.
Qed.

Lemma insert_to_fcs_ok ns bound dag h m ms :
  index_ok ns bound dag (λ a x, x = h ∧ a ∈ m :: ms) → h ∈ dom ns → m ∈ dom ns →
  children ns h = [] → ancestor dag m h →
  same_labels ns (insert_to_fcs ns m h) ∧
  index_ok (insert_to_fcs ns m h) bound dag (λ a x, x = h ∧ a ∈ ms).
Proof.
  intros Hi Hh Hm Hleaf Hanc. pose proof (fcs_contains_cover_spec _ _ _ _ m h Hi Hm Hh) as Hcov.
  destruct (ok_fcs _ _ _ _ Hi) as [HA HS HC]. unfold insert_to_fcs.
  destruct (fcs_contains_cover ns m (interval_of ns h)) eqn:Hc.
  - split; [done|]. apply (same_labels_index ns ns _ _ _ ltac:(done) Hi). split; [done..|].
    intros a x Ha Hx Hax. destruct (HC a x Ha Hx Hax) as [[-> [->|?]%elem_of_cons]|?];
      [right; right; by apply Hcov|by left|by right].
  - assert (∀ f, f ∈ n_fcs (node_of ns m) → ¬ tree_anc ns f h) as Hnc.
    { intros f Hf Hfh. assert (false = true) as [=]. apply Hcov. eauto. }
    assert (∀ f, f ∈ n_fcs (node_of ns m) → disj ns f h) as Hdj.
    { intros f Hf. destruct (HS m f Hm Hf) as [Hfd _].
      destruct (trichotomy ns bound (ok_tree _ _ _ _ Hi) (ok_lam _ _ _ _ Hi) f h Hfd Hh) as [?|[Ha|?]];
        [by edestruct Hnc| |done].
      apply (leaf_tree_anc ns h f (ok_tree _ _ _ _ Hi) Hleaf) in Ha as ->.
      by edestruct Hnc; [|apply rtc_refl]. }
    fold (insert_at ns h (n_fcs (node_of ns m))). set (l := insert_at _ _ _).
    pose proof (same_labels_fcs ns m l Hm) as Hs. split; [done|].
    set (ns' := <[m:=_]> ns) in *. apply (same_labels_index ns ns' _ _ _ Hs Hi).
    assert (∀ c q, tparent ns' c q ↔ tparent ns c q) as Htp.
    { intros. apply tparent_ext; [apply Hs|]. intros x. by apply same_labels_fields. }
    assert (∀ a x, tree_anc ns' a x ↔ tree_anc ns a x) as Hta by (intros; by apply tree_anc_ext).
    assert (∀ x, n_fcs (node_of ns' x) = if decide (x = m) then l else n_fcs (node_of ns x)) as Hfx.
    { intros x. unfold ns'. destruct (decide (x = m)) as [->|]; [by rewrite node_of_insert_eq|by rewrite node_of_insert_ne]. }
    assert (apart ns l) as Hal.
    { apply apart_insert_at; [by apply HA| |done].
      intros x [->|Hx]%elem_of_cons; (eapply index_iv; [done|]); [done|by apply (HS m)]. }
    destruct Hs as [Hd Hs]. split; rewrite ?Hd.
    + intros x Hx. rewrite Hfx. eapply StronglySorted_weaken; [|destruct (decide (x = m)); [exact Hal|by apply HA]].
      intros y z _ _. by rewrite !(proj1 (same_labels_fields ns ns' _ (conj Hd Hs))).
    + intros x f Hx. rewrite Hfx. destruct (decide (x = m)) as [->|]; [|by apply HS].
      intros [->|Hf]%elem_of_insert_at; [done|by apply HS].
    + intros a x Ha Hx Hax. rewrite Hfx.
      destruct (HC a x Ha Hx Hax) as [[-> [->|?]%elem_of_cons]|[?|(f & Hf & Hfx')]].
      * right; right. exists h. destruct (decide (m = m)); [|done].
        split; [apply elem_of_insert_at; by left|apply rtc_refl].
      * by left.
      * right; left. by apply Hta.
      * right; right. exists f. split; [|by apply Hta].
        destruct (decide (a = m)) as [->|]; [apply elem_of_insert_at; by right|done].
Qed.

Lemma record_merged ns bound dag h ms :
  index_ok ns bound dag (λ a x, x = h ∧ a ∈ ms) → h ∈ dom ns → children ns h = [] →
  (∀ m, m ∈ ms → m ≠ h ∧ m ∈ dom ns ∧ ancestor dag m h) →
  let ns' := foldl (λ ns m, if negb (bool_decide (m = h)) && bool_decide (m ∈ dom ns)
                            then insert_to_fcs ns m h else ns) ns ms in
  same_labels ns ns' ∧ index_ok ns' bound dag (λ _ _, False).
Proof.
  revert ns. induction ms as [|m ms IH]; intros ns Hi Hh Hleaf Hms; simpl.
  - split; [done|]. apply (same_labels_index ns ns _ _ _ ltac:(done) Hi).
    destruct (ok_fcs _ _ _ _ Hi) as [HA HS HC]. split; [done..|]. intros a x Ha Hx Hax.
    destruct (HC a x Ha Hx Hax) as [[_ Hin]|?]; [set_solver|by right].
  - destruct (Hms m) as (Hne & Hm & Ha); [set_solver|].
    rewrite bool_decide_false, bool_decide_true by done. simpl.
    destruct (insert_to_fcs_ok ns bound dag h m ms Hi Hh Hm Hleaf Ha) as [Hs Hi'].
    pose proof Hs as [Hd _]. destruct (IH (insert_to_fcs ns m h)) as [Hs' Hi2].
    + done.
    + by rewrite Hd.
    + by rewrite (proj1 (proj2 (proj2 (same_labels_fields _ _ h Hs)))).
    + intros k Hk. rewrite Hd. apply Hms. set_solver.
    + split; [|done]. destruct Hs as [? Hsh], Hs' as [? Hsh']. split; [congruence|].
      intros x. by rewrite Hsh', Hsh.
Qed.

(** ** Insertion of a block *)

Lemma try_place_child_placed r p h :
  free (nodes r) p < hi (nodes r) p →
  ∃ w, 0 < w <= hi (nodes r) p - free (nodes r) p ∧
    try_place_child r p h = Some {| nodes := placed (nodes r) p h w; next_root_start := next_root_start r |}.
Proof.
  intros Hroom. unfold try_place_child, placed. unfold interval_of in Hroom.
  destruct (_ <=? _) eqn:Hle; zbool; [lia|].
  eexists (if SIBLING_RESERVE <? _ then _ else _). split; [|reflexivity].
  unfold SIBLING_RESERVE, interval_of. destruct (_ <? _) eqn:Hres; zbool; lia.
Qed.

(** The child is always placed: at once, or after one relabelling. *)
Lemma insert_tree_child_placed r dag p h :
  reach_ok r dag → p ∈ dom dag → Z.of_nat (size dag) * SCALE < SPACE_END →
  ∃ r0 w, reach_ok r0 dag ∧ 0 < w <= hi (nodes r0) p - free (nodes r0) p ∧
    (∀ x, n_tree_parent (node_of (nodes r0) x) = n_tree_parent (node_of (nodes r) x)) ∧
    insert_tree_child r p h =
      {| nodes := placed (nodes r0) p h w; next_root_start := next_root_start r0 |}.
Proof.
  intros Hr Hp Hsz. pose proof (ok_dom _ _ _ _ Hr) as Hd. unfold insert_tree_child.
  destruct (decide (free (nodes r) p < hi (nodes r) p)) as [Hroom|Hfull].
  - destruct (try_place_child_placed r p h Hroom) as (w & Hw & ->). by exists r, w.
  - assert (try_place_child r p h = None) as ->.
    { unfold try_place_child. unfold interval_of in Hfull. destruct (_ <=? _) eqn:Hle; [done|]. zbool. lia. }
    destruct (reindex_ok r dag _ Hr) as (Hr' & Hroom & Hpar).
    { by rewrite <- size_dom, Hd, size_dom. }
    destruct (try_place_child_placed (reindex_all r) p h) as (w & Hw & ->).
    { apply Hroom. by rewrite Hd. }
    by exists (reindex_all r), w.
Qed.

(** ** The index maintained by block admission *)

(** [rbuilt dag gd r]: blocks were admitted one by one, each with GHOSTDAG data
    computed with the index itself and then recorded in it, as [add_block] does.
    The number of blocks leaves the 62-bit label space room. *)
Inductive rbuilt : Dag → GdMap → Reachability → Prop :=
| rbuilt_genesis h b :
    blk_parents b = [] →
    rbuilt {[h := b]} {[h := GhostdagData_genesis]} (reach_add_block Reachability_new h None [])
| rbuilt_add dag gd r h b cap d :
    rbuilt dag gd r → h ∉ dom dag → blk_parents b ≠ [] →
    (∀ p, p ∈ blk_parents b → p ∈ dom dag) → Z.of_nat (size dag) * SCALE < SPACE_END →
    try_compute_ghostdag_data r dag gd (blk_parents b) cap = Ok d →
    rbuilt (<[h := b]> dag) (<[h := d]> gd) (reach_add_block r h (gd_selected_parent d) (merged d)).

(** The tree of the index is the tree of selected parents. *)
Definition tree_selected (r : Reachability) (gd : GdMap) : Prop :=
  ∀ h, n_tree_parent (node_of (nodes r) h) = gd !! h ≫= gd_selected_parent.

Lemma reach_genesis h b :
  blk_parents b = [] →
  let r := reach_add_block Reachability_new h None [] in
  reach_ok r {[h := b]} ∧ tree_selected r {[h := GhostdagData_genesis]}.
Proof.
  intros Hb r.
  assert (r = {| nodes := {[h := fresh_node 1 SCALE None]}; next_root_start := SCALE + 1 |}) as -> by reflexivity.
  assert (∀ x, node_of {[h := fresh_node 1 SCALE None]} x = if decide (x = h) then fresh_node 1 SCALE None else no_node) as Hn.
  { intros x. unfold node_of. destruct (decide (x = h)) as [->|]; [by rewrite lookup_singleton_eq|].
    by rewrite lookup_singleton_ne. }
  assert (∀ x p, ¬ edge {[h := b]} x p) as He.
  { intros x p. unfold edge, parents_of. destruct (decide (x = h)) as [->|].
    - rewrite lookup_singleton_eq. simpl. rewrite Hb. set_solver.
    - rewrite lookup_singleton_ne by done. simpl. set_solver. }
  assert (∀ a x, ¬ ancestor {[h := b]} a x) as Ha by (intros a x (p & ?%He & _)%ancestor_in_past; done).
  set (ns := {[h := fresh_node 1 SCALE None]} : Nodes) in *.
  assert (∀ x, children ns x = []) as Hch by (intros x; rewrite Hn; by destruct (decide _)).
  assert (∀ x, n_fcs (node_of ns x) = []) as Hfc by (intros x; rewrite Hn; by destruct (decide _)).
  assert (∀ x, n_tree_parent (node_of ns x) = None) as Hpar by (intros x; rewrite Hn; by destruct (decide _)).
  assert (∀ x, x ∈ dom ns → x = h) as Hdom by (intros x; unfold ns; rewrite dom_singleton_L; set_solver).
  split.
  - split; simpl; [unfold ns; by rewrite !dom_singleton_L| | | | |done].
    + split.
      * intros x c _ Hc. rewrite Hch in Hc. set_solver.
      * intros x q [_ Hq]. by rewrite Hpar in Hq.
      * intros x _. rewrite Hch. constructor.
    + split.
      * intros x Hx%Hdom. subst x. unfold interval_of. rewrite Hn. destruct (decide (h = h)); [|done].
        simpl. unfold SPACE_START, SCALE. lia.
      * intros x c _ Hc. rewrite Hch in Hc. set_solver.
      * intros x c1 c2 _ Hc. rewrite Hch in Hc. set_solver.
      * intros x y Hx%Hdom Hy%Hdom. congruence.
    + intros c q [_ Hq]. by rewrite Hpar in Hq.
    + split.
      * intros x _. rewrite Hfc. constructor.
      * intros x f _ Hf. rewrite Hfc in Hf. set_solver.
      * intros x y _ _ Hxy. by apply Ha in Hxy.
  - intros x. simpl. rewrite Hpar. destruct (decide (x = h)) as [->|]; [by rewrite lookup_singleton_eq|].
    by rewrite lookup_singleton_ne.
Qed.

Lemma reach_add dag gd r h b d s :
  dag_inv dag gd → dag_inv (<[h := b]> dag) (<[h := d]> gd) → reach_ok r dag → tree_selected r gd →
  h ∉ dom dag → Z.of_nat (size dag) * SCALE < SPACE_END →
  gd_selected_parent d = Some s → s ∈ blk_parents b → s ∈ dom dag →
  let r' := reach_add_block r h (gd_selected_parent d) (merged d) in
  reach_ok r' (<[h := b]> dag) ∧ tree_selected r' (<[h := d]> gd).
Proof.
  intros Hi Hi' Hr Htree Hh Hsz Hsp Hsb Hsd. pose proof (ok_dom _ _ _ _ Hr) as Hd.
  pose proof (inv_entry _ _ Hi' h d ltac:(by rewrite lookup_insert_eq)) as He.
  assert (∀ x, in_past (<[h:=b]> dag) s x ↔ in_past dag s x) as Hpast.
  { intros x. apply in_past_insert; [apply Hi|done|done]. }
  assert (∀ x, ancestor (<[h:=b]> dag) x h ↔ in_past dag s x ∨ x ∈ merged d) as Hanc.
  { intros x. rewrite (entry_past _ _ _ _ He), Hsp, <- Hpast. naive_solver. }
  assert (∀ a, ¬ ancestor (<[h:=b]> dag) a a) as Hac by (intros a; by eapply ancestor_irrefl).
  unfold reach_add_block. rewrite bool_decide_false by (by rewrite Hd). rewrite Hsp.
  rewrite bool_decide_true by (by rewrite Hd).
  destruct (insert_tree_child_placed r dag s h Hr Hsd Hsz) as (r0 & w & Hr0 & Hw & Hpar & ->).
  pose proof (ok_dom _ _ _ _ Hr0) as Hd0.
  assert (s ∈ dom (nodes r0)) as Hs0 by by rewrite Hd0.
  assert (h ∉ dom (nodes r0)) as Hh0 by by rewrite Hd0.
  pose proof (placed_index (nodes r0) (next_root_start r0) s h w (ok_tree _ _ _ _ Hr0) (ok_lam _ _ _ _ Hr0)
    Hs0 Hh0 Hw dag b (merged d) Hr0 Hh (inv_closed _ _ Hi) Hsb Hanc Hac) as Hidx.
  destruct (record_merged _ _ _ _ _ Hidx) as [Hs Hok].
  - rewrite (ok_dom _ _ _ _ Hidx), dom_insert_L. set_solver.
  - by rewrite placed_new.
  - intros m Hm. assert (ancestor (<[h:=b]> dag) m h) as Ham by (apply Hanc; by right).
    split_and!; [by intros ->; eapply Hac| |done]. rewrite (ok_dom _ _ _ _ Hidx).
    eapply in_past_dom; [apply Hi'| |apply past_or_self; by right]. rewrite dom_insert_L. set_solver.
  - simpl. split; [exact Hok|]. intros x. simpl.
    rewrite (proj1 (proj2 (same_labels_fields _ _ x Hs))). destruct (decide (x = h)) as [->|Hne].
    + rewrite placed_new, lookup_insert_eq. simpl. by rewrite Hsp.
    + rewrite (proj1 (proj2 (placed_old (nodes r0) s h w x Hne))), Hpar, Htree. by rewrite lookup_insert_ne.
Qed.

Lemma rbuilt_ok dag gd r : rbuilt dag gd r → dag_inv dag gd ∧ reach_ok r dag ∧ tree_selected r gd.
Proof.
  induction 1 as [h b Hb|dag gd r h b cap d _ (Hi & Hr & Htree) Hh Hne Hps Hsz Hcomp].
  - split; [by apply dag_inv_genesis|by apply reach_genesis].
  - assert (Z.of_nat (size dag) <= U64_MAX) as Hsz' by (unfold SCALE, SPACE_END, umax in *; lia).
    assert (oracle_ok r dag) as Hor by exact Hr.
    pose proof (dag_inv_step dag gd h b r cap d Hi Hh Hne Hps Hor Hsz' Hcomp) as Hi'.
    destruct (compute_spec r dag gd _ cap d Hi Hor Hne Hps Hsz' Hcomp) as (s & tl & Hsp & _ & Hs & _).
    split; [done|]. by apply (reach_add dag gd r h b d s); auto.
Qed.

(** The tree of the index is the selected chain. *)
Lemma tree_anc_chain dag gd r a b :
  dag_inv dag gd → reach_ok r dag → tree_selected r gd → b ∈ dom gd →
  tree_anc (nodes r) a b ↔ a ∈ selected_chain gd b.
Proof.
  intros Hi Hr Htree Hb. revert b Hb. refine (gd_ind gd _ (inv_wf _ _ Hi) _). intros b d Hd IH.
  rewrite (selected_chain_eq gd b d (inv_wf _ _ Hi) Hd), elem_of_app, list_elem_of_singleton.
  assert (b ∈ dom (nodes r)) as Hbd.
  { rewrite (ok_dom _ _ _ _ Hr), <- (inv_dom _ _ Hi). by eapply elem_of_dom_2. }
  assert (∀ s, tparent (nodes r) b s ↔ gd_selected_parent d = Some s) as Hp.
  { intros s. unfold tparent. rewrite Htree, Hd. simpl. tauto. }
  split.
  - intros [->|(s & Hs & Ha)]%rtc_inv; [by right|left]. apply Hp in Hs. rewrite Hs. by apply IH.
  - intros [Ha| ->]; [|apply rtc_refl]. destruct (gd_selected_parent d) as [s|] eqn:Hs; [|by apply not_elem_of_nil in Ha].
    eapply rtc_l; [by apply Hp|]. by apply (IH s).
Qed.

(** C15. The reachability index is exact: whatever blocks were admitted, with
    whatever relabellings on the way, interval containment and the covering sets
    answer strict DAG ancestry between any two of them, as the reference search
    does. *)
Theorem reachability_exact dag gd r a b :
  rbuilt dag gd r → a ∈ dom dag → b ∈ dom dag →
  (reach_is_ancestor r dag a b = true ↔ ancestor dag a b) ∧
  reach_is_ancestor r dag a b = bfs_is_ancestor dag a b.
Proof.
  intros (_ & Hr & _)%rbuilt_ok Ha Hb. pose proof (reach_is_ancestor_spec r dag a b Hr Ha Hb) as Hspec.
  split; [done|]. apply eq_true_iff_eq. by rewrite Hspec, bfs_is_ancestor_spec.
Qed.

(** The chain test answers membership of the selected chain. *)
Lemma chain_ancestor_test dag gd r a b :
  rbuilt dag gd r → a ∈ dom dag → b ∈ dom dag →
  is_chain_ancestor r a b = Some (bool_decide (a ∈ selected_chain gd b)).
Proof.
  intros (Hi & Hr & Htree)%rbuilt_ok Ha Hb.
  assert (a ∈ dom (nodes r)) as Han by by rewrite (ok_dom _ _ _ _ Hr).
  assert (b ∈ dom (nodes r)) as Hbn by by rewrite (ok_dom _ _ _ _ Hr).
  pose proof (contains_tree_anc _ _ (ok_tree _ _ _ _ Hr) (ok_lam _ _ _ _ Hr) a b Han Hbn) as Hc.
  rewrite (tree_anc_chain dag gd r a b Hi Hr Htree) in Hc by by rewrite (inv_dom _ _ Hi).
  unfold is_chain_ancestor, is_chain_ancestor_incl, interval_of, node_of in *.
  apply elem_of_dom in Han as [na Hna]. apply elem_of_dom in Hbn as [nb Hnb].
  rewrite Hna, Hnb in *. simpl in *. f_equal. apply eq_true_iff_eq. by rewrite Hc, bool_decide_eq_true.
Qed.

(** The chain test that the finality rule asks is exact: for admitted blocks it
    answers whether following selected parents from [b] reaches [a]. *)
Theorem chain_ancestor_exact dag gd r a b :
  rbuilt dag gd r → a ∈ dom dag → b ∈ dom dag →
  is_chain_ancestor r a b = Some (bool_decide (a ∈ selected_chain gd b)).
Proof. apply chain_ancestor_test. Qed.

(** ** A concrete index *)
Module ReachExample.
Import DagExample.

Definition rgenesis : Dag * GdMap * Reachability :=
  (genesis.1, genesis.2, reach_add_block Reachability_new 0 None []).
Definition rgrow1 (s : option (Dag * GdMap * Reachability)) (hps : Hash * list Hash)
    : option (Dag * GdMap * Reachability) :=
  '(dag, gd, r) ← s;
  if bool_decide (hps.1 ∉ dom dag) && bool_decide (hps.2 ≠ []) &&
     forallb (λ p, bool_decide (p ∈ dom dag)) hps.2 && (Z.of_nat (size dag) * SCALE <? SPACE_END)
  then match try_compute_ghostdag_data r dag gd hps.2 MAX_MERGESET_SIZE with
       | Ok d => Some (<[hps.1 := stub hps.2]> dag, <[hps.1 := d]> gd,
                       reach_add_block r hps.1 (gd_selected_parent d) (merged d))
       | Err _ => None
       end
  else None.
Definition rgrow (l : list (Hash * list Hash)) : option (Dag * GdMap * Reachability) :=
  foldl rgrow1 (Some rgenesis) l.

Lemma rgrow_built l dag gd r : rgrow l = Some (dag, gd, r) → rbuilt dag gd r.
Proof.
  revert dag gd r. induction l as [|[h ps] l IH] using rev_ind; intros dag gd r.
  - intros [= <- <- <-]. by apply rbuilt_genesis.
  - unfold rgrow. rewrite foldl_app. simpl. fold (rgrow l). destruct (rgrow l) as [[[dag0 gd0] r0]|]; [|done]. simpl.
    destruct (_ && _) eqn:Hc; [|done]. zbool. destruct (try_compute_ghostdag_data _ _ _ _ _) as [d|] eqn:Hd; [|done].
    intros [= <- <- <-]. eapply (rbuilt_add dag0 gd0 r0 h (stub ps)); [by apply IH|done..| |done|exact Hd].
    intros p Hp. match goal with Hf : forallb _ _ = true |- _ => rewrite forallb_forall in Hf;
      specialize (Hf p (proj1 (list_elem_of_In _ _) Hp)) end. by zbool.
Qed.

Definition rdiamond : Dag * GdMap * Reachability := default rgenesis (rgrow diamond).

Lemma rdiamond_built : rbuilt rdiamond.1.1 rdiamond.1.2 rdiamond.2.
Proof.
  unfold rdiamond. destruct (rgrow diamond) as [[[dag gd] r]|] eqn:Hg; [by apply (rgrow_built diamond)|].
  exfalso. assert (is_Some (rgrow diamond)) as [? Hs]; [|congruence].
  apply (bool_decide_unpack _). vm_compute. exact I.
Qed.

Lemma rdiamond_dom x : bool_decide (x ∈ dom rdiamond.1.1) = true → x ∈ dom rdiamond.1.1.
Proof. by intros ?%bool_decide_eq_true. Qed.
End ReachExample.

Section witnesses.
Import ReachExample.

Lemma reachability_exact_witness :
  reach_is_ancestor rdiamond.2 rdiamond.1.1 1 3 = true ↔ ancestor rdiamond.1.1 1 3.
Proof.
  apply (reachability_exact rdiamond.1.1 rdiamond.1.2 rdiamond.2 1 3 rdiamond_built);
    apply rdiamond_dom; vm_compute; reflexivity.
Defined.

Lemma chain_ancestor_exact_witness :
  is_chain_ancestor rdiamond.2 1 3 = Some (bool_decide (1 ∈ selected_chain rdiamond.1.2 3)).
Proof.
  apply (chain_ancestor_exact rdiamond.1.1 rdiamond.1.2 rdiamond.2 1 3 rdiamond_built);
    apply rdiamond_dom; vm_compute; reflexivity.
Defined.
End witnesses.
