(* ===== verification/Determinism.v ===== *)
(** * GHOSTDAG data is a function of the graph

    What [try_compute_ghostdag_data] returns for a block depends on the block's past
    only: not on the blocks that arrived before it and are not its ancestors, nor on
    the oracle that answered the ancestry questions.  Hence two nodes that hold the
    same blocks hold the same GHOSTDAG data, whatever the order of arrival. *)

From S2P Require Import Prelude Genesis Crypto Address Predicate Utxo UtxoTx Registry Custody Block.
From S2P Require Import Dag Ghostdag Reachability Reindex ReachBuild.

Lemma max_by_ext (f g : Hash → Hash → bool) l :
  (∀ x y, x ∈ l → y ∈ l → f x y = g x y) → max_by f l = max_by g l.
Proof.
  intros Hfg. unfold max_by.
  assert (∀ k acc, (∀ x, x ∈ k → x ∈ l) → (∀ m, acc = Some m → m ∈ l) →
    foldl (λ acc x, match acc with None => Some x | Some m => if f m x then Some x else Some m end) acc k =
    foldl (λ acc x, match acc with None => Some x | Some m => if g m x then Some x else Some m end) acc k) as Hk.
  { induction k as [|y k IH]; intros acc Hin Ha; [done|]. simpl.
    assert (y ∈ l) as Hy by (apply Hin; set_solver). destruct acc as [m|].
    - rewrite (Hfg m y) by auto. apply IH; [set_solver|]. destruct (g m y); intros ? [= <-]; auto.
    - apply IH; [set_solver|]. by intros ? [= <-]. }
  by apply Hk.
Qed.

Lemma filter_bool_ext {A} (f g : A → bool) l : (∀ x, x ∈ l → f x = g x) → List.filter f l = List.filter g l.
Proof. intros Hfg. apply filter_ext_in. intros x Hx. apply Hfg. by apply list_elem_of_In. Qed.

Lemma forallb_ext_in {A} (f g : A → bool) l : (∀ x, x ∈ l → f x = g x) → forallb f l = forallb g l.
Proof.
  induction l as [|x l IH]; intros Hfg; [done|]. simpl. rewrite Hfg, IH; [done|set_solver|set_solver].
Qed.

(** ** Agreement on a past

    [P] is a set of blocks closed under parents on which the two graphs agree. *)
Section agree.
Context {R R' : Type} `{!AncestorOracle R} `{!AncestorOracle R'}.
Context (r : R) (r' : R') (dag dag' : Dag) (gd gd' : GdMap) (P : Hash → Prop).
Context (Hi : dag_inv dag gd) (Hi' : dag_inv dag' gd') (Hr : oracle_ok r dag) (Hr' : oracle_ok r' dag').
Context (Hdag : ∀ x, P x → dag' !! x = dag !! x) (Hgd : ∀ x, P x → gd' !! x = gd !! x).
Context (Hdom : ∀ x, P x → x ∈ dom dag) (Hcl : ∀ x p, P x → edge dag x p → P p).

Lemma agree_dom x : P x → x ∈ dom dag'.
Proof. intros Hx. apply elem_of_dom. rewrite Hdag by done. by apply elem_of_dom, Hdom. Qed.

Lemma agree_edge x p : P x → edge dag' x p ↔ edge dag x p.
Proof. intros Hx. unfold edge, parents_of. by rewrite Hdag. Qed.

Lemma agree_past x y : P x → in_past dag x y → P y ∧ in_past dag' x y.
Proof.
  intros Hx Hp. induction Hp as [x|x p y He _ IH]; [split; [done|apply rtc_refl]|].
  destruct (IH (Hcl _ _ Hx He)) as [Hy Hpy]. split; [done|]. eapply rtc_l; [by apply agree_edge|done].
Qed.

Lemma agree_past_inv x y : P x → in_past dag' x y → in_past dag x y.
Proof.
  intros Hx Hp. induction Hp as [x|x p y He _ IH]; [apply rtc_refl|].
  apply agree_edge in He; [|done]. eapply rtc_l; [exact He|]. apply IH. by eapply Hcl.
Qed.

Lemma agree_ancestor a b : P b → ancestor dag' a b ↔ ancestor dag a b.
Proof.
  intros Hb. rewrite !ancestor_in_past. split; intros (p & He & Hp).
  - apply agree_edge in He; [|done]. exists p. split; [done|]. apply agree_past_inv; [by eapply Hcl|done].
  - exists p. split; [by apply agree_edge|]. apply agree_past; [by eapply Hcl|done].
Qed.

Lemma agree_is_ancestor a b : P a → P b → is_ancestor r' dag' a b = is_ancestor r dag a b.
Proof.
  intros Ha Hb. apply eq_true_iff_eq.
  rewrite !is_ancestor_spec by (done || by apply agree_dom || by apply Hdom). by apply agree_ancestor.
Qed.

Lemma agree_score x : P x → score_of gd' x = score_of gd x.
Proof. intros Hx. unfold score_of. by rewrite Hgd. Qed.

Lemma agree_select ps : (∀ p, p ∈ ps → P p) → select_parent gd' ps = select_parent gd ps.
Proof.
  intros Hps. unfold select_parent.
  rewrite (filter_bool_ext _ (λ p, bool_decide (p ∈ dom gd)) ps).
  - apply max_by_ext. intros x y [_ Hx]%elem_of_filter_bool [_ Hy]%elem_of_filter_bool.
    unfold key_le. by rewrite !agree_score by by apply Hps.
  - intros p Hp. apply bool_decide_ext. by rewrite !elem_of_dom, Hgd by by apply Hps.
Qed.

Lemma agree_mergeset ps s : P s → (∀ p, p ∈ ps → P p) → mergeset dag' ps s = mergeset dag ps s.
Proof.
  intros Hs Hps. assert (∀ x, x ∈ mergeset dag' ps s ↔ x ∈ mergeset dag ps s) as Heq.
  { intros x. rewrite !elem_of_mergeset. split; intros [(p & Hp & Hpath) Hns]; (split; [exists p; split; [done|]|]).
    - by apply agree_past_inv; [apply Hps|].
    - intros Hsx. by apply Hns, agree_past.
    - by apply agree_past; [apply Hps|].
    - intros Hsx. by apply Hns, agree_past_inv. }
  unfold mergeset in *. f_equal. apply set_eq. intros x. specialize (Heq x). by rewrite !elem_of_elements in Heq.
Qed.

Lemma agree_sp h d s : P h → gd !! h = Some d → gd_selected_parent d = Some s → P s.
Proof.
  intros Hh Hd Hs. apply (Hcl h s Hh). by apply (entry_selected _ _ _ _ (inv_entry _ _ Hi h d Hd)).
Qed.

Lemma sp_in_blues gd0 dag0 h d s :
  dag_inv dag0 gd0 → gd0 !! h = Some d → gd_selected_parent d = Some s → s ∈ gd_mergeset_blues d.
Proof.
  intros Hi0 Hd Hs. destruct (entry_parent _ _ _ _ (inv_entry _ _ Hi0 h d Hd) s Hs) as [tl ->]. set_solver.
Qed.

Lemma agree_blues h : P h → materialized_blues gd' h = materialized_blues gd h.
Proof.
  intros Hh. assert (h ∈ dom gd) as Hd by by rewrite (inv_dom _ _ Hi); apply Hdom.
  revert h Hd Hh. refine (gd_ind gd _ (inv_wf _ _ Hi) _). intros h d Hd IH Hh.
  assert (gd' !! h = Some d) as Hd' by by rewrite Hgd.
  rewrite (materialized_blues_eq gd h d (inv_wf _ _ Hi) Hd) by (intros s; by apply (sp_in_blues gd dag h)).
  rewrite (materialized_blues_eq gd' h d (inv_wf _ _ Hi') Hd') by (intros s; by apply (sp_in_blues gd' dag' h)).
  f_equal. destruct (gd_selected_parent d) as [s|] eqn:Hs; simpl; [|done].
  apply IH; [done|]. by eapply agree_sp.
Qed.

Lemma agree_topological ms : (∀ x, x ∈ ms → P x) → topological_order r' dag' ms = topological_order r dag ms.
Proof.
  intros Hms. unfold topological_order. do 2 f_equal. apply list_fmap_ext. intros i h Hh.
  apply list_elem_of_lookup_2 in Hh. do 2 f_equal. unfold in_set_ancestors. apply filter_bool_ext.
  intros x Hx. by rewrite agree_is_ancestor by by apply Hms.
Qed.

Lemma agree_anticone x (S : gset Hash) :
  P x → (∀ y, y ∈ S → P y) → blue_anticone r' dag' S x = blue_anticone r dag S x.
Proof.
  intros Hx HS. unfold blue_anticone. apply filter_bool_ext. intros y Hy%elem_of_elements.
  unfold in_anticone. by rewrite !agree_is_ancestor by (done || by apply HS).
Qed.

Lemma agree_color (S : gset Hash) c :
  P c → (∀ y, y ∈ S → P y) → color_candidate_blue r' dag' S c = color_candidate_blue r dag S c.
Proof.
  intros Hc HS. unfold color_candidate_blue. rewrite agree_anticone by done. destruct (_ <? _); [done|].
  apply forallb_ext_in. intros d Hd. unfold blue_anticone in Hd. apply elem_of_filter_bool in Hd as [_ Hd%elem_of_elements].
  by rewrite agree_anticone by auto.
Qed.

Lemma agree_fold l c :
  (∀ x, x ∈ l → P x) → (∀ y, y ∈ current_blues c → P y) →
  foldl (color_step r' dag') c l = foldl (color_step r dag) c l.
Proof.
  revert c. induction l as [|x l IH]; intros c Hl Hc; [done|]. simpl.
  assert (color_step r' dag' c x = color_step r dag c x) as ->.
  { unfold color_step. by rewrite agree_color by (done || apply Hl; set_solver). }
  apply IH; [set_solver|]. unfold color_step. destruct (color_candidate_blue _ _ _ _); simpl; [|done].
  intros y [->%elem_of_singleton|Hy]%elem_of_union; [apply Hl; set_solver|by apply Hc].
Qed.

(** The data computed for a block with parents in [P]. *)
Lemma compute_agree ps cap :
  (∀ p, p ∈ ps → P p) →
  try_compute_ghostdag_data r' dag' gd' ps cap = try_compute_ghostdag_data r dag gd ps cap.
Proof.
  intros Hps. unfold try_compute_ghostdag_data. rewrite agree_select by done.
  destruct (select_parent gd ps) as [s|] eqn:Hs; [|done].
  apply select_parent_Some in Hs as (Hs & Hsd & _). pose proof (Hps s Hs) as HPs.
  rewrite agree_mergeset by done. set (ms := mergeset dag ps s).
  destruct (cap <? len ms); [done|].
  assert (∀ x, x ∈ ms → P x) as Hms.
  { intros x [(p & Hp & Hpath) _]%elem_of_mergeset. by apply (agree_past p x); [apply Hps|]. }
  rewrite agree_topological, agree_blues, agree_score by done. rewrite agree_fold; [done| |].
  - intros x. rewrite topological_order_permutation. apply Hms.
  - simpl. intros y Hy. pose proof Hsd as [ds Hds]%elem_of_dom.
    apply (agree_past s y); [done|]. by apply (entry_blues_past _ _ _ _ (inv_entry _ _ Hi s ds Hds)).
Qed.

(** The canonical order at a block of [P]. *)
Lemma order_agree h : P h → canonical_order_at dag' gd' h = canonical_order_at dag gd h.
Proof.
  intros Hh. assert (h ∈ dom gd) as Hd by by rewrite (inv_dom _ _ Hi); apply Hdom.
  revert h Hd Hh. refine (gd_ind gd _ (inv_wf _ _ Hi) _). intros h d Hd IH Hh.
  assert (gd' !! h = Some d) as Hd' by by rewrite Hgd.
  destruct (canonical_order_at_spec dag gd h d Hi Hd) as (_ & _ & ->).
  destruct (canonical_order_at_spec dag' gd' h d Hi' Hd') as (_ & _ & ->). f_equal.
  destruct (gd_selected_parent d) as [s|] eqn:Hs; simpl; [|done]. apply IH; [done|]. by eapply agree_sp.
Qed.

Lemma selected_chain_agree h : P h → selected_chain gd' h = selected_chain gd h.
Proof.
  intros Hh. assert (h ∈ dom gd) as Hd by by rewrite (inv_dom _ _ Hi); apply Hdom.
  revert h Hd Hh. refine (gd_ind gd _ (inv_wf _ _ Hi) _). intros h d Hd IH Hh.
  assert (gd' !! h = Some d) as Hd' by by rewrite Hgd.
  rewrite (selected_chain_eq gd h d (inv_wf _ _ Hi) Hd), (selected_chain_eq gd' h d (inv_wf _ _ Hi') Hd').
  f_equal. destruct (gd_selected_parent d) as [s|] eqn:Hs; simpl; [|done]. apply IH; [done|]. by eapply agree_sp.
Qed.
End agree.

(** ** Growth *)

(** What one admission leaves unchanged, for the blocks already there. *)
Lemma rbuilt_step_agree dag gd r h b cap d :
  rbuilt dag gd r → h ∉ dom dag → blk_parents b ≠ [] → (∀ p, p ∈ blk_parents b → p ∈ dom dag) →
  Z.of_nat (size dag) * SCALE < SPACE_END →
  try_compute_ghostdag_data r dag gd (blk_parents b) cap = Ok d →
  let P x := x ∈ dom dag in
  dag_inv dag gd ∧ dag_inv (<[h := b]> dag) (<[h := d]> gd) ∧
  (∀ x, P x → <[h := b]> dag !! x = dag !! x) ∧ (∀ x, P x → <[h := d]> gd !! x = gd !! x) ∧
  (∀ x p, P x → edge dag x p → P p).
Proof.
  intros Hb Hh Hne Hps Hsz Hcomp P. pose proof (rbuilt_ok _ _ _ Hb) as (Hi & _ & _).
  pose proof (rbuilt_ok _ _ _ (rbuilt_add _ _ _ _ _ _ _ Hb Hh Hne Hps Hsz Hcomp)) as (Hi' & _ & _).
  split_and!; [done|done| | |].
  - intros x Hx. apply lookup_insert_ne. intros ->. done.
  - intros x Hx. apply lookup_insert_ne. intros ->. done.
  - intros x p _ He. by apply (inv_closed _ _ Hi x p).
Qed.

(** The data of every block is what the reference oracle computes from the whole
    graph. *)
Lemma rbuilt_recomputed dag gd r h b :
  rbuilt dag gd r → dag !! h = Some b →
  ∃ d, gd !! h = Some d ∧
    (if bool_decide (blk_parents b = []) then d = GhostdagData_genesis
     else ∃ cap, try_compute_ghostdag_data tt dag gd (blk_parents b) cap = Ok d).
Proof.
  intros Hb. revert h b. induction Hb as [h0 b0 Hb0|dag gd r h0 b0 cap d0 Hb IH Hh Hne Hps Hsz Hcomp]; intros h b Hhb.
  - apply lookup_singleton_Some in Hhb as [<- <-]. exists GhostdagData_genesis.
    rewrite lookup_singleton_eq, bool_decide_eq_true_2 by done. done.
  - destruct (rbuilt_step_agree _ _ _ _ _ _ _ Hb Hh Hne Hps Hsz Hcomp) as (Hi & Hi' & Hdag & Hgd & Hcl).
    pose proof (rbuilt_ok _ _ _ Hb) as (_ & Hr & _). assert (oracle_ok r dag) as Hor by exact Hr.
    apply lookup_insert_Some in Hhb as [[<- <-]|[Hneq Hhb]].
    + exists d0. rewrite lookup_insert_eq, bool_decide_eq_false_2 by done. split; [done|]. exists cap.
      by rewrite (compute_agree r tt dag _ gd _ (λ x, x ∈ dom dag)).
    + destruct (IH h b Hhb) as (d & Hd & Hcase). exists d. rewrite lookup_insert_ne by done. split; [done|].
      case_bool_decide; [done|]. destruct Hcase as [cap' Hc]. exists cap'.
      rewrite (compute_agree tt tt dag _ gd _ (λ x, x ∈ dom dag)); try done.
      intros p Hp. apply (inv_closed _ _ Hi h p). unfold edge, parents_of. by rewrite Hhb.
Qed.

(** The cap on the mergeset decides between a result and an error only. *)
Lemma compute_cap {R} `{!AncestorOracle R} (r : R) dag gd ps cap cap' d d' :
  try_compute_ghostdag_data r dag gd ps cap = Ok d → try_compute_ghostdag_data r dag gd ps cap' = Ok d' → d = d'.
Proof.
  unfold try_compute_ghostdag_data. destruct (select_parent gd ps) as [s|]; [|congruence].
  destruct (cap <? _), (cap' <? _); congruence.
Qed.

Lemma gd_unique dag gd r gd' r' : rbuilt dag gd r → rbuilt dag gd' r' → gd = gd'.
Proof.
  intros Hb Hb'. pose proof (rbuilt_ok _ _ _ Hb) as (Hi & _ & _). pose proof (rbuilt_ok _ _ _ Hb') as (Hi' & _ & _).
  apply map_eq. intros h. destruct (decide (h ∈ dom dag)) as [Hh|Hh].
  2: { rewrite (proj1 (not_elem_of_dom gd h)), (proj1 (not_elem_of_dom gd' h)); [done| |].
       - by rewrite (inv_dom _ _ Hi').
       - by rewrite (inv_dom _ _ Hi). }
  remember (Z.to_nat (score_of gd h)) as n eqn:Hn. revert h Hh Hn. induction (lt_wf n) as [n _ IH]; intros h Hh ->.
  pose proof Hh as [b Hhb]%elem_of_dom.
  destruct (rbuilt_recomputed _ _ _ h b Hb Hhb) as (d & Hd & Hcase).
  destruct (rbuilt_recomputed _ _ _ h b Hb' Hhb) as (d' & Hd' & Hcase').
  rewrite Hd, Hd'. f_equal. case_bool_decide; [congruence|].
  destruct Hcase as [cap Hc], Hcase' as [cap' Hc'].
  set (P x := ∃ p, p ∈ blk_parents b ∧ in_past dag p x).
  assert (∀ p, p ∈ blk_parents b → edge dag h p) as Hedge by (intros p; unfold edge, parents_of; by rewrite Hhb).
  assert (∀ x, P x → x ∈ dom dag) as HPdom.
  { intros x (p & Hp & Hpath). apply (in_past_dom _ p x (inv_closed _ _ Hi)); [|done].
    by apply (inv_closed _ _ Hi h p), Hedge. }
  assert (∀ x, P x → gd' !! x = gd !! x) as HPgd.
  { intros x HPx. destruct (HPx) as (p & Hp & Hpath). symmetry. eapply IH; [|by apply HPdom|done].
    assert (ancestor dag x h) as Ha by (apply ancestor_in_past; exists p; auto).
    pose proof (ancestor_score dag gd x h Hi Ha). pose proof (score_nonneg dag gd x Hi). lia. }
  rewrite (compute_agree tt tt dag dag gd gd' P) in Hc'; try done.
  - by apply (compute_cap tt dag gd (blk_parents b) cap cap').
  - intros x p (q & Hq & Hpath) He. exists q. split; [done|]. by eapply rtc_r.
  - intros p Hp. exists p. split; [done|apply rtc_refl].
Qed.

(** GHOSTDAG data does not depend on the order of arrival: two nodes that
    admitted the same blocks, in whatever orders and with whatever state of their
    reachability indexes, hold identical blue scores, selected parents and mergeset
    colourings for every block. *)
Theorem ghostdag_deterministic dag gd r gd' r' :
  rbuilt dag gd r → rbuilt dag gd' r' → gd = gd'.
Proof. apply gd_unique. Qed.

(** ** Two orders of arrival of the same diamond *)
Module OrderExample.
Import DagExample ReachExample.
Definition swapped : list (Hash * list Hash) := [(2, [0]); (1, [0]); (3, [1; 2])].
Definition rswapped : Dag * GdMap * Reachability := default rgenesis (rgrow swapped).
Lemma rswapped_built : rbuilt rswapped.1.1 rswapped.1.2 rswapped.2.
Proof.
  unfold rswapped. destruct (rgrow swapped) as [[[dag gd] r]|] eqn:Hg; [by apply (rgrow_built swapped)|].
  exfalso. assert (is_Some (rgrow swapped)) as [? Hs]; [|congruence].
  apply (bool_decide_unpack _). vm_compute. exact I.
Qed.
Lemma same_dag : rswapped.1.1 = rdiamond.1.1.
Proof. vm_compute. reflexivity. Qed.
End OrderExample.

Lemma ghostdag_deterministic_witness :
  OrderExample.rswapped.1.2 = ReachExample.rdiamond.1.2.
Proof.
  apply (ghostdag_deterministic ReachExample.rdiamond.1.1 OrderExample.rswapped.1.2 OrderExample.rswapped.2
    ReachExample.rdiamond.1.2 ReachExample.rdiamond.2); [|exact ReachExample.rdiamond_built].
  rewrite <- OrderExample.same_dag. exact OrderExample.rswapped_built.
Defined.
