(* ===== verification/FeeHistory.v ===== *)
(** * Fee history

    [FeeRateHistory] of [src/src/lib.rs]: the bounded ring of fee-rate samples and
    the confirmation-target estimate computed from it.  The theorems: the ring holds
    the most recent samples, within its capacity; the estimate is the bottom of the
    first run of fee rates, from the highest down, that met the target. *)

From S2P Require Import Prelude.

Definition FEE_TARGET_HIGH_BLUES : Z := 6.
Definition FEE_TARGET_MEDIUM_BLUES : Z := 20.
Definition FEE_TARGET_LOW_BLUES : Z := 100.

Record FeeBlockSample := {
  fs_blue_score : Z;
  fs_feerates : list Z;
  fs_confirm_blues : list Z;
}.

Record FeeRateHistory := { samples : list FeeBlockSample; max_blocks : Z }.
Definition FeeRateHistory_default : FeeRateHistory := {| samples := []; max_blocks := 500 |}.

(** [FeeRateHistory::record]. *)
Definition record (h : FeeRateHistory) (blue_score : Z) (feerates confirm_blues : list Z) : FeeRateHistory :=
  match feerates with
  | [] => h
  | _ =>
      let pushed := samples h ++ [{| fs_blue_score := blue_score; fs_feerates := feerates;
                                     fs_confirm_blues := confirm_blues |}] in
      let max := Z.max (max_blocks h) 1 in
      {| samples := if max <? len pushed then drop (Z.to_nat (len pushed - max)) pushed else pushed;
         max_blocks := max_blocks h |}
  end.

(** ** The estimate *)

(** One observation: a fee rate, and whether it confirmed within the target. *)
Abbreviation Point := (Z * bool)%type (only parsing).

(** [confirm_blues.get(i).unwrap_or(0)] along [feerates]. *)
Fixpoint zip_lags (rates lags : list Z) : list (Z * Z) :=
  match rates with
  | [] => []
  | r :: rates => (r, default 0 (head lags)) :: zip_lags rates (tail lags)
  end.
Definition sample_points (target_blues : Z) (s : FeeBlockSample) : list Point :=
  (λ rl, (rl.1, rl.2 <=? target_blues)) <$> zip_lags (fs_feerates s) (fs_confirm_blues s).

(** [Vec::dedup]: drops repetitions of the preceding element. *)
Fixpoint dedup (l : list Z) : list Z :=
  match l with
  | x :: (y :: _) as tl => if x =? y then dedup tl else x :: dedup tl
  | _ => l
  end.

(** The observations at [candidate] or above, and how many of them met the target. *)
Definition total_at (points : list Point) (candidate : Z) : Z :=
  len (List.filter (λ p, candidate <=? p.1) points).
Definition ok_at (points : list Point) (candidate : Z) : Z :=
  len (List.filter (λ p, (candidate <=? p.1) && p.2) points).
Definition passes (points : list Point) (candidate : Z) : bool :=
  sat_mul 64 (total_at points candidate) 85 <=? sat_mul 64 (ok_at points candidate) 100.

(** The walk over the candidates, highest first. *)
Fixpoint success_walk (points : list Point) (last_pass : option Z) (candidates : list Z) : option Z :=
  match candidates with
  | [] => last_pass
  | c :: candidates =>
      if total_at points c =? 0 then success_walk points last_pass candidates
      else if passes points c then success_walk points (Some c) candidates
      else match last_pass with
           | Some _ => last_pass
           | None => success_walk points None candidates
           end
  end.

Definition observed_rates (points : list Point) : list Z := dedup (merge_sort Z.le points.*1).

Definition estimate_for_target_with_extra (h : FeeRateHistory) (target_blues : Z) (extra : list Point) : option Z :=
  let points := concat (sample_points target_blues <$> samples h) ++ extra in
  if bool_decide (points = []) || negb (existsb snd points) then None else
  success_walk points None (rev (observed_rates points)).

Definition estimate_for_target (h : FeeRateHistory) (target_blues : Z) : option Z :=
  estimate_for_target_with_extra h target_blues [].

(** ** The ring *)

Lemma record_samples h bs rates lags :
  rates ≠ [] →
  samples (record h bs rates lags) =
    let pushed := samples h ++ [{| fs_blue_score := bs; fs_feerates := rates; fs_confirm_blues := lags |}] in
    drop (Z.to_nat (len pushed - Z.max (max_blocks h) 1)) pushed.
Proof.
  intros Hne. destruct rates as [|r rates]; [done|]. unfold record. simpl.
  destruct (Z.ltb_spec (Z.max (max_blocks h) 1)
    (len (samples h ++ [{| fs_blue_score := bs; fs_feerates := r :: rates; fs_confirm_blues := lags |}]))); [done|].
  by rewrite (Z2Nat.nonpos (_ - _)) by lia.
Qed.

(** [recorded h h']: [h'] is reached from [h] by recording samples. *)
Inductive recorded (h : FeeRateHistory) : list FeeBlockSample → FeeRateHistory → Prop :=
| recorded_none : recorded h [] h
| recorded_one log h' bs rates lags :
    recorded h log h' → rates ≠ [] →
    recorded h (log ++ [{| fs_blue_score := bs; fs_feerates := rates; fs_confirm_blues := lags |}])
      (record h' bs rates lags).

Lemma drop_drop_app {A} (l k : list A) n m :
  (n <= length l)%nat → drop m (drop n l ++ k) = drop (n + m) (l ++ k).
Proof. intros Hn. rewrite <- (drop_app_le _ _ _ Hn), drop_drop. f_equal. Qed.

(** The ring of fee samples: after any run of records it holds exactly the most
    recent ones, at most [max_blocks] of them (or one, for a capacity of zero), in
    the order they were recorded. *)
Theorem record_ring h log h' :
  samples h = [] → recorded h log h' →
  len (samples h') <= Z.max (max_blocks h') 1 ∧ max_blocks h' = max_blocks h ∧
  samples h' = drop (length log - length (samples h')) log ∧
  (len log <= Z.max (max_blocks h') 1 → samples h' = log).
Proof.
  intros H0 Hr. induction Hr as [|log h' bs rates lags Hr (Hle & Hmax & Hlog & Hall) Hne].
  - rewrite H0. unfold len. simpl. split_and!; done || lia.
  - assert (max_blocks (record h' bs rates lags) = max_blocks h') as -> by by destruct rates.
    rewrite (record_samples h' bs rates lags Hne). simpl. set (x := {| fs_blue_score := bs |}).
    set (n := Z.to_nat _). set (k := (length log - length (samples h'))%nat) in Hlog.
    assert (k + length (samples h') = length log)%nat as Hk.
    { rewrite Hlog, length_drop. unfold k. lia. }
    assert (n <= 1)%nat as Hn1 by (unfold n, len in *; rewrite length_app; simpl; lia).
    assert (Hd : drop n (samples h' ++ [x]) = drop (k + n) (log ++ [x])).
    { rewrite Hlog at 1. apply drop_drop_app. lia. }
    assert (length (drop n (samples h' ++ [x])) = length (samples h') + 1 - n)%nat as Hln.
    { rewrite length_drop, length_app. simpl. lia. }
    split_and!; [|done| |].
    + unfold len. rewrite Hln. unfold n, len in *. rewrite length_app. simpl. lia.
    + rewrite Hd at 1. f_equal. rewrite Hln, length_app. simpl. lia.
    + unfold len in *. rewrite length_app. simpl. intros Hlen. rewrite Hd.
      assert (k + n = 0)%nat as ->; [|done].
      specialize (Hall ltac:(lia)). rewrite Hall in Hk. unfold n, len. rewrite length_app, Hall. simpl. lia.
Qed.

(** ** The walk *)

Lemma elem_of_dedup l x : x ∈ dedup l ↔ x ∈ l.
Proof.
  induction l as [|a l IH]; [done|]. destruct l as [|b l]; [done|].
  change (dedup (a :: b :: l)) with (if a =? b then dedup (b :: l) else a :: dedup (b :: l)).
  destruct (Z.eqb_spec a b) as [->|].
  - rewrite IH. set_solver.
  - rewrite (elem_of_cons (dedup _)), (elem_of_cons (b :: l)), IH. done.
Qed.

Lemma dedup_sorted l : Sorted Z.le l → Sorted Z.lt (dedup l).
Proof.
  intros Hs%Sorted_StronglySorted; [|intros ???; lia].
  apply StronglySorted_Sorted. induction Hs as [|a l Hs IH Ha]; [constructor|].
  destruct l as [|b l]; [repeat constructor|].
  change (dedup (a :: b :: l)) with (if a =? b then dedup (b :: l) else a :: dedup (b :: l)).
  destruct (Z.eqb_spec a b) as [->|Hne]; [done|]. constructor; [done|].
  apply Forall_forall. intros x Hx. rewrite elem_of_dedup in Hx.
  pose proof (StronglySorted_inv Hs) as [_ Hb]. rewrite Forall_forall in Ha, Hb.
  assert (a <= b) by (apply Ha; set_solver).
  apply elem_of_cons in Hx as [->|Hx]; [lia|]. specialize (Hb x Hx). lia.
Qed.

(** The candidates of the walk: every observed rate once, highest first. *)
Lemma observed_rates_desc points : StronglySorted (λ x y, y < x) (rev (observed_rates points)).
Proof.
  assert (Total Z.le) as Htot by (intros x y; lia).
  pose proof (dedup_sorted _ (Sorted_merge_sort Z.le points.*1)) as Hs.
  apply Sorted_StronglySorted in Hs; [|intros ???; lia]. fold (observed_rates points) in Hs.
  induction Hs as [|a l Hs IH Ha]; [constructor|]. simpl. apply StronglySorted_app.
  split_and!; [|done|repeat constructor].
  intros x y Hx%list_elem_of_In%in_rev Hy%list_elem_of_singleton. subst y.
  rewrite Forall_forall in Ha. apply Ha. by apply list_elem_of_In.
Qed.

Lemma elem_of_observed points r : r ∈ rev (observed_rates points) ↔ ∃ ok, (r, ok) ∈ points.
Proof.
  rewrite list_elem_of_In, <- in_rev, <- list_elem_of_In. unfold observed_rates.
  rewrite elem_of_dedup, (merge_sort_Permutation Z.le), list_elem_of_fmap. split.
  - intros ([r' ok] & -> & Hp). by exists ok.
  - intros [ok Hp]. by exists (r, ok).
Qed.

Lemma total_at_pos points r ok : (r, ok) ∈ points → total_at points r ≠ 0.
Proof.
  intros Hp. unfold total_at, len. destruct (List.filter _ points) as [|q qs] eqn:Hf; [|simpl; lia].
  exfalso. assert (In (r, ok) (List.filter (λ p, r <=? p.1) points)) as Hin; [|by rewrite Hf in Hin].
  apply filter_In. split; [by apply list_elem_of_In|simpl; lia].
Qed.

Lemma success_walk_run points c cs :
  Forall (λ c, total_at points c ≠ 0) cs →
  ∃ r run rest, success_walk points (Some c) cs = Some r ∧ c :: cs = run ++ r :: rest ∧
    Forall (λ c, passes points c = true) (tail (run ++ [r])) ∧
    (∀ c', head rest = Some c' → passes points c' = false).
Proof.
  revert c. induction cs as [|c' cs IH]; intros c Hall; simpl.
  - exists c, [], []. by repeat constructor.
  - apply Forall_cons in Hall as [Hc Hall]. rewrite (proj2 (Z.eqb_neq _ _) Hc).
    destruct (passes points c') eqn:Hp.
    + destruct (IH c' Hall) as (r & run & rest & Hw & Heq & Hpass & Hrest).
      exists r, (c :: run), rest. split_and!; [done|by rewrite Heq|simpl|done].
      destruct run as [|x run]; simpl in *; injection Heq as <- _; by constructor.
    + exists c, [], (c' :: cs). split_and!; [done..|constructor|]. by intros ? [= <-].
Qed.

Lemma success_walk_spec points cs :
  Forall (λ c, total_at points c ≠ 0) cs →
  match success_walk points None cs with
  | Some r => ∃ above run rest, cs = above ++ run ++ r :: rest ∧
      Forall (λ c, passes points c = false) above ∧
      Forall (λ c, passes points c = true) (run ++ [r]) ∧
      (∀ c', head rest = Some c' → passes points c' = false)
  | None => Forall (λ c, passes points c = false) cs
  end.
Proof.
  induction cs as [|c cs IH]; intros Hall; simpl; [done|].
  apply Forall_cons in Hall as [Hc Hall]. rewrite (proj2 (Z.eqb_neq _ _) Hc). specialize (IH Hall).
  destruct (passes points c) eqn:Hp.
  - destruct (success_walk_run points c cs Hall) as (r & run & rest & -> & Heq & Hpass & Hrest).
    exists [], run, rest. split_and!; [done|constructor| |done].
    destruct run as [|x run]; simpl in *; injection Heq as <- _; by constructor.
  - destruct (success_walk points None cs) as [r|]; [|by constructor].
    destruct IH as (above & run & rest & -> & Ha & Hr). exists (c :: above), run, rest.
    split_and!; [done|by constructor|apply Hr..].
Qed.

(** The test of the walk is the 85% success rate, as long as the counts fit. *)
Lemma passes_spec points c :
  len points * 100 <= U64_MAX →
  passes points c = true ↔ 85 * total_at points c <= 100 * ok_at points c.
Proof.
  intros Hlen. unfold passes.
  assert (∀ f : Point → bool, 0 <= len (List.filter f points) <= len points) as Hf.
  { intros f. unfold len. pose proof (filter_length_le f points). lia. }
  pose proof (Hf (λ p, c <=? p.1)). pose proof (Hf (λ p, (c <=? p.1) && p.2)).
  fold (total_at points c) (ok_at points c) in *.
  rewrite !sat_mul_exact by lia. rewrite Z.leb_le. lia.
Qed.

(** What the fee estimate for a target returns.  Take the observed fee rates,
    each once, highest first.  The estimate is the last rate of the first run of
    rates at which at least 85% of the observations at or above the rate met the
    target: no rate before the run passes, and the next one below it does not.  There
    is no estimate only when no observation met the target, or no rate passes. *)
Theorem estimate_for_target_spec h target extra :
  let points := concat (sample_points target <$> samples h) ++ extra in
  let rates := rev (observed_rates points) in
  let pass c := 85 * total_at points c <= 100 * ok_at points c in
  len points * 100 <= U64_MAX →
  StronglySorted (λ x y, y < x) rates ∧ (∀ r, r ∈ rates ↔ ∃ ok, (r, ok) ∈ points) ∧
  match estimate_for_target_with_extra h target extra with
  | Some r => ∃ above run rest, rates = above ++ run ++ r :: rest ∧
      Forall (λ c, ¬ pass c) above ∧ Forall pass (run ++ [r]) ∧
      (∀ c', head rest = Some c' → ¬ pass c')
  | None => (∀ r, (r, true) ∉ points) ∨ Forall (λ c, ¬ pass c) rates
  end.
Proof.
  intros points rates pass Hlen. split_and!; [apply observed_rates_desc|intros r; apply elem_of_observed|].
  assert (∀ c, passes points c = true ↔ pass c) as Hp by (intros c; by apply passes_spec).
  assert (∀ c, passes points c = false ↔ ¬ pass c) as Hnp.
  { intros c. rewrite <- Hp. by destruct (passes points c). }
  unfold estimate_for_target_with_extra. fold points. destruct (_ || _) eqn:Hc.
  { left. intros r Hr. assert (existsb snd points = true) as He.
    { apply existsb_exists. exists (r, true). by rewrite <- list_elem_of_In. }
    rewrite He, orb_false_r in Hc. apply bool_decide_eq_true in Hc. rewrite Hc in Hr. by apply not_elem_of_nil in Hr. }
  assert (Forall (λ c, total_at points c ≠ 0) rates) as Hpos.
  { apply Forall_forall. intros c Hc'. apply elem_of_observed in Hc' as [ok Hin].
    by eapply total_at_pos. }
  pose proof (success_walk_spec points rates Hpos) as Hw. fold rates. destruct (success_walk points None rates) as [r|].
  - destruct Hw as (above & run & rest & Heq & Ha & Hr & Hrest). exists above, run, rest.
    split_and!; [done|by eapply Forall_impl; [exact Ha|]; intros c; apply Hnp| |].
    + eapply Forall_impl; [exact Hr|]. intros c. apply Hp.
    + intros c' Hc'. by apply Hnp, Hrest.
  - right. eapply Forall_impl; [exact Hw|]. intros c. apply Hnp.
Qed.

(** ** Concrete histories *)
Module FeeExample.
(** Two blocks: rates 9 and 4 confirmed at once, 7 late. *)
Definition two : FeeRateHistory := record (record FeeRateHistory_default 1 [9; 7] [0; 50]) 2 [9; 9; 4] [1; 2; 3].
Lemma two_recorded : ∃ log, recorded FeeRateHistory_default log two.
Proof. eexists. repeat (apply recorded_one; [|done]). apply recorded_none. Qed.
End FeeExample.

Lemma record_ring_witness : len (samples FeeExample.two) <= 500.
Proof.
  destruct FeeExample.two_recorded as [log Hlog].
  destruct (record_ring FeeRateHistory_default log FeeExample.two eq_refl Hlog) as (Hle & _). exact Hle.
Defined.

Lemma estimate_for_target_spec_witness :
  ∃ above run rest,
    rev (observed_rates (concat (sample_points 6 <$> samples FeeExample.two) ++ [])) = above ++ run ++ 9 :: rest.
Proof.
  pose proof (estimate_for_target_spec FeeExample.two 6 [] ltac:(vm_compute; discriminate)) as (_ & _ & H).
  assert (estimate_for_target_with_extra FeeExample.two 6 [] = Some 9) as He by (vm_compute; reflexivity).
  rewrite He in H. destruct H as (above & run & rest & Heq & _). by exists above, run, rest.
Defined.
