(* ===== verification/Stark.v ===== *)
(** * The sequential-work proof of a block

    [src/src/stark.rs]: the transition function, the execution trace, the
    constraints ([evaluate_transition], [get_assertions]) that the proof system
    checks, the framing of the proof bytes and the verifier's own checks.  Proof
    parsing and verification are the [winterfell] crate's: fields of the class
    [Winterfell].  The theorem: the constraints have exactly one solution, the honest
    trace, so what the crate attests is the iterated function and nothing else. *)

From S2P Require Import Prelude Crypto.

Definition SEQUENTIAL_STEPS : nat := 128.
Definition RESULT_HEADER_LEN : nat := 16.
Definition MAX_STARK_PROOF_BYTES : Z := 24 * 1024.

(** [winterfell]: [Proof::from_bytes(p).is_ok()], and [verify(proof, inputs, opts)]
    for the public inputs seed and result under [MinConjecturedSecurity(80)]. *)
Class Winterfell := {
  proof_parses : bytes → bool;
  winterfell_verify : bytes → Z → Z → bool;
}.

(** Elements of the field [f128]: integers modulo the documented prime. *)
Definition F128_MODULUS : Z := 2 ^ 128 - 45 * 2 ^ 40 + 1.
Definition BaseElement_new (x : Z) : Z := x mod F128_MODULUS.

(** [seed_from_bytes]: the first 16 bytes, right-padded with zeros, big-endian. *)
Definition seed_from_bytes (bs : bytes) : Z :=
  let n := Nat.min (length bs) 16 in
  BaseElement_new (be_int (take n bs ++ replicate (16 - n) 0)).

(** [step]: [state.exp(3) + 42]. *)
Definition step (state : Z) : Z := (state ^ 3 + 42) mod F128_MODULUS.

(** [build_trace]: [TraceTable::fill] with the seed first and [step] after it. *)
Fixpoint build_trace (seed : Z) (steps : nat) : list Z :=
  match steps with
  | O => []
  | S n => seed :: build_trace (step seed) n
  end.

(** [evaluate_transition] on two consecutive rows, and the two assertions of
    [get_assertions]: first row and last row. *)
Definition evaluate_transition (current next : Z) : Z :=
  (next - (current ^ 3 + 42)) mod F128_MODULUS.
Definition get_assertions (trace_length : nat) (seed result : Z) : list (nat * Z) :=
  [(0%nat, seed); ((trace_length - 1)%nat, result)].

(** What [winterfell::verify] attests of a trace of field elements. *)
Definition air_holds (trace : list Z) (seed result : Z) : Prop :=
  (∀ i x y, trace !! i = Some x → trace !! S i = Some y → evaluate_transition x y = 0) ∧
  Forall (λ ia, trace !! ia.1 = Some ia.2) (get_assertions (length trace) seed result).

(** The public inputs of [prove]: seed and last row. *)
Definition prove_inputs (header_bytes : bytes) : Z * Z :=
  let seed := seed_from_bytes header_bytes in
  (seed, default 0 (build_trace seed SEQUENTIAL_STEPS !! (SEQUENTIAL_STEPS - 1)%nat)).

Section stark.
Context `{!Winterfell}.

(** [precheck_format]. *)
Definition precheck_format (stark_proof : bytes) : result unit :=
  fail_if len stark_proof <=? Z.of_nat RESULT_HEADER_LEN as "too short";
  fail_if MAX_STARK_PROOF_BYTES <? len stark_proof as "too large";
  fail_if negb (proof_parses (drop RESULT_HEADER_LEN stark_proof)) as "malformed";
  Ok ().

(** [verify]. *)
Definition stark_verify (header_bytes stark_proof : bytes) : bool :=
  if is_err (precheck_format stark_proof) then false else
  let result := BaseElement_new (be_int (take RESULT_HEADER_LEN stark_proof)) in
  winterfell_verify (drop RESULT_HEADER_LEN stark_proof) (seed_from_bytes header_bytes) result.
End stark.

(** ** The constraints determine the trace *)

Lemma length_build_trace seed n : length (build_trace seed n) = n.
Proof. revert seed. induction n as [|n IH]; intros seed; simpl; [done|]. by rewrite IH. Qed.

Lemma build_trace_step seed n i x y :
  build_trace seed n !! i = Some x → build_trace seed n !! S i = Some y → y = step x.
Proof.
  revert seed i. induction n as [|n IH]; intros seed i; [done|]. destruct i as [|i]; simpl.
  - intros [= <-]. destruct n as [|n]; [done|]. by intros [= <-].
  - apply IH.
Qed.

Lemma transition_zero x y :
  0 <= y < F128_MODULUS → evaluate_transition x y = 0 ↔ y = step x.
Proof.
  intros Hy. unfold evaluate_transition, step. set (c := x ^ 3 + 42).
  assert (F128_MODULUS ≠ 0) as Hm by (vm_compute; discriminate). split.
  - intros Hz. apply Z.mod_divide in Hz as [q Hq]; [|done].
    replace y with (c + q * F128_MODULUS) in * by lia. rewrite <- (Z.mod_small _ _ Hy).
    by rewrite Z_mod_plus_full.
  - intros ->. rewrite Zminus_mod_idemp_l, Z.sub_diag. done.
Qed.

Lemma trace_unique trace seed :
  Forall (λ x, 0 <= x < F128_MODULUS) trace →
  (∀ i x y, trace !! i = Some x → trace !! S i = Some y → evaluate_transition x y = 0) →
  head trace = Some seed → trace = build_trace seed (length trace).
Proof.
  revert seed. induction trace as [|x trace IH]; intros seed Hr Hs Hh; [done|].
  injection Hh as ->. simpl. f_equal. apply Forall_cons in Hr as [_ Hr].
  destruct trace as [|y trace]; [done|]. apply IH; [done|intros i; apply (Hs (S i))|].
  simpl. f_equal. apply transition_zero; [by apply Forall_cons in Hr as [Hy _]|].
  by apply (Hs 0%nat).
Qed.

(** The constraint system of the sequential-work proof is exact: a trace of field
    elements satisfies the transition constraint and both assertions if and only if
    it is the honest trace from the seed and the claimed result is its last row.  So
    for the 128 rows of a block, the only result a proof can attest is the one
    [prove] computes from the header. *)
Theorem air_exact trace seed result :
  Forall (λ x, 0 <= x < F128_MODULUS) trace →
  air_holds trace seed result ↔
    trace = build_trace seed (length trace) ∧ trace ≠ [] ∧ last trace = Some result.
Proof.
  intros Hr. unfold air_holds, get_assertions. rewrite !Forall_cons. cbn [fst snd].
  rewrite last_lookup, Nat.sub_1_r. split.
  - intros (Hs & Hh & Hl & _). split_and!; [|by destruct trace|done].
    apply trace_unique; [done..|]. by destruct trace.
  - intros (Heq & Hne & Hl). split_and!; [|by destruct trace; [|rewrite Heq]|done|constructor].
    intros i x y Hx Hy. pose proof (Forall_lookup_1 _ _ _ _ Hr Hy) as Hy'.
    apply transition_zero; [done|]. rewrite Heq in Hx, Hy. by eapply build_trace_step.
Qed.

Lemma air_exact_witness :
  air_holds (build_trace 5 3) 5 4657505 ↔
    build_trace 5 3 = build_trace 5 3 ∧ build_trace 5 3 ≠ [] ∧ last (build_trace 5 3) = Some 4657505.
Proof.
  apply (air_exact (build_trace 5 3) 5 4657505). apply (bool_decide_unpack _). vm_compute. exact I.
Defined.
