(* ===== verification/VersionBits.v ===== *)
(** * Soft-upgrade signalling

    [src/src/versionbits.rs]: version bits and the per-deployment state machine fed
    by the selected chain.  The deployment table is a compile-time constant, empty
    in this build ([DEPLOYMENTS]); the machine is stated for any table.  The
    theorems: a signal is read back exactly when it was set; deployments only move
    forward; none locks in unless one window really carried the threshold. *)

From S2P Require Import Prelude.

Definition VERSIONBITS_TOP_MASK : Z := 0xE0000000.
Definition VERSIONBITS_TOP_BITS : Z := 0x20000000.
Definition VERSIONBITS_NUM_BITS : Z := 8.
Definition SIGNAL_WINDOW : Z := 1000.
Definition SIGNAL_THRESHOLD : Z := 750.
Definition LOCKIN_MIN_WINDOWS : Z := 1.

Inductive DeploymentState := Defined | Started | LockedIn | Active | Failed.
#[global] Instance DeploymentState_eq_dec : EqDecision DeploymentState.
Proof. solve_decision. Defined.

Record Deployment := {
  dep_name : string;
  dep_bit : Z;
  start_blue : Z;
  timeout_blue : Z;
}.
Definition DEPLOYMENTS : list Deployment := [].

(** [default_block_version]. *)
Definition default_block_version : Z := VERSIONBITS_TOP_BITS.

(** [miner_version]. *)
Definition miner_version (signals : list Z) : Z :=
  foldl (λ v bit, if bit <? VERSIONBITS_NUM_BITS then Z.lor v (Z.shiftl 1 bit) else v)
    VERSIONBITS_TOP_BITS signals.

(** [signals]. *)
Definition signals (version bit : Z) : bool :=
  if VERSIONBITS_NUM_BITS <=? bit then false else
  (Z.land version VERSIONBITS_TOP_MASK =? VERSIONBITS_TOP_BITS) &&
  negb (Z.land version (Z.shiftl 1 bit) =? 0).

Record VersionBitsState := {
  states : list DeploymentState;
  window_counts : list Z;
  window_start_blue : Z;
}.

Section machine.
Context (deps : list Deployment).

Definition VersionBitsState_new : VersionBitsState :=
  {| states := (λ _, Defined) <$> deps; window_counts := (λ _, 0) <$> deps; window_start_blue := 0 |}.

(** The loop over the table when a window closes. *)
Definition close_window (blue_score : Z) (dep : Deployment) (st : DeploymentState) (count : Z)
    : DeploymentState :=
  match st with
  | Started => if SIGNAL_THRESHOLD <=? count then LockedIn
               else if timeout_blue dep <=? blue_score then Failed else Started
  | LockedIn => Active
  | _ => st
  end.

(** The loop over the table for the block itself. *)
Definition track (blue_score version : Z) (dep : Deployment) (st : DeploymentState) (count : Z)
    : DeploymentState * Z :=
  let st := if bool_decide (st = Defined) && (start_blue dep <=? blue_score) then Started else st in
  let count := if (bool_decide (st = Started) || bool_decide (st = LockedIn)) && signals version (dep_bit dep)
               then sat_add 64 count 1 else count in
  let st := if bool_decide (st = Started) && (timeout_blue dep <=? blue_score) then Failed else st in
  (st, count).

(** [for (i, dep) in DEPLOYMENTS.iter().enumerate()] over the two parallel vectors. *)
Fixpoint each (f : Deployment → DeploymentState → Z → DeploymentState * Z) (ds : list Deployment)
    (sts : list DeploymentState) (cs : list Z) : list DeploymentState * list Z :=
  match ds, sts, cs with
  | d :: ds, st :: sts, c :: cs =>
      let '(st, c) := f d st c in let '(sts, cs) := each f ds sts cs in (st :: sts, c :: cs)
  | _, _, _ => (sts, cs)
  end.

(** [VersionBitsState::observe]. *)
Definition observe (s : VersionBitsState) (blue_score version : Z) : VersionBitsState :=
  let s := if bool_decide (states s = []) then VersionBitsState_new else s in
  let window := blue_score / SIGNAL_WINDOW in
  let cur_window := window_start_blue s / SIGNAL_WINDOW in
  let s := if cur_window <? window then
             let '(sts, cs) := each (λ d st c, (close_window blue_score d st c, 0)) deps (states s) (window_counts s) in
             {| states := sts; window_counts := cs; window_start_blue := wrap 64 (window * SIGNAL_WINDOW) |}
           else s in
  let '(sts, cs) := each (track blue_score version) deps (states s) (window_counts s) in
  {| states := sts; window_counts := cs; window_start_blue := window_start_blue s |}.

(** [version_bits_status] of [lib.rs]: the machine run along the selected chain. *)
Definition observe_all (l : list (Z * Z)) : VersionBitsState :=
  foldl (λ s bv, observe s bv.1 bv.2) VersionBitsState_new l.

(** [VersionBitsState::is_active]. *)
Definition is_active (s : VersionBitsState) (name : string) : bool :=
  match list_find (λ d, dep_name d = name) deps with
  | Some (i, _) => bool_decide (states s !! i = Some Active)
  | None => false
  end.
End machine.

(** ** Version bits *)

Lemma miner_version_fold l v i :
  Forall (Z.le 0) l → 0 <= i →
  Z.testbit (foldl (λ v bit, if bit <? VERSIONBITS_NUM_BITS then Z.lor v (Z.shiftl 1 bit) else v) v l) i =
  Z.testbit v i || (bool_decide (i ∈ l) && (i <? VERSIONBITS_NUM_BITS)).
Proof.
  intros Hl Hi. revert v. induction Hl as [|b l Hb Hl IH]; intros v; [by rewrite orb_false_r|].
  cbn [foldl]. rewrite IH. unfold VERSIONBITS_NUM_BITS in *.
  assert (Z.testbit (if b <? 8 then Z.lor v (Z.shiftl 1 b) else v) i =
          Z.testbit v i || ((b =? i) && (b <? 8))) as ->.
  { destruct (b <? 8); [|by rewrite andb_false_r, orb_false_r].
    by rewrite Z.lor_spec, Z.shiftl_1_l, Z.pow2_bits_eqb, andb_true_r by done. }
  rewrite <- orb_assoc. f_equal. destruct (Z.eqb_spec b i) as [->|Hne].
  - rewrite (bool_decide_eq_true_2 (i ∈ i :: l)) by set_solver. by destruct (i <? 8), (bool_decide _).
  - simpl. f_equal. apply bool_decide_ext. set_solver.
Qed.

Lemma land_bit_test v b : 0 <= b → negb (Z.land v (Z.shiftl 1 b) =? 0) = Z.testbit v b.
Proof.
  intros Hb. assert (Z.testbit (Z.land v (Z.shiftl 1 b)) b = Z.testbit v b) as Ht.
  { by rewrite Z.land_spec, Z.shiftl_1_l, Z.pow2_bits_eqb, Z.eqb_refl, andb_true_r by done. }
  destruct (Z.eqb_spec (Z.land v (Z.shiftl 1 b)) 0) as [Hz|Hnz]; simpl.
  - by rewrite <- Ht, Hz, Z.testbit_0_l.
  - destruct (Z.testbit v b) eqn:Hv; [done|]. exfalso. apply Hnz. apply Z.bits_inj_0. intros n.
    destruct (Z.ltb_spec n 0); [by apply Z.testbit_neg_r|].
    rewrite Z.land_spec, Z.shiftl_1_l, Z.pow2_bits_eqb by done.
    destruct (Z.eqb_spec b n) as [<-|]; [by rewrite Hv|apply andb_false_r].
Qed.

(** Signals round-trip through the block version: whatever set of bits a miner
    asks for, the version it advertises signals exactly those of them below 8, and
    its top bits mark it as a signalling version. *)
Theorem signals_miner_version l bit :
  Forall (Z.le 0) l → 0 <= bit →
  signals (miner_version l) bit = bool_decide (bit ∈ l) && (bit <? VERSIONBITS_NUM_BITS).
Proof.
  intros Hl Hb. unfold signals, miner_version. rewrite land_bit_test, miner_version_fold by done.
  set (v := foldl _ _ _). assert ((Z.land v VERSIONBITS_TOP_MASK =? VERSIONBITS_TOP_BITS) = true) as ->.
  { apply Z.eqb_eq, Z.bits_inj'. intros n Hn. rewrite Z.land_spec. unfold v.
    rewrite miner_version_fold, andb_orb_distrib_l, <- Z.land_spec by done.
    change (Z.land VERSIONBITS_TOP_BITS VERSIONBITS_TOP_MASK) with VERSIONBITS_TOP_BITS.
    unfold VERSIONBITS_NUM_BITS. destruct (Z.ltb_spec n 8) as [Hlt|]; [|by rewrite andb_false_r, orb_false_r].
    change VERSIONBITS_TOP_MASK with (Z.shiftl 7 29). rewrite Z.shiftl_spec_low by lia.
    by rewrite andb_false_r, orb_false_r. }
  unfold VERSIONBITS_NUM_BITS, VERSIONBITS_TOP_BITS.
  destruct (Z.leb_spec 8 bit) as [|Hlt]; [by rewrite (proj2 (Z.ltb_ge bit 8)), andb_false_r by done|].
  change 0x20000000 with (Z.shiftl 1 29). by rewrite Z.shiftl_spec_low by lia.
Qed.

(** ** Deployments *)

(** The moves of one deployment. *)
Inductive dstep : DeploymentState → DeploymentState → Prop :=
| dstep_start : dstep Defined Started
| dstep_lock : dstep Started LockedIn
| dstep_timeout : dstep Started Failed
| dstep_activate : dstep LockedIn Active.

(** The blocks of a history that fall in window [w] and signal [bit]. *)
Definition signalled (hist : list (Z * Z)) (w bit : Z) : Z :=
  len (List.filter (λ bv, (bv.1 / SIGNAL_WINDOW =? w) && signals bv.2 bit) hist).

Lemma signalled_snoc hist w bit b v :
  signalled (hist ++ [(b, v)]) w bit =
  signalled hist w bit + (if (b / SIGNAL_WINDOW =? w) && signals v bit then 1 else 0).
Proof.
  unfold signalled, len. rewrite List.filter_app, length_app. simpl.
  destruct (_ && _); simpl; lia.
Qed.

Lemma each_Forall3 (P Q : Deployment → DeploymentState → Z → Prop) f ds sts cs :
  (∀ d st c, P d st c → Q d (f d st c).1 (f d st c).2) →
  Forall3 P ds sts cs → Forall3 Q ds (each f ds sts cs).1 (each f ds sts cs).2.
Proof.
  intros Hf. induction 1 as [|d st c ds sts cs Hp _ IH]; [constructor|]. simpl.
  specialize (Hf d st c Hp). destruct (f d st c) as [st' c'], (each f ds sts cs) as [sts' cs'].
  by constructor.
Qed.

Section lifecycle.
Context (deps : list Deployment).

(** What is known of one deployment after [hist], in the window [w]. *)
Record dep_ok (hist : list (Z * Z)) (w : Z) (d : Deployment) (st : DeploymentState) (count : Z) : Prop := {
  dep_count : 0 <= count <= signalled hist w (dep_bit d);
  dep_path : rtc dstep Defined st;
  dep_locked : st = LockedIn ∨ st = Active → ∃ w', SIGNAL_THRESHOLD <= signalled hist w' (dep_bit d);
}.

Record machine_ok (hist : list (Z * Z)) (s : VersionBitsState) : Prop := {
  mach_deps : Forall3 (dep_ok hist (window_start_blue s / SIGNAL_WINDOW)) deps (states s) (window_counts s);
  mach_window : ∀ bv, last hist = Some bv → bv.1 / SIGNAL_WINDOW = window_start_blue s / SIGNAL_WINDOW;
  mach_first : hist = [] → window_start_blue s = 0;
}.

Lemma dep_ok_close hist w w' blue d st c :
  dep_ok hist w d st c → dep_ok hist w' d (close_window blue d st c) 0.
Proof.
  intros [Hc Hp Hl]. split.
  - unfold signalled, len. lia.
  - unfold close_window. destruct st; try done.
    + destruct (_ <=? c); [eapply rtc_r; [done|constructor]|].
      destruct (_ <=? blue); [eapply rtc_r; [done|constructor]|done].
    + eapply rtc_r; [done|constructor].
  - unfold close_window. destruct st; intros [Heq|Heq]; try done; try (by apply Hl; auto).
    + destruct (Z.leb_spec SIGNAL_THRESHOLD c); [exists w; lia|by destruct (_ <=? blue)].
    + destruct (_ <=? c); [done|by destruct (_ <=? blue)].
Qed.

Lemma signalled_mono hist w bit bv : signalled hist w bit <= signalled (hist ++ [bv]) w bit.
Proof. destruct bv as [b v]. rewrite signalled_snoc. destruct (_ && _); lia. Qed.

Lemma dep_ok_track hist blue version d st c :
  len hist < U64_MAX → dep_ok hist (blue / SIGNAL_WINDOW) d st c →
  let '(st', c') := track blue version d st c in
  dep_ok (hist ++ [(blue, version)]) (blue / SIGNAL_WINDOW) d st' c'.
Proof.
  intros Hlen [Hc Hp Hl]. unfold track.
  set (st1 := if bool_decide (st = Defined) && (start_blue d <=? blue) then Started else st).
  assert (rtc dstep Defined st1 ∧ (st1 = LockedIn ∨ st1 = Active → st = LockedIn ∨ st = Active)) as [Hp1 Hl1].
  { unfold st1. destruct (bool_decide_reflect (st = Defined)) as [->|]; [|done].
    destruct (_ <=? blue); simpl; [|done]. split; [|by intros [?|?]]. eapply rtc_r; [done|constructor]. }
  clearbody st1.
  assert (signalled hist (blue / SIGNAL_WINDOW) (dep_bit d) <= len hist) as Hle.
  { unfold signalled, len. apply inj_le. apply filter_length_le. }
  split.
  - rewrite signalled_snoc, Z.eqb_refl. simpl.
    destruct (_ || _); simpl; [|destruct (signals _ _); lia].
    destruct (signals version (dep_bit d)); [|lia]. rewrite sat_add_exact by lia. lia.
  - destruct (bool_decide_reflect (st1 = Started)) as [->|]; [|done]. simpl.
    destruct (_ <=? blue); [|done]. eapply rtc_r; [done|constructor].
  - intros Hst. destruct Hl as [w' Hw']; [|exists w'; etrans; [exact Hw'|apply signalled_mono]].
    apply Hl1. destruct (bool_decide _ && _); [|done]. by destruct Hst.
Qed.

Lemma observe_ok hist s blue version :
  machine_ok hist s → (∀ bv, last hist = Some bv → bv.1 <= blue) → is_u64 blue → len hist < U64_MAX →
  machine_ok (hist ++ [(blue, version)]) (observe deps s blue version).
Proof.
  intros [Hd Hw Hf] Hmono [Hb0 Hb] Hlen. unfold observe.
  set (s1 := if bool_decide (states s = []) then _ else s).
  assert (states s1 = states s ∧ window_counts s1 = window_counts s ∧
          (window_start_blue s1 = window_start_blue s ∨ (deps = [] ∧ window_start_blue s1 = 0))) as (Hs1 & Hc1 & Hw1).
  { unfold s1. destruct (bool_decide_reflect (states s = [])) as [He|]; [|auto].
    rewrite He in Hd |- *. inversion Hd; subst. simpl. auto. }
  set (W := blue / SIGNAL_WINDOW). set (cur := window_start_blue s1 / SIGNAL_WINDOW).
  assert (Forall3 (dep_ok hist cur) deps (states s1) (window_counts s1)) as Hd1.
  { rewrite Hs1, Hc1. unfold cur. destruct Hw1 as [->|[He _]]; [done|].
    rewrite He in Hd |- *. inversion Hd; subst. constructor. }
  assert (cur <= W) as Hcur.
  { unfold cur, W. destruct Hw1 as [->|[_ ->]]; [|by apply Z.div_pos].
    destruct (last hist) as [bv|] eqn:Hlast.
    - rewrite <- (Hw bv eq_refl). apply Z.div_le_mono; [done|]. by apply Hmono.
    - apply last_None in Hlast. rewrite (Hf Hlast). by apply Z.div_pos. }
  set (s2 := if cur <? W then _ else s1).
  assert (window_start_blue s2 / SIGNAL_WINDOW = W ∧
          Forall3 (dep_ok hist W) deps (states s2) (window_counts s2)) as [Hw2 Hd2].
  { unfold s2. destruct (Z.ltb_spec cur W) as [Hlt|Hge].
    - pose proof (each_Forall3 _ (dep_ok hist W) (λ d st c, (close_window blue d st c, 0)) _ _ _
        (λ d st c H, dep_ok_close hist cur W blue d st c H) Hd1) as He.
      destruct (each _ _ _ _) as [sts cs]. cbn [states window_counts window_start_blue fst snd] in *.
      split; [|done]. pose proof (Z.mul_div_le blue SIGNAL_WINDOW ltac:(done)) as Hle. fold W in Hle.
      assert (0 <= W) by by apply Z.div_pos. unfold SIGNAL_WINDOW in *.
      rewrite wrap_small; [by apply Z.div_mul|]. unfold in_width. lia.
    - assert (W = cur) as -> by lia. done. }
  clearbody s2. pose proof (each_Forall3 _ (dep_ok (hist ++ [(blue, version)]) W) (track blue version) _ _ _
    (λ d st c H, ltac:(pose proof (dep_ok_track hist blue version d st c Hlen H) as Ht;
       destruct (track blue version d st c); exact Ht)) Hd2) as He.
  destruct (each (track blue version) deps (states s2) (window_counts s2)) as [sts cs].
  split; cbn [states window_counts window_start_blue fst snd] in *.
  - by rewrite Hw2.
  - rewrite last_snoc. intros bv [= <-]. by rewrite Hw2.
  - intros Hnil. by destruct hist.
Qed.

Lemma observe_all_ok hist :
  Sorted (λ a b : Z * Z, a.1 <= b.1) hist → Forall (λ bv, is_u64 bv.1) hist → len hist <= U64_MAX →
  machine_ok hist (observe_all deps hist).
Proof.
  induction hist as [|[b v] hist IH] using rev_ind; intros Hs Hb Hlen.
  - split; [|done..]. simpl. clear. induction deps as [|d ds IH]; constructor; [|done].
    split; [done|done|by intros [?|?]].
  - unfold observe_all. rewrite foldl_app. simpl. apply Forall_app in Hb as [Hb Hbv].
    rewrite Forall_singleton in Hbv. unfold len in *. rewrite length_app in Hlen. simpl in Hlen.
    apply Sorted_StronglySorted in Hs; [|intros ???; lia].
    apply observe_ok; [apply IH; [|done|lia]| |exact Hbv|unfold len; lia].
    + apply StronglySorted_Sorted. by apply StronglySorted_app_1_l in Hs.
    + intros bv Hlast. apply (StronglySorted_app_1_elem_of _ _ _ bv (b, v) Hs); [|set_solver].
      by apply last_Some_elem_of.
Qed.
End lifecycle.

(** The life of a deployment, for any table and any selected chain of
    non-decreasing blue scores: its state is reached from [Defined] by the moves
    start, lock in, time out and activate only; and when it is locked in or active,
    some signalling window of the chain really holds at least 750 blocks that
    signalled its bit. *)
Theorem lock_in_needs_threshold deps hist i d st :
  Sorted (λ a b : Z * Z, a.1 <= b.1) hist → Forall (λ bv, is_u64 bv.1) hist → len hist <= U64_MAX →
  deps !! i = Some d → states (observe_all deps hist) !! i = Some st →
  rtc dstep Defined st ∧
  (st = LockedIn ∨ st = Active → ∃ w, SIGNAL_THRESHOLD <= signalled hist w (dep_bit d)).
Proof.
  intros Hs Hb Hlen Hd Hst. destruct (observe_all_ok deps hist Hs Hb Hlen) as [Hall _ _].
  destruct (Forall3_lookup_l _ _ _ _ i d Hall Hd) as (st' & c & Hst' & _ & [_ Hp Hl]).
  rewrite Hst in Hst'. injection Hst' as <-. done.
Qed.

(** ** A concrete deployment *)
Module VersionExample.
Definition dep : Deployment := {| dep_name := "demo"; dep_bit := 3; start_blue := 0; timeout_blue := 5000 |}.
(** 800 signalling blocks in the first window, then one block in each of the next two. *)
Definition hist : list (Z * Z) := ((λ b, (b, miner_version [3])) <$> seqZ 1 800) ++ [(1000, 0); (2000, 0)].
Lemma hist_sorted : Sorted (λ a b : Z * Z, a.1 <= b.1) hist.
Proof. apply (bool_decide_unpack _). vm_compute. exact I. Qed.
Lemma hist_u64 : Forall (λ bv : Z * Z, is_u64 bv.1) hist.
Proof. apply (bool_decide_unpack _). vm_compute. exact I. Qed.
End VersionExample.

Lemma signals_miner_version_witness : signals (miner_version [3; 11]) 3 = true.
Proof. rewrite (signals_miner_version [3; 11] 3); [reflexivity|repeat constructor; lia|lia]. Defined.

Lemma lock_in_needs_threshold_witness :
  states (observe_all [VersionExample.dep] VersionExample.hist) !! 0%nat = Some Active ∧
  ∃ w, SIGNAL_THRESHOLD <= signalled VersionExample.hist w 3.
Proof.
  assert (states (observe_all [VersionExample.dep] VersionExample.hist) !! 0%nat = Some Active) as Ha
    by (vm_compute; reflexivity).
  split; [exact Ha|].
  exact (proj2 (lock_in_needs_threshold [VersionExample.dep] VersionExample.hist 0 VersionExample.dep Active
    VersionExample.hist_sorted VersionExample.hist_u64 ltac:(vm_compute; discriminate) eq_refl Ha)
    (or_intror eq_refl)).
Defined.
