(* ===== verification/Superproof.v ===== *)
(** * Header chains: pruning proofs, interlinks and superproofs

    [genesis_block] and the linear pruning proof of [src/src/lib.rs], and the
    multi-level proof of [src/src/superproof.rs]: interlink vectors, the greedy
    builder, the structural checks, the verifier, and the freshness gate.

    The theorems: interlinks point at the nearest ancestor of each level; an accepted
    proof (of either kind) is a genesis-anchored, linked chain of distinct headers
    each with real work, and the work it reports is the exact sum of the difficulties
    of the headers it ships; the builder terminates on every honest chain and its
    hops are linked down to genesis. *)

From S2P Require Import Prelude Genesis Crypto Address Predicate Utxo UtxoTx Registry Custody Block VersionBits.

Definition MAX_LEVEL : Z := 63.
Definition MAX_MULTILEVEL_HOPS : Z := 512.
Definition MAX_MULTILEVEL_RECENT : Z := 8192.
Definition MAX_MULTILEVEL_HEADERS : Z := MAX_MULTILEVEL_HOPS + MAX_MULTILEVEL_RECENT.
Definition MAX_PRUNING_PROOF_HEADERS : Z := 1000000.

(** [genesis_block]. *)
Definition genesis_block : Block :=
  {| blk_height := 0; blk_timestamp := GENESIS_TIMESTAMP_MS; blk_parents := []; blk_interlinks := [];
     blk_transparent_txs := []; blk_utxo_txs := []; blk_registry_ops := []; blk_custody_ops := [];
     blk_merkle_root := HASH_ZERO; blk_state_root := HASH_ZERO; blk_miner := HASH_ZERO;
     blk_creator_pubkey := []; blk_nonce := 0; blk_difficulty := GENESIS_DIFFICULTY;
     blk_version := default_block_version; blk_coinbase_entropy := 0;
     blk_stark_proof := replicate 64 0; blk_birth_certificate := []; blk_size := 0 |}.

(** [superblock_level]: [BigUint::bits] of a positive number is [log2 + 1]. *)
Definition superblock_level (hash : Hash) (difficulty : Z) : Z :=
  if hash =? 0 then MAX_LEVEL else
  let achieved := MAX_TARGET / hash in
  let required := Z.max difficulty 1 in
  if achieved <=? required then 0 else
  let ratio := achieved / required in
  Z.min (sat_sub (Z.log2 ratio + 1) 1) MAX_LEVEL.

(** A header of a list; only applied within range. *)
Definition header_at (hs : list Block) (i : Z) : Block := default genesis_block (hs !! Z.to_nat i).

Record PruningProofSummary := {
  ps_pruning_point : Hash;
  ps_cumulative_work : Z;
  ps_header_count : Z;
}.

Record MultiLevelPruningProof := {
  recent_headers : list Block;
  hops : list Block;
  claimed_verified_work : option Z;
}.
(** [MultiLevelPruningProof::headers_genesis_first]. *)
Definition headers_genesis_first (p : MultiLevelPruningProof) : list Block := rev (hops p) ++ recent_headers p.

Record MultiLevelProofSummary := {
  ms_pruning_point : Hash;
  ms_verified_work : Z;
  ms_estimated_total_work : Z;
  ms_header_count : Z;
}.

Record IbdFreshnessContext := {
  ctx_now_ms : Z;
  local_best_work : Z;
  local_tip_height : Z;
  local_tip_timestamp : Z;
  local_past_genesis : bool;
}.

Section headers.
Context `{!Crypto}.
Context (lab_easy : bool).

Definition genesis_hash : Hash := block_hash genesis_block.

(** ** Interlinks *)

Definition block_level (b : Block) : Z := superblock_level (block_hash b) (blk_difficulty b).

(** [compute_interlinks]. *)
Definition compute_interlinks (parent : Block) : list Hash :=
  let parent_hash := block_hash parent in
  let parent_level := Z.to_nat (block_level parent) in
  let n := Nat.max (length (blk_interlinks parent)) (parent_level + 1) in
  (λ i, if (i <=? parent_level)%nat then parent_hash else default 0 (blk_interlinks parent !! i)) <$> seq 0 n.

(** ** The linear proof *)

(** [expected_difficulty_linear]. *)
Definition expected_difficulty_linear (headers : list Block) (i : Z) : Z :=
  let simulated_minted := cumulative_issuance i in
  let floor := era_min_difficulty lab_easy simulated_minted (blk_timestamp (header_at headers i)) in
  let sp_difficulty := Z.max (blk_difficulty (header_at headers (i - 1))) floor in
  if i <? DAA_WINDOW then Z.max sp_difficulty floor else
  let newest := blk_timestamp (header_at headers (i - 1)) in
  let oldest := blk_timestamp (header_at headers (i - DAA_WINDOW)) in
  Z.max (retarget_difficulty sp_difficulty newest oldest floor) floor.

(** The loop body of [verify_pruning_proof]. *)
Definition linear_step (now : Z) (h : list Block) (cumulative_work : Z) (i : Z) : result Z :=
  let cur := header_at h i in
  let prev := header_at h (i - 1) in
  fail_if negb (bool_decide (block_hash prev ∈ blk_parents cur))
    as ("broken chain linkage at header " +:+ pretty i);
  fail_if negb (blk_difficulty cur =? expected_difficulty_linear h i)
    as ("header " +:+ pretty i +:+ " claims a non-DAA difficulty");
  fail_if negb (verify_pow (block_hash cur) (blk_difficulty cur))
    as ("header " +:+ pretty i +:+ " fails its proof-of-work");
  fail_if blk_timestamp cur <? blk_timestamp prev
    as ("header " +:+ pretty i +:+ " timestamp predates its parent");
  fail_if sat_add 64 now MAX_FUTURE_DRIFT_MS <? blk_timestamp cur
    as ("header " +:+ pretty i +:+ " timestamp is too far in the future");
  Ok (sat_add 128 cumulative_work (blk_difficulty cur)).

(** [verify_pruning_proof]. *)
Definition verify_pruning_proof (now : Z) (h : list Block) : result PruningProofSummary :=
  fail_if len h =? 0 as "empty pruning proof";
  fail_if MAX_PRUNING_PROOF_HEADERS <? len h as "pruning proof exceeds the header limit";
  fail_if negb (block_hash (header_at h 0) =? genesis_hash) as "pruning proof does not start at genesis";
  fail_if negb (bool_decide (blk_parents (header_at h 0) = [])) as "genesis header must have no parents";
  work ← try_fold (linear_step now h) (blk_difficulty (header_at h 0)) (seqZ 1 (len h - 1));
  Ok {| ps_pruning_point := block_hash (header_at h (len h - 1)); ps_cumulative_work := work;
        ps_header_count := len h |}.

(** ** Building the multi-level proof *)

(** The loop of [build_multilevel_pruning_proof]: [hops] in the order pushed.  A run
    that would not stop is out of fuel, which is not a result of the source. *)
Inductive build_outcome := Built (hops : list Block) | Missing | Looping.

Fixpoint hop_walk (fuel : nat) (chain : list Block) (split : nat) (cursor : Block) (acc : list Block)
    : build_outcome :=
  match fuel with
  | O => Looping
  | S fuel =>
      let is_genesis := (block_hash cursor =? genesis_hash) && bool_decide (blk_parents cursor = []) in
      let acc := acc ++ [cursor] in
      if is_genesis then Built acc else
      let next := match last (blk_interlinks cursor) with
                  | None =>
                      find (λ b, bool_decide (block_hash b ∈ blk_parents cursor) &&
                                 negb (block_hash b =? block_hash cursor)) (rev (take split chain))
                  | Some target_hash => find (λ b, block_hash b =? target_hash) chain
                  end in
      match next with
      | Some b => hop_walk fuel chain split (header_only b) acc
      | None => Missing
      end
  end.

(** [build_multilevel_pruning_proof]. *)
Definition build_multilevel_pruning_proof (fuel : nat) (chain : list Block) (recent_window : Z)
    : option MultiLevelPruningProof :=
  if bool_decide (chain = []) then None else
  let split := Z.to_nat (sat_sub (len chain) (Z.max recent_window 1)) in
  if bool_decide (split = 0%nat) then None else
  let recent := header_only <$> drop split chain in
  match hop_walk fuel chain split (header_only (header_at chain (Z.of_nat split - 1))) [] with
  | Built hs => Some {| recent_headers := recent; hops := hs; claimed_verified_work := None |}
  | _ => None
  end.

(** ** Structural checks *)

(** The hop loop of [validate_multilevel_proof_structure]; [i + 1 == len] is "no
    further hop". *)
Fixpoint check_hops (i : Z) (seen : gset Hash) (hs : list Block) : result (gset Hash) :=
  match hs with
  | [] => Ok seen
  | hop :: rest =>
      let h := block_hash hop in
      fail_if bool_decide (h ∈ seen) as ("duplicate hop at index " +:+ pretty i);
      let seen := {[h]} ∪ seen in
      let floor := era_min_difficulty lab_easy 0 (blk_timestamp hop) in
      fail_if negb (bool_decide (rest = [])) && (blk_difficulty hop <? floor)
        as ("hop " +:+ pretty i +:+ " difficulty below minimum");
      match rest with
      | older :: _ =>
          fail_if blk_height hop <=? blk_height older
            as ("hop chain height out of order at index " +:+ pretty i);
          fail_if blk_timestamp hop <? blk_timestamp older
            as ("hop " +:+ pretty i +:+ " timestamp predates its ancestor");
          check_hops (i + 1) seen rest
      | [] => Ok seen
      end
  end.

(** The recent-window loop: [prev] is [r[i - 1]], absent for the first header. *)
Fixpoint check_recent (boundary : Block) (seen_hops : gset Hash) (i : Z) (prev : option Block)
    (seen_recent : gset Hash) (r : list Block) : result unit :=
  match r with
  | [] => Ok ()
  | cur :: r =>
      let h := block_hash cur in
      fail_if bool_decide (h ∈ seen_hops) || bool_decide (h ∈ seen_recent)
        as ("duplicate header in recent window at index " +:+ pretty i);
      let floor := era_min_difficulty lab_easy 0 (blk_timestamp cur) in
      fail_if blk_difficulty cur <? floor
        as ("recent header " +:+ pretty i +:+ " difficulty below minimum");
      let expected_height := sat_add 64 (sat_add 64 (blk_height boundary) 1) i in
      fail_if negb (blk_height cur =? expected_height)
        as ("recent header " +:+ pretty i +:+ " height " +:+ pretty (blk_height cur) +:+
            " != expected contiguous height " +:+ pretty expected_height);
      _ ← match prev with
          | Some p =>
              fail_if negb (bool_decide (block_hash p ∈ blk_parents cur))
                as ("broken chain linkage at recent header " +:+ pretty i);
              fail_if blk_timestamp cur <? blk_timestamp p
                as ("recent header " +:+ pretty i +:+ " timestamp predates its parent");
              Ok ()
          | None =>
              fail_if blk_timestamp cur <? blk_timestamp boundary
                as "recent header 0 timestamp predates the hop boundary";
              Ok ()
          end;
      check_recent boundary seen_hops (i + 1) (Some cur) ({[h]} ∪ seen_recent) r
  end.

(** [validate_multilevel_proof_structure]. *)
Definition validate_multilevel_proof_structure (p : MultiLevelPruningProof) : result unit :=
  fail_if len (recent_headers p) =? 0 as "empty recent-headers window";
  fail_if len (hops p) =? 0 as "empty hop chain";
  fail_if MAX_MULTILEVEL_HOPS <? len (hops p) as "hop chain exceeds the hop limit";
  fail_if MAX_MULTILEVEL_RECENT <? len (recent_headers p) as "recent window exceeds the size limit";
  fail_if MAX_MULTILEVEL_HEADERS <? len (hops p) + len (recent_headers p)
    as "multi-level proof exceeds the header limit";
  let last_hop := header_at (hops p) (len (hops p) - 1) in
  fail_if negb (block_hash last_hop =? genesis_hash) || negb (bool_decide (blk_parents last_hop = []))
    as "hop chain does not terminate at genesis";
  fail_if negb (blk_height last_hop =? 0) as "genesis hop must claim height 0";
  seen_hops ← check_hops 0 ∅ (hops p);
  let boundary := header_at (hops p) 0 in
  fail_if negb (bool_decide (block_hash boundary ∈ blk_parents (header_at (recent_headers p) 0)))
    as "recent window does not chain from the hop boundary";
  check_recent boundary seen_hops 0 None ∅ (recent_headers p).

(** ** Verification *)

(** [1u128.checked_shl(level).unwrap_or(u128::MAX)]. *)
Definition shl_one (level : Z) : Z := if level <? 128 then wrap 128 (Z.shiftl 1 level) else U128_MAX.

(** [position]. *)
Definition position (h : Hash) (l : list Hash) : option Z :=
  (λ ix, Z.of_nat ix.1) <$> list_find (λ x, x = h) l.

(** One hop, from the oldest up: work so far is [(verified, estimated)]. *)
Definition hop_step (hs : list Block) (w : Z * Z) (i : Z) : result (Z * Z) :=
  let cur := header_at hs i in
  let older := header_at hs (i + 1) in
  fail_if negb (verify_pow (block_hash cur) (blk_difficulty cur))
    as ("hop " +:+ pretty i +:+ " fails its proof-of-work");
  let simulated_minted := cumulative_issuance (blk_height cur) in
  let floor := era_min_difficulty lab_easy simulated_minted (blk_timestamp cur) in
  fail_if blk_difficulty cur <? floor
    as ("hop " +:+ pretty i +:+ " claims difficulty " +:+ pretty (blk_difficulty cur) +:+
        " below its era floor " +:+ pretty floor);
  let gap := sat_sub (blk_height cur) (blk_height older) in
  let '(lo, hi) := hop_difficulty_bounds (blk_difficulty older) gap floor in
  fail_if (blk_difficulty cur <? lo) || (hi <? blk_difficulty cur)
    as ("hop " +:+ pretty i +:+ " difficulty " +:+ pretty (blk_difficulty cur) +:+
        " outside DAA clamp anchor [" +:+ pretty lo +:+ ", " +:+ pretty hi +:+ "] vs older hop");
  let via_interlink := bool_decide (block_hash older ∈ blk_interlinks cur) in
  let via_parent := bool_decide (block_hash older ∈ blk_parents cur) in
  fail_if negb via_interlink && negb via_parent
    as ("hop " +:+ pretty (i + 1) +:+ " is not a legitimate ancestor of hop " +:+ pretty i +:+
        " (no matching interlink or parent)");
  let verified := sat_add 128 w.1 (blk_difficulty cur) in
  let estimated :=
    if via_interlink then
      let level := default 0 (position (block_hash older) (blk_interlinks cur)) in
      sat_add 128 w.2 (sat_mul 128 (blk_difficulty cur) (shl_one level))
    else sat_add 128 w.2 (blk_difficulty cur) in
  Ok (verified, estimated).

(** One header of the recent window. *)
Definition recent_step (now : Z) (boundary : Block) (r : list Block) (w : Z * Z) (i : Z) : result (Z * Z) :=
  let cur := header_at r i in
  let simulated_minted := cumulative_issuance (blk_height cur) in
  let floor := era_min_difficulty lab_easy simulated_minted (blk_timestamp cur) in
  _ ← (if i <? DAA_WINDOW then
         let gap := sat_sub (blk_height cur) (blk_height boundary) in
         let '(lo, hi) := hop_difficulty_bounds (Z.max (blk_difficulty boundary) floor) gap floor in
         fail_if (blk_difficulty cur <? lo) || (hi <? blk_difficulty cur)
           as ("recent header " +:+ pretty i +:+ " difficulty " +:+ pretty (blk_difficulty cur) +:+
               " outside boundary DAA clamp [" +:+ pretty lo +:+ ", " +:+ pretty hi +:+ "]");
         Ok ()
       else
         let sp_difficulty := Z.max (blk_difficulty (header_at r (i - 1))) floor in
         let newest := blk_timestamp (header_at r (i - 1)) in
         let oldest := blk_timestamp (header_at r (i - DAA_WINDOW)) in
         let expected := Z.max (retarget_difficulty sp_difficulty newest oldest floor) floor in
         fail_if negb (blk_difficulty cur =? expected)
           as ("recent header " +:+ pretty i +:+ " claims a non-DAA difficulty");
         Ok ());
  fail_if negb (verify_pow (block_hash cur) (blk_difficulty cur))
    as ("recent header " +:+ pretty i +:+ " fails its proof-of-work");
  fail_if sat_add 64 now MAX_FUTURE_DRIFT_MS <? blk_timestamp cur
    as ("recent header " +:+ pretty i +:+ " timestamp is too far in the future");
  Ok (sat_add 128 w.1 (blk_difficulty cur), sat_add 128 w.2 (blk_difficulty cur)).

(** [verify_multilevel_pruning_proof]. *)
Definition verify_multilevel_pruning_proof (now : Z) (p : MultiLevelPruningProof) : result MultiLevelProofSummary :=
  _ ← validate_multilevel_proof_structure p;
  let hs := hops p in
  let r := recent_headers p in
  let genesis := header_at hs (len hs - 1) in
  fail_if negb (verify_pow (block_hash genesis) (blk_difficulty genesis))
    as "genesis hop fails its proof-of-work";
  let w := (sat_add 128 0 (blk_difficulty genesis), sat_add 128 0 (blk_difficulty genesis)) in
  w ← try_fold (hop_step hs) w (rev (seqZ 0 (sat_sub (len hs) 1)));
  w ← try_fold (recent_step now (header_at hs 0) r) w (seqZ 0 (len r));
  let verified_work := w.1 in
  let header_work_sum := wrap 128 (zsum (blk_difficulty <$> hs ++ r)) in
  fail_if negb (verified_work =? header_work_sum) as "verified_work inconsistent with included headers";
  fail_if match claimed_verified_work p with Some claimed => header_work_sum <? claimed | None => false end
    as "claimed verified_work exceeds sum of included headers";
  let tip_height := blk_height (header_at r (len r - 1)) in
  let min_included_work := wrap 128 (zsum ((λ b, if bool_decide (blk_parents b = []) then GENESIS_DIFFICULTY
                                                 else effective_min_difficulty lab_easy) <$> hs ++ r)) in
  fail_if (0 <? tip_height) && (verified_work <? min_included_work)
    as "suspiciously low verified_work for included headers";
  Ok {| ms_pruning_point := block_hash (header_at r (len r - 1)); ms_verified_work := verified_work;
        ms_estimated_total_work := w.2; ms_header_count := len hs + len r |}.

(** [pruning_proof_max_staleness_ms], [check_ibd_proof_freshness]. *)
Definition pruning_proof_max_staleness_ms : Z := sat_mul 64 FINALITY_DEPTH BLOCK_TIME_MS.
Definition check_ibd_proof_freshness (proof_genesis : Hash) (tip_height tip_timestamp verified_work : Z)
    (ctx : IbdFreshnessContext) : result unit :=
  fail_if negb (proof_genesis =? genesis_hash)
    as "pruning proof genesis does not match local genesis (upgrade gate)";
  fail_if sat_add 64 (ctx_now_ms ctx) MAX_FUTURE_DRIFT_MS <? tip_timestamp
    as "pruning proof tip too far in the future";
  fail_if (0 <? local_best_work ctx) && (verified_work <=? local_best_work ctx)
    as "pruning proof verified_work does not beat local best";
  if local_past_genesis ctx then
    let stale_ms := pruning_proof_max_staleness_ms in
    let height_slack := FINALITY_DEPTH / 2 in
    fail_if (sat_add 64 tip_timestamp stale_ms <? local_tip_timestamp ctx) &&
            (sat_add 64 tip_height height_slack <? local_tip_height ctx)
      as "stale pruning proof (tip far behind local chain)";
    Ok ()
  else Ok ().

(** [adopt_multilevel_pruning_proof], [adopt_multilevel_pruning_proof_fresh]. *)
Definition adopt_multilevel_pruning_proof {T} (now : Z) (p : MultiLevelPruningProof)
    (adopt : MultiLevelProofSummary → T) : result T :=
  summary ← verify_multilevel_pruning_proof now p; Ok (adopt summary).
Definition adopt_multilevel_pruning_proof_fresh {T} (now : Z) (p : MultiLevelPruningProof)
    (ctx : IbdFreshnessContext) (adopt : MultiLevelProofSummary → T) : result T :=
  summary ← verify_multilevel_pruning_proof now p;
  tip ← ok_or (last (recent_headers p)) "empty recent window";
  let genesis := from_option block_hash genesis_hash (last (hops p)) in
  _ ← check_ibd_proof_freshness genesis (blk_height tip) (blk_timestamp tip) (ms_verified_work summary) ctx;
  Ok (adopt summary).
End headers.

(** ** Header lists *)

Lemma header_at_lookup hs i b : hs !! i = Some b → header_at hs (Z.of_nat i) = b.
Proof. intros Hb. unfold header_at. by rewrite Nat2Z.id, Hb. Qed.

Lemma header_at_seqZ hs : header_at hs <$> seqZ 0 (len hs) = hs.
Proof.
  apply list_eq. intros i. rewrite list_lookup_fmap. unfold len.
  destruct (hs !! i) as [b|] eqn:Hb.
  - pose proof (lookup_lt_Some _ _ _ Hb). rewrite (lookup_seqZ_lt 0) by lia. simpl. f_equal.
    by apply header_at_lookup.
  - apply lookup_ge_None in Hb. by rewrite (lookup_seqZ_ge 0) by lia.
Qed.

(** The loops run over all the headers but one: the anchor at either end. *)
Lemma zsum_headers_tail (f : Block → Z) hs :
  hs ≠ [] → zsum (f <$> hs) = f (header_at hs 0) + zsum ((f ∘ header_at hs) <$> seqZ 1 (len hs - 1)).
Proof.
  intros Hne. rewrite <- (header_at_seqZ hs) at 1. assert (0 < len hs) by (unfold len; destruct hs; [done|simpl; lia]).
  rewrite (seqZ_cons 0) by lia. rewrite !fmap_cons, zsum_cons, <- list_fmap_compose.
  by replace (Z.pred (len hs)) with (len hs - 1) by lia.
Qed.

Lemma zsum_headers_init (f : Block → Z) hs :
  hs ≠ [] →
  zsum (f <$> hs) = f (header_at hs (len hs - 1)) + zsum ((f ∘ header_at hs) <$> seqZ 0 (len hs - 1)).
Proof.
  intros Hne. rewrite <- (header_at_seqZ hs) at 1. assert (0 < len hs) by (unfold len; destruct hs; [done|simpl; lia]).
  replace (seqZ 0 (len hs)) with (seqZ 0 (len hs - 1) ++ [len hs - 1]).
  - rewrite !fmap_app, zsum_app, <- list_fmap_compose. simpl. lia.
  - replace (len hs) with ((len hs - 1) + 1) at 3 by lia. rewrite (seqZ_app 0 (len hs - 1) 1) by lia. done.
Qed.

Lemma elem_of_headers hs i : 0 <= i < len hs → header_at hs i ∈ hs.
Proof.
  intros Hi. unfold header_at, len in *. destruct (lookup_lt_is_Some_2 hs (Z.to_nat i) ltac:(lia)) as [b Hb].
  rewrite Hb. by eapply list_elem_of_lookup_2.
Qed.

Lemma Forall_headers (P : Block → Prop) hs i : Forall P hs → 0 <= i < len hs → P (header_at hs i).
Proof. intros HP Hi. rewrite Forall_forall in HP. apply HP. by apply elem_of_headers. Qed.

(** The difficulties of a bounded list of headers add up without overflow. *)
Lemma zsum_difficulties hs n :
  Forall (λ b, is_u64 (blk_difficulty b)) hs → len hs <= n → n <= 2 ^ 63 →
  0 <= zsum (blk_difficulty <$> hs) <= U128_MAX.
Proof.
  intros Hd Hn Hmax. split.
  - apply zsum_nonneg, Forall_fmap. eapply Forall_impl; [exact Hd|]. intros b [? _]. done.
  - assert (zsum (blk_difficulty <$> hs) <= U64_MAX * len (blk_difficulty <$> hs)) as Hle.
    { apply zsum_le_bound, Forall_fmap. eapply Forall_impl; [exact Hd|]. intros b [_ ?]. done. }
    unfold len in *. rewrite length_fmap in Hle. etrans; [exact Hle|].
    change U64_MAX with (2 ^ 64 - 1) in *. change U128_MAX with (2 ^ 128 - 1). nia.
Qed.

Section headers_thms.
Context `{!Crypto}.
Context (lab_easy : bool).

(** ** Interlinks *)

Lemma block_level_nonneg b : 0 <= block_level b.
Proof.
  unfold block_level, superblock_level. destruct (_ =? 0); [done|]. destruct (_ <=? _); [done|].
  unfold sat_sub, MAX_LEVEL. lia.
Qed.

Lemma compute_interlinks_lookup p L :
  compute_interlinks p !! L =
  if Z.of_nat L <=? block_level p then Some (block_hash p) else blk_interlinks p !! L.
Proof.
  unfold compute_interlinks. rewrite list_lookup_fmap. pose proof (block_level_nonneg p).
  set (lvl := Z.to_nat (block_level p)). assert (Z.of_nat lvl = block_level p) as <- by (unfold lvl; lia).
  set (n := Nat.max _ _). destruct (decide (L < n)%nat) as [Hlt|Hge].
  - rewrite lookup_seq_lt by done. simpl. destruct (Nat.leb_spec L lvl), (Z.leb_spec (Z.of_nat L) (Z.of_nat lvl)); try lia; [done|].
    destruct (lookup_lt_is_Some_2 (blk_interlinks p) L) as [x Hx]; [unfold n in Hlt; lia|]. by rewrite Hx.
  - rewrite lookup_seq_ge by lia. destruct (Z.leb_spec (Z.of_nat L) (Z.of_nat lvl)); [unfold n in Hge; lia|].
    symmetry. apply lookup_ge_None_2. unfold n in Hge. lia.
Qed.

(** A chain of headers in which every block carries the interlinks its predecessor
    implies, as admission requires of the selected chain. *)
Definition interlinked (c : list Block) : Prop :=
  (∀ g, c !! 0%nat = Some g → blk_interlinks g = []) ∧
  (∀ i p b, c !! i = Some p → c !! S i = Some b → blk_interlinks b = compute_interlinks p).

Lemma interlinks_find c n b L :
  interlinked c → c !! n = Some b →
  blk_interlinks b !! L = block_hash <$> find (λ p, Z.of_nat L <=? block_level p) (rev (take n c)).
Proof.
  intros [H0 HS]. revert b. induction n as [|n IH]; intros b Hb.
  - by rewrite (H0 b Hb).
  - destruct (lookup_lt_is_Some_2 c n) as [p Hp]; [apply lookup_lt_Some in Hb; lia|].
    rewrite (HS n p b Hp Hb), compute_interlinks_lookup, (take_S_r _ _ _ Hp), rev_app_distr. simpl.
    destruct (_ <=? _); [done|]. by apply IH.
Qed.

(** What the interlink vector of a block means, as the module documentation
    states it: along a chain in which each block carries [compute_interlinks] of its
    predecessor, entry [L] is the hash of the nearest strict ancestor whose proof of
    work reached level [L], and there is no entry when no ancestor did. *)
Theorem interlinks_nearest c n b L :
  interlinked c → c !! n = Some b →
  match blk_interlinks b !! L with
  | Some h => ∃ j p, (j < n)%nat ∧ c !! j = Some p ∧ h = block_hash p ∧ Z.of_nat L <= block_level p ∧
      ∀ k q, (j < k < n)%nat → c !! k = Some q → block_level q < Z.of_nat L
  | None => ∀ k q, (k < n)%nat → c !! k = Some q → block_level q < Z.of_nat L
  end.
Proof.
  intros [H0 HS]. revert b. induction n as [|n IH]; intros b Hb.
  - rewrite (H0 b Hb). simpl. intros k q Hk. lia.
  - destruct (lookup_lt_is_Some_2 c n) as [p Hp]; [apply lookup_lt_Some in Hb; lia|].
    rewrite (HS n p b Hp Hb), compute_interlinks_lookup. destruct (Z.leb_spec (Z.of_nat L) (block_level p)).
    + exists n, p. split_and!; [lia|done..|]. intros k q Hk. lia.
    + specialize (IH p Hp). destruct (blk_interlinks p !! L) as [h|].
      * destruct IH as (j & p' & Hj & Hp' & -> & Hl & Hbetween). exists j, p'. split_and!; [lia|done..|].
        intros k q Hk Hq. destruct (decide (k = n)) as [->|]; [by simplify_eq|]. apply (Hbetween k); [lia|done].
      * intros k q Hk Hq. destruct (decide (k = n)) as [->|]; [by simplify_eq|]. apply (IH k); [lia|done].
Qed.

(** ** Soundness of the linear proof *)

Lemma linear_step_ok now h w i w' :
  linear_step lab_easy now h w i = Ok w' →
  (block_hash (header_at h (i - 1)) ∈ blk_parents (header_at h i) ∧
   blk_difficulty (header_at h i) = expected_difficulty_linear lab_easy h i ∧
   verify_pow (block_hash (header_at h i)) (blk_difficulty (header_at h i)) = true ∧
   blk_timestamp (header_at h (i - 1)) <= blk_timestamp (header_at h i) <= sat_add 64 now MAX_FUTURE_DRIFT_MS) ∧
  w' = sat_add 128 w (blk_difficulty (header_at h i)).
Proof. unfold linear_step. intros Hs. repeat (case_match; [done|]). zbool. injection Hs as <-. split_and!; done || lia. Qed.

(** Soundness of the linear pruning proof: an accepted list of headers starts at
    the genesis block; each further header names the previous one among its parents,
    claims exactly the difficulty the retarget demands there, meets that difficulty
    with its own hash, and has a timestamp between its predecessor's and the future
    bound; the pruning point is the last of them, and the work reported is the exact
    sum of their difficulties. *)
Theorem linear_proof_sound now h s :
  Forall (λ b, is_u64 (blk_difficulty b)) h →
  verify_pruning_proof lab_easy now h = Ok s →
  (∃ g, head h = Some g ∧ block_hash g = genesis_hash ∧ blk_parents g = []) ∧
  (∀ i prev cur, h !! i = Some prev → h !! S i = Some cur →
     block_hash prev ∈ blk_parents cur ∧
     blk_difficulty cur = expected_difficulty_linear lab_easy h (Z.of_nat (S i)) ∧
     verify_pow (block_hash cur) (blk_difficulty cur) = true ∧
     blk_timestamp prev <= blk_timestamp cur <= sat_add 64 now MAX_FUTURE_DRIFT_MS) ∧
  last (block_hash <$> h) = Some (ps_pruning_point s) ∧
  ps_cumulative_work s = zsum (blk_difficulty <$> h) ∧ ps_header_count s = len h.
Proof.
  intros Hd. unfold verify_pruning_proof.
  destruct (Z.eqb_spec (len h) 0) as [|Hne]; [done|].
  destruct (Z.ltb_spec MAX_PRUNING_PROOF_HEADERS (len h)) as [|Hmax]; [done|].
  destruct (negb _) eqn:Hg; [done|]. destruct (negb (bool_decide _)) eqn:Hp; [done|]. zbool.
  assert (h ≠ []) as Hnil by (intros ->; done).
  destruct (zsum_difficulties h _ Hd Hmax ltac:(done)) as [_ Hbound].
  rewrite (zsum_headers_tail blk_difficulty h Hnil) in Hbound |- *.
  destruct (try_fold _ _ _) as [work|] eqn:Hf; [|done]. intros [= <-]. cbn [ps_pruning_point ps_cumulative_work ps_header_count].
  apply (try_fold_sum _ id (blk_difficulty ∘ header_at h) _ _ _ _ (linear_step_ok now h)) in Hf as [HP Hw].
  2: { apply Forall_forall. intros i Hi%elem_of_seqZ. simpl.
       apply (Forall_headers _ h i Hd); lia. }
  2: { exact Hbound. }
  split_and!; [| | |done|done].
  - destruct h as [|g h]; [done|]. exists g. done.
  - intros i prev cur Hprev Hcur. pose proof (lookup_lt_Some _ _ _ Hcur).
    rewrite Forall_forall in HP. destruct (HP (Z.of_nat (S i))) as (H1 & H2 & H3 & H4).
    { apply elem_of_seqZ. unfold len. lia. }
    replace (Z.of_nat (S i) - 1) with (Z.of_nat i) in * by lia.
    rewrite (header_at_lookup _ _ _ Hprev), (header_at_lookup _ _ _ Hcur) in *. done.
  - rewrite last_lookup, length_fmap, list_lookup_fmap. unfold header_at, len.
    replace (Z.to_nat (Z.of_nat (length h) - 1)) with (pred (length h)) by lia.
    destruct (lookup_lt_is_Some_2 h (pred (length h))) as [b Hb]; [unfold len in *; lia|]. by rewrite Hb.
Qed.

(** ** Soundness of the multi-level proof *)

Lemma check_hops_ok i seen hs seen' :
  check_hops lab_easy i seen hs = Ok seen' →
  NoDup (block_hash <$> hs) ∧ (∀ b, b ∈ hs → block_hash b ∉ seen) ∧
  seen' = list_to_set (block_hash <$> hs) ∪ seen ∧
  (∀ k newer older, hs !! k = Some newer → hs !! S k = Some older →
     blk_height older < blk_height newer ∧ blk_timestamp older <= blk_timestamp newer).
Proof.
  revert i seen. induction hs as [|hop rest IH]; intros i seen; cbn [check_hops].
  - intros [= <-]. split_and!; [constructor|set_solver|set_solver|done].
  - destruct (bool_decide_reflect (block_hash hop ∈ seen)) as [|Hnew]; [done|].
    destruct (negb _ && _); [done|]. destruct rest as [|older rest].
    + intros [= <-]. split_and!; [apply NoDup_singleton|set_solver|set_solver|]. by intros [|k].
    + destruct (Z.leb_spec (blk_height hop) (blk_height older)); [done|].
      destruct (Z.ltb_spec (blk_timestamp hop) (blk_timestamp older)); [done|]. intros Hc.
      destruct (IH _ _ Hc) as (Hnd & Hdisj & -> & Hadj). split_and!.
      * rewrite fmap_cons. apply NoDup_cons. split; [|done].
        intros (b & Heq & Hb)%list_elem_of_fmap. apply (Hdisj b Hb). set_solver.
      * intros b [->|Hb]%elem_of_cons; [done|]. specialize (Hdisj b Hb). set_solver.
      * rewrite fmap_cons, list_to_set_cons. set_solver.
      * intros [|k] newer old; [|apply Hadj]. by intros [= <-] [= <-].
Qed.

Lemma check_recent_ok boundary seen_hops i prev seen r :
  0 <= i → check_recent lab_easy boundary seen_hops i prev seen r = Ok () →
  NoDup (block_hash <$> r) ∧ (∀ b, b ∈ r → (block_hash b ∉ seen) ∧ block_hash b ∉ seen_hops) ∧
  (∀ k b, r !! k = Some b → blk_height b = sat_add 64 (sat_add 64 (blk_height boundary) 1) (i + Z.of_nat k)) ∧
  (∀ k older newer, (default boundary prev :: r) !! k = Some older → r !! k = Some newer →
     blk_timestamp older <= blk_timestamp newer ∧
     (k ≠ 0%nat ∨ prev ≠ None → block_hash older ∈ blk_parents newer)).
Proof.
  revert i prev seen. induction r as [|cur r IH]; intros i prev seen Hi; cbn [check_recent].
  - intros _. split_and!; [constructor|set_solver|done|]. by intros [|k].
  - destruct (_ || _) eqn:Hdup; [done|]. destruct (blk_difficulty cur <? _); [done|].
    destruct (negb (blk_height cur =? _)) eqn:Hh; [done|].
    destruct (match prev with Some p => _ | None => _ end) as [[]|] eqn:Hprev; [|done]. cbn [mbind result_bind].
    intros Hc. apply IH in Hc as (Hnd & Hdisj & Hheight & Hadj); [|lia]. zbool. split_and!.
    + rewrite fmap_cons. apply NoDup_cons. split; [|done].
      intros (b & Heq & Hb)%list_elem_of_fmap. apply (Hdisj b Hb). set_solver.
    + intros b [->|Hb]%elem_of_cons; [done|]. specialize (Hdisj b Hb). set_solver.
    + intros [|k] b; cbn [lookup list_lookup]; [intros [= <-]|intros Hb; rewrite (Hheight k b Hb)]; [by rewrite Z.add_0_r|].
      f_equal. lia.
    + intros [|k] older newer; cbn [lookup list_lookup].
      * intros [= <-] [= <-]. destruct prev as [p|]; cbn [default].
        -- destruct (negb _) eqn:Hl; [done|]. destruct (Z.ltb_spec (blk_timestamp cur) (blk_timestamp p)); [done|].
           zbool. unfold id. done.
        -- destruct (Z.ltb_spec (blk_timestamp cur) (blk_timestamp boundary)); [done|]. unfold id.
           split; [done|]. by intros [?|?].
      * intros Ho Hn. destruct (Hadj k older newer Ho Hn) as [Ht Hl]. split; [done|]. intros _. apply Hl. by right.
Qed.

Lemma hop_bounds_floor older gap floor : floor <= (hop_difficulty_bounds older gap floor).1.
Proof. unfold hop_difficulty_bounds. destruct (hop_bounds_loop _ _ _ _). simpl. lia. Qed.

(** The floor of a header at its own height. *)
Definition header_floor (b : Block) : Z :=
  era_min_difficulty lab_easy (cumulative_issuance (blk_height b)) (blk_timestamp b).

Lemma hop_step_ok hs w i w' :
  hop_step lab_easy hs w i = Ok w' →
  let cur := header_at hs i in
  (verify_pow (block_hash cur) (blk_difficulty cur) = true ∧ header_floor cur <= blk_difficulty cur ∧
   (block_hash (header_at hs (i + 1)) ∈ blk_interlinks cur ∨
    block_hash (header_at hs (i + 1)) ∈ blk_parents cur)) ∧
  w'.1 = sat_add 128 w.1 (blk_difficulty cur).
Proof.
  unfold hop_step. fold (header_floor (header_at hs i)). intros Hs.
  destruct (negb (verify_pow _ _)) eqn:Hp; [done|]. destruct (Z.ltb_spec (blk_difficulty (header_at hs i)) (header_floor (header_at hs i))); [done|].
  destruct (hop_difficulty_bounds _ _ _) as [lo hi]. destruct (_ || _); [done|].
  destruct (bool_decide_reflect (block_hash (header_at hs (i + 1)) ∈ blk_interlinks (header_at hs i)));
    destruct (bool_decide_reflect (block_hash (header_at hs (i + 1)) ∈ blk_parents (header_at hs i)));
    simpl in Hs; try done; injection Hs as <-; zbool; simpl; auto.
Qed.

Lemma recent_step_ok now boundary r w i w' :
  recent_step lab_easy now boundary r w i = Ok w' →
  let cur := header_at r i in
  (verify_pow (block_hash cur) (blk_difficulty cur) = true ∧ header_floor cur <= blk_difficulty cur ∧
   blk_timestamp cur <= sat_add 64 now MAX_FUTURE_DRIFT_MS) ∧
  w'.1 = sat_add 128 w.1 (blk_difficulty cur).
Proof.
  unfold recent_step. fold (header_floor (header_at r i)). set (cur := header_at r i). intros Hs.
  destruct (if i <? DAA_WINDOW then _ else _) as [[]|] eqn:Hd; [|done]. cbn [mbind result_bind] in Hs.
  destruct (negb (verify_pow _ _)) eqn:Hp; [done|].
  destruct (Z.ltb_spec (sat_add 64 now MAX_FUTURE_DRIFT_MS) (blk_timestamp cur)); [done|].
  injection Hs as <-. zbool. split; [|done]. split_and!; [done| |done].
  destruct (i <? DAA_WINDOW).
  - pose proof (hop_bounds_floor (Z.max (blk_difficulty boundary) (header_floor cur))
      (sat_sub (blk_height cur) (blk_height boundary)) (header_floor cur)) as Hf.
    destruct (hop_difficulty_bounds _ _ _) as [lo hi]. destruct (_ || _) eqn:Hr; [done|]. zbool. simpl in Hf. lia.
  - destruct (negb _) eqn:Hr; [done|]. zbool. rewrite Hr. lia.
Qed.

Lemma Forall_seqZ (P : Z → Prop) m n i : Forall P (seqZ m n) → m <= i < m + n → P i.
Proof. intros HP Hi. rewrite Forall_forall in HP. apply HP, elem_of_seqZ. lia. Qed.

(** What an accepted multi-level proof must look like. *)
Record multilevel_sound (now : Z) (p : MultiLevelPruningProof) (s : MultiLevelProofSummary) : Prop := {
  snd_genesis : ∃ g, last (hops p) = Some g ∧ block_hash g = genesis_hash ∧ blk_parents g = [] ∧
    blk_height g = 0 ∧ verify_pow (block_hash g) (blk_difficulty g) = true;
  snd_distinct : NoDup (block_hash <$> headers_genesis_first p);
  snd_hops i newer older : hops p !! i = Some newer → hops p !! S i = Some older →
    (block_hash older ∈ blk_interlinks newer ∨ block_hash older ∈ blk_parents newer) ∧
    verify_pow (block_hash newer) (blk_difficulty newer) = true ∧ header_floor newer <= blk_difficulty newer ∧
    blk_height older < blk_height newer ∧ blk_timestamp older <= blk_timestamp newer;
  snd_recent i boundary older newer : head (hops p) = Some boundary →
    (boundary :: recent_headers p) !! i = Some older → recent_headers p !! i = Some newer →
    block_hash older ∈ blk_parents newer ∧
    verify_pow (block_hash newer) (blk_difficulty newer) = true ∧ header_floor newer <= blk_difficulty newer ∧
    blk_height newer = sat_add 64 (sat_add 64 (blk_height boundary) 1) (Z.of_nat i) ∧
    blk_timestamp older <= blk_timestamp newer <= sat_add 64 now MAX_FUTURE_DRIFT_MS;
  snd_point : last (block_hash <$> recent_headers p) = Some (ms_pruning_point s);
  snd_work : ms_verified_work s = zsum (blk_difficulty <$> headers_genesis_first p);
  snd_count : ms_header_count s = len (headers_genesis_first p);
}.

Lemma last_header hs : hs ≠ [] → last hs = Some (header_at hs (len hs - 1)).
Proof.
  intros Hne. rewrite last_lookup. unfold header_at, len.
  replace (Z.to_nat (Z.of_nat (length hs) - 1)) with (pred (length hs)) by lia.
  destruct (lookup_lt_is_Some_2 hs (pred (length hs))) as [b Hb]; [destruct hs; [done|simpl; lia]|]. by rewrite Hb.
Qed.

Lemma structure_ok p :
  validate_multilevel_proof_structure lab_easy p = Ok () →
  recent_headers p ≠ [] ∧ hops p ≠ [] ∧ len (hops p) <= MAX_MULTILEVEL_HOPS ∧
  len (recent_headers p) <= MAX_MULTILEVEL_RECENT ∧
  (let g := header_at (hops p) (len (hops p) - 1) in
   block_hash g = genesis_hash ∧ blk_parents g = [] ∧ blk_height g = 0) ∧
  block_hash (header_at (hops p) 0) ∈ blk_parents (header_at (recent_headers p) 0) ∧
  ∃ seen, check_hops lab_easy 0 ∅ (hops p) = Ok seen ∧
    check_recent lab_easy (header_at (hops p) 0) seen 0 None ∅ (recent_headers p) = Ok ().
Proof.
  unfold validate_multilevel_proof_structure. intros Hv.
  destruct (Z.eqb_spec (len (recent_headers p)) 0) as [|Hr]; [done|].
  destruct (Z.eqb_spec (len (hops p)) 0) as [|Hh]; [done|].
  destruct (Z.ltb_spec MAX_MULTILEVEL_HOPS (len (hops p))); [done|].
  destruct (Z.ltb_spec MAX_MULTILEVEL_RECENT (len (recent_headers p))); [done|].
  destruct (_ <? _); [done|]. destruct (_ || _) eqn:Hg; [done|].
  destruct (negb (_ =? 0)) eqn:Hz; [done|].
  destruct (check_hops lab_easy 0 ∅ (hops p)) as [seen|] eqn:Hc; [|done]. cbn [mbind result_bind] in Hv.
  destruct (bool_decide_reflect (block_hash (header_at (hops p) 0) ∈ blk_parents (header_at (recent_headers p) 0)));
    [|done]. zbool. split_and!; [by intros Hn; rewrite Hn in Hr|by intros Hn; rewrite Hn in Hh|done..|by exists seen].
Qed.

(** The two loops of the verifier, and what they accept. *)
Lemma hop_loop_ok hs w :
  hs ≠ [] → Forall (λ b, is_u64 (blk_difficulty b)) hs → zsum (blk_difficulty <$> hs) <= U128_MAX →
  let g := blk_difficulty (header_at hs (len hs - 1)) in
  try_fold (hop_step lab_easy hs) (sat_add 128 0 g, sat_add 128 0 g) (rev (seqZ 0 (sat_sub (len hs) 1))) = Ok w →
  w.1 = zsum (blk_difficulty <$> hs) ∧
  ∀ i newer older, hs !! i = Some newer → hs !! S i = Some older →
    (block_hash older ∈ blk_interlinks newer ∨ block_hash older ∈ blk_parents newer) ∧
    verify_pow (block_hash newer) (blk_difficulty newer) = true ∧ header_floor newer <= blk_difficulty newer.
Proof.
  intros Hne Hd Hbound g. pose proof (zsum_headers_init blk_difficulty hs Hne) as Hsum. fold g in Hsum.
  assert (0 < len hs) as Hpos by (unfold len; destruct hs; [done|simpl; lia]).
  assert (sat_sub (len hs) 1 = len hs - 1) as -> by (unfold sat_sub; lia).
  assert (Forall (λ i, 0 <= (blk_difficulty ∘ header_at hs) i) (seqZ 0 (len hs - 1))) as Hnn.
  { apply Forall_forall. intros i Hi%elem_of_seqZ. apply (Forall_headers _ hs i Hd). lia. }
  assert (0 <= zsum ((blk_difficulty ∘ header_at hs) <$> seqZ 0 (len hs - 1))) as Hi0
    by (apply zsum_nonneg; by apply Forall_fmap).
  assert (is_u64 g) as [Hg1 Hg2] by (apply (Forall_headers _ hs _ Hd); lia).
  assert (sat_add 128 0 g = g) as -> by (apply sat_add_exact; lia). intros Hf.
  apply (try_fold_sum _ fst (blk_difficulty ∘ header_at hs) _ _ _ _ (hop_step_ok hs)) in Hf as [HP Hw];
    [|by apply List.Forall_rev|rewrite fmap_rev, zsum_rev; cbn [fst]; lia].
  rewrite fmap_rev, zsum_rev in Hw. cbn [fst] in Hw. split; [lia|].
  apply List.Forall_rev in HP. rewrite rev_involutive in HP. intros i newer older Hn Ho.
  pose proof (lookup_lt_Some _ _ _ Ho) as Hlt.
  destruct (Forall_seqZ _ 0 (len hs - 1) (Z.of_nat i) HP) as (H1 & H2 & H3); [unfold len; lia|].
  replace (Z.of_nat i + 1) with (Z.of_nat (S i)) in H3 by lia.
  rewrite (header_at_lookup _ _ _ Hn), ?(header_at_lookup _ _ _ Ho) in *. done.
Qed.

Lemma recent_loop_ok now boundary r w w' :
  Forall (λ b, is_u64 (blk_difficulty b)) r → w.1 + zsum (blk_difficulty <$> r) <= U128_MAX →
  try_fold (recent_step lab_easy now boundary r) w (seqZ 0 (len r)) = Ok w' →
  w'.1 = w.1 + zsum (blk_difficulty <$> r) ∧
  ∀ i b, r !! i = Some b → verify_pow (block_hash b) (blk_difficulty b) = true ∧
    header_floor b <= blk_difficulty b ∧ blk_timestamp b <= sat_add 64 now MAX_FUTURE_DRIFT_MS.
Proof.
  intros Hd Hbound Hf.
  assert (zsum ((blk_difficulty ∘ header_at r) <$> seqZ 0 (len r)) = zsum (blk_difficulty <$> r)) as Hrs.
  { by rewrite list_fmap_compose, header_at_seqZ. }
  apply (try_fold_sum _ fst (blk_difficulty ∘ header_at r) _ _ _ _ (recent_step_ok now _ r)) in Hf as [HP Hw].
  2: { apply Forall_forall. intros i Hi%elem_of_seqZ. apply (Forall_headers _ r i Hd). lia. }
  2: { by rewrite Hrs. }
  rewrite Hrs in Hw. split; [done|]. intros i b Hb. pose proof (lookup_lt_Some _ _ _ Hb).
  pose proof (Forall_seqZ _ 0 (len r) (Z.of_nat i) HP ltac:(unfold len; lia)) as Hi.
  cbn beta zeta in Hi. by rewrite (header_at_lookup _ _ _ Hb) in Hi.
Qed.

Lemma verify_loops now p s :
  verify_multilevel_pruning_proof lab_easy now p = Ok s →
  let hs := hops p in let r := recent_headers p in let g := header_at hs (len hs - 1) in
  validate_multilevel_proof_structure lab_easy p = Ok () ∧
  verify_pow (block_hash g) (blk_difficulty g) = true ∧
  ms_pruning_point s = block_hash (header_at r (len r - 1)) ∧ ms_header_count s = len hs + len r ∧
  ∃ w1 w2, try_fold (hop_step lab_easy hs) (sat_add 128 0 (blk_difficulty g), sat_add 128 0 (blk_difficulty g))
             (rev (seqZ 0 (sat_sub (len hs) 1))) = Ok w1 ∧
           try_fold (recent_step lab_easy now (header_at hs 0) r) w1 (seqZ 0 (len r)) = Ok w2 ∧
           ms_verified_work s = w2.1.
Proof.
  unfold verify_multilevel_pruning_proof. intros Hv.
  destruct (validate_multilevel_proof_structure lab_easy p) as [[]|]; [|done]. cbn [mbind result_bind] in Hv.
  destruct (negb (verify_pow _ _)) eqn:Hp; [done|]. apply negb_false_iff in Hp.
  destruct (try_fold (hop_step _ _) _ _) as [w1|] eqn:H1; [|done]. cbn [mbind result_bind] in Hv.
  destruct (try_fold (recent_step _ _ _ _) _ _) as [w2|] eqn:H2; [|done]. cbn [mbind result_bind] in Hv.
  destruct (negb _); [done|]. destruct (match claimed_verified_work p with Some _ => _ | None => _ end); [done|].
  destruct (_ && _); [done|]. injection Hv as <-. split_and!; try done. by exists w1, w2.
Qed.

(** C17. Soundness of the multi-level pruning proof.  An accepted proof is anchored at
    the genesis block; no header occurs twice; every hop commits to the next older
    one by an interlink or a parent, is strictly higher and not earlier than it, and
    meets with its own hash a difficulty at or above its era floor; the recent window
    continues the hops by parent links at consecutive heights, under the same
    conditions and the future bound.  The verified work is the exact sum of the
    difficulties of the headers shipped, which no claim of the peer can raise. *)
Theorem multilevel_proof_sound now p s :
  Forall (λ b, is_u64 (blk_difficulty b)) (headers_genesis_first p) →
  verify_multilevel_pruning_proof lab_easy now p = Ok s → multilevel_sound now p s.
Proof.
  intros Hd Hv. destruct (verify_loops now p s Hv) as (Hst & Hpow & Hpp & Hcount & w1 & w2 & Hf1 & Hf2 & Hwork).
  destruct (structure_ok p Hst) as (Hr & Hh & Hhl & Hrl & (Hg & Hgp & Hg0) & Hb & seen & Hch & Hcr).
  destruct (check_hops_ok _ _ _ _ Hch) as (Hnd & _ & -> & Hadj).
  destruct (check_recent_ok _ _ _ _ _ _ ltac:(done) Hcr) as (Hnr & Hdisj & Hheight & Hadjr).
  unfold headers_genesis_first in Hd. apply Forall_app in Hd as [Hdh Hdr].
  apply List.Forall_rev in Hdh. rewrite rev_involutive in Hdh.
  assert (zsum (blk_difficulty <$> hops p ++ recent_headers p) <= U128_MAX) as Hbound.
  { apply (zsum_difficulties _ MAX_MULTILEVEL_HEADERS); [by apply Forall_app| |done].
    unfold len, MAX_MULTILEVEL_HEADERS in *. rewrite length_app. lia. }
  assert (0 <= zsum (blk_difficulty <$> recent_headers p)) as Hr0.
  { apply zsum_nonneg, Forall_fmap. eapply Forall_impl; [exact Hdr|]. by intros b [? _]. }
  rewrite fmap_app, zsum_app in Hbound.
  destruct (hop_loop_ok _ _ Hh Hdh ltac:(lia) Hf1) as [Hw1 Hhops].
  destruct (recent_loop_ok now _ _ w1 w2 Hdr ltac:(lia) Hf2) as [Hw2 Hrec].
  split.
  - exists (header_at (hops p) (len (hops p) - 1)). split_and!; try done. by apply last_header.
  - unfold headers_genesis_first. rewrite fmap_app, fmap_rev. apply NoDup_app. split_and!; [by rewrite rev_perm| |done].
    intros x Hx (b & -> & Hb')%list_elem_of_fmap. apply (Hdisj b Hb').
    rewrite elem_of_union, elem_of_list_to_set. left. by rewrite rev_perm in Hx.
  - intros i newer older Hn Ho. destruct (Hhops i newer older Hn Ho) as (? & ? & ?).
    destruct (Hadj i newer older Hn Ho). done.
  - intros i boundary older newer Hbd Ho Hn. assert (header_at (hops p) 0 = boundary) as Hbe.
    { destruct (hops p); [done|]. by injection Hbd as <-. }
    rewrite Hbe in *. destruct (Hrec i newer Hn) as (? & ? & ?). specialize (Hheight i newer Hn).
    destruct (Hadjr i older newer Ho Hn) as [Ht Hl]. split_and!; try done.
    destruct i as [|i]; [|apply Hl; by left]. injection Ho as <-.
    by rewrite <- (header_at_lookup _ _ _ Hn).
  - rewrite fmap_last, (last_header _ Hr), Hpp. done.
  - unfold headers_genesis_first. rewrite fmap_app, fmap_rev, zsum_app, zsum_rev. lia.
  - unfold headers_genesis_first, len in *. rewrite length_app, length_rev. lia.
Qed.

(** ** The builder *)

(** The headers of a selected chain, genesis first, as the producers of the program make it:
    [hc_height] is what their templates write, and no check of admission enforces it. *)
Record honest_chain (c : list Block) : Prop := {
  hc_interlinks : interlinked c;
  hc_genesis : ∃ g, c !! 0%nat = Some g ∧ block_hash g = genesis_hash ∧ blk_parents g = [];
  hc_height i b : c !! i = Some b → blk_height b = Z.of_nat i;
  hc_link i p b : c !! i = Some p → c !! S i = Some b → block_hash p ∈ blk_parents b;
  hc_time i p b : c !! i = Some p → c !! S i = Some b → blk_timestamp p <= blk_timestamp b;
  hc_floor i b : c !! S i = Some b → era_min_difficulty lab_easy 0 (blk_timestamp b) <= blk_difficulty b;
  hc_nodup : NoDup (block_hash <$> c);
}.

(** [descends c n hs]: [hs] hops from position [n] of [c] down to genesis, each time
    along the last interlink. *)
Inductive descends (c : list Block) : nat → list Block → Prop :=
| descends_genesis g : c !! 0%nat = Some g → descends c 0 [header_only g]
| descends_hop n b j p hs :
    c !! n = Some b → (j < n)%nat → c !! j = Some p → last (blk_interlinks b) = Some (block_hash p) →
    descends c j hs → descends c n (header_only b :: hs).

Lemma find_by_hash c j p :
  NoDup (block_hash <$> c) → c !! j = Some p → find (λ b, block_hash b =? block_hash p) c = Some p.
Proof.
  revert j. induction c as [|b c IH]; intros j Hnd Hj; [done|]. rewrite fmap_cons in Hnd.
  apply NoDup_cons in Hnd as [Hb Hnd]. simpl. destruct j as [|j].
  - injection Hj as ->. by rewrite Z.eqb_refl.
  - destruct (Z.eqb_spec (block_hash b) (block_hash p)) as [Heq|]; [|by apply (IH j)].
    exfalso. apply Hb. rewrite Heq. apply list_elem_of_fmap. exists p. split; [done|].
    by eapply list_elem_of_lookup_2.
Qed.

(** Every block but genesis carries an interlink, and the last one is an ancestor. *)
Lemma last_interlink c n b :
  interlinked c → c !! S n = Some b →
  ∃ j p, (j < S n)%nat ∧ c !! j = Some p ∧ last (blk_interlinks b) = Some (block_hash p).
Proof.
  intros Hc Hb. destruct (lookup_lt_is_Some_2 c n) as [q Hq]; [apply lookup_lt_Some in Hb; lia|].
  destruct (last (blk_interlinks b)) as [h|] eqn:Hl.
  - rewrite last_lookup, (interlinks_find c (S n) b _ Hc Hb) in Hl.
    destruct (find _ _) as [p|] eqn:Hf; [|done]. apply find_some in Hf as [Hin _]. injection Hl as <-.
    apply in_rev, list_elem_of_In, list_elem_of_lookup in Hin as [j Hj].
    apply lookup_take_Some in Hj as [Hj ?]. by exists j, p.
  - apply last_None in Hl. exfalso. pose proof (proj2 Hc n q b Hq Hb) as Hi. rewrite Hl in Hi.
    pose proof (compute_interlinks_lookup q 0) as H0'. rewrite <- Hi in H0'. simpl in H0'.
    pose proof (block_level_nonneg q). rewrite (proj2 (Z.leb_le _ _)) in H0' by done. discriminate H0'.
Qed.

Lemma hop_walk_descends c split n fuel b acc :
  honest_chain c → c !! n = Some b → (n < fuel)%nat →
  ∃ hs, hop_walk fuel c split (header_only b) acc = Built (acc ++ hs) ∧ descends c n hs.
Proof.
  intros Hc. revert fuel b acc. induction (lt_wf n) as [n _ IH]. intros [|fuel] b acc Hb Hlt; [lia|].
  cbn [hop_walk]. change (block_hash (header_only b)) with (block_hash b).
  destruct (hc_genesis c Hc) as (g & Hg & Hgh & Hgp). destruct n as [|n].
  - rewrite Hb in Hg. injection Hg as ->. rewrite Hgh, Z.eqb_refl, bool_decide_eq_true_2 by done.
    exists [header_only g]. split; [done|]. by constructor.
  - assert (bool_decide (blk_parents (header_only b) = []) = false) as Hp.
    { apply bool_decide_eq_false_2. simpl. intros Hnil.
      destruct (lookup_lt_is_Some_2 c n) as [q Hq]; [apply lookup_lt_Some in Hb; lia|].
      pose proof (hc_link c Hc n q b Hq Hb) as Hin. rewrite Hnil in Hin. by apply not_elem_of_nil in Hin. }
    rewrite Hp, andb_false_r. destruct (last_interlink c n b (hc_interlinks c Hc) Hb) as (j & p & Hj & Hpj & Hl).
    change (blk_interlinks (header_only b)) with (blk_interlinks b). rewrite Hl.
    rewrite (find_by_hash c j p (hc_nodup c Hc) Hpj).
    destruct (IH j Hj fuel p (acc ++ [header_only b]) Hpj ltac:(lia)) as (hs & -> & Hd).
    exists (header_only b :: hs). rewrite <- app_assoc. split; [done|]. by econstructor.
Qed.

Lemma descends_length c n hs : descends c n hs → (length hs <= S n)%nat.
Proof. induction 1; simpl; lia. Qed.

Lemma descends_head c n hs : descends c n hs → ∃ b, head hs = Some (header_only b) ∧ c !! n = Some b.
Proof. destruct 1; eauto. Qed.

Lemma descends_last c n hs : descends c n hs → ∃ g, last hs = Some (header_only g) ∧ c !! 0%nat = Some g.
Proof.
  induction 1 as [g Hg|n b j p hs Hb Hj Hp Hl Hd (g & Hg & Hg0)]; [eauto|]. exists g. split; [|done].
  destruct hs; [done|]. done.
Qed.

(** Every hop is a block of the chain at or below position [n]. *)
Lemma descends_elem c n hs x :
  descends c n hs → x ∈ hs → ∃ k b, (k <= n)%nat ∧ c !! k = Some b ∧ x = header_only b.
Proof.
  induction 1 as [g Hg|n b j p hs Hb Hj Hp Hl Hd IH].
  - intros ->%list_elem_of_singleton. exists 0%nat, g. done.
  - intros [->|Hx]%elem_of_cons; [by exists n, b|]. destruct (IH Hx) as (k & b' & Hk & Hb' & ->).
    exists k, b'. split_and!; [lia|done..].
Qed.

Lemma hash_inj c i j a b :
  NoDup (block_hash <$> c) → c !! i = Some a → c !! j = Some b → block_hash a = block_hash b → i = j.
Proof.
  intros Hnd Ha Hb Heq. eapply (NoDup_lookup _ i j (block_hash a) Hnd); rewrite list_lookup_fmap.
  - by rewrite Ha.
  - rewrite Hb. simpl. by rewrite Heq.
Qed.

Lemma descends_hash_fresh c n hs k b :
  honest_chain c → descends c n hs → (n < k)%nat → c !! k = Some b → block_hash b ∉ block_hash <$> hs.
Proof.
  intros Hc Hd Hk Hb (x & Heq & Hx)%list_elem_of_fmap.
  destruct (descends_elem c n hs x Hd Hx) as (m & b' & Hm & Hb' & ->).
  pose proof (hash_inj c k m b b' (hc_nodup c Hc) Hb Hb' Heq). lia.
Qed.

Lemma chain_time c i j a b :
  honest_chain c → (i <= j)%nat → c !! i = Some a → c !! j = Some b → blk_timestamp a <= blk_timestamp b.
Proof.
  intros Hc Hij Ha. revert b. induction Hij as [|j Hij IH]; intros b Hb; [by simplify_eq|].
  destruct (lookup_lt_is_Some_2 c j) as [q Hq]; [apply lookup_lt_Some in Hb; lia|].
  etrans; [exact (IH q Hq)|]. by apply (hc_time c Hc j).
Qed.

Lemma check_hops_honest c n hs i seen :
  honest_chain c → descends c n hs → (∀ x, x ∈ hs → block_hash x ∉ seen) →
  check_hops lab_easy i seen hs = Ok (list_to_set (block_hash <$> hs) ∪ seen).
Proof.
  intros Hc Hd. revert i seen. induction Hd as [g Hg|n b j p hs Hb Hj Hp Hl Hd IH]; intros i seen Hs; cbn [check_hops].
  - rewrite bool_decide_eq_false_2 by (apply Hs; set_solver). rewrite bool_decide_eq_true_2 by done. simpl.
    f_equal. set_solver.
  - rewrite bool_decide_eq_false_2 by (apply Hs; set_solver).
    destruct n as [|n]; [lia|]. pose proof (hc_floor c Hc n b Hb) as Hf.
    change (blk_timestamp (header_only b)) with (blk_timestamp b).
    change (blk_difficulty (header_only b)) with (blk_difficulty b).
    rewrite (proj2 (Z.ltb_ge _ _) Hf), andb_false_r. destruct (descends_head c j hs Hd) as (p' & Hh & Hp').
    destruct hs as [|x hs]; [done|]. injection Hh as ->. rewrite Hp in Hp'. injection Hp' as <-. cbn [header_only blk_height blk_timestamp].
    rewrite (proj2 (Z.leb_gt (blk_height b) (blk_height p))) by (rewrite (hc_height c Hc _ _ Hb), (hc_height c Hc _ _ Hp); lia).
    rewrite (proj2 (Z.ltb_ge (blk_timestamp b) (blk_timestamp p))) by (by apply (chain_time c j (S n)); [done|lia|..]).
    rewrite IH; [f_equal; rewrite fmap_cons, list_to_set_cons; set_solver|].
    intros y Hy. apply not_elem_of_union. split; [|apply Hs; set_solver].
    intros Heq%elem_of_singleton. apply (descends_hash_fresh c j _ (S n) b Hc Hd Hj Hb).
    apply list_elem_of_fmap. exists y. done.
Qed.

Lemma check_recent_honest c m k boundary prev seen_hops seen :
  honest_chain c → len c <= U64_MAX → (m < k)%nat → c !! m = Some boundary → c !! pred k = Some prev →
  (∀ i b, c !! i = Some b → (k <= i)%nat → (block_hash b ∉ seen_hops) ∧ block_hash b ∉ seen) →
  check_recent lab_easy (header_only boundary) seen_hops (Z.of_nat (k - S m))
    (if bool_decide (k = S m) then None else Some (header_only prev)) seen (header_only <$> drop k c) = Ok ().
Proof.
  intros Hc Hlen Hm Hbd. remember (length c - k)%nat as d eqn:Hd. revert k prev seen Hd Hm.
  induction d as [|d IH]; intros k prev seen Hd Hm Hpv Hfresh.
  - by rewrite drop_ge by lia.
  - destruct (lookup_lt_is_Some_2 c k ltac:(lia)) as [cur Hcur].
    rewrite (drop_S _ _ _ Hcur), fmap_cons. cbn [check_recent].
    destruct k as [|k]; [lia|]. simpl pred in Hpv.
    destruct (Hfresh (S k) cur Hcur ltac:(lia)) as [Hf1 Hf2].
    change (block_hash (header_only cur)) with (block_hash cur).
    rewrite (bool_decide_eq_false_2 (_ ∈ seen_hops)), (bool_decide_eq_false_2 (_ ∈ seen)) by done. simpl orb. cbn iota.
    cbn [header_only blk_timestamp blk_difficulty blk_height blk_parents].
    rewrite (proj2 (Z.ltb_ge _ _) (hc_floor c Hc k cur Hcur)).
    assert (blk_height cur = sat_add 64 (sat_add 64 (blk_height boundary) 1) (Z.of_nat (S k - S m))) as ->.
    { rewrite (hc_height c Hc _ _ Hcur), (hc_height c Hc _ _ Hbd). unfold len in Hlen. unfold sat_add. lia. }
    rewrite Z.eqb_refl. simpl negb. cbn iota.
    assert (∀ x, (blk_timestamp cur <? blk_timestamp x) = false ↔ blk_timestamp x <= blk_timestamp cur) as Hlt
      by (intros x; apply Z.ltb_ge).
    assert (match (if bool_decide (S k = S m) then None else Some (header_only prev)) with
            | Some p => (fail_if negb (bool_decide (block_hash p ∈ blk_parents cur))
                as ("broken chain linkage at recent header " +:+ pretty (Z.of_nat (S k - S m)));
                fail_if blk_timestamp cur <? blk_timestamp p
                as ("recent header " +:+ pretty (Z.of_nat (S k - S m)) +:+ " timestamp predates its parent"); Ok ())%hassan
            | None => (fail_if blk_timestamp cur <? blk_timestamp boundary
                as "recent header 0 timestamp predates the hop boundary"; Ok ())%hassan
            end = Ok ()) as ->.
    { case_bool_decide as Hkm.
      - by rewrite (proj2 (Hlt boundary)) by (apply (chain_time c m (S k)); [done|lia|done..]).
      - change (block_hash (header_only prev)) with (block_hash prev).
        rewrite bool_decide_eq_true_2 by (by apply (hc_link c Hc k)). simpl negb. cbn iota.
        by rewrite (proj2 (Hlt (header_only prev)) (hc_time c Hc k prev cur Hpv Hcur)). }
    cbn [mbind result_bind]. specialize (IH (S (S k)) cur ({[block_hash cur]} ∪ seen) ltac:(lia) ltac:(lia) Hcur).
    rewrite bool_decide_eq_false_2 in IH by lia.
    replace (Z.of_nat (S k - S m) + 1) with (Z.of_nat (S (S k) - S m)) by lia. apply IH.
    intros i b Hb Hi. destruct (Hfresh i b Hb ltac:(lia)). split; [done|]. apply not_elem_of_union. split; [|done].
    intros Heq%elem_of_singleton. pose proof (hash_inj c i (S k) b cur (hc_nodup c Hc) Hb Hcur Heq). lia.
Qed.

(** C19. The builder works on a chain that is well formed for it and longer than its recent
    window.  Well formed ([honest_chain]) means: genesis first, distinct hashes, every block
    a child of the one before, the interlinks of each block those [compute_interlinks] gives
    for its predecessor, timestamps in order, difficulties at the floor of the first era or
    above, and the height of each block its position.  (Admission enforces all of these on a
    selected chain except the last: it never reads a block's height.)  Then the builder stops
    within as many hops as there are blocks before the window; consecutive hops are joined by
    the last interlink of the newer one, down to genesis; the window is the rest of the
    chain; and the proof passes the structural checks of the verifier unless it exceeds their
    size limits. *)
Theorem build_multilevel_complete c window fuel :
  honest_chain c → len c <= U64_MAX → 1 <= window < len c → (length c <= fuel)%nat →
  let split := Z.to_nat (len c - window) in
  ∃ p, build_multilevel_pruning_proof fuel c window = Some p ∧
    descends c (pred split) (hops p) ∧ (length (hops p) <= split)%nat ∧
    recent_headers p = header_only <$> drop split c ∧
    (len (hops p) <= MAX_MULTILEVEL_HOPS → len (recent_headers p) <= MAX_MULTILEVEL_RECENT →
     validate_multilevel_proof_structure lab_easy p = Ok ()).
Proof.
  intros Hc Hlen Hw Hfuel split. unfold build_multilevel_pruning_proof.
  assert (c ≠ []) as Hne by (intros ->; unfold len in Hw; simpl in Hw; lia).
  assert (sat_sub (len c) (Z.max window 1) = len c - window) as -> by (unfold sat_sub; lia). fold split.
  assert (0 < split < length c)%nat as Hsplit by (unfold split, len in *; lia).
  rewrite (bool_decide_eq_false_2 (c = [])), (bool_decide_eq_false_2 (split = 0%nat)) by (done || lia).
  destruct (lookup_lt_is_Some_2 c (pred split) ltac:(lia)) as [b Hb].
  replace (Z.of_nat split - 1) with (Z.of_nat (pred split)) by lia. rewrite (header_at_lookup _ _ _ Hb).
  destruct (hop_walk_descends c split (pred split) fuel b [] Hc Hb ltac:(lia)) as (hs & -> & Hd). simpl app.
  eexists. split; [done|]. cbn [hops recent_headers]. pose proof (descends_length c _ hs Hd).
  split_and!; [done|lia|done|]. intros Hhl Hrl. unfold validate_multilevel_proof_structure. cbn [hops recent_headers].
  destruct (descends_head c _ hs Hd) as (b' & Hh & Hb'). rewrite Hb in Hb'. injection Hb' as <-.
  destruct (descends_last c _ hs Hd) as (g & Hg & Hg0). assert (hs ≠ []) as Hhn by by destruct hs.
  pose proof (last_header hs Hhn) as Hlast. rewrite Hg in Hlast. injection Hlast as Hlast.
  assert (header_at hs 0 = header_only b) as -> by (destruct hs; [done|by injection Hh as ->]).
  destruct (lookup_lt_is_Some_2 c split ltac:(lia)) as [r Hr].
  assert (header_at (header_only <$> drop split c) 0 = header_only r) as ->.
  { by rewrite (drop_S _ _ _ Hr). }
  assert (len (header_only <$> drop split c) ≠ 0) as Hrn.
  { unfold len. rewrite length_fmap, length_drop. lia. }
  assert (len hs ≠ 0) as Hhn' by (unfold len; destruct hs; [done|simpl; lia]).
  rewrite (proj2 (Z.eqb_neq _ _) Hrn), (proj2 (Z.eqb_neq _ _) Hhn'), (proj2 (Z.ltb_ge _ _) Hhl), (proj2 (Z.ltb_ge _ _) Hrl).
  rewrite (proj2 (Z.ltb_ge _ _)) by (unfold MAX_MULTILEVEL_HEADERS; lia). rewrite <- Hlast.
  destruct (hc_genesis c Hc) as (g' & Hg' & Hgh & Hgp). rewrite Hg0 in Hg'. injection Hg' as <-.
  change (block_hash (header_only g)) with (block_hash g). cbn [header_only blk_parents blk_height].
  rewrite Hgh, Z.eqb_refl, (bool_decide_eq_true_2 (blk_parents g = [])), (hc_height c Hc _ _ Hg0) by done. simpl orb. cbn iota.
  rewrite (check_hops_honest c _ hs 0 ∅ Hc Hd) by set_solver. simpl negb. cbn [mbind result_bind].
  change (block_hash (header_only b)) with (block_hash b).
  assert (S (pred split) = split) as Hsp by lia.
  rewrite bool_decide_eq_true_2 by (apply (hc_link c Hc (pred split)); [done|by rewrite Hsp]). simpl negb. cbn iota.
  pose proof (check_recent_honest c (pred split) split b b (list_to_set (block_hash <$> hs) ∪ ∅) ∅ Hc Hlen
    ltac:(lia) Hb Hb) as Hcr.
  rewrite Hsp, Nat.sub_diag, bool_decide_eq_true_2 in Hcr by done. apply Hcr.
  intros i x Hx Hi. split; [|set_solver]. rewrite union_empty_r_L, elem_of_list_to_set.
  apply (descends_hash_fresh c (pred split) hs i x Hc Hd); [lia|done].
Qed.
End headers_thms.

(** ** A concrete chain *)
Module HeaderExample.
#[local] Existing Instance Toy.easy_crypto.

Definition child (p : Block) : Block :=
  {| blk_height := blk_height p + 1; blk_timestamp := blk_timestamp p + 100; blk_parents := [block_hash p];
     blk_interlinks := compute_interlinks p;
     blk_transparent_txs := []; blk_utxo_txs := []; blk_registry_ops := []; blk_custody_ops := [];
     blk_merkle_root := HASH_ZERO; blk_state_root := HASH_ZERO; blk_miner := HASH_ZERO;
     blk_creator_pubkey := []; blk_nonce := 0; blk_difficulty := BOOTSTRAP_MIN_DIFFICULTY;
     blk_version := default_block_version; blk_coinbase_entropy := 0;
     blk_stark_proof := []; blk_birth_certificate := []; blk_size := 0 |}.
Definition chain : list Block := [genesis_block; child genesis_block; child (child genesis_block)].
Definition now : Z := GENESIS_TIMESTAMP_MS + 1000.

Lemma chain_u64 : Forall (λ b, is_u64 (blk_difficulty b)) chain.
Proof. apply (bool_decide_unpack _). vm_compute. exact I. Qed.

Lemma chain_cases i b :
  chain !! i = Some b → (i = 0%nat ∧ b = genesis_block) ∨ (i = 1%nat ∧ b = child genesis_block) ∨
  (i = 2%nat ∧ b = child (child genesis_block)).
Proof. destruct i as [|[|[|i]]]; cbn [chain lookup list_lookup]; intros [= <-]; auto. Qed.

Lemma chain_step i p b : chain !! i = Some p → chain !! S i = Some b → b = child p.
Proof.
  intros [[-> ->]|[[-> ->]|[-> ->]]]%chain_cases [[? ->]|[[? ->]|[? ->]]]%chain_cases; (lia || reflexivity).
Qed.

Lemma chain_interlinked : interlinked chain.
Proof.
  split; [intros g [[_ ->]|[[? _]|[? _]]]%chain_cases; [reflexivity|lia|lia]|].
  intros i p b Hp Hb. by rewrite (chain_step i p b Hp Hb).
Qed.

Lemma chain_honest : honest_chain false chain.
Proof.
  split.
  - exact chain_interlinked.
  - exists genesis_block. split_and!; reflexivity.
  - intros i b [[-> ->]|[[-> ->]|[-> ->]]]%chain_cases; reflexivity.
  - intros i p b Hp Hb. rewrite (chain_step i p b Hp Hb). apply list_elem_of_singleton. reflexivity.
  - intros i p b Hp Hb. rewrite (chain_step i p b Hp Hb). cbn [child blk_timestamp]. lia.
  - intros i b [[? _]|[[_ ->]|[_ ->]]]%chain_cases; [lia| |]; cbn [child blk_difficulty blk_timestamp];
      vm_compute; discriminate.
  - apply (bool_decide_unpack _). vm_compute. exact I.
Qed.

Lemma linear_accepted : ∃ s, verify_pruning_proof false now chain = Ok s.
Proof. apply ok_exists. vm_compute. reflexivity. Qed.

Definition proof : MultiLevelPruningProof :=
  default {| recent_headers := []; hops := []; claimed_verified_work := None |}
    (build_multilevel_pruning_proof 3 chain 1).
Lemma multilevel_accepted : ∃ s, verify_multilevel_pruning_proof false now proof = Ok s.
Proof. apply ok_exists. vm_compute. reflexivity. Qed.
Lemma proof_u64 : Forall (λ b, is_u64 (blk_difficulty b)) (headers_genesis_first proof).
Proof. apply (bool_decide_unpack _). vm_compute. exact I. Qed.
End HeaderExample.

Lemma interlinks_nearest_witness :
  ∃ h, blk_interlinks (HeaderExample.child (HeaderExample.child genesis_block)) !! 0%nat = Some h ∧
  ∃ p, h = @block_hash Toy.easy_crypto p ∧ 0 <= @block_level Toy.easy_crypto p.
Proof.
  pose proof (@interlinks_nearest Toy.easy_crypto HeaderExample.chain 2
    (HeaderExample.child (HeaderExample.child genesis_block)) 0 HeaderExample.chain_interlinked eq_refl) as H.
  destruct (blk_interlinks (HeaderExample.child (HeaderExample.child genesis_block)) !! 0%nat) as [h|] eqn:Hh.
  - exists h. split; [reflexivity|]. destruct H as (j & p & _ & _ & Hp & Hl & _). exists p. split; assumption.
  - vm_compute in Hh. discriminate Hh.
Defined.

Lemma linear_proof_sound_witness :
  ∃ s, ps_cumulative_work s = zsum (blk_difficulty <$> HeaderExample.chain).
Proof.
  destruct HeaderExample.linear_accepted as [s Hs]. exists s.
  destruct (@linear_proof_sound Toy.easy_crypto false HeaderExample.now HeaderExample.chain s
    HeaderExample.chain_u64 Hs) as (_ & _ & _ & Hw & _). exact Hw.
Defined.

Lemma multilevel_proof_sound_witness :
  ∃ s, @multilevel_sound Toy.easy_crypto false HeaderExample.now HeaderExample.proof s.
Proof.
  destruct HeaderExample.multilevel_accepted as [s Hs]. exists s.
  exact (@multilevel_proof_sound Toy.easy_crypto false HeaderExample.now HeaderExample.proof s
    HeaderExample.proof_u64 Hs).
Defined.

Lemma build_multilevel_complete_witness :
  ∃ p, @build_multilevel_pruning_proof Toy.easy_crypto 3 HeaderExample.chain 1 = Some p.
Proof.
  destruct (@build_multilevel_complete Toy.easy_crypto false HeaderExample.chain 1 3 HeaderExample.chain_honest)
    as (p & Hp & _); [vm_compute; discriminate|vm_compute; split; [discriminate|reflexivity]|vm_compute; lia|].
  exists p. exact Hp.
Defined.
