(* ===== verification/State.v ===== *)
(** * Chain state

    [ChainState] of [src/src/lib.rs]: the DAG, GHOSTDAG data, reachability index,
    live ledger, finalised base and mempools of a node; its queries (selected tip,
    finality point, past median time, expected difficulty) and the replay of the
    canonical order that derives the live ledger from the base. *)

From S2P Require Import Prelude Genesis Crypto Address Predicate Utxo UtxoTx Registry Custody Block Ledger.
From S2P Require Import Dag Ghostdag Reachability FeeHistory Stark VersionBits Superproof.

Definition MAX_BLOCK_SIZE : Z := 22 * 1024.
Definition MAX_BLOCK_BYTES : Z := 256 * 1024.

(** The pending transactions and the fee bookkeeping: node policy, no consensus data. *)
Record Pools := {
  transparent_mempool : list TransparentTx;
  utxo_mempool : list UtxoTx;
  registry_mempool : list RegistryOp;
  custody_mempool : list CustodyCertificate;
  tx_first_seen_ms : gmap Hash Z;
  tx_first_seen_blue : gmap Hash Z;
  fee_history : FeeRateHistory;
}.
Definition Pools_empty : Pools :=
  {| transparent_mempool := []; utxo_mempool := []; registry_mempool := []; custody_mempool := [];
     tx_first_seen_ms := ∅; tx_first_seen_blue := ∅; fee_history := FeeRateHistory_default |}.

(** The value fields of the source ([accounts], [utxo], [minted_supply], [registry],
    [staked], [fees_burned], [treasury]) are together the live ledger [cs_ledger]. *)
Record ChainState := {
  cs_dag : Dag;
  cs_tips : list Hash;
  cs_main_chain : list Hash;
  cs_ledger : Ledger;
  cs_difficulty : Z;
  cs_chain_id : Z;
  cs_ghostdag : GdMap;
  cs_reachability : Reachability;
  cs_archival : bool;
  cs_base : Ledger;
  cs_base_captured : bool;
  cs_base_frontier : option Hash;
  cs_pruning_point : option Hash;
  cs_pruning_ledger : option Ledger;
  cs_pruned_selected_blocks : Z;
  cs_pools : Pools;
}.

(** What a node reads from its process and from the serialiser.  [dag_keys] is the
    iteration order of the block map, which the standard library leaves open. *)
Class NodeEnv := {
  node_winterfell :: Winterfell;
  lab_easy : bool;
  pinned_digest : option Hash;
  ser_block_len : Block → option Z;
  hex_err : string;
  dag_keys : Dag → list Hash;
}.

(** Field updates. *)
Definition set_graph (s : ChainState) (dag : Dag) (tips : list Hash) (gd : GdMap) (r : Reachability) : ChainState :=
  {| cs_dag := dag; cs_tips := tips; cs_main_chain := cs_main_chain s; cs_ledger := cs_ledger s;
     cs_difficulty := cs_difficulty s; cs_chain_id := cs_chain_id s; cs_ghostdag := gd; cs_reachability := r;
     cs_archival := cs_archival s; cs_base := cs_base s; cs_base_captured := cs_base_captured s;
     cs_base_frontier := cs_base_frontier s; cs_pruning_point := cs_pruning_point s;
     cs_pruning_ledger := cs_pruning_ledger s; cs_pruned_selected_blocks := cs_pruned_selected_blocks s;
     cs_pools := cs_pools s |}.
Definition set_main_chain (s : ChainState) (mc : list Hash) : ChainState :=
  {| cs_dag := cs_dag s; cs_tips := cs_tips s; cs_main_chain := mc; cs_ledger := cs_ledger s;
     cs_difficulty := cs_difficulty s; cs_chain_id := cs_chain_id s; cs_ghostdag := cs_ghostdag s;
     cs_reachability := cs_reachability s; cs_archival := cs_archival s; cs_base := cs_base s;
     cs_base_captured := cs_base_captured s; cs_base_frontier := cs_base_frontier s;
     cs_pruning_point := cs_pruning_point s; cs_pruning_ledger := cs_pruning_ledger s;
     cs_pruned_selected_blocks := cs_pruned_selected_blocks s; cs_pools := cs_pools s |}.
Definition set_base (s : ChainState) (base : Ledger) (captured : bool) (frontier : option Hash) : ChainState :=
  {| cs_dag := cs_dag s; cs_tips := cs_tips s; cs_main_chain := cs_main_chain s; cs_ledger := cs_ledger s;
     cs_difficulty := cs_difficulty s; cs_chain_id := cs_chain_id s; cs_ghostdag := cs_ghostdag s;
     cs_reachability := cs_reachability s; cs_archival := cs_archival s; cs_base := base;
     cs_base_captured := captured; cs_base_frontier := frontier;
     cs_pruning_point := cs_pruning_point s; cs_pruning_ledger := cs_pruning_ledger s;
     cs_pruned_selected_blocks := cs_pruned_selected_blocks s; cs_pools := cs_pools s |}.
Definition set_pruning (s : ChainState) (pp : option Hash) (pl : option Ledger) (pruned : Z) : ChainState :=
  {| cs_dag := cs_dag s; cs_tips := cs_tips s; cs_main_chain := cs_main_chain s; cs_ledger := cs_ledger s;
     cs_difficulty := cs_difficulty s; cs_chain_id := cs_chain_id s; cs_ghostdag := cs_ghostdag s;
     cs_reachability := cs_reachability s; cs_archival := cs_archival s; cs_base := cs_base s;
     cs_base_captured := cs_base_captured s; cs_base_frontier := cs_base_frontier s;
     cs_pruning_point := pp; cs_pruning_ledger := pl; cs_pruned_selected_blocks := pruned;
     cs_pools := cs_pools s |}.
Definition set_pools (s : ChainState) (p : Pools) : ChainState :=
  {| cs_dag := cs_dag s; cs_tips := cs_tips s; cs_main_chain := cs_main_chain s; cs_ledger := cs_ledger s;
     cs_difficulty := cs_difficulty s; cs_chain_id := cs_chain_id s; cs_ghostdag := cs_ghostdag s;
     cs_reachability := cs_reachability s; cs_archival := cs_archival s; cs_base := cs_base s;
     cs_base_captured := cs_base_captured s; cs_base_frontier := cs_base_frontier s;
     cs_pruning_point := cs_pruning_point s; cs_pruning_ledger := cs_pruning_ledger s;
     cs_pruned_selected_blocks := cs_pruned_selected_blocks s; cs_pools := p |}.
Definition set_difficulty (s : ChainState) (d : Z) : ChainState :=
  {| cs_dag := cs_dag s; cs_tips := cs_tips s; cs_main_chain := cs_main_chain s; cs_ledger := cs_ledger s;
     cs_difficulty := d; cs_chain_id := cs_chain_id s; cs_ghostdag := cs_ghostdag s;
     cs_reachability := cs_reachability s; cs_archival := cs_archival s; cs_base := cs_base s;
     cs_base_captured := cs_base_captured s; cs_base_frontier := cs_base_frontier s;
     cs_pruning_point := cs_pruning_point s; cs_pruning_ledger := cs_pruning_ledger s;
     cs_pruned_selected_blocks := cs_pruned_selected_blocks s; cs_pools := cs_pools s |}.

(** [snapshot_ledger], [restore_ledger]. *)
Definition snapshot_ledger (s : ChainState) : Ledger := cs_ledger s.
Definition restore_ledger (s : ChainState) (l : Ledger) : ChainState :=
  {| cs_dag := cs_dag s; cs_tips := cs_tips s; cs_main_chain := cs_main_chain s; cs_ledger := l;
     cs_difficulty := cs_difficulty s; cs_chain_id := cs_chain_id s; cs_ghostdag := cs_ghostdag s;
     cs_reachability := cs_reachability s; cs_archival := cs_archival s; cs_base := cs_base s;
     cs_base_captured := cs_base_captured s; cs_base_frontier := cs_base_frontier s;
     cs_pruning_point := cs_pruning_point s; cs_pruning_ledger := cs_pruning_ledger s;
     cs_pruned_selected_blocks := cs_pruned_selected_blocks s; cs_pools := cs_pools s |}.

(** ** Queries *)

(** [tip_height], [selected_tip_blue_score]. *)
Definition tip_height (s : ChainState) : Z :=
  sat_sub (sat_add 64 (cs_pruned_selected_blocks s) (len (cs_main_chain s))) 1.
Definition selected_tip_blue_score (s : ChainState) : Z :=
  default 0 (t ← selected_tip (cs_ghostdag s) (cs_tips s); gd_blue_score <$> cs_ghostdag s !! t).

(** The timestamps read by [past_median_time]: at most [n] blocks down the selected
    parents. *)
Fixpoint median_times (n : nat) (dag : Dag) (gd : GdMap) (cur : Hash) : list Z :=
  match n with
  | O => []
  | S n =>
      match dag !! cur with
      | None => []
      | Some block =>
          blk_timestamp block ::
          match gd !! cur ≫= gd_selected_parent with
          | Some sp => if sp =? cur then [] else median_times n dag gd sp
          | None => []
          end
      end
  end.
Definition past_median_time (s : ChainState) (tip : Hash) : Z :=
  let times := merge_sort Z.le (median_times 11 (cs_dag s) (cs_ghostdag s) tip) in
  default 0 (times !! (length times / 2)%nat).

(** The loop of [finality_point] and [prune_history]: the blocks of the chain up to
    the first whose blue score exceeds the threshold. *)
Fixpoint chain_below (gd : GdMap) (threshold : Z) (chain : list Hash) : list Hash :=
  match chain with
  | [] => []
  | h :: chain =>
      if from_option gd_blue_score U64_MAX (gd !! h) <=? threshold then h :: chain_below gd threshold chain else []
  end.

(** [finality_point]. *)
Definition finality_point (s : ChainState) : option Hash :=
  tip ← selected_tip (cs_ghostdag s) (cs_tips s);
  tip_score ← gd_blue_score <$> cs_ghostdag s !! tip;
  if tip_score <=? FINALITY_DEPTH then None else
  let threshold := tip_score - FINALITY_DEPTH in
  last (chain_below (cs_ghostdag s) threshold (selected_chain (cs_ghostdag s) tip)).

(** [order_main_chain]. *)
Definition order_main_chain (s : ChainState) : ChainState :=
  match selected_tip (cs_ghostdag s) (cs_tips s) with
  | Some tip => set_main_chain s (selected_chain (cs_ghostdag s) tip)
  | None => s
  end.

(** [version_bits_status]. *)
Definition version_bits_status (s : ChainState) : VersionBitsState :=
  observe_all DEPLOYMENTS
    (omap (λ h, b ← cs_dag s !! h; gd ← cs_ghostdag s !! h; Some (gd_blue_score gd, blk_version b)) (cs_main_chain s)).

(** ** Difficulty *)

(** One blue of [collect_daa_blue_samples]: state [(samples, seen)]. *)
Definition sample_block (dag : Dag) (samples : list (Z * Z)) (h : Hash) : list (Z * Z) :=
  match dag !! h with
  | Some b => samples ++ [(blk_timestamp b, Z.max (blk_difficulty b) 1)]
  | None => samples
  end.
Definition sample_blue (dag : Dag) (st : list (Z * Z) * gset Hash) (blue : Hash) : list (Z * Z) * gset Hash :=
  if DAA_WINDOW <=? len st.1 then st else
  if bool_decide (blue ∈ st.2) then st else (sample_block dag st.1 blue, {[blue]} ∪ st.2).

Fixpoint sample_walk (fuel : nat) (dag : Dag) (gd : GdMap) (cursor : option Hash) (st : list (Z * Z) * gset Hash)
    : list (Z * Z) :=
  match fuel, cursor with
  | S fuel, Some h =>
      if DAA_WINDOW <=? len st.1 then st.1 else
      match gd !! h with
      | None => st.1
      | Some d =>
          let st := foldl (sample_blue dag) st (gd_mergeset_blues d) in
          let st := if bool_decide (gd_mergeset_blues d = []) && negb (bool_decide (h ∈ st.2))
                    then (sample_block dag st.1 h, {[h]} ∪ st.2) else st in
          sample_walk fuel dag gd (gd_selected_parent d) st
      end
  | _, _ => st.1
  end.
Definition collect_daa_blue_samples (dag : Dag) (gd : GdMap) (selected_parent : Hash) : list (Z * Z) :=
  sample_walk (chain_fuel gd) dag gd (Some selected_parent) ([], ∅).

Definition zmax_list (l : list Z) : Z := match l with [] => 0 | x :: l => foldl Z.max x l end.
Definition zmin_list (l : list Z) : Z := match l with [] => 0 | x :: l => foldl Z.min x l end.

(** The retarget of [expected_difficulty_at] over a full window of samples. *)
Definition daa_retarget (samples : list (Z * Z)) (sp_difficulty floor : Z) : Z :=
  let newest := zmax_list samples.*1 in
  let oldest := zmin_list samples.*1 in
  let work := wrap 128 (zsum samples.*2) in
  let avg_diff := Z.max (wrap 64 (work / len samples)) floor in
  let scaled := retarget_difficulty avg_diff newest oldest floor in
  let up := Z.max (sp_difficulty * 5 / 4) (sp_difficulty + 1) in
  let down := Z.max (sp_difficulty * 3 / 4) floor in
  wrap 64 (clamp scaled down up).

Section state.
Context `{!Crypto, !DualCrypto, !BodyCodec, !NodeEnv}.

(** [expected_difficulty_at]: the floor reads the live [minted_supply]. *)
Definition expected_difficulty_at (s : ChainState) (parents : list Hash) (timestamp_ms : Z) : Z :=
  let floor := era_min_difficulty lab_easy (minted_supply (cs_ledger s)) timestamp_ms in
  match select_parent (cs_ghostdag s) parents with
  | None => floor
  | Some selected_parent =>
      let sp_difficulty :=
        Z.max (from_option blk_difficulty (effective_min_difficulty lab_easy) (cs_dag s !! selected_parent)) floor in
      let samples := collect_daa_blue_samples (cs_dag s) (cs_ghostdag s) selected_parent in
      let daa := if len samples <? DAA_WINDOW then sp_difficulty else daa_retarget samples sp_difficulty floor in
      Z.max daa floor
  end.

(** [expected_difficulty]. *)
Definition max_timestamp (dag : Dag) (hs : list Hash) : option Z :=
  match omap (λ h, blk_timestamp <$> dag !! h) hs with [] => None | ts => Some (zmax_list ts) end.
Definition expected_difficulty (s : ChainState) (parents : list Hash) : Z :=
  let ts := sat_add 64 (default GENESIS_TIMESTAMP_MS (max_timestamp (cs_dag s) parents)) TARGET_BLOCK_TIME_MS in
  expected_difficulty_at s parents ts.

(** ** Replay *)

(** [replay_start]. *)
Definition replay_start (frontier : option Hash) (order : list Hash) : nat :=
  match frontier with
  | None => 0
  | Some f => from_option (λ ix, S ix.1) 0%nat (list_find (λ h, h = f) order)
  end.

(** [apply_block_effects] on the live state. *)
Definition apply_live (s : ChainState) (l : Ledger) (block : Block) : Ledger :=
  apply_block_effects hex_err l (cs_chain_id s) block (gd_blue_score <$> cs_ghostdag s !! block_hash block)
    (selected_tip_blue_score s).
Definition replay_live (s : ChainState) (l : Ledger) (hs : list Hash) : Ledger :=
  foldl (λ l h, from_option (apply_live s l) l (cs_dag s !! h)) l hs.

(** [recompute_virtual_state]. *)
Definition recompute_virtual_state (s : ChainState) : ChainState :=
  let order := canonical_order (cs_dag s) (cs_ghostdag s) (cs_tips s) in
  restore_ledger s (replay_live s (cs_base s) (drop (replay_start (cs_base_frontier s) order) order)).

(** [advance_finalized_base]. *)
Definition advance_finalized_base (s : ChainState) : ChainState :=
  match finality_point s with
  | None => s
  | Some fp =>
      if bool_decide (cs_base_frontier s = Some fp) then s else
      let order := canonical_order (cs_dag s) (cs_ghostdag s) (cs_tips s) in
      match list_find (λ h, h = fp) order with
      | None => s
      | Some (fp_idx, _) =>
          let start := replay_start (cs_base_frontier s) order in
          if (S fp_idx <? start)%nat then s else
          let to_fold := drop start (take (S fp_idx) order) in
          let s := restore_ledger s (replay_live s (cs_base s) to_fold) in
          set_base s (snapshot_ledger s) (cs_base_captured s) (Some fp)
      end
  end.

(** A simulated state of [virtual_state_at] and [post_mergeset_state_root]: its ledger
    and its own GHOSTDAG map, which holds the entries of the blocks replayed into it;
    it has no tips, so its tip score is 0. *)
Definition sim_step (s : ChainState) (sim : Ledger * GdMap) (h : Hash) : Ledger * GdMap :=
  match cs_dag s !! h with
  | None => sim
  | Some block =>
      let g := match cs_ghostdag s !! h with Some d => <[h := d]> sim.2 | None => sim.2 end in
      (apply_block_effects hex_err sim.1 (cs_chain_id s) block (gd_blue_score <$> g !! block_hash block) 0, g)
  end.

(** [virtual_state_at]. *)
Definition virtual_state_at (s : ChainState) (tip : Hash) : Ledger * GdMap :=
  let order := canonical_order_at (cs_dag s) (cs_ghostdag s) tip in
  let start := replay_start (cs_base_frontier s) order in
  foldl (sim_step s) (if cs_base_captured s then cs_base s else cs_ledger s, ∅) (drop start order).

(** [merkle_root_at]. *)
Definition merkle_root_at (s : ChainState) (tip : Hash) : Hash := state_root (virtual_state_at s tip).1.

(** [validate_block_body_against_mergeset_virtual], [post_mergeset_state_root]. *)
Definition validate_block_body_against_mergeset_virtual (s : ChainState) (selected_parent : Hash)
    (mergeset : list Hash) (block : Block) : result unit :=
  let sim := foldl (sim_step s) (virtual_state_at s selected_parent) mergeset in
  let media := from_option (λ d, sat_add 64 (gd_blue_score d) 1) 1 (cs_ghostdag s !! selected_parent) in
  (λ _, ()) <$> simulate_apply_block_body hex_err sim.1 (cs_chain_id s) block 0 media.
Definition post_mergeset_ledger (s : ChainState) (selected_parent : Hash) (mergeset : list Hash) (block : Block)
    (blue_score : Z) : result Ledger :=
  let sim := foldl (sim_step s) (virtual_state_at s selected_parent) mergeset in
  '(l, fees) ← simulate_apply_block_body hex_err sim.1 (cs_chain_id s) block 0 blue_score;
  Ok (apply_block_reward l block blue_score fees).
Definition post_mergeset_state_root (s : ChainState) (selected_parent : Hash) (mergeset : list Hash)
    (block : Block) (blue_score : Z) : result Hash :=
  state_root <$> post_mergeset_ledger s selected_parent mergeset block blue_score.

(** [ledger_via_genesis_replay]: from the ledger of [ChainState::new], which already
    has the genesis entry; a seed taken before the first block lacks its UTXO set. *)
Definition ledger_via_genesis_replay (s : ChainState) (tip : Hash) : option Ledger :=
  let l0 := if cs_base_captured s then Ledger_default
            else set_utxo (cs_ledger s) UtxoSet_default (l_accounts (cs_ledger s)) in
  fst <$> foldl (λ o h, sim ← o; _ ← cs_dag s !! h; Some (sim_step s sim h))
            (Some (l0, {[genesis_hash := GhostdagData_genesis]}))
            (canonical_order_at (cs_dag s) (cs_ghostdag s) tip).

(** [ChainState::new] with [create_genesis]. *)
Definition ChainState_new : ChainState :=
  {| cs_dag := {[genesis_hash := genesis_block]}; cs_tips := [genesis_hash]; cs_main_chain := [genesis_hash];
     cs_ledger := Ledger_default; cs_difficulty := effective_min_difficulty lab_easy; cs_chain_id := CHAIN_ID;
     cs_ghostdag := {[genesis_hash := GhostdagData_genesis]};
     cs_reachability := reach_add_block Reachability_new genesis_hash None [];
     cs_archival := false; cs_base := Ledger_default; cs_base_captured := false; cs_base_frontier := None;
     cs_pruning_point := None; cs_pruning_ledger := None; cs_pruned_selected_blocks := 0;
     cs_pools := Pools_empty |}.
End state.
