(* ===== verification/Chain.v ===== *)
(** * Block admission and pruning

    [add_block], [precheck_block] and [precheck_header] of [src/src/lib.rs] with the
    validation of block bodies they call, the bookkeeping after an insertion, and the
    pruning of bodies and of history.  [src/src/assume_valid.rs] decides when the
    sequential-work proof may be skipped.

    [add_block] performs every check before its first mutation: [check_block] is the
    part that may refuse, [connect_block] the part that changes the state. *)

From S2P Require Import Prelude Genesis Crypto Address Predicate Utxo UtxoTx Registry Custody Block Ledger.
From S2P Require Import Dag Ghostdag Reachability FeeHistory Stark VersionBits Superproof State.

(** [may_skip_stark_verify] of [assume_valid.rs]; [pin] is the configured digest. *)
Definition may_skip_stark_verify (pin : option Hash) (block_hash : Hash) (pin_is_ancestor : Hash → bool) : bool :=
  match pin with
  | None => false
  | Some pin => if block_hash =? pin then true else pin_is_ancestor pin
  end.

(** The loop with [HashSet::insert]: whether some element repeats. *)
Fixpoint has_duplicate (seen : gset Hash) (l : list Hash) : bool :=
  match l with
  | [] => false
  | h :: l => if bool_decide (h ∈ seen) then true else has_duplicate ({[h]} ∪ seen) l
  end.

Section chain.
Context `{!Crypto, !DualCrypto, !BodyCodec, !NodeEnv}.

(** ** Body validation *)

(** [validate_account_forms]. *)
Definition validate_account_forms (chain_id : Z) (transfers : list TransparentTx) : result unit :=
  fail_if negb ACCOUNT_PEER_TRANSFERS && negb (bool_decide (transfers = []))
    as "Account peer transfers disabled (v27); use UTXO for value moves";
  _ ← try_fold (λ _ tx,
        _ ← map_err (λ e, "Transparent tx: " +:+ e) (tt_validate_form tx);
        fail_if negb (tt_chain_id tx =? chain_id) as "Transparent tx: wrong chain_id";
        Ok ()) () transfers;
  fail_if existsb (λ tx, negb (tt_verify tx)) transfers as "Transparent tx: invalid signature";
  Ok ().

(** [validate_utxo_forms]: [seen] collects the outpoints spent in the block. *)
Definition spend_once (seen : gset OutPoint) (tin : TxIn) : result (gset OutPoint) :=
  fail_if bool_decide (previous tin ∈ seen) as "Utxo tx: duplicate outpoint within block";
  Ok ({[previous tin]} ∪ seen).
Definition validate_utxo_forms (chain_id_ : Z) (txs : list UtxoTx) : result unit :=
  _ ← try_fold (λ seen tx,
        _ ← map_err (λ e, "Utxo tx: " +:+ e) (validate_form tx);
        fail_if negb (chain_id tx =? chain_id_) as "Utxo tx: wrong chain_id";
        try_fold spend_once seen (inputs tx)) ∅ txs;
  fail_if existsb (λ tx, negb (verify tx)) txs as "Utxo tx: invalid signature";
  Ok ().

(** The anchor test shared by [validate_custody_ops] and [admit_custody_to_mempool]. *)
Definition check_custody_anchor (dag : Dag) (op : CustodyCertificate) : result unit :=
  anchor ← ok_or (dag !! cc_block_hash op) "Custody: anchor block unknown";
  fail_if bool_decide (blk_stark_proof anchor = []) || bool_decide (blk_birth_certificate anchor = [])
    as "Custody: anchor block has no consensus witnesses";
  fail_if negb (bool_decide (cc_settlement_id op = hex_encode (settlement_id anchor)))
    as "Custody: settlement_id does not match anchor block";
  fail_if negb (bool_decide (cc_issuer_pubkey op = blk_creator_pubkey anchor))
    as "Custody: issuer_pubkey does not match anchor block";
  fail_if negb (bool_decide (cc_birth_certificate op = blk_birth_certificate anchor))
    as "Custody: birth certificate does not match anchor block";
  Ok ().

(** [validate_custody_ops]. *)
Definition validate_custody_op (dag : Dag) (chain_id : Z) (op : CustodyCertificate) : result unit :=
  fail_if bool_decide (cc_kind op = BridgeExit) || bool_decide (cc_kind op = BridgeEnter)
    as "Bridge exit/enter disabled until a real cross-chain bridge ships";
  fail_if negb (cc_chain_id op =? chain_id) as "Wrong chain_id on custody op";
  fail_if cc_amount op =? 0 as "Custody amount must be > 0";
  fail_if negb (is_valid_address (cc_owner op)) as "Invalid custody owner address";
  sid ← parse_settlement_id hex_err "bad settlement id" (cc_settlement_id op);
  _ ← map_err (λ e, "Custody: " +:+ e) (custody_verify op sid);
  check_custody_anchor dag op.
Definition validate_custody_ops (dag : Dag) (chain_id : Z) (ops : list CustodyCertificate) : result unit :=
  try_fold (λ _ op, validate_custody_op dag chain_id op) () ops.

(** [validate_block_transactions]. *)
Definition validate_block_transactions (s : ChainState) (block : Block) : result unit :=
  _ ← validate_account_forms (cs_chain_id s) (blk_transparent_txs block);
  _ ← validate_utxo_forms (cs_chain_id s) (blk_utxo_txs block);
  _ ← validate_registry_ops (cs_chain_id s) (blk_registry_ops block);
  validate_custody_ops (cs_dag s) (cs_chain_id s) (blk_custody_ops block).

(** ** Header checks *)

(** [bincode::serialize(b).unwrap_or_default().len()]; [Block::base_size]. *)
Definition wire_size (b : Block) : Z := default 0 (ser_block_len b).
Definition without_witness (b : Block) : Block :=
  {| blk_height := blk_height b; blk_timestamp := blk_timestamp b; blk_parents := blk_parents b;
     blk_interlinks := blk_interlinks b; blk_transparent_txs := blk_transparent_txs b;
     blk_utxo_txs := blk_utxo_txs b; blk_registry_ops := blk_registry_ops b;
     blk_custody_ops := blk_custody_ops b; blk_merkle_root := blk_merkle_root b;
     blk_state_root := blk_state_root b; blk_miner := blk_miner b;
     blk_creator_pubkey := blk_creator_pubkey b; blk_nonce := blk_nonce b;
     blk_difficulty := blk_difficulty b; blk_version := blk_version b;
     blk_coinbase_entropy := blk_coinbase_entropy b; blk_stark_proof := [];
     blk_birth_certificate := []; blk_size := blk_size b |}.
Definition base_size (b : Block) : Z := wire_size (without_witness b).
Definition verify_size (b : Block) : bool := base_size b <=? MAX_BLOCK_SIZE.

Definition verify_stark_proof (block : Block) : bool :=
  stark_verify (hash_bytes (block_hash block)) (blk_stark_proof block).

Definition expected_interlinks (s : ChainState) (selected_parent : Hash) : list Hash :=
  from_option compute_interlinks [] (cs_dag s !! selected_parent).

(** The parent loop of [precheck_block]: duplicate first, then unknown, per parent. *)
Fixpoint precheck_parents (dag : Dag) (seen : gset Hash) (l : list Hash) : result unit :=
  match l with
  | [] => Ok ()
  | p :: l =>
      fail_if bool_decide (p ∈ seen) as "Duplicate parent in block";
      fail_if negb (bool_decide (p ∈ dom dag)) as "Unknown parent block";
      precheck_parents dag ({[p]} ∪ seen) l
  end.

(** [precheck_header]. *)
Definition precheck_header (s : ChainState) (header : Block) : result unit :=
  fail_if bool_decide (block_hash header ∈ dom (cs_dag s)) as "Block already known";
  fail_if bool_decide (blk_parents header = []) as "Block has no parents";
  fail_if MAX_BLOCK_PARENTS <? len (blk_parents header) as "Too many parents";
  _ ← precheck_parents (cs_dag s) ∅ (blk_parents header);
  fail_if negb (blk_difficulty header =? expected_difficulty_at s (blk_parents header) (blk_timestamp header))
    as "Wrong difficulty";
  fail_if negb (verify_pow (block_hash header) (blk_difficulty header)) as "Invalid proof of work";
  selected_parent ← ok_or (select_parent (cs_ghostdag s) (blk_parents header)) "Cannot select parent";
  fail_if negb (bool_decide (blk_interlinks header = expected_interlinks s selected_parent))
    as "interlinks do not match selected parent";
  Ok ().

(** [precheck_block]. *)
Definition precheck_block (s : ChainState) (block : Block) : result unit :=
  fail_if bool_decide (block_hash block ∈ dom (cs_dag s)) as "Block already known";
  fail_if negb (verify_size block) as "Block base exceeds 22KB limit";
  fail_if MAX_BLOCK_BYTES <? wire_size block as "Block (with witness) exceeds total size limit";
  fail_if bool_decide (blk_parents block = []) as "Block has no parents";
  fail_if MAX_BLOCK_PARENTS <? len (blk_parents block) as "Too many parents";
  _ ← precheck_parents (cs_dag s) ∅ (blk_parents block);
  fail_if negb (blk_difficulty block =? expected_difficulty_at s (blk_parents block) (blk_timestamp block))
    as "Wrong difficulty";
  fail_if negb (verify_pow (block_hash block) (blk_difficulty block)) as "Invalid proof of work";
  fail_if bool_decide (blk_stark_proof block = []) || bool_decide (blk_birth_certificate block = [])
    as "Header-only / empty-witness blocks are not consensus-admissible";
  _ ← map_err (λ e, "Invalid STARK proof: " +:+ e) (precheck_format (blk_stark_proof block));
  selected_parent ← ok_or (select_parent (cs_ghostdag s) (blk_parents block)) "Cannot select parent";
  fail_if negb (bool_decide (blk_interlinks block = expected_interlinks s selected_parent))
    as "interlinks do not match selected parent";
  Ok ().

(** [header_work_units]. *)
Definition header_work_units (difficulty : Z) : Z := sat_add 128 difficulty 1.

(** ** Admission *)

(** The finality rule of [add_block]: only a definite [Some(false)] refuses. *)
Definition finality_violation (s : ChainState) (parents : list Hash) : bool :=
  match finality_point s, select_parent (cs_ghostdag s) parents with
  | Some fp, Some sp => bool_decide (is_chain_ancestor (cs_reachability s) fp sp = Some false)
  | _, _ => false
  end.

(** The checks of [add_block], in order; [now] is [now_ms()]. *)
Definition check_block (s : ChainState) (now : Z) (block : Block) : result GhostdagData :=
  let hash := block_hash block in
  fail_if bool_decide (hash ∈ dom (cs_dag s)) as "Block already known";
  fail_if negb (verify_size block) as "Block base exceeds 22KB limit";
  fail_if MAX_BLOCK_BYTES <? wire_size block as "Block (with witness) exceeds total size limit";
  fail_if bool_decide (blk_parents block = []) as "Block has no parents";
  fail_if MAX_BLOCK_PARENTS <? len (blk_parents block)
    as ("Too many parents: " +:+ pretty (len (blk_parents block)) +:+ " exceeds cap " +:+ pretty MAX_BLOCK_PARENTS);
  fail_if has_duplicate ∅ (blk_parents block) as "Duplicate parent in block";
  fail_if existsb (λ p, negb (bool_decide (p ∈ dom (cs_dag s)))) (blk_parents block) as "Unknown parent block";
  fail_if finality_violation s (blk_parents block)
    as "Finality violation: block's selected chain does not include the finality point";
  let required_difficulty := expected_difficulty_at s (blk_parents block) (blk_timestamp block) in
  fail_if negb (blk_difficulty block =? required_difficulty)
    as ("Wrong difficulty: block's past requires " +:+ pretty required_difficulty +:+ ", block claims " +:+
        pretty (blk_difficulty block));
  fail_if negb (verify_pow hash (blk_difficulty block)) as "Invalid proof of work";
  fail_if bool_decide (blk_stark_proof block = []) || bool_decide (blk_birth_certificate block = [])
    as "Header-only / empty-witness blocks are not consensus-admissible";
  _ ← map_err (λ e, "Invalid STARK proof: " +:+ e) (precheck_format (blk_stark_proof block));
  selected_parent ← ok_or (select_parent (cs_ghostdag s) (blk_parents block)) "Cannot select parent";
  fail_if negb (bool_decide (blk_interlinks block = expected_interlinks s selected_parent))
    as "interlinks do not match selected parent";
  fail_if negb (blk_merkle_root block =? body_root block)
    as "merkle_root does not commit to the block's transactions";
  let max_parent_ts := default 0 (max_timestamp (cs_dag s) (blk_parents block)) in
  fail_if blk_timestamp block <? max_parent_ts as "Block timestamp predates its parents";
  let mtp := past_median_time s selected_parent in
  fail_if blk_timestamp block <=? mtp
    as ("Block timestamp " +:+ pretty (blk_timestamp block) +:+ " not beyond past median time " +:+ pretty mtp);
  fail_if sat_add 64 now MAX_FUTURE_DRIFT_MS <? blk_timestamp block as "Block timestamp too far in the future";
  let skip_stark := may_skip_stark_verify pinned_digest hash
    (λ pin, bool_decide (pin ∈ dom (cs_dag s)) && reach_is_ancestor (cs_reachability s) (cs_dag s) hash pin) in
  fail_if negb skip_stark && negb (verify_stark_proof block) as "Invalid STARK proof";
  _ ← verify_issuance block;
  _ ← validate_block_transactions s block;
  gd ← try_compute_ghostdag_data (cs_reachability s) (cs_dag s) (cs_ghostdag s) (blk_parents block) MAX_MERGESET_SIZE;
  expected_state_root ← post_mergeset_state_root s selected_parent (merged gd) block (gd_blue_score gd);
  fail_if negb (blk_state_root block =? expected_state_root)
    as "state_root does not match post-mergeset tip state";
  Ok gd.

(** The insertion into the graph: DAG, GHOSTDAG data, reachability, tips. *)
Definition insert_block (s : ChainState) (block : Block) (gd : GhostdagData) : ChainState :=
  let hash := block_hash block in
  let tips := foldl (λ ts p, List.filter (λ t, negb (t =? p)) ts) (cs_tips s) (blk_parents block) ++ [hash] in
  set_graph s (<[hash := block]> (cs_dag s)) tips (<[hash := gd]> (cs_ghostdag s))
    (reach_add_block (cs_reachability s) hash (gd_selected_parent gd) (merged gd)).

(** The first block captures the seeded ledger as the base. *)
Definition capture_base (s : ChainState) : ChainState :=
  if cs_base_captured s then s else set_base s (snapshot_ledger s) true (cs_base_frontier s).

(** ** Fee samples and mempools *)

Definition with_fee_history (p : Pools) (h : FeeRateHistory) : Pools :=
  {| transparent_mempool := transparent_mempool p; utxo_mempool := utxo_mempool p;
     registry_mempool := registry_mempool p; custody_mempool := custody_mempool p;
     tx_first_seen_ms := tx_first_seen_ms p; tx_first_seen_blue := tx_first_seen_blue p; fee_history := h |}.

(** The samples of one block, [record_selected_chain_fee_samples]. *)
Definition fee_sample (p : Pools) (blue : Z) (block : Block) : list Z * list Z :=
  let lag h := from_option (λ seen, sat_sub blue seen) 0 (tx_first_seen_blue p !! h) in
  let entries := ((λ tx, (tt_fee tx, Z.max (tt_relay_bytes tx) 1, lag (tt_tx_hash tx))) <$> blk_transparent_txs block) ++
                 ((λ tx, (fee tx, Z.max (relay_bytes tx) 1, lag (tx_id tx))) <$> blk_utxo_txs block) in
  let feerates := (λ e, e.1.1 / e.1.2) <$> entries in
  let lags := (λ e, e.2) <$> entries in
  if 1 <? len entries then
    let pkg_fee := wrap 128 (zsum ((λ e, e.1.1) <$> entries)) in
    let pkg_bytes := Z.max (wrap 128 (zsum ((λ e, e.1.2) <$> entries))) 1 in
    (feerates ++ [pkg_fee / pkg_bytes], lags ++ [zmax_list lags])
  else (feerates, lags).

Definition record_selected_chain_fee_samples (s : ChainState) : ChainState :=
  match selected_tip (cs_ghostdag s) (cs_tips s) with
  | None => s
  | Some tip =>
      let p := cs_pools s in
      let last_recorded := from_option fs_blue_score 0 (last (samples (fee_history p))) in
      let pending := omap (λ h,
        gd ← cs_ghostdag s !! h;
        if gd_blue_score gd <=? last_recorded then None else
        block ← cs_dag s !! h;
        if len (blk_transparent_txs block) + len (blk_utxo_txs block) =? 0 then None else
        Some (gd_blue_score gd, fee_sample p (gd_blue_score gd) block))
        (selected_chain (cs_ghostdag s) tip) in
      set_pools s (with_fee_history p
        (foldl (λ h '(bs, (rates, lags)), record h bs rates lags) (fee_history p) pending))
  end.

(** [drop_included_from_mempools]. *)
Definition drop_included (p : Pools) (block : Block) : Pools :=
  {| transparent_mempool := List.filter (λ tx, negb (existsb (λ btx,
        bool_decide (tt_from btx = tt_from tx) && (tt_nonce btx =? tt_nonce tx)) (blk_transparent_txs block)))
        (transparent_mempool p);
     utxo_mempool := List.filter (λ tx, negb (existsb (λ btx, tx_id btx =? tx_id tx) (blk_utxo_txs block)))
        (utxo_mempool p);
     registry_mempool := List.filter (λ op, negb (existsb (λ bop,
        bool_decide (signer_address bop = signer_address op) && (op_nonce bop =? op_nonce op)) (blk_registry_ops block)))
        (registry_mempool p);
     custody_mempool := List.filter (λ op, negb (existsb (λ bop,
        bool_decide (cc_owner bop = cc_owner op) && (cc_nonce bop =? cc_nonce op) &&
        bool_decide (cc_kind bop = cc_kind op)) (blk_custody_ops block)))
        (custody_mempool p);
     tx_first_seen_ms := tx_first_seen_ms p;
     tx_first_seen_blue :=
        foldl (λ m h, delete h m) (tx_first_seen_blue p)
          ((tt_tx_hash <$> blk_transparent_txs block) ++ (tx_id <$> blk_utxo_txs block));
     fee_history := fee_history p |}.
Definition drop_included_from_mempools (s : ChainState) (block : Block) : ChainState :=
  set_pools s (drop_included (cs_pools s) block).

(** The cached difficulty for the next block. *)
Definition cache_difficulty (s : ChainState) : ChainState :=
  let tip_ts := default GENESIS_TIMESTAMP_MS (max_timestamp (cs_dag s) (cs_tips s)) in
  set_difficulty s (expected_difficulty_at s (cs_tips s) (sat_add 64 tip_ts TARGET_BLOCK_TIME_MS)).

(** ** Pruning *)

(** [is_body_empty], [is_body_pruned]. *)
Definition is_body_empty (b : Block) : bool :=
  bool_decide (blk_transparent_txs b = [] ∧ blk_utxo_txs b = []) &&
  bool_decide (blk_registry_ops b = [] ∧ blk_custody_ops b = []) &&
  bool_decide (blk_stark_proof b = [] ∧ blk_birth_certificate b = []).
Definition is_body_pruned (s : ChainState) (hash : Hash) : bool := from_option is_body_empty false (cs_dag s !! hash).

Definition clear_body (b : Block) : Block :=
  {| blk_height := blk_height b; blk_timestamp := blk_timestamp b; blk_parents := blk_parents b;
     blk_interlinks := blk_interlinks b; blk_transparent_txs := []; blk_utxo_txs := [];
     blk_registry_ops := []; blk_custody_ops := []; blk_merkle_root := blk_merkle_root b;
     blk_state_root := blk_state_root b; blk_miner := blk_miner b;
     blk_creator_pubkey := blk_creator_pubkey b; blk_nonce := blk_nonce b;
     blk_difficulty := blk_difficulty b; blk_version := blk_version b;
     blk_coinbase_entropy := blk_coinbase_entropy b; blk_stark_proof := [];
     blk_birth_certificate := []; blk_size := blk_size b |}.

(** [prune_bodies]. *)
Definition body_buried (s : ChainState) (threshold : Z) (h : Hash) : bool :=
  match cs_dag s !! h with
  | Some b => (from_option gd_blue_score U64_MAX (cs_ghostdag s !! h) <=? threshold) && negb (is_body_empty b)
  | None => false
  end.
Definition prune_body (s : ChainState) (h : Hash) : ChainState :=
  set_graph s (alter clear_body h (cs_dag s)) (cs_tips s) (cs_ghostdag s) (drop_leaf (cs_reachability s) h).
Definition prune_bodies (s : ChainState) : ChainState :=
  if cs_archival s then s else
  let tip_score := selected_tip_blue_score s in
  if tip_score <=? FINALITY_DEPTH then s else
  let threshold := tip_score - FINALITY_DEPTH in
  foldl prune_body s (List.filter (body_buried s threshold) (dag_keys (cs_dag s))).

(** Cutting the links to discarded selected parents. *)
Definition reroot (keep : gset Hash) (d : GhostdagData) : GhostdagData :=
  {| gd_blue_score := gd_blue_score d;
     gd_selected_parent := gd_selected_parent d ≫= (λ sp, if bool_decide (sp ∈ keep) then Some sp else None);
     gd_mergeset_blues := gd_mergeset_blues d; gd_mergeset_reds := gd_mergeset_reds d |}.

(** The part of [prune_history] that discards everything outside [keep]. *)
Definition retain_graph (s : ChainState) (keep : gset Hash) : ChainState :=
  set_graph s (filter (λ hb, hb.1 ∈ keep) (cs_dag s)) (List.filter (λ t, bool_decide (t ∈ keep)) (cs_tips s))
    (reroot keep <$> filter (λ hd, hd.1 ∈ keep) (cs_ghostdag s)) (retain (cs_reachability s) keep).

Definition kept_blocks (s : ChainState) (pp_score : Z) : gset Hash :=
  filter (λ h, from_option (λ d, pp_score <=? gd_blue_score d) true (cs_ghostdag s !! h) = true) (dom (cs_dag s)).

(** [prune_history]. *)
Definition prune_history (s : ChainState) : ChainState :=
  if cs_archival s then s else
  match selected_tip (cs_ghostdag s) (cs_tips s) with
  | None => s
  | Some tip =>
      let tip_score := score_of (cs_ghostdag s) tip in
      if tip_score <=? PRUNING_DEPTH then s else
      let threshold := tip_score - PRUNING_DEPTH in
      let below := chain_below (cs_ghostdag s) threshold (selected_chain (cs_ghostdag s) tip) in
      match last below with
      | None => s
      | Some pp =>
          let pp_index_in_chain := len below - 1 in
          let keep := kept_blocks s (score_of (cs_ghostdag s) pp) in
          if bool_decide (size keep = size (cs_dag s)) then s else
          let s := retain_graph s keep in
          let pruned := wrap 64 (cs_pruned_selected_blocks s + pp_index_in_chain) in
          let pl := match ledger_via_genesis_replay s pp with
                    | Some ledger =>
                        if bool_decide (blk_state_root <$> cs_dag s !! pp = Some (state_root ledger))
                        then Some ledger else cs_pruning_ledger s
                    | None => cs_pruning_ledger s
                    end in
          order_main_chain (set_pruning s (Some pp) pl pruned)
      end
  end.

(** ** [add_block] *)

(** What follows the checks. *)
Definition update_ledger (s : ChainState) : ChainState :=
  recompute_virtual_state (advance_finalized_base (capture_base (order_main_chain s))).
Definition connect_block (s : ChainState) (block : Block) (gd : GhostdagData) : ChainState :=
  let s := update_ledger (insert_block s block gd) in
  let s := drop_included_from_mempools (record_selected_chain_fee_samples s) block in
  prune_history (prune_bodies (cache_difficulty s)).

Definition add_block (s : ChainState) (now : Z) (block : Block) : result ChainState :=
  gd ← check_block s now block; Ok (connect_block s block gd).

(** [bind_parent_commitments]. *)
Definition with_commitments (b : Block) (interlinks : list Hash) (state_root : Hash) : Block :=
  {| blk_height := blk_height b; blk_timestamp := blk_timestamp b; blk_parents := blk_parents b;
     blk_interlinks := interlinks; blk_transparent_txs := blk_transparent_txs b;
     blk_utxo_txs := blk_utxo_txs b; blk_registry_ops := blk_registry_ops b;
     blk_custody_ops := blk_custody_ops b; blk_merkle_root := blk_merkle_root b;
     blk_state_root := state_root; blk_miner := blk_miner b;
     blk_creator_pubkey := blk_creator_pubkey b; blk_nonce := blk_nonce b;
     blk_difficulty := blk_difficulty b; blk_version := blk_version b;
     blk_coinbase_entropy := blk_coinbase_entropy b; blk_stark_proof := blk_stark_proof b;
     blk_birth_certificate := blk_birth_certificate b; blk_size := blk_size b |}.
Definition bind_parent_commitments (s : ChainState) (block : Block) : result Block :=
  gd ← try_compute_ghostdag_data (cs_reachability s) (cs_dag s) (cs_ghostdag s) (blk_parents block) MAX_MERGESET_SIZE;
  sp ← ok_or (gd_selected_parent gd) "Cannot select parent for commitments";
  let block := with_commitments block (expected_interlinks s sp) (blk_state_root block) in
  root ← post_mergeset_state_root s sp (merged gd) block (gd_blue_score gd);
  Ok (with_commitments block (blk_interlinks block) root).
End chain.
