(* ===== verification/ChainInv.v ===== *)
(** * The invariant of block admission

    What [add_block] maintains on a node that keeps its history: the graph, its
    GHOSTDAG data and index are those of [rbuilt]; the tips are the childless blocks;
    the main chain is the selected chain; the finalised base is the replay of the
    canonical order up to the finality point, and the live ledger the replay of all
    of it.  Consequences: the ledger is a function of the set of blocks; finality is
    irreversible; the header of the selected tip commits to the live ledger. *)

From S2P Require Import Prelude Genesis Crypto Address Predicate Utxo UtxoTx Registry Custody Block Ledger.
From S2P Require Import Dag Ghostdag Reachability Reindex ReachBuild Determinism.
From S2P Require Import FeeHistory Stark VersionBits Superproof State Chain.

(** ** Selected chains *)

Lemma key_le_antisym gd a b : key_le gd a b = true → key_le gd b a = true → a = b.
Proof. rewrite !key_le_spec. lia. Qed.

Section walks.
Context (dag : Dag) (gd : GdMap) (Hi : dag_inv dag gd).

Lemma chain_dom h x : h ∈ dom gd → x ∈ selected_chain gd h → x ∈ dom gd.
Proof.
  intros Hh. revert h Hh x. refine (gd_ind gd _ (inv_wf _ _ Hi) _). intros h d Hd IH x.
  rewrite (selected_chain_eq gd h d (inv_wf _ _ Hi) Hd), elem_of_app, list_elem_of_singleton.
  intros [Hx| ->]; [|by eapply elem_of_dom_2].
  destruct (gd_selected_parent d) as [s|]; [by apply (IH s)|by apply not_elem_of_nil in Hx].
Qed.

(** The chain and the order of a block extend those of every block of its chain. *)
Lemma chain_prefix h x :
  h ∈ dom gd → x ∈ selected_chain gd h →
  (∃ l, selected_chain gd h = selected_chain gd x ++ l) ∧
  (∃ l, canonical_order_at dag gd h = canonical_order_at dag gd x ++ l).
Proof.
  intros Hh. revert h Hh x. refine (gd_ind gd _ (inv_wf _ _ Hi) _). intros h d Hd IH x Hx.
  destruct (decide (x = h)) as [->|Hne]; [split; exists []; by rewrite app_nil_r|].
  destruct (canonical_order_at_spec dag gd h d Hi Hd) as (_ & _ & ->).
  rewrite (selected_chain_eq gd h d (inv_wf _ _ Hi) Hd) in Hx |- *.
  apply elem_of_app in Hx as [Hx|Hx%list_elem_of_singleton]; [|done].
  destruct (gd_selected_parent d) as [s|]; [|by apply not_elem_of_nil in Hx]. simpl in *.
  destruct (IH s eq_refl x Hx) as [[l1 ->] [l2 ->]]. rewrite <- !app_assoc. eauto.
Qed.

Lemma chain_self h : h ∈ dom gd → h ∈ selected_chain gd h.
Proof.
  intros [d Hd]%elem_of_dom. rewrite (selected_chain_eq gd h d (inv_wf _ _ Hi) Hd). set_solver.
Qed.

Lemma chain_trans x y z : z ∈ dom gd → x ∈ selected_chain gd y → y ∈ selected_chain gd z → x ∈ selected_chain gd z.
Proof. intros Hz Hx Hy. destruct (chain_prefix z y Hz Hy) as [[l ->] _]. set_solver. Qed.

Lemma chain_score_le h x : h ∈ dom gd → x ∈ selected_chain gd h → score_of gd x <= score_of gd h.
Proof.
  intros Hh. revert h Hh x. refine (gd_ind gd _ (inv_wf _ _ Hi) _). intros h d Hd IH x.
  rewrite (selected_chain_eq gd h d (inv_wf _ _ Hi) Hd), elem_of_app, list_elem_of_singleton.
  intros [Hx| ->]; [|lia]. destruct (gd_selected_parent d) as [s|] eqn:Hs; [|by apply not_elem_of_nil in Hx].
  specialize (IH s eq_refl x Hx). destruct (inv_wf _ _ Hi h d s Hd Hs) as (ds & Hds & Hlt).
  unfold score_of in *. rewrite Hd. rewrite Hds in IH. simpl in *. lia.
Qed.

Lemma chain_sorted h : h ∈ dom gd → StronglySorted (λ x y, score_of gd x < score_of gd y) (selected_chain gd h).
Proof.
  intros Hh. revert h Hh. refine (gd_ind gd _ (inv_wf _ _ Hi) _). intros h d Hd IH.
  rewrite (selected_chain_eq gd h d (inv_wf _ _ Hi) Hd). apply StronglySorted_app. split_and!; [|  |repeat constructor].
  - intros x y Hx ->%list_elem_of_singleton. destruct (gd_selected_parent d) as [s|] eqn:Hs; [|by apply not_elem_of_nil in Hx].
    destruct (inv_wf _ _ Hi h d s Hd Hs) as (ds & Hds & Hlt).
    pose proof (chain_score_le s x ltac:(by eapply elem_of_dom_2) Hx).
    unfold score_of in *. rewrite Hd. rewrite Hds in *. simpl in *. lia.
  - destruct (gd_selected_parent d) as [s|]; [by apply IH|constructor].
Qed.

Lemma chain_NoDup h : h ∈ dom gd → NoDup (selected_chain gd h).
Proof.
  intros Hh. pose proof (chain_sorted h Hh) as Hs. clear -Hs. induction Hs as [|x l _ IH Hx]; constructor; [|done].
  intros Hin. rewrite Forall_forall in Hx. specialize (Hx x Hin). lia.
Qed.

(** The blocks of the chain below a threshold are a prefix of it. *)
Lemma chain_below_spec th l :
  (∀ x, x ∈ l → x ∈ dom gd) → StronglySorted (λ x y, score_of gd x < score_of gd y) l →
  (∃ k, l = chain_below gd th l ++ k) ∧
  ∀ x, x ∈ chain_below gd th l ↔ x ∈ l ∧ score_of gd x <= th.
Proof.
  induction l as [|h l IH]; intros Hd Hs; [split; [by exists []|set_solver]|].
  apply StronglySorted_inv in Hs as [Hs Hh]. rewrite Forall_forall in Hh.
  destruct IH as [[k Hk] Hin]; [set_solver|done|]. cbn [chain_below].
  assert (from_option gd_blue_score U64_MAX (gd !! h) = score_of gd h) as ->.
  { unfold score_of. destruct (proj1 (elem_of_dom gd h) (Hd h ltac:(set_solver))) as [d ->]. done. }
  destruct (Z.leb_spec (score_of gd h) th).
  - split; [exists k; by rewrite Hk at 1|]. intros x. rewrite !elem_of_cons, Hin. naive_solver lia.
  - split; [by exists (h :: l)|]. intros x. split; [set_solver|].
    intros [[->|Hx]%elem_of_cons Hle]; [lia|]. specialize (Hh x Hx). lia.
Qed.

(** The last block below the threshold is above every other one on the chain. *)
Lemma chain_below_last th h x :
  h ∈ dom gd → x ∈ selected_chain gd h → score_of gd x <= th →
  ∃ y, last (chain_below gd th (selected_chain gd h)) = Some y ∧ y ∈ selected_chain gd h ∧
       score_of gd y <= th ∧ x ∈ selected_chain gd y.
Proof.
  intros Hh Hx Hle. destruct (chain_below_spec th (selected_chain gd h)) as [[k Hk] Hin];
    [intros y; by apply chain_dom|by apply chain_sorted|].
  set (B := chain_below gd th (selected_chain gd h)) in *.
  assert (x ∈ B) as HxB by by apply Hin. destruct (last B) as [y|] eqn:Hy; [|apply last_None in Hy; rewrite Hy in HxB; by apply not_elem_of_nil in HxB].
  assert (y ∈ B) as HyB by by apply last_Some_elem_of. apply Hin in HyB as [Hyc Hyle].
  exists y. split_and!; [done..|]. apply last_Some in Hy as [B' HB'].
  destruct (chain_prefix h y Hh Hyc) as [[l Hl] _].
  (* both [selected_chain y] and [B] are prefixes of the chain that end in [y] *)
  pose proof (chain_sorted h Hh) as Hs. destruct (decide (x = y)) as [->|Hne].
  { by apply chain_self, (chain_dom h). }
  assert (x ∈ B') as HxB' by (rewrite HB' in HxB; set_solver).
  rewrite Hl in Hx. apply elem_of_app in Hx as [?|Hxl]; [done|]. exfalso.
  assert (score_of gd x < score_of gd y) as Hlt.
  { rewrite Hk, HB', <- app_assoc in Hs. apply (StronglySorted_app_1_elem_of _ _ _ x y Hs HxB'). set_solver. }
  assert (score_of gd y < score_of gd x); [|lia].
  rewrite Hl in Hs. apply (StronglySorted_app_1_elem_of _ _ _ y x Hs); [|done].
  by apply chain_self, (chain_dom h).
Qed.

(** The position of a block of the chain in the canonical order. *)
Lemma order_last h d : gd !! h = Some d → ∃ l, canonical_order_at dag gd h = l ++ [h].
Proof. intros Hd. destruct (canonical_order_at_spec dag gd h d Hi Hd) as (_ & _ & ->). rewrite app_assoc. eauto. Qed.

Lemma order_position h x :
  h ∈ dom gd → x ∈ selected_chain gd h →
  ∃ l, canonical_order_at dag gd h = canonical_order_at dag gd x ++ l ∧
       list_find (λ y, y = x) (canonical_order_at dag gd h) =
         Some ((length (canonical_order_at dag gd x) - 1)%nat, x) ∧
       (0 < length (canonical_order_at dag gd x))%nat.
Proof.
  intros Hh Hx. destruct (chain_prefix h x Hh Hx) as [_ [l Hl]]. exists l. split; [done|].
  pose proof (chain_dom h x Hh Hx) as [d Hd]%elem_of_dom. destruct (order_last x d Hd) as [k Hk].
  assert (length (canonical_order_at dag gd x) = S (length k)) as Hlen by (rewrite Hk, length_app; simpl; lia).
  split; [|lia]. apply list_find_Some. split_and!; [|done|].
  - rewrite Hl, Hk, <- app_assoc, length_app. simpl.
    replace (length k + 1 - 1)%nat with (length k) by lia. by apply list_lookup_middle.
  - intros j y Hy Hj ->. pose proof Hh as [dh Hdh]%elem_of_dom.
    destruct (canonical_order_at_spec dag gd h dh Hi Hdh) as (Hnd & _ & _).
    assert (canonical_order_at dag gd h !! (length k) = Some x) as Hx'.
    { rewrite Hl, Hk, <- app_assoc. by apply list_lookup_middle. }
    pose proof (NoDup_lookup _ _ _ _ Hnd Hy Hx'). lia.
Qed.
End walks.

(** ** Replay *)
Section replay.
Context `{!Crypto, !DualCrypto, !BodyCodec, !NodeEnv}.

(** The reference: apply the blocks of a list in order, each with its own blue score. *)
Definition replay (cid : Z) (dag : Dag) (gd : GdMap) (l : Ledger) (hs : list Hash) : Ledger :=
  foldl (λ l h, match dag !! h with
                | Some b => apply_block_effects hex_err l cid b (gd_blue_score <$> gd !! h) 0
                | None => l
                end) l hs.

Lemma replay_one cid dag gd l h b :
  dag !! h = Some b → replay cid dag gd l [h] = apply_block_effects hex_err l cid b (gd_blue_score <$> gd !! h) 0.
Proof. intros Hb. unfold replay. cbn [foldl]. by rewrite Hb. Qed.

Lemma replay_app cid dag gd l hs ks : replay cid dag gd l (hs ++ ks) = replay cid dag gd (replay cid dag gd l hs) ks.
Proof. apply foldl_app. Qed.

Lemma replay_agree cid (dag dag' : Dag) (gd gd' : GdMap) l hs :
  (∀ h, h ∈ hs → dag' !! h = dag !! h ∧ gd' !! h = gd !! h) → replay cid dag' gd' l hs = replay cid dag gd l hs.
Proof.
  revert l. induction hs as [|h hs IH]; intros l Hag; [done|]. unfold replay. simpl.
  destruct (Hag h ltac:(set_solver)) as [-> ->]. apply IH. set_solver.
Qed.

(** Account transfers being disabled, the effects of a block with an entry do not read
    the tip. *)
Lemma effects_tip herr l cid b m t : apply_block_effects herr l cid b (Some m) t = apply_block_effects herr l cid b (Some m) 0.
Proof. unfold apply_block_effects. destruct (bool_decide _); [done|]. by rewrite !effects_transparent_id. Qed.

(** A graph whose keys are the hashes of its blocks. *)
Definition keyed (dag : Dag) : Prop := ∀ h b, dag !! h = Some b → block_hash b = h.

Lemma replay_live_eq s l hs :
  dag_inv (cs_dag s) (cs_ghostdag s) → keyed (cs_dag s) →
  replay_live s l hs = replay (cs_chain_id s) (cs_dag s) (cs_ghostdag s) l hs.
Proof.
  intros Hi Hk. revert l. induction hs as [|h hs IH]; intros l; [done|]. unfold replay_live, replay in *. simpl.
  destruct (cs_dag s !! h) as [b|] eqn:Hb; simpl; [|apply IH]. rewrite IH. f_equal.
  unfold apply_live. rewrite (Hk h b Hb).
  assert (h ∈ dom (cs_ghostdag s)) as [d ->]%elem_of_dom by (rewrite (inv_dom _ _ Hi); by eapply elem_of_dom_2).
  apply effects_tip.
Qed.

Lemma sim_replay s l g hs :
  dag_inv (cs_dag s) (cs_ghostdag s) → keyed (cs_dag s) →
  (foldl (sim_step s) (l, g) hs).1 = replay (cs_chain_id s) (cs_dag s) (cs_ghostdag s) l hs.
Proof.
  intros Hi Hk. revert l g. induction hs as [|h hs IH]; intros l g; [done|]. unfold replay in *. simpl.
  unfold sim_step at 2. destruct (cs_dag s !! h) as [b|] eqn:Hb; simpl; [|apply IH].
  assert (h ∈ dom (cs_ghostdag s)) as [d Hd]%elem_of_dom by (rewrite (inv_dom _ _ Hi); by eapply elem_of_dom_2).
  by rewrite Hd, IH, (Hk h b Hb), lookup_insert_eq.
Qed.

(** The canonical order up to a finality point, if there is one. *)
Definition order_to (dag : Dag) (gd : GdMap) (f : option Hash) : list Hash := from_option (canonical_order_at dag gd) [] f.

Lemma replay_start_prefix dag gd tip f :
  dag_inv dag gd → tip ∈ dom gd → (∀ x, f = Some x → x ∈ selected_chain gd tip) →
  replay_start f (canonical_order_at dag gd tip) = length (order_to dag gd f) ∧
  ∃ l, canonical_order_at dag gd tip = order_to dag gd f ++ l.
Proof.
  intros Hi Ht Hf. destruct f as [x|]; [|split; [done|by eexists]]. simpl.
  destruct (order_position dag gd Hi tip x Ht (Hf x eq_refl)) as (l & Hl & -> & Hpos). simpl.
  split; [lia|]. by exists l.
Qed.

(** ** Finality *)

Lemma finality_point_Some s tip fp :
  dag_inv (cs_dag s) (cs_ghostdag s) → selected_tip (cs_ghostdag s) (cs_tips s) = Some tip →
  finality_point s = Some fp ↔
    FINALITY_DEPTH < score_of (cs_ghostdag s) tip ∧
    last (chain_below (cs_ghostdag s) (score_of (cs_ghostdag s) tip - FINALITY_DEPTH)
            (selected_chain (cs_ghostdag s) tip)) = Some fp.
Proof.
  intros Hi Ht. unfold finality_point. rewrite Ht. simpl.
  destruct (select_parent_Some _ _ _ Ht) as (_ & Hd & _). apply elem_of_dom in Hd as [d Hd].
  unfold score_of. rewrite Hd. simpl. destruct (Z.leb_spec (gd_blue_score d) FINALITY_DEPTH); [|naive_solver].
  split; [done|]. lia.
Qed.

Lemma finality_point_chain s tip fp :
  dag_inv (cs_dag s) (cs_ghostdag s) → selected_tip (cs_ghostdag s) (cs_tips s) = Some tip →
  finality_point s = Some fp →
  fp ∈ selected_chain (cs_ghostdag s) tip ∧ score_of (cs_ghostdag s) fp <= score_of (cs_ghostdag s) tip - FINALITY_DEPTH.
Proof.
  intros Hi Ht Hfp. apply (finality_point_Some s tip fp Hi Ht) in Hfp as [_ Hl].
  destruct (select_parent_Some _ _ _ Ht) as (_ & Hd & _).
  destruct (chain_below_spec _ _ Hi (score_of (cs_ghostdag s) tip - FINALITY_DEPTH)
    (selected_chain (cs_ghostdag s) tip)) as [_ Hin].
  - intros x. by apply (chain_dom _ _ Hi).
  - by apply (chain_sorted _ _ Hi).
  - by apply Hin, last_Some_elem_of.
Qed.

(** ** The ledger update after an insertion *)

Lemma order_main_chain_fields s :
  cs_dag (order_main_chain s) = cs_dag s ∧ cs_tips (order_main_chain s) = cs_tips s ∧
  cs_ghostdag (order_main_chain s) = cs_ghostdag s ∧ cs_reachability (order_main_chain s) = cs_reachability s ∧
  cs_ledger (order_main_chain s) = cs_ledger s ∧ cs_base (order_main_chain s) = cs_base s ∧
  cs_base_captured (order_main_chain s) = cs_base_captured s ∧
  cs_base_frontier (order_main_chain s) = cs_base_frontier s ∧
  cs_chain_id (order_main_chain s) = cs_chain_id s ∧ cs_archival (order_main_chain s) = cs_archival s.
Proof. unfold order_main_chain. destruct (selected_tip _ _); done. Qed.

(** [advance_finalized_base] folds exactly the canonical order up to the finality
    point. *)
Lemma advance_ok L0 s tip :
  dag_inv (cs_dag s) (cs_ghostdag s) → keyed (cs_dag s) → selected_tip (cs_ghostdag s) (cs_tips s) = Some tip →
  (∀ f, cs_base_frontier s = Some f →
     ∃ fp, finality_point s = Some fp ∧ f ∈ selected_chain (cs_ghostdag s) fp) →
  cs_base s = replay (cs_chain_id s) (cs_dag s) (cs_ghostdag s) L0 (order_to (cs_dag s) (cs_ghostdag s) (cs_base_frontier s)) →
  let s' := advance_finalized_base s in
  (∃ l, s' = set_base (restore_ledger s l)
     (replay (cs_chain_id s) (cs_dag s) (cs_ghostdag s) L0 (order_to (cs_dag s) (cs_ghostdag s) (finality_point s)))
     (cs_base_captured s) (finality_point s)).
Proof.
  intros Hi Hk Ht Hf Hb s'. unfold s', advance_finalized_base. clear s'.
  destruct (finality_point s) as [fp|] eqn:Hfp.
  2: { exists (cs_ledger s). destruct (cs_base_frontier s) as [f|] eqn:Hfr; [destruct (Hf f eq_refl) as (fp & ? & _); done|].
       rewrite <- Hb. destruct s; simpl in *. by subst. }
  case_bool_decide as Hfr.
  { exists (cs_ledger s). simpl. rewrite Hfr in Hb. simpl in Hb. rewrite <- Hb. destruct s; simpl in *. by subst. }
  unfold canonical_order. rewrite Ht.
  destruct (select_parent_Some _ _ _ Ht) as (_ & Htd & _).
  destruct (finality_point_chain s tip fp Hi Ht Hfp) as [Hfc _].
  destruct (order_position _ _ Hi tip fp Htd Hfc) as (rest & Hrest & -> & Hpos).
  set (order := canonical_order_at (cs_dag s) (cs_ghostdag s) tip) in *.
  set (ofp := canonical_order_at (cs_dag s) (cs_ghostdag s) fp) in *.
  assert (∀ x, cs_base_frontier s = Some x → x ∈ selected_chain (cs_ghostdag s) fp) as Hff.
  { intros x Hx. destruct (Hf x Hx) as (fp' & [= <-] & ?). done. }
  assert (fp ∈ dom (cs_ghostdag s)) as Hfpd by by apply (chain_dom (cs_dag s) _ Hi tip).
  destruct (replay_start_prefix _ _ tip (cs_base_frontier s) Hi Htd) as [Hstart _].
  { intros x Hx. apply (chain_trans (cs_dag s) _ Hi x fp tip); auto. }
  destruct (replay_start_prefix _ _ fp (cs_base_frontier s) Hi Hfpd Hff) as [_ [sec Hsec]].
  fold order in Hstart. fold ofp in Hsec. rewrite Hstart.
  set (pre := order_to (cs_dag s) (cs_ghostdag s) (cs_base_frontier s)) in *.
  replace (S (length ofp - 1)) with (length ofp) by lia.
  assert (length pre <= length ofp)%nat as Hlen by (rewrite Hsec, length_app; lia).
  rewrite (proj2 (Nat.ltb_ge _ _) Hlen).
  assert (drop (length pre) (take (length ofp) order) = sec) as ->.
  { rewrite Hrest, take_app_length, Hsec. apply drop_app_length. }
  exists (replay_live s (cs_base s) sec). simpl. unfold snapshot_ledger. simpl.
  rewrite replay_live_eq by done. fold ofp. rewrite Hsec, replay_app, <- Hb. done.
Qed.

(** [recompute_virtual_state] on top of that base is the replay of the whole order. *)
Lemma recompute_ok L0 s tip :
  dag_inv (cs_dag s) (cs_ghostdag s) → keyed (cs_dag s) → selected_tip (cs_ghostdag s) (cs_tips s) = Some tip →
  cs_base_frontier s = finality_point s →
  cs_base s = replay (cs_chain_id s) (cs_dag s) (cs_ghostdag s) L0 (order_to (cs_dag s) (cs_ghostdag s) (finality_point s)) →
  recompute_virtual_state s =
    restore_ledger s (replay (cs_chain_id s) (cs_dag s) (cs_ghostdag s) L0
      (canonical_order (cs_dag s) (cs_ghostdag s) (cs_tips s))).
Proof.
  intros Hi Hk Ht Hfr Hb. unfold recompute_virtual_state, canonical_order. rewrite Ht. f_equal.
  destruct (select_parent_Some _ _ _ Ht) as (_ & Htd & _).
  destruct (replay_start_prefix _ _ tip (cs_base_frontier s) Hi Htd) as [-> [l Hl]].
  { intros x Hx. rewrite Hfr in Hx. by apply (finality_point_chain s tip x Hi Ht). }
  rewrite replay_live_eq by done. rewrite Hl at 1. rewrite drop_app_length, Hb, Hl, replay_app, Hfr. done.
Qed.

(** ** What the checks of [add_block] establish *)

Lemma has_duplicate_NoDup seen l : has_duplicate seen l = false → NoDup l ∧ ∀ x, x ∈ l → x ∉ seen.
Proof.
  revert seen. induction l as [|h l IH]; intros seen; cbn [has_duplicate]; [split; [constructor|set_solver]|].
  case_bool_decide as Hh; [done|]. intros [Hnd Hl]%IH. split.
  - apply NoDup_cons. split; [|done]. intros Hin. apply (Hl h Hin). set_solver.
  - intros x [->|Hx]%elem_of_cons; [done|]. specialize (Hl x Hx). set_solver.
Qed.

Lemma check_block_ok s now b gd :
  check_block s now b = Ok gd →
  (block_hash b ∉ dom (cs_dag s)) ∧ blk_parents b ≠ [] ∧ NoDup (blk_parents b) ∧
  (∀ p, p ∈ blk_parents b → p ∈ dom (cs_dag s)) ∧
  finality_violation s (blk_parents b) = false ∧
  blk_difficulty b = expected_difficulty_at s (blk_parents b) (blk_timestamp b) ∧
  verify_pow (block_hash b) (blk_difficulty b) = true ∧
  blk_merkle_root b = body_root b ∧ verify_issuance b = Ok () ∧ validate_block_transactions s b = Ok () ∧
  try_compute_ghostdag_data (cs_reachability s) (cs_dag s) (cs_ghostdag s) (blk_parents b) MAX_MERGESET_SIZE = Ok gd ∧
  ∃ sp, select_parent (cs_ghostdag s) (blk_parents b) = Some sp ∧
    blk_interlinks b = expected_interlinks s sp ∧
    default 0 (max_timestamp (cs_dag s) (blk_parents b)) <= blk_timestamp b ∧
    past_median_time s sp < blk_timestamp b <= sat_add 64 now MAX_FUTURE_DRIFT_MS ∧
    ∃ l, post_mergeset_ledger s sp (merged gd) b (gd_blue_score gd) = Ok l ∧ blk_state_root b = state_root l.
Proof.
  unfold check_block. intros Hc.
  destruct (bool_decide (block_hash b ∈ dom (cs_dag s))) eqn:H1'; [done|].
  destruct (negb (verify_size b)); [done|]. destruct (MAX_BLOCK_BYTES <? _); [done|].
  destruct (bool_decide (blk_parents b = [])) eqn:H2'; [done|]. destruct (MAX_BLOCK_PARENTS <? _); [done|].
  destruct (has_duplicate ∅ (blk_parents b)) eqn:H3'; [done|]. destruct (existsb _ (blk_parents b)) eqn:H4'; [done|].
  destruct (finality_violation s (blk_parents b)) eqn:H5'; [done|].
  destruct (negb (blk_difficulty b =? _)) eqn:H6'; [done|]. destruct (negb (verify_pow _ _)) eqn:H7'; [done|].
  destruct (_ || _); [done|]. destruct (map_err _ _) as [[]|]; [|done]. cbn [mbind result_bind] in Hc.
  destruct (select_parent (cs_ghostdag s) (blk_parents b)) as [sp|] eqn:H8'; [|done]. cbn [ok_or mbind result_bind] in Hc.
  destruct (negb (bool_decide _)) eqn:H9'; [done|]. destruct (negb (blk_merkle_root b =? _)) eqn:H10'; [done|].
  destruct (blk_timestamp b <? _) eqn:H11'; [done|]. destruct (blk_timestamp b <=? _) eqn:H12'; [done|].
  destruct (_ <? blk_timestamp b) eqn:H13'; [done|]. destruct (_ && _); [done|].
  destruct (verify_issuance b) as [[]|] eqn:H14'; [|done]. cbn [mbind result_bind] in Hc.
  destruct (validate_block_transactions s b) as [[]|] eqn:H15'; [|done]. cbn [mbind result_bind] in Hc.
  destruct (try_compute_ghostdag_data _ _ _ _ _) as [d|] eqn:H16'; [|done]. cbn [mbind result_bind] in Hc.
  unfold post_mergeset_state_root in Hc. destruct (post_mergeset_ledger _ _ _ _ _) as [l|] eqn:H17'; [|done].
  cbn [fmap result_fmap mbind result_bind] in Hc.
  destruct (Z.eqb_spec (blk_state_root b) (state_root l)) as [H18'|]; [|done]. injection Hc as <-. zbool.
  apply has_duplicate_NoDup in H3' as [Hnd _].
  assert (∀ p, p ∈ blk_parents b → p ∈ dom (cs_dag s)) as Hps.
  { intros p Hp%list_elem_of_In. destruct (decide (p ∈ dom (cs_dag s))) as [|Hn]; [done|]. exfalso.
    assert (existsb (λ p, negb (bool_decide (p ∈ dom (cs_dag s)))) (blk_parents b) = true); [|congruence].
    apply existsb_exists. exists p. split; [done|]. by rewrite bool_decide_eq_false_2. }
  split_and!; try done. exists sp. split_and!; try done. by exists l.
Qed.

(** ** The invariant *)

Definition childless (dag : Dag) (t : Hash) : Prop := t ∈ dom dag ∧ ∀ h, ¬ edge dag h t.

(** [chain_ok L0 s]: [s] is a state of a node that keeps its history and started with
    the seeded ledger [L0]. *)
Record chain_ok (L0 : Ledger) (s : ChainState) : Prop := {
  ok_graph : rbuilt (cs_dag s) (cs_ghostdag s) (cs_reachability s);
  ok_keyed : keyed (cs_dag s);
  ok_tips t : t ∈ cs_tips s ↔ childless (cs_dag s) t;
  ok_main : ∃ tip, selected_tip (cs_ghostdag s) (cs_tips s) = Some tip ∧
                   cs_main_chain s = selected_chain (cs_ghostdag s) tip;
  ok_frontier : cs_base_frontier s = finality_point s;
  ok_base : if cs_base_captured s
            then cs_base s = replay (cs_chain_id s) (cs_dag s) (cs_ghostdag s) L0
                               (order_to (cs_dag s) (cs_ghostdag s) (cs_base_frontier s))
            else cs_ledger s = L0 ∧ cs_base_frontier s = None;
  ok_ledger : cs_ledger s = replay (cs_chain_id s) (cs_dag s) (cs_ghostdag s) L0
                (canonical_order (cs_dag s) (cs_ghostdag s) (cs_tips s));
}.

Lemma filter_tips (tips ps : list Hash) t :
  t ∈ foldl (λ ts p, List.filter (λ t, negb (t =? p)) ts) tips ps ↔ t ∈ tips ∧ t ∉ ps.
Proof.
  revert tips. induction ps as [|p ps IH]; intros tips; simpl; [set_solver|].
  rewrite IH, elem_of_filter_bool, negb_true_iff, Z.eqb_neq. set_solver.
Qed.

Section insertion.
Context (L0 : Ledger) (s : ChainState) (now : Z) (b : Block) (d : GhostdagData).
Context (Hok : chain_ok L0 s) (Hc : check_block s now b = Ok d).
Context (Hsz : Z.of_nat (size (cs_dag s)) * SCALE < SPACE_END).

Abbreviation h := (block_hash b).
Abbreviation dag := (cs_dag s).
Abbreviation gd := (cs_ghostdag s).
Abbreviation s1 := (insert_block s b d).
Abbreviation dag1 := (cs_dag s1).
Abbreviation gd1 := (cs_ghostdag s1).

Lemma ins_rbuilt : rbuilt dag1 gd1 (cs_reachability s1).
Proof.
  destruct (check_block_ok _ _ _ _ Hc) as (Hn & Hne & _ & Hps & _ & _ & _ & _ & _ & _ & Hcomp & _).
  by eapply (rbuilt_add dag gd (cs_reachability s) h b MAX_MERGESET_SIZE d); [apply Hok|..].
Qed.

Lemma ins_agree :
  dag_inv dag gd ∧ dag_inv dag1 gd1 ∧ (∀ x, x ∈ dom dag → dag1 !! x = dag !! x) ∧
  (∀ x, x ∈ dom dag → gd1 !! x = gd !! x) ∧ (∀ x p, x ∈ dom dag → edge dag x p → p ∈ dom dag).
Proof.
  destruct (check_block_ok _ _ _ _ Hc) as (Hn & Hne & _ & Hps & _ & _ & _ & _ & _ & _ & Hcomp & _).
  by apply (rbuilt_step_agree dag gd (cs_reachability s) h b MAX_MERGESET_SIZE d (ok_graph _ _ Hok)).
Qed.

Lemma ins_old x : x ∈ dom dag →
  canonical_order_at dag1 gd1 x = canonical_order_at dag gd x ∧
  selected_chain gd1 x = selected_chain gd x ∧ score_of gd1 x = score_of gd x ∧ x ∈ dom gd ∧ x ∈ dom gd1.
Proof.
  intros Hx. destruct ins_agree as (Hi & Hi1 & Hd & Hg & Hcl).
  assert (∀ y, y ∈ dom dag → y ∈ dom dag) as Hid by done. split_and!.
  - by apply (order_agree dag dag1 gd gd1 (λ y, y ∈ dom dag)).
  - by apply (selected_chain_agree dag dag1 gd gd1 (λ y, y ∈ dom dag)).
  - unfold score_of. by rewrite Hg.
  - by rewrite (inv_dom _ _ Hi).
  - rewrite (inv_dom _ _ Hi1). apply elem_of_dom. rewrite Hd by done. by apply elem_of_dom.
Qed.

(** The new entry: its selected parent is known and has a smaller score. *)
Lemma ins_new : ∃ sp, select_parent gd (blk_parents b) = Some sp ∧ gd_selected_parent d = Some sp ∧
  sp ∈ dom dag ∧ gd1 !! h = Some d ∧
  selected_chain gd1 h = selected_chain gd sp ++ [h] ∧
  canonical_order_at dag1 gd1 h = canonical_order_at dag gd sp ++ merged d ++ [h] ∧
  (∀ x, x ∈ merged d → x ∈ dom dag) ∧
  ∀ p, p ∈ blk_parents b → score_of gd p < score_of gd1 h.
Proof.
  destruct (check_block_ok _ _ _ _ Hc) as (Hn & Hne & _ & Hps & _ & _ & _ & _ & _ & _ & Hcomp & sp & Hsp & _).
  destruct ins_agree as (Hi & Hi1 & Hd & Hg & Hcl). exists sp.
  destruct (rbuilt_ok _ _ _ (ok_graph _ _ Hok)) as (_ & Hr & _).
  assert (oracle_ok (cs_reachability s) dag) as Hor by exact Hr.
  assert (Z.of_nat (size dag) <= U64_MAX) as Hsz' by (unfold SCALE, SPACE_END, umax in *; lia).
  destruct (compute_spec _ dag gd _ _ d Hi Hor Hne Hps Hsz' Hcomp) as (s0 & tl & Hs0 & _ & Hin & _ & Hmerged & _).
  assert (s0 = sp) as ->.
  { unfold try_compute_ghostdag_data in Hcomp. rewrite Hsp in Hcomp. destruct (_ <? _); [done|].
    injection Hcomp as <-. simpl in Hs0. by injection Hs0. }
  assert (gd1 !! h = Some d) as Hgh by apply lookup_insert_eq.
  assert (sp ∈ dom dag) as Hspd by by apply Hps.
  destruct (ins_old sp Hspd) as (Ho & Hch & _).
  destruct (canonical_order_at_spec dag1 gd1 h d Hi1 Hgh) as (_ & _ & Hord).
  split_and!; try done.
  - rewrite (selected_chain_eq gd1 h d (inv_wf _ _ Hi1) Hgh), Hs0. cbn [from_option]. by rewrite Hch.
  - rewrite Hord, Hs0. cbn [from_option]. by rewrite Ho.
  - intros x Hx. rewrite Hmerged in Hx. by eapply mergeset_dom; [apply Hi| |].
  - intros p Hp. destruct (ins_old p (Hps p Hp)) as (_ & _ & <- & _). apply (inv_edge _ _ Hi1).
    unfold edge, parents_of. simpl. by rewrite lookup_insert_eq.
Qed.

Lemma ins_keyed : keyed dag1.
Proof.
  intros x bx. simpl. rewrite lookup_insert_Some. intros [[<- <-]|[_ Hx]]; [done|]. by apply (ok_keyed _ _ Hok).
Qed.

Lemma ins_tips t : t ∈ cs_tips s1 ↔ childless dag1 t.
Proof.
  destruct (check_block_ok _ _ _ _ Hc) as (Hn & Hne & _ & Hps & _). destruct ins_agree as (Hi & Hi1 & Hd & Hg & Hcl).
  simpl. rewrite elem_of_app, filter_tips, list_elem_of_singleton, (ok_tips _ _ Hok).
  assert (∀ x y, edge dag1 x y ↔ (x = h ∧ y ∈ blk_parents b) ∨ (x ≠ h ∧ edge dag x y)) as He.
  { intros x y. unfold edge, parents_of. simpl. destruct (decide (x = h)) as [->|Hx].
    - rewrite lookup_insert_eq. simpl. naive_solver.
    - rewrite lookup_insert_ne by done. naive_solver. }
  unfold childless. simpl. rewrite dom_insert_L, elem_of_union, elem_of_singleton. split.
  - intros [[[Ht Hch] Hnp]| ->]; (split; [auto|]); intros x; rewrite He; intros [[-> Hin]|[Hx Hin]]; [done|by apply (Hch x)| |].
    + by apply Hn, Hps.
    + by apply Hn, (inv_closed _ _ Hi x).
  - intros [[->|Ht] Hch]; [by right|left]. split_and!; [done| |].
    + intros x Hx. apply (Hch x), He. destruct (decide (x = h)) as [->|]; [|by right].
      exfalso. apply Hn. by apply (edge_dom dag h t).
    + intros Hp. apply (Hch h), He. by left.
Qed.

(** The selected tip is the old one or the new block, and its score does not drop. *)
Lemma ins_tip tip :
  selected_tip gd (cs_tips s) = Some tip →
  ∃ tip1, selected_tip gd1 (cs_tips s1) = Some tip1 ∧ (tip1 = tip ∨ tip1 = h) ∧
    score_of gd tip <= score_of gd1 tip1.
Proof.
  intros Ht. destruct (select_parent_Some _ _ _ Ht) as (Htin & Htd & Hmax).
  destruct ins_agree as (Hi & Hi1 & Hd & Hg & Hcl). destruct ins_new as (sp & _ & _ & Hspd & Hgh & _ & _ & _ & Hscore).
  assert (tip ∈ dom dag) as Htdag by by rewrite <- (inv_dom _ _ Hi).
  destruct (ins_old tip Htdag) as (_ & _ & Hst & _ & Htd1).
  assert (h ∈ dom gd1) as Hhd by by eapply elem_of_dom_2.
  assert (h ∈ cs_tips s1) as Hh1 by (simpl; set_solver).
  destruct (selected_tip gd1 (cs_tips s1)) as [tip1|] eqn:Ht1; [|by apply (select_parent_None _ _ h) in Ht1].
  exists tip1. split; [done|]. destruct (select_parent_Some _ _ _ Ht1) as (Ht1in & Ht1d & Hmax1).
  assert (tip1 = h ∨ (tip1 ∈ cs_tips s ∧ tip1 ∈ dom dag)) as Hcase.
  { simpl in Ht1in. apply elem_of_app in Ht1in as [Hin|Hin%list_elem_of_singleton]; [right|by left].
    apply filter_tips in Hin as [Hin _]. split; [done|]. by apply (ok_tips _ _ Hok). }
  pose proof (Hmax1 h Hh1 Hhd) as Hh. apply key_le_spec in Hh.
  destruct (decide (tip ∈ blk_parents b)) as [Hp|Hnp].
  - specialize (Hscore tip Hp). destruct Hcase as [->|[Hin Hdom]]; [split; [by right|lia]|].
    exfalso. destruct (ins_old tip1 Hdom) as (_ & _ & Hs1 & Hd1 & _).
    pose proof (Hmax tip1 Hin Hd1) as Hk. apply key_le_spec in Hk. lia.
  - assert (tip ∈ cs_tips s1) as Htin1 by (simpl; apply elem_of_app; left; by apply filter_tips).
    pose proof (Hmax1 tip Htin1 Htd1) as Hk1. destruct Hcase as [->|[Hin Hdom]].
    + apply key_le_spec in Hk1. split; [by right|lia].
    + destruct (ins_old tip1 Hdom) as (_ & _ & Hs1 & Hd1 & _). pose proof (Hmax tip1 Hin Hd1) as Hk.
      assert (tip1 = tip) as ->; [|split; [by left|lia]].
      apply key_le_spec in Hk, Hk1. lia.
Qed.

(** The old finality point stays on the chain of the selected tip, at or below the
    new one. *)
Lemma ins_finality fp :
  finality_point s = Some fp →
  ∃ fp1, finality_point s1 = Some fp1 ∧ fp ∈ selected_chain gd1 fp1.
Proof.
  intros Hfp. destruct (ok_main _ _ Hok) as (tip & Ht & _). destruct ins_agree as (Hi & Hi1 & Hd & Hg & Hcl).
  destruct (finality_point_chain s tip fp Hi Ht Hfp) as [Hfc Hfs].
  pose proof (proj1 (finality_point_Some s tip fp Hi Ht) Hfp) as [Hdepth _].
  destruct (ins_tip tip Ht) as (tip1 & Ht1 & Hcase & Hsc).
  destruct (select_parent_Some _ _ _ Ht) as (_ & Htd & _). destruct (select_parent_Some _ _ _ Ht1) as (_ & Htd1 & _).
  assert (fp ∈ dom dag) as Hfd by (rewrite <- (inv_dom _ _ Hi); by apply (chain_dom _ _ Hi tip)).
  destruct (ins_old fp Hfd) as (_ & _ & Hfsc & _).
  assert (fp ∈ selected_chain gd1 tip1) as Hin.
  { destruct Hcase as [->| ->].
    - assert (tip ∈ dom dag) as Htdag by by rewrite <- (inv_dom _ _ Hi).
      destruct (ins_old tip Htdag) as (_ & -> & _). done.
    - destruct ins_new as (sp & Hsp & _ & Hspd & _ & -> & _).
      destruct (check_block_ok _ _ _ _ Hc) as (_ & _ & _ & _ & Hfv & _).
      unfold finality_violation in Hfv. rewrite Hfp, Hsp in Hfv. apply bool_decide_eq_false in Hfv.
      apply elem_of_app. left.
      rewrite (chain_ancestor_test dag gd _ fp sp (ok_graph _ _ Hok) Hfd Hspd) in Hfv.
      by destruct (bool_decide_reflect (fp ∈ selected_chain gd sp)). }
  destruct (chain_below_last _ _ Hi1 (score_of gd1 tip1 - FINALITY_DEPTH) tip1 fp Htd1 Hin) as (fp1 & Hl & _ & _ & Hp); [lia|].
  exists fp1. split; [|done]. apply (finality_point_Some s1 tip1 fp1 Hi1 Ht1). split; [lia|done].
Qed.
End insertion.

Section admission.
Context (L0 : Ledger) (s : ChainState) (now : Z) (b : Block) (d : GhostdagData).
Context (Hok : chain_ok L0 s) (Hc : check_block s now b = Ok d).
Context (Hsz : Z.of_nat (size (cs_dag s)) * SCALE < SPACE_END).

(** Replays of known blocks are undisturbed by the insertion. *)
Lemma ins_replay l hs :
  (∀ x, x ∈ hs → x ∈ dom (cs_dag s)) →
  replay (cs_chain_id s) (cs_dag (insert_block s b d)) (cs_ghostdag (insert_block s b d)) l hs =
  replay (cs_chain_id s) (cs_dag s) (cs_ghostdag s) l hs.
Proof.
  intros Hhs. destruct (ins_agree L0 s now b d Hok Hc Hsz) as (_ & _ & Hd & Hg & _).
  apply replay_agree. intros x Hx. split; [apply Hd|apply Hg]; auto.
Qed.

Lemma order_dom x y : x ∈ dom (cs_dag s) → y ∈ canonical_order_at (cs_dag s) (cs_ghostdag s) x → y ∈ dom (cs_dag s).
Proof.
  destruct (rbuilt_ok _ _ _ (ok_graph _ _ Hok)) as (Hi & _ & _). intros Hx Hy.
  pose proof Hx as Hxg. rewrite <- (inv_dom _ _ Hi) in Hxg. apply elem_of_dom in Hxg as [dx Hdx].
  destruct (canonical_order_at_spec _ _ x dx Hi Hdx) as (_ & Hin & _). apply Hin in Hy.
  by apply (in_past_dom _ x y (inv_closed _ _ Hi)).
Qed.

(** The base, once captured, read in the extended graph. *)
Lemma ins_base :
  let s3 := capture_base (order_main_chain (insert_block s b d)) in
  cs_base s3 = replay (cs_chain_id s) (cs_dag s3) (cs_ghostdag s3) L0
    (order_to (cs_dag s3) (cs_ghostdag s3) (cs_base_frontier s3)).
Proof.
  destruct (order_main_chain_fields (insert_block s b d)) as (Hd & _ & Hg & _ & Hl & Hb & Hcap & Hf & _).
  pose proof (ok_base _ _ Hok) as Hbase. unfold capture_base. rewrite Hcap. simpl cs_base_captured.
  destruct (cs_base_captured s) eqn:Hcs.
  - rewrite Hb, Hd, Hg, Hf. change (cs_base (insert_block s b d)) with (cs_base s).
    change (cs_base_frontier (insert_block s b d)) with (cs_base_frontier s). rewrite Hbase.
    destruct (cs_base_frontier s) as [f|] eqn:Hfr; [|done]. cbn [order_to from_option].
    destruct (rbuilt_ok _ _ _ (ok_graph _ _ Hok)) as (Hi & _ & _).
    destruct (ok_main _ _ Hok) as (tip & Ht & _). destruct (select_parent_Some _ _ _ Ht) as (_ & Htd & _).
    assert (f ∈ dom (cs_dag s)) as Hfd.
    { rewrite <- (inv_dom _ _ Hi). apply (chain_dom _ _ Hi tip f Htd).
      apply (finality_point_chain s tip f Hi Ht). by rewrite <- (ok_frontier _ _ Hok). }
    destruct (ins_old L0 s now b d Hok Hc Hsz f Hfd) as (-> & _).
    symmetry. apply ins_replay. intros x. by apply order_dom.
  - destruct Hbase as [HL Hnone]. cbn [set_base cs_base cs_dag cs_ghostdag cs_base_frontier snapshot_ledger].
    rewrite Hd, Hg, Hf. unfold snapshot_ledger. rewrite Hl.
    change (cs_base_frontier (insert_block s b d)) with (cs_base_frontier s). rewrite Hnone. done.
Qed.

(** The state after [update_ledger]. *)
Lemma update_ok :
  chain_ok L0 (update_ledger (insert_block s b d)) ∧
  cs_dag (update_ledger (insert_block s b d)) = cs_dag (insert_block s b d) ∧
  cs_ghostdag (update_ledger (insert_block s b d)) = cs_ghostdag (insert_block s b d) ∧
  cs_tips (update_ledger (insert_block s b d)) = cs_tips (insert_block s b d) ∧
  cs_archival (update_ledger (insert_block s b d)) = cs_archival s ∧
  cs_chain_id (update_ledger (insert_block s b d)) = cs_chain_id s ∧
  cs_base_captured (update_ledger (insert_block s b d)) = true.
Proof.
  destruct (ok_main _ _ Hok) as (tip & Ht & _).
  destruct (ins_tip L0 s now b d Hok Hc Hsz tip Ht) as (tip1 & Ht1 & _ & _).
  destruct (ins_agree L0 s now b d Hok Hc Hsz) as (_ & Hi1 & _).
  pose proof (ins_keyed L0 s b d Hok) as Hk. pose proof ins_base as Hbase.
  pose proof (ins_rbuilt L0 s now b d Hok Hc Hsz) as Hrb. pose proof (ins_tips L0 s now b d Hok Hc Hsz) as Htips.
  unfold update_ledger. set (s3 := capture_base (order_main_chain (insert_block s b d))) in *.
  assert (cs_dag s3 = cs_dag (insert_block s b d) ∧ cs_ghostdag s3 = cs_ghostdag (insert_block s b d) ∧
    cs_tips s3 = cs_tips (insert_block s b d) ∧ cs_reachability s3 = cs_reachability (insert_block s b d) ∧
    cs_main_chain s3 = selected_chain (cs_ghostdag (insert_block s b d)) tip1 ∧ cs_base_captured s3 = true ∧
    cs_base_frontier s3 = cs_base_frontier s ∧ cs_chain_id s3 = cs_chain_id s ∧ cs_archival s3 = cs_archival s)
    as (Hd3 & Hg3 & Ht3 & Hr3 & Hm3 & Hc3 & Hf3 & Hid3 & Har3).
  { unfold s3, capture_base, order_main_chain. rewrite Ht1. simpl. destruct (cs_base_captured s) eqn:?; done. }
  clearbody s3. rewrite <- Hd3 in *. rewrite <- Hg3 in *. rewrite <- Ht3 in *. rewrite <- Hr3 in *. rewrite <- Hid3 in *.
  assert (∀ s', cs_ghostdag s' = cs_ghostdag s3 → cs_tips s' = cs_tips s3 → finality_point s' = finality_point s3) as Hfin.
  { intros s' Hg' Ht'. unfold finality_point. by rewrite Hg', Ht'. }
  destruct (advance_ok L0 s3 tip1 Hi1 Hk Ht1) as [l ->]; [|done|].
  { intros f Hf. rewrite Hf3, (ok_frontier _ _ Hok) in Hf.
    destruct (ins_finality L0 s now b d Hok Hc Hsz f Hf) as (fp & Hfp & Hin). exists fp.
    rewrite <- (Hfin (insert_block s b d) (eq_sym Hg3) (eq_sym Ht3)), Hg3. done. }
  rewrite (recompute_ok L0 _ tip1); try done. simpl. split_and!; [|done..].
  split; simpl; try done; [by exists tip1|by rewrite Hc3].
Qed.
End admission.

(** Fee samples, mempools and the cached difficulty touch nothing else. *)
Lemma chain_ok_pools L0 s p dd : chain_ok L0 s → chain_ok L0 (set_difficulty (set_pools s p) dd).
Proof. intros [Hg Hk Ht Hm Hf Hb Hl]. split; [exact Hg|exact Hk|exact Ht|exact Hm|exact Hf|exact Hb|exact Hl]. Qed.

Lemma bookkeeping_eq s b :
  ∃ p dd, cache_difficulty (drop_included_from_mempools (record_selected_chain_fee_samples s) b) =
    set_difficulty (set_pools s p) dd.
Proof.
  unfold cache_difficulty, drop_included_from_mempools, record_selected_chain_fee_samples.
  destruct (selected_tip (cs_ghostdag s) (cs_tips s)); by eexists _, _.
Qed.

Lemma connect_ok L0 s now b d :
  chain_ok L0 s → cs_archival s = true → Z.of_nat (size (cs_dag s)) * SCALE < SPACE_END →
  check_block s now b = Ok d →
  let s' := connect_block s b d in let s1 := insert_block s b d in
  chain_ok L0 s' ∧ cs_archival s' = true ∧ cs_dag s' = cs_dag s1 ∧ cs_ghostdag s' = cs_ghostdag s1 ∧
  cs_tips s' = cs_tips s1 ∧ cs_chain_id s' = cs_chain_id s.
Proof.
  intros Hok Har Hsz Hc s' s1. unfold s', connect_block. clear s'. fold s1.
  destruct (update_ok L0 s now b d Hok Hc Hsz) as (Hok' & Hd & Hg & Ht & Har' & Hid & _).
  destruct (bookkeeping_eq (update_ledger s1) b) as (p & dd & ->). fold s1 in Hok', Hd, Hg, Ht, Har', Hid.
  assert (cs_archival (set_difficulty (set_pools (update_ledger s1) p) dd) = true) as Har3 by (etrans; [exact Har'|done]).
  unfold prune_bodies. rewrite Har3. unfold prune_history. rewrite Har3.
  split_and!; [by apply chain_ok_pools|done..].
Qed.

Lemma add_block_ok L0 s now b s' :
  chain_ok L0 s → cs_archival s = true → Z.of_nat (size (cs_dag s)) * SCALE < SPACE_END → add_block s now b = Ok s' →
  ∃ d, check_block s now b = Ok d ∧ chain_ok L0 s' ∧ cs_archival s' = true ∧
    cs_dag s' = cs_dag (insert_block s b d) ∧ cs_ghostdag s' = cs_ghostdag (insert_block s b d) ∧
    cs_tips s' = cs_tips (insert_block s b d) ∧ cs_chain_id s' = cs_chain_id s.
Proof.
  intros Hok Har Hsz Hadd. unfold add_block in Hadd. destruct (check_block s now b) as [d|] eqn:Hc; [|done].
  cbn [mbind result_bind] in Hadd. assert (s' = connect_block s b d) as -> by congruence.
  exists d. split; [done|]. exact (connect_ok L0 s now b d Hok Har Hsz Hc).
Qed.

(** ** Reachable states *)

(** A fresh node with a seeded ledger that keeps its history ([ChainState::new] with [archival] set,
    as for the archive role).  The default, [archival = false], prunes bodies below the
    finality depth and blocks below the pruning depth; such a node is not a starting point
    here: what it does is in [Chain] ([prune_bodies], [prune_history]) and in [Sync]. *)
Definition seeded (L0 : Ledger) : ChainState :=
  {| cs_dag := {[genesis_hash := genesis_block]}; cs_tips := [genesis_hash]; cs_main_chain := [genesis_hash];
     cs_ledger := L0; cs_difficulty := cs_difficulty ChainState_new; cs_chain_id := CHAIN_ID;
     cs_ghostdag := {[genesis_hash := GhostdagData_genesis]}; cs_reachability := cs_reachability ChainState_new;
     cs_archival := true; cs_base := Ledger_default; cs_base_captured := false; cs_base_frontier := None;
     cs_pruning_point := None; cs_pruning_ledger := None; cs_pruned_selected_blocks := 0;
     cs_pools := Pools_empty |}.

(** The states such a node, which never prunes, goes through, as long as the number of blocks leaves the
    62-bit label space of the reachability index room. *)
Inductive reachable (L0 : Ledger) : ChainState → Prop :=
| reachable_seeded : reachable L0 (seeded L0)
| reachable_block s now b s' :
    reachable L0 s → Z.of_nat (size (cs_dag s)) * SCALE < SPACE_END →
    add_block s now b = Ok s' → reachable L0 s'.

Lemma seeded_ok L0 : chain_ok L0 (seeded L0).
Proof.
  assert (selected_tip {[genesis_hash := GhostdagData_genesis]} [genesis_hash] = Some genesis_hash) as Ht.
  { unfold selected_tip. simpl. rewrite bool_decide_eq_true_2 by set_solver. done. }
  assert (rbuilt {[genesis_hash := genesis_block]} {[genesis_hash := GhostdagData_genesis]} (cs_reachability (seeded L0))) as Hb
    by by apply rbuilt_genesis.
  destruct (rbuilt_ok _ _ _ Hb) as (Hi & _ & _).
  assert (selected_chain {[genesis_hash := GhostdagData_genesis]} genesis_hash = [genesis_hash]) as Hch.
  { by rewrite (selected_chain_eq _ genesis_hash GhostdagData_genesis (inv_wf _ _ Hi) (lookup_singleton_eq _ _)). }
  assert (canonical_order_at {[genesis_hash := genesis_block]} {[genesis_hash := GhostdagData_genesis]} genesis_hash = [genesis_hash]) as Hord.
  { destruct (canonical_order_at_spec _ _ genesis_hash GhostdagData_genesis Hi (lookup_singleton_eq _ _)) as (_ & _ & ->). done. }
  split; cbn [seeded cs_dag cs_ghostdag cs_tips cs_main_chain cs_base_captured cs_base_frontier cs_ledger cs_chain_id].
  - exact Hb.
  - intros h b (<- & <-)%lookup_singleton_Some. done.
  - intros t. rewrite list_elem_of_singleton. unfold childless. rewrite dom_singleton_L, elem_of_singleton.
    split; [|naive_solver]. intros ->. split; [done|]. intros h He. pose proof (edge_dom _ _ _ He) as Hd.
    rewrite dom_singleton_L, elem_of_singleton in Hd. subst h. unfold edge, parents_of in He.
    rewrite lookup_singleton_eq in He. by apply not_elem_of_nil in He.
  - exists genesis_hash. by rewrite Hch.
  - unfold finality_point. cbn [seeded cs_ghostdag cs_tips]. rewrite Ht. simpl. rewrite lookup_singleton_eq. done.
  - done.
  - unfold canonical_order. rewrite Ht, Hord. unfold replay. simpl. by rewrite lookup_singleton_eq.
Qed.

Lemma reachable_ok L0 s : reachable L0 s → chain_ok L0 s ∧ cs_archival s = true ∧ cs_chain_id s = CHAIN_ID.
Proof.
  induction 1 as [|s now b s' _ (Hok & Har & Hid) Hsz Hadd]; [split; [apply seeded_ok|done]|].
  destruct (add_block_ok L0 s now b s' Hok Har Hsz Hadd) as (d & _ & Hok' & Har' & _ & _ & _ & Hid').
  split_and!; [done..|congruence].
Qed.

(** ** The ledger committed by an accepted header *)

Lemma ins_frontier L0 s now b d sp f :
  chain_ok L0 s → check_block s now b = Ok d → select_parent (cs_ghostdag s) (blk_parents b) = Some sp →
  cs_base_frontier s = Some f → f ∈ selected_chain (cs_ghostdag s) sp.
Proof.
  intros Hok Hc Hsp Hf. destruct (check_block_ok _ _ _ _ Hc) as (_ & _ & _ & Hps & Hfv & _).
  destruct (rbuilt_ok _ _ _ (ok_graph _ _ Hok)) as (Hi & _ & _). destruct (ok_main _ _ Hok) as (tip & Ht & _).
  rewrite (ok_frontier _ _ Hok) in Hf. destruct (finality_point_chain s tip f Hi Ht Hf) as [Hfc _].
  destruct (select_parent_Some _ _ _ Ht) as (_ & Htd & _). destruct (select_parent_Some _ _ _ Hsp) as (Hspin & _ & _).
  assert (f ∈ dom (cs_dag s)) as Hfd by (rewrite <- (inv_dom _ _ Hi); by apply (chain_dom _ _ Hi tip)).
  unfold finality_violation in Hfv. rewrite Hf, Hsp in Hfv. apply bool_decide_eq_false in Hfv.
  rewrite (chain_ancestor_test _ _ _ f sp (ok_graph _ _ Hok) Hfd (Hps sp Hspin)) in Hfv.
  by destruct (bool_decide_reflect (f ∈ selected_chain (cs_ghostdag s) sp)).
Qed.

Lemma virtual_state_replay L0 s sp :
  chain_ok L0 s → sp ∈ dom (cs_ghostdag s) → (∀ f, cs_base_frontier s = Some f → f ∈ selected_chain (cs_ghostdag s) sp) →
  (virtual_state_at s sp).1 = replay (cs_chain_id s) (cs_dag s) (cs_ghostdag s) L0
    (canonical_order_at (cs_dag s) (cs_ghostdag s) sp).
Proof.
  intros Hok Hsp Hf. destruct (rbuilt_ok _ _ _ (ok_graph _ _ Hok)) as (Hi & _ & _). pose proof (ok_base _ _ Hok) as Hbase.
  unfold virtual_state_at. rewrite sim_replay by (done || apply Hok).
  destruct (replay_start_prefix _ _ sp (cs_base_frontier s) Hi Hsp Hf) as [-> [l Hl]].
  rewrite Hl, drop_app_length, replay_app. f_equal. destruct (cs_base_captured s); [done|].
  destruct Hbase as [-> ->]. done.
Qed.

Lemma post_ledger_replay L0 s now b d sp l :
  chain_ok L0 s → Z.of_nat (size (cs_dag s)) * SCALE < SPACE_END →
  check_block s now b = Ok d → select_parent (cs_ghostdag s) (blk_parents b) = Some sp →
  post_mergeset_ledger s sp (merged d) b (gd_blue_score d) = Ok l →
  l = replay (cs_chain_id s) (cs_dag (insert_block s b d)) (cs_ghostdag (insert_block s b d)) L0
        (canonical_order_at (cs_dag (insert_block s b d)) (cs_ghostdag (insert_block s b d)) (block_hash b)).
Proof.
  intros Hok Hsz Hc Hsp Hpost. destruct (rbuilt_ok _ _ _ (ok_graph _ _ Hok)) as (Hi & _ & _).
  destruct (check_block_ok _ _ _ _ Hc) as (_ & Hne & _).
  destruct (ins_new L0 s now b d Hok Hc Hsz) as (sp' & Hsp' & _ & Hspd & Hgh & _ & -> & Hm & _).
  rewrite Hsp in Hsp'. injection Hsp' as <-. unfold post_mergeset_ledger in Hpost.
  pose proof (virtual_state_replay L0 s sp Hok) as Hv. rewrite (inv_dom _ _ Hi) in Hv.
  specialize (Hv Hspd (λ f, ins_frontier L0 s now b d sp f Hok Hc Hsp)).
  destruct (virtual_state_at s sp) as [lv gv]. simpl in Hv. subst lv.
  rewrite (sim_replay s _ gv (merged d) Hi (ok_keyed _ _ Hok)), <- replay_app in Hpost.
  destruct (simulate_apply_block_body _ _ _ _ _ _) as [[l' fees]|] eqn:Hsim; [|done].
  cbn [mbind result_bind] in Hpost. injection Hpost as <-.
  rewrite <- (admission_replay _ _ _ _ _ _ _ _ Hne Hsim).
  rewrite app_assoc, (replay_app _ _ _ _ (_ ++ merged d) [block_hash b]), (ins_replay L0 s now b d Hok Hc Hsz L0 (_ ++ merged d)).
  - assert (cs_dag (insert_block s b d) !! block_hash b = Some b) as Hbh by apply lookup_insert_eq.
    by rewrite (replay_one _ _ _ _ _ _ Hbh), Hgh.
  - intros x [Hx|Hx]%elem_of_app; [|by apply Hm]. by apply (order_dom L0 s Hok sp).
Qed.

(** ** The theorems *)

(** C2. The state of a node that keeps its history is a function of its DAG, as
    [recompute_virtual_state] documents: in every state that an archival node
    ([archival = true]) reaches from genesis and a seeded ledger by admitting blocks, while
    the block count fits the reachability index, the main chain is the selected chain of the
    selected tip, and the live ledger, which is maintained by folding finalised blocks into
    a base and replaying the rest, is the replay from the seeded ledger of the whole
    canonical order, each block once.  A pruning node, which is the default, is not covered:
    it discards the bodies this replay reads. *)
Theorem live_ledger_is_replay L0 s :
  reachable L0 s →
  ∃ tip, selected_tip (cs_ghostdag s) (cs_tips s) = Some tip ∧
    cs_main_chain s = selected_chain (cs_ghostdag s) tip ∧
    cs_ledger s = replay CHAIN_ID (cs_dag s) (cs_ghostdag s) L0
      (canonical_order_at (cs_dag s) (cs_ghostdag s) tip) ∧
    NoDup (canonical_order_at (cs_dag s) (cs_ghostdag s) tip).
Proof.
  intros (Hok & _ & Hid)%reachable_ok. destruct (ok_main _ _ Hok) as (tip & Ht & Hm). exists tip.
  pose proof (ok_ledger _ _ Hok) as Hl. unfold canonical_order in Hl. rewrite Ht, Hid in Hl.
  destruct (rbuilt_ok _ _ _ (ok_graph _ _ Hok)) as (Hi & _ & _).
  destruct (select_parent_Some _ _ _ Ht) as (_ & [dt Hdt]%elem_of_dom & _).
  destruct (canonical_order_at_spec _ _ tip dt Hi Hdt) as (Hnd & _ & _). done.
Qed.

(** C3. Archival nodes that hold the same blocks agree: if two nodes that keep their
    history ([archival = true] on both) started from the same seeded ledger and admitted the
    same set of blocks, in whatever order and at whatever times, then their GHOSTDAG data,
    selected tip, main chain, finality point, finalised frontier and ledger are equal.
    Nothing is claimed of a pruning node, which can disagree with an archival one that
    admitted the same blocks. *)
Theorem same_blocks_same_state L0 s s' :
  reachable L0 s → reachable L0 s' → cs_dag s = cs_dag s' →
  cs_ghostdag s = cs_ghostdag s' ∧
  selected_tip (cs_ghostdag s) (cs_tips s) = selected_tip (cs_ghostdag s') (cs_tips s') ∧
  cs_main_chain s = cs_main_chain s' ∧ finality_point s = finality_point s' ∧
  cs_base_frontier s = cs_base_frontier s' ∧ cs_ledger s = cs_ledger s'.
Proof.
  intros (Hok & _ & Hid)%reachable_ok (Hok' & _ & Hid')%reachable_ok Hdag.
  assert (cs_ghostdag s = cs_ghostdag s') as Hgd.
  { pose proof (ok_graph _ _ Hok) as Hg. rewrite Hdag in Hg. by apply (gd_unique _ _ _ _ _ Hg (ok_graph _ _ Hok')). }
  destruct (ok_main _ _ Hok) as (tip & Ht & Hm), (ok_main _ _ Hok') as (tip' & Ht' & Hm').
  assert (tip = tip') as <-.
  { destruct (select_parent_Some _ _ _ Ht) as (Hin & Hd & Hmax), (select_parent_Some _ _ _ Ht') as (Hin' & Hd' & Hmax').
    rewrite Hgd in Hmax, Hd. apply (key_le_antisym (cs_ghostdag s')); [apply Hmax'|apply Hmax]; try done.
    - apply (ok_tips _ _ Hok'). rewrite <- Hdag. by apply (ok_tips _ _ Hok).
    - apply (ok_tips _ _ Hok). rewrite Hdag. by apply (ok_tips _ _ Hok'). }
  assert (finality_point s = finality_point s') as Hfp.
  { unfold finality_point. rewrite Ht, Ht', Hgd. done. }
  split_and!; [done|congruence|congruence|done|by rewrite (ok_frontier _ _ Hok), (ok_frontier _ _ Hok')|].
  rewrite (ok_ledger _ _ Hok), (ok_ledger _ _ Hok'). unfold canonical_order. rewrite Ht, Ht', Hgd, Hdag. congruence.
Qed.

(** C4. Finality is irreversible on a node that keeps its history ([archival = true], from
    genesis): once it has a finality point, every block it admits leaves it with a finality
    point whose selected chain contains the old one, the canonical order keeps everything up
    to the old point as its initial part, and the frontier of the finalised base is the new
    point.  So no block that such a node admits can reorder or undo a finalised block.
    Pruning nodes, the default, are not covered. *)
Theorem finality_irreversible L0 s now b s' :
  reachable L0 s → Z.of_nat (size (cs_dag s)) * SCALE < SPACE_END →
  add_block s now b = Ok s' →
  ∀ fp, finality_point s = Some fp → ∃ fp' rest, finality_point s' = Some fp' ∧ fp ∈ selected_chain (cs_ghostdag s') fp' ∧
    canonical_order (cs_dag s') (cs_ghostdag s') (cs_tips s') =
      canonical_order_at (cs_dag s) (cs_ghostdag s) fp ++ rest ∧
    cs_base_frontier s' = Some fp'.
Proof.
  intros (Hok & Har & Hid)%reachable_ok Hsz Hadd fp Hfp.
  destruct (add_block_ok L0 s now b s' Hok Har Hsz Hadd) as (d & Hc & Hok' & _ & Hd' & Hg' & Ht' & _).
  destruct (ins_finality L0 s now b d Hok Hc Hsz fp Hfp) as (fp' & Hfp' & Hin).
  assert (finality_point s' = Some fp') as Hfp1 by (unfold finality_point in *; by rewrite Hg', Ht').
  destruct (rbuilt_ok _ _ _ (ok_graph _ _ Hok)) as (Hi & _ & _).
  destruct (rbuilt_ok _ _ _ (ok_graph _ _ Hok')) as (Hi' & _ & _).
  destruct (ok_main _ _ Hok) as (tip & Ht & _). destruct (ok_main _ _ Hok') as (tip' & Htip' & _).
  destruct (finality_point_chain s tip fp Hi Ht Hfp) as [Hfc _].
  destruct (finality_point_chain s' tip' fp' Hi' Htip' Hfp1) as [Hfc' _].
  destruct (select_parent_Some _ _ _ Ht) as (_ & Htd & _). destruct (select_parent_Some _ _ _ Htip') as (_ & Htd' & _).
  assert (fp ∈ dom (cs_dag s)) as Hfd by (rewrite <- (inv_dom _ _ Hi); by apply (chain_dom _ _ Hi tip)).
  assert (fp ∈ selected_chain (cs_ghostdag s') tip') as Hfc1.
  { apply (chain_trans _ _ Hi' fp fp' tip'); [done| |done]. by rewrite Hg'. }
  destruct (chain_prefix _ _ Hi' tip' fp Htd' Hfc1) as [_ [rest Hrest]].
  destruct (ins_old L0 s now b d Hok Hc Hsz fp Hfd) as (Hold & _).
  exists fp', rest. split_and!; [done|by rewrite Hg'| |by rewrite (ok_frontier _ _ Hok')].
  unfold canonical_order. rewrite Htip', Hrest. f_equal. by rewrite Hd', Hg', Hold.
Qed.

(** An accepted header commits to the state: its [state_root] is the commitment
    of the ledger obtained by replaying, from the seed, the canonical order of the
    block's own past and the block itself; so whenever the new block becomes the
    selected tip, its header commits to the live ledger of the node. *)
Theorem accepted_state_root L0 s now b s' :
  reachable L0 s → Z.of_nat (size (cs_dag s)) * SCALE < SPACE_END → add_block s now b = Ok s' →
  blk_state_root b = state_root (replay CHAIN_ID (cs_dag s') (cs_ghostdag s') L0
    (canonical_order_at (cs_dag s') (cs_ghostdag s') (block_hash b))) ∧
  (selected_tip (cs_ghostdag s') (cs_tips s') = Some (block_hash b) →
   blk_state_root b = state_root (cs_ledger s')).
Proof.
  intros (Hok & Har & Hid)%reachable_ok Hsz Hadd.
  destruct (add_block_ok L0 s now b s' Hok Har Hsz Hadd) as (d & Hc & Hok' & _ & Hd' & Hg' & Ht' & Hid').
  destruct (check_block_ok _ _ _ _ Hc) as (_ & _ & _ & _ & _ & _ & _ & _ & _ & _ & _ & sp & Hsp & _ & _ & _ & l & Hl & Hroot).
  pose proof (post_ledger_replay L0 s now b d sp l Hok Hsz Hc Hsp Hl) as ->. rewrite Hid in Hroot.
  split; [by rewrite Hd', Hg'|]. intros Htip. rewrite Hroot, (ok_ledger _ _ Hok').
  unfold canonical_order. rewrite Htip, Hd', Hg', Hid', Hid. done.
Qed.
End replay.

(** ** A concrete node

    A node over small stand-ins for the primitives admits one block on genesis. *)
Module ChainExample.
#[export] Instance ex_crypto : Crypto := Toy.easy_crypto.
#[export] Instance ex_dual : DualCrypto := LedgerExample.toy_dual.
#[export] Instance ex_body : BodyCodec := LedgerExample.toy_body.
#[export] Instance ex_env : NodeEnv :=
  {| node_winterfell := {| proof_parses _ := true; winterfell_verify _ _ _ := true |};
     lab_easy := false; pinned_digest := None; ser_block_len _ := Some 500; hex_err := "";
     dag_keys dag := elements (dom dag) |}.

Definition start : ChainState := seeded Ledger_default.
Definition pk : bytes := [1; 2].
Definition template (ts : Z) (ps : list Hash) : Block :=
  {| blk_height := 1; blk_timestamp := ts; blk_parents := ps; blk_interlinks := [];
     blk_transparent_txs := []; blk_utxo_txs := []; blk_registry_ops := []; blk_custody_ops := [];
     blk_merkle_root := 0; blk_state_root := 0; blk_miner := address_hash pk; blk_creator_pubkey := pk;
     blk_nonce := 0; blk_difficulty := effective_min_difficulty false; blk_version := 0; blk_coinbase_entropy := 0;
     blk_stark_proof := replicate 20 1; blk_birth_certificate := []; blk_size := 0 |}.
Definition certify (b : Block) : Block :=
  {| blk_height := blk_height b; blk_timestamp := blk_timestamp b; blk_parents := blk_parents b;
     blk_interlinks := blk_interlinks b; blk_transparent_txs := []; blk_utxo_txs := [];
     blk_registry_ops := []; blk_custody_ops := []; blk_merkle_root := blk_merkle_root b;
     blk_state_root := blk_state_root b; blk_miner := blk_miner b;
     blk_creator_pubkey := blk_creator_pubkey b; blk_nonce := blk_nonce b;
     blk_difficulty := blk_difficulty b; blk_version := blk_version b;
     blk_coinbase_entropy := blk_coinbase_entropy b; blk_stark_proof := blk_stark_proof b;
     blk_birth_certificate :=
       le_bytes 4 (Toy.quick_mix (pk ++ digest512 (str_bytes "birth-certificate") (settlement_id b)));
     blk_size := 0 |}.
Definition mine (s : ChainState) (ts : Z) : Block :=
  let t := template ts (cs_tips s) in
  certify (match bind_parent_commitments s t with Ok b => b | Err _ => t end).
Definition first_block : Block := mine start (GENESIS_TIMESTAMP_MS + 100).
Definition now : Z := GENESIS_TIMESTAMP_MS + 1000.
Definition after : result ChainState := add_block start now first_block.
Definition later : ChainState := match after with Ok s => s | Err _ => start end.
Definition later_checks : bool :=
  is_ok after && cs_base_captured later && supply_invariant_ok (cs_ledger later) &&
  bool_decide (selected_tip (cs_ghostdag later) (cs_tips later) = Some (block_hash first_block)) &&
  negb (block_hash first_block =? genesis_hash).
Lemma later_checks_ok : later_checks = true.
Proof. vm_compute. reflexivity. Qed.
Lemma later_facts :
  add_block start now first_block = Ok later ∧ cs_base_captured later = true ∧ supply_invariant_ok (cs_ledger later) = true ∧
  selected_tip (cs_ghostdag later) (cs_tips later) = Some (block_hash first_block) ∧ block_hash first_block ≠ genesis_hash.
Proof.
  pose proof later_checks_ok as [[[[(s & Hs)%ok_exists Hcap]%andb_prop Hsup]%andb_prop Htip%bool_decide_eq_true]%andb_prop
    Hne%negb_true_iff%Z.eqb_neq]%andb_prop.
  split_and!; [|assumption..]. unfold later. unfold after in *. rewrite Hs. reflexivity.
Qed.
Lemma step_ok : ∃ s, add_block start now first_block = Ok s.
Proof. exists later. apply later_facts. Qed.
Lemma start_small : Z.of_nat (size (cs_dag start)) * SCALE < SPACE_END.
Proof. vm_compute. reflexivity. Qed.
Lemma start_reachable : reachable Ledger_default start.
Proof. apply reachable_seeded. Qed.

(** Two blocks on genesis, admitted in both orders. *)
Definition second_block : Block := mine start (GENESIS_TIMESTAMP_MS + 200).
Definition both (b c : Block) : result ChainState := s ← add_block start now b; add_block s now c.
Definition ends (b c : Block) : ChainState := match both b c with Ok s => s | Err _ => start end.
Lemma both_reachable b c : is_ok (both b c) = true → reachable Ledger_default (ends b c).
Proof.
  unfold ends, both. intros (s2 & Hs2)%ok_exists. rewrite Hs2.
  destruct (add_block start now b) as [s1|] eqn:Hs1; [|done]. cbn [mbind result_bind] in Hs2.
  pose proof (reachable_block _ start now b s1 start_reachable start_small Hs1) as Hr1.
  apply (reachable_block _ s1 now c s2 Hr1); [|done].
  destruct (reachable_ok _ _ start_reachable) as (Hok & Har & _).
  destruct (add_block_ok _ _ _ _ _ Hok Har start_small Hs1) as (d & _ & _ & _ & -> & _).
  unfold insert_block. cbn [cs_dag set_graph]. rewrite map_size_insert.
  assert (size (cs_dag start) = 1%nat) as -> by (vm_compute; reflexivity).
  destruct (cs_dag start !! block_hash b); vm_compute; reflexivity.
Qed.
Lemma orders_agree :
  is_ok (both first_block second_block) && is_ok (both second_block first_block) = true ∧
  cs_dag (ends first_block second_block) = cs_dag (ends second_block first_block).
Proof. split; vm_compute; reflexivity. Qed.

Lemma step_reachable s : add_block start now first_block = Ok s → reachable Ledger_default s.
Proof. exact (reachable_block _ start now first_block s start_reachable start_small). Qed.
Lemma later_reachable : reachable Ledger_default later.
Proof. apply step_reachable, later_facts. Qed.
End ChainExample.

Section witnesses.
#[local] Existing Instances ChainExample.ex_crypto ChainExample.ex_dual ChainExample.ex_body ChainExample.ex_env.

Lemma live_ledger_is_replay_witness :
  ∃ s, add_block ChainExample.start ChainExample.now ChainExample.first_block = Ok s ∧
  ∃ tip, cs_main_chain s = selected_chain (cs_ghostdag s) tip.
Proof.
  destruct ChainExample.step_ok as [s Hs]. exists s. split; [exact Hs|].
  destruct (live_ledger_is_replay Ledger_default s (ChainExample.step_reachable s Hs)) as (tip & _ & Hm & _).
  exists tip. exact Hm.
Defined.

Lemma same_blocks_same_state_witness :
  cs_ledger (ChainExample.ends ChainExample.first_block ChainExample.second_block) =
  cs_ledger (ChainExample.ends ChainExample.second_block ChainExample.first_block).
Proof.
  destruct ChainExample.orders_agree as [[H1 H2]%andb_prop Hdag].
  destruct (same_blocks_same_state Ledger_default _ _ (ChainExample.both_reachable _ _ H1)
    (ChainExample.both_reachable _ _ H2) Hdag) as (_ & _ & _ & _ & _ & Hl).
  exact Hl.
Defined.

Lemma accepted_state_root_witness :
  ∃ s, add_block ChainExample.start ChainExample.now ChainExample.first_block = Ok s ∧
    blk_state_root ChainExample.first_block = state_root (cs_ledger s).
Proof.
  destruct ChainExample.later_facts as (Hs & _ & _ & Ht & _). set (s := ChainExample.later) in *. clearbody s.
  exists s. split; [exact Hs|].
  exact (proj2 (accepted_state_root Ledger_default ChainExample.start ChainExample.now ChainExample.first_block s
    ChainExample.start_reachable ChainExample.start_small Hs) Ht).
Defined.
End witnesses.
