(* ===== verification/Admission.v ===== *)
(** * The rules of admission

    Consequences of the checks of [add_block]: the pre-checks peers run on headers
    and blocks refuse nothing that [add_block] would accept; the time rule is the
    past median of the selected chain; the difficulty rule is a bounded retarget of
    the selected parent's difficulty. *)

From S2P Require Import Prelude Genesis Crypto Address Predicate Utxo UtxoTx Registry Custody Block Ledger.
From S2P Require Import Dag Ghostdag Reachability Reindex ReachBuild Determinism.
From S2P Require Import FeeHistory Stark VersionBits Superproof State Chain ChainInv.

(** ** Pre-checks *)
Section admission_rules.
Context `{!Crypto, !DualCrypto, !BodyCodec, !NodeEnv}.

Lemma precheck_parents_ok dag seen l :
  has_duplicate seen l = false → existsb (λ p, negb (bool_decide (p ∈ dom dag))) l = false →
  precheck_parents dag seen l = Ok ().
Proof.
  revert seen. induction l as [|p l IH]; intros seen; simpl; [done|].
  destruct (bool_decide (p ∈ seen)); [done|]. intros Hd [Hp Hl]%orb_false_elim. rewrite Hp. by apply IH.
Qed.

Lemma block_hash_header_only b : block_hash (header_only b) = block_hash b.
Proof. done. Qed.

(** The pre-checks are a filter [add_block] does not need: [precheck_block] and,
    on the header alone, [precheck_header] accept every block that [add_block] accepts
    in the same state, so dropping a message that fails them loses no valid block. *)
Theorem precheck_complete s now b gd :
  check_block s now b = Ok gd → precheck_block s b = Ok () ∧ precheck_header s (header_only b) = Ok ().
Proof.
  unfold check_block, precheck_block, precheck_header. rewrite block_hash_header_only.
  cbn [header_only blk_parents blk_difficulty blk_timestamp blk_interlinks]. intros Hc.
  destruct (bool_decide (block_hash b ∈ dom (cs_dag s))); [done|].
  destruct (negb (verify_size b)); [done|]. destruct (MAX_BLOCK_BYTES <? _); [done|].
  destruct (bool_decide (blk_parents b = [])); [done|]. destruct (MAX_BLOCK_PARENTS <? _); [done|].
  destruct (has_duplicate ∅ (blk_parents b)) eqn:Hdup; [done|].
  destruct (existsb _ (blk_parents b)) eqn:Hun; [done|].
  rewrite (precheck_parents_ok _ _ _ Hdup Hun). cbn [mbind result_bind].
  destruct (finality_violation s (blk_parents b)); [done|].
  destruct (negb (blk_difficulty b =? _)); [done|]. destruct (negb (verify_pow _ _)); [done|].
  destruct (bool_decide (blk_stark_proof b = []) || _); [done|].
  destruct (map_err _ _) as [[]|]; [|done]. cbn [mbind result_bind] in Hc |- *.
  destruct (select_parent (cs_ghostdag s) (blk_parents b)) as [sp|]; [|done]. cbn [ok_or mbind result_bind] in Hc |- *.
  by destruct (negb (bool_decide (blk_interlinks b = _))).
Qed.

(** ** Time *)

Lemma median_times_chain n dag gd h :
  dag_inv dag gd → h ∈ dom gd →
  median_times n dag gd h =
  omap (λ x, blk_timestamp <$> dag !! x) (take n (rev (selected_chain gd h))).
Proof.
  intros Hi. revert h. induction n as [|n IH]; intros h Hh; [done|]. cbn [median_times].
  apply elem_of_dom in Hh as [d Hd].
  assert (h ∈ dom dag) as [b Hb]%elem_of_dom by (rewrite <- (inv_dom _ _ Hi); by apply elem_of_dom).
  rewrite (selected_chain_eq _ h d (inv_wf _ _ Hi) Hd), rev_app_distr, Hb, Hd. simpl. rewrite Hb. simpl. f_equal.
  destruct (gd_selected_parent d) as [sp|] eqn:Hsp; [|by destruct n].
  destruct (inv_wf _ _ Hi h d sp Hd Hsp) as (dsp & Hdsp & Hlt). simpl.
  destruct (Z.eqb_spec sp h) as [->|_]; [|by apply IH, elem_of_dom].
  rewrite Hd in Hdsp. injection Hdsp as <-. lia.
Qed.

Lemma filter_perm_length (P : Z → Prop) `{!∀ x, Decision (P x)} l l' :
  l ≡ₚ l' → length (filter P l) = length (filter P l').
Proof. intros Hp. by rewrite Hp. Qed.

Lemma filter_all (P : Z → Prop) `{!∀ x, Decision (P x)} l : Forall P l → filter P l = l.
Proof. induction 1 as [|x l Hx _ IH]; [done|]. by rewrite filter_cons_True, IH. Qed.

(** More than half of a list lies below anything above its median. *)
Lemma median_majority (l : list Z) t :
  l ≠ [] → default 0 (merge_sort Z.le l !! (length (merge_sort Z.le l) / 2)%nat) < t →
  (length l < 2 * length (filter (λ x, x < t)%Z l))%nat.
Proof.
  intros Hne Hm. pose proof (merge_sort_Permutation Z.le l) as Hp.
  rewrite <- (filter_perm_length _ _ _ Hp), <- (Permutation_length Hp).
  pose proof (StronglySorted_merge_sort Z.le l) as Hs. assert (merge_sort Z.le l ≠ []) as Hne'.
  { intros Hn. rewrite Hn in Hp. by apply Permutation_nil_l in Hp. }
  generalize dependent (merge_sort Z.le l). intros m Hm _ Hs Hne'. set (k := (length m / 2)%nat) in *.
  assert (k < length m)%nat as [x Hx]%lookup_lt_is_Some.
  { destruct m; [done|]. apply Nat.div_lt; simpl; lia. }
  rewrite Hx in Hm. simpl in Hm. rewrite <- (take_drop_middle m k x Hx) in Hs |- *.
  assert (Forall (λ y, y < t) (take k m)) as Hlow.
  { apply Forall_forall. intros y Hy. pose proof (StronglySorted_app_1_elem_of _ _ _ y x Hs Hy ltac:(left)). lia. }
  rewrite filter_app, !length_app, filter_cons_True by done. rewrite (filter_all _ _ Hlow). simpl.
  assert (length (take k m) = k) as -> by (rewrite length_take; apply lookup_lt_Some in Hx; lia).
  rewrite length_drop. pose proof (Nat.div_mod_eq (length m) 2) as Hdm. fold k in Hdm.
  pose proof (Nat.mod_upper_bound (length m) 2). lia.
Qed.

Lemma zmax_list_ge l x : x ∈ l → x <= zmax_list l.
Proof.
  destruct l as [|y l]; [by intros ?%not_elem_of_nil|]. unfold zmax_list. revert x y.
  induction l as [|z l IH]; intros x y; [by intros ->%list_elem_of_singleton|]. simpl.
  pose proof (IH (y `max` z) (y `max` z) ltac:(left)) as Hm.
  intros [->|[->|Hx]%elem_of_cons]%elem_of_cons; [lia..|]. apply IH. by right.
Qed.

(** The time rule of an admitted block: it is not earlier than any parent, it is
    later than more than half of the last eleven blocks of the selected parent's
    chain (the past median rule), and not further in the future of the node's clock
    than the allowed drift. *)
Theorem accepted_timestamp L0 s now b gd :
  reachable L0 s → check_block s now b = Ok gd →
  (∀ p pb, p ∈ blk_parents b → cs_dag s !! p = Some pb → blk_timestamp pb <= blk_timestamp b) ∧
  (∃ sp, select_parent (cs_ghostdag s) (blk_parents b) = Some sp ∧
    let recent := omap (λ h, blk_timestamp <$> cs_dag s !! h) (take 11 (rev (selected_chain (cs_ghostdag s) sp))) in
    (length recent < 2 * length (filter (λ t, t < blk_timestamp b)%Z recent))%nat) ∧
  blk_timestamp b <= now + MAX_FUTURE_DRIFT_MS.
Proof.
  intros (Hok & _)%reachable_ok Hc. destruct (rbuilt_ok _ _ _ (ok_graph _ _ Hok)) as (Hi & _ & _).
  destruct (check_block_ok _ _ _ _ Hc) as (_ & _ & _ & Hps & _ & _ & _ & _ & _ & _ & _ & sp & Hsp & _ & Hmax & [Hmed Hdrift] & _).
  split_and!.
  - intros p pb Hp Hpb. unfold max_timestamp in Hmax.
    assert (blk_timestamp pb ∈ omap (λ h, blk_timestamp <$> cs_dag s !! h) (blk_parents b)) as Hin.
    { apply list_elem_of_omap. exists p. by rewrite Hpb. }
    destruct (omap _ _) as [|t ts]; [by apply not_elem_of_nil in Hin|]. cbn [from_option id] in Hmax.
    pose proof (zmax_list_ge _ _ Hin). lia.
  - exists sp. split; [done|]. destruct (select_parent_Some _ _ _ Hsp) as (_ & Hd & _).
    cbv zeta. rewrite <- (median_times_chain 11 _ _ sp Hi Hd). apply median_majority; [|exact Hmed].
    assert (is_Some (cs_dag s !! sp)) as [pb Hpb].
    { apply elem_of_dom. by rewrite <- (inv_dom _ _ Hi). }
    simpl. by rewrite Hpb.
  - unfold sat_add in Hdrift. lia.
Qed.

(** ** Difficulty *)

(** The blocks a list of samples was taken from: distinct, in the past of the cursor
    the walk started at. *)
Definition sample_of (dag : Dag) (h : Hash) : option (Z * Z) :=
  (λ b, (blk_timestamp b, Z.max (blk_difficulty b) 1)) <$> dag !! h.
Definition sampled (dag : Dag) (sp : Hash) (st : list (Z * Z) * gset Hash) : Prop :=
  ∃ hs, NoDup hs ∧ Forall (λ h, h ∈ st.2 ∧ in_past dag sp h ∧ is_Some (dag !! h)) hs ∧
    st.1 = omap (sample_of dag) hs ∧ len st.1 <= DAA_WINDOW.

Lemma sampled_push dag sp st h :
  sampled dag sp st → (h ∉ st.2) → in_past dag sp h → len st.1 < DAA_WINDOW →
  sampled dag sp (sample_block dag st.1 h, {[h]} ∪ st.2).
Proof.
  intros (hs & Hnd & Hall & Heq & Hlen) Hn Hp Hlt. unfold sample_block. destruct (dag !! h) as [b|] eqn:Hb.
  - exists (hs ++ [h]). split_and!; cbn [fst snd].
    + apply NoDup_app. split_and!; [done| |apply NoDup_singleton]. intros x Hx ->%list_elem_of_singleton.
      rewrite Forall_forall in Hall. by destruct (Hall _ Hx).
    + apply Forall_app. split; [eapply Forall_impl; [done|]; simpl; set_solver|]. apply Forall_singleton.
      split_and!; [set_solver|done|by exists b].
    + rewrite omap_app, Heq. f_equal. simpl. unfold sample_of. by rewrite Hb.
    + unfold len in *. rewrite length_app. simpl. lia.
  - exists hs. split_and!; [done| |done|done]. eapply Forall_impl; [done|]. simpl. set_solver.
Qed.

Lemma sampled_blues dag sp st l :
  sampled dag sp st → (∀ x, x ∈ l → in_past dag sp x) → sampled dag sp (foldl (sample_blue dag) st l).
Proof.
  revert st. induction l as [|x l IH]; intros st Hst Hl; [done|]. simpl. apply IH; [|set_solver].
  unfold sample_blue. destruct (Z.leb_spec DAA_WINDOW (len st.1)); [done|].
  destruct (bool_decide_reflect (x ∈ st.2)); [done|]. apply sampled_push; try done. apply Hl. by left.
Qed.

Lemma blues_in_past dag gd h d x :
  dag_inv dag gd → gd !! h = Some d → x ∈ gd_mergeset_blues d → in_past dag h x.
Proof.
  intros Hi Hd Hx. pose proof (inv_entry _ _ Hi h d Hd) as He. apply (entry_blues_past _ _ _ _ He).
  rewrite (materialized_blues_eq gd h d (inv_wf _ _ Hi) Hd); [set_solver|].
  intros s [tl ->]%(entry_parent _ _ _ _ He). by left.
Qed.

Lemma sample_walk_ok n dag gd sp c st :
  dag_inv dag gd → sampled dag sp st → (∀ h, c = Some h → in_past dag sp h) →
  ∃ seen, sampled dag sp (sample_walk n dag gd c st, seen).
Proof.
  intros Hi. revert c st. induction n as [|n IH]; intros c st Hst Hc; [by exists st.2; destruct st|].
  destruct c as [h|]; [|by exists st.2; destruct st]. specialize (Hc h eq_refl). cbn [sample_walk].
  destruct (Z.leb_spec DAA_WINDOW (len st.1)) as [|Hlt]; [by exists st.2; destruct st|].
  destruct (gd !! h) as [d|] eqn:Hd; [|by exists st.2; destruct st]. apply IH.
  - destruct (bool_decide_reflect (gd_mergeset_blues d = [])) as [He|]; cbn [andb].
    + rewrite He. cbn [foldl]. destruct (bool_decide_reflect (h ∈ st.2)); cbn [negb]; [done|].
      by apply sampled_push.
    + apply sampled_blues; [done|]. intros x Hx. unfold in_past in *. transitivity h; [exact Hc|]. by apply (blues_in_past dag gd h d).
  - intros s Hs. unfold in_past in *. transitivity h; [exact Hc|]. apply rtc_once, (entry_selected _ _ _ _ (inv_entry _ _ Hi h d Hd) s Hs).
Qed.

Lemma daa_retarget_range samples D floor :
  0 <= floor <= D → clamp_up D <= U64_MAX →
  clamp_down floor D <= daa_retarget samples D floor <= clamp_up D.
Proof.
  intros HD Hup. unfold daa_retarget. fold (clamp_up D) (clamp_down floor D).
  pose proof (clamp_down_le floor D HD) as Hd. pose proof (clamp_up_ge D).
  match goal with |- context [clamp ?r ?a ?b] => pose proof (clamp_range r a b ltac:(lia)) as Hr end.
  rewrite wrap_small; [exact Hr|]. split; [|change (umax 64) with U64_MAX; lia].
  unfold clamp_down in *. lia.
Qed.

(** The difficulty a block must carry: never under the era floor; within the
    3/4 .. 5/4 band around its selected parent's difficulty (raised to the floor), and
    exactly that difficulty until a full window of samples exists; and the samples
    are the timestamps and difficulties of distinct blocks of the selected parent's
    past, at most one window of them.  The one assumption is that the upper clamp
    fits the [u64] of the result. *)
Theorem expected_difficulty_bounds L0 s parents ts sp pb :
  reachable L0 s → select_parent (cs_ghostdag s) parents = Some sp → cs_dag s !! sp = Some pb →
  let floor := era_min_difficulty lab_easy (minted_supply (cs_ledger s)) ts in
  let D := Z.max (blk_difficulty pb) floor in
  let samples := collect_daa_blue_samples (cs_dag s) (cs_ghostdag s) sp in
  let r := expected_difficulty_at s parents ts in
  clamp_up D <= U64_MAX →
  floor <= r ∧ Z.max (D * 3 / 4) floor <= r <= Z.max (D * 5 / 4) (D + 1) ∧
  (len samples < DAA_WINDOW → r = D) ∧ len samples <= DAA_WINDOW ∧
  ∃ hs, NoDup hs ∧ Forall (in_past (cs_dag s) sp) hs ∧ samples = omap (sample_of (cs_dag s)) hs.
Proof.
  intros (Hok & _)%reachable_ok Hsp Hpb floor D samples r Hup.
  destruct (rbuilt_ok _ _ _ (ok_graph _ _ Hok)) as (Hi & _ & _).
  assert (0 <= floor <= D) as Hf.
  { assert (0 <= floor) by (subst floor; unfold era_min_difficulty; by case_match). lia. }
  assert (r = Z.max (if len samples <? DAA_WINDOW then D else daa_retarget samples D floor) floor) as Hr.
  { subst r. unfold expected_difficulty_at. rewrite Hsp, Hpb. done. }
  pose proof (daa_retarget_range samples D floor Hf Hup) as Hd.
  pose proof (clamp_down_le floor D Hf) as Hdl. pose proof (clamp_up_ge D).
  destruct (sample_walk_ok (chain_fuel (cs_ghostdag s)) (cs_dag s) (cs_ghostdag s) sp (Some sp) ([], ∅) Hi)
    as (seen & hs & Hnd & Hall & Heq & Hlen).
  { exists []. split; [apply NoDup_nil_2|]. split; [apply Forall_nil_2|]. done. }
  { intros h [= ->]. apply rtc_refl. }
  fold (clamp_down floor D) (clamp_up D).
  assert (floor <= r ∧ clamp_down floor D <= r <= clamp_up D ∧ (len samples < DAA_WINDOW → r = D)) as (? & ? & ?).
  { rewrite Hr. unfold clamp_down in *. destruct (Z.ltb_spec (len samples) DAA_WINDOW); lia. }
  do 4 (split; [assumption|]). exists hs. split_and!; [done| |done].
  eapply Forall_impl; [done|]. by intros x (_ & ? & _).
Qed.
End admission_rules.

Section witnesses.
#[local] Existing Instances ChainExample.ex_crypto ChainExample.ex_dual ChainExample.ex_body ChainExample.ex_env.

Lemma first_block_checks : ∃ gd, check_block ChainExample.start ChainExample.now ChainExample.first_block = Ok gd.
Proof. apply ok_exists. vm_compute. reflexivity. Qed.

Lemma precheck_complete_witness : precheck_block ChainExample.start ChainExample.first_block = Ok ().
Proof.
  destruct first_block_checks as [gd Hc].
  exact (proj1 (precheck_complete ChainExample.start ChainExample.now ChainExample.first_block gd Hc)).
Defined.

Lemma accepted_timestamp_witness :
  blk_timestamp ChainExample.first_block <= ChainExample.now + MAX_FUTURE_DRIFT_MS.
Proof.
  destruct first_block_checks as [gd Hc].
  destruct (accepted_timestamp Ledger_default ChainExample.start ChainExample.now ChainExample.first_block gd
    ChainExample.start_reachable Hc) as (_ & _ & Hd).
  exact Hd.
Defined.

Lemma expected_difficulty_bounds_witness :
  5250 <= expected_difficulty_at ChainExample.start [genesis_hash] (GENESIS_TIMESTAMP_MS + 100).
Proof.
  destruct (expected_difficulty_bounds Ledger_default ChainExample.start [genesis_hash]
    (GENESIS_TIMESTAMP_MS + 100) genesis_hash genesis_block ChainExample.start_reachable)
    as (_ & [Hlo _] & _); [vm_compute; reflexivity|vm_compute; reflexivity|vm_compute; discriminate|].
  refine (Z.le_trans _ _ _ _ Hlo). vm_compute. discriminate.
Defined.
End witnesses.
