(* ===== verification/Persist.v ===== *)
(** * Persistence

    The state file of [src/src/lib.rs]: [save_to] with its framing, integrity tag and
    the order of its file operations, [load_from] with its fall-back to the rolled
    copies, [validate_hardcoded_chain], the depth-first [topological_order] and
    [rebuild_derived].

    The serialiser (bincode) is a parameter.  The four files a save touches are named
    rather than spelled, their paths being different extensions of one path.  Writing
    the temporary file may stop anywhere; a rename happens or does not. *)

From S2P Require Import Prelude Genesis Crypto Address Predicate Utxo UtxoTx Registry Custody Block Ledger.
From S2P Require Import Dag Ghostdag Reachability Reindex ReachBuild Determinism.
From S2P Require Import FeeHistory Stark VersionBits Superproof State Chain ChainInv.

Definition STATE_MAGIC : bytes := str_bytes "HASSANST".
Definition STATE_FORMAT_VERSION : Z := 31.
Definition MAX_CHAINSTATE_BYTES : Z := 512 * 1024 * 1024.
Definition STATE_CHECKSUM_LEN : nat := 64.

(** bincode on [ChainState], and the text of an I/O error. *)
Class StateCodec := {
  encode_state : ChainState → result bytes;
  decode_state : bytes → result ChainState;
  io_err : string;
}.

(** What a written state reads back as: the fields marked [serde(skip)] take their
    defaults. *)
Definition persisted (s : ChainState) : ChainState :=
  {| cs_dag := cs_dag s; cs_tips := cs_tips s; cs_main_chain := cs_main_chain s; cs_ledger := cs_ledger s;
     cs_difficulty := cs_difficulty s; cs_chain_id := cs_chain_id s; cs_ghostdag := cs_ghostdag s;
     cs_reachability := {| nodes := ∅; next_root_start := 0 |}; cs_archival := false; cs_base := cs_base s;
     cs_base_captured := cs_base_captured s; cs_base_frontier := cs_base_frontier s;
     cs_pruning_point := cs_pruning_point s; cs_pruning_ledger := cs_pruning_ledger s;
     cs_pruned_selected_blocks := cs_pruned_selected_blocks s;
     cs_pools := {| transparent_mempool := []; utxo_mempool := []; registry_mempool := []; custody_mempool := [];
                    tx_first_seen_ms := ∅; tx_first_seen_blue := ∅; fee_history := fee_history (cs_pools s) |} |}.
Class CodecLaws `{!StateCodec} : Prop := {
  decode_encode_state s data : encode_state s = Ok data → decode_state data = Ok (persisted s);
}.

(** ** The depth-first order of the graph *)

(** Marks are 1 (in progress) and 2 (done); the stack is kept top first. *)
Definition mark_of (m : gmap Hash Z) (h : Hash) : Z := default 0 (m !! h).
(** The parents pushed for a node, last one on top. *)
Definition push_parents (dag : Dag) (m : gmap Hash Z) (ps : list Hash) : list (Hash * bool) :=
  rev ((λ p, (p, false)) <$> List.filter (λ p, bool_decide (p ∈ dom dag) && negb (mark_of m p =? 2)) ps).
Fixpoint dfs_loop (fuel : nat) (dag : Dag) (stack : list (Hash * bool)) (mark : gmap Hash Z) (order : list Hash)
    : gmap Hash Z * list Hash :=
  match fuel, stack with
  | S fuel, (node, true) :: stack =>
      dfs_loop fuel dag stack (<[node := 2]> mark) (if mark_of mark node =? 2 then order else order ++ [node])
  | S fuel, (node, false) :: stack =>
      if negb (mark_of mark node =? 0) then dfs_loop fuel dag stack mark order else
      let mark := <[node := 1]> mark in
      dfs_loop fuel dag (push_parents dag mark (parents_of dag node) ++ (node, true) :: stack) mark order
  | _, _ => (mark, order)
  end.
(** Every block is expanded at most once, pushing itself and its parents. *)
Definition dfs_fuel (dag : Dag) : nat := Z.to_nat (2 + total (λ b, 2 + len (blk_parents b)) dag).
Definition dfs_start (dag : Dag) (st : gmap Hash Z * list Hash) (start : Hash) : gmap Hash Z * list Hash :=
  if mark_of st.1 start =? 2 then st else dfs_loop (dfs_fuel dag) dag [(start, false)] st.1 st.2.

Section persist.
Context `{!Crypto, !DualCrypto, !BodyCodec, !NodeEnv, !StateCodec}.

(** [topological_order] starts from the blocks in the order of the map. *)
Definition dag_topological_order (dag : Dag) : list Hash := (foldl (dfs_start dag) (∅, []) (dag_keys dag)).2.

(** ** Rebuilding *)

Definition rebuild_reach (gd : GdMap) (order : list Hash) : Reachability :=
  foldl (λ r h, match gd !! h with
                | Some d => reach_add_block r h (gd_selected_parent d) (merged d)
                | None => r
                end) Reachability_new order.
Definition rebuild_derived (s : ChainState) : ChainState :=
  let reach := rebuild_reach (cs_ghostdag s) (dag_topological_order (cs_dag s)) in
  let s := set_graph s (cs_dag s) (cs_tips s) (cs_ghostdag s) reach in
  recompute_virtual_state (set_base s (cs_base s) true (cs_base_frontier s)).

(** ** The state file *)

Definition state_tag (body : bytes) : bytes := blake3_xof (str_bytes "hassan-chainstate-v1" ++ body) STATE_CHECKSUM_LEN.
Definition state_header : bytes := STATE_MAGIC ++ le_bytes 4 STATE_FORMAT_VERSION.
Definition frame (payload : bytes) : bytes :=
  let bytes := state_header ++ payload in bytes ++ state_tag bytes.

(** [save_to] up to the bytes to be written; the state it leaves is the pruned one. *)
Definition save_bytes (s : ChainState) : result bytes * ChainState :=
  let s := if cs_archival s then s else prune_history (prune_bodies s) in
  (payload ← map_err (String.append "serialize state: ") (encode_state s);
   fail_if MAX_CHAINSTATE_BYTES <? len payload as "chainstate payload exceeds MAX_CHAINSTATE_BYTES";
   Ok (frame payload), s).

(** [validate_hardcoded_chain]. *)
Definition validate_hardcoded_chain (s : ChainState) : result unit :=
  fail_if negb (cs_chain_id s =? CHAIN_ID)
    as ("wrong chain_id in state file (got " +:+ pretty (cs_chain_id s) +:+ ", this build is " +:+ pretty CHAIN_ID +:+
        ") — wipe data dir or use a matching binary");
  let gh := genesis_hash in
  _ ← match cs_dag s !! gh with
      | Some b =>
          fail_if negb (blk_height b =? 0) || negb (bool_decide (blk_parents b = [])) as "corrupt hardcoded genesis block";
          fail_if negb (blk_difficulty b =? GENESIS_DIFFICULTY) as "corrupt genesis difficulty";
          fail_if negb (block_hash b =? gh)
            as "genesis hash mismatch (file tip != hassan genesis hassan-genesis-v31) — wipe chainstate";
          Ok ()
      | None =>
          fail_if bool_decide (cs_pruning_point s = None)
            as "missing hardcoded genesis block for hassan-genesis-v31 — wipe chainstate or resync";
          Ok ()
      end;
  fail_if existsb (λ h, negb (bool_decide (h ∈ dom (cs_dag s)))) (cs_main_chain s)
    as "corrupt chainstate: main_chain hash missing from DAG";
  fail_if Z.of_nat (size (cs_dag s)) <? len (cs_main_chain s) as "corrupt chainstate: DAG smaller than main_chain";
  fail_if MAX_SUPPLY <? minted_supply (cs_ledger s) as "corrupt chainstate: minted_supply exceeds MAX_SUPPLY";
  Ok ().

(** [load_one] on the contents of a file. *)
Definition load_bytes (bytes : bytes) : result ChainState :=
  fail_if (len bytes <? 12) || negb (bool_decide (take 8 bytes = STATE_MAGIC)) as "not a Hassan state file (bad magic)";
  let version := le_int (take 4 (drop 8 bytes)) in
  fail_if negb (version =? STATE_FORMAT_VERSION)
    as ("incompatible state format (file v" +:+ pretty version +:+ ", this build expects v" +:+
        pretty STATE_FORMAT_VERSION +:+ ") — starting fresh; wipe the data dir or resync from an archival node");
  fail_if len bytes <? 12 + Z.of_nat STATE_CHECKSUM_LEN as "chainstate missing integrity tag";
  let split := (length bytes - STATE_CHECKSUM_LEN)%nat in
  let body := take split bytes in
  fail_if negb (bool_decide (drop split bytes = state_tag body)) as "corrupt chainstate: integrity tag mismatch";
  let payload := drop 12 body in
  fail_if MAX_CHAINSTATE_BYTES <? len payload as "chainstate payload exceeds MAX_CHAINSTATE_BYTES";
  s ← map_err (String.append "deserialize state: ") (decode_state payload);
  _ ← validate_hardcoded_chain s;
  fail_if negb (supply_invariant_ok (cs_ledger s)) as "corrupt chainstate: supply invariant failed";
  Ok (rebuild_derived s).

(** ** The files *)

Inductive FileName := Primary | Tmp | Bak | Bak1.
#[global] Instance FileName_eq_dec : EqDecision FileName.
Proof. solve_decision. Defined.
Definition Files : Type := FileName → option bytes.
Definition set_file (f : FileName) (c : option bytes) (fs : Files) : Files := λ g, if decide (g = f) then c else fs g.
Definition exists_file (f : FileName) (fs : Files) : bool := bool_decide (is_Some (fs f)).
(** [std::fs::rename]. *)
Definition rename (a b : FileName) (fs : Files) : Files :=
  match fs a with Some c => set_file a None (set_file b (Some c) fs) | None => fs end.

Definition load_one (fs : Files) (f : FileName) : result ChainState :=
  match fs f with Some bytes => load_bytes bytes | None => Err ("read state: " +:+ io_err) end.
Definition is_identity_error (e : string) : bool :=
  existsb (λ p, String.prefix p e)
    ["incompatible state format"; "wrong chain_id"; "missing hardcoded genesis"; "corrupt hardcoded genesis"; "corrupt genesis"].
(** [load_from]. *)
Definition load_from (fs : Files) : result ChainState :=
  match load_one fs Primary with
  | Ok s => Ok s
  | Err e =>
      if is_identity_error e then Err e else
      match load_one fs Bak with
      | Ok s => Ok s
      | Err _ => match load_one fs Bak1 with Ok s => Ok s | Err _ => Err e end
      end
  end.

(** The file operations of [save_to] in their order.  The two renames that make the
    backups ignore errors: [ok] says whether one happens. *)
Definition write_tmp (c : bytes) (fs : Files) : Files := set_file Tmp (Some c) fs.
Definition roll_bak (ok : bool) (fs : Files) : Files :=
  if exists_file Primary fs && exists_file Bak fs && ok then rename Bak Bak1 fs else fs.
Definition roll_primary (ok : bool) (fs : Files) : Files :=
  if exists_file Primary fs && ok then rename Primary Bak fs else fs.
Definition publish (fs : Files) : Files := rename Tmp Primary fs.
Definition save_files (ok1 ok2 : bool) (data : bytes) (fs : Files) : Files :=
  publish (roll_primary ok2 (roll_bak ok1 (write_tmp data fs))).
(** The contents of the directory at every point where a save can be cut short; the
    first two writes are of a part of the data. *)
Definition crash_points (partial : bytes) (ok1 ok2 : bool) (data : bytes) (fs : Files) : list Files :=
  [ fs; write_tmp partial fs; write_tmp data fs; roll_bak ok1 (write_tmp data fs);
    roll_primary ok2 (roll_bak ok1 (write_tmp data fs)); save_files ok1 ok2 data fs ].
End persist.

(** ** Correctness of the depth-first order *)

(** Where an entry sits in a stack with a block of entries on top. *)
Lemma split_below {A} (P S l k : list A) e t :
  P ++ e :: S = l ++ t :: k → t ∉ P → (l = P ∧ e = t ∧ S = k) ∨ ∃ l', l = P ++ e :: l' ∧ S = l' ++ t :: k.
Proof.
  revert l. induction P as [|x P IH]; intros l Heq Ht; destruct l as [|y l]; simplify_eq/=; [by left|right; by exists l|set_solver|].
  destruct (IH l) as [(-> & -> & ->)|(l' & -> & ->)]; [done|set_solver|by left|right; by exists l'].
Qed.

(** [parents_first dag order]: every parent of a listed block is listed before it. *)
Definition parents_first (dag : Dag) (order : list Hash) : Prop :=
  ∀ l x k p, order = l ++ x :: k → edge dag x p → p ∈ l.

Section dfs.
Context (dag : Dag) (Hacyclic : ∀ x, ¬ ancestor dag x x) (Hclosed : ∀ x p, edge dag x p → p ∈ dom dag).

Record dfs_inv (stack : list (Hash * bool)) (mark : gmap Hash Z) (order : list Hash) : Prop := {
  di_nodup : NoDup order;
  di_done x : mark_of mark x = 2 ↔ x ∈ order;
  di_open x : mark_of mark x = 1 ↔ (x, true) ∈ stack;
  di_marks x : mark_of mark x = 0 ∨ mark_of mark x = 1 ∨ mark_of mark x = 2;
  di_first : parents_first dag order;
  di_above l x k : stack = l ++ (x, true) :: k →
    (∀ y, y ∈ l.*1 → ancestor dag y x) ∧ (∀ p, edge dag x p → p ∈ order ∨ p ∈ l.*1);
  di_dom x : x ∈ order ∨ x ∈ stack.*1 → x ∈ dom dag;
}.

Lemma mark_of_insert m x v y : mark_of (<[x := v]> m) y = if decide (y = x) then v else mark_of m y.
Proof. unfold mark_of. case_decide as H; [subst; by rewrite lookup_insert_eq|by rewrite lookup_insert_ne]. Qed.

Lemma elem_of_push m ps y b : (y, b) ∈ push_parents dag m ps ↔ b = false ∧ y ∈ ps ∧ y ∈ dom dag ∧ mark_of m y ≠ 2.
Proof.
  unfold push_parents. rewrite elem_of_rev, list_elem_of_fmap. split.
  - intros (p & [= -> ->] & [[?%bool_decide_eq_true ?%negb_true_iff%Z.eqb_neq]%andb_true_iff Hp]%elem_of_filter_bool). done.
  - intros (-> & Hy & Hd & Hm). exists y. split; [done|]. apply elem_of_filter_bool. split; [|done].
    apply andb_true_iff. split; [by apply bool_decide_eq_true|]. by apply negb_true_iff, Z.eqb_neq.
Qed.

Lemma top_not_open stack mark order x b :
  dfs_inv ((x, b) :: stack) mark order → (x, true) ∉ stack.
Proof.
  intros Hi (l & k & ->)%list_elem_of_split. destruct (di_above _ _ _ Hi ((x, b) :: l) x k eq_refl) as [Ha _].
  apply (Hacyclic x), Ha. set_solver.
Qed.

(** Finishing a block whose parents are all listed. *)
Lemma dfs_finish stack mark order x :
  dfs_inv ((x, true) :: stack) mark order → dfs_inv stack (<[x := 2]> mark) (order ++ [x]) ∧ mark_of mark x = 1.
Proof.
  intros Hi. assert (mark_of mark x = 1) as Hm by (apply (di_open _ _ _ Hi); set_solver). split; [|done].
  assert (x ∉ order) as Hx by (rewrite <- (di_done _ _ _ Hi), Hm; lia).
  pose proof (top_not_open _ _ _ _ _ Hi) as Hno.
  split.
  - apply NoDup_app. split_and!; [apply Hi| |apply NoDup_singleton]. by intros y Hy ->%list_elem_of_singleton.
  - intros y. rewrite mark_of_insert. case_decide as Hy; [subst; set_solver|]. rewrite (di_done _ _ _ Hi). set_solver.
  - intros y. rewrite mark_of_insert. case_decide as Hy; [subst; split; [lia|done]|]. rewrite (di_open _ _ _ Hi). set_solver.
  - intros y. rewrite mark_of_insert. case_decide; [auto|apply Hi].
  - intros l y k p Heq He. destruct k as [|z k _] using rev_ind.
    + apply app_inj_tail in Heq as [<- <-]. destruct (di_above _ _ _ Hi [] x stack eq_refl) as [_ Hp].
      destruct (Hp p He) as [|Hp']; [done|by apply not_elem_of_nil in Hp'].
    + rewrite app_comm_cons, app_assoc in Heq. apply app_inj_tail in Heq as [Heq _]. by apply (di_first _ _ _ Hi l y k p).
  - intros l y k ->. destruct (di_above _ _ _ Hi ((x, true) :: l) y k eq_refl) as [Ha Hp]. split.
    + intros z Hz. apply Ha. set_solver.
    + intros p He. destruct (Hp p He); set_solver.
  - intros y Hy. apply (di_dom _ _ _ Hi). set_solver.
Qed.

(** Dropping an entry that is done already. *)
Lemma dfs_skip stack mark order x :
  dfs_inv ((x, false) :: stack) mark order → mark_of mark x ≠ 0 → dfs_inv stack mark order ∧ x ∈ order.
Proof.
  intros Hi Hm. pose proof (top_not_open _ _ _ _ _ Hi) as Hno.
  assert (x ∈ order) as Hx.
  { apply (di_done _ _ _ Hi). destruct (di_marks _ _ _ Hi x) as [|[Hx|]]; [done| |done].
    apply (di_open _ _ _ Hi) in Hx. set_solver. }
  split; [|done]. split; try apply Hi.
  - intros y. rewrite (di_open _ _ _ Hi). set_solver.
  - intros l y k ->. destruct (di_above _ _ _ Hi ((x, false) :: l) y k eq_refl) as [Ha Hp]. split.
    + intros z Hz. apply Ha. set_solver.
    + intros p He. destruct (Hp p He); set_solver.
  - intros y Hy. apply (di_dom _ _ _ Hi). set_solver.
Qed.

(** Expanding a block seen for the first time. *)
Lemma dfs_expand stack mark order x :
  dfs_inv ((x, false) :: stack) mark order → mark_of mark x = 0 →
  dfs_inv (push_parents dag (<[x := 1]> mark) (parents_of dag x) ++ (x, true) :: stack) (<[x := 1]> mark) order.
Proof.
  intros Hi Hm. set (push := push_parents _ _ _).
  assert (x ∉ order) as Hx by (rewrite <- (di_done _ _ _ Hi), Hm; lia).
  assert (∀ y b, (y, b) ∈ push → b = false ∧ edge dag x y) as Hpush by (intros y b (-> & ? & _)%elem_of_push; done).
  assert (∀ y, y ∈ push.*1 → edge dag x y) as Hedge.
  { intros y ([z b] & -> & Hz)%list_elem_of_fmap. by apply (Hpush z b). }
  split; try apply Hi.
  - intros y. rewrite mark_of_insert. case_decide as Hy; [subst; split; [lia|done]|]. apply Hi.
  - intros y. rewrite mark_of_insert. case_decide as Hy; [subst; set_solver|]. rewrite (di_open _ _ _ Hi), elem_of_app, !elem_of_cons.
    split; [intros [|]; [naive_solver|auto]|]. intros [[? _]%Hpush|[|]]; naive_solver.
  - intros y. rewrite mark_of_insert. case_decide; [auto|apply Hi].
  - intros l y k Heq. apply split_below in Heq as [(-> & Hxy & ->)|(l' & -> & ->)]; [| |intros [? _]%Hpush; done].
    + injection Hxy as <-. split; [intros z Hz; by apply tc_once, Hedge|]. intros p He.
      destruct (decide (mark_of (<[x:=1]> mark) p = 2)) as [H2|H2].
      * left. rewrite mark_of_insert in H2. case_decide; [lia|]. by apply (di_done _ _ _ Hi).
      * right. apply list_elem_of_fmap. exists (p, false). split; [done|]. apply elem_of_push. split_and!; [done..|by eapply Hclosed|done].
    + destruct (di_above _ _ _ Hi ((x, false) :: l') y k eq_refl) as [Ha Hp]. split.
      * intros z. rewrite fmap_app, elem_of_app. intros [Hz%Hedge|Hz].
        -- eapply tc_r; [apply Ha; by left|done].
        -- apply Ha. set_solver.
      * intros p He. destruct (Hp p He) as [|Hq]; [by left|right]. rewrite fmap_app, elem_of_app. right. set_solver.
  - intros y. rewrite fmap_app, elem_of_app. intros [Hy|[Hy%Hedge|Hy]]; [apply (di_dom _ _ _ Hi); auto|by eapply Hclosed|].
    apply (di_dom _ _ _ Hi). set_solver.
Qed.
(** The entries still to come: two for each block not seen, and its parents. *)
Definition dfs_weight (b : Block) : Z := 2 + len (blk_parents b).
Definition unseen (mark : gmap Hash Z) : Z := total dfs_weight (filter (λ kv, mark_of mark kv.1 = 0) dag).

Lemma weight_nonneg b : 0 <= dfs_weight b.
Proof. unfold dfs_weight, len. lia. Qed.

Lemma unseen_nonneg mark : 0 <= unseen mark.
Proof. apply total_nonneg. intros ? b _. apply weight_nonneg. Qed.

Lemma unseen_expand mark x b :
  dag !! x = Some b → mark_of mark x = 0 → unseen (<[x := 1]> mark) = unseen mark - dfs_weight b.
Proof.
  intros Hb Hm. unfold unseen.
  assert (filter (λ kv : Hash * Block, mark_of (<[x:=1]> mark) kv.1 = 0) dag =
          delete x (filter (λ kv : Hash * Block, mark_of mark kv.1 = 0) dag)) as ->.
  { apply map_eq. intros y. apply option_eq. intros c.
    rewrite lookup_delete_Some, !map_lookup_filter_Some. simpl. rewrite mark_of_insert. case_decide; naive_solver lia. }
  rewrite total_delete, (contrib_Some _ _ x b); [lia|]. by apply map_lookup_filter_Some.
Qed.

Lemma unseen_finish mark x : mark_of mark x ≠ 0 → unseen (<[x := 2]> mark) = unseen mark.
Proof.
  intros Hm. unfold unseen. f_equal. apply map_filter_ext. intros y c _. simpl. rewrite mark_of_insert.
  case_decide; [subst; lia|done].
Qed.

Lemma length_push m ps : (length (push_parents dag m ps) <= length ps)%nat.
Proof. unfold push_parents. rewrite length_rev, length_fmap. apply List.filter_length_le. Qed.

(** Enough fuel empties the stack. *)
Lemma dfs_loop_spec fuel stack mark order :
  dfs_inv stack mark order → len stack + unseen mark <= Z.of_nat fuel →
  ∃ mark' order', dfs_loop fuel dag stack mark order = (mark', order') ∧ dfs_inv [] mark' order' ∧
    ∀ x, x ∈ order ∨ x ∈ stack.*1 → x ∈ order'.
Proof.
  revert stack mark order. induction fuel as [|fuel IH]; intros stack mark order Hi Hfuel.
  { pose proof (unseen_nonneg mark). destruct stack; [|unfold len in *; simpl in *; lia].
    exists mark, order. split_and!; [done..|]. intros x [?|?%not_elem_of_nil]; done. }
  destruct stack as [|[x []] stack]; cbn [dfs_loop].
  - exists mark, order. split_and!; [done..|]. intros x [?|?%not_elem_of_nil]; done.
  - destruct (dfs_finish _ _ _ _ Hi) as [Hi' Hm]. rewrite Hm. change (1 =? 2) with false. cbn match.
    destruct (IH _ _ _ Hi') as (mark' & order' & -> & Hi'' & Hin).
    { rewrite unseen_finish by lia. unfold len in *. simpl in *. lia. }
    exists mark', order'. split_and!; [done..|]. intros y Hy. apply Hin. set_solver.
  - destruct (Z.eqb_spec (mark_of mark x) 0) as [Hm|Hm]; cbn [negb].
    + assert (x ∈ dom dag) as [b Hb]%elem_of_dom by (apply (di_dom _ _ _ Hi); set_solver).
      destruct (IH _ _ _ (dfs_expand _ _ _ _ Hi Hm)) as (mark' & order' & -> & Hi'' & Hin).
      { rewrite (unseen_expand _ _ b Hb Hm). pose proof (length_push (<[x:=1]> mark) (parents_of dag x)) as Hl.
        unfold parents_of in Hl. rewrite Hb in Hl. simpl in Hl. unfold dfs_weight, len in *. rewrite length_app. simpl in *.
        unfold parents_of. rewrite Hb. simpl. lia. }
      exists mark', order'. split_and!; [done..|]. intros y Hy. apply Hin. rewrite fmap_app. set_solver.
    + destruct (dfs_skip _ _ _ _ Hi Hm) as [Hi' Hx]. destruct (IH _ _ _ Hi') as (mark' & order' & -> & Hi'' & Hin).
      { unfold len in *. simpl in *. lia. }
      exists mark', order'. split_and!; [done..|]. intros y Hy. apply Hin. set_solver.
Qed.

Lemma dfs_fuel_enough mark : 1 + unseen mark <= Z.of_nat (dfs_fuel dag).
Proof.
  unfold dfs_fuel, unseen. fold dfs_weight.
  pose proof (total_filter_le dfs_weight dag (λ kv, mark_of mark kv.1 = 0) weight_nonneg). change (λ b, 2 + len (blk_parents b)) with dfs_weight. lia.
Qed.

(** One start of the outer loop; all of them. *)
Lemma dfs_start_spec st x :
  x ∈ dom dag → dfs_inv [] st.1 st.2 →
  let st' := dfs_start dag st x in dfs_inv [] st'.1 st'.2 ∧ ∀ y, y ∈ st.2 ∨ y = x → y ∈ st'.2.
Proof.
  intros Hx Hi. unfold dfs_start. destruct st as [mark order]. cbn [fst snd] in *.
  destruct (Z.eqb_spec (mark_of mark x) 2) as [Hm|Hm].
  { split; [done|]. intros y [?| ->]; [done|]. by apply (di_done _ _ _ Hi). }
  assert (mark_of mark x = 0) as Hm0.
  { destruct (di_marks _ _ _ Hi x) as [|[H1|]]; [done| |done]. apply (di_open _ _ _ Hi) in H1. by apply not_elem_of_nil in H1. }
  assert (dfs_inv [(x, false)] mark order) as Hi1.
  { split; try apply Hi.
    - intros y. rewrite (di_open _ _ _ Hi). set_solver.
    - intros l y k Heq. by destruct l as [|? [|??]].
    - intros y [Hy|Hy]; [apply (di_dom _ _ _ Hi); by left|]. simpl in Hy. set_solver. }
  destruct (dfs_loop_spec (dfs_fuel dag) _ _ _ Hi1) as (mark' & order' & -> & Hi2 & Hin).
  { unfold len. simpl. apply dfs_fuel_enough. }
  split; [done|]. cbn [snd]. intros y Hy. apply Hin. simpl. set_solver.
Qed.

Lemma dfs_all keys st :
  (∀ x, x ∈ keys → x ∈ dom dag) → dfs_inv [] st.1 st.2 →
  let st' := foldl (dfs_start dag) st keys in dfs_inv [] st'.1 st'.2 ∧ ∀ y, y ∈ st.2 ∨ y ∈ keys → y ∈ st'.2.
Proof.
  revert st. induction keys as [|x keys IH]; intros st Hd Hi; cbn [foldl]; [split; [done|]; set_solver|].
  destruct (dfs_start_spec st x) as [Hi1 Hin1]; [apply Hd; by left|done|].
  destruct (IH (dfs_start dag st x)) as [Hi2 Hin2]; [set_solver|done|]. split; [done|]. set_solver.
Qed.

Lemma dfs_inv_empty : dfs_inv [] ∅ [].
Proof.
  split; unfold mark_of; try set_solver; try (intros; rewrite lookup_empty; simpl; set_solver).
  - constructor.
  - intros l x k p Heq. by destruct l.
  - intros l x k Heq. by destruct l.
Qed.

Lemma dfs_order keys :
  (∀ x, x ∈ keys ↔ x ∈ dom dag) →
  let order := (foldl (dfs_start dag) (∅, []) keys).2 in
  NoDup order ∧ (∀ x, x ∈ order ↔ x ∈ dom dag) ∧ parents_first dag order.
Proof.
  intros Hk. destruct (dfs_all keys (∅, [])) as [Hi Hin]; [intros x; apply Hk|apply dfs_inv_empty|].
  split_and!; [apply Hi| |apply Hi]. intros x. split; [intros Hx; apply (di_dom _ _ _ Hi); by left|].
  intros Hx. apply Hin. right. by apply Hk.
Qed.
End dfs.

(** ** The rebuilt index *)

Lemma rbuilt_size dag gd r : rbuilt dag gd r → (Z.of_nat (size dag) - 1) * SCALE < SPACE_END.
Proof.
  destruct 1 as [h b _|dag gd r h b cap d _ Hh _ _ Hsz _].
  - rewrite map_size_singleton. unfold SPACE_END. lia.
  - rewrite map_size_insert_None by by apply not_elem_of_dom. lia.
Qed.

Lemma rbuilt_root dag gd r x y b c :
  rbuilt dag gd r → dag !! x = Some b → dag !! y = Some c → blk_parents b = [] → blk_parents c = [] → x = y.
Proof.
  intros Hr. revert x y b c. induction Hr as [h b0 _|dag gd r h b0 cap d _ IH Hh Hne _ _ _]; intros x y b c.
  - intros [<- _]%lookup_singleton_Some [<- _]%lookup_singleton_Some. done.
  - intros [[<- <-]|[_ Hx]]%lookup_insert_Some [[<- <-]|[_ Hy]]%lookup_insert_Some Hb Hc; try done. by apply (IH x y b c).
Qed.

(** The blocks of a list. *)
Definition among {A} (l : list Hash) (m : gmap Hash A) : gmap Hash A := filter (λ kv, kv.1 ∈ l) m.
Lemma lookup_among {A} l (m : gmap Hash A) x : x ∈ l → among l m !! x = m !! x.
Proof.
  intros Hx. apply option_eq. intros a. unfold among. rewrite map_lookup_filter_Some. naive_solver.
Qed.
Lemma among_snoc {A} l (m : gmap Hash A) x a : m !! x = Some a → among (l ++ [x]) m = <[x := a]> (among l m).
Proof.
  intros Hx. apply map_eq. intros y. apply option_eq. intros c.
  unfold among. rewrite lookup_insert_Some, !map_lookup_filter_Some. cbn [fst].
  rewrite elem_of_app, list_elem_of_singleton. destruct (decide (x = y)) as [->|]; [rewrite Hx|]; naive_solver.
Qed.
Lemma dom_among {A} l (m : gmap Hash A) x : x ∈ dom (among l m) ↔ x ∈ l ∧ x ∈ dom m.
Proof. rewrite !elem_of_dom. unfold among, is_Some. setoid_rewrite map_lookup_filter_Some. naive_solver. Qed.
Lemma among_all {A} l (m : gmap Hash A) : (∀ x, x ∈ l ↔ x ∈ dom m) → among l m = m.
Proof.
  intros Hl. apply map_eq. intros x. destruct (decide (x ∈ l)) as [Hx|Hx]; [by apply lookup_among|].
  rewrite (proj1 (not_elem_of_dom m x)) by by rewrite <- Hl. apply map_lookup_filter_None_2. by right.
Qed.

Section rebuild.
Context (dag : Dag) (gd : GdMap) (r : Reachability) (order : list Hash).
Context (Hb : rbuilt dag gd r) (Hnd : NoDup order) (Hin : ∀ x, x ∈ order ↔ x ∈ dom dag) (Hpf : parents_first dag order).

Lemma rebuild_prefix l k :
  order = l ++ k → l ≠ [] → rbuilt (among l dag) (among l gd) (rebuild_reach gd l).
Proof.
  revert k. induction l as [|h l IH] using rev_ind; intros k Heq Hne; [done|]. clear Hne.
  rewrite <- app_assoc in Heq. cbn [app] in Heq.
  destruct (rbuilt_ok _ _ _ Hb) as (Hi & Hr & _).
  assert (h ∈ dom dag) as [b Hhb]%elem_of_dom by (apply Hin; rewrite Heq; set_solver).
  destruct (rbuilt_recomputed _ _ _ h b Hb Hhb) as (d & Hd & Hcase).
  assert (∀ p, p ∈ blk_parents b → p ∈ l) as Hps.
  { intros p Hp. apply (Hpf l h k p Heq). unfold edge, parents_of. by rewrite Hhb. }
  rewrite (among_snoc _ dag h b Hhb), (among_snoc _ gd h d Hd).
  unfold rebuild_reach. rewrite foldl_app. cbn [foldl]. fold (rebuild_reach gd l). rewrite Hd.
  assert (h ∉ l) as Hhl.
  { rewrite Heq in Hnd. apply NoDup_app in Hnd as (_ & Hdis & _). intros Hx. apply (Hdis h Hx). set_solver. }
  destruct l as [|g l'] eqn:Hl.
  { assert (blk_parents b = []) as Hnil by (destruct (blk_parents b) as [|p ps]; [done|]; specialize (Hps p ltac:(set_solver)); set_solver).
    rewrite bool_decide_eq_true_2 in Hcase by done. subst d. assert (∀ A (m : gmap Hash A), among [] m = ∅) as He.
    { intros A m. apply map_eq. intros x. rewrite lookup_empty. apply map_lookup_filter_None_2. right. set_solver. }
    rewrite !He, !insert_empty. by apply rbuilt_genesis. }
  rewrite <- Hl in *. assert (rbuilt (among l dag) (among l gd) (rebuild_reach gd l)) as Hbl by (apply (IH (h :: k)); [done|by rewrite Hl]).
  assert (blk_parents b ≠ []) as Hne.
  { intros Hnil. assert (g ∈ dom dag) as [c Hgc]%elem_of_dom by (apply Hin; rewrite Heq, Hl; set_solver).
    assert (blk_parents c = []) as Hc.
    { destruct (blk_parents c) as [|p ps] eqn:Hc; [done|]. exfalso.
      assert (p ∈ []) as ?%not_elem_of_nil; [|done]. apply (Hpf [] g (l' ++ h :: k) p); [by rewrite Heq, Hl|].
      unfold edge, parents_of. rewrite Hgc. simpl. rewrite Hc. set_solver. }
    pose proof (rbuilt_root _ _ _ h g b c Hb Hhb Hgc Hnil Hc). subst g. apply Hhl. rewrite Hl. set_solver. }
  rewrite bool_decide_eq_false_2 in Hcase by done. destruct Hcase as [cap Hcomp].
  destruct (rbuilt_ok _ _ _ Hbl) as (Hil & Hrl & _).
  eapply (rbuilt_add _ _ _ h b cap d); [done|..].
  - rewrite dom_among. naive_solver.
  - done.
  - intros p Hp. apply dom_among. split; [by apply Hps|]. apply Hin. rewrite Heq. set_solver.
  - pose proof (rbuilt_size _ _ _ Hb) as Hsz.
    assert (size (among l dag) < size dag)%nat; [|unfold SCALE in *; lia].
    rewrite <- !size_dom. apply subset_size. split; [intros x; rewrite dom_among; naive_solver|].
    intros Hsub. specialize (Hsub h ltac:(by eapply elem_of_dom_2)). apply dom_among in Hsub. naive_solver.
  - rewrite <- Hcomp. apply (compute_agree tt (rebuild_reach gd l) dag (among l dag) gd (among l gd) (λ x, x ∈ l)); try done.
    + intros x. apply lookup_among.
    + intros x. apply lookup_among.
    + intros x Hx. apply Hin. rewrite Heq. set_solver.
    + intros x p (l1 & l2 & Hx)%list_elem_of_split He. rewrite Hx, <- app_assoc in Heq. cbn [app] in Heq.
      pose proof (Hpf _ _ _ p Heq He) as Hp. rewrite Hx. set_solver.
Qed.

Lemma rebuild_reach_ok : rbuilt dag gd (rebuild_reach gd order).
Proof.
  destruct (rbuilt_ok _ _ _ Hb) as (Hi & _ & _).
  pose proof (rebuild_prefix order [] ltac:(by rewrite app_nil_r)) as Hr.
  rewrite (among_all order dag Hin), (among_all order gd) in Hr by (intros x; by rewrite (inv_dom _ _ Hi)).
  apply Hr. intros Hnil. destruct Hb as [h b _|? ? ? h b ? ? _ _ _ _ _ _];
    [assert (h ∈ order) as Hh by (apply Hin; set_solver)|assert (h ∈ order) as Hh by (apply Hin; rewrite dom_insert; set_solver)];
    rewrite Hnil in Hh; by apply not_elem_of_nil in Hh.
Qed.
End rebuild.

(** ** Loading what was saved *)
Section reload.
Context `{!Crypto, !DualCrypto, !BodyCodec, !NodeEnv, !StateCodec}.

(** Iterating over a map visits exactly its keys. *)
Definition keys_exact (dag : Dag) : Prop := ∀ h, h ∈ dag_keys dag ↔ h ∈ dom dag.

Lemma rbuilt_order dag gd r :
  rbuilt dag gd r → keys_exact dag →
  NoDup (dag_topological_order dag) ∧ (∀ x, x ∈ dag_topological_order dag ↔ x ∈ dom dag) ∧
  parents_first dag (dag_topological_order dag).
Proof.
  intros (Hi & _ & _)%rbuilt_ok Hk. apply dfs_order; [intros x; by apply (ancestor_irrefl _ gd)| |exact Hk].
  intros x p He. by apply (inv_closed _ _ Hi x p).
Qed.

Lemma rebuild_derived_ok L0 s s0 :
  chain_ok L0 s → keys_exact (cs_dag s) → cs_base_captured s = true →
  cs_dag s0 = cs_dag s → cs_ghostdag s0 = cs_ghostdag s → cs_tips s0 = cs_tips s → cs_main_chain s0 = cs_main_chain s →
  cs_base s0 = cs_base s → cs_base_frontier s0 = cs_base_frontier s → cs_chain_id s0 = cs_chain_id s →
  let s' := rebuild_derived s0 in
  chain_ok L0 s' ∧ cs_dag s' = cs_dag s ∧ cs_ghostdag s' = cs_ghostdag s ∧ cs_tips s' = cs_tips s ∧
  cs_main_chain s' = cs_main_chain s ∧ cs_base s' = cs_base s ∧ cs_base_frontier s' = cs_base_frontier s ∧
  cs_ledger s' = cs_ledger s ∧ finality_point s' = finality_point s.
Proof.
  intros Hok Hk Hcap Hd Hg Ht Hm Hb Hf Hid s'. destruct (ok_main _ _ Hok) as (tip & Htip & Hmain).
  pose proof (ok_graph _ _ Hok) as Hrb. destruct (rbuilt_ok _ _ _ Hrb) as (Hi & _ & _).
  destruct (rbuilt_order _ _ _ Hrb Hk) as (Hnd & Hin & Hpf).
  pose proof (rebuild_reach_ok _ _ _ _ Hrb Hnd Hin Hpf) as Hreach.
  pose proof (ok_base _ _ Hok) as Hbase. rewrite Hcap in Hbase.
  subst s'. unfold rebuild_derived. rewrite Hd, Hg.
  set (s1 := set_base _ _ _ _).
  assert (cs_dag s1 = cs_dag s ∧ cs_ghostdag s1 = cs_ghostdag s ∧ cs_tips s1 = cs_tips s ∧ cs_main_chain s1 = cs_main_chain s ∧
    cs_base s1 = cs_base s ∧ cs_base_frontier s1 = cs_base_frontier s ∧ cs_chain_id s1 = cs_chain_id s ∧
    cs_base_captured s1 = true ∧ cs_reachability s1 = rebuild_reach (cs_ghostdag s) (dag_topological_order (cs_dag s)))
    as (Hd1 & Hg1 & Ht1 & Hm1 & Hb1 & Hf1 & Hid1 & Hc1 & Hr1) by done.
  clearbody s1. assert (finality_point s1 = finality_point s) as Hfp by (unfold finality_point; by rewrite Hg1, Ht1).
  rewrite (recompute_ok L0 s1 tip).
  2: by rewrite Hd1, Hg1. 2: { rewrite Hd1. apply Hok. } 2: by rewrite Hg1, Ht1. 2: by rewrite Hf1, Hfp; apply Hok.
  2: { rewrite Hd1, Hg1, Hb1, Hid1, Hfp, <- (ok_frontier _ _ Hok). exact Hbase. }
  rewrite Hd1, Hg1, Ht1, Hid1, <- (ok_ledger _ _ Hok).
  assert (finality_point (restore_ledger s1 (cs_ledger s)) = finality_point s) as Hfp' by exact Hfp.
  split_and!; try done. split; cbn [restore_ledger cs_dag cs_ghostdag cs_reachability cs_tips cs_main_chain cs_base_frontier
    cs_base_captured cs_base cs_chain_id cs_ledger].
  - by rewrite Hd1, Hg1, Hr1.
  - rewrite Hd1. apply Hok.
  - intros t. rewrite Ht1, Hd1. apply Hok.
  - exists tip. rewrite Hg1, Ht1, Hm1. done.
  - by rewrite Hfp', Hf1, (ok_frontier _ _ Hok).
  - rewrite Hc1, Hb1, Hid1, Hd1, Hg1, Hf1. exact Hbase.
  - rewrite Hid1, Hd1, Hg1, Ht1. apply Hok.
Qed.

(** *** The frame *)

Lemma length_state_header : length state_header = 12%nat.
Proof. reflexivity. Qed.

Lemma load_framed payload :
  (∀ i n, length (blake3_xof i n) = n) →
  load_bytes (frame payload) =
    (fail_if MAX_CHAINSTATE_BYTES <? len payload as "chainstate payload exceeds MAX_CHAINSTATE_BYTES";
     s ← map_err (String.append "deserialize state: ") (decode_state payload);
     _ ← validate_hardcoded_chain s;
     fail_if negb (supply_invariant_ok (cs_ledger s)) as "corrupt chainstate: supply invariant failed";
     Ok (rebuild_derived s)).
Proof.
  intros Hxof. unfold load_bytes.
  assert (length (state_tag (state_header ++ payload)) = STATE_CHECKSUM_LEN) as Htag by apply Hxof.
  assert (frame payload = state_header ++ payload ++ state_tag (state_header ++ payload)) as Hf by (unfold frame; by rewrite <- app_assoc).
  assert (length (frame payload) = (12 + length payload + STATE_CHECKSUM_LEN)%nat) as Hlen.
  { rewrite Hf, !length_app, Htag, length_state_header. lia. }
  rewrite (proj2 (Z.ltb_ge (len (frame payload)) 12)) by (unfold len; rewrite Hlen; unfold STATE_CHECKSUM_LEN; lia).
  assert (take 8 (frame payload) = STATE_MAGIC) as Hmagic by by rewrite Hf.
  assert (le_int (take 4 (drop 8 (frame payload))) = STATE_FORMAT_VERSION) as Hver by by rewrite Hf.
  rewrite bool_decide_eq_true_2 by exact Hmagic. cbn [orb negb]. rewrite Hver, Z.eqb_refl. cbn [negb].
  rewrite (proj2 (Z.ltb_ge _ _)) by (unfold len; rewrite Hlen; lia).
  replace (length (frame payload) - STATE_CHECKSUM_LEN)%nat with (length (state_header ++ payload))
    by (rewrite Hlen, length_app, length_state_header; lia).
  assert (take (length (state_header ++ payload)) (frame payload) = state_header ++ payload) as -> by apply take_app_length.
  assert (drop (length (state_header ++ payload)) (frame payload) = state_tag (state_header ++ payload)) as -> by apply drop_app_length.
  rewrite bool_decide_eq_true_2 by done. cbn [negb].
  replace (drop 12 (state_header ++ payload)) with payload; [done|]. symmetry. apply drop_app_length'. apply length_state_header.
Qed.

(** *** What validation asks of a reachable state *)

Lemma reachable_genesis L0 s : reachable L0 s → cs_dag s !! genesis_hash = Some genesis_block.
Proof.
  induction 1 as [|s now b s' Hr IH Hsz Hadd]; [by apply lookup_singleton_eq|].
  destruct (reachable_ok _ _ Hr) as (Hok & Har & _).
  destruct (add_block_ok L0 s now b s' Hok Har Hsz Hadd) as (d & Hc & _ & _ & -> & _).
  destruct (check_block_ok _ _ _ _ Hc) as (Hn & _). unfold insert_block. cbn [cs_dag set_graph].
  rewrite lookup_insert_ne; [done|]. intros Heq. apply Hn. rewrite Heq. by eapply elem_of_dom_2.
Qed.

Lemma replay_minted cid dag gd l hs :
  dag_inv dag gd → 0 <= minted_supply l <= MAX_SUPPLY → 0 <= minted_supply (replay cid dag gd l hs) <= MAX_SUPPLY.
Proof.
  intros Hi Hl. unfold replay. apply (foldl_inv (λ l, 0 <= minted_supply l <= MAX_SUPPLY)); [done|].
  intros l' h _ Hl'. destruct (dag !! h) as [b|]; [|done].
  assert (0 <= default 0 (gd_blue_score <$> gd !! h)) as Hb.
  { pose proof (score_nonneg dag gd h Hi) as Hs. unfold score_of in Hs. by destruct (gd !! h). }
  pose proof (effects_minted hex_err l' cid b _ 0 Hb Hl') as [? _]. lia.
Qed.

Lemma reachable_validates L0 s :
  reachable L0 s → 0 <= minted_supply L0 <= MAX_SUPPLY → validate_hardcoded_chain (persisted s) = Ok ().
Proof.
  intros Hr HL. destruct (reachable_ok _ _ Hr) as (Hok & _ & Hid). pose proof (reachable_genesis _ _ Hr) as Hg.
  destruct (rbuilt_ok _ _ _ (ok_graph _ _ Hok)) as (Hi & _ & _). destruct (ok_main _ _ Hok) as (tip & Ht & Hm).
  destruct (select_parent_Some _ _ _ Ht) as (_ & Htd & _).
  unfold validate_hardcoded_chain. cbn [persisted cs_chain_id cs_dag cs_main_chain cs_ledger]. rewrite Hid, Z.eqb_refl. cbn [negb].
  rewrite Hg. change (blk_height genesis_block =? 0) with true. change (blk_parents genesis_block) with (@nil Hash).
  change (blk_difficulty genesis_block) with GENESIS_DIFFICULTY. fold genesis_hash.
  rewrite bool_decide_eq_true_2, !Z.eqb_refl by done. cbn [negb orb mbind result_bind].
  rewrite Hm. assert (∀ x, x ∈ selected_chain (cs_ghostdag s) tip → x ∈ dom (cs_dag s)) as Hsub.
  { intros x Hx. rewrite <- (inv_dom _ _ Hi). by apply (chain_dom _ _ Hi tip). }
  destruct (existsb _ _) eqn:Hex.
  { apply existsb_exists in Hex as (x & Hx%list_elem_of_In & Hn). rewrite bool_decide_eq_true_2 in Hn by by apply Hsub. done. }
  assert (NoDup (selected_chain (cs_ghostdag s) tip)) as Hnd by by apply (chain_NoDup _ _ Hi).
  rewrite (proj2 (Z.ltb_ge _ _)).
  2: { unfold len. rewrite <- size_dom, <- (size_list_to_set (C := gset Hash) _ Hnd). apply Nat2Z.inj_le, subseteq_size.
       intros x. rewrite elem_of_list_to_set. apply Hsub. }
  rewrite (proj2 (Z.ltb_ge _ _)); [done|]. rewrite (ok_ledger _ _ Hok). by apply replay_minted.
Qed.

(** A framed payload that decodes to a written state. *)
Lemma load_saved L0 s payload :
  (∀ i n, length (blake3_xof i n) = n) → decode_state payload = Ok (persisted s) → len payload <= MAX_CHAINSTATE_BYTES →
  reachable L0 s → 0 <= minted_supply L0 <= MAX_SUPPLY → supply_invariant_ok (cs_ledger s) = true →
  load_bytes (frame payload) = Ok (rebuild_derived (persisted s)).
Proof.
  intros Hxof Hdec Hlen Hr HL Hsup. rewrite (load_framed payload Hxof), (proj2 (Z.ltb_ge _ _) Hlen), Hdec.
  cbn [map_err mbind result_bind]. rewrite (reachable_validates L0 s Hr HL). cbn [mbind result_bind persisted cs_ledger].
  by rewrite Hsup.
Qed.

(** Loading what was written. *)
Lemma reload_exact L0 s data :
  (∀ i n, length (blake3_xof i n) = n) →
  (∀ payload, encode_state s = Ok payload → decode_state payload = Ok (persisted s)) →
  reachable L0 s → keys_exact (cs_dag s) → cs_base_captured s = true → 0 <= minted_supply L0 <= MAX_SUPPLY →
  supply_invariant_ok (cs_ledger s) = true → (save_bytes s).1 = Ok data →
  ∃ s', load_bytes data = Ok s' ∧ chain_ok L0 s' ∧ cs_dag s' = cs_dag s ∧ cs_ghostdag s' = cs_ghostdag s ∧
    cs_tips s' = cs_tips s ∧ cs_main_chain s' = cs_main_chain s ∧ cs_base s' = cs_base s ∧
    cs_base_frontier s' = cs_base_frontier s ∧ cs_ledger s' = cs_ledger s ∧ finality_point s' = finality_point s.
Proof.
  intros Hxof Hcodec Hr Hk Hcap HL Hsup Hsave. destruct (reachable_ok _ _ Hr) as (Hok & Har & _).
  unfold save_bytes in Hsave. rewrite Har in Hsave. cbn [fst] in Hsave.
  destruct (encode_state s) as [payload|] eqn:He; [|done]. cbn [map_err mbind result_bind] in Hsave.
  destruct (Z.ltb_spec MAX_CHAINSTATE_BYTES (len payload)) as [|Hlen]; [done|]. injection Hsave as <-.
  eexists. split; [by apply (load_saved L0); [..|apply Hcodec| | | |]|]. by apply (rebuild_derived_ok L0 s (persisted s)).
Qed.

(** What a node saves it loads: the file written for a state reached by admitting
    blocks loads, provided the ledger passes the supply test, into a state with the
    same blocks, GHOSTDAG data, tips, main chain, finality point, finalised base and
    ledger, whose rebuilt reachability index answers for the graph; the invariant of
    block admission holds of it again, so admission continues as if there had been no
    restart. *)
Theorem reload_restores L0 s data :
  (∀ i n, length (blake3_xof i n) = n) →
  (∀ payload, encode_state s = Ok payload → decode_state payload = Ok (persisted s)) →
  reachable L0 s → keys_exact (cs_dag s) → cs_base_captured s = true → 0 <= minted_supply L0 <= MAX_SUPPLY →
  supply_invariant_ok (cs_ledger s) = true → (save_bytes s).1 = Ok data →
  ∃ s', load_bytes data = Ok s' ∧ chain_ok L0 s' ∧ cs_dag s' = cs_dag s ∧ cs_ghostdag s' = cs_ghostdag s ∧
    cs_tips s' = cs_tips s ∧ cs_main_chain s' = cs_main_chain s ∧ cs_base s' = cs_base s ∧
    cs_base_frontier s' = cs_base_frontier s ∧ cs_ledger s' = cs_ledger s ∧ finality_point s' = finality_point s.
Proof. apply reload_exact. Qed.

(** ** The order used for rebuilding *)

(** The depth-first traversal ends with every block listed exactly once and after
    all of its parents, whatever the order in which the map yields its keys; the fuel
    of the model is never exhausted. *)
Theorem topological_order_exact dag gd r :
  rbuilt dag gd r → keys_exact dag →
  NoDup (dag_topological_order dag) ∧ (∀ h, h ∈ dag_topological_order dag ↔ h ∈ dom dag) ∧
  parents_first dag (dag_topological_order dag).
Proof. apply rbuilt_order. Qed.

(** ** Crashes during a save *)

Lemma missing_not_identity : is_identity_error ("read state: " +:+ io_err) = false.
Proof. reflexivity. Qed.

Lemma load_from_primary fs s : load_one fs Primary = Ok s → load_from fs = Ok s.
Proof. intros Hp. unfold load_from. by rewrite Hp. Qed.

(** Falling back when the first file is missing. *)
Lemma load_from_missing fs :
  fs Primary = None →
  load_from fs = match load_one fs Bak with
                 | Ok s => Ok s
                 | Err _ => match load_one fs Bak1 with Ok s => Ok s | Err _ => Err ("read state: " +:+ io_err) end
                 end.
Proof. intros Hn. unfold load_from, load_one at 1. rewrite Hn, missing_not_identity. done. Qed.

(** Loading looks at three files. *)
Lemma load_from_ext fs fs' :
  fs' Primary = fs Primary → fs' Bak = fs Bak → fs' Bak1 = fs Bak1 → load_from fs' = load_from fs.
Proof. intros HP HB HB1. unfold load_from, load_one. by rewrite HP, HB, HB1. Qed.

Lemma load_one_ext fs fs' f g : fs' f = fs g → load_one fs' f = load_one fs g.
Proof. unfold load_one. by intros ->. Qed.

Lemma load_one_Some fs f s : load_one fs f = Ok s → is_Some (fs f).
Proof. unfold load_one. by destruct (fs f). Qed.

(** The second backup is reached when the first is missing or damaged. *)
Lemma load_from_second fs e s :
  load_one fs Primary = Err e → is_identity_error e = false → is_err (load_one fs Bak) = true → load_one fs Bak1 = Ok s →
  load_from fs = Ok s.
Proof. intros HP He HB HB1. unfold load_from. rewrite HP, He, HB1. by destruct (load_one fs Bak). Qed.

Lemma roll_bak_files ok fs :
  let rolled := exists_file Primary fs && exists_file Bak fs && ok in
  roll_bak ok fs Primary = fs Primary ∧ roll_bak ok fs Tmp = fs Tmp ∧
  roll_bak ok fs Bak = (if rolled then None else fs Bak) ∧ roll_bak ok fs Bak1 = (if rolled then fs Bak else fs Bak1).
Proof.
  cbv zeta. unfold roll_bak. destruct (exists_file Primary fs && exists_file Bak fs && ok) eqn:Hr; [|done].
  apply andb_prop in Hr as [[_ [c Hc]%bool_decide_eq_true]%andb_prop _]. unfold rename, set_file. by rewrite Hc.
Qed.

Lemma roll_primary_files ok fs :
  let rolled := exists_file Primary fs && ok in
  roll_primary ok fs Primary = (if rolled then None else fs Primary) ∧ roll_primary ok fs Tmp = fs Tmp ∧
  roll_primary ok fs Bak = (if rolled then fs Primary else fs Bak) ∧ roll_primary ok fs Bak1 = fs Bak1.
Proof.
  cbv zeta. unfold roll_primary. destruct (exists_file Primary fs && ok) eqn:Hr; [|done].
  apply andb_prop in Hr as [[c Hc]%bool_decide_eq_true _]. unfold rename, set_file. by rewrite Hc.
Qed.

(** The directory after the first roll, and after both. *)
Lemma after_rolls fs ok1 ok2 old :
  load_one fs Primary = Ok old ∨ (load_from fs = Ok old ∧ load_one fs Bak = Ok old ∧ ok1 = true) →
  load_from (roll_bak ok1 fs) = Ok old ∧ load_from (roll_primary ok2 (roll_bak ok1 fs)) = Ok old.
Proof.
  intros Hold. destruct (roll_bak_files ok1 fs) as (HP & _ & HB & HB1). set (fs1 := roll_bak ok1 fs) in *.
  destruct (roll_primary_files ok2 fs1) as (HP2 & _ & HB2 & HB12). set (fs2 := roll_primary ok2 fs1) in *.
  assert (load_one fs Primary = Ok old ∨ ∃ e, load_one fs Primary = Err e ∧ is_identity_error e = false ∧
    load_from fs = Ok old ∧ load_one fs Bak = Ok old ∧ ok1 = true) as [Hp|(e & Hp & He & Hl & Hb & ->)].
  { destruct Hold as [|(Hl & Hb & Hk)]; [by left|]. destruct (load_one fs Primary) as [s|e] eqn:Hp.
    - left. unfold load_from in Hl. by rewrite Hp in Hl.
    - right. exists e. unfold load_from in Hl. rewrite Hp in Hl. destruct (is_identity_error e) eqn:He; [done|].
      rewrite Hb in Hl. by unfold load_from; rewrite Hp, He, Hb. }
  - assert (load_one fs1 Primary = Ok old) as Hp1 by (rewrite <- Hp; by apply load_one_ext). split; [by apply load_from_primary|].
    destruct (exists_file Primary fs1 && ok2) eqn:Hr.
    + rewrite load_from_missing by exact HP2. by rewrite (load_one_ext fs1 fs2 Bak Primary), Hp1.
    + apply load_from_primary. rewrite <- Hp1. by apply load_one_ext.
  - assert (exists_file Bak fs = true) as Hbe by (apply bool_decide_eq_true; by eapply load_one_Some).
    rewrite Hbe in HB, HB1. destruct (exists_file Primary fs) eqn:Hpe; cbn [andb] in HB, HB1.
    2: { assert (exists_file Primary fs1 = false) as Hpe1 by (unfold exists_file in *; by rewrite HP).
         rewrite Hpe1 in HP2, HB2. cbn [andb] in HP2, HB2. assert (load_from fs1 = Ok old) as Hl1 by (rewrite <- Hl; by apply load_from_ext).
         split; [done|]. rewrite <- Hl1. by apply load_from_ext. }
    assert (load_one fs1 Primary = Err e) as Hp1 by (rewrite <- Hp; by apply load_one_ext).
    assert (load_one fs1 Bak1 = Ok old) as Hb1 by (rewrite <- Hb; by apply load_one_ext).
    assert (load_from fs1 = Ok old) as Hl1.
    { apply (load_from_second fs1 e); [done|done| |done]. unfold load_one. by rewrite HB. }
    split; [done|]. destruct (exists_file Primary fs1 && ok2) eqn:Hr; [|rewrite <- Hl1; by apply load_from_ext].
    apply (load_from_second fs2 ("read state: " +:+ io_err)).
    + unfold load_one. by rewrite HP2.
    + apply missing_not_identity.
    + rewrite (load_one_ext fs1 fs2 Bak Primary) by done. by rewrite Hp1.
    + rewrite <- Hb1. by apply load_one_ext.
Qed.

(** C20. A save never loses the chain: if the state file or, with the state file
    missing or damaged, its first backup holds a loadable state, then at every point
    where a save can be cut short (in the middle of writing the new file, between any
    two renames, and also when the rename that makes a backup fails) [load_from] returns
    either that state or the new one; after the last rename it returns the new one.  The one rename that must not fail is that of the first backup when it holds
    the only good copy. *)
Theorem save_crash_safe fs partial ok1 ok2 data old new :
  load_one fs Primary = Ok old ∨ (load_from fs = Ok old ∧ load_one fs Bak = Ok old ∧ ok1 = true) →
  load_bytes data = Ok new →
  (∀ fs', fs' ∈ crash_points partial ok1 ok2 data fs → load_from fs' = Ok old ∨ load_from fs' = Ok new) ∧
  load_from (save_files ok1 ok2 data fs) = Ok new.
Proof.
  intros Hold Hnew.
  assert (load_from fs = Ok old) as H0' by (destruct Hold as [?|(? & _)]; [by apply load_from_primary|done]).
  assert (∀ c, load_from (write_tmp c fs) = Ok old) as Htmp by (intros c; rewrite <- H0'; by apply load_from_ext).
  destruct (after_rolls (write_tmp data fs) ok1 ok2 old) as [Hl1 Hl2].
  { destruct Hold as [Hp|(Hl & Hb & Hk)]; [left; rewrite <- Hp; by apply load_one_ext|right].
    split_and!; [apply Htmp|rewrite <- Hb; by apply load_one_ext|done]. }
  assert (load_from (save_files ok1 ok2 data fs) = Ok new) as Hend.
  { apply load_from_primary. unfold save_files, publish, rename.
    destruct (roll_primary_files ok2 (roll_bak ok1 (write_tmp data fs))) as (_ & -> & _).
    destruct (roll_bak_files ok1 (write_tmp data fs)) as (_ & -> & _). done. }
  split; [|done]. unfold crash_points. intros fs'. rewrite !elem_of_cons.
  intros [->|[->|[->|[->|[->|[->|[]%not_elem_of_nil]]]]]]; auto.
Qed.
End reload.

(** ** Two saves of the example node *)
Module PersistExample.
Import ChainExample.
#[export] Instance ex_codec : StateCodec :=
  {| encode_state s := Ok [if cs_base_captured s then 1 else 0];
     decode_state data := Ok (persisted (if bool_decide (data = [1]) then later else start)); io_err := "" |}.
Lemma xof_length i n : length (blake3_xof i n) = n.
Proof. apply length_be_bytes. Qed.
Lemma start_loads : load_bytes (frame [0]) = Ok (rebuild_derived (persisted start)).
Proof.
  apply (load_saved Ledger_default); [apply xof_length|reflexivity|done|apply start_reachable|done|vm_compute; reflexivity].
Qed.
Lemma later_loads : load_bytes (frame [1]) = Ok (rebuild_derived (persisted later)).
Proof.
  apply (load_saved Ledger_default); [apply xof_length| |done|apply later_reachable|done|].
  - cbn [decode_state ex_codec]. rewrite bool_decide_eq_true_2; reflexivity.
  - apply later_facts.
Qed.
Definition disk : Files := λ f, match f with Primary => Some (frame [0]) | _ => None end.
End PersistExample.

Section witnesses.
#[local] Existing Instances ChainExample.ex_crypto ChainExample.ex_dual ChainExample.ex_body ChainExample.ex_env PersistExample.ex_codec.

Lemma reload_restores_witness :
  ∃ s', load_bytes (frame [1]) = Ok s' ∧ cs_ledger s' = cs_ledger ChainExample.later.
Proof.
  destruct ChainExample.later_facts as (_ & Hcap & Hsup & _).
  destruct (reload_restores Ledger_default ChainExample.later (frame [1]) PersistExample.xof_length)
    as (s' & Hs' & _ & _ & _ & _ & _ & _ & _ & Hl & _).
  - intros payload [= <-]. rewrite Hcap. cbn [decode_state PersistExample.ex_codec].
    rewrite bool_decide_eq_true_2 by reflexivity. reflexivity.
  - exact ChainExample.later_reachable.
  - intros h. unfold dag_keys. simpl. rewrite elem_of_elements. reflexivity.
  - exact Hcap.
  - change (0 <= 0 <= MAX_SUPPLY). clear. unfold MAX_SUPPLY. split; [reflexivity|vm_compute; discriminate].
  - exact Hsup.
  - unfold save_bytes. destruct (reachable_ok _ _ ChainExample.later_reachable) as (_ & -> & _).
    cbn [fst encode_state PersistExample.ex_codec]. rewrite Hcap. reflexivity.
  - exists s'. split; [exact Hs'|exact Hl].
Defined.

Lemma save_crash_safe_witness :
  load_from (save_files true true (frame [1]) PersistExample.disk) = Ok (rebuild_derived (persisted ChainExample.later)).
Proof.
  exact (proj2 (save_crash_safe PersistExample.disk [] true true (frame [1]) _ _
    (or_introl PersistExample.start_loads) PersistExample.later_loads)).
Defined.

Lemma topological_order_exact_witness : NoDup (dag_topological_order ReachExample.rdiamond.1.1).
Proof.
  apply (topological_order_exact _ _ _ ReachExample.rdiamond_built).
  intros h. unfold dag_keys. simpl. rewrite elem_of_elements. reflexivity.
Defined.
End witnesses.
