(* ===== verification/Sync.v ===== *)
(** * Serving and adopting a pruning point

    Cold-start synchronisation in [src/src/lib.rs]: the header proofs an archival node
    builds from its selected chain, the import of verified headers into a fresh node,
    and the ledger of the pruning point, served, verified against the header and
    adopted. *)

From S2P Require Import Prelude Genesis Crypto Address Predicate Utxo UtxoTx Registry Custody Block Ledger.
From S2P Require Import Dag Ghostdag Reachability Reindex ReachBuild Determinism.
From S2P Require Import FeeHistory Stark VersionBits Superproof State Chain ChainInv.

Record PruningPointLedger := { pl_pruning_point : Hash; pl_ledger : Ledger }.

Section sync.
Context `{!Crypto, !DualCrypto, !BodyCodec, !NodeEnv}.

(** ** Header proofs *)

(** The loop both proofs share: headers up to the pruning point, [None] when one is
    missing; the flag says whether the point was reached. *)
Fixpoint headers_to (dag : Dag) (pp : Hash) (chain : list Hash) (headers : list Block) : option (list Block * bool) :=
  match chain with
  | [] => Some (headers, false)
  | h :: chain =>
      b ← dag !! h;
      let headers := headers ++ [header_only b] in
      if bool_decide (h = pp) then Some (headers, true) else headers_to dag pp chain headers
  end.
Definition proof_headers (s : ChainState) : option (list Block) :=
  pp ← cs_pruning_point s;
  tip ← selected_tip (cs_ghostdag s) (cs_tips s);
  '(headers, reached_pp) ← headers_to (cs_dag s) pp (selected_chain (cs_ghostdag s) tip) [];
  if negb reached_pp || negb (bool_decide (block_hash <$> head headers = Some genesis_hash)) then None else Some headers.
Definition build_pruning_proof (s : ChainState) : option (list Block) := proof_headers s.
Definition state_multilevel_proof (fuel : nat) (s : ChainState) (recent_window : Z) : option MultiLevelPruningProof :=
  headers ← proof_headers s; build_multilevel_pruning_proof fuel headers recent_window.

(** ** Importing headers *)

Definition hop_data (gd : GdMap) (prev : Hash) : GhostdagData :=
  {| gd_blue_score := sat_add 64 (score_of gd prev) 1; gd_selected_parent := Some prev;
     gd_mergeset_blues := [prev]; gd_mergeset_reds := [] |}.
(** The data of one imported header. *)
Definition import_data (s : ChainState) (prev : Hash) (header : Block) : GhostdagData :=
  match try_compute_ghostdag_data (cs_reachability s) (cs_dag s) (cs_ghostdag s) (blk_parents header) MAX_MERGESET_SIZE with
  | Ok gd => if bool_decide (is_Some (gd_selected_parent gd)) then gd else hop_data (cs_ghostdag s) prev
  | Err _ => hop_data (cs_ghostdag s) prev
  end.
Definition import_header (st : ChainState * Hash) (hdr : Block) : ChainState * Hash :=
  let '(s, prev_inserted) := st in
  let hash := block_hash hdr in
  if bool_decide (hash ∈ dom (cs_dag s)) then (s, hash) else
  let header := header_only hdr in
  let gd := import_data s prev_inserted header in
  (set_graph s (<[hash := header]> (cs_dag s)) (cs_tips s) (<[hash := gd]> (cs_ghostdag s))
     (reach_add_block (cs_reachability s) hash (gd_selected_parent gd) (merged gd)), hash).
Definition import_verified_pruning_headers (s : ChainState) (headers : list Block) : result (Hash * ChainState) :=
  match headers with
  | [] => Err "empty pruning header list"
  | first :: rest =>
      fail_if negb (block_hash first =? genesis_hash) as "pruning headers must start at genesis";
      fail_if negb (bool_decide (genesis_hash ∈ dom (cs_dag s))) as "local genesis missing";
      let s := (foldl import_header (s, genesis_hash) rest).1 in
      let pp := block_hash (List.last headers first) in
      let s := order_main_chain (set_graph s (cs_dag s) [pp] (cs_ghostdag s) (cs_reachability s)) in
      let s := set_pruning s (Some pp) (cs_pruning_ledger s) (cs_pruned_selected_blocks s) in
      let s := if cs_base_captured s then s else set_base s (snapshot_ledger s) true (cs_base_frontier s) in
      let s := set_base s (cs_base s) (cs_base_captured s) (Some pp) in
      Ok (pp, restore_ledger s (cs_base s))
  end.

(** ** The ledger of the pruning point *)

Definition build_pruning_point_ledger (s : ChainState) : option PruningPointLedger :=
  pp ← cs_pruning_point s;
  expected ← blk_state_root <$> cs_dag s !! pp;
  let msg ledger := {| pl_pruning_point := pp; pl_ledger := ledger |} in
  let replayed :=
    if negb (cs_archival s) then None else
    ledger ← ledger_via_genesis_replay s pp;
    if negb (state_root ledger =? expected) then None else Some (msg ledger) in
  match cs_pruning_ledger s with
  | Some cached => if state_root cached =? expected then Some (msg cached) else replayed
  | None => replayed
  end.

Definition adopt_pruning_point_ledger (s : ChainState) (msg : PruningPointLedger) : result ChainState :=
  pp ← ok_or (cs_pruning_point s) "no pruning point to adopt ledger for";
  fail_if negb (pl_pruning_point msg =? pp) as "pruning-point ledger hash mismatch";
  header ← ok_or (cs_dag s !! pp) "pruning point header missing";
  fail_if negb (state_root (pl_ledger msg) =? blk_state_root header) as "pruning-point ledger does not match state_root";
  let s := set_base s (pl_ledger msg) true (Some pp) in
  let s := set_pruning s (cs_pruning_point s) (Some (pl_ledger msg)) (cs_pruned_selected_blocks s) in
  Ok (restore_ledger s (pl_ledger msg)).

(** The pruning point is set before the replay can fail. *)
Definition set_serving_pruning_point (s : ChainState) (pp : Hash) : result unit * ChainState :=
  match cs_dag s !! pp with
  | None => (Err "pruning point not in DAG", s)
  | Some header =>
      let s := set_pruning s (Some pp) (cs_pruning_ledger s) (cs_pruned_selected_blocks s) in
      match ledger_via_genesis_replay s pp with
      | None => (Err "cannot replay ledger to pruning point", s)
      | Some ledger =>
          if negb (state_root ledger =? blk_state_root header) then (Err "replayed ledger does not match PP state_root", s)
          else (Ok (), set_pruning s (cs_pruning_point s) (Some ledger) (cs_pruned_selected_blocks s))
      end
  end.

(** ** Every header commits to the ledger of its past *)

(** What one admission leaves in place. *)
Lemma step_fields L0 s now b s' :
  reachable L0 s → Z.of_nat (size (cs_dag s)) * SCALE < SPACE_END → add_block s now b = Ok s' →
  ∃ d, check_block s now b = Ok d ∧ chain_ok L0 s ∧ cs_dag s' = cs_dag (insert_block s b d) ∧
    cs_ghostdag s' = cs_ghostdag (insert_block s b d) ∧ cs_chain_id s = CHAIN_ID.
Proof.
  intros Hr Hsz Hadd. destruct (reachable_ok _ _ Hr) as (Hok & Har & Hid).
  destruct (add_block_ok L0 s now b s' Hok Har Hsz Hadd) as (d & Hc & _ & _ & Hd & Hg & _). eauto 10.
Qed.

Lemma headers_commit L0 s h b :
  reachable L0 s → cs_dag s !! h = Some b → h ≠ genesis_hash →
  blk_state_root b = state_root (replay CHAIN_ID (cs_dag s) (cs_ghostdag s) L0 (canonical_order_at (cs_dag s) (cs_ghostdag s) h)).
Proof.
  intros Hr. revert h b. induction Hr as [|s now b s' Hr IH Hsz Hadd]; intros h c Hc Hne.
  { cbn [seeded cs_dag] in Hc. apply lookup_singleton_Some in Hc as [<- _]. done. }
  destruct (step_fields L0 s now b s' Hr Hsz Hadd) as (d & Hck & Hok & Hd & Hg & Hid).
  rewrite Hg, Hd. rewrite Hd in Hc. clear Hd Hg. unfold insert_block in Hc. cbn [cs_dag set_graph] in Hc. apply lookup_insert_Some in Hc as [[<- <-]|[Hn Hc]].
  - destruct (check_block_ok _ _ _ _ Hck) as (_ & _ & _ & _ & _ & _ & _ & _ & _ & _ & _ & sp & Hsp & _ & _ & _ & l & Hl & ->).
    by rewrite (post_ledger_replay L0 s now b d sp l Hok Hsz Hck Hsp Hl), Hid.
  - assert (h ∈ dom (cs_dag s)) as Hdom by by eapply elem_of_dom_2. destruct (ins_old L0 s now b d Hok Hck Hsz h Hdom) as [-> _].
    rewrite (IH h c Hc Hne), <- Hid. f_equal. symmetry. apply (ins_replay L0 s now b d Hok Hck Hsz).
    intros x Hx. by apply (order_dom L0 s Hok h).
Qed.

Lemma chain_from_genesis L0 s h :
  reachable L0 s → h ∈ dom (cs_dag s) → head (selected_chain (cs_ghostdag s) h) = Some genesis_hash.
Proof.
  intros Hr. revert h. induction Hr as [|s now b s' Hr IH Hsz Hadd]; intros h Hh.
  { cbn [seeded cs_dag] in Hh. apply elem_of_dom in Hh as [? [<- _]%lookup_singleton_Some].
    destruct (reachable_ok L0 _ (reachable_seeded L0)) as (Hok & _). destruct (rbuilt_ok _ _ _ (ok_graph _ _ Hok)) as (Hi & _).
    by rewrite (selected_chain_eq _ genesis_hash GhostdagData_genesis (inv_wf _ _ Hi)) by apply lookup_singleton_eq. }
  destruct (step_fields L0 s now b s' Hr Hsz Hadd) as (d & Hck & Hok & Hd & Hg & _). rewrite Hd in Hh. rewrite Hg.
  destruct (decide (h ∈ dom (cs_dag s))) as [Ho|Hn].
  - destruct (ins_old L0 s now b d Hok Hck Hsz h Ho) as (_ & -> & _). by apply IH.
  - unfold insert_block in Hh. cbn [cs_dag set_graph] in Hh. rewrite dom_insert, elem_of_union, elem_of_singleton in Hh.
    destruct Hh as [->|]; [|done]. destruct (ins_new L0 s now b d Hok Hck Hsz) as (sp & _ & _ & Hsp & _ & -> & _).
    specialize (IH sp Hsp). by destruct (selected_chain (cs_ghostdag s) sp).
Qed.

(** ** Serving *)

Lemma genesis_replay L0 s pp :
  chain_ok L0 s → cs_chain_id s = CHAIN_ID → cs_base_captured s = true → pp ∈ dom (cs_dag s) →
  ledger_via_genesis_replay s pp =
    Some (replay CHAIN_ID (cs_dag s) (cs_ghostdag s) Ledger_default (canonical_order_at (cs_dag s) (cs_ghostdag s) pp)).
Proof.
  intros Hok Hid Hcap Hpp. destruct (rbuilt_ok _ _ _ (ok_graph _ _ Hok)) as (Hi & _ & _).
  unfold ledger_via_genesis_replay. rewrite Hcap. set (g := {[genesis_hash := GhostdagData_genesis]}).
  assert (∀ hs sim, (∀ h, h ∈ hs → h ∈ dom (cs_dag s)) →
    foldl (λ o h, sim ← o; _ ← cs_dag s !! h; Some (sim_step s sim h)) (Some sim) hs = Some (foldl (sim_step s) sim hs)) as Hf.
  { induction hs as [|h hs IH]; intros sim Hhs; [done|]. cbn [foldl mbind option_bind].
    assert (h ∈ dom (cs_dag s)) as [b ->]%elem_of_dom by (apply Hhs; by left). cbn [mbind option_bind].
    apply IH. intros x Hx. apply Hhs. by right. }
  rewrite Hf by (intros h Hh; by apply (order_dom L0 s Hok pp)). cbn [fmap option_fmap option_map]. f_equal.
  rewrite sim_replay, Hid by (done || apply Hok). done.
Qed.
Lemma serving_point L0 s pp b :
  L0 = Ledger_default → reachable L0 s → cs_base_captured s = true → cs_dag s !! pp = Some b → pp ≠ genesis_hash →
  let l := replay CHAIN_ID (cs_dag s) (cs_ghostdag s) Ledger_default (canonical_order_at (cs_dag s) (cs_ghostdag s) pp) in
  set_serving_pruning_point s pp = (Ok (), set_pruning s (Some pp) (Some l) (cs_pruned_selected_blocks s)) ∧
  state_root l = blk_state_root b.
Proof.
  intros -> Hr Hcap Hb Hne l. destruct (reachable_ok _ _ Hr) as (Hok & _ & Hid).
  pose proof (headers_commit _ s pp b Hr Hb Hne) as Hroot. fold l in Hroot. split; [|done].
  unfold set_serving_pruning_point. rewrite Hb.
  change (ledger_via_genesis_replay (set_pruning s (Some pp) (cs_pruning_ledger s) (cs_pruned_selected_blocks s)) pp)
    with (ledger_via_genesis_replay s pp).
  rewrite (genesis_replay _ s pp Hok Hid Hcap) by by eapply elem_of_dom_2.
  fold l. rewrite Hroot, Z.eqb_refl. done.
Qed.

(** ** Headers *)

Lemma headers_to_spec dag pp pre post acc :
  (∀ h, h ∈ pre ++ [pp] → h ∈ dom dag) → pp ∉ pre →
  ∃ hs, headers_to dag pp (pre ++ pp :: post) acc = Some (acc ++ hs, true) ∧
    Forall2 (λ h hdr, ∃ b, dag !! h = Some b ∧ hdr = header_only b) (pre ++ [pp]) hs.
Proof.
  revert acc. induction pre as [|h pre IH]; intros acc Hd Hpp; cbn [app headers_to].
  - assert (pp ∈ dom dag) as [b Hb]%elem_of_dom by (apply Hd; set_solver). exists [header_only b].
    rewrite Hb. cbn [mbind option_bind]. rewrite bool_decide_eq_true_2 by done. split; [done|]. repeat constructor. eauto.
  - assert (h ∈ dom dag) as [b Hb]%elem_of_dom by (apply Hd; set_solver). rewrite Hb. cbn [mbind option_bind].
    rewrite bool_decide_eq_false_2 by set_solver. destruct (IH (acc ++ [header_only b])) as (hs & -> & Hhs); [set_solver|set_solver|].
    exists (header_only b :: hs). rewrite <- app_assoc. split; [done|]. constructor; [eauto|done].
Qed.

Lemma header_only_idem b : header_only (header_only b) = header_only b.
Proof. reflexivity. Qed.

(** ** Import *)

Lemma import_fields l st :
  let s' := (foldl import_header st l).1 in
  cs_base s' = cs_base st.1 ∧ cs_base_captured s' = cs_base_captured st.1 ∧ cs_ledger s' = cs_ledger st.1 ∧
  cs_chain_id s' = cs_chain_id st.1.
Proof.
  revert st. induction l as [|hdr l IH]; intros [s prev]; [done|]. cbn [foldl]. destruct (IH (import_header (s, prev) hdr)) as (-> & -> & -> & ->).
  unfold import_header. by destruct (bool_decide _).
Qed.

(** What was known stays, and a header of the list is stored under its hash. *)
Lemma import_known l st x b : cs_dag st.1 !! x = Some b → cs_dag (foldl import_header st l).1 !! x = Some b.
Proof.
  revert st. induction l as [|hdr l IH]; intros [s prev] Hx; [done|]. cbn [foldl]. apply IH. unfold import_header.
  case_bool_decide as Hk; [done|]. cbn [fst cs_dag set_graph] in *. rewrite lookup_insert_ne; [done|].
  intros Heq. apply Hk. rewrite Heq. by eapply elem_of_dom_2.
Qed.

Lemma import_stored l st hdr :
  hdr ∈ l → NoDup (block_hash <$> l) → block_hash hdr ∉ dom (cs_dag st.1) →
  cs_dag (foldl import_header st l).1 !! block_hash hdr = Some (header_only hdr).
Proof.
  revert st. induction l as [|g l IH]; intros [s prev] Hin Hnd Hx; [by apply not_elem_of_nil in Hin|]. cbn [foldl].
  rewrite fmap_cons in Hnd. apply NoDup_cons in Hnd as [Hg Hnd]. apply elem_of_cons in Hin as [->|Hin].
  - apply import_known. unfold import_header. rewrite bool_decide_eq_false_2 by done. cbn [fst cs_dag set_graph]. apply lookup_insert_eq.
  - apply IH; [done|done|]. unfold import_header. case_bool_decide as Hk; [done|].
    cbn [fst cs_dag set_graph] in *. rewrite dom_insert, not_elem_of_union, not_elem_of_singleton. split; [|done].
    intros Heq. apply Hg. rewrite <- Heq. by apply list_elem_of_fmap_2.
Qed.

(** Importing into a fresh node. *)
Lemma import_fresh headers last_hdr :
  block_hash <$> head headers = Some genesis_hash → last headers = Some last_hdr →
  NoDup (block_hash <$> headers) → block_hash last_hdr ≠ genesis_hash →
  ∃ t, import_verified_pruning_headers ChainState_new headers = Ok (block_hash last_hdr, t) ∧
    cs_pruning_point t = Some (block_hash last_hdr) ∧ cs_dag t !! block_hash last_hdr = Some (header_only last_hdr).
Proof.
  destruct headers as [|g l]; [done|]. intros [= Hg] Hlast Hnd Hne. unfold import_verified_pruning_headers.
  rewrite Hg, Z.eqb_refl. cbn [negb]. rewrite bool_decide_eq_true_2 by (cbn [ChainState_new cs_dag]; set_solver). cbn [negb].
  assert (List.last (g :: l) g = last_hdr) as ->.
  { apply last_Some in Hlast as [k ->]. apply List.last_last. }
  assert (last_hdr ∈ l) as Hin.
  { apply last_Some_elem_of in Hlast. apply elem_of_cons in Hlast as [->|]; [congruence|done]. }
  set (s1 := (foldl import_header (ChainState_new, genesis_hash) l).1).
  assert (cs_dag s1 !! block_hash last_hdr = Some (header_only last_hdr)) as Hs1.
  { apply import_stored; [done|by rewrite fmap_cons in Hnd; apply NoDup_cons in Hnd as [_ ?]|].
    cbn [fst ChainState_new cs_dag]. rewrite dom_singleton_L. set_solver. }
  destruct (order_main_chain_fields (set_graph s1 (cs_dag s1) [block_hash last_hdr] (cs_ghostdag s1) (cs_reachability s1))) as (Hd & _).
  eexists. split; [reflexivity|]. clearbody s1. set (s2 := order_main_chain _) in *. clearbody s2. cbn [set_graph cs_dag] in Hd.
  cbn [set_pruning cs_base_captured]. destruct (cs_base_captured s2); (split; [done|]); cbn; by rewrite Hd.
Qed.
Lemma tip_in_main L0 s h : chain_ok L0 s → selected_tip (cs_ghostdag s) (cs_tips s) = Some h → h ∈ cs_main_chain s.
Proof.
  intros Hok Hh. destruct (ok_main _ _ Hok) as (tip & Ht & ->). rewrite Hh in Ht. injection Ht as <-.
  destruct (rbuilt_ok _ _ _ (ok_graph _ _ Hok)) as (Hi & _). destruct (select_parent_Some _ _ _ Hh) as (_ & Hd & _).
  exact (chain_self _ _ Hi _ Hd).
Qed.

(** The headers an archival node serves: those of its selected chain up to the point. *)
Lemma served_headers L0 s pp b l :
  reachable L0 s → pp ∈ cs_main_chain s → cs_dag s !! pp = Some b →
  ∃ headers, build_pruning_proof (set_pruning s (Some pp) l (cs_pruned_selected_blocks s)) = Some headers ∧
    block_hash <$> headers = selected_chain (cs_ghostdag s) pp ∧ last headers = Some (header_only b).
Proof.
  intros Hr Hpp Hb. destruct (reachable_ok _ _ Hr) as (Hok & _). destruct (ok_main _ _ Hok) as (tip & Ht & Hm). rewrite Hm in Hpp.
  destruct (rbuilt_ok _ _ _ (ok_graph _ _ Hok)) as (Hi & _ & _). destruct (select_parent_Some _ _ _ Ht) as (_ & Htd & _).
  destruct (chain_prefix _ _ Hi tip pp Htd Hpp) as [[post Hpost] _].
  assert (pp ∈ dom (cs_ghostdag s)) as [d Hd]%elem_of_dom by by apply (chain_dom _ _ Hi tip).
  assert (∃ pre, selected_chain (cs_ghostdag s) pp = pre ++ [pp]) as [pre Hch]
    by (rewrite (selected_chain_eq _ pp d (inv_wf _ _ Hi) Hd); eauto).
  assert (∀ h, h ∈ selected_chain (cs_ghostdag s) pp → h ∈ dom (cs_dag s)) as Hdom.
  { intros h Hh. rewrite <- (inv_dom _ _ Hi). apply (chain_dom _ _ Hi pp); [by eapply elem_of_dom_2|done]. }
  assert (pp ∉ pre) as Hnp.
  { pose proof (chain_NoDup _ _ Hi pp ltac:(by eapply elem_of_dom_2)) as Hnd. rewrite Hch in Hnd.
    apply NoDup_app in Hnd as (_ & Hdis & _). intros Hin. apply (Hdis pp Hin). set_solver. }
  rewrite Hch in Hpost, Hdom. rewrite <- app_assoc in Hpost. cbn [app] in Hpost.
  destruct (headers_to_spec (cs_dag s) pp pre post [] Hdom Hnp) as (hs & Hhs & Hall). cbn [app] in Hhs.
  assert (block_hash <$> hs = pre ++ [pp]) as Hhash.
  { clear -Hall Hok. induction Hall as [|h hdr hs' hdrs (c & Hc & ->) _ IH]; [done|]. rewrite fmap_cons, IH. f_equal.
    change (block_hash (header_only c)) with (block_hash c). by apply (ok_keyed _ _ Hok). }
  exists hs. split_and!; [|by rewrite Hch|].
  - unfold build_pruning_proof, proof_headers. cbn [set_pruning cs_pruning_point mbind option_bind cs_ghostdag cs_tips cs_dag].
    rewrite Ht. cbn [mbind option_bind]. rewrite Hpost, Hhs. cbn [mbind option_bind negb orb].
    rewrite bool_decide_eq_true_2; [done|].
    pose proof (chain_from_genesis _ s pp Hr ltac:(by eapply elem_of_dom_2)) as Hg. rewrite Hch, <- Hhash in Hg. by destruct hs.
  - apply Forall2_app_inv_l in Hall as (hs1 & hs2 & _ & Hl2 & ->). inversion Hl2 as [|? ? ? ? (c & Hc & ->) Hl3 ]; subst.
    inversion Hl3; subst. rewrite last_snoc. congruence.
Qed.

(** C18. The import half of a cold start ends with the ledger of the network: every block
    above genesis on the main chain of an archival node that started from the empty ledger
    can be published as a pruning point; the headers it then serves are imported by a fresh
    node ([import_verified_pruning_headers], which assumes that the proof was verified
    before), the served ledger is adopted, and the fresh node's live ledger and finalised
    base are the replay, from the empty ledger, of the canonical order of that block's past,
    although the fresh node has none of the bodies.  That the verification before the import
    accepts the headers is not part of this theorem: its difficulty rule differs from the
    one of admission. *)
Theorem cold_start_ledger s pp :
  reachable Ledger_default s → cs_base_captured s = true → pp ∈ cs_main_chain s → pp ≠ genesis_hash →
  ∃ s' headers msg t t',
    set_serving_pruning_point s pp = (Ok (), s') ∧ build_pruning_proof s' = Some headers ∧
    build_pruning_point_ledger s' = Some msg ∧ import_verified_pruning_headers ChainState_new headers = Ok (pp, t) ∧
    adopt_pruning_point_ledger t msg = Ok t' ∧
    cs_ledger t' = replay CHAIN_ID (cs_dag s) (cs_ghostdag s) Ledger_default
      (canonical_order_at (cs_dag s) (cs_ghostdag s) pp) ∧
    cs_base t' = cs_ledger t' ∧ cs_base_frontier t' = Some pp.
Proof.
  intros Hr Hcap Hpp Hne. destruct (reachable_ok _ _ Hr) as (Hok & _). destruct (rbuilt_ok _ _ _ (ok_graph _ _ Hok)) as (Hi & _ & _).
  assert (pp ∈ dom (cs_dag s)) as [b Hb]%elem_of_dom.
  { destruct (ok_main _ _ Hok) as (tip & Ht & Hm). rewrite Hm in Hpp. rewrite <- (inv_dom _ _ Hi).
    apply (chain_dom _ _ Hi tip); [|done]. by destruct (select_parent_Some _ _ _ Ht) as (_ & ? & _). }
  destruct (serving_point _ s pp b eq_refl Hr Hcap Hb Hne) as [Hserve Hroot]. set (l := replay _ _ _ _ _) in *.
  destruct (served_headers _ s pp b (Some l) Hr Hpp Hb) as (headers & Hproof & Hhash & Hlast).
  assert (block_hash (header_only b) = pp) as Hbh by (change (block_hash (header_only b)) with (block_hash b); by apply (ok_keyed _ _ Hok)).
  destruct (import_fresh headers (header_only b)) as (t & Himp & Htpp & Htd); [|done|..].
  - pose proof (chain_from_genesis _ s pp Hr ltac:(by eapply elem_of_dom_2)) as Hg. rewrite <- Hhash in Hg. by destruct headers.
  - rewrite Hhash. assert (pp ∈ dom (cs_ghostdag s)) as Hppg by (rewrite (inv_dom _ _ Hi); by eapply elem_of_dom_2).
    by apply (chain_NoDup _ _ Hi).
  - by rewrite Hbh.
  - rewrite Hbh in Himp, Htpp, Htd.
    exists (set_pruning s (Some pp) (Some l) (cs_pruned_selected_blocks s)), headers, {| pl_pruning_point := pp; pl_ledger := l |}, t,
      (restore_ledger (set_pruning (set_base t l true (Some pp)) (cs_pruning_point t) (Some l) (cs_pruned_selected_blocks t)) l).
    split_and!; [done|done| |done| |reflexivity..].
    + unfold build_pruning_point_ledger. cbn [set_pruning cs_pruning_point cs_dag cs_pruning_ledger mbind option_bind].
      rewrite Hb. cbn [fmap option_fmap option_map mbind option_bind]. by rewrite Hroot, Z.eqb_refl.
    + unfold adopt_pruning_point_ledger. rewrite Htpp. cbn [ok_or mbind result_bind pl_pruning_point pl_ledger].
      rewrite Z.eqb_refl. cbn [negb]. rewrite Htd. cbn [ok_or mbind result_bind].
      change (blk_state_root (header_only (header_only b))) with (blk_state_root b). rewrite Hroot, Z.eqb_refl.
      cbn [negb]. cbn [set_base cs_pruning_point cs_pruned_selected_blocks]. rewrite Htpp. reflexivity.
Qed.

(** ** What the state root leaves out *)

(** A ledger with another treasury, registry, stake table and spent index. *)
Definition swap_sections (l : Ledger) (treasury' : Z) (registry' : RegistryState) (staked' : gmap string Z) (spent' : gset OutPoint) : Ledger :=
  {| l_accounts := l_accounts l; minted_supply := minted_supply l; fees_burned := fees_burned l; treasury := treasury';
     l_registry := registry'; staked := staked'; l_utxo := {| entries := entries (l_utxo l); spent := spent' |} |}.

(** C28. The header's state root does not commit to titles and escrows, to stakes, to the treasury
    or to the index of spent outputs: whenever a node adopts a pruning-point ledger, it adopts it as
    well with any other such sections in it, and has them in its live ledger and its base. *)
Theorem ledger_sections_unverified s msg t treasury' registry' staked' spent' :
  adopt_pruning_point_ledger s msg = Ok t →
  let forged := swap_sections (pl_ledger msg) treasury' registry' staked' spent' in
  ∃ t', adopt_pruning_point_ledger s {| pl_pruning_point := pl_pruning_point msg; pl_ledger := forged |} = Ok t' ∧
    cs_ledger t' = forged ∧ cs_base t' = forged ∧ l_registry (cs_ledger t') = registry' ∧ staked (cs_ledger t') = staked'.
Proof.
  intros Ha. cbv zeta. unfold adopt_pruning_point_ledger in *. destruct (cs_pruning_point s) as [pp|]; [|done]. cbn [ok_or mbind result_bind] in *.
  cbn [pl_pruning_point pl_ledger]. destruct (negb (pl_pruning_point msg =? pp)); [done|]. destruct (cs_dag s !! pp) as [header|]; [|done].
  cbn [ok_or mbind result_bind] in *. change (state_root (swap_sections (pl_ledger msg) treasury' registry' staked' spent')) with (state_root (pl_ledger msg)).
  destruct (negb _); [done|]. eexists. split; [reflexivity|]. by split_and!.
Qed.
End sync.

(** ** Blue scores after an import *)
Module SyncExample.
Import ChainExample.

Definition on (n : Z) (ps : list Hash) : Block :=
  let t := template (GENESIS_TIMESTAMP_MS + n) ps in
  {| blk_height := n; blk_timestamp := blk_timestamp t; blk_parents := ps; blk_interlinks := [];
     blk_transparent_txs := []; blk_utxo_txs := []; blk_registry_ops := []; blk_custody_ops := [];
     blk_merkle_root := 0; blk_state_root := 0; blk_miner := blk_miner t; blk_creator_pubkey := pk;
     blk_nonce := n; blk_difficulty := blk_difficulty t; blk_version := 0; blk_coinbase_entropy := 0;
     blk_stark_proof := []; blk_birth_certificate := []; blk_size := 0 |}.
(** Two branches of two blocks on genesis and a block that merges them. *)
Definition a1 : Block := on 1 [genesis_hash].
Definition a2 : Block := on 2 [block_hash a1].
Definition b1 : Block := on 3 [genesis_hash].
Definition b2 : Block := on 4 [block_hash b1].
Definition merge : Block := on 5 [block_hash a2; block_hash b2].

Definition root : Dag * GdMap * Reachability :=
  ({[genesis_hash := genesis_block]}, {[genesis_hash := GhostdagData_genesis]},
   reach_add_block Reachability_new genesis_hash None []).
Definition grow (s : option (Dag * GdMap * Reachability)) (b : Block) : option (Dag * GdMap * Reachability) :=
  '(dag, gd, r) ← s;
  if bool_decide (block_hash b ∉ dom dag) && bool_decide (blk_parents b ≠ []) &&
     forallb (λ p, bool_decide (p ∈ dom dag)) (blk_parents b) && (Z.of_nat (size dag) * SCALE <? SPACE_END)
  then match try_compute_ghostdag_data r dag gd (blk_parents b) MAX_MERGESET_SIZE with
       | Ok d => Some (<[block_hash b := b]> dag, <[block_hash b := d]> gd,
                       reach_add_block r (block_hash b) (gd_selected_parent d) (merged d))
       | Err _ => None
       end
  else None.
Lemma sync_grow_built l dag gd r : foldl grow (Some root) l = Some (dag, gd, r) → rbuilt dag gd r.
Proof.
  revert dag gd r. induction l as [|b l IH] using rev_ind; intros dag gd r; [intros [= <- <- <-]; by apply rbuilt_genesis|].
  rewrite foldl_app. cbn [foldl]. destruct (foldl grow (Some root) l) as [[[dag0 gd0] r0]|]; [|done].
  unfold grow. cbn [mbind option_bind]. destruct (_ && _) eqn:Hc; [|done]. zbool.
  destruct (try_compute_ghostdag_data _ _ _ _ _) as [d|] eqn:Hd; [|done]. intros [= <- <- <-].
  eapply (rbuilt_add dag0 gd0 r0 (block_hash b) b); [by apply IH|done..| |done|exact Hd].
  intros p Hp. match goal with Hf : forallb _ _ = true |- _ => rewrite forallb_forall in Hf;
    specialize (Hf p (proj1 (list_elem_of_In _ _) Hp)) end. by zbool.
Qed.
Definition served : list Block := header_only <$> [genesis_block; b1; b2; merge].
Definition full : Dag * GdMap * Reachability := default root (foldl grow (Some root) [a1; a2; b1; b2; merge]).
Definition fresh : Hash * ChainState :=
  match import_verified_pruning_headers ChainState_new served with Ok r => r | Err _ => (0, ChainState_new) end.
Definition compared : bool :=
  bool_decide (is_Some (foldl grow (Some root) [a1; a2; b1; b2; merge])) &&
  is_ok (import_verified_pruning_headers ChainState_new served) &&
  bool_decide (selected_chain full.1.2 (block_hash merge) = block_hash <$> served) && (fresh.1 =? block_hash merge) &&
  (score_of full.1.2 (block_hash merge) =? 5) && (score_of (cs_ghostdag fresh.2) (block_hash merge) =? 4).
Lemma compared_ok : compared = true.
Proof. vm_compute. reflexivity. Qed.

(** A node that waits for the ledger of the first block. *)
Definition awaiting : ChainState := set_pruning ChainExample.later (Some (block_hash ChainExample.first_block)) None 0.
Definition genuine : PruningPointLedger :=
  {| pl_pruning_point := block_hash ChainExample.first_block; pl_ledger := cs_ledger ChainExample.later |}.
Lemma genuine_adopted : is_ok (adopt_pruning_point_ledger awaiting genuine) = true.
Proof. vm_compute. reflexivity. Qed.
End SyncExample.

Section witnesses.
#[local] Existing Instances ChainExample.ex_crypto ChainExample.ex_dual ChainExample.ex_body ChainExample.ex_env.

(** An import can lose blue score: there is a graph built by admission whose
    pruning point has blue score 5, while a fresh node that imports the headers of its
    selected chain gives the same block blue score 4, because the import sees a merged
    branch only as far as the parents named by the headers.  Blue scores are recorded
    in coinbase outputs and enter the state commitment of every later block. *)
Theorem import_loses_blue_score :
  ∃ dag gd r headers pp t,
    rbuilt dag gd r ∧ block_hash <$> headers = selected_chain gd pp ∧
    import_verified_pruning_headers ChainState_new headers = Ok (pp, t) ∧
    score_of gd pp = 5 ∧ score_of (cs_ghostdag t) pp = 4.
Proof.
  exists SyncExample.full.1.1, SyncExample.full.1.2, SyncExample.full.2, SyncExample.served, (block_hash SyncExample.merge), SyncExample.fresh.2.
  pose proof SyncExample.compared_ok as [[[[[[g Hg]%bool_decide_eq_true (it & Hit)%ok_exists]%andb_prop
    Hch%bool_decide_eq_true]%andb_prop Hpp%Z.eqb_eq]%andb_prop H5%Z.eqb_eq]%andb_prop H4%Z.eqb_eq]%andb_prop.
  split_and!; [| | |exact H5|exact H4].
  - unfold SyncExample.full. rewrite Hg. destruct g as [[dag gd] r]. exact (SyncExample.sync_grow_built _ _ _ _ Hg).
  - symmetry. exact Hch.
  - unfold SyncExample.fresh in *. rewrite Hit in Hpp |- *. clear -Hpp Hit. destruct it as [pp t]. cbn [fst snd] in *. subst pp. reflexivity.
Qed.

Lemma cold_start_ledger_witness :
  ∃ s' headers msg t t',
    set_serving_pruning_point ChainExample.later (block_hash ChainExample.first_block) = (Ok (), s') ∧
    build_pruning_proof s' = Some headers ∧ build_pruning_point_ledger s' = Some msg ∧
    import_verified_pruning_headers ChainState_new headers = Ok (block_hash ChainExample.first_block, t) ∧
    adopt_pruning_point_ledger t msg = Ok t' ∧ cs_base t' = cs_ledger t'.
Proof.
  destruct ChainExample.later_facts as (_ & Hcap & _ & Htip & Hne).
  assert (block_hash ChainExample.first_block ∈ cs_main_chain ChainExample.later) as Hin.
  { destruct (reachable_ok _ _ ChainExample.later_reachable) as (Hok & _). exact (tip_in_main _ _ _ Hok Htip). }
  destruct (cold_start_ledger ChainExample.later (block_hash ChainExample.first_block) ChainExample.later_reachable Hcap Hin Hne)
    as (s' & hs & msg & t & t' & H1' & H2' & H3' & H4' & H5' & _ & H6' & _).
  exists s', hs, msg, t, t'. exact (conj H1' (conj H2' (conj H3' (conj H4' (conj H5' H6'))))).
Defined.

Lemma ledger_sections_unverified_witness :
  ∃ t', staked (cs_ledger t') = {[ "thief" := 1000000 ]} ∧ cs_base t' = cs_ledger t'.
Proof.
  destruct (ok_exists _ SyncExample.genuine_adopted) as [t Ht].
  destruct (ledger_sections_unverified SyncExample.awaiting SyncExample.genuine t 0 RegistryState_default {[ "thief" := 1000000 ]} ∅ Ht)
    as (t' & _ & Hl & Hb & _ & Hs). exists t'. split; [exact Hs|]. rewrite Hl. exact Hb.
Defined.
End witnesses.
