(* ===== verification/Mempool.v ===== *)
(** * The UTXO mempool

    [admit_utxo_to_mempool] of [src/src/lib.rs] with its helpers (conflict sets,
    ancestor packages, the preview of the pending set, eviction), the template
    selection [select_valid_utxo_txs], the registry and custody pools, and
    [record_first_seen] of [src/src/economics.rs].

    Pools are lists and their entries are named by index, as in the source.  A
    function that may fail after it has changed the state returns the outcome and
    the state. *)

From S2P Require Import Prelude Genesis Crypto Address Predicate Utxo UtxoTx Registry Custody Block Ledger.
From S2P Require Import Dag Ghostdag FeeHistory Stark Superproof State Chain.

Definition MAX_MEMPOOL_SIZE : Z := 10000.
Definition MAX_MEMPOOL_BYTES : Z := 32 * 1024 * 1024.
Definition MAX_UTXO_PACKAGE_COUNT : Z := 25.
Definition MAX_UTXO_PACKAGE_BYTES : Z := 512 * 1024.

(** [net_policy::policy().public_mode], and the first key in the iteration order of a
    hash map, which the standard library leaves open. *)
Class PoolEnv := {
  public_mode : bool;
  some_key : gmap Hash Z → option Hash;
}.

(** ** Pools as indexed lists *)

(** The indices whose entries satisfy a test, in order. *)
Fixpoint positions_from {A} (n : nat) (f : nat → A → bool) (l : list A) : list nat :=
  match l with
  | [] => []
  | x :: l => if f n x then n :: positions_from (S n) f l else positions_from (S n) f l
  end.
Definition positions {A} (f : nat → A → bool) (l : list A) : list nat := positions_from 0 f l.

Definition with_utxo_mempool (p : Pools) (l : list UtxoTx) : Pools :=
  {| transparent_mempool := transparent_mempool p; utxo_mempool := l;
     registry_mempool := registry_mempool p; custody_mempool := custody_mempool p;
     tx_first_seen_ms := tx_first_seen_ms p; tx_first_seen_blue := tx_first_seen_blue p;
     fee_history := fee_history p |}.
Definition with_registry_mempool (p : Pools) (l : list RegistryOp) : Pools :=
  {| transparent_mempool := transparent_mempool p; utxo_mempool := utxo_mempool p;
     registry_mempool := l; custody_mempool := custody_mempool p;
     tx_first_seen_ms := tx_first_seen_ms p; tx_first_seen_blue := tx_first_seen_blue p;
     fee_history := fee_history p |}.
Definition with_custody_mempool (p : Pools) (l : list CustodyCertificate) : Pools :=
  {| transparent_mempool := transparent_mempool p; utxo_mempool := utxo_mempool p;
     registry_mempool := registry_mempool p; custody_mempool := l;
     tx_first_seen_ms := tx_first_seen_ms p; tx_first_seen_blue := tx_first_seen_blue p;
     fee_history := fee_history p |}.
Definition with_first_seen (p : Pools) (ms blue : gmap Hash Z) : Pools :=
  {| transparent_mempool := transparent_mempool p; utxo_mempool := utxo_mempool p;
     registry_mempool := registry_mempool p; custody_mempool := custody_mempool p;
     tx_first_seen_ms := ms; tx_first_seen_blue := blue; fee_history := fee_history p |}.

(** [record_first_seen] of [economics.rs]. *)
Definition MAX_TRACKED : Z := MAX_MEMPOOL_SIZE * 2.
Definition record_first_seen `{!PoolEnv} (p : Pools) (tx_hash now tip_blue : Z) : Pools :=
  let ms := tx_first_seen_ms p in
  let blue := tx_first_seen_blue p in
  let '(ms, blue) :=
    if (MAX_TRACKED <=? Z.of_nat (size ms)) && negb (bool_decide (tx_hash ∈ dom ms)) then
      match some_key ms with Some k => (delete k ms, delete k blue) | None => (ms, blue) end
    else (ms, blue) in
  let or_insert (m : gmap Hash Z) v := match m !! tx_hash with Some _ => m | None => <[tx_hash := v]> m end in
  with_first_seen p (or_insert ms now) (or_insert blue tip_blue).

Section mempool.
Context `{!Crypto, !DualCrypto, !BodyCodec, !NodeEnv, !PoolEnv}.

Definition account_balance (l : Ledger) (addr : string) : Z := from_option balance 0 (l_accounts l !! addr).
Definition account_nonce (l : Ledger) (addr : string) : Z := from_option nonce 0 (l_accounts l !! addr).

(** ** Conflicts *)

(** Whether two transactions share an input; whether [q] spends an output of one of
    the transactions [ids]. *)
Definition shares_input (tx q : UtxoTx) : bool :=
  existsb (λ tin, existsb (λ r, bool_decide (previous r = previous tin)) (inputs q)) (inputs tx).
Definition spends_any (ids : list Hash) (q : UtxoTx) : bool :=
  existsb (λ tin, bool_decide (txid (previous tin) ∈ ids)) (inputs q).

Definition at_idxs (pool : list UtxoTx) (idxs : list nat) : list UtxoTx := omap (λ i, pool !! i) idxs.

(** One pass of the [while changed] loop. *)
Definition expand_pass (pool : list UtxoTx) (expanded : list nat) : list nat :=
  let conflict_txids := tx_hash <$> at_idxs pool expanded in
  expanded ++ positions (λ i q, negb (bool_decide (i ∈ expanded)) && spends_any conflict_txids q) pool.
Fixpoint expand_conflicts (fuel : nat) (pool : list UtxoTx) (expanded : list nat) : list nat :=
  match fuel with
  | O => expanded
  | S fuel =>
      let expanded' := expand_pass pool expanded in
      if Nat.eqb (length expanded') (length expanded) then expanded' else expand_conflicts fuel pool expanded'
  end.
Definition conflict_set (pool : list UtxoTx) (tx : UtxoTx) : list nat :=
  let direct := positions (λ _ q, shares_input tx q) pool in
  if bool_decide (direct = []) then [] else expand_conflicts (S (length pool)) pool direct.

(** ** Preview of the pending set *)

(** [apply_utxo_tx] on clones that are kept only on success. *)
Definition try_utxo (media : Z) (ua : UtxoSet * Accounts) (tx : UtxoTx) : option (UtxoSet * Accounts) :=
  match apply_utxo_tx {| utxos := ua.1; accounts := ua.2; fees_out := 0 |} tx media with
  | (Ok _, s) => Some (utxos s, accounts s)
  | (Err _, _) => None
  end.

(** One round over the pending transactions: state, those left over, progress. *)
Definition preview_step (media : Z) (st : (UtxoSet * Accounts) * list UtxoTx * bool) (tx : UtxoTx)
    : (UtxoSet * Accounts) * list UtxoTx * bool :=
  let '(ua, next, progress) := st in
  match try_utxo media ua tx with
  | Some ua => (ua, next, true)
  | None => (ua, next ++ [tx], progress)
  end.
Fixpoint preview_rounds (n : nat) (media : Z) (ua : UtxoSet * Accounts) (pending : list UtxoTx) : UtxoSet * Accounts :=
  match n with
  | O => ua
  | S n =>
      let '(ua, next, progress) := foldl (preview_step media) (ua, [], false) pending in
      if progress then preview_rounds n media ua next else ua
  end.
Definition utxo_mempool_preview (s : ChainState) (skip : list nat) : UtxoSet * Accounts :=
  let pool := utxo_mempool (cs_pools s) in
  let pending := at_idxs pool (positions (λ i _, negb (bool_decide (i ∈ skip))) pool) in
  preview_rounds (S (length pending)) (selected_tip_blue_score s) (l_utxo (cs_ledger s), l_accounts (cs_ledger s)) pending.

(** ** Packages *)

Definition utxo_mempool_direct_parents (pool : list UtxoTx) (tx : UtxoTx) (skip : list nat) : list nat :=
  positions (λ i q, negb (bool_decide (i ∈ skip)) && spends_any [tx_hash q] tx) pool.

(** The breadth-first closure of the ancestor loops: [queue] is what is left to visit. *)
Definition enqueue (st : list nat * list nat) (p : nat) : list nat * list nat :=
  if bool_decide (p ∈ st.1) then st else (st.1 ++ [p], st.2 ++ [p]).
Fixpoint ancestor_loop (fuel : nat) (pool : list UtxoTx) (skip idxs queue : list nat) : list nat :=
  match fuel, queue with
  | S fuel, cur :: queue =>
      let parents := from_option (λ t, utxo_mempool_direct_parents pool t skip) [] (pool !! cur) in
      let '(idxs, queue) := foldl enqueue (idxs, queue) parents in
      if MAX_UTXO_PACKAGE_COUNT <=? len idxs then idxs else ancestor_loop fuel pool skip idxs queue
  | _, _ => idxs
  end.

(** Sums as the integer types compute them. *)
Definition sum_fees (txs : list UtxoTx) : Z := wrap 128 (zsum (fee <$> txs)).
Definition sum_bytes (txs : list UtxoTx) : Z := wrap 64 (zsum (relay_bytes <$> txs)).
Definition sum_priced_bytes (txs : list UtxoTx) : Z := wrap 128 (zsum ((λ t, Z.max (relay_bytes t) 1) <$> txs)).

(** [utxo_ancestor_package_score]. *)
Definition utxo_ancestor_package_score (pool : list UtxoTx) (idx : nat) : Z * Z :=
  let idxs := ancestor_loop (S (length pool)) pool [] [idx] [idx] in
  (sum_fees (at_idxs pool idxs), Z.max (sum_priced_bytes (at_idxs pool idxs)) 1).
Definition package_rate (pool : list UtxoTx) (idx : nat) : Z :=
  let '(f, bytes) := utxo_ancestor_package_score pool idx in f / Z.max bytes 1.

(** ** Removal *)

(** [self.utxo_mempool.remove(i)] with the first-seen entries. *)
Definition remove_at (p : Pools) (i : nat) : Pools :=
  match utxo_mempool p !! i with
  | None => p
  | Some old =>
      with_first_seen (with_utxo_mempool p (delete i (utxo_mempool p)))
        (delete (tx_id old) (tx_first_seen_ms p)) (delete (tx_id old) (tx_first_seen_blue p))
  end.
(** [sort_unstable_by(|a, b| b.cmp(a))], then one removal each. *)
Definition remove_idxs (p : Pools) (idxs : list nat) : Pools := foldl remove_at p (merge_sort (flip le) idxs).

(** The eviction order: rate ascending, then index descending. *)
Definition evict_le (a b : nat * Z) : Prop := a.2 < b.2 ∨ (a.2 = b.2 ∧ (b.1 <= a.1)%nat).
#[global] Instance evict_le_dec : RelDecision evict_le.
Proof. intros a b. unfold evict_le. apply _. Defined.
Definition ranked_for_eviction (pool : list UtxoTx) : list (nat * Z) :=
  merge_sort evict_le (imap (λ i _, (i, package_rate pool i)) pool).
Fixpoint evict_walk (pool : list UtxoTx) (incoming_raw rate : Z) (ranked : list (nat * Z)) (used_now : Z)
    (remove : list nat) : Z * list nat :=
  match ranked with
  | [] => (used_now, remove)
  | (i, r) :: ranked =>
      if sat_add 64 used_now incoming_raw <=? MAX_MEMPOOL_BYTES then (used_now, remove) else
      if rate <=? r then (used_now, remove) else
      evict_walk pool incoming_raw rate ranked (sat_sub used_now (from_option relay_bytes 0 (pool !! i))) (remove ++ [i])
  end.

(** [min_by]: the first of the least entries. *)
Definition worst_less (a b : nat * Z * Z) : bool := (a.1.2 <? b.1.2) || ((a.1.2 =? b.1.2) && (a.2 <? b.2)).
Definition worst_entry (pool : list UtxoTx) : option (nat * Z * Z) :=
  match imap (λ i _, (i, package_rate pool i, (utxo_ancestor_package_score pool i).1)) pool with
  | [] => None
  | x :: l => Some (foldl (λ best y, if worst_less y best then y else best) x l)
  end.

(** ** Admission *)

(** The checks before the first mutation: the conflict set and the package rate. *)
Definition check_utxo_admission (s : ChainState) (tx : UtxoTx) : result (list nat * Z) :=
  let pool := utxo_mempool (cs_pools s) in
  _ ← validate_form tx;
  fail_if negb (chain_id tx =? cs_chain_id s) as "Wrong chain_id";
  fail_if negb (verify tx) as "Invalid signature";
  let media := selected_tip_blue_score s in
  fail_if existsb (λ t, tx_id t =? tx_id tx) pool as "UTXO tx already in mempool";
  let conflict_idxs := conflict_set pool tx in
  let skip := conflict_idxs in
  let '(u, a) := utxo_mempool_preview s skip in
  _ ← (apply_utxo_tx {| utxos := u; accounts := a; fees_out := 0 |} tx media).1;
  let incoming_rate := fee tx / Z.max (relay_bytes tx) 1 in
  let parents := utxo_mempool_direct_parents pool tx skip in
  let package_idxs := ancestor_loop (S (length pool)) pool skip parents parents in
  fail_if MAX_UTXO_PACKAGE_COUNT <? sat_add 64 (len package_idxs) 1
    as ("UTXO ancestor package exceeds count limit " +:+ pretty MAX_UTXO_PACKAGE_COUNT);
  let package_bytes := sat_add 64 (sum_bytes (at_idxs pool package_idxs)) (relay_bytes tx) in
  fail_if MAX_UTXO_PACKAGE_BYTES <? package_bytes
    as ("UTXO ancestor package exceeds byte limit " +:+ pretty MAX_UTXO_PACKAGE_BYTES);
  let package_fee := sat_add 128 (sum_fees (at_idxs pool package_idxs)) (fee tx) in
  let incoming_pkg_rate := package_fee / Z.max package_bytes 1 in
  let conflicts := at_idxs pool conflict_idxs in
  let conflict_fee := sum_fees conflicts in
  let conflict_rate := conflict_fee / Z.max (sum_priced_bytes conflicts) 1 in
  fail_if negb (bool_decide (conflict_idxs = [])) &&
          ((fee tx <? sat_add 128 conflict_fee MIN_TX_FEE) || (incoming_rate <=? conflict_rate))
    as "UTXO input conflicts with mempool";
  Ok (conflict_idxs, incoming_pkg_rate).

(** The byte budget: evict the worst packages the incoming one outbids. *)
Definition make_byte_room (p : Pools) (tx : UtxoTx) (incoming_pkg_rate : Z) : result unit * Pools :=
  let pool := utxo_mempool p in
  let used := sum_bytes pool in
  let incoming_raw := relay_bytes tx in
  if sat_add 64 used incoming_raw <=? MAX_MEMPOOL_BYTES then (Ok (), p) else
  let '(used_now, remove) := evict_walk pool incoming_raw incoming_pkg_rate (ranked_for_eviction pool) used [] in
  if MAX_MEMPOOL_BYTES <? sat_add 64 used_now incoming_raw then (Err "UTXO mempool byte budget exceeded", p) else
  (Ok (), remove_idxs p remove).

(** The count limit: evict the single worst package. *)
Definition make_slot (p : Pools) (tx : UtxoTx) (incoming_pkg_rate : Z) : result unit * Pools :=
  let pool := utxo_mempool p in
  if len pool <? MAX_MEMPOOL_SIZE then (Ok (), p) else
  match worst_entry pool with
  | Some (i, rate, f) =>
      if (rate <? incoming_pkg_rate) || ((incoming_pkg_rate =? rate) && (f <? fee tx))
      then (Ok (), remove_at p i) else (Err "UTXO mempool is full", p)
  | None => (Err "UTXO mempool is full", p)
  end.

Definition admit_pools (p : Pools) (now tip_blue : Z) (tx : UtxoTx) (conflict_idxs : list nat) (rate : Z)
    : result unit * Pools :=
  let p := remove_idxs p conflict_idxs in
  match make_byte_room p tx rate with
  | (Err e, p) => (Err e, p)
  | (Ok _, p) =>
      match make_slot p tx rate with
      | (Err e, p) => (Err e, p)
      | (Ok _, p) =>
          let p := record_first_seen p (tx_id tx) now tip_blue in
          (Ok (), with_utxo_mempool p (utxo_mempool p ++ [tx]))
      end
  end.
Definition admit_utxo_to_mempool (s : ChainState) (now : Z) (tx : UtxoTx) : result unit * ChainState :=
  match check_utxo_admission s tx with
  | Err e => (Err e, s)
  | Ok (conflict_idxs, rate) =>
      let '(r, p) := admit_pools (cs_pools s) now (selected_tip_blue_score s) tx conflict_idxs rate in
      (r, set_pools s p)
  end.

(** ** Templates *)

(** [select_valid_utxo_txs]: feerate descending, then fee descending, then id. *)
Definition feerate (tx : UtxoTx) : Z := fee tx / Z.max (relay_bytes tx) 1.
Definition template_le (a b : UtxoTx) : Prop :=
  feerate b < feerate a ∨ (feerate a = feerate b ∧ (fee b < fee a ∨ (fee a = fee b ∧ tx_id a <= tx_id b))).
#[global] Instance template_le_dec : RelDecision template_le.
Proof. intros a b. unfold template_le. apply _. Defined.
Definition select_step (media : Z) (st : (UtxoSet * Accounts) * list UtxoTx) (tx : UtxoTx)
    : (UtxoSet * Accounts) * list UtxoTx :=
  match try_utxo media st.1 tx with
  | Some ua => (ua, st.2 ++ [tx])
  | None => st
  end.
Definition select_valid_utxo_txs (s : ChainState) (candidates : list UtxoTx) : list UtxoTx :=
  (foldl (select_step (selected_tip_blue_score s)) (l_utxo (cs_ledger s), l_accounts (cs_ledger s), [])
    (merge_sort template_le candidates)).2.

(** ** Registry and custody pools *)

Definition op_pool_cap : Z := if public_mode then 256 else 10000.

Definition admit_registry_to_mempool (s : ChainState) (op : RegistryOp) : result ChainState :=
  let p := cs_pools s in
  fail_if negb (op_chain_id op =? cs_chain_id s) as "Wrong chain_id";
  fail_if negb (op_verify op) as "Invalid signature";
  fail_if op_pool_cap <=? len (registry_mempool p) as "Registry mempool full";
  let signer := signer_address op in
  fail_if op_nonce op <? account_nonce (cs_ledger s) signer as "Stale nonce";
  fail_if existsb (λ o, bool_decide (signer_address o = signer) && (op_nonce o =? op_nonce op)) (registry_mempool p)
    as "Duplicate registry op";
  Ok (set_pools s (with_registry_mempool p (registry_mempool p ++ [op]))).

(** [select_valid_registry_ops]: the dry run stands on the genesis block. *)
Definition dry_run_ctx (blue : Z) : OpContext :=
  {| ctx_timestamp := blk_timestamp genesis_block; ctx_height := blk_height genesis_block;
     ctx_settlement := "select-dry-run"; ctx_blue := blue |}.
Definition registry_select_step (s : ChainState) (st : gmap string Z * Accounts * RegistryState * list RegistryOp)
    (op : RegistryOp) : gmap string Z * Accounts * RegistryState * list RegistryOp :=
  let '(nonces, a, r, good) := st in
  if negb (op_chain_id op =? cs_chain_id s) || negb (op_verify op) then st else
  let signer := signer_address op in
  let cur := default (account_nonce (cs_ledger s) signer) (nonces !! signer) in
  if negb (op_nonce op =? cur) then st else
  match apply_op r a op (dry_run_ctx (selected_tip_blue_score s)) with
  | (Err _, _) => st
  | (Ok _, (r', a')) => (<[signer := sat_add 64 cur 1]> nonces, a', r', good ++ [op])
  end.
Definition select_valid_registry_ops (s : ChainState) (ops : list RegistryOp) : list RegistryOp :=
  (foldl (registry_select_step s) (∅, l_accounts (cs_ledger s), l_registry (cs_ledger s), []) ops).2.

Definition admit_custody_to_mempool (s : ChainState) (op : CustodyCertificate) : result ChainState :=
  let p := cs_pools s in
  fail_if bool_decide (cc_kind op = BridgeExit) || bool_decide (cc_kind op = BridgeEnter)
    as "Bridge exit/enter disabled until a real cross-chain bridge ships";
  fail_if negb (cc_chain_id op =? cs_chain_id s) as "Wrong chain_id";
  fail_if cc_amount op =? 0 as "Custody amount must be > 0";
  sid ← parse_settlement_id hex_err "bad settlement id" (cc_settlement_id op);
  _ ← custody_verify op sid;
  _ ← check_custody_anchor (cs_dag s) op;
  fail_if cc_nonce op <? account_nonce (cs_ledger s) (cc_owner op) as "Stale custody nonce";
  fail_if existsb (λ o, bool_decide (cc_owner o = cc_owner op) && (cc_nonce o =? cc_nonce op) &&
                        bool_decide (cc_kind o = cc_kind op)) (custody_mempool p)
    as "Duplicate custody op";
  fail_if op_pool_cap <=? len (custody_mempool p) as "Custody mempool full";
  Ok (set_pools s (with_custody_mempool p (custody_mempool p ++ [op]))).

(** [select_valid_custody_ops]: the overlay starts with an empty registry. *)
Definition custody_select_step (chain_id : Z) (st : Ledger * list CustodyCertificate) (op : CustodyCertificate)
    : Ledger * list CustodyCertificate :=
  match apply_custody_op hex_err st.1 chain_id op with
  | Ok l => (l, st.2 ++ [op])
  | Err _ => st
  end.
Definition custody_overlay (s : ChainState) : Ledger := set_registry (cs_ledger s) RegistryState_default (l_accounts (cs_ledger s)).
Definition select_valid_custody_ops (s : ChainState) (ops : list CustodyCertificate) : list CustodyCertificate :=
  (foldl (custody_select_step (cs_chain_id s)) (custody_overlay s, []) ops).2.
End mempool.
