(* ===== verification/MempoolInv.v ===== *)
(** * The mempool keeps its promises

    Whatever is offered to it, the UTXO pool holds transactions with distinct ids and
    pairwise distinct inputs within its count and byte limits; a replacement pays for
    everything it displaces; a block template built from the pool applies in order. *)

From S2P Require Import Prelude Genesis Crypto Address Predicate Utxo UtxoTx Registry Custody Block Ledger.
From S2P Require Import Dag Ghostdag FeeHistory Stark Superproof State Chain ChainInv Mempool.

(** ** Lists addressed by index *)

Lemma elem_of_positions_from {A} n (f : nat → A → bool) l i :
  i ∈ positions_from n f l ↔ (n <= i)%nat ∧ ∃ x, l !! (i - n)%nat = Some x ∧ f i x = true.
Proof.
  revert n. induction l as [|y l IH]; intros n; simpl.
  - split; [by intros ?%not_elem_of_nil|]. intros (_ & x & Hx & _). done.
  - assert (i ∈ positions_from (S n) f l ↔ (n < i)%nat ∧ ∃ x, (y :: l) !! (i - n)%nat = Some x ∧ f i x = true) as Hr.
    { rewrite IH. split; intros (Hle & x & Hx & Hf); (split; [lia|]); exists x; (split; [|done]).
      - by replace (i - n)%nat with (S (i - S n)) by lia.
      - by replace (i - n)%nat with (S (i - S n)) in Hx by lia. }
    destruct (f n y) eqn:Hf; [rewrite elem_of_cons|]; rewrite Hr; split.
    + intros [->|(Hle & Hx)]; [|split; [lia|done]]. split; [lia|]. exists y. by rewrite Nat.sub_diag.
    + intros (Hle & Hx). destruct (decide (i = n)); [by left|]. right. split; [lia|done].
    + intros (Hle & Hx). split; [lia|done].
    + intros (Hle & x & Hx & Hfx). destruct (decide (i = n)) as [->|]; [|split; [lia|by exists x]].
      rewrite Nat.sub_diag in Hx. injection Hx as ->. congruence.
Qed.

Lemma elem_of_positions {A} (f : nat → A → bool) l i :
  i ∈ positions f l ↔ ∃ x, l !! i = Some x ∧ f i x = true.
Proof. unfold positions. rewrite elem_of_positions_from, Nat.sub_0_r. intuition lia. Qed.

Lemma positions_NoDup {A} (f : nat → A → bool) l : NoDup (positions f l).
Proof.
  unfold positions. generalize 0%nat. induction l as [|y l IH]; intros n; [apply NoDup_nil_2|]. simpl.
  destruct (f n y); [|apply IH]. apply NoDup_cons. split; [|apply IH].
  intros (Hle & _)%elem_of_positions_from. lia.
Qed.

(** Deleting the indices of a strictly descending list. *)
Definition del_all {A} (l : list A) (ds : list nat) : list A := foldl (λ l i, delete i l) l ds.

Lemma delete_sublist {A} (l : list A) i : delete i l `sublist_of` l.
Proof. exact (sublist_foldr_delete l [i]). Qed.

Lemma del_all_sublist {A} (l : list A) ds : del_all l ds `sublist_of` l.
Proof.
  revert l. induction ds as [|i ds IH]; intros l; [done|]. simpl. etrans; [apply IH|apply delete_sublist].
Qed.

Lemma del_all_keep {A} (l : list A) ds k x :
  StronglySorted gt ds → del_all l ds !! k = Some x → ∃ k', l !! k' = Some x ∧ (k' ∉ ds).
Proof.
  revert l k. induction ds as [|i ds IH]; intros l k Hs Hx; [exists k; split; [done|apply not_elem_of_nil]|].
  apply StronglySorted_inv in Hs as [Hs Hlt]. rewrite Forall_forall in Hlt.
  destruct (IH (delete i l) k Hs Hx) as (k1 & Hk1 & Hn1).
  destruct (decide (k1 < i)%nat) as [Hlt1|Hge1].
  - exists k1. rewrite list_lookup_delete_lt in Hk1 by done. split; [done|]. apply not_elem_of_cons. split; [lia|done].
  - exists (S k1). rewrite list_lookup_delete_ge in Hk1 by lia. split; [done|]. apply not_elem_of_cons.
    split; [lia|]. intros Hin%Hlt. lia.
Qed.

Lemma zsum_perm l l' : l ≡ₚ l' → zsum l = zsum l'.
Proof. induction 1; simpl; lia. Qed.

Lemma zsum_delete {A} (f : A → Z) l i x : l !! i = Some x → zsum (f <$> delete i l) = zsum (f <$> l) - f x.
Proof.
  intros Hx. apply (delete_Permutation l i x) in Hx as Hp.
  rewrite (zsum_perm (f <$> l) (f <$> x :: delete i l)) by (by rewrite <- Hp). rewrite fmap_cons, zsum_cons. lia.
Qed.

Lemma omap_delete {A} (l : list A) i ds :
  Forall (gt i) ds → omap (λ j, delete i l !! j) ds = omap (λ j, l !! j) ds.
Proof.
  induction 1 as [|j ds Hj _ IH]; [done|]. simpl. rewrite list_lookup_delete_lt by lia.
  destruct (l !! j); [f_equal|]; exact IH.
Qed.

Lemma del_all_sum {A} (f : A → Z) (l : list A) ds :
  StronglySorted gt ds → Forall (λ i, is_Some (l !! i)) ds →
  zsum (f <$> del_all l ds) = zsum (f <$> l) - zsum (f <$> omap (λ i, l !! i) ds).
Proof.
  revert l. induction ds as [|i ds IH]; intros l Hs Hall; [simpl; lia|].
  apply StronglySorted_inv in Hs as [Hs Hlt]. apply Forall_cons in Hall as [[x Hx] Hall].
  cbn [del_all foldl]. fold (del_all (delete i l) ds). rewrite IH; [|done|].
  - rewrite (zsum_delete f l i x Hx), omap_delete by done.
    assert (omap (λ j, l !! j) (i :: ds) = x :: omap (λ j, l !! j) ds) as -> by (simpl; by rewrite Hx).
    rewrite fmap_cons, zsum_cons. lia.
  - rewrite Forall_forall in *. intros j Hj. rewrite list_lookup_delete_lt by (apply Hlt in Hj; lia). by apply Hall.
Qed.

Lemma sorted_strict (l : list nat) : StronglySorted (flip le) l → NoDup l → StronglySorted gt l.
Proof.
  induction 1 as [|x l Hs IH Hx]; intros Hnd; [constructor|]. apply NoDup_cons in Hnd as [Hn Hnd].
  constructor; [by apply IH|]. rewrite Forall_forall in *. intros y Hy. specialize (Hx y Hy). simpl in Hx.
  assert (x ≠ y) by (by intros ->). lia.
Qed.

Lemma sort_desc (idxs : list nat) : NoDup idxs → StronglySorted gt (merge_sort (flip le) idxs).
Proof.
  intros Hnd. apply sorted_strict.
  - apply StronglySorted_merge_sort; [intros x y z|intros x y]; simpl; lia.
  - by rewrite merge_sort_Permutation.
Qed.

Section pool.
Context `{!Crypto, !DualCrypto, !BodyCodec, !NodeEnv, !PoolEnv, !UtxoCodecLaws}.

(** ** The invariant *)

Definition pool_outpoints (pool : list UtxoTx) : list OutPoint := concat ((λ t, previous <$> inputs t) <$> pool).

Record pool_ok (pool : list UtxoTx) : Prop := {
  pool_ids : NoDup (tx_id <$> pool);
  pool_inputs : NoDup (pool_outpoints pool);
  pool_count : len pool <= MAX_MEMPOOL_SIZE;
  pool_bytes : zsum (relay_bytes <$> pool) <= MAX_MEMPOOL_BYTES;
}.

Lemma relay_bytes_range tx : is_u64 (relay_bytes tx).
Proof.
  unfold relay_bytes. destruct (ser_utxo_tx_len _) as [n|] eqn:Hn; simpl; [by eapply ser_utxo_tx_len_usize|].
  unfold in_width, sat_add, umax, PQ_PUBLIC_KEY_SIZE, PQ_SIGNATURE_SIZE. lia.
Qed.

Lemma bytes_nonneg pool : 0 <= zsum (relay_bytes <$> pool).
Proof. apply zsum_nonneg, Forall_fmap, Forall_true. intros t. simpl. apply relay_bytes_range. Qed.

Lemma sublist_bytes l l' : l `sublist_of` l' → zsum (relay_bytes <$> l) <= zsum (relay_bytes <$> l').
Proof.
  induction 1 as [|x l l' _ IH|x l l' _ IH]; [done|..]; rewrite ?fmap_cons, ?zsum_cons; [lia|].
  pose proof (relay_bytes_range x) as [? _]. lia.
Qed.

Lemma sublist_outpoints l l' : l `sublist_of` l' → pool_outpoints l `sublist_of` pool_outpoints l'.
Proof.
  unfold pool_outpoints. induction 1 as [|x l l' _ IH|x l l' _ IH]; [done|..]; rewrite ?fmap_cons; simpl.
  - by apply sublist_app.
  - by apply sublist_inserts_l.
Qed.

Lemma pool_ok_sublist l l' : l `sublist_of` l' → pool_ok l' → pool_ok l.
Proof.
  intros Hs [Hi Hin Hc Hb]. split.
  - eapply sublist_NoDup; [exact Hi|by apply fmap_sublist].
  - eapply sublist_NoDup; [exact Hin|by apply sublist_outpoints].
  - unfold len in *. apply sublist_length in Hs. lia.
  - pose proof (sublist_bytes _ _ Hs). lia.
Qed.

Lemma sum_bytes_exact pool : pool_ok pool → sum_bytes pool = zsum (relay_bytes <$> pool).
Proof.
  intros Hok. apply wrap_small. pose proof (bytes_nonneg pool). pose proof (pool_bytes _ Hok) as Hb.
  unfold in_width, umax. unfold MAX_MEMPOOL_BYTES in Hb. lia.
Qed.

(** ** Removal *)

Lemma remove_at_pool p i : utxo_mempool (remove_at p i) = delete i (utxo_mempool p).
Proof.
  unfold remove_at. destruct (utxo_mempool p !! i) as [x|] eqn:Hx; [done|].
  apply lookup_ge_None_1 in Hx.
  by rewrite delete_take_drop, take_ge, drop_ge, app_nil_r by lia.
Qed.

Lemma remove_idxs_pool p idxs :
  utxo_mempool (remove_idxs p idxs) = del_all (utxo_mempool p) (merge_sort (flip le) idxs).
Proof.
  unfold remove_idxs. generalize (merge_sort (flip le) idxs). intros ds. revert p.
  induction ds as [|i ds IH]; intros p; [done|]. cbn [foldl]. rewrite IH, remove_at_pool. done.
Qed.

Lemma remove_idxs_sublist p idxs : utxo_mempool (remove_idxs p idxs) `sublist_of` utxo_mempool p.
Proof. rewrite remove_idxs_pool. apply del_all_sublist. Qed.

Lemma remove_idxs_keep p idxs q :
  NoDup idxs → q ∈ utxo_mempool (remove_idxs p idxs) → ∃ k, utxo_mempool p !! k = Some q ∧ (k ∉ idxs).
Proof.
  intros Hnd. rewrite remove_idxs_pool. intros [k Hk]%list_elem_of_lookup.
  destruct (del_all_keep _ _ _ _ (sort_desc idxs Hnd) Hk) as (k' & Hk' & Hn). exists k'. split; [done|].
  by rewrite merge_sort_Permutation in Hn.
Qed.

Lemma remove_idxs_bytes p idxs :
  NoDup idxs → Forall (λ i, is_Some (utxo_mempool p !! i)) idxs →
  zsum (relay_bytes <$> utxo_mempool (remove_idxs p idxs)) =
  zsum (relay_bytes <$> utxo_mempool p) - zsum (relay_bytes <$> at_idxs (utxo_mempool p) idxs).
Proof.
  intros Hnd Hall. rewrite remove_idxs_pool, del_all_sum; [|by apply sort_desc|by rewrite merge_sort_Permutation].
  f_equal. apply zsum_perm. unfold at_idxs. by rewrite merge_sort_Permutation.
Qed.

(** ** The conflict set *)

Definition in_range (pool : list UtxoTx) (idxs : list nat) : Prop := NoDup idxs ∧ Forall (λ i, is_Some (pool !! i)) idxs.

Lemma in_range_length pool idxs : in_range pool idxs → (length idxs <= length pool)%nat.
Proof.
  intros [Hnd Hall]. rewrite <- (length_seq (length pool) 0). apply submseteq_length, NoDup_submseteq; [done|].
  intros i Hi. rewrite Forall_forall in Hall. apply elem_of_seq. pose proof (lookup_lt_is_Some_1 _ _ (Hall i Hi)). lia.
Qed.

Lemma expand_pass_range pool e : in_range pool e → in_range pool (expand_pass pool e).
Proof.
  intros [Hnd Hall]. unfold expand_pass. split.
  - apply NoDup_app. split_and!; [done| |apply positions_NoDup].
    intros i Hi (q & _ & [Hn _]%andb_prop)%elem_of_positions. rewrite bool_decide_eq_true_2 in Hn; done.
  - apply Forall_app. split; [done|]. apply Forall_forall. intros i (q & Hq & _)%elem_of_positions. by exists q.
Qed.

(** [closed pool e]: whoever spends an output of an entry of [e] is in [e]. *)
Definition closed (pool : list UtxoTx) (e : list nat) : Prop :=
  ∀ i j t q, i ∈ e → pool !! i = Some t → pool !! j = Some q → spends_any [tx_hash t] q = true → j ∈ e.

Lemma spends_any_mono ids ids' q : (∀ h, h ∈ ids → h ∈ ids') → spends_any ids q = true → spends_any ids' q = true.
Proof.
  intros Hsub (tin & Hin & Hb%bool_decide_eq_true)%existsb_exists. apply existsb_exists. exists tin.
  split; [done|]. apply bool_decide_eq_true. auto.
Qed.

Lemma expand_pass_closed pool e : length (expand_pass pool e) = length e → closed pool e ∧ expand_pass pool e = e.
Proof.
  unfold expand_pass. set (l := positions _ _). rewrite length_app. intros Hl.
  assert (l = []) as Hnil by (destruct l; simpl in Hl; [done|lia]). rewrite Hnil, app_nil_r. split; [|done].
  intros i j t q Hi Ht Hq Hsp. destruct (decide (j ∈ e)) as [|Hj]; [done|]. exfalso.
  assert (j ∈ l) as Hjl; [|rewrite Hnil in Hjl; by apply not_elem_of_nil in Hjl].
  apply elem_of_positions. exists q. split; [done|]. rewrite bool_decide_eq_false_2 by done. simpl.
  eapply spends_any_mono; [|exact Hsp]. intros h ->%list_elem_of_singleton. apply list_elem_of_fmap.
  exists t. split; [done|]. apply list_elem_of_omap. by exists i.
Qed.

Lemma expand_conflicts_spec fuel pool e :
  in_range pool e → (length pool - length e < fuel)%nat →
  in_range pool (expand_conflicts fuel pool e) ∧ closed pool (expand_conflicts fuel pool e) ∧
  ∀ i, i ∈ e → i ∈ expand_conflicts fuel pool e.
Proof.
  revert e. induction fuel as [|fuel IH]; intros e Hr Hf; [lia|]. cbn [expand_conflicts].
  pose proof (expand_pass_range pool e Hr) as Hr'. pose proof (in_range_length _ _ Hr').
  assert (∀ i, i ∈ e → i ∈ expand_pass pool e) as Hinc by (intros i Hi; apply elem_of_app; by left).
  destruct (Nat.eqb_spec (length (expand_pass pool e)) (length e)) as [Heq|Hne].
  - destruct (expand_pass_closed pool e Heq) as [Hc ->]. done.
  - assert (length e <= length (expand_pass pool e))%nat by (unfold expand_pass; rewrite length_app; lia).
    destruct (IH (expand_pass pool e) Hr') as (? & ? & Hi); [lia|]. split_and!; [done..|]. auto.
Qed.

Lemma shares_input_spec tx q :
  shares_input tx q = false ↔ ∀ op, op ∈ previous <$> inputs tx → op ∈ previous <$> inputs q → False.
Proof.
  unfold shares_input. split.
  - intros Hf op (a & -> & Ha)%list_elem_of_fmap (c & Hc & Hin)%list_elem_of_fmap.
    apply Bool.not_true_iff_false in Hf. apply Hf, existsb_exists. exists a. split; [by apply list_elem_of_In|].
    apply existsb_exists. exists c. split; [by apply list_elem_of_In|]. by apply bool_decide_eq_true.
  - intros Hall. apply Bool.not_true_iff_false. intros (a & Ha & (c & Hc & Heq%bool_decide_eq_true)%existsb_exists)%existsb_exists.
    apply (Hall (previous a)); apply list_elem_of_fmap; [exists a|exists c]; by rewrite ?list_elem_of_In.
Qed.

Lemma conflict_set_spec pool tx :
  in_range pool (conflict_set pool tx) ∧ closed pool (conflict_set pool tx) ∧
  (∀ i q, pool !! i = Some q → shares_input tx q = true → i ∈ conflict_set pool tx).
Proof.
  unfold conflict_set. set (direct := positions _ _).
  assert (∀ i q, pool !! i = Some q → shares_input tx q = true → i ∈ direct) as Hd.
  { intros i q Hq Hs. apply elem_of_positions. by exists q. }
  case_bool_decide as Hnil.
  - rewrite Hnil in Hd. split_and!; [split; [apply NoDup_nil_2|done]| |done]. intros i ? ? ? ?%not_elem_of_nil. done.
  - assert (in_range pool direct) as Hr.
    { split; [apply positions_NoDup|]. apply Forall_forall. intros i (q & Hq & _)%elem_of_positions. by exists q. }
    destruct (expand_conflicts_spec (S (length pool)) pool direct Hr) as (? & ? & Hi); [lia|].
    split_and!; [done..|]. intros i q Hq Hs. by eapply Hi, Hd.
Qed.

(** ** Eviction *)

Lemma at_idxs_bytes_le pool idxs :
  in_range pool idxs → zsum (relay_bytes <$> at_idxs pool idxs) <= zsum (relay_bytes <$> pool).
Proof.
  intros [Hnd Hall]. pose proof (del_all_sum relay_bytes pool (merge_sort (flip le) idxs) (sort_desc idxs Hnd)) as Hs.
  specialize (Hs ltac:(by rewrite merge_sort_Permutation)).
  pose proof (bytes_nonneg (del_all pool (merge_sort (flip le) idxs))).
  assert (zsum (relay_bytes <$> omap (λ i, pool !! i) (merge_sort (flip le) idxs)) =
          zsum (relay_bytes <$> at_idxs pool idxs)) as Hp.
  { apply zsum_perm. unfold at_idxs. by rewrite merge_sort_Permutation. }
  lia.
Qed.

Lemma at_idxs_app pool a b : at_idxs pool (a ++ b) = at_idxs pool a ++ at_idxs pool b.
Proof. apply omap_app. Qed.

Lemma evict_walk_spec pool raw rate ranked used remove u r :
  in_range pool (remove ++ ranked.*1) →
  used = zsum (relay_bytes <$> pool) - zsum (relay_bytes <$> at_idxs pool remove) →
  evict_walk pool raw rate ranked used remove = (u, r) →
  in_range pool r ∧ u = zsum (relay_bytes <$> pool) - zsum (relay_bytes <$> at_idxs pool r).
Proof.
  revert used remove. induction ranked as [|[i ri] ranked IH]; intros used remove Hr Hu He; cbn [evict_walk] in He.
  { injection He as <- <-. cbn [fmap list_fmap] in Hr. by rewrite app_nil_r in Hr. }
  assert (in_range pool remove) as Hrem.
  { destruct Hr as [Hnd Hall]. apply NoDup_app in Hnd as (Hnd & _ & _). apply Forall_app in Hall as [Hall _]. done. }
  destruct (sat_add 64 used raw <=? _); [by injection He as <- <-|]. destruct (rate <=? ri); [by injection He as <- <-|].
  rewrite fmap_cons in Hr. cbn [fst] in Hr. rewrite cons_middle, app_assoc in Hr.
  assert (in_range pool (remove ++ [i])) as Hri.
  { destruct Hr as [Hnd Hall]. apply NoDup_app in Hnd as (Hnd & _ & _). apply Forall_app in Hall as [Hall _]. done. }
  refine (IH _ _ Hr _ He). pose proof (at_idxs_bytes_le pool (remove ++ [i]) Hri) as Hle. destruct Hri as [_ Hall]. apply Forall_app in Hall as [_ Hx].
  rewrite Forall_singleton in Hx. destruct Hx as [x Hx]. rewrite at_idxs_app.
  assert (at_idxs pool [i] = [x]) as Hat by (unfold at_idxs; simpl; by rewrite Hx). rewrite Hat, Hx. cbn [from_option].
  rewrite at_idxs_app, Hat in Hle.
  rewrite fmap_app, zsum_app in *. cbn [fmap list_fmap] in *. rewrite zsum_cons in *. unfold sat_sub.
  change (zsum []) with 0 in *. lia.
Qed.

Lemma ranked_idxs pool : (ranked_for_eviction pool).*1 ≡ₚ seq 0 (length pool).
Proof.
  unfold ranked_for_eviction. rewrite merge_sort_Permutation.
  assert (∀ (g : nat → Z) n (l : list UtxoTx), (imap (λ i _, ((n + i)%nat, g (n + i)%nat)) l).*1 = seq n (length l)) as Hseq.
  { intros g n l. revert n. induction l as [|x l IH]; intros n; [done|]. rewrite imap_cons, fmap_cons. cbn [length seq fst].
    rewrite Nat.add_0_r. f_equal. rewrite <- IH. f_equal. apply imap_ext. intros i y _. simpl. by rewrite Nat.add_succ_r. }
  by rewrite (Hseq (package_rate pool) 0%nat).
Qed.

Lemma ranked_range pool : in_range pool (ranked_for_eviction pool).*1.
Proof.
  split; [rewrite ranked_idxs; apply NoDup_seq|]. rewrite ranked_idxs. apply Forall_forall.
  intros i [_ Hi]%elem_of_seq. apply lookup_lt_is_Some. lia.
Qed.

Lemma make_byte_room_spec p tx rate r p' :
  pool_ok (utxo_mempool p) → make_byte_room p tx rate = (r, p') →
  utxo_mempool p' `sublist_of` utxo_mempool p ∧
  (r = Ok () → zsum (relay_bytes <$> utxo_mempool p') + relay_bytes tx <= MAX_MEMPOOL_BYTES).
Proof.
  intros Hok. unfold make_byte_room. rewrite sum_bytes_exact by done.
  assert (∀ a, sat_add 64 a (relay_bytes tx) <= MAX_MEMPOOL_BYTES → a + relay_bytes tx <= MAX_MEMPOOL_BYTES) as Hsat.
  { intros a. unfold sat_add, MAX_MEMPOOL_BYTES, umax. lia. }
  destruct (Z.leb_spec (sat_add 64 (zsum (relay_bytes <$> utxo_mempool p)) (relay_bytes tx)) MAX_MEMPOOL_BYTES) as [Hle|Hgt].
  { intros [= <- <-]. split; [done|]. intros _. by apply Hsat. }
  destruct (evict_walk _ _ _ _ _ _) as [u rm] eqn:He.
  apply evict_walk_spec in He as [Hr ->]; [|apply ranked_range|unfold at_idxs; simpl; lia].
  destruct (Z.ltb_spec MAX_MEMPOOL_BYTES (sat_add 64 (zsum (relay_bytes <$> utxo_mempool p) -
    zsum (relay_bytes <$> at_idxs (utxo_mempool p) rm)) (relay_bytes tx))) as [|Hfit]; intros [= <- <-].
  { split; [done|]. done. }
  split; [apply remove_idxs_sublist|]. intros _. destruct Hr as [Hnd Hall]. rewrite remove_idxs_bytes by done.
  by apply Hsat.
Qed.

Lemma worst_entry_range pool i rate f : worst_entry pool = Some (i, rate, f) → (i < length pool)%nat.
Proof.
  unfold worst_entry. set (es := imap _ _).
  assert (∀ e, e ∈ es → (e.1.1 < length pool)%nat) as Hes.
  { intros e (j & y & -> & Hy)%elem_of_lookup_imap. simpl. by eapply lookup_lt_Some. }
  destruct es as [|x es]; [done|]. intros [= He].
  assert (∀ l b, (b.1.1 < length pool)%nat → (∀ e, e ∈ l → (e.1.1 < length pool)%nat) →
    ((foldl (λ best y, if worst_less y best then y else best) b l).1.1 < length pool)%nat) as Hf.
  { induction l as [|y l IH]; intros b Hb Hl; [done|]. simpl. apply IH; [|intros e He'; apply Hl; by right].
    destruct (worst_less y b); [apply Hl; by left|done]. }
  specialize (Hf es x (Hes x ltac:(left)) (λ e He', Hes e ltac:(by right))). by rewrite He in Hf.
Qed.

Lemma make_slot_spec p tx rate r p' :
  len (utxo_mempool p) <= MAX_MEMPOOL_SIZE → make_slot p tx rate = (r, p') →
  utxo_mempool p' `sublist_of` utxo_mempool p ∧ (r = Ok () → len (utxo_mempool p') < MAX_MEMPOOL_SIZE).
Proof.
  intros Hle. unfold make_slot. destruct (Z.ltb_spec (len (utxo_mempool p)) MAX_MEMPOOL_SIZE) as [Hlt|Hge].
  { intros [= <- <-]. split; [done|]. intros _. exact Hlt. }
  destruct (worst_entry (utxo_mempool p)) as [[[i ri] fi]|] eqn:Hw.
  - destruct ((ri <? rate) || _); intros [= <- <-].
    + rewrite remove_at_pool. split; [apply delete_sublist|]. intros _.
      pose proof (worst_entry_range _ _ _ _ Hw) as Hi. apply lookup_lt_is_Some in Hi.
      unfold len in *. rewrite length_delete by done. destruct Hi as [x Hx%lookup_lt_Some]. lia.
    + split; [done|]. done.
  - intros [= <- <-]. split; [done|]. done.
Qed.

(** ** Admission *)

Lemma check_admission_ok s tx c rate :
  check_utxo_admission s tx = Ok (c, rate) →
  NoDup (previous <$> inputs tx) ∧ (tx_id tx ∉ (tx_id <$> utxo_mempool (cs_pools s))) ∧
  c = conflict_set (utxo_mempool (cs_pools s)) tx ∧
  (c = [] ∨ (sat_add 128 (sum_fees (at_idxs (utxo_mempool (cs_pools s)) c)) MIN_TX_FEE <= fee tx ∧
    sum_fees (at_idxs (utxo_mempool (cs_pools s)) c) /
      Z.max (sum_priced_bytes (at_idxs (utxo_mempool (cs_pools s)) c)) 1 < feerate tx)) ∧
  chain_id tx = cs_chain_id s ∧ verify tx = true.
Proof.
  unfold check_utxo_admission. set (pool := utxo_mempool (cs_pools s)). intros Hc.
  destruct (validate_form tx) as [[]|] eqn:Hf; [|done]. cbn [mbind result_bind] in Hc.
  destruct (chain_id tx =? cs_chain_id s) eqn:Hcid; [|done]. destruct (verify tx) eqn:Hv; [|done]. cbn [negb] in Hc.
  destruct (existsb (λ t, tx_id t =? tx_id tx) pool) eqn:Hex; [done|].
  destruct (utxo_mempool_preview s (conflict_set pool tx)) as [u a].
  destruct (apply_utxo_tx _ _ _) as [[[]|] st]; cbn [fst] in Hc; [|done]. cbn [mbind result_bind] in Hc.
  destruct (MAX_UTXO_PACKAGE_COUNT <? _); [done|]. destruct (MAX_UTXO_PACKAGE_BYTES <? _); [done|].
  destruct (negb (bool_decide (conflict_set pool tx = [])) && _) eqn:Hrbf; [done|]. injection Hc as <- <-.
  split_and!; try done; [..|by apply Z.eqb_eq].
  - unfold validate_form in Hf. destruct (len (inputs tx) =? 0); [done|]. destruct (len (outputs tx) =? 0); [done|].
    destruct (64 <? len (outputs tx)); [done|]. destruct (64 <? len (inputs tx)); [done|].
    destruct (negb (len (from_pubkey tx) =? _)); [done|]. destruct (fee tx <? _); [done|].
    destruct (duplicate_input ∅ (inputs tx)) eqn:Hd; [done|]. by eapply duplicate_input_NoDup.
  - intros (t & Ht & Hin)%list_elem_of_fmap. apply Bool.not_true_iff_false in Hex. apply Hex, existsb_exists.
    exists t. split; [by apply list_elem_of_In|]. by apply Z.eqb_eq.
  - destruct (bool_decide_reflect (conflict_set pool tx = [])) as [|Hne]; [by left|right]. cbn [negb andb] in Hrbf.
    apply orb_false_elim in Hrbf as [H1' H2']. unfold feerate. zbool. lia.
Qed.

Lemma in_pool_outpoints pool op : op ∈ pool_outpoints pool → ∃ q, q ∈ pool ∧ op ∈ previous <$> inputs q.
Proof.
  intros Hop. apply list_elem_of_In, in_concat in Hop as (l & Hl & Hop). apply list_elem_of_In in Hl, Hop.
  apply list_elem_of_fmap in Hl as (q & -> & Hq). by exists q.
Qed.

Lemma pool_ok_push kept tx :
  pool_ok kept → NoDup (previous <$> inputs tx) → (tx_id tx ∉ (tx_id <$> kept)) →
  (∀ q, q ∈ kept → shares_input tx q = false) → len kept < MAX_MEMPOOL_SIZE →
  zsum (relay_bytes <$> kept) + relay_bytes tx <= MAX_MEMPOOL_BYTES → pool_ok (kept ++ [tx]).
Proof.
  intros [Hi Hin Hc Hb] Hnd Hid Hsh Hlen Hbytes. split.
  - rewrite fmap_app. apply NoDup_app. split_and!; [done| |apply NoDup_singleton].
    intros h Hh ->%list_elem_of_singleton. done.
  - unfold pool_outpoints. rewrite fmap_app, concat_app. simpl. rewrite app_nil_r. apply NoDup_app.
    split_and!; [exact Hin| |exact Hnd]. intros op (q & Hq & Hop)%in_pool_outpoints Hop'.
    by apply (proj1 (shares_input_spec tx q) (Hsh q Hq) op).
  - unfold len in *. rewrite length_app. simpl. lia.
  - rewrite fmap_app, zsum_app. simpl. lia.
Qed.

Lemma admit_pools_spec p now blue tx rate r p' :
  pool_ok (utxo_mempool p) → NoDup (previous <$> inputs tx) → (tx_id tx ∉ (tx_id <$> utxo_mempool p)) →
  admit_pools p now blue tx (conflict_set (utxo_mempool p) tx) rate = (r, p') →
  pool_ok (utxo_mempool p') ∧
  match r with
  | Ok _ => ∃ kept, kept `sublist_of` utxo_mempool (remove_idxs p (conflict_set (utxo_mempool p) tx)) ∧
              utxo_mempool p' = kept ++ [tx]
  | Err _ => utxo_mempool p' `sublist_of` utxo_mempool (remove_idxs p (conflict_set (utxo_mempool p) tx))
  end.
Proof.
  intros Hok Hnd Hid. unfold admit_pools. destruct (conflict_set_spec (utxo_mempool p) tx) as ((Hcn & Hcr) & Hcl & Hcd).
  set (c := conflict_set (utxo_mempool p) tx) in *. set (p1 := remove_idxs p c).
  assert (pool_ok (utxo_mempool p1)) as Hok1 by (eapply pool_ok_sublist; [apply remove_idxs_sublist|done]).
  destruct (make_byte_room p1 tx rate) as [r2 p2] eqn:H2'. destruct (make_byte_room_spec _ _ _ _ _ Hok1 H2') as [Hs2 Hb2].
  assert (pool_ok (utxo_mempool p2)) as Hok2 by (by eapply pool_ok_sublist).
  destruct r2 as [[]|e]; [|intros [= <- <-]; done].
  destruct (make_slot p2 tx rate) as [r3 p3] eqn:H3'. destruct (make_slot_spec _ _ _ _ _ (pool_count _ Hok2) H3') as [Hs3 Hc3].
  assert (utxo_mempool p3 `sublist_of` utxo_mempool p1) as Hs31 by (by etrans).
  assert (pool_ok (utxo_mempool p3)) as Hok3 by (by eapply pool_ok_sublist).
  destruct r3 as [[]|e]; intros [= <- <-]; [|done].
  assert (utxo_mempool (record_first_seen p3 (tx_id tx) now blue) = utxo_mempool p3) as Hrf.
  { unfold record_first_seen. by destruct (if _ && _ then _ else _). }
  cbn [with_utxo_mempool utxo_mempool]. rewrite Hrf. split; [|by exists (utxo_mempool p3)].
  apply pool_ok_push; try done.
  - intros Hin. apply Hid. assert (utxo_mempool p3 `sublist_of` utxo_mempool p) as Hs.
    { etrans; [exact Hs31|apply remove_idxs_sublist]. }
    exact (elem_of_sublist _ _ _ Hin (fmap_sublist tx_id _ _ Hs)).
  - intros q Hq. pose proof (elem_of_sublist _ _ _ Hq Hs31) as Hq'. clear Hq. rename Hq' into Hq. apply (remove_idxs_keep _ _ _ Hcn) in Hq as (k & Hk & Hkn).
    apply Bool.not_true_iff_false. intros Hsh. by apply Hkn, (Hcd k q).
  - by apply Hc3.
  - pose proof (sublist_bytes _ _ Hs3). specialize (Hb2 eq_refl). lia.
Qed.

(** C36. The pool stays within its bounds and free of conflicts: offered any
    transaction at any time, the UTXO pool keeps transactions with distinct ids that
    spend pairwise distinct outpoints, at most [MAX_MEMPOOL_SIZE] of them and at most
    [MAX_MEMPOOL_BYTES] bytes; an accepted transaction is appended to what was kept of
    the pool, a refused one only ever leaves a part of it, and nothing outside the
    pools changes. *)
Theorem admit_utxo_keeps_pool s now tx :
  pool_ok (utxo_mempool (cs_pools s)) →
  let '(r, s') := admit_utxo_to_mempool s now tx in
  pool_ok (utxo_mempool (cs_pools s')) ∧ s' = set_pools s (cs_pools s') ∧
  match r with
  | Ok _ => ∃ kept, kept `sublist_of` utxo_mempool (cs_pools s) ∧ utxo_mempool (cs_pools s') = kept ++ [tx]
  | Err _ => utxo_mempool (cs_pools s') `sublist_of` utxo_mempool (cs_pools s)
  end.
Proof.
  intros Hok. unfold admit_utxo_to_mempool. destruct (check_utxo_admission s tx) as [[c rate]|e] eqn:Hc.
  2: { split_and!; [done|by destruct s|done]. }
  destruct (check_admission_ok _ _ _ _ Hc) as (Hnd & Hid & -> & _).
  destruct (admit_pools _ _ _ _ _ _) as [r p'] eqn:Ha. destruct (admit_pools_spec _ _ _ _ _ _ _ Hok Hnd Hid Ha) as [Hok' Hr].
  pose proof (remove_idxs_sublist (cs_pools s) (conflict_set (utxo_mempool (cs_pools s)) tx)) as Hsub.
  split_and!; [done..|]. cbn [set_pools cs_pools]. destruct r as [[]|e].
  - destruct Hr as (kept & Hk & ->). exists kept. split; [by etrans|done].
  - by etrans.
Qed.

Lemma at_idxs_fees pool idxs :
  in_range pool idxs → Forall (λ t, 0 <= fee t) pool →
  0 <= zsum (fee <$> at_idxs pool idxs) <= zsum (fee <$> pool).
Proof.
  intros [Hnd Hall] Hpos.
  pose proof (del_all_sum fee pool (merge_sort (flip le) idxs) (sort_desc idxs Hnd)) as Hs.
  specialize (Hs ltac:(by rewrite merge_sort_Permutation)).
  assert (∀ l, Forall (λ t, 0 <= fee t) l → 0 <= zsum (fee <$> l)) as Hnn.
  { intros l Hl. apply zsum_nonneg, Forall_fmap. exact Hl. }
  assert (zsum (fee <$> omap (λ i, pool !! i) (merge_sort (flip le) idxs)) = zsum (fee <$> at_idxs pool idxs)) as Hp.
  { apply zsum_perm. unfold at_idxs. by rewrite merge_sort_Permutation. }
  assert (0 <= zsum (fee <$> del_all pool (merge_sort (flip le) idxs))).
  { apply Hnn. rewrite Forall_forall in *. intros t Ht. apply Hpos.
    exact (elem_of_sublist _ _ _ Ht (del_all_sublist pool (merge_sort (flip le) idxs))). }
  split; [|lia]. apply Hnn. rewrite Forall_forall in *.
  intros t (i & _ & Hi)%list_elem_of_omap. by apply Hpos, list_elem_of_lookup_2 with i.
Qed.

(** Replacement by fee: when an admitted transaction conflicts with the pool, the
    displaced set holds every transaction that shares an input with it and, with a
    transaction, everything that spends its outputs; the incoming fee is at least the
    fees of the whole set plus [MIN_TX_FEE], at a strictly higher rate; and none of the
    set is left in the pool.  Assumed: the fees in the pool are not negative and
    together, with the increment, fit their [u128]. *)
Theorem replacement_pays s now tx s' :
  pool_ok (utxo_mempool (cs_pools s)) →
  Forall (λ t, 0 <= fee t) (utxo_mempool (cs_pools s)) →
  zsum (fee <$> utxo_mempool (cs_pools s)) + MIN_TX_FEE <= U128_MAX →
  admit_utxo_to_mempool s now tx = (Ok (), s') →
  let pool := utxo_mempool (cs_pools s) in
  ∃ c, (∀ i q, pool !! i = Some q → shares_input tx q = true → i ∈ c) ∧ closed pool c ∧
    (c ≠ [] → zsum (fee <$> at_idxs pool c) + MIN_TX_FEE <= fee tx ∧
      zsum (fee <$> at_idxs pool c) / Z.max (sum_priced_bytes (at_idxs pool c)) 1 < feerate tx) ∧
    ∀ q, q ∈ utxo_mempool (cs_pools s') → q = tx ∨ ∃ k, pool !! k = Some q ∧ (k ∉ c).
Proof.
  intros Hok Hpos Hmax Hadm pool. unfold admit_utxo_to_mempool in Hadm.
  destruct (check_utxo_admission s tx) as [[c rate]|e] eqn:Hc; [|done].
  destruct (check_admission_ok _ _ _ _ Hc) as (Hnd & Hid & -> & Hrbf & _).
  destruct (admit_pools _ _ _ _ _ _) as [r p'] eqn:Ha. destruct (admit_pools_spec _ _ _ _ _ _ _ Hok Hnd Hid Ha) as [_ Hr].
  injection Hadm as -> <-. destruct Hr as (kept & Hk & Hp').
  destruct (conflict_set_spec pool tx) as (Hrange & Hcl & Hcd). exists (conflict_set pool tx). split_and!; [done..| |].
  - intros Hne. destruct Hrbf as [|[Hfee Hrate]]; [done|].
    pose proof (at_idxs_fees pool _ Hrange Hpos) as Hle. fold pool in Hfee, Hrate, Hmax.
    assert (sum_fees (at_idxs pool (conflict_set pool tx)) = zsum (fee <$> at_idxs pool (conflict_set pool tx))) as Heq.
    { apply wrap_small. unfold in_width. change (umax 128) with U128_MAX. unfold MIN_TX_FEE in Hmax. lia. }
    rewrite Heq in Hfee, Hrate. split; [|exact Hrate]. rewrite sat_add_exact in Hfee; [lia|].
    change (umax 128) with U128_MAX. lia.
  - cbn [set_pools cs_pools]. intros q Hq. rewrite Hp' in Hq. apply elem_of_app in Hq as [Hq|Hq].
    + right. pose proof (elem_of_sublist _ _ _ Hq Hk) as Hq'. by apply (remove_idxs_keep _ _ _ (proj1 Hrange)).
    + left. by apply list_elem_of_singleton in Hq.
Qed.

(** ** Templates *)

Lemma try_utxo_strict cid media l fees tx ua :
  chain_id tx = cid → try_utxo media (l_utxo l, l_accounts l) tx = Some ua →
  ∃ fees', strict_utxo cid media (l, fees) tx = Ok (set_utxo l ua.1 ua.2, fees').
Proof.
  intros Hcid Ht. unfold try_utxo in Ht. unfold strict_utxo, ledger_utxo_tx. cbn [fst snd] in *.
  rewrite (proj2 (Z.eqb_eq _ _) Hcid). cbn [negb].
  destruct (apply_utxo_tx _ tx media) as [[[]|] st]; [|done]. injection Ht as <-. by eexists.
Qed.

Lemma select_fold cid media l fees ua out cands :
  Forall (λ t, chain_id t = cid) cands → (l_utxo l, l_accounts l) = ua →
  ∃ sel ua' l' fees', foldl (select_step media) (ua, out) cands = (ua', out ++ sel) ∧ sel `sublist_of` cands ∧
    try_fold (strict_utxo cid media) (l, fees) sel = Ok (l', fees') ∧ (l_utxo l', l_accounts l') = ua'.
Proof.
  revert l fees ua out. induction cands as [|tx cands IH]; intros l fees ua out Hcid Hua.
  { exists [], ua, l, fees. split_and!; [by rewrite app_nil_r|done..]. }
  apply Forall_cons in Hcid as [Hc Hcid]. cbn [foldl]. unfold select_step at 2. cbn [fst snd].
  destruct (try_utxo media ua tx) as [ua1|] eqn:Ht.
  - subst ua. destruct (try_utxo_strict cid media l fees tx ua1 Hc Ht) as [fees1 Hst].
    destruct (IH (set_utxo l ua1.1 ua1.2) fees1 ua1 (out ++ [tx]) Hcid) as (sel & ua' & l' & fees' & Hf & Hs & Htf & Hl').
    { by destruct ua1. }
    exists (tx :: sel), ua', l', fees'. rewrite Hf. split_and!; [by rewrite <- app_assoc|by constructor| |done].
    cbn [try_fold]. by rewrite Hst.
  - destruct (IH l fees ua out Hcid Hua) as (sel & ua' & l' & fees' & Hf & Hs & Htf & Hl').
    exists sel, ua', l', fees'. split_and!; [done|by constructor|done..].
Qed.

(** A template is valid: the UTXO transactions selected for a block are among the
    candidates, each at most as often, and the strict application that admits blocks
    accepts them in the selected order on the live ledger. *)
Theorem template_applies s fees cands :
  Forall (λ t, chain_id t = cs_chain_id s) cands →
  select_valid_utxo_txs s cands ⊆+ cands ∧
  is_ok (try_fold (strict_utxo (cs_chain_id s) (selected_tip_blue_score s)) (cs_ledger s, fees)
    (select_valid_utxo_txs s cands)) = true.
Proof.
  intros Hc. unfold select_valid_utxo_txs. set (l := merge_sort template_le cands).
  assert (l ≡ₚ cands) as Hp by apply merge_sort_Permutation.
  destruct (select_fold (cs_chain_id s) (selected_tip_blue_score s) (cs_ledger s) fees
    (l_utxo (cs_ledger s), l_accounts (cs_ledger s)) [] l) as (sel & ua' & l' & fees' & Hf & Hs & Ht & _); [|done|].
  { by rewrite Hp. }
  rewrite Hf. cbn [snd app]. split; [|by rewrite Ht]. rewrite <- Hp. by apply sublist_submseteq.
Qed.
End pool.

(** ** A concrete pool

    A parent paying the floor, a child paying five times that, and a payment that
    replaces both. *)
Module PoolExample.
#[export] Instance ex_crypto : Crypto := Toy.easy_crypto.
#[export] Instance ex_dual : DualCrypto := LedgerExample.toy_dual.
#[export] Instance ex_body : BodyCodec := LedgerExample.toy_body.
#[export] Instance ex_env : NodeEnv :=
  {| node_winterfell := {| proof_parses _ := true; winterfell_verify _ _ _ := true |};
     lab_easy := false; pinned_digest := None; ser_block_len _ := Some 500; hex_err := "";
     dag_keys dag := elements (dom dag) |}.
#[export] Instance ex_pool_env : PoolEnv :=
  {| public_mode := false; some_key m := head (elements (dom m)) |}.
#[export] Instance ex_laws : UtxoCodecLaws := UtxoExample.toy_codec_laws.

Definition alice : bytes := [1; 2].
Definition bob_addr : string := hash_to_address [3; 4].
Definition fund : OutPoint := {| txid := 9; vout := 0 |}.
Definition start : Ledger :=
  {| l_accounts := ∅; minted_supply := 50000; fees_burned := 0; treasury := 0;
     l_registry := RegistryState_default; staked := ∅;
     l_utxo := {| entries := {[ fund := {| value := 50000; predicate := PayToAddress (hash_to_address alice);
                                          created_blue := 0 |} ]}; spent := ∅ |} |}.
Definition s0 : ChainState := seeded start.
Definition built (r : result UtxoTx) : UtxoTx :=
  let tx := match r with Ok tx => tx | Err _ => payment_body alice fund 0 0 0 0 [] end in
  match sign tx alice [] with Ok tx => tx | Err _ => tx end.
Definition parent : UtxoTx := built (payment alice fund 50000 bob_addr 20000 0 CHAIN_ID 0 0).
Definition child : UtxoTx :=
  built (payment alice {| txid := tx_hash parent; vout := 1 |} 29000 bob_addr 10000 5000 CHAIN_ID 0 0).
Definition replacement : UtxoTx := built (payment alice fund 50000 bob_addr 30000 9000 CHAIN_ID 0 0).
Definition admitted (s : ChainState) (tx : UtxoTx) : ChainState := (admit_utxo_to_mempool s 7 tx).2.
Definition s2 : ChainState := admitted (admitted s0 parent) child.
Definition s3 : ChainState := admitted s2 replacement.

Lemma empty_ok : pool_ok (utxo_mempool (cs_pools s0)).
Proof. split; [apply NoDup_nil_2|apply NoDup_nil_2|vm_compute; discriminate|vm_compute; discriminate]. Qed.
Lemma s2_ok : pool_ok (utxo_mempool (cs_pools s2)).
Proof.
  split; [apply (bool_decide_unpack _); vm_compute; exact I|apply (bool_decide_unpack _); vm_compute; exact I|..];
    vm_compute; discriminate.
Qed.
Lemma replaced : admit_utxo_to_mempool s2 7 replacement = (Ok (), s3).
Proof.
  assert ((admit_utxo_to_mempool s2 7 replacement).1 = Ok ()) as Hok by (vm_compute; reflexivity).
  unfold s3, admitted. exact (outcome _ _ Hok).
Qed.
End PoolExample.

Section witnesses.
#[local] Existing Instances PoolExample.ex_crypto PoolExample.ex_dual PoolExample.ex_body PoolExample.ex_env
  PoolExample.ex_pool_env PoolExample.ex_laws.

(** Template selection does not see packages, although its comment calls it
    CPFP-aware: candidates are ranked by their own fee rate and tried once, so a child
    that pays more than its parent is tried first, refused for its unknown input and
    dropped.  The pool below accepted both, they apply in order, and only the parent
    is selected. *)
Theorem template_drops_child :
  let s := PoolExample.s2 in let pool := utxo_mempool (cs_pools s) in
  pool = [PoolExample.parent; PoolExample.child] ∧
  is_ok (try_fold (strict_utxo (cs_chain_id s) (selected_tip_blue_score s)) (cs_ledger s, 0) pool) = true ∧
  select_valid_utxo_txs s pool = [PoolExample.parent].
Proof. split_and!; vm_compute; reflexivity. Qed.

Lemma admit_utxo_keeps_pool_witness : pool_ok (utxo_mempool (cs_pools (PoolExample.admitted PoolExample.s0 PoolExample.parent))).
Proof.
  pose proof (admit_utxo_keeps_pool PoolExample.s0 7 PoolExample.parent PoolExample.empty_ok) as Hp.
  unfold PoolExample.admitted. destruct (admit_utxo_to_mempool PoolExample.s0 7 PoolExample.parent) as [r s'].
  exact (proj1 Hp).
Defined.

Lemma replacement_pays_witness :
  ∃ c, closed (utxo_mempool (cs_pools PoolExample.s2)) c ∧ 0%nat ∈ c.
Proof.
  destruct (replacement_pays PoolExample.s2 7 PoolExample.replacement PoolExample.s3 PoolExample.s2_ok)
    as (c & Hd & Hc & _).
  - apply (bool_decide_unpack _). vm_compute. exact I.
  - vm_compute. discriminate.
  - exact PoolExample.replaced.
  - exists c. split; [exact Hc|]. apply (Hd 0%nat PoolExample.parent); vm_compute; reflexivity.
Defined.

Lemma template_applies_witness :
  select_valid_utxo_txs PoolExample.s2 [PoolExample.parent; PoolExample.child] ⊆+ [PoolExample.parent; PoolExample.child].
Proof.
  apply (proj1 (template_applies PoolExample.s2 0 [PoolExample.parent; PoolExample.child]
    ltac:(apply (bool_decide_unpack _); vm_compute; exact I))).
Defined.
End witnesses.
