(* ===== verification/FeeEstimate.v ===== *)
(** * Fee estimates and nonce chains

    [estimate_fee], [current_min_relay_fee] and [mempool_package_stats] of
    [src/src/lib.rs], with the nonce walks of the account pool.  A walk that does not
    return within its fuel is [None]; the theorems say when fuel suffices and when none
    does. *)

From S2P Require Import Prelude Genesis Crypto Address Predicate Utxo UtxoTx Registry Custody Block Ledger.
From S2P Require Import Dag Ghostdag FeeHistory Stark Superproof State Chain ChainInv Mempool.

Abbreviation ByNonce := (gmap Z TransparentTx).

(** [mempool_index_by_sender]: a later transfer replaces one with its nonce. *)
Definition index_sender (m : gmap string ByNonce) (tx : TransparentTx) : gmap string ByNonce :=
  <[tt_from tx := <[tt_nonce tx := tx]> (default ∅ (m !! tt_from tx))]> m.
Definition mempool_index_by_sender (transfers : list TransparentTx) : gmap string ByNonce := foldl index_sender ∅ transfers.

(** [contiguous_nonce_chain]. *)
Fixpoint contiguous_nonce_chain (fuel : nat) (by_nonce : ByNonce) (n : Z) : option (list TransparentTx) :=
  match fuel with
  | O => None
  | S fuel =>
      match by_nonce !! n with
      | None => Some []
      | Some tx => cons tx <$> contiguous_nonce_chain fuel by_nonce (sat_add 64 n 1)
      end
  end.

(** [ancestor_package]; the inner [option] is the source's. *)
Fixpoint ancestor_loop_to (fuel : nat) (by_nonce : ByNonce) (target n : Z) : option (option (list TransparentTx)) :=
  match fuel with
  | O => None
  | S fuel =>
      if target <? n then Some (Some []) else
      match by_nonce !! n with
      | None => Some None
      | Some tx => option_map (option_map (cons tx)) (ancestor_loop_to fuel by_nonce target (sat_add 64 n 1))
      end
  end.
Definition ancestor_package (fuel : nat) (by_nonce : ByNonce) (tip target : Z) : option (option (list TransparentTx)) :=
  if target <? tip then Some None else ancestor_loop_to fuel by_nonce target tip.

(** [cmp_package_feerate]. *)
Definition cmp_package_feerate (fee_a len_a fee_b len_b : Z) : comparison :=
  sat_mul 128 fee_a (Z.max len_b 1) ?= sat_mul 128 fee_b (Z.max len_a 1).

(** One prefix of a chain: the running fee, the length so far and the best. *)
Definition prefix_step (st : Z * Z * (Z * Z)) (tx : TransparentTx) : Z * Z * (Z * Z) :=
  let '(running, n, (best_fee, best_len)) := st in
  let running := sat_add 128 running (tt_fee tx) in
  let n := n + 1 in
  let better := match cmp_package_feerate running n best_fee best_len with
                | Gt => true | Eq => best_fee <? running | Lt => false
                end in
  (running, n, if better then (running, n) else (best_fee, best_len)).

(** [FeeEstimate] without the three constant targets. *)
Record FeeEstimate := {
  fe_low : Z;
  fe_medium : Z;
  fe_high : Z;
  fe_mempool_txs : Z;
  fe_package_count : Z;
  fe_best_package_fee : Z;
}.

Section fees.
Context `{!Crypto, !DualCrypto, !BodyCodec, !NodeEnv}.

(** [mempool_package_stats]; [senders] is the order in which the map yields them. *)
Definition sender_step (s : ChainState) (fuel : nat) (by_sender : gmap string ByNonce)
    (st : option (Z * (Z * Z))) (from : string) : option (Z * (Z * Z)) :=
  '(count, best) ← st;
  chain ← contiguous_nonce_chain fuel (default ∅ (by_sender !! from)) (account_nonce (cs_ledger s) from);
  if bool_decide (chain = []) then Some (count, best) else
  Some (count + 1, (foldl prefix_step (0, 0, best) chain).2).
Definition mempool_package_stats (s : ChainState) (senders : list string) : option (Z * Z) :=
  let pool := transparent_mempool (cs_pools s) in
  '(count, best) ← foldl (sender_step s (S (length pool)) (mempool_index_by_sender pool)) (Some (0, (0, 1))) senders;
  Some (count, best.1).

Definition typical_bytes : Z := PQ_PUBLIC_KEY_SIZE + PQ_SIGNATURE_SIZE + 512.
Definition typical_signed_tx_min_fee : Z := min_relay_fee_for_bytes typical_bytes.

(** [iter().min()]. *)
Definition zmin_opt (l : list Z) : option Z := match l with [] => None | x :: l => Some (foldl Z.min x l) end.
Definition raised (hot full : bool) (fees : list Z) (min_fee : Z) : Z :=
  if hot || full then
    match zmin_opt fees with
    | Some f => Z.max min_fee (if full then sat_add 128 f 1 else f)
    | None => min_fee
    end
  else min_fee.
(** [current_min_relay_fee]. *)
Definition current_min_relay_fee (s : ChainState) : Z :=
  let floor := typical_signed_tx_min_fee in
  let acct := tt_fee <$> transparent_mempool (cs_pools s) in
  let utxo := fee <$> utxo_mempool (cs_pools s) in
  let is_full (l : list Z) := MAX_MEMPOOL_SIZE <=? len l in
  let is_hot (l : list Z) := MAX_MEMPOOL_SIZE * 3 <=? len l * 4 in
  if negb (is_full utxo) && negb (is_full acct) && negb (is_hot utxo) && negb (is_hot acct) then floor else
  let min_fee := raised (is_hot acct) (is_full acct) acct floor in
  let min_fee := raised (is_hot utxo) (is_full utxo) utxo min_fee in
  Z.max min_fee floor.

(** The percentile of the pending fees. *)
Definition mempool_pick (s : ChainState) (floor pct : Z) : option Z :=
  let fees := merge_sort Z.le ((tt_fee <$> transparent_mempool (cs_pools s)) ++ (fee <$> utxo_mempool (cs_pools s))) in
  if bool_decide (fees = []) then None else
  Some (Z.max (default 0 (fees !! Z.to_nat (sat_sub (len fees) 1 * pct / 100))) floor).
(** Transfers waiting longer than the target. *)
Definition waiting (s : ChainState) (target : Z) : list Point :=
  let late (id fee bytes : Z) :=
    seen ← tx_first_seen_blue (cs_pools s) !! id;
    if target <? sat_sub (selected_tip_blue_score s) seen then Some (fee / Z.max bytes 1, false) else None in
  omap (λ tx, late (tt_tx_hash tx) (tt_fee tx) (tt_relay_bytes tx)) (transparent_mempool (cs_pools s)) ++
  omap (λ tx, late (tx_id tx) (fee tx) (relay_bytes tx)) (utxo_mempool (cs_pools s)).
Definition tier (s : ChainState) (floor target pct : Z) : Z :=
  match estimate_for_target_with_extra (fee_history (cs_pools s)) target (waiting s target) with
  | Some rate => Z.max (sat_mul 128 rate (Z.max typical_bytes 1)) floor
  | None => default floor (mempool_pick s floor pct)
  end.
(** [estimate_fee]. *)
Definition estimate_fee (s : ChainState) (senders : list string) : option FeeEstimate :=
  let floor := current_min_relay_fee s in
  '(package_count, best_package_fee) ← mempool_package_stats s senders;
  let low := tier s floor FEE_TARGET_LOW_BLUES 10 in
  let medium := tier s floor FEE_TARGET_MEDIUM_BLUES 50 in
  let high := tier s floor FEE_TARGET_HIGH_BLUES 90 in
  let medium := if medium <? low then low else medium in
  let high := if high <? medium then medium else high in
  Some {| fe_low := low; fe_medium := medium; fe_high := high;
          fe_mempool_txs := len (transparent_mempool (cs_pools s)) + len (utxo_mempool (cs_pools s));
          fe_package_count := package_count; fe_best_package_fee := best_package_fee |}.

(** ** Nonce walks *)

Lemma index_nonces txs from n tx :
  default ∅ (mempool_index_by_sender txs !! from) !! n = Some tx → tx ∈ txs ∧ tt_nonce tx = n ∧ tt_from tx = from.
Proof.
  unfold mempool_index_by_sender. induction txs as [|t txs IH] using rev_ind; [done|].
  rewrite foldl_app. cbn [foldl]. unfold index_sender at 1. destruct (decide (tt_from t = from)) as [<-|Hne].
  - rewrite lookup_insert_eq. cbn [default from_option id]. intros [[<- <-]|[_ Hl]]%lookup_insert_Some; [set_solver|].
    specialize (IH Hl). set_solver.
  - rewrite lookup_insert_ne by done. intros Hl. specialize (IH Hl). set_solver.
Qed.

Lemma index_size txs from : (size (default ∅ (mempool_index_by_sender txs !! from) : ByNonce) <= length txs)%nat.
Proof.
  unfold mempool_index_by_sender. induction txs as [|t txs IH] using rev_ind; [cbn [foldl]; rewrite lookup_empty; cbn [default from_option id]; rewrite map_size_empty; simpl; lia|].
  rewrite foldl_app, length_app. cbn [foldl length]. unfold index_sender at 1. destruct (decide (tt_from t = from)) as [<-|Hne].
  - rewrite lookup_insert_eq. set (m := default ∅ (foldl index_sender ∅ txs !! tt_from t) : ByNonce) in *. clearbody m.
    cbn [default from_option id]. rewrite map_size_insert. destruct (m !! tt_nonce t); cbn [id]; lia.
  - rewrite lookup_insert_ne by done. lia.
Qed.

(** The keys at or above a nonce. *)
Definition above (by_nonce : ByNonce) (n : Z) : ByNonce := filter (λ kv, n <= kv.1) by_nonce.

Lemma above_step (by_nonce : ByNonce) n tx : by_nonce !! n = Some tx → (size (above by_nonce (n + 1)) < size (above by_nonce n))%nat.
Proof.
  intros Hn. rewrite <- !size_dom. apply subset_size. split.
  - intros k. rewrite !elem_of_dom. intros [t [Ht Hk]%map_lookup_filter_Some]. simpl in Hk. exists t. apply map_lookup_filter_Some.
    simpl. split; [done|lia].
  - intros Hsub. specialize (Hsub n). rewrite !elem_of_dom in Hsub. destruct Hsub as [t [_ Hk]%map_lookup_filter_Some]; [|simpl in Hk; lia].
    exists tx. by apply map_lookup_filter_Some.
Qed.

(** Fuel of one more than the queued transfers is enough, unless the last nonce is
    queued. *)
Lemma nonce_chain_total fuel by_nonce n :
  (∀ k, k ∈ dom by_nonce → k < U64_MAX) → (size (above by_nonce n) < fuel)%nat → is_Some (contiguous_nonce_chain fuel by_nonce n).
Proof.
  intros Hmax. revert n. induction fuel as [|fuel IH]; intros n Hsz; [lia|]. cbn [contiguous_nonce_chain].
  destruct (by_nonce !! n) as [tx|] eqn:Hn; [|by eexists].
  assert (n < U64_MAX) as Hlt by (apply Hmax; by eapply elem_of_dom_2).
  assert (sat_add 64 n 1 = n + 1) as -> by (unfold sat_add, umax in *; lia).
  pose proof (above_step by_nonce n tx Hn). destruct (IH (n + 1)) as [l ->]; [lia|]. by eexists.
Qed.

(** The nonce walks of the account pool end exactly when the last nonce is out of
    reach: if every queued nonce is below [u64::MAX] then walking from any account
    nonce returns, with one step more than there are queued transfers; but from a
    queued [u64::MAX] neither walk returns, whatever the fuel, since the counter
    saturates and the same transfer is found again. *)
Theorem nonce_walks (by_nonce : ByNonce) n :
  ((∀ k, k ∈ dom by_nonce → k < U64_MAX) → is_Some (contiguous_nonce_chain (S (size by_nonce)) by_nonce n)) ∧
  (U64_MAX ∈ dom by_nonce → ∀ fuel, contiguous_nonce_chain fuel by_nonce U64_MAX = None ∧
     ancestor_package fuel by_nonce U64_MAX U64_MAX = None).
Proof.
  split.
  - intros Hmax. apply nonce_chain_total; [done|]. apply Nat.lt_succ_r. rewrite <- !size_dom. apply subseteq_size.
    intros k. rewrite !elem_of_dom. intros [t [Ht _]%map_lookup_filter_Some]. by exists t.
  - intros [tx Htx]%elem_of_dom fuel. unfold ancestor_package. rewrite (proj2 (Z.ltb_ge _ _)) by lia.
    assert (sat_add 64 U64_MAX 1 = U64_MAX) as Hsat by done.
    induction fuel as [|fuel [IH1 IH2]]; [done|]. cbn [contiguous_nonce_chain ancestor_loop_to].
    rewrite (proj2 (Z.ltb_ge _ _)), Htx, Hsat, IH1, IH2 by lia. done.
Qed.

(** ** Tiers *)

Lemma raised_ge hot full fees m : m <= raised hot full fees m.
Proof. unfold raised. destruct (hot || full); [|lia]. destruct (zmin_opt fees); lia. Qed.

Lemma relay_floor s : typical_signed_tx_min_fee <= current_min_relay_fee s.
Proof. unfold current_min_relay_fee. destruct (_ && _); lia. Qed.

Lemma tier_floor s floor target pct : floor <= tier s floor target pct.
Proof.
  unfold tier. destruct (estimate_for_target_with_extra _ _ _); [lia|]. unfold mempool_pick. case_bool_decide; simpl; lia.
Qed.

Lemma package_stats_total s senders :
  Forall (λ tx, tt_nonce tx < U64_MAX) (transparent_mempool (cs_pools s)) → is_Some (mempool_package_stats s senders).
Proof.
  intros Hp. unfold mempool_package_stats. set (pool := transparent_mempool (cs_pools s)) in *. set (ix := mempool_index_by_sender pool).
  assert (∀ st, is_Some st → is_Some (foldl (sender_step s (S (length pool)) ix) st senders)) as Hf.
  { induction senders as [|from senders IH]; intros st [[c b] ->]; [by eexists|]. cbn [foldl]. apply IH. unfold sender_step.
    cbn [mbind option_bind].
    destruct (nonce_chain_total (S (length pool)) (default ∅ (ix !! from)) (account_nonce (cs_ledger s) from)) as [l ->].
    - intros k [tx Htx]%elem_of_dom. apply index_nonces in Htx as (Htx & <- & _). rewrite Forall_forall in Hp. by apply Hp.
    - apply Nat.lt_succ_r. etrans; [|apply (index_size pool from)]. rewrite <- !size_dom. apply subseteq_size.
      intros k. rewrite !elem_of_dom. intros [t [Ht _]%map_lookup_filter_Some]. by exists t.
    - cbn [mbind option_bind]. case_bool_decide; by eexists. }
  destruct (Hf (Some (0, (0, 1)))) as [[c b] ->]; [by eexists|]. by eexists.
Qed.

(** Fee estimates are returned and ordered: as long as no pending account transfer
    has the last nonce, an estimate is produced, whatever the order of the senders; the
    relay floor is at least the price of a typical signed transfer, and the tiers are
    above it and monotonic, from the slowest target to the fastest. *)
Theorem estimate_fee_tiers s senders :
  Forall (λ tx, tt_nonce tx < U64_MAX) (transparent_mempool (cs_pools s)) →
  ∃ e, estimate_fee s senders = Some e ∧
    typical_signed_tx_min_fee <= current_min_relay_fee s <= fe_low e ∧ fe_low e <= fe_medium e <= fe_high e.
Proof.
  intros Hp. destruct (package_stats_total s senders Hp) as [[c b] Hs]. unfold estimate_fee. rewrite Hs. cbn [mbind option_bind].
  eexists. split; [reflexivity|]. cbn [fe_low fe_medium fe_high].
  pose proof (relay_floor s). pose proof (tier_floor s (current_min_relay_fee s) FEE_TARGET_LOW_BLUES 10).
  repeat match goal with |- context [if ?a <? ?b then _ else _] => destruct (Z.ltb_spec a b) end; lia.
Qed.
End fees.

Section witnesses.
#[local] Existing Instances ChainExample.ex_crypto ChainExample.ex_dual ChainExample.ex_body ChainExample.ex_env.
Lemma estimate_fee_tiers_witness : ∃ e, estimate_fee ChainState_new [] = Some e ∧ fe_low e <= fe_medium e.
Proof.
  destruct (estimate_fee_tiers ChainState_new [] (Forall_nil_2 _)) as (e & He & _ & Hm & _). exists e. split; [exact He|exact Hm].
Defined.
End witnesses.
