(* ===== verification/AccountPool.v ===== *)
(** * The account pool

    [admit_transparent_to_mempool] of [src/src/lib.rs] with its balance check, package
    scores, replacement and eviction, and the template [select_valid_block_txs].
    [ACCOUNT_PEER_TRANSFERS] turns admission off; the code behind the switch is
    [admit_transparent_enabled].  A nonce walk that does not return within its fuel is
    [None]. *)

From S2P Require Import Prelude Genesis Crypto Address Predicate Utxo UtxoTx Registry Custody Block Ledger.
From S2P Require Import Dag Ghostdag FeeHistory Stark Superproof State Chain ChainInv Mempool FeeEstimate.

Definition MAX_MEMPOOL_PACKAGE_NONCES : Z := 25.

Definition with_transparent_mempool (p : Pools) (l : list TransparentTx) : Pools :=
  {| transparent_mempool := l; utxo_mempool := utxo_mempool p;
     registry_mempool := registry_mempool p; custody_mempool := custody_mempool p;
     tx_first_seen_ms := tx_first_seen_ms p; tx_first_seen_blue := tx_first_seen_blue p;
     fee_history := fee_history p |}.

Section account_pool.
Context `{!Crypto, !DualCrypto, !BodyCodec, !NodeEnv, !PoolEnv}.

(** ** Packages *)

Definition same_slot (from : string) (n : Z) (t : TransparentTx) : bool :=
  bool_decide (tt_from t = from) && (tt_nonce t =? n).

(** [descendant_package_fees]. *)
Fixpoint descendant_package_fees (fuel : nat) (pool : list TransparentTx) (from : string) (n total : Z) : option Z :=
  match fuel with
  | O => None
  | S fuel =>
      match List.find (same_slot from n) pool with
      | Some t => descendant_package_fees fuel pool from (sat_add 64 n 1) (sat_add 128 total (tt_fee t))
      | None => Some total
      end
  end.

(** The run of queued nonces from [n] on: fees and bytes. *)
Fixpoint run_score (fuel : nat) (by_nonce : ByNonce) (n total bytes : Z) : option (Z * Z) :=
  match fuel with
  | O => None
  | S fuel =>
      match by_nonce !! n with
      | Some t => run_score fuel by_nonce (sat_add 64 n 1) (sat_add 128 total (tt_fee t)) (sat_add 64 bytes (tt_relay_bytes t))
      | None => Some (total, bytes)
      end
  end.
(** [descendant_package_score]. *)
Definition descendant_package_score (fuel : nat) (tx : TransparentTx) (by_sender : gmap string ByNonce) : option (Z * Z) :=
  let alone := (tt_fee tx, Z.max (tt_relay_bytes tx) 1) in
  match by_sender !! tt_from tx with
  | None => Some alone
  | Some by_nonce =>
      '(total, bytes) ← run_score fuel by_nonce (tt_nonce tx) 0 0;
      Some (if bytes =? 0 then alone else (total, bytes))
  end.

(** The descendants in [incoming_package_score]: the transfer itself is skipped. *)
Fixpoint descendants_score (fuel : nat) (own : Z) (by_nonce : ByNonce) (n total bytes : Z) : option (Z * Z) :=
  match fuel with
  | O => None
  | S fuel =>
      match by_nonce !! n with
      | Some t =>
          if tt_nonce t =? own then descendants_score fuel own by_nonce (sat_add 64 n 1) total bytes
          else descendants_score fuel own by_nonce (sat_add 64 n 1) (sat_add 128 total (tt_fee t))
                 (sat_add 64 bytes (tt_relay_bytes t))
      | None => Some (total, bytes)
      end
  end.
(** [incoming_package_score]. *)
Definition incoming_package_score (fuel : nat) (tx : TransparentTx) (pool : list TransparentTx) (tip : Z) : option (Z * Z) :=
  let by_sender := index_sender (mempool_index_by_sender pool) tx in
  let by_nonce := default ∅ (by_sender !! tt_from tx) in
  pkg ← ancestor_package fuel by_nonce tip (tt_nonce tx);
  match pkg with
  | Some pkg =>
      let total := wrap 128 (zsum (tt_fee <$> pkg)) in
      let bytes := wrap 64 (zsum (tt_relay_bytes <$> pkg)) in
      '(total, bytes) ← descendants_score fuel (tt_nonce tx) by_nonce (sat_add 64 (tt_nonce tx) 1) total bytes;
      Some (total, Z.max bytes 1)
  | None => descendant_package_score fuel tx by_sender
  end.

(** ** Admission *)

(** Debits along a package. *)
Definition debit_step (bal : Z) (t : TransparentTx) : result Z :=
  need ← ok_or (checked_add 128 (tt_amount t) (tt_fee t)) "amount+fee overflow";
  fail_if bal <? need as "Insufficient balance";
  Ok (bal - need).
(** [mempool_balance_precheck]. *)
Definition mempool_balance_precheck (fuel : nat) (s : ChainState) (tx : TransparentTx) : option (result unit) :=
  let mine := List.filter (λ t, bool_decide (tt_from t = tt_from tx)) (transparent_mempool (cs_pools s)) in
  let by_nonce : ByNonce := foldl (λ m t, <[tt_nonce t := t]> m) ∅ (mine ++ [tx]) in
  pkg ← ancestor_package fuel by_nonce (account_nonce (cs_ledger s) (tt_from tx)) (tt_nonce tx);
  Some (_ ← try_fold debit_step (account_balance (cs_ledger s) (tt_from tx)) (default [tx] pkg); Ok ()).

(** [min_by] over the entries' descendant packages: index, fee, bytes. *)
Definition package_gt (a b : nat * Z * Z) : bool :=
  match cmp_package_feerate a.1.2 a.2 b.1.2 b.2 with
  | Gt => true
  | Lt => false
  | Eq => if a.1.2 =? b.1.2 then Nat.ltb b.1.1 a.1.1 else b.1.2 <? a.1.2
  end.
Definition lowest_package (fuel : nat) (pool : list TransparentTx) (by_sender : gmap string ByNonce)
    : option (option (nat * Z * Z)) :=
  scores ← mapM (λ t, descendant_package_score fuel t by_sender) pool;
  Some (match imap (λ i sc, (i, sc.1, sc.2)) scores with
        | [] => None
        | x :: l => Some (foldl (λ best e, if package_gt best e then e else best) x l)
        end).
Definition outbids (incoming lowest : Z * Z) : bool :=
  match cmp_package_feerate incoming.1 incoming.2 lowest.1 lowest.2 with
  | Gt => true
  | Eq => lowest.1 <? incoming.1
  | Lt => false
  end.

Definition pool_bytes (pool : list TransparentTx) : Z := wrap 64 (zsum (tt_relay_bytes <$> pool)).

(** The byte budget.  [n] bounds the evictions; [fuel] the nonce walks, over the index
    taken before the loop. *)
Fixpoint account_byte_room (n fuel : nat) (by_sender : gmap string ByNonce) (incoming : Z * Z) (bytes : Z)
    (pool : list TransparentTx) : option (result unit * list TransparentTx) :=
  let full := Some (Err "Transparent mempool byte budget exceeded", pool) in
  if sat_add 64 (pool_bytes pool) bytes <=? MAX_MEMPOOL_BYTES then Some (Ok (), pool) else
  match n with
  | O => full
  | S n =>
      lowest ← lowest_package fuel pool by_sender;
      match lowest with
      | None => full
      | Some (i, fee, len) =>
          if outbids incoming (fee, len) then account_byte_room n fuel by_sender incoming bytes (delete i pool) else full
      end
  end.

(** The checks before the pool is touched. *)
Definition check_transparent_admission (fuel : nat) (s : ChainState) (tx : TransparentTx) : option (result unit) :=
  let pool := transparent_mempool (cs_pools s) in
  let tip := account_nonce (cs_ledger s) (tt_from tx) in
  let depth := wrap 64 (tt_nonce tx - tip + 1) in
  let relay_floor := current_min_relay_fee s in
  let early : result unit :=
    _ ← tt_validate_form tx;
    fail_if negb (tt_chain_id tx =? cs_chain_id s) as "Wrong chain_id";
    fail_if negb (tt_verify tx) as "Invalid signature";
    fail_if tt_nonce tx <? tip as "Nonce already used";
    fail_if MAX_MEMPOOL_PACKAGE_NONCES <? depth
      as ("Package nonce depth " +:+ pretty depth +:+ " exceeds limit " +:+ pretty MAX_MEMPOOL_PACKAGE_NONCES);
    fail_if (tt_fee tx <? relay_floor) && (MAX_MEMPOOL_SIZE <=? len pool)
      as ("Fee " +:+ pretty (tt_fee tx) +:+ " below current min relay fee " +:+ pretty relay_floor);
    Ok () in
  match early with Err e => Some (Err e) | Ok _ => mempool_balance_precheck fuel s tx end.

(** Replacement of the queued transfer with the same sender and nonce. *)
Definition replace_transparent (fuel : nat) (pool : list TransparentTx) (tx existing : TransparentTx) (i : nat)
    : option (result unit * list TransparentTx) :=
  descendant_fees ← descendant_package_fees fuel pool (tt_from tx) (sat_add 64 (tt_nonce tx) 1) 0;
  let old_package_fee := sat_add 128 (tt_fee existing) descendant_fees in
  let new_package_fee := sat_add 128 (tt_fee tx) descendant_fees in
  let min_package_fee := sat_add 128 old_package_fee MIN_TX_FEE in
  Some (if new_package_fee <? min_package_fee
        then (Err ("Replacement (package RBF) must raise the package fee by at least " +:+ pretty MIN_TX_FEE +:+
                   " (queued tx fee " +:+ pretty (tt_fee existing) +:+ ", descendant fees " +:+ pretty descendant_fees +:+
                   ", package " +:+ pretty old_package_fee +:+ " → need package >= " +:+ pretty min_package_fee +:+
                   ", got tx fee " +:+ pretty (tt_fee tx) +:+ " / package " +:+ pretty new_package_fee +:+ ")"), pool)
        else (Ok (), delete i pool ++ [tx])).

(** The count limit. *)
Definition account_slot (fuel : nat) (pool : list TransparentTx) (tx : TransparentTx) (tip : Z)
    : option (result unit * list TransparentTx) :=
  if len pool <? MAX_MEMPOOL_SIZE then Some (Ok (), pool ++ [tx]) else
  lowest ← lowest_package fuel pool (mempool_index_by_sender pool);
  match lowest with
  | None => Some (Err "Transparent mempool is full", pool)
  | Some (i, fee, len) =>
      incoming ← incoming_package_score fuel tx pool tip;
      Some (if outbids incoming (fee, len) then (Ok (), delete i pool ++ [tx])
            else (Err "Transparent mempool is full", pool))
  end.

Definition position_of (from : string) (n : Z) (pool : list TransparentTx) : option (nat * TransparentTx) :=
  list_find (same_slot from n) pool.

(** [admit_transparent_to_mempool] past its feature test: the mutations of the pool. *)
Definition admit_transparent_pool (fuel : nat) (pool : list TransparentTx) (tx : TransparentTx) (tip : Z)
    : option (result unit * list TransparentTx) :=
  let bytes := tt_relay_bytes tx in
  let crowded := (MAX_MEMPOOL_BYTES <? sat_add 64 (pool_bytes pool) bytes) &&
                 bool_decide (position_of (tt_from tx) (tt_nonce tx) pool = None) in
  room ← (if crowded then
            incoming ← incoming_package_score fuel tx pool tip;
            account_byte_room (length pool) fuel (mempool_index_by_sender pool) incoming bytes pool
          else Some (Ok (), pool));
  match room with
  | (Err e, pool) => Some (Err e, pool)
  | (Ok _, pool) =>
      match position_of (tt_from tx) (tt_nonce tx) pool with
      | Some (i, existing) => replace_transparent fuel pool tx existing i
      | None => account_slot fuel pool tx tip
      end
  end.
Definition admit_transparent_enabled (fuel : nat) (s : ChainState) (now : Z) (tx : TransparentTx)
    : option (result unit * ChainState) :=
  r ← check_transparent_admission fuel s tx;
  match r with
  | Err e => Some (Err e, s)
  | Ok _ =>
      let p := cs_pools s in
      '(r, pool) ← admit_transparent_pool fuel (transparent_mempool p) tx (account_nonce (cs_ledger s) (tt_from tx));
      let p := with_transparent_mempool p pool in
      Some (r, set_pools s (if is_ok r then record_first_seen p (tt_tx_hash tx) now (selected_tip_blue_score s) else p))
  end.
(** [admit_transparent_to_mempool]. *)
Definition admit_transparent_to_mempool (fuel : nat) (s : ChainState) (now : Z) (tx : TransparentTx)
    : option (result unit * ChainState) :=
  if negb ACCOUNT_PEER_TRANSFERS then Some (Err "Account peer transfers disabled (v27); use UTXO for value moves", s)
  else admit_transparent_enabled fuel s now tx.

(** ** Templates *)

Record Ranked := { rk_from : string; rk_nonce : Z; rk_pkg_fee : Z; rk_pkg_len : Z; rk_fee : Z; rk_hash : Hash }.
(** [sort_by]: package rate, package fee and fee descending, then hash. *)
Definition ranked_cmp (a b : Ranked) : comparison :=
  match cmp_package_feerate (rk_pkg_fee b) (rk_pkg_len b) (rk_pkg_fee a) (rk_pkg_len a) with
  | Eq => match rk_pkg_fee b ?= rk_pkg_fee a with
          | Eq => match rk_fee b ?= rk_fee a with Eq => rk_hash a ?= rk_hash b | c => c end
          | c => c
          end
  | c => c
  end.
Definition ranked_le (a b : Ranked) : Prop := ranked_cmp a b ≠ Gt.
#[global] Instance ranked_le_dec : RelDecision ranked_le.
Proof. intros a b. unfold ranked_le. apply _. Defined.

(** The entries of one sender, by ascending nonce; an incomplete package is skipped. *)
Definition rank_entry (fuel : nat) (from : string) (by_nonce : ByNonce) (tip n : Z) : option (list Ranked) :=
  pkg ← ancestor_package fuel by_nonce tip n;
  Some (match pkg, by_nonce !! n with
        | Some pkg, Some tx =>
            [{| rk_from := from; rk_nonce := n; rk_pkg_fee := wrap 128 (zsum (tt_fee <$> pkg));
                rk_pkg_len := Z.max (wrap 64 (zsum (tt_relay_bytes <$> pkg))) 1;
                rk_fee := tt_fee tx; rk_hash := tt_tx_hash tx |}]
        | _, _ => []
        end).
Definition rank_sender (fuel : nat) (s : ChainState) (by_sender : gmap string ByNonce) (from : string) : option (list Ranked) :=
  let by_nonce := default ∅ (by_sender !! from) in
  @concat Ranked <$> mapM (rank_entry fuel from by_nonce (account_nonce (cs_ledger s) from)) (merge_sort Z.le (map_to_list by_nonce).*1).

(** Balances and nonces changed so far, the chosen slots and the chosen transfers. *)
Record Overlay := { ov_bal : gmap string Z; ov_nonce : gmap string Z }.
Definition overlay_balance (s : ChainState) (o : Overlay) (a : string) : Z := default (account_balance (cs_ledger s) a) (ov_bal o !! a).
Definition overlay_nonce (s : ChainState) (o : Overlay) (a : string) : Z := default (account_nonce (cs_ledger s) a) (ov_nonce o !! a).

(** One transfer of a package; [None] abandons the package. *)
Definition overlay_tx (s : ChainState) (o : Overlay) (tx : TransparentTx) : option Overlay :=
  if is_err (tt_validate_form tx) || negb (tt_chain_id tx =? cs_chain_id s) || negb (tt_verify tx) then None else
  let cur_nonce := overlay_nonce s o (tt_from tx) in
  if negb (tt_nonce tx =? cur_nonce) then None else
  debit ← checked_add 128 (tt_amount tx) (tt_fee tx);
  let cur_bal := overlay_balance s o (tt_from tx) in
  if cur_bal <? debit then None else
  new_to ← checked_add 128 (overlay_balance s o (tt_to tx)) (tt_amount tx);
  Some {| ov_bal := <[tt_to tx := new_to]> (<[tt_from tx := cur_bal - debit]> (ov_bal o));
          ov_nonce := <[tt_from tx := sat_add 64 cur_nonce 1]> (ov_nonce o) |}.
Fixpoint overlay_batch (s : ChainState) (selected : gset (string * Z)) (o : Overlay) (pkg : list TransparentTx)
    : option (Overlay * list TransparentTx) :=
  match pkg with
  | [] => Some (o, [])
  | tx :: pkg =>
      if bool_decide ((tt_from tx, tt_nonce tx) ∈ selected) then overlay_batch s selected o pkg else
      o ← overlay_tx s o tx;
      '(o, batch) ← overlay_batch s selected o pkg;
      Some (o, tx :: batch)
  end.
Definition slots (l : list TransparentTx) : gset (string * Z) := list_to_set ((λ tx, (tt_from tx, tt_nonce tx)) <$> l).
(** One candidate; the package loop is [overlay_batch]. *)
Definition pick_package (fuel : nat) (s : ChainState) (by_sender : gmap string ByNonce)
    (st : option (Overlay * gset (string * Z) * list TransparentTx)) (c : Ranked)
    : option (Overlay * gset (string * Z) * list TransparentTx) :=
  '(o, selected, good) ← st;
  let tip := overlay_nonce s o (rk_from c) in
  if bool_decide ((rk_from c, rk_nonce c) ∈ selected) || (rk_nonce c <? tip) then st else
  pkg ← ancestor_package fuel (default ∅ (by_sender !! rk_from c)) tip (rk_nonce c);
  match pkg ≫= overlay_batch s selected o with
  | None | Some (_, []) => st
  | Some (o', batch) => Some (o', slots batch ∪ selected, good ++ batch)
  end.
(** [select_valid_block_txs]; [senders] is the order in which the map yields them. *)
Definition select_valid_block_txs (s : ChainState) (transfers : list TransparentTx) (senders : list string)
    : option (list TransparentTx) :=
  if bool_decide (transfers = []) then Some [] else
  let by_sender := mempool_index_by_sender transfers in
  let fuel := S (length transfers) in
  ranked ← @concat Ranked <$> mapM (rank_sender fuel s by_sender) senders;
  '(_, _, good) ← foldl (pick_package fuel s by_sender) (Some ({| ov_bal := ∅; ov_nonce := ∅ |}, ∅, []))
                    (merge_sort ranked_le ranked);
  Some good.

(** ** Walks return *)

Definition below_last (by_nonce : ByNonce) : Prop := ∀ k, k ∈ dom by_nonce → k < U64_MAX.

(** One step of a walk: the next nonce and fewer keys above it. *)
Lemma walk_step by_nonce n tx fuel :
  below_last by_nonce → by_nonce !! n = Some tx → (size (above by_nonce n) < S fuel)%nat →
  sat_add 64 n 1 = n + 1 ∧ (size (above by_nonce (n + 1)) < fuel)%nat.
Proof.
  intros Hb Hn Hsz. assert (n < U64_MAX) as Hlt by (apply Hb; by eapply elem_of_dom_2).
  pose proof (above_step by_nonce n tx Hn). split; [unfold sat_add, umax in *; lia|lia].
Qed.

Lemma above_le by_nonce n : (size (above by_nonce n) <= size by_nonce)%nat.
Proof.
  rewrite <- !size_dom. apply subseteq_size. intros k. rewrite !elem_of_dom. intros [t [Ht _]%map_lookup_filter_Some]. by exists t.
Qed.

Lemma ancestor_loop_total fuel by_nonce target n :
  below_last by_nonce → (size (above by_nonce n) < fuel)%nat → is_Some (ancestor_loop_to fuel by_nonce target n).
Proof.
  intros Hb. revert n. induction fuel as [|fuel IH]; intros n Hsz; [lia|]. cbn [ancestor_loop_to].
  destruct (target <? n); [by eexists|]. destruct (by_nonce !! n) as [tx|] eqn:Hn; [|by eexists].
  destruct (walk_step _ _ _ _ Hb Hn Hsz) as [-> Hlt]. destruct (IH (n + 1) Hlt) as [l ->]. by eexists.
Qed.
Lemma ancestor_package_total fuel by_nonce tip target :
  below_last by_nonce → (size by_nonce < fuel)%nat → is_Some (ancestor_package fuel by_nonce tip target).
Proof.
  intros Hb Hsz. unfold ancestor_package. destruct (target <? tip); [by eexists|]. apply ancestor_loop_total; [done|].
  pose proof (above_le by_nonce tip). lia.
Qed.
Lemma run_score_total fuel by_nonce n t b :
  below_last by_nonce → (size (above by_nonce n) < fuel)%nat → is_Some (run_score fuel by_nonce n t b).
Proof.
  intros Hb. revert n t b. induction fuel as [|fuel IH]; intros n t b Hsz; [lia|]. cbn [run_score].
  destruct (by_nonce !! n) as [tx|] eqn:Hn; [|by eexists]. destruct (walk_step _ _ _ _ Hb Hn Hsz) as [-> Hlt]. by apply IH.
Qed.
Lemma descendants_score_total fuel own by_nonce n t b :
  below_last by_nonce → (size (above by_nonce n) < fuel)%nat → is_Some (descendants_score fuel own by_nonce n t b).
Proof.
  intros Hb. revert n t b. induction fuel as [|fuel IH]; intros n t b Hsz; [lia|]. cbn [descendants_score].
  destruct (by_nonce !! n) as [tx|] eqn:Hn; [|by eexists]. destruct (walk_step _ _ _ _ Hb Hn Hsz) as [-> Hlt].
  destruct (_ =? _); by apply IH.
Qed.

(** The transfers of a list indexed by sender. *)
Definition nonces_ok (l : list TransparentTx) : Prop := Forall (λ tx, tt_nonce tx < U64_MAX) l.
Lemma index_below txs from : nonces_ok txs → below_last (default ∅ (mempool_index_by_sender txs !! from)).
Proof.
  intros Hn k [tx Htx]%elem_of_dom. apply index_nonces in Htx as (Hin & <- & _). unfold nonces_ok in Hn. rewrite Forall_forall in Hn. auto.
Qed.
Lemma index_snoc txs tx : index_sender (mempool_index_by_sender txs) tx = mempool_index_by_sender (txs ++ [tx]).
Proof. unfold mempool_index_by_sender. by rewrite foldl_app. Qed.

Lemma descendant_score_total fuel txs tx :
  nonces_ok txs → (length txs < fuel)%nat → is_Some (descendant_package_score fuel tx (mempool_index_by_sender txs)).
Proof.
  intros Hn Hf. unfold descendant_package_score. pose proof (index_below txs (tt_from tx) Hn) as Hb.
  pose proof (index_size txs (tt_from tx)) as Hs. destruct (mempool_index_by_sender txs !! tt_from tx) as [m|]; [|by eexists].
  simpl in Hb, Hs. destruct (run_score_total fuel m (tt_nonce tx) 0 0 Hb) as [[a b] ->]; [|by eexists].
  pose proof (above_le m (tt_nonce tx)). lia.
Qed.
Lemma incoming_score_total fuel tx pool tip :
  nonces_ok (pool ++ [tx]) → (S (length pool) < fuel)%nat → is_Some (incoming_package_score fuel tx pool tip).
Proof.
  intros Hn Hf. unfold incoming_package_score. rewrite index_snoc. set (txs := pool ++ [tx]) in *.
  assert (length txs < fuel)%nat as Hl by (unfold txs; rewrite length_app; simpl; lia).
  pose proof (index_below txs (tt_from tx) Hn) as Hb. pose proof (index_size txs (tt_from tx)) as Hs.
  set (m := default ∅ (mempool_index_by_sender txs !! tt_from tx)) in *.
  destruct (ancestor_package_total fuel m tip (tt_nonce tx) Hb ltac:(lia)) as [[pkg|] ->]; cbn [mbind option_bind].
  - edestruct (descendants_score_total fuel (tt_nonce tx) m) as [[a b] ->]; [done| |by eexists].
    eapply Nat.le_lt_trans; [apply above_le|lia].
  - by apply descendant_score_total.
Qed.
Lemma lowest_total fuel pool txs :
  nonces_ok txs → (length txs < fuel)%nat → is_Some (lowest_package fuel pool (mempool_index_by_sender txs)).
Proof.
  intros Hn Hf. unfold lowest_package.
  destruct (mapM (λ t, descendant_package_score fuel t (mempool_index_by_sender txs)) pool) as [l|] eqn:Hm; [by eexists|].
  apply mapM_None_1 in Hm. apply Exists_exists in Hm as (t & _ & Ht).
  destruct (descendant_score_total fuel txs t Hn Hf) as [? Hs]. rewrite Hs in Ht. done.
Qed.

(** The queued transfers of a sender at or above a nonce. *)
Definition from_nonce (from : string) (n : Z) (t : TransparentTx) : bool := bool_decide (tt_from t = from) && (n <=? tt_nonce t).
Lemma from_nonce_step from n t pool :
  List.find (same_slot from n) pool = Some t →
  (length (List.filter (from_nonce from (n + 1)) pool) < length (List.filter (from_nonce from n) pool))%nat.
Proof.
  assert (∀ x, Nat.b2n (from_nonce from (n + 1) x) + Nat.b2n (same_slot from n x) = Nat.b2n (from_nonce from n x))%nat as Hx.
  { intros x. unfold from_nonce, same_slot. destruct (bool_decide _); [|done]. cbn [andb].
    destruct (Z.leb_spec (n + 1) (tt_nonce x)), (Z.leb_spec n (tt_nonce x)), (Z.eqb_spec (tt_nonce x) n); simpl; lia. }
  assert (∀ (f : TransparentTx → bool) l x, length (List.filter f (x :: l)) = (Nat.b2n (f x) + length (List.filter f l))%nat) as Hc
    by (intros f l x; cbn [List.filter]; by destruct (f x)).
  assert (∀ l, length (List.filter (from_nonce from (n + 1)) l) <= length (List.filter (from_nonce from n) l))%nat as Hle.
  { clear -Hx Hc. intros l. induction l as [|x l IH]; [done|]. rewrite !Hc. specialize (Hx x). lia. }
  induction pool as [|x pool IH]; [done|]. cbn [List.find]. rewrite !Hc. specialize (Hx x). specialize (Hle pool).
  destruct (same_slot from n x); simpl in Hx; [intros _|intros Hf; specialize (IH Hf)]; lia.
Qed.
Lemma descendant_fees_total fuel pool from n t :
  nonces_ok pool → (length (List.filter (from_nonce from n) pool) < fuel)%nat →
  is_Some (descendant_package_fees fuel pool from n t).
Proof.
  intros Hn. revert n t. induction fuel as [|fuel IH]; intros n t Hsz; [lia|]. cbn [descendant_package_fees].
  destruct (List.find (same_slot from n) pool) as [x|] eqn:Hx; [|by eexists].
  pose proof (from_nonce_step _ _ _ _ Hx). apply List.find_some in Hx as [Hin Hs]. unfold same_slot in Hs.
  apply andb_true_iff in Hs as [_ Hs%Z.eqb_eq]. unfold nonces_ok in Hn. rewrite List.Forall_forall in Hn. specialize (Hn x Hin). cbn beta in Hn.
  assert (sat_add 64 n 1 = n + 1) as -> by (unfold sat_add, umax in *; lia). apply IH. lia.
Qed.

(** ** The pool keeps its shape *)

Definition slot (t : TransparentTx) : string * Z := (tt_from t, tt_nonce t).
Record account_pool_ok (pool : list TransparentTx) : Prop := {
  ap_slots : NoDup (slot <$> pool);
  ap_size : len pool <= MAX_MEMPOOL_SIZE;
  ap_nonces : nonces_ok pool;
}.

Lemma account_pool_sublist l k : l `sublist_of` k → account_pool_ok k → account_pool_ok l.
Proof.
  intros Hs [Hd Hz Hn]. split.
  - eapply sublist_NoDup; [exact Hd|]. by apply fmap_sublist.
  - unfold len in *. apply sublist_length in Hs. lia.
  - unfold nonces_ok in *. rewrite Forall_forall in *. intros x Hx. apply Hn. by eapply elem_of_sublist.
Qed.

Lemma position_none from n pool : position_of from n pool = None → (from, n) ∉ slot <$> pool.
Proof.
  intros Hp%list_find_None Hin. apply list_elem_of_fmap in Hin as (t & Ht & Hin). rewrite Forall_forall in Hp.
  apply (Hp t Hin). unfold same_slot, slot in *. injection Ht as Ha Hb. apply Is_true_eq_left, andb_true_iff.
  split; [by apply bool_decide_eq_true_2|]. apply Z.eqb_eq. done.
Qed.
Lemma position_some from n pool i t : position_of from n pool = Some (i, t) → pool !! i = Some t ∧ slot t = (from, n).
Proof.
  intros (Hl & Hs & _)%list_find_Some. split; [done|]. unfold same_slot in Hs. apply Is_true_eq_true, andb_true_iff in Hs as [Ha Hb].
  apply bool_decide_eq_true_1 in Ha. apply Z.eqb_eq in Hb. unfold slot. by rewrite Ha, Hb.
Qed.

Lemma byte_room_spec n fuel by_sender incoming bytes pool r pool' :
  account_byte_room n fuel by_sender incoming bytes pool = Some (r, pool') → pool' `sublist_of` pool.
Proof.
  revert pool. induction n as [|n IH]; intros pool; cbn [account_byte_room]; destruct (_ <=? _); try (intros [= <- <-]; done).
  destruct (lowest_package fuel pool by_sender) as [[[[i f] l]|]|]; cbn [mbind option_bind]; [|by intros [= <- <-]|done].
  destruct (outbids _ _); [|by intros [= <- <-]]. intros Hs%IH. etrans; [exact Hs|apply sublist_delete].
Qed.
Lemma byte_room_total n fuel txs incoming bytes pool :
  nonces_ok txs → (length txs < fuel)%nat →
  is_Some (account_byte_room n fuel (mempool_index_by_sender txs) incoming bytes pool).
Proof.
  intros Hn Hf. revert pool. induction n as [|n IH]; intros pool; cbn [account_byte_room]; destruct (_ <=? _); try by eexists.
  destruct (lowest_total fuel pool txs Hn Hf) as [[[[i f] l]|] ->]; cbn [mbind option_bind]; [|by eexists].
  destruct (outbids _ _); [apply IH|by eexists].
Qed.

Lemma account_pool_push pool tx :
  account_pool_ok pool → slot tx ∉ slot <$> pool → len pool < MAX_MEMPOOL_SIZE → tt_nonce tx < U64_MAX →
  account_pool_ok (pool ++ [tx]).
Proof.
  intros [Hd Hz Hn] Hs Hlt Hx. split.
  - rewrite fmap_app. apply NoDup_app. split; [done|]. split; [|apply NoDup_singleton].
    intros x Hin Hx'. apply list_elem_of_singleton in Hx'. by subst x.
  - unfold len in *. rewrite length_app. simpl. lia.
  - unfold nonces_ok in *. rewrite Forall_app. split; [done|]. by repeat constructor.
Qed.
(** Taking one entry out frees its slot and a place. *)
Lemma account_pool_free pool i t :
  account_pool_ok pool → pool !! i = Some t →
  account_pool_ok (delete i pool) ∧ slot t ∉ (slot <$> delete i pool) ∧ len (delete i pool) < MAX_MEMPOOL_SIZE.
Proof.
  intros Hok Hi. split; [by eapply account_pool_sublist; [apply sublist_delete|]|]. destruct Hok as [Hd Hz _].
  pose proof (delete_Permutation pool i t Hi) as Hp. split.
  - rewrite Hp in Hd. by apply NoDup_cons_1_1 in Hd.
  - unfold len in *. apply Permutation_length in Hp. simpl in Hp. lia.
Qed.

Lemma lowest_index fuel pool by_sender i f l :
  lowest_package fuel pool by_sender = Some (Some (i, f, l)) → is_Some (pool !! i).
Proof.
  unfold lowest_package. destruct (mapM _ pool) as [scores|] eqn:Hm; [|done]. cbn [mbind option_bind]. intros Heq. apply (inj Some) in Heq.
  apply length_mapM in Hm. set (es := imap (λ i sc, (i, sc.1, sc.2)) scores) in Heq.
  assert (∀ e, e ∈ es → (e.1.1 < length pool)%nat) as Hes.
  { intros e (j & x & He & Hx)%elem_of_lookup_imap. subst e. cbn [fst]. apply lookup_lt_Some in Hx. lia. }
  destruct es as [|x es]; [done|]. apply (inj Some) in Heq.
  assert (foldl (λ best e, if package_gt best e then e else best) x es ∈ x :: es) as Hin.
  { clear. revert x. induction es as [|e es IH]; intros x; [set_solver|]. cbn [foldl]. specialize (IH (if package_gt x e then e else x)).
    destruct (package_gt x e); set_solver. }
  rewrite Heq in Hin. apply Hes in Hin. cbn [fst] in Hin. by apply lookup_lt_is_Some_2.
Qed.

(** The account pool, behind its switch: while no queued transfer has the last nonce,
    admission returns whatever it decides; the pool keeps one transfer per sender and
    nonce and at most [MAX_MEMPOOL_SIZE] of them; an accepted transfer is in the pool
    and a refused one is not added.  The room made for a transfer that is then refused
    stays made. *)
Theorem account_pool_kept pool tx tip :
  account_pool_ok pool → tt_nonce tx < U64_MAX →
  ∃ r pool', admit_transparent_pool (S (S (length pool))) pool tx tip = Some (r, pool') ∧ account_pool_ok pool' ∧
    (is_ok r = true → tx ∈ pool') ∧ (is_ok r = false → pool' `sublist_of` pool).
Proof.
  intros Hok Hx. set (fuel := S (S (length pool))). unfold admit_transparent_pool.
  set (room := if _ && _ then _ else Some (Ok (), pool)).
  assert (∃ r p, room = Some (r, p) ∧ p `sublist_of` pool) as (r & p & -> & Hsub).
  { unfold room. destruct (_ && _); [|by eexists _, _].
    destruct (incoming_score_total fuel tx pool tip) as [inc ->]; [|unfold fuel; lia|].
    { unfold nonces_ok. apply Forall_app. split; [apply Hok|by repeat constructor]. }
    cbn [mbind option_bind]. destruct (byte_room_total (length pool) fuel pool inc (tt_relay_bytes tx) pool (ap_nonces _ Hok)) as [[r p] Hr];
      [unfold fuel; lia|]. exists r, p. split; [done|]. by eapply byte_room_spec. }
  pose proof (account_pool_sublist _ _ Hsub Hok) as Hp. pose proof (sublist_length _ _ Hsub) as Hlen. cbn [mbind option_bind].
  destruct r as [[]|e]; [|by exists (Err e), p]. destruct (position_of (tt_from tx) (tt_nonce tx) p) as [[i t]|] eqn:Hpos.
  - apply position_some in Hpos as [Hi Hs]. unfold replace_transparent.
    destruct (descendant_fees_total fuel p (tt_from tx) (sat_add 64 (tt_nonce tx) 1) 0 (ap_nonces _ Hp)) as [fs ->].
    { pose proof (List.filter_length_le (from_nonce (tt_from tx) (sat_add 64 (tt_nonce tx) 1)) p). unfold fuel. lia. }
    cbn [mbind option_bind]. destruct (_ <? _); eexists _, _; (split; [reflexivity|]); [done|].
    destruct (account_pool_free _ _ _ Hp Hi) as (H1' & H2' & H3'). split; [|set_solver]. apply account_pool_push; [done| |done|done].
    unfold slot at 1. by rewrite <- Hs.
  - apply position_none in Hpos. unfold account_slot. destruct (Z.ltb_spec (len p) MAX_MEMPOOL_SIZE) as [Hlt|_].
    { eexists _, _. split; [reflexivity|]. split; [by apply account_pool_push|set_solver]. }
    destruct (lowest_total fuel p p (ap_nonces _ Hp)) as [low Hlow]; [unfold fuel; lia|]. rewrite Hlow. cbn [mbind option_bind].
    destruct low as [[[i f] l]|]; [|by eexists _, _].
    destruct (incoming_score_total fuel tx p tip) as [inc ->].
    { unfold nonces_ok. apply Forall_app. split; [apply Hp|by repeat constructor]. }
    { unfold fuel. lia. }
    cbn [mbind option_bind]. destruct (outbids _ _); eexists _, _; (split; [reflexivity|]); [|done].
    apply lowest_index in Hlow as [t Hi]. destruct (account_pool_free _ _ _ Hp Hi) as (H1' & H2' & H3').
    split; [|set_solver]. apply account_pool_push; [done| |done|done]. intros Hin. apply Hpos.
    apply list_elem_of_fmap in Hin as (u & Hu & Hin). apply list_elem_of_fmap. exists u. split; [done|].
    by eapply elem_of_sublist; [|apply sublist_delete].
Qed.
End account_pool.
