(* ===== verification/Net.v ===== *)
(** * Network addresses and operator policy

    [src/src/net_policy.rs] (write tokens, CORS, dial filter, verification budget, IP
    bans), the dial filter and address groups of [src/src/p2p.rs], and the request
    validators and rate limiter of [src/src/security.rs].  Strings are UTF-8 byte
    strings; parsing of IP addresses and ports is the standard library's, written out.
    Clocks are arguments, in milliseconds. *)

From S2P Require Import Prelude Genesis Crypto Address.

(** ** Strings *)

(** The length in bytes of the whitespace character a string starts with, 0 if none
    ([char::is_whitespace] over UTF-8). *)
Definition whitespace_len (l : bytes) : nat :=
  match l with
  | b :: l1 =>
      if (b =? 32) || ((9 <=? b) && (b <=? 13)) then 1%nat else
      match l1 with
      | c :: l2 =>
          if (b =? 0xC2) && ((c =? 0x85) || (c =? 0xA0)) then 2%nat else
          match l2 with
          | d :: _ =>
              if ((b =? 0xE1) && (c =? 0x9A) && (d =? 0x80)) ||
                 ((b =? 0xE2) && (c =? 0x80) && (((0x80 <=? d) && (d <=? 0x8A)) || (d =? 0xA8) || (d =? 0xA9) || (d =? 0xAF))) ||
                 ((b =? 0xE2) && (c =? 0x81) && (d =? 0x9F)) || ((b =? 0xE3) && (c =? 0x80) && (d =? 0x80))
              then 3%nat else 0%nat
          | [] => 0%nat
          end
      | [] => 0%nat
      end
  | [] => 0%nat
  end.
Fixpoint trim_start_loop (fuel : nat) (l : bytes) : bytes :=
  match fuel with
  | O => l
  | S fuel => match whitespace_len l with O => l | n => trim_start_loop fuel (drop n l) end
  end.
Definition trim_start (l : bytes) : bytes := trim_start_loop (length l) l.
(** The longest suffix of at most three bytes that is one whitespace character. *)
Definition whitespace_end (l : bytes) : nat :=
  let ws n := Nat.eqb (whitespace_len (drop (length l - n) l)) n && Nat.leb n (length l) in
  if ws 1%nat then 1 else if ws 2%nat then 2 else if ws 3%nat then 3 else 0.
Fixpoint trim_end_loop (fuel : nat) (l : bytes) : bytes :=
  match fuel with
  | O => l
  | S fuel => match whitespace_end l with O => l | n => trim_end_loop fuel (take (length l - n) l) end
  end.
Definition trim (l : bytes) : bytes := let l := trim_start l in trim_end_loop (length l) l.

(** [trim_matches] with a set of ASCII characters. *)
Fixpoint drop_while (p : Z → bool) (l : bytes) : bytes :=
  match l with
  | [] => []
  | b :: l' => if p b then drop_while p l' else l
  end.
Definition trim_matches (p : Z → bool) (l : bytes) : bytes := rev (drop_while p (rev (drop_while p l))).
Definition is_bracket (b : Z) : bool := (b =? 91) || (b =? 93).

(** [ends_with], [trim_end_matches] (all repetitions of the suffix). *)
Definition ends_with (suffix l : bytes) : bool :=
  Nat.leb (length suffix) (length l) && bool_decide (drop (length l - length suffix) l = suffix).
Fixpoint trim_end_matches (fuel : nat) (suffix l : bytes) : bytes :=
  match fuel with
  | O => l
  | S fuel => if ends_with suffix l then trim_end_matches fuel suffix (take (length l - length suffix) l) else l
  end.

(** [char::to_digit]. *)
Definition to_digit (radix b : Z) : option Z :=
  let v := if (48 <=? b) && (b <=? 57) then b - 48
           else if (97 <=? b) && (b <=? 122) then b - 87
           else if (65 <=? b) && (b <=? 90) then b - 55 else radix in
  if v <? radix then Some v else None.

(** [str::parse] for an unsigned integer with maximum [m]: an optional plus sign, then
    at least one digit, no overflow. *)
Fixpoint parse_digits (m acc : Z) (l : bytes) : option Z :=
  match l with
  | [] => Some acc
  | b :: l =>
      d ← to_digit 10 b;
      let acc := acc * 10 + d in
      if m <? acc then None else parse_digits m acc l
  end.
Definition parse_uint (m : Z) (l : bytes) : option Z :=
  match l with
  | [] => None
  | b :: l' => if b =? 43 then match l' with [] => None | _ => parse_digits m 0 l' end else parse_digits m 0 l
  end.

(** ** IP addresses *)

Inductive IpAddr := V4 (octets : list Z) | V6 (segments : list Z).
#[global] Instance ipaddr_eq_dec : EqDecision IpAddr.
Proof. solve_decision. Defined.
#[global] Instance ipaddr_countable : Countable IpAddr.
Proof.
  refine (inj_countable' (λ a, match a with V4 o => inl o | V6 s => inr s end)
    (λ x, match x with inl o => V4 o | inr s => V6 s end) _).
  by intros [].
Defined.

(** [Parser::read_number] with a digit limit: all digits are consumed first. *)
Fixpoint read_digits (radix : Z) (l : bytes) : list Z * bytes :=
  match l with
  | [] => ([], [])
  | b :: l' =>
      match to_digit radix b with
      | None => ([], l)
      | Some d => let '(ds, rest) := read_digits radix l' in (d :: ds, rest)
      end
  end.
Definition digits_value (radix : Z) (ds : list Z) : Z := foldl (λ acc d, acc * radix + d) 0 ds.
Definition read_number (radix m : Z) (max_digits : nat) (allow_zero_prefix : bool) (l : bytes) : option (Z * bytes) :=
  let '(ds, rest) := read_digits radix l in
  if Nat.ltb max_digits (length ds) then None else
  if Nat.eqb (length ds) 0 then None else
  if negb allow_zero_prefix && bool_decide (head l = Some 48) && Nat.ltb 1 (length ds) then None else
  if m <? digits_value radix ds then None else Some (digits_value radix ds, rest).

Definition read_char (c : Z) (l : bytes) : option bytes :=
  match l with b :: l => if b =? c then Some l else None | [] => None end.
(** [read_separator]: the separator comes before every element but the first. *)
Definition read_separator {A} (sep : Z) (index : nat) (inner : bytes → option (A * bytes)) (l : bytes) : option (A * bytes) :=
  match index with
  | O => inner l
  | S _ => l ← read_char sep l; inner l
  end.

(** [read_ipv4_addr]. *)
Fixpoint read_octets (n : nat) (index : nat) (l : bytes) : option (list Z * bytes) :=
  match n with
  | O => Some ([], l)
  | S n =>
      '(o, l) ← read_separator 46 index (read_number 10 255 3 false) l;
      '(os, l) ← read_octets n (S index) l;
      Some (o :: os, l)
  end.
Definition read_ipv4_addr (l : bytes) : option (list Z * bytes) := read_octets 4 0 l.

(** [read_groups] over [n] remaining slots: the groups read, whether they end in an
    embedded IPv4 address, and the rest of the input. *)
Fixpoint read_groups (n : nat) (index : nat) (l : bytes) : list Z * bool * bytes :=
  match n with
  | O => ([], false, l)
  | S n' =>
      match (if Nat.leb 2 n then read_separator 58 index read_ipv4_addr l else None) with
      | Some ([o1; o2; o3; o4], l) => ([o1 * 256 + o2; o3 * 256 + o4], true, l)
      | _ =>
          match read_separator 58 index (read_number 16 65535 4 true) l with
          | Some (g, l) => let '(gs, v4, l) := read_groups n' (S index) l in (g :: gs, v4, l)
          | None => ([], false, l)
          end
      end
  end.
Definition read_ipv6_addr (l : bytes) : option (list Z * bytes) :=
  let '(head, head_ipv4, l) := read_groups 8 0 l in
  if Nat.eqb (length head) 8 then Some (head, l) else
  if head_ipv4 then None else
  l ← read_char 58 l; l ← read_char 58 l;
  let '(tail, _, l) := read_groups (8 - (length head + 1)) 0 l in
  Some (head ++ replicate (8 - length head - length tail) 0 ++ tail, l).

(** [IpAddr::from_str]: all of the input must be consumed. *)
Definition parse_ip (l : bytes) : option IpAddr :=
  let '(ip, rest) :=
    match read_ipv4_addr l with
    | Some (o, rest) => (Some (V4 o), rest)
    | None => match read_ipv6_addr l with Some (s, rest) => (Some (V6 s), rest) | None => (None, l) end
    end in
  if bool_decide (rest = []) then ip else None.

Definition octet (l : list Z) (i : nat) : Z := default 0 (l !! i).
(** [Ipv4Addr] and [Ipv6Addr] predicates. *)
Definition v4_is_unspecified (o : list Z) : bool := bool_decide (o = [0; 0; 0; 0]).
Definition v4_is_broadcast (o : list Z) : bool := bool_decide (o = [255; 255; 255; 255]).
Definition v4_is_loopback (o : list Z) : bool := octet o 0 =? 127.
Definition v4_is_link_local (o : list Z) : bool := (octet o 0 =? 169) && (octet o 1 =? 254).
Definition v4_is_private (o : list Z) : bool :=
  (octet o 0 =? 10) || ((octet o 0 =? 172) && (16 <=? octet o 1) && (octet o 1 <=? 31)) ||
  ((octet o 0 =? 192) && (octet o 1 =? 168)).
Definition v6_is_unspecified (s : list Z) : bool := bool_decide (s = replicate 8 0).
Definition v6_is_loopback (s : list Z) : bool := bool_decide (s = replicate 7 0 ++ [1]).
Definition v6_is_unicast_link_local (s : list Z) : bool := Z.land (octet s 0) 0xffc0 =? 0xfe80.

(** ** Dial filters *)

Definition COLON : Z := 58.
Definition onion : bytes := str_bytes ".onion".
Definition is_onion_char (b : Z) : bool := ((97 <=? b) && (b <=? 122)) || ((50 <=? b) && (b <=? 55)).
(** The [.onion] arm shared by both filters. *)
Definition onion_ok (host : bytes) : bool :=
  (len host =? 62) && forallb is_onion_char (trim_end_matches (length host) onion host).

(** Host and port of a dial target; [None] when either filter refuses its shape. *)
Definition dial_host (addr : bytes) : option bytes :=
  let addr := trim addr in
  if bool_decide (addr = []) || (256 <? len addr) then None else
  '(host, port_str) ← rsplit_once COLON addr;
  port ← parse_uint 65535 port_str;
  if port =? 0 then None else
  Some (to_ascii_lowercase (trim_matches is_bracket host)).

(** [net_policy::is_publicly_dialable]. *)
Definition is_publicly_dialable (addr : bytes) : bool :=
  match dial_host addr with
  | None => false
  | Some host =>
      if ends_with onion host then onion_ok host else
      match parse_ip host with
      | None => negb (bool_decide (host = [])) && (len host <=? 253) && negb (existsb (Z.eqb 32) host)
      | Some (V4 o) =>
          negb (v4_is_unspecified o) && negb (v4_is_broadcast o) && negb (v4_is_loopback o) &&
          negb (v4_is_private o) && negb (v4_is_link_local o)
      | Some (V6 s) =>
          negb (v6_is_unspecified s) && negb (v6_is_loopback s) && negb (v6_is_unicast_link_local s) &&
          negb (Z.land (octet s 0) 0xfe00 =? 0xfc00)
      end
  end.

(** [p2p::is_dialable_gossip_addr]. *)
Definition is_dialable_gossip_addr (strict_dials : bool) (addr : bytes) : bool :=
  if strict_dials then is_publicly_dialable addr else
  match dial_host addr with
  | None => false
  | Some host =>
      if ends_with onion host then onion_ok host else
      match parse_ip host with
      | None => negb (bool_decide (host = [])) && (len host <=? 253)
      | Some (V4 o) => negb (v4_is_unspecified o) && negb (v4_is_broadcast o) && negb (v4_is_link_local o)
      | Some (V6 s) => negb (v6_is_unspecified s) && negb (v6_is_unicast_link_local s)
      end
  end.

(** [addrman::net_group], [p2p::ip_group]: 16-bit segments as big-endian octets. *)
Definition v6_octets (s : list Z) : list Z := concat ((λ g, [g / 256; g mod 256]) <$> s).
Definition net_group (ip : IpAddr) : bytes :=
  match ip with V4 o => take 2 o | V6 s => take 4 (v6_octets s) end.
Definition ip_is_loopback (ip : IpAddr) : bool :=
  match ip with V4 o => v4_is_loopback o | V6 s => v6_is_loopback s end.
Definition ip_group (ip : IpAddr) : option bytes := if ip_is_loopback ip then None else Some (net_group ip).

(** ** Operator policy *)

(** Durations are in milliseconds. *)
Record NetPolicy := {
  np_public_mode : bool;
  api_token : option bytes;
  strict_dials : bool;
  peer_msg_limit : Z;
  stark_verifies_per_window : Z;
  stark_window : Z;
  cors_origins : list bytes;
  api_write_limit_per_window : Z;
}.

(** [env_flag]: the environment is a partial function. *)
Definition env_flag (env : string → option bytes) (name : string) : bool :=
  from_option (λ v, bool_decide (v = str_bytes "1") || bool_decide (to_ascii_lowercase v = str_bytes "true")) false (env name).

(** [str::split(',')]. *)
Fixpoint split_comma (l : bytes) : list bytes :=
  match l with
  | [] => [[]]
  | b :: l =>
      if b =? 44 then [] :: split_comma l
      else match split_comma l with x :: xs => (b :: x) :: xs | [] => [[b]] end
  end.

(** [NetPolicy::from_env]; [ephemeral] is the freshly generated token, an error is the
    message of a fatal exit. *)
Definition from_env (env : string → option bytes) (ephemeral : bytes) : result NetPolicy :=
  let public := env_flag env "HASSAN_PUBLIC" in
  let allow_unauth := env_flag env "HASSAN_ALLOW_UNAUTH_WRITES" in
  let token :=
    s ← env "HASSAN_API_TOKEN"; let s := trim s in if bool_decide (s = []) then None else Some s in
  fail_if public && allow_unauth as "FATAL: HASSAN_PUBLIC=1 refuses HASSAN_ALLOW_UNAUTH_WRITES=1";
  fail_if public && env_flag env "HASSAN_RELAX_NET" as "FATAL: HASSAN_PUBLIC=1 refuses HASSAN_RELAX_NET=1";
  fail_if public && env_flag env "HASSAN_BOOTSTRAP_EASY"
    as "FATAL: HASSAN_PUBLIC=1 refuses HASSAN_BOOTSTRAP_EASY=1 (would soft-fork peers on the hard PoW floor)";
  fail_if public && bool_decide (token = None)
    as "FATAL: HASSAN_PUBLIC=1 requires an explicit HASSAN_API_TOKEN (openssl rand -hex 32). Ephemeral tokens are not allowed.";
  let token := if bool_decide (token = None) && negb allow_unauth then Some ephemeral else token in
  let relax := negb public && env_flag env "HASSAN_RELAX_NET" in
  let '(msgs, starks, writes) := if public then (2000, 8, 30) else if relax then (20000, 64, 120) else (4000, 16, 60) in
  Ok {| np_public_mode := public; api_token := token;
        strict_dials := public || env_flag env "HASSAN_STRICT_DIALS";
        peer_msg_limit := msgs; stark_verifies_per_window := starks; stark_window := 10000;
        cors_origins := from_option (λ s, List.filter (λ x, negb (bool_decide (x = []))) (trim <$> split_comma s)) []
          (env "HASSAN_CORS_ORIGIN");
        api_write_limit_per_window := writes |}.

Definition star : bytes := str_bytes "*".
Definition wildcard_refused (p : NetPolicy) : bool := np_public_mode p && existsb (λ o, bool_decide (o = star)) (cors_origins p).
Definition cors_header_value (p : NetPolicy) : option bytes :=
  if wildcard_refused p then None else
  match cors_origins p with [o] => Some o | _ => None end.
Definition cors_allows (p : NetPolicy) (origin : bytes) : bool :=
  if bool_decide (cors_origins p = []) then false else
  if wildcard_refused p then false else
  existsb (λ o, bool_decide (o = star) || bool_decide (o = origin)) (cors_origins p).
Definition writes_require_token (p : NetPolicy) : bool := bool_decide (is_Some (api_token p)).

Definition constant_time_eq (a b : bytes) : bool :=
  if negb (len a =? len b) then false else
  foldl (λ diff xy, Z.lor diff (Z.lxor xy.1 xy.2)) 0 (zip a b) =? 0.
Definition token_ok (p : NetPolicy) (provided : option bytes) : bool :=
  match api_token p, provided with
  | None, _ => true
  | Some expected, Some got => constant_time_eq expected got
  | Some _, None => false
  end.

(** [StarkVerifyBudget]. *)
Record StarkVerifyBudget := { sb_window_start : Z; sb_count : Z; sb_limit : Z; sb_window_ms : Z }.
Definition StarkVerifyBudget_new (limit window : Z) : StarkVerifyBudget :=
  {| sb_window_start := 0; sb_count := 0; sb_limit := limit; sb_window_ms := window |}.
Definition try_consume (s : StarkVerifyBudget) (now : Z) : bool * StarkVerifyBudget :=
  if sb_window_ms s <=? sat_sub now (sb_window_start s) then
    (true, {| sb_window_start := now; sb_count := 1; sb_limit := sb_limit s; sb_window_ms := sb_window_ms s |})
  else
    (sb_count s <? sb_limit s,
     {| sb_window_start := sb_window_start s; sb_count := wrap 32 (sb_count s + 1); sb_limit := sb_limit s;
        sb_window_ms := sb_window_ms s |}).

(** [IpBanList]: until when each address is banned. *)
Record IpBanList := { banned : gmap IpAddr Z; ban_ttl : Z }.
Definition ban (l : IpBanList) (now : Z) (ip : IpAddr) : IpBanList :=
  {| banned := <[ip := now + ban_ttl l]> (banned l); ban_ttl := ban_ttl l |}.
Definition is_banned (l : IpBanList) (now : Z) (ip : IpAddr) : bool * IpBanList :=
  let m := filter (λ iu, now < iu.2) (banned l) in
  (bool_decide (is_Some (m !! ip)), {| banned := m; ban_ttl := ban_ttl l |}).

(** ** Rate limiter and validators *)

Definition MAX_REQUESTS_PER_WINDOW : Z := 120.
Definition WINDOW : Z := 60 * 1000.
Definition BAN_THRESHOLD : Z := MAX_REQUESTS_PER_WINDOW * 3.
Definition BAN_DURATION : Z := 300 * 1000.
Definition IP_ENTRY_TTL : Z := 600 * 1000.

Record IpState := { window_start : Z; last_seen : Z; count : Z; banned_until : option Z }.
Abbreviation RateLimiter := (gmap IpAddr IpState) (only parsing).

(** The entries [check] keeps, the entry it works on, and the entry it leaves. *)
Definition still_banned (now : Z) (s : IpState) : bool := from_option (λ u, now <? u) false (banned_until s).
Definition live (now : Z) (s : IpState) : bool := (sat_sub now (last_seen s) <? IP_ENTRY_TTL) || still_banned now s.
Definition touch (now : Z) (s : IpState) : IpState :=
  {| window_start := window_start s; last_seen := now; count := count s; banned_until := banned_until s |}.
Definition fresh_window (now : Z) : IpState := {| window_start := now; last_seen := now; count := 0; banned_until := None |}.
Definition counted (s : IpState) : IpState :=
  {| window_start := window_start s; last_seen := last_seen s; count := wrap 32 (count s + 1); banned_until := banned_until s |}.
Definition with_ban (s : IpState) (until : Z) : IpState :=
  {| window_start := window_start s; last_seen := last_seen s; count := count s; banned_until := Some until |}.

(** [RateLimiter::check] on the entry of the address. *)
Definition check_entry (now : Z) (e : IpState) : result unit * IpState :=
  let e := touch now e in
  match banned_until e with
  | Some until =>
      if now <? until
      then (Err ("IP temporarily banned (" +:+ pretty ((until - now) / 1000) +:+ "s remaining)"), e)
      else (Ok (), fresh_window now)
  | None => (Ok (), e)
  end.
Definition count_request (now : Z) (e : IpState) : result unit * IpState :=
  let e := if WINDOW <=? sat_sub now (window_start e) then fresh_window now else e in
  let e := counted e in
  if BAN_THRESHOLD <? count e
  then (Err "Rate limit exceeded repeatedly; IP temporarily banned", with_ban e (now + BAN_DURATION))
  else if MAX_REQUESTS_PER_WINDOW <? count e
  then (Err ("Rate limit exceeded: max " +:+ pretty MAX_REQUESTS_PER_WINDOW +:+ " requests / " +:+ pretty (WINDOW / 1000) +:+ "s"), e)
  else (Ok (), e).
Definition check_request (m : RateLimiter) (now : Z) (ip : IpAddr) : result unit * RateLimiter :=
  let m := filter (λ ie, live now ie.2 = true) m in
  let '(r, e) :=
    match check_entry now (default (fresh_window now) (m !! ip)) with
    | (Err err, e) => (Err err, e)
    | (Ok _, e) => count_request now e
    end in
  (r, <[ip := e]> m).

Definition is_ascii_hexdigit (b : Z) : bool := bool_decide (is_Some (to_digit 16 b)).
Definition is_valid_hex_of (n : Z) (s : bytes) : bool :=
  let s := default s (strip_prefix (str_bytes "0x") s) in (len s =? n) && forallb is_ascii_hexdigit s.
Definition is_valid_hash_hex (s : bytes) : bool := is_valid_hex_of (HASH_SIZE * 2) s.
Definition is_valid_amount (amount total_supply : Z) : bool := (0 <? amount) && (amount <=? total_supply).
Definition is_valid_blue_score (n : Z) : bool := n <? U64_MAX / 2.
Definition is_valid_nonce (n : Z) : bool := n <? U64_MAX - 1000.
Definition is_valid_fee (fee total_supply : Z) : bool := (MIN_TX_FEE <=? fee) && (fee <=? total_supply).
Definition is_valid_pubkey_hex `{!Crypto} (s : bytes) : bool := is_valid_hex_of (PQ_PUBLIC_KEY_SIZE * 2) s.

(** ** Write tokens *)

Lemma lor_fold_zero (l : list (Z * Z)) acc :
  foldl (λ diff xy, Z.lor diff (Z.lxor xy.1 xy.2)) acc l = 0 ↔ acc = 0 ∧ Forall (λ xy, xy.1 = xy.2) l.
Proof.
  revert acc. induction l as [|[x y] l IH]; intros acc; simpl; [naive_solver|].
  rewrite IH, Z.lor_eq_0_iff, Z.lxor_eq_0_iff, Forall_cons. simpl. tauto.
Qed.

Lemma zip_all_eq (a b : bytes) : length a = length b → Forall (λ xy, xy.1 = xy.2) (zip a b) → a = b.
Proof.
  revert b. induction a as [|x a IH]; intros [|y b]; try done. simpl. intros [= Hl].
  rewrite Forall_cons. simpl. intros [-> Hf]. f_equal. by apply IH.
Qed.

Lemma constant_time_eq_iff a b : constant_time_eq a b = true ↔ a = b.
Proof.
  unfold constant_time_eq. destruct (Z.eqb_spec (len a) (len b)) as [Hl|Hl]; simpl.
  - rewrite Z.eqb_eq, lor_fold_zero. split.
    + intros [_ Hf]. apply zip_all_eq; [unfold len in Hl; lia|done].
    + intros ->. split; [done|]. clear Hl. induction b as [|x b IH]; [done|]. simpl. by constructor.
  - split; [done|]. intros ->. done.
Qed.

(** The public lock: a process that starts in public mode has an operator-chosen,
    non-empty write token, refuses every write that does not carry exactly it, dials
    strictly, runs with the tight budgets, and never allows an origin through a
    wildcard. *)
Theorem public_lock env tok p :
  from_env env tok = Ok p → np_public_mode p = true →
  (∃ raw t, env "HASSAN_API_TOKEN" = Some raw ∧ t = trim raw ∧ t ≠ [] ∧ writes_require_token p = true ∧
    ∀ x, token_ok p x = true ↔ x = Some t) ∧
  strict_dials p = true ∧ env_flag env "HASSAN_BOOTSTRAP_EASY" = false ∧
  (peer_msg_limit p, stark_verifies_per_window p, api_write_limit_per_window p) = (2000, 8, 30) ∧
  ∀ o, cors_allows p o = true → o ∈ cors_origins p ∧ (star ∉ cors_origins p).
Proof.
  unfold from_env. intros Hf Hpub. destruct (env_flag env "HASSAN_PUBLIC") eqn:Hp.
  2: { cbn [andb] in Hf. destruct (if negb false && env_flag env "HASSAN_RELAX_NET" then _ else _) as [[msgs starks] writes].
       injection Hf as <-. done. }
  cbn [andb] in Hf. destruct (env_flag env "HASSAN_ALLOW_UNAUTH_WRITES"); [done|].
  destruct (env_flag env "HASSAN_RELAX_NET"); [done|]. destruct (env_flag env "HASSAN_BOOTSTRAP_EASY") eqn:He; [done|].
  set (token := s ← env "HASSAN_API_TOKEN"; _) in Hf. destruct (bool_decide_reflect (token = None)) as [|Htok]; [done|].
  cbn [andb] in Hf. assert (∃ t, token = Some t) as [t Ht] by (destruct token; [by eexists|done]).
  rewrite Ht in Hf. injection Hf as <-. split_and!; try done.
  - subst token. destruct (env "HASSAN_API_TOKEN") as [raw|]; [|done]. cbn [mbind option_bind] in Ht.
    case_bool_decide as Hnil; [done|]. injection Ht as <-. exists raw, (trim raw). split_and!; [done..|].
    intros [x|]; unfold token_ok; cbn [api_token]; [|done]. rewrite constant_time_eq_iff. naive_solver.
  - intros o Ho. unfold cors_allows, wildcard_refused in Ho. cbn [cors_origins np_public_mode andb] in Ho |- *.
    set (l := from_option _ _ _) in *. destruct (bool_decide (l = [])); [done|].
    destruct (existsb (λ o, bool_decide (o = star)) l) eqn:Hstar; [done|].
    assert (star ∉ l) as Hns.
    { intros Hin. apply Bool.not_true_iff_false in Hstar. apply Hstar, existsb_exists. exists star.
      split; [by apply list_elem_of_In|by apply bool_decide_eq_true]. }
    apply existsb_exists in Ho as (x & Hx%list_elem_of_In & Hor). apply orb_prop in Hor as [He'|He'];
      apply bool_decide_eq_true in He'; subst x; done.
Qed.

(** ** The rate limiter *)

(** What is true of every entry: a ban was set no earlier than its window began, and
    the address was seen since then. *)
Record entry_inv (now : Z) (e : IpState) : Prop := {
  ei_seen : window_start e <= last_seen e <= now;
  ei_count : 0 <= count e <= BAN_THRESHOLD + 1;
  ei_ban u : banned_until e = Some u → window_start e + BAN_DURATION <= u;
  ei_free : banned_until e = None → count e <= BAN_THRESHOLD;
}.
Definition limiter_inv (now : Z) (m : RateLimiter) : Prop := map_Forall (λ _ e, entry_inv now e) m.

Lemma entry_inv_later now now' e : entry_inv now e → now <= now' → entry_inv now' e.
Proof. intros [Hs Hc Hb Hf] Hle. split; [lia|done..]. Qed.

(** Counting: the window goes on or starts now. *)
Lemma count_request_spec now e r e' :
  entry_inv now e → last_seen e = now → banned_until e = None → count_request now e = (r, e') →
  entry_inv now e' ∧ (r = Ok () → count e' <= MAX_REQUESTS_PER_WINDOW) ∧
  ((window_start e' = window_start e ∧ count e' = count e + 1) ∨
   (window_start e' = now ∧ count e' = 1 ∧ window_start e + WINDOW <= now)).
Proof.
  intros [Hs Hc _ Hf] Hl Hb. specialize (Hf Hb). unfold count_request.
  set (e1 := if WINDOW <=? sat_sub now (window_start e) then fresh_window now else e).
  assert (window_start e1 <= last_seen e1 ∧ last_seen e1 = now ∧ 0 <= count e1 <= BAN_THRESHOLD ∧ banned_until e1 = None ∧
    ((window_start e1 = window_start e ∧ count e1 = count e) ∨
     (window_start e1 = now ∧ count e1 = 0 ∧ window_start e + WINDOW <= now))) as (Hs1 & Hl1 & Hc1 & Hb1 & Hw).
  { subst e1. destruct (Z.leb_spec WINDOW (sat_sub now (window_start e))) as [Hw|].
    - cbn [fresh_window window_start last_seen count banned_until]. unfold BAN_THRESHOLD, MAX_REQUESTS_PER_WINDOW.
      unfold sat_sub, WINDOW in *. split_and!; try done; lia.
    - split_and!; try done; lia. }
  clearbody e1. assert (wrap 32 (count e1 + 1) = count e1 + 1) as Hcc.
  { apply wrap_small. unfold in_width, umax, BAN_THRESHOLD, MAX_REQUESTS_PER_WINDOW in *. lia. }
  assert (∀ e', window_start e' = window_start e1 → last_seen e' = now → count e' = count e1 + 1 →
    (∀ u, banned_until e' = Some u → u = now + BAN_DURATION) →
    (banned_until e' = None → count e1 + 1 <= BAN_THRESHOLD) →
    entry_inv now e' ∧ ((window_start e' = window_start e ∧ count e' = count e + 1) ∨
      (window_start e' = now ∧ count e' = 1 ∧ window_start e + WINDOW <= now))) as Hfin.
  { intros e'' Hws Hls Hct Hbu Hfr. split; [split; [lia|lia|intros u Hu; rewrite (Hbu u Hu); lia|rewrite Hct; exact Hfr]|].
    destruct Hw as [[? ?]|(? & ? & ?)]; [left; lia|right; lia]. }
  cbn [counted count]. rewrite Hcc.
  destruct (Z.ltb_spec BAN_THRESHOLD (count e1 + 1)) as [Hbt|Hbt]; [|destruct (Z.ltb_spec MAX_REQUESTS_PER_WINDOW (count e1 + 1)) as [Hm|Hm]];
    intros [= <- <-].
  - destruct (Hfin (with_ban (counted e1) (now + BAN_DURATION)) eq_refl Hl1 Hcc) as [Hi Hw'];
      [by intros u [= <-]|done|]. by split_and!.
  - destruct (Hfin (counted e1) eq_refl Hl1 Hcc) as [Hi Hw']; [intros u Hu; cbn in Hu; congruence|intros _; lia|]. split_and!; done.
  - destruct (Hfin (counted e1) eq_refl Hl1 Hcc) as [Hi Hw']; [intros u Hu; cbn in Hu; congruence|intros _; lia|]. split_and!; try done.
    intros _. cbn [counted count]. rewrite Hcc. lia.
Qed.

Lemma fresh_inv now : entry_inv now (fresh_window now).
Proof. split; cbn; unfold BAN_THRESHOLD, MAX_REQUESTS_PER_WINDOW; [lia|lia|done|lia]. Qed.

(** One request: what happens to the entry of its address and to the others. *)
Lemma check_request_own m now ip r m' :
  limiter_inv now m → check_request m now ip = (r, m') →
  ∃ e', m' !! ip = Some e' ∧ entry_inv now e' ∧ (r = Ok () → count e' <= MAX_REQUESTS_PER_WINDOW) ∧
    ((∃ e, m !! ip = Some e ∧ window_start e' = window_start e ∧
        (count e' = count e + 1 ∨ (count e' = count e ∧ r ≠ Ok ()))) ∨
     (window_start e' = now ∧ count e' = 1 ∧ ∀ e, m !! ip = Some e → window_start e + WINDOW <= now)).
Proof.
  intros Hinv. unfold check_request. set (m1 := filter _ m).
  destruct (check_entry now (default (fresh_window now) (m1 !! ip))) as [r0 e0] eqn:Hce. unfold check_entry in Hce.
  destruct (m1 !! ip) as [e|] eqn:He; cbn [default from_option id] in Hce.
  - apply map_lookup_filter_Some in He as [Hme _]. pose proof (Hinv ip e Hme) as Hie.
    assert (entry_inv now (touch now e)) as Hit.
    { destruct Hie as [Hs Hc Hb Hf]. split; cbn [touch window_start last_seen count banned_until]; [lia|done..]. }
    cbn [touch banned_until] in Hce. destruct (banned_until e) as [u|] eqn:Hbu; [destruct (Z.ltb_spec now u) as [Hlt|Hge]|];
      injection Hce as <- <-.
    + intros [= <- <-]. eexists. split; [apply lookup_insert_eq|]. split_and!; [done..|]. left. exists e.
      split_and!; [done..|]. right. done.
    + destruct (count_request now (fresh_window now)) as [r1 e1] eqn:Hcr. intros [= <- <-].
      destruct (count_request_spec _ _ _ _ (fresh_inv now) eq_refl eq_refl Hcr) as (Hi & Hok & Hw).
      eexists. split; [apply lookup_insert_eq|]. split_and!; [done..|]. right. cbn [fresh_window window_start count] in Hw.
      split_and!; [lia|lia|]. intros e2 He2. rewrite Hme in He2. injection He2 as <-.
      pose proof (ei_ban _ _ Hie u Hbu). unfold BAN_DURATION, WINDOW in *. lia.
    + destruct (count_request now (touch now e)) as [r1 e1] eqn:Hcr. intros [= <- <-].
      destruct (count_request_spec _ _ _ _ Hit eq_refl Hbu Hcr) as (Hi & Hok & Hw). cbn [touch window_start count] in Hw.
      eexists. split; [apply lookup_insert_eq|]. split_and!; [done..|].
      destruct Hw as [[Hw1 Hw2]|(Hw1 & Hw2 & Hw3)]; [left; exists e; split_and!; [done..|by left]|].
      right. split_and!; [done..|]. intros e2 He2. rewrite Hme in He2. by injection He2 as <-.
  - injection Hce as <- <-. change (touch now (fresh_window now)) with (fresh_window now).
    destruct (count_request now (fresh_window now)) as [r1 e1] eqn:Hcr. intros [= <- <-].
    destruct (count_request_spec _ _ _ _ (fresh_inv now) eq_refl eq_refl Hcr) as (Hi & Hok & Hw).
    eexists. split; [apply lookup_insert_eq|]. split_and!; [done..|]. right. cbn [fresh_window window_start count] in Hw.
    split_and!; [lia|lia|]. intros e He2. apply map_lookup_filter_None in He as [He|He]; [congruence|].
    specialize (He e He2). cbn [snd] in He. destruct (Hinv ip e He2) as [Hs _ _ _].
    apply Bool.not_true_iff_false in He. unfold live in He. apply orb_false_elim in He as [Hn _].
    apply Z.ltb_ge in Hn. unfold sat_sub, IP_ENTRY_TTL, WINDOW in *. lia.
Qed.

Lemma check_request_other m now ip r m' ip' :
  limiter_inv now m → check_request m now ip = (r, m') → ip' ≠ ip →
  (m' !! ip' = m !! ip' ∨ (m' !! ip' = None ∧ ∀ e, m !! ip' = Some e → window_start e + WINDOW <= now)).
Proof.
  intros Hinv. unfold check_request. set (m1 := filter _ m).
  destruct (match check_entry _ _ with (Ok _, e) => _ | (Err err, e) => _ end) as [r1 e1]. intros [= <- <-] Hne.
  rewrite lookup_insert_ne by done. subst m1. destruct (m !! ip') as [e|] eqn:He.
  - destruct (live now e) eqn:Hl.
    + left. by apply map_lookup_filter_Some.
    + right. split; [apply map_lookup_filter_None; right; intros x Hx; rewrite He in Hx; injection Hx as <-; cbn [snd]; congruence|].
      intros x [= <-]. destruct (Hinv ip' e He) as [Hs _ _ _]. unfold live in Hl. apply orb_false_elim in Hl as [Hn _].
      apply Z.ltb_ge in Hn. unfold sat_sub, IP_ENTRY_TTL, WINDOW in *. lia.
  - left. apply map_lookup_filter_None. by left.
Qed.

Lemma check_request_inv m now ip r m' :
  limiter_inv now m → check_request m now ip = (r, m') → limiter_inv now m'.
Proof.
  intros Hinv Hc ip' e He. destruct (decide (ip' = ip)) as [->|Hne].
  - destruct (check_request_own _ _ _ _ _ Hinv Hc) as (e' & He' & Hi & _). rewrite He in He'. by injection He' as ->.
  - destruct (check_request_other _ _ _ _ _ ip' Hinv Hc Hne) as [Heq|[Hn _]]; [|congruence].
    apply (Hinv ip'). congruence.
Qed.

(** The number of requests of an address accepted in a sequence of requests. *)
Fixpoint accepted (ip : IpAddr) (m : RateLimiter) (calls : list (Z * IpAddr)) : Z :=
  match calls with
  | [] => 0
  | (now, ip') :: calls =>
      let '(r, m) := check_request m now ip' in
      (if bool_decide (ip' = ip) && is_ok r then 1 else 0) + accepted ip m calls
  end.

(** Requests that may still be accepted before [t + WINDOW], given the entry. *)
Definition allowance (t : Z) (o : option IpState) : Z :=
  MAX_REQUESTS_PER_WINDOW * 2 -
  from_option (λ e, (if t <=? window_start e then MAX_REQUESTS_PER_WINDOW else 0) + Z.min (count e) MAX_REQUESTS_PER_WINDOW)
    MAX_REQUESTS_PER_WINDOW o.

Lemma accepted_allowance t ip m calls start :
  limiter_inv start m → t <= start → StronglySorted Z.le (start :: calls.*1) → Forall (λ c, c.1 < t + WINDOW) calls →
  accepted ip m calls <= allowance t (m !! ip).
Proof.
  revert m start. induction calls as [|[now ip'] calls IH]; intros m start Hinv Ht Hs Hall.
  { unfold allowance. cbn [accepted]. destruct (m !! ip) as [e|]; cbn [from_option]; unfold MAX_REQUESTS_PER_WINDOW;
      [destruct (t <=? _)|]; lia. }
  cbn [fmap list_fmap fst] in Hs. apply StronglySorted_inv in Hs as [Hs Hle]. apply Forall_cons in Hle as [Hle _].
  apply Forall_cons in Hall as [Hnow Hall]. cbn [fst] in *.
  assert (limiter_inv now m) as Hinv1 by (intros i e He; eapply entry_inv_later; [by apply (Hinv i)|done]).
  cbn [accepted]. destruct (check_request m now ip') as [r m'] eqn:Hc.
  specialize (IH m' now (check_request_inv _ _ _ _ _ Hinv1 Hc) ltac:(lia) Hs Hall).
  case_bool_decide as Hip; cbn [andb].
  - subst ip'. destruct (check_request_own _ _ _ _ _ Hinv1 Hc) as (e' & He' & [Hs' Hc' _ _] & Hok & Hcase).
    rewrite He' in IH. unfold allowance in *. cbn [from_option] in IH.
    assert (is_ok r = true → count e' <= MAX_REQUESTS_PER_WINDOW) as Hok'.
    { intros Hr. apply Hok. by destruct r as [[]|]. }
    destruct Hcase as [(e & He & Hws & Hct)|(Hws & Hct & Hold)].
    + rewrite He. cbn [from_option]. rewrite Hws in IH. destruct (Hinv1 ip e He) as [_ Hc0 _ _].
      unfold MAX_REQUESTS_PER_WINDOW in *. destruct (is_ok r) eqn:Hr; [specialize (Hok' eq_refl)|];
        destruct Hct as [Hct|[Hct Hne]]; destruct (t <=? window_start e); try lia;
        destruct r as [[]|]; done || lia.
    + destruct (Z.leb_spec t (window_start e')) as [_|]; [|lia].
      destruct (m !! ip) as [e|] eqn:He; cbn [from_option].
      * specialize (Hold e eq_refl). destruct (Z.leb_spec t (window_start e)); [unfold WINDOW in *; lia|].
        unfold MAX_REQUESTS_PER_WINDOW in *. destruct (is_ok r); lia.
      * unfold MAX_REQUESTS_PER_WINDOW in *. destruct (is_ok r); lia.
  - destruct (check_request_other _ _ _ _ _ ip Hinv1 Hc ltac:(done)) as [Heq|[Hn Hold]]; [rewrite Heq in IH; lia|].
    rewrite Hn in IH. unfold allowance in *. destruct (m !! ip) as [e|] eqn:He; [|done]. specialize (Hold e eq_refl).
    cbn [from_option] in *. destruct (Z.leb_spec t (window_start e)); unfold WINDOW, MAX_REQUESTS_PER_WINDOW in *; lia.
Qed.

(** The rate limit: whatever other addresses do and whatever happened before, in
    any stretch of time shorter than one window the limiter accepts at most twice the
    window limit from one address (the end of one window and the start of the next). *)
Theorem rate_limit_bound t ip m calls :
  limiter_inv t m → StronglySorted Z.le (t :: calls.*1) → Forall (λ c, c.1 < t + WINDOW) calls →
  accepted ip m calls <= MAX_REQUESTS_PER_WINDOW * 2.
Proof.
  intros Hinv Hs Hall. pose proof (accepted_allowance t ip m calls t Hinv ltac:(lia) Hs Hall) as Ha.
  enough (allowance t (m !! ip) <= MAX_REQUESTS_PER_WINDOW * 2) by lia. unfold allowance.
  destruct (m !! ip) as [e|] eqn:He; cbn [from_option]; unfold MAX_REQUESTS_PER_WINDOW; [|lia].
  destruct (Hinv ip e He) as [_ Hc _ _]. destruct (t <=? _); lia.
Qed.

(** ** Dial targets *)

(** Bytes of dotted quads and ports: digits, dots and colons. *)
Definition plain (b : Z) : Prop := 46 <= b <= 58.

(** Printable ASCII. *)
Definition visible (b : Z) : Prop := 33 <= b <= 126.

Lemma visible_no_whitespace l : Forall visible l → whitespace_len l = 0%nat.
Proof.
  intros Hl. destruct l as [|b [|c [|d l]]]; [done|..]; repeat (apply Forall_cons in Hl as [? Hl]); unfold visible in *; simpl;
    repeat match goal with |- context [?x =? ?y] => destruct (Z.eqb_spec x y); [lia|] end;
    repeat match goal with |- context [?x <=? ?y] => destruct (Z.leb_spec x y); try lia end; done.
Qed.

Lemma trim_visible l : Forall visible l → trim l = l.
Proof.
  intros Hl. unfold trim, trim_start.
  assert (trim_start_loop (length l) l = l) as ->.
  { destruct l as [|b l]; [done|]. cbn [length trim_start_loop]. by rewrite visible_no_whitespace. }
  destruct l as [|b l]; [done|]. cbn [length trim_end_loop]. unfold whitespace_end.
  rewrite !visible_no_whitespace by (by apply Forall_drop). done.
Qed.

Lemma trim_plain l : Forall plain l → trim l = l.
Proof. intros Hl. apply trim_visible. eapply Forall_impl; [exact Hl|]. unfold plain, visible. lia. Qed.

Lemma drop_while_plain p l : Forall (λ b, p b = false) l → drop_while p l = l.
Proof. destruct 1 as [|b l Hb]; [done|]. simpl. by rewrite Hb. Qed.

Lemma trim_matches_none p l : Forall (λ b, p b = false) l → trim_matches p l = l.
Proof.
  intros Hl. unfold trim_matches. rewrite (drop_while_plain p l Hl), drop_while_plain by (by apply Forall_rev). apply rev_involutive.
Qed.

Lemma lowercase_plain l : Forall plain l → to_ascii_lowercase l = l.
Proof.
  induction 1 as [|b l Hb _ IH]; [done|]. unfold to_ascii_lowercase in *. rewrite fmap_cons, IH. f_equal.
  unfold is_ascii_uppercase, plain in *. destruct (Z.leb_spec 65 b); [lia|]. done.
Qed.

Lemma plain_not_onion l : Forall plain l → ends_with onion l = false.
Proof.
  intros Hl. unfold ends_with. apply andb_false_intro2, bool_decide_eq_false. intros Heq.
  assert (111 ∈ drop (length l - length onion) l) as Hin by (rewrite Heq; vm_compute; set_solver).
  apply (Forall_drop _ (length l - length onion)) in Hl. rewrite Forall_forall in Hl. apply Hl in Hin. unfold plain in Hin. lia.
Qed.

Lemma read_digits_app radix l ds rest :
  read_digits radix l = (ds, []) → from_option (λ c, to_digit radix c = None) True (head rest) →
  read_digits radix (l ++ rest) = (ds, rest).
Proof.
  revert ds. induction l as [|b l IH]; intros ds; simpl.
  - intros [= <-] Hr. destruct rest as [|c rest]; [done|]. simpl in *. by rewrite Hr.
  - destruct (to_digit radix b); [|done]. destruct (read_digits radix l) as [ds' r'] eqn:Hl. intros [= <- ->] Hr.
    by rewrite (IH ds' eq_refl Hr).
Qed.

(** Decimal numerals without leading zeros, of at most [k] digits. *)
Fixpoint numeral (k : nat) (n : Z) : list Z :=
  match k with
  | O => []
  | S k => if n <? 10 then [n] else numeral k (n / 10) ++ [n mod 10]
  end.
Definition dec (k : nat) (n : Z) : bytes := (λ d, 48 + d) <$> numeral k n.

Lemma numeral_spec k n :
  0 <= n < 10 ^ Z.of_nat k →
  Forall (λ d, 0 <= d <= 9) (numeral k n) ∧ digits_value 10 (numeral k n) = n ∧ (length (numeral k n) <= k)%nat ∧
  (0 < n → from_option (λ d, d ≠ 0) False (head (numeral k n))) ∧
  (k ≠ 0%nat → (1 <= length (numeral k n))%nat) ∧ (n < 10 → (length (numeral k n) <= 1)%nat).
Proof.
  revert n. induction k as [|k IH]; intros n Hn.
  { change (10 ^ Z.of_nat 0) with 1 in Hn. assert (n = 0) as -> by lia. split_and!; try done; simpl; lia. }
  cbn [numeral]. destruct (Z.ltb_spec n 10) as [Hlt|Hge].
  { split_and!; simpl; try lia; try (constructor; [lia|done]). done. }
  rewrite Nat2Z.inj_succ, Z.pow_succ_r in Hn by lia. pose proof (Z.div_mod n 10 ltac:(lia)) as Hdm.
  pose proof (Z.mod_pos_bound n 10 ltac:(lia)) as Hmod.
  assert (1 <= n / 10) as Hq by (apply Z.div_le_lower_bound; lia).
  destruct (IH (n / 10)) as (Hf & Hv & Hl & Hh & Hk & _); [split; [lia|apply Z.div_lt_upper_bound; lia]|].
  specialize (Hh ltac:(lia)). unfold digits_value in *. rewrite foldl_app, length_app. cbn [foldl length].
  split_and!; try lia.
  - apply Forall_app. split; [done|]. constructor; [lia|done].
  - by destruct (numeral k (n / 10)).
Qed.

Lemma to_digit_dec d : 0 <= d <= 9 → to_digit 10 (48 + d) = Some d.
Proof.
  intros Hd. unfold to_digit. destruct (Z.leb_spec 48 (48 + d)); [|lia]. destruct (Z.leb_spec (48 + d) 57); [|lia]. cbn [andb].
  replace (48 + d - 48) with d by lia. destruct (Z.ltb_spec d 10); [done|lia].
Qed.

Lemma read_digits_dec ds : Forall (λ d, 0 <= d <= 9) ds → read_digits 10 ((λ d, 48 + d) <$> ds) = (ds, []).
Proof. induction 1 as [|d ds Hd _ IH]; [done|]. rewrite fmap_cons. cbn [read_digits]. by rewrite to_digit_dec, IH. Qed.

Lemma read_octet n rest :
  0 <= n < 256 → from_option (λ c, to_digit 10 c = None) True (head rest) →
  read_number 10 255 3 false (dec 3 n ++ rest) = Some (n, rest).
Proof.
  intros Hn Hr. destruct (numeral_spec 3 n ltac:(simpl; lia)) as (Hf & Hv & Hl & Hh & Hk & Ho).
  unfold read_number, dec. rewrite (read_digits_app _ _ _ _ (read_digits_dec _ Hf) Hr), Hv.
  destruct (Nat.ltb_spec 3 (length (numeral 3 n))); [lia|].
  destruct (Nat.eqb_spec (length (numeral 3 n)) 0); [specialize (Hk ltac:(done)); lia|].
  assert (bool_decide (head (((λ d, 48 + d) <$> numeral 3 n) ++ rest) = Some 48) &&
          (1 <? length (numeral 3 n))%nat = false) as Hz.
  { apply andb_false_iff. destruct (Z.ltb_spec 0 n) as [Hp|Hz].
    - left. apply bool_decide_eq_false. specialize (Hh Hp). destruct (numeral 3 n) as [|d ds]; [done|]. simpl in *. intros [= Heq]. lia.
    - right. apply Nat.ltb_ge, Ho. lia. }
  cbn [negb andb]. rewrite Hz. destruct (Z.ltb_spec 255 n); [lia|done].
Qed.

Lemma parse_digits_dec m ds acc :
  Forall (λ d, 0 <= d <= 9) ds → 0 <= acc → foldl (λ a d, a * 10 + d) acc ds <= m →
  parse_digits m acc ((λ d, 48 + d) <$> ds) = Some (foldl (λ a d, a * 10 + d) acc ds).
Proof.
  assert (∀ l a, Forall (λ d, 0 <= d <= 9) l → 0 <= a → a <= foldl (λ a d, a * 10 + d) a l) as Hmono.
  { intros l. induction l as [|d l IH]; intros a Hl Ha; [done|]. apply Forall_cons in Hl as [Hd Hl]. simpl.
    etrans; [|apply IH; [done|lia]]. lia. }
  intros Hf. revert acc. induction Hf as [|d ds Hd Hf IH]; intros acc Ha Hm; [done|].
  rewrite fmap_cons. cbn [parse_digits foldl] in *. rewrite to_digit_dec by done. cbn [mbind option_bind].
  pose proof (Hmono ds (acc * 10 + d) Hf ltac:(lia)). destruct (Z.ltb_spec m (acc * 10 + d)); [lia|]. apply IH; lia.
Qed.

Lemma parse_port n : 0 <= n < 65536 → parse_uint 65535 (dec 5 n) = Some n.
Proof.
  intros Hn. destruct (numeral_spec 5 n ltac:(simpl; lia)) as (Hf & Hv & Hl & _ & Hk & _). unfold parse_uint, dec.
  specialize (Hk ltac:(done)). destruct (numeral 5 n) as [|d ds] eqn:Hnum; [simpl in Hk; lia|]. rewrite fmap_cons.
  destruct (Z.eqb_spec (48 + d) 43); [apply Forall_cons in Hf as [? _]; lia|]. rewrite <- fmap_cons.
  unfold digits_value in Hv. rewrite (parse_digits_dec 65535 (d :: ds) 0); [by rewrite Hv|done|lia|lia].
Qed.

Definition dotted (a b c d : Z) : bytes := dec 3 a ++ 46 :: dec 3 b ++ 46 :: dec 3 c ++ 46 :: dec 3 d.

Lemma dec_plain k n : 0 <= n < 10 ^ Z.of_nat k → Forall (λ b, 48 <= b <= 57) (dec k n) ∧ (length (dec k n) <= k)%nat.
Proof.
  intros Hn. destruct (numeral_spec k n Hn) as (Hf & _ & Hl & _). unfold dec. rewrite length_fmap. split; [|done].
  apply Forall_fmap. eapply Forall_impl; [exact Hf|]. simpl. lia.
Qed.

Definition is_octet (n : Z) : Prop := 0 <= n < 256.

Lemma parse_dotted a b c d :
  is_octet a → is_octet b → is_octet c → is_octet d → parse_ip (dotted a b c d) = Some (V4 [a; b; c; d]).
Proof.
  unfold is_octet. intros Ha Hb Hc Hd. unfold parse_ip, read_ipv4_addr, dotted. cbn [read_octets read_separator].
  rewrite (read_octet a) by done. cbn [mbind option_bind read_char]. change (46 =? 46) with true. cbn iota.
  cbn [mbind option_bind]. rewrite (read_octet b) by done. cbn [mbind option_bind read_char]. change (46 =? 46) with true. cbn iota.
  cbn [mbind option_bind]. rewrite (read_octet c) by done. cbn [mbind option_bind read_char]. change (46 =? 46) with true. cbn iota.
  cbn [mbind option_bind]. rewrite <- (app_nil_r (dec 3 d)), (read_octet d) by done. cbn [mbind option_bind].
  by rewrite bool_decide_eq_true_2.
Qed.

Lemma dotted_plain a b c d :
  is_octet a → is_octet b → is_octet c → is_octet d →
  Forall (λ x, 46 <= x <= 57) (dotted a b c d) ∧ (length (dotted a b c d) <= 15)%nat.
Proof.
  intros Ha Hb Hc Hd.
  assert (∀ n, is_octet n → Forall (λ x, 46 <= x <= 57) (dec 3 n) ∧ (length (dec 3 n) <= 3)%nat) as Hdec.
  { intros n Hn. unfold is_octet in Hn. destruct (dec_plain 3 n ltac:(simpl; lia)) as [Hf Hl]. split; [|done].
    eapply Forall_impl; [exact Hf|]. simpl. lia. }
  destruct (Hdec a Ha), (Hdec b Hb), (Hdec c Hc), (Hdec d Hd). unfold dotted. split.
  - repeat (apply Forall_app_2; [done|]; try (constructor; [lia|])). done.
  - rewrite !length_app. cbn [length]. rewrite !length_app. cbn [length]. rewrite !length_app. cbn [length]. lia.
Qed.

Lemma dial_host_dotted a b c d port :
  is_octet a → is_octet b → is_octet c → is_octet d → 0 < port < 65536 →
  dial_host (dotted a b c d ++ COLON :: dec 5 port) = Some (dotted a b c d).
Proof.
  intros Ha Hb Hc Hd Hp. destruct (dotted_plain a b c d Ha Hb Hc Hd) as [Hf Hl].
  destruct (dec_plain 5 port ltac:(simpl; lia)) as [Hfp Hlp]. unfold dial_host.
  assert (Forall plain (dotted a b c d)) as Hpl by (eapply Forall_impl; [exact Hf|]; unfold plain; simpl; lia).
  rewrite trim_plain.
  2: { apply Forall_app_2; [done|]. constructor; [unfold plain, COLON; lia|].
       eapply Forall_impl; [exact Hfp|]. unfold plain. simpl. lia. }
  assert (bool_decide (dotted a b c d ++ COLON :: dec 5 port = []) = false) as ->.
  { apply bool_decide_eq_false. intros Hnil%app_eq_nil. by destruct Hnil. }
  destruct (Z.ltb_spec 256 (len (dotted a b c d ++ COLON :: dec 5 port))) as [Hbig|_].
  { unfold len in Hbig. rewrite length_app in Hbig. cbn [length] in Hbig. lia. }
  cbn [orb]. rewrite rsplit_once_last.
  2: { eapply Forall_impl; [exact Hfp|]. unfold COLON. simpl. lia. }
  cbn [mbind option_bind]. rewrite parse_port by lia. cbn [mbind option_bind].
  destruct (Z.eqb_spec port 0); [lia|]. rewrite trim_matches_none, lowercase_plain; [done|done|].
  eapply Forall_impl; [exact Hf|]. simpl. intros x Hx. unfold is_bracket.
  destruct (Z.eqb_spec x 91); [lia|]. destruct (Z.eqb_spec x 93); [lia|done].
Qed.

(** On dotted-quad targets the strict dial filter is exact: with a port from 1 to
    65535, [a.b.c.d:port] is accepted precisely when the address is not unspecified,
    broadcast, loopback, private (RFC 1918) or link-local, so no such target that
    names an internal IPv4 host directly is dialled. *)
Theorem strict_dial_ipv4 a b c d port :
  is_octet a → is_octet b → is_octet c → is_octet d → 0 < port < 65536 →
  let o := [a; b; c; d] in
  is_publicly_dialable (dotted a b c d ++ COLON :: dec 5 port) =
  negb (v4_is_unspecified o || v4_is_broadcast o || v4_is_loopback o || v4_is_private o || v4_is_link_local o).
Proof.
  intros Ha Hb Hc Hd Hp o. unfold is_publicly_dialable. rewrite dial_host_dotted by done.
  destruct (dotted_plain a b c d Ha Hb Hc Hd) as [Hf _].
  rewrite plain_not_onion by (eapply Forall_impl; [exact Hf|]; unfold plain; simpl; lia).
  rewrite parse_dotted by done. fold o. by rewrite !negb_orb.
Qed.

(** The strict dial filter does not look into IPv4-mapped IPv6 addresses, nor
    behind names: it refuses [127.0.0.1:80], [169.254.169.254:80] and [10.0.0.1:80], but
    accepts the same hosts written as mapped addresses, and [localhost]. *)
Theorem strict_dial_bypass :
  Forall (λ a, is_publicly_dialable (str_bytes a) = false) ["127.0.0.1:80"; "169.254.169.254:80"; "10.0.0.1:80"] ∧
  Forall (λ a, is_publicly_dialable (str_bytes a) = true)
    ["[::ffff:127.0.0.1]:80"; "[::ffff:169.254.169.254]:80"; "[::ffff:10.0.0.1]:80"; "localhost:80"].
Proof. split; apply (bool_decide_unpack _); vm_compute; exact I. Qed.

(** ** Witnesses *)
Lemma public_lock_witness :
  ∃ p, from_env (λ n, if bool_decide (n = "HASSAN_PUBLIC") then Some (str_bytes "1")
                      else if bool_decide (n = "HASSAN_API_TOKEN") then Some (str_bytes "secret") else None) [] = Ok p ∧
    strict_dials p = true.
Proof.
  eexists. split; [vm_compute; reflexivity|].
  apply (public_lock (λ n, if bool_decide (n = "HASSAN_PUBLIC") then Some (str_bytes "1")
    else if bool_decide (n = "HASSAN_API_TOKEN") then Some (str_bytes "secret") else None) []); vm_compute; reflexivity.
Defined.

Lemma rate_limit_bound_witness :
  accepted (V4 [10; 0; 0; 1]) ∅ (replicate 300 (5, V4 [10; 0; 0; 1])) <= 240.
Proof.
  apply (rate_limit_bound 0 (V4 [10; 0; 0; 1]) ∅ (replicate 300 (5, V4 [10; 0; 0; 1]))).
  - apply map_Forall_empty.
  - apply (bool_decide_unpack _). vm_compute. exact I.
  - apply (bool_decide_unpack _). vm_compute. exact I.
Defined.

Lemma strict_dial_ipv4_witness :
  is_publicly_dialable (dotted 10 0 0 1 ++ COLON :: dec 5 9333) = false.
Proof.
  rewrite (strict_dial_ipv4 10 0 0 1 9333); [reflexivity|..]; unfold is_octet; lia.
Defined.
