(* ===== verification/AddrMan.v ===== *)
(** * The peer address manager

    [src/src/addrman.rs]: the new and tried tables, each a vector of buckets, and the
    feeler queue, with every operation.  Clocks are arguments. *)

From S2P Require Import Prelude Genesis Crypto Address Net.

Definition NEW_BUCKETS : nat := 64.
Definition TRIED_BUCKETS : nat := 32.
Definition ADDRS_PER_BUCKET : nat := 64.
Definition MAX_ADDRS_TOTAL : nat := 2048.

Record AddrRecord := {
  ar_addr : bytes;
  last_success_ms : Z;
  last_try_ms : Z;
  attempts : Z;
  source : bytes;
}.
Abbreviation Buckets := (list (list AddrRecord)) (only parsing).
Record AddrMan := { am_new : Buckets; am_tried : Buckets; am_feelers : list bytes }.

Definition parse_host (addr : bytes) : option IpAddr :=
  parse_ip (from_option (λ hp, trim_matches is_bracket hp.1) addr (rsplit_once COLON addr)).

(** The order of strings: bytewise. *)
Fixpoint bytes_leb (a b : bytes) : bool :=
  match a, b with
  | [], _ => true
  | _ :: _, [] => false
  | x :: a, y :: b => (x <? y) || ((x =? y) && bytes_leb a b)
  end.
Definition bytes_le (a b : bytes) : Prop := bytes_leb a b = true.
#[global] Instance bytes_le_dec : RelDecision bytes_le.
Proof. intros a b. unfold bytes_le. apply _. Defined.
(** [Vec::dedup]. *)
Fixpoint dedup_bytes (l : list bytes) : list bytes :=
  match l with
  | [] => []
  | x :: l => match l with y :: _ => if bool_decide (x = y) then dedup_bytes l else x :: dedup_bytes l | [] => [x] end
  end.

Section addrman.
Context `{!Crypto}.

Definition bucket_for (addr : bytes) (n_buckets : nat) (salt : Z) : nat :=
  let v := le_int (blake3_xof (str_bytes "hassan-addrman-bucket-v1" ++ [salt] ++ addr ++
                               from_option net_group [] (parse_host addr)) 8) in
  Z.to_nat (v mod Z.of_nat (Nat.max n_buckets 1)).

Definition AddrMan_new : AddrMan :=
  {| am_new := replicate NEW_BUCKETS []; am_tried := replicate TRIED_BUCKETS []; am_feelers := [] |}.

(** [Vec::resize] with empty buckets. *)
Definition resize_buckets (n : nat) (b : Buckets) : Buckets := take n b ++ replicate (n - length b) [].
Definition ensure_buckets (am : AddrMan) : AddrMan :=
  {| am_new := resize_buckets NEW_BUCKETS (am_new am); am_tried := resize_buckets TRIED_BUCKETS (am_tried am);
     am_feelers := am_feelers am |}.

Definition am_len (am : AddrMan) : nat := length (concat (am_new am)) + length (concat (am_tried am)).
Definition contains_addr (b : Buckets) (addr : bytes) : bool :=
  existsb (existsb (λ r, bool_decide (ar_addr r = addr))) b.
Definition am_contains (am : AddrMan) (addr : bytes) : bool :=
  contains_addr (am_new am) addr || contains_addr (am_tried am) addr.

(** [bucket.push] after dropping the oldest entry of a full bucket. *)
Definition push_record (r : AddrRecord) (bucket : list AddrRecord) : list AddrRecord :=
  (if Nat.leb ADDRS_PER_BUCKET (length bucket) then drop 1 bucket else bucket) ++ [r].

(** [AddrMan::add]. *)
Definition am_add (am : AddrMan) (addr src : bytes) : bool * AddrMan :=
  let am := ensure_buckets am in
  if bool_decide (addr = []) || am_contains am addr then (false, am) else
  if Nat.leb MAX_ADDRS_TOTAL (am_len am) then (false, am) else
  let b := bucket_for addr NEW_BUCKETS 0x4e in
  let r := {| ar_addr := addr; last_success_ms := 0; last_try_ms := 0; attempts := 0; source := src |} in
  (true, {| am_new := alter (push_record r) b (am_new am); am_tried := am_tried am;
            am_feelers := if bool_decide (addr ∈ am_feelers am) then am_feelers am else am_feelers am ++ [addr] |}).

(** The first record of an address, updated. *)
Fixpoint update_first (f : AddrRecord → AddrRecord) (addr : bytes) (bucket : list AddrRecord) : list AddrRecord :=
  match bucket with
  | [] => []
  | r :: bucket => if bool_decide (ar_addr r = addr) then f r :: bucket else r :: update_first f addr bucket
  end.
Definition succeeded (now : Z) (r : AddrRecord) : AddrRecord :=
  {| ar_addr := ar_addr r; last_success_ms := now; last_try_ms := last_try_ms r; attempts := 0; source := source r |}.
Definition failed (now : Z) (r : AddrRecord) : AddrRecord :=
  {| ar_addr := ar_addr r; last_success_ms := last_success_ms r; last_try_ms := now;
     attempts := sat_add 32 (attempts r) 1; source := source r |}.

(** [AddrMan::good]. *)
Definition has_record (addr : bytes) (bucket : list AddrRecord) : bool := existsb (λ r, bool_decide (ar_addr r = addr)) bucket.
Definition promote (now : Z) (addr : bytes) (bucket : list AddrRecord) : list AddrRecord :=
  if has_record addr bucket then update_first (succeeded now) addr bucket else
  push_record {| ar_addr := addr; last_success_ms := now; last_try_ms := now; attempts := 0; source := str_bytes "good" |} bucket.
Definition am_good (am : AddrMan) (now : Z) (addr : bytes) : AddrMan :=
  let am := ensure_buckets am in
  {| am_new := List.filter (λ r, negb (bool_decide (ar_addr r = addr))) <$> am_new am;
     am_tried := alter (promote now addr) (bucket_for addr TRIED_BUCKETS 0x54) (am_tried am);
     am_feelers := List.filter (λ a, negb (bool_decide (a = addr))) (am_feelers am) |}.

(** [AddrMan::attempted]. *)
Definition am_attempted (am : AddrMan) (now : Z) (addr : bytes) : AddrMan :=
  let am := ensure_buckets am in
  {| am_new := update_first (failed now) addr <$> am_new am; am_tried := update_first (failed now) addr <$> am_tried am;
     am_feelers := am_feelers am |}.

(** [AddrMan::select]: the group test has no effect. *)
Definition select_push (n : nat) (exclude : gset bytes) (out : list bytes) (addr : bytes) : list bytes :=
  if Nat.leb n (length out) || bool_decide (addr ∈ exclude) then out else
  if bool_decide (addr ∈ out) then out else out ++ [addr].
Definition am_select (am : AddrMan) (n : nat) (exclude : gset bytes) : list bytes :=
  foldl (select_push n exclude) [] (ar_addr <$> concat (am_tried am) ++ concat (am_new am)).

(** [AddrMan::select_feeler]: pops from the end until an address of the new table. *)
Fixpoint pop_feeler (new : Buckets) (feelers : list bytes) : option bytes * list bytes :=
  match feelers with
  | [] => (None, [])
  | addr :: feelers => if contains_addr new addr then (Some addr, feelers) else pop_feeler new feelers
  end.
Definition am_select_feeler (am : AddrMan) : option bytes * AddrMan :=
  let am := ensure_buckets am in
  let '(o, rest) := pop_feeler (am_new am) (rev (am_feelers am)) in
  (o, {| am_new := am_new am; am_tried := am_tried am; am_feelers := rev rest |}).

(** [AddrMan::sample_for_addr_msg]. *)
Definition sample_for_addr_msg (am : AddrMan) (max : nat) : list bytes :=
  take max (dedup_bytes (merge_sort bytes_le (ar_addr <$> concat (am_tried am) ++ concat (am_new am)))).


(** ** The invariant *)

(** One table: every address sits in the bucket its hash names, once, and no bucket is
    over its size. *)
Record table_ok (n : nat) (salt : Z) (t : Buckets) : Prop := {
  tbl_len : length t = n;
  tbl_small : Forall (λ b, (length b <= ADDRS_PER_BUCKET)%nat) t;
  tbl_place i b r : t !! i = Some b → r ∈ b → i = bucket_for (ar_addr r) n salt;
  tbl_nodup : Forall (λ b, NoDup (ar_addr <$> b)) t;
}.
Definition in_table (t : Buckets) (a : bytes) : Prop := ∃ b r, b ∈ t ∧ r ∈ b ∧ ar_addr r = a.
Record addrman_ok (am : AddrMan) : Prop := {
  am_new_ok : table_ok NEW_BUCKETS 0x4e (am_new am);
  am_tried_ok : table_ok TRIED_BUCKETS 0x54 (am_tried am);
  am_apart a : in_table (am_new am) a → in_table (am_tried am) a → False;
  am_feelers_nodup : NoDup (am_feelers am);
}.

Lemma contains_addr_spec t a : contains_addr t a = true ↔ in_table t a.
Proof.
  unfold contains_addr, in_table. rewrite existsb_exists. split.
  - intros (b & Hb & (r & Hr & Ha)%existsb_exists). exists b, r. rewrite !list_elem_of_In. by apply bool_decide_eq_true in Ha.
  - intros (b & r & Hb & Hr & Ha). exists b. rewrite <- list_elem_of_In. split; [done|]. apply existsb_exists. exists r.
    rewrite <- list_elem_of_In. split; [done|]. by apply bool_decide_eq_true.
Qed.

Lemma ensure_buckets_ok am : addrman_ok am → ensure_buckets am = am.
Proof.
  intros [[Hn _ _ _] [Ht _ _ _] _ _]. unfold ensure_buckets, resize_buckets. rewrite Hn, Ht, !Nat.sub_diag, !take_ge by lia.
  simpl. rewrite !app_nil_r. by destruct am.
Qed.

(** Changing one bucket of a table. *)
Lemma table_ok_alter n salt t f i :
  table_ok n salt t → 
  (∀ b, t !! i = Some b → (length (f b) <= ADDRS_PER_BUCKET)%nat ∧ NoDup (ar_addr <$> f b) ∧
    ∀ r, r ∈ f b → i = bucket_for (ar_addr r) n salt) →
  table_ok n salt (alter f i t).
Proof.
  intros [Hl Hs Hp Hnd] Hf. rewrite Forall_lookup in Hs, Hnd.
  assert (∀ j b, alter f i t !! j = Some b → (j = i ∧ ∃ b0, t !! i = Some b0 ∧ b = f b0) ∨ t !! j = Some b) as Hlk.
  { intros j b Hj. destruct (decide (j = i)) as [->|Hne].
    - rewrite list_lookup_alter_eq in Hj. apply fmap_Some in Hj as (b0 & Hb0 & ->). left. split; [done|]. by exists b0.
    - rewrite list_lookup_alter_ne in Hj by done. by right. }
  split.
  - by rewrite length_alter.
  - apply Forall_lookup. intros j b [(-> & b0 & Hb0 & ->)|Hj]%Hlk; [by apply Hf|by apply (Hs j)].
  - intros j b r [(-> & b0 & Hb0 & ->)|Hj]%Hlk Hr; [by apply (Hf b0 Hb0)|by apply (Hp j b)].
  - apply Forall_lookup. intros j b [(-> & b0 & Hb0 & ->)|Hj]%Hlk; [by apply Hf|by apply (Hnd j)].
Qed.

(** Mapping every bucket to a part of it, up to the other fields. *)
Lemma table_ok_map n salt t f :
  table_ok n salt t → (∀ b, (ar_addr <$> f b) `sublist_of` (ar_addr <$> b)) → table_ok n salt (f <$> t).
Proof.
  intros [Hl Hs Hp Hnd] Hf. rewrite Forall_lookup in Hs, Hnd. split.
  - by rewrite length_fmap.
  - apply Forall_lookup. intros j b (b0 & -> & Hb0)%list_lookup_fmap_Some. specialize (Hs j b0 Hb0).
    pose proof (sublist_length _ _ (Hf b0)) as Hle. rewrite !length_fmap in Hle. lia.
  - intros j b r (b0 & -> & Hb0)%list_lookup_fmap_Some Hr.
    assert (ar_addr r ∈ ar_addr <$> b0) as (r0 & Hr0 & Hin)%list_elem_of_fmap.
    { apply (elem_of_sublist (ar_addr <$> f b0)); [by apply list_elem_of_fmap_2|apply Hf]. }
    rewrite Hr0. by apply (Hp j b0).
  - apply Forall_lookup. intros j b (b0 & -> & Hb0)%list_lookup_fmap_Some. eapply sublist_NoDup; [by apply (Hnd j)|apply Hf].
Qed.

Lemma in_table_map t f a :
  (∀ b, (ar_addr <$> f b) `sublist_of` (ar_addr <$> b)) → in_table (f <$> t) a → in_table t a.
Proof.
  intros Hf (b & r & (b0 & -> & Hb0)%list_elem_of_fmap & Hr & <-).
  assert (ar_addr r ∈ ar_addr <$> b0) as (r0 & Hr0 & Hin)%list_elem_of_fmap.
  { apply (elem_of_sublist (ar_addr <$> f b0)); [by apply list_elem_of_fmap_2|apply Hf]. }
  by exists b0, r0.
Qed.

Lemma update_first_addr f a b : (∀ r, ar_addr (f r) = ar_addr r) → ar_addr <$> update_first f a b = ar_addr <$> b.
Proof.
  intros Hf. induction b as [|r b IH]; [done|]. simpl. destruct (bool_decide (ar_addr r = a)); rewrite !fmap_cons; [by rewrite Hf|by rewrite IH].
Qed.

Lemma filter_sublist (f : AddrRecord → bool) b : (ar_addr <$> List.filter f b) `sublist_of` (ar_addr <$> b).
Proof. apply fmap_sublist, filter_bool_sublist. Qed.

Lemma push_record_spec r b :
  (length b <= ADDRS_PER_BUCKET)%nat → NoDup (ar_addr <$> b) → (ar_addr r ∉ (ar_addr <$> b)) →
  (length (push_record r b) <= ADDRS_PER_BUCKET)%nat ∧ NoDup (ar_addr <$> push_record r b) ∧
  ∀ x, x ∈ push_record r b → x ∈ b ∨ x = r.
Proof.
  intros Hl Hnd Hn. unfold push_record. set (b' := if Nat.leb _ _ then _ else _).
  assert (b' `sublist_of` b ∧ (length b' < ADDRS_PER_BUCKET)%nat) as [Hsub Hlen].
  { subst b'. destruct (Nat.leb_spec ADDRS_PER_BUCKET (length b)) as [Hf|]; [|done].
    split; [apply sublist_drop|]. rewrite length_drop. unfold ADDRS_PER_BUCKET in *. lia. }
  pose proof (fmap_sublist ar_addr _ _ Hsub) as Hsub'. split_and!.
  - rewrite length_app. simpl. lia.
  - rewrite fmap_app. apply NoDup_app. split_and!; [by eapply sublist_NoDup| |apply NoDup_singleton].
    intros a Ha ->%list_elem_of_singleton. apply Hn. by eapply elem_of_sublist.
  - intros x [Hx| ->%list_elem_of_singleton]%elem_of_app; [left; by eapply elem_of_sublist|by right].
Qed.

Lemma in_table_alter t f i a :
  in_table (alter f i t) a → in_table t a ∨ ∃ b r, t !! i = Some b ∧ r ∈ f b ∧ ar_addr r = a.
Proof.
  intros (b & r & [j Hj]%list_elem_of_lookup & Hr & Ha). destruct (decide (j = i)) as [->|Hne].
  - rewrite list_lookup_alter_eq in Hj. apply fmap_Some in Hj as (b0 & Hb0 & ->). right. by exists b0, r.
  - rewrite list_lookup_alter_ne in Hj by done. left. exists b, r. split; [by eapply list_elem_of_lookup_2|done].
Qed.

Lemma not_in_bucket t i b a : ¬ in_table t a → t !! i = Some b → a ∉ (ar_addr <$> b).
Proof. intros Hn Hb (r & -> & Hr)%list_elem_of_fmap. apply Hn. exists b, r. split; [by eapply list_elem_of_lookup_2|done]. Qed.

Lemma table_ok_new n salt : table_ok n salt (replicate n []).
Proof.
  split.
  - by rewrite length_replicate.
  - apply Forall_replicate. simpl. lia.
  - intros i b r [-> _]%lookup_replicate Hr. by apply not_elem_of_nil in Hr.
  - apply Forall_replicate, NoDup_nil_2.
Qed.

Lemma am_add_ok am a src : addrman_ok am → addrman_ok (am_add am a src).2.
Proof.
  intros Hok. unfold am_add. rewrite (ensure_buckets_ok am Hok). destruct (bool_decide (a = []) || am_contains am a) eqn:Hc; [done|].
  destruct (Nat.leb _ _); [done|]. apply orb_false_elim in Hc as [_ Hc]. unfold am_contains in Hc. apply orb_false_elim in Hc as [Hcn Hct].
  assert (¬ in_table (am_new am) a) as Hn by (rewrite <- contains_addr_spec; congruence).
  assert (¬ in_table (am_tried am) a) as Ht by (rewrite <- contains_addr_spec; congruence).
  destruct Hok as [Hnew Htr Hap Hfe]. set (r := {| ar_addr := a |}). cbn [snd].
  assert (∀ b, am_new am !! bucket_for a NEW_BUCKETS 0x4e = Some b →
    (length (push_record r b) <= ADDRS_PER_BUCKET)%nat ∧ NoDup (ar_addr <$> push_record r b) ∧
    ∀ x, x ∈ push_record r b → x ∈ b ∨ x = r) as Hpush.
  { intros b Hb. destruct Hnew as [_ Hs _ Hnd]. rewrite Forall_lookup in Hs, Hnd.
    apply push_record_spec; [by apply (Hs _ _ Hb)|by apply (Hnd _ _ Hb)|by apply (not_in_bucket _ _ _ _ Hn Hb)]. }
  split; cbn [am_new am_tried am_feelers]; [|done| |].
  - apply table_ok_alter; [done|]. intros b Hb. destruct (Hpush b Hb) as (? & ? & Hin). split_and!; [done..|].
    intros x [Hx| ->]%Hin; [by apply (tbl_place _ _ _ Hnew _ b)|done].
  - intros x [Hx|(b & y & Hb & Hy & <-)]%in_table_alter Hx'; [by apply (Hap x)|].
    destruct (Hpush b Hb) as (_ & _ & Hin). apply Hin in Hy as [Hy| ->]; [|done].
    apply (Hap (ar_addr y)); [|done]. exists b, y. split; [by eapply list_elem_of_lookup_2|done].
  - case_bool_decide as Hin; [done|]. apply NoDup_app. split_and!; [done| |apply NoDup_singleton].
    intros x Hx ->%list_elem_of_singleton. done.
Qed.

Lemma am_good_ok am now a : addrman_ok am → addrman_ok (am_good am now a).
Proof.
  intros Hok. unfold am_good. rewrite (ensure_buckets_ok am Hok). destruct Hok as [Hnew Htr Hap Hfe].
  set (keep := λ r, negb (bool_decide (ar_addr r = a))).
  assert (∀ b, am_tried am !! bucket_for a TRIED_BUCKETS 0x54 = Some b →
    (length (promote now a b) <= ADDRS_PER_BUCKET)%nat ∧ NoDup (ar_addr <$> promote now a b) ∧
    ∀ x, x ∈ promote now a b → ar_addr x ∈ (ar_addr <$> b) ∨ ar_addr x = a) as Hprom.
  { intros b Hb. destruct Htr as [_ Hs _ Hnd]. rewrite Forall_lookup in Hs, Hnd. unfold promote.
    destruct (has_record a b) eqn:Hh.
    - assert (ar_addr <$> update_first (succeeded now) a b = ar_addr <$> b) as Heq by (by apply update_first_addr).
      split_and!; [|by rewrite Heq; apply (Hnd _ _ Hb)|].
      + apply (f_equal length) in Heq. rewrite !length_fmap in Heq. rewrite Heq. by apply (Hs _ _ Hb).
      + intros x Hx. left. rewrite <- Heq. by apply list_elem_of_fmap_2.
    - set (r := {| ar_addr := a |}). destruct (push_record_spec r b (Hs _ _ Hb) (Hnd _ _ Hb)) as (? & ? & Hin).
      { intros (y & Hy & Hyb)%list_elem_of_fmap. apply Bool.not_true_iff_false in Hh. apply Hh, existsb_exists. exists y.
        split; [by apply list_elem_of_In|by apply bool_decide_eq_true]. }
      split_and!; [done..|]. intros x [Hx| ->]%Hin; [left; by apply list_elem_of_fmap_2|by right]. }
  split; cbn [am_new am_tried am_feelers].
  - apply table_ok_map; [done|]. intros b. apply filter_sublist.
  - apply table_ok_alter; [done|]. intros b Hb. destruct (Hprom b Hb) as (? & ? & Hin). split_and!; [done..|].
    intros x Hx. destruct (Hin x Hx) as [(y & Hy & Hyb)%list_elem_of_fmap| ->]; [|done].
    rewrite Hy. by apply (tbl_place _ _ _ Htr _ b).
  - intros x Hx Hx'. assert (x ≠ a) as Hxa.
    { destruct Hx as (b & r & (b0 & -> & _)%list_elem_of_fmap & Hr & <-). apply list_elem_of_In, filter_In in Hr as [_ Hr].
      unfold keep in Hr. apply negb_true_iff, bool_decide_eq_false in Hr. done. }
    apply (in_table_map _ _ _ (λ b, filter_sublist _ b)) in Hx.
    apply in_table_alter in Hx' as [Hx'|(b & y & Hb & Hy & <-)]; [by apply (Hap x)|].
    destruct (Hprom b Hb) as (_ & _ & Hin). destruct (Hin y Hy) as [(z & Hz & Hzb)%list_elem_of_fmap|]; [|done].
    apply (Hap (ar_addr y)); [done|]. exists b, z. split; [by eapply list_elem_of_lookup_2|]. split; [done|congruence].
  - clear -Hfe. induction Hfe as [|x l Hx _ IH]; [apply NoDup_nil_2|]. simpl. destruct (negb _); [|done].
    apply NoDup_cons. split; [|done]. intros Hin%list_elem_of_In%filter_In. apply Hx, list_elem_of_In. tauto.
Qed.

Lemma am_attempted_ok am now a : addrman_ok am → addrman_ok (am_attempted am now a).
Proof.
  intros Hok. unfold am_attempted. rewrite (ensure_buckets_ok am Hok). destruct Hok as [Hnew Htr Hap Hfe].
  assert (∀ b, (ar_addr <$> update_first (failed now) a b) `sublist_of` (ar_addr <$> b)) as Hf by (intros b; by rewrite update_first_addr).
  split; cbn [am_new am_tried am_feelers]; [by apply table_ok_map|by apply table_ok_map| |done].
  intros x Hx%in_table_map Hx'%in_table_map; [by apply (Hap x)|done|done].
Qed.

Lemma pop_feeler_spec new l o rest :
  pop_feeler new l = (o, rest) → rest `sublist_of` l ∧ from_option (λ a, in_table new a ∧ a ∈ l) True o.
Proof.
  revert o rest. induction l as [|x l IH]; intros o rest; simpl; [by intros [= <- <-]|].
  destruct (contains_addr new x) eqn:Hc.
  - intros [= <- <-]. split; [by constructor|]. apply contains_addr_spec in Hc. split; [done|by left].
  - intros [Hs Ho]%IH. split; [by constructor|]. destruct o; [|done]. destruct Ho. split; [done|by right].
Qed.

Lemma am_select_feeler_ok am o am' : addrman_ok am → am_select_feeler am = (o, am') → addrman_ok am'.
Proof.
  intros Hok. unfold am_select_feeler. rewrite (ensure_buckets_ok am Hok). destruct Hok as [Hnew Htr Hap Hfe].
  destruct (pop_feeler _ _) as [o' rest] eqn:Hp. intros [= <- <-]. apply pop_feeler_spec in Hp as [Hs _].
  split; [done..|]. cbn [am_feelers]. rewrite rev_perm. eapply sublist_NoDup; [|done]. by rewrite rev_perm.
Qed.

(** The operations on an address manager, in any order and at any time. *)
Inductive am_reachable : AddrMan → Prop :=
| am_reachable_new : am_reachable AddrMan_new
| am_reachable_add am a src : am_reachable am → am_reachable (am_add am a src).2
| am_reachable_good am now a : am_reachable am → am_reachable (am_good am now a)
| am_reachable_attempted am now a : am_reachable am → am_reachable (am_attempted am now a)
| am_reachable_feeler am o am' : am_reachable am → am_select_feeler am = (o, am') → am_reachable am'.

Lemma reachable_addrman_ok am : am_reachable am → addrman_ok am.
Proof.
  induction 1 as [|? ? ? _ IH|? ? ? _ IH|? ? ? _ IH|? ? ? _ IH Hs]; [|by apply am_add_ok|by apply am_good_ok|by apply am_attempted_ok|by eapply am_select_feeler_ok].
  split; [apply table_ok_new|apply table_ok_new| |apply NoDup_nil_2].
  intros a (b & r & [-> _]%elem_of_replicate & Hr & _). by apply not_elem_of_nil in Hr.
Qed.

Lemma concat_NoDup (g : bytes → nat) (t : Buckets) k :
  (∀ i b r, t !! i = Some b → r ∈ b → g (ar_addr r) = (k + i)%nat) → Forall (λ b, NoDup (ar_addr <$> b)) t →
  NoDup (ar_addr <$> concat t).
Proof.
  revert k. induction t as [|b t IH]; intros k Hg Hnd; [apply NoDup_nil_2|]. apply Forall_cons in Hnd as [Hb Hnd].
  simpl. rewrite fmap_app. apply NoDup_app. split_and!; [done| |].
  - intros a (r & -> & Hr)%list_elem_of_fmap (r' & Heq & Hr')%list_elem_of_fmap.
    apply list_elem_of_In, in_concat in Hr' as (b' & Hb' & Hr'). apply list_elem_of_In in Hb', Hr'.
    apply list_elem_of_lookup in Hb' as [i Hi]. pose proof (Hg 0%nat b r eq_refl Hr). pose proof (Hg (S i) b' r' Hi Hr').
    rewrite Heq in *. lia.
  - apply (IH (S k)); [|done]. intros i b' r Hi Hr. rewrite (Hg (S i) b' r Hi Hr). lia.
Qed.

Lemma elem_of_concat_table (t : Buckets) a : a ∈ (ar_addr <$> concat t) ↔ in_table t a.
Proof.
  rewrite list_elem_of_fmap. unfold in_table. split.
  - intros (r & -> & (b & Hb & Hr)%list_elem_of_In%in_concat). exists b, r. by rewrite !list_elem_of_In.
  - intros (b & r & Hb & Hr & <-). exists r. split; [done|]. apply list_elem_of_In, in_concat. exists b. by rewrite <- !list_elem_of_In.
Qed.

(** C40. The address manager keeps its tables in order: after any sequence of additions,
    successes, failures and feeler picks, both tables have their fixed number of
    buckets of at most [ADDRS_PER_BUCKET] entries, every address is in the one bucket
    its keyed hash names, no address occurs twice in the two tables together, and the
    feeler queue has no repetitions. *)
Theorem addrman_invariant am :
  am_reachable am →
  length (am_new am) = NEW_BUCKETS ∧ length (am_tried am) = TRIED_BUCKETS ∧
  Forall (λ b, (length b <= ADDRS_PER_BUCKET)%nat) (am_new am ++ am_tried am) ∧
  (∀ i b r, am_new am !! i = Some b → r ∈ b → i = bucket_for (ar_addr r) NEW_BUCKETS 0x4e) ∧
  (∀ i b r, am_tried am !! i = Some b → r ∈ b → i = bucket_for (ar_addr r) TRIED_BUCKETS 0x54) ∧
  NoDup (ar_addr <$> concat (am_tried am) ++ concat (am_new am)) ∧ NoDup (am_feelers am).
Proof.
  intros [[Hnl Hns Hnp Hnd] [Htl Hts Htp Htd] Hap Hfe]%reachable_addrman_ok. split_and!; try done; [by apply Forall_app|].
  rewrite fmap_app. apply NoDup_app. split_and!.
  - apply (concat_NoDup (λ a, bucket_for a TRIED_BUCKETS 0x54) _ 0); [|done]. intros i b r Hb Hr. by rewrite <- (Htp i b r).
  - intros a Ht%elem_of_concat_table Hn%elem_of_concat_table. by apply (Hap a).
  - apply (concat_NoDup (λ a, bucket_for a NEW_BUCKETS 0x4e) _ 0); [|done]. intros i b r Hb Hr. by rewrite <- (Hnp i b r).
Qed.

(** ** The feeler queue *)

(** A table whose entries are all in bucket [b]. *)
Definition one_bucket (b : nat) (l : list AddrRecord) : Buckets := <[b := l]> (replicate NEW_BUCKETS []).

Lemma concat_replicate_nil n : concat (replicate n ([] : list AddrRecord)) = [].
Proof. by induction n. Qed.

Lemma one_bucket_length b l : (length (concat (one_bucket b l)) <= length l)%nat.
Proof.
  unfold one_bucket. generalize NEW_BUCKETS. intros n. revert b. induction n as [|n IH]; intros b; simpl; [lia|].
  destruct b as [|b]; simpl; rewrite ?length_app, ?concat_replicate_nil; [simpl; lia|apply IH].
Qed.

Lemma one_bucket_in b l a : in_table (one_bucket b l) a → ∃ r, r ∈ l ∧ ar_addr r = a.
Proof.
  intros (b' & r & Hb' & Hr & Ha). apply list_elem_of_lookup in Hb' as [i Hi]. unfold one_bucket in Hi.
  destruct (decide (i = b)) as [->|Hne].
  - apply list_lookup_insert_Some in Hi as [(_ & -> & _)|[? _]]; [by exists r|done].
  - rewrite list_lookup_insert_ne in Hi by done. apply lookup_replicate in Hi as [-> _]. by apply not_elem_of_nil in Hr.
Qed.

Definition queued (b : nat) (addrs : list bytes) (am : AddrMan) : Prop :=
  addrman_ok am ∧ am_feelers am = addrs ∧ am_tried am = replicate TRIED_BUCKETS [] ∧
  ∃ l, am_new am = one_bucket b l ∧ (length l <= ADDRS_PER_BUCKET)%nat ∧ ∀ r, r ∈ l → ar_addr r ∈ addrs.

Lemma queued_len b addrs am : queued b addrs am → (am_len am <= ADDRS_PER_BUCKET)%nat.
Proof.
  intros (_ & _ & Htr & l & Hnew & Hl & _). unfold am_len. rewrite Htr, Hnew, concat_replicate_nil.
  pose proof (one_bucket_length b l). cbn [length]. lia.
Qed.

Lemma queued_add b addrs am a :
  queued b addrs am → (a ∉ addrs) → a ≠ [] → bucket_for a NEW_BUCKETS 0x4e = b → (b < NEW_BUCKETS)%nat →
  queued b (addrs ++ [a]) (am_add am a []).2.
Proof.
  intros Hq Ha Hne Hba Hb. pose proof (queued_len _ _ _ Hq) as Hlen. destruct Hq as (Hok & Hfe & Htr & l & Hnew & Hl & Hin).
  split; [by apply am_add_ok|]. unfold am_add. rewrite (ensure_buckets_ok am Hok), bool_decide_eq_false_2 by done.
  assert (am_contains am a = false) as ->.
  { unfold am_contains. apply orb_false_intro; apply Bool.not_true_iff_false; rewrite contains_addr_spec.
    - rewrite Hnew. intros (r & Hr & <-)%one_bucket_in. by apply Ha, Hin.
    - rewrite Htr. intros (b' & r & [-> _]%elem_of_replicate & Hr & _). by apply not_elem_of_nil in Hr. }
  destruct (Nat.leb_spec MAX_ADDRS_TOTAL (am_len am)) as [Hbig|_]; [unfold MAX_ADDRS_TOTAL, ADDRS_PER_BUCKET in *; lia|].
  cbn [orb snd am_feelers am_tried am_new]. rewrite Hfe, bool_decide_eq_false_2 by done. split_and!; [done..|].
  set (r := {| ar_addr := a |}). exists (push_record r l). rewrite Hnew, Hba. split_and!.
  - unfold one_bucket. apply list_eq. intros i. destruct (decide (i = b)) as [->|Hi].
    + rewrite list_lookup_alter_eq, !list_lookup_insert_eq by (by rewrite length_replicate). done.
    + by rewrite list_lookup_alter_ne, !list_lookup_insert_ne by done.
  - unfold push_record. rewrite length_app. cbn [length]. destruct (Nat.leb_spec ADDRS_PER_BUCKET (length l)); [|lia].
    rewrite length_drop. unfold ADDRS_PER_BUCKET in *. lia.
  - intros x [Hx|Hx]%elem_of_app; [|apply list_elem_of_singleton in Hx as ->; apply elem_of_app; right; by left].
    apply elem_of_app. left. apply Hin. destruct (Nat.leb _ _); [|done]. by eapply elem_of_sublist; [|apply sublist_drop].
Qed.

(** The feeler queue is not bounded by the tables: additions whose addresses hash
    to one bucket evict each other, so the tables stay at one bucket of entries, but
    every address stays queued.  Nothing bounds the number of such addresses, and
    nothing but [good] and [select_feeler] ever shortens the queue. *)
Theorem feelers_grow addrs b :
  NoDup addrs → Forall (λ a, a ≠ [] ∧ bucket_for a NEW_BUCKETS 0x4e = b) addrs → (b < NEW_BUCKETS)%nat →
  let am := foldl (λ am a, (am_add am a []).2) AddrMan_new addrs in
  am_feelers am = addrs ∧ (am_len am <= ADDRS_PER_BUCKET)%nat.
Proof.
  intros Hnd Hall Hb am. enough (queued b addrs am) as Hq by (split; [apply Hq|by eapply queued_len]).
  subst am. induction addrs as [|a addrs IH] using rev_ind.
  { split_and!; [apply (reachable_addrman_ok _ am_reachable_new)|done..|]. exists [].
    split_and!; [|simpl; lia|by intros r ?%not_elem_of_nil]. symmetry. apply list_insert_id. by apply lookup_replicate. }
  apply NoDup_app in Hnd as (Hnd & Hdisj & _). apply Forall_app in Hall as [Hall Ha]. rewrite Forall_singleton in Ha.
  destruct Ha as [Hne Hba]. rewrite foldl_app. cbn [foldl]. apply queued_add; [by apply IH| |done..].
  intros Hin. apply (Hdisj a Hin). by left.
Qed.

(** ** Selection *)

(** Dial candidates are known, distinct, not excluded, and no more than asked for. *)
Theorem select_sound am n exclude :
  (length (am_select am n exclude) <= n)%nat ∧ NoDup (am_select am n exclude) ∧
  ∀ a, a ∈ am_select am n exclude → (a ∉ exclude) ∧ (in_table (am_tried am) a ∨ in_table (am_new am) a).
Proof.
  unfold am_select. set (known := ar_addr <$> _).
  assert (∀ a, a ∈ known → in_table (am_tried am) a ∨ in_table (am_new am) a) as Hknown.
  { intros a. subst known. rewrite fmap_app, elem_of_app, !elem_of_concat_table. done. }
  assert (∀ l out, (∀ a, a ∈ l → a ∈ known) →
    ((length out <= n)%nat ∧ NoDup out ∧ ∀ a, a ∈ out → (a ∉ exclude) ∧ a ∈ known) →
    (length (foldl (select_push n exclude) out l) <= n)%nat ∧ NoDup (foldl (select_push n exclude) out l) ∧
    ∀ a, a ∈ foldl (select_push n exclude) out l → (a ∉ exclude) ∧ a ∈ known) as Hf.
  { induction l as [|x l IH]; intros out Hl Hout; [done|]. cbn [foldl]. apply IH; [intros a Ha; apply Hl; by right|].
    unfold select_push. destruct (Nat.leb_spec n (length out)) as [|Hlt]; [done|]. cbn [orb].
    case_bool_decide as Hex; [done|]. case_bool_decide as Hdup; [done|]. destruct Hout as (_ & Hnd & Hin). split_and!.
    - rewrite length_app. simpl. lia.
    - apply NoDup_app. split_and!; [done| |apply NoDup_singleton]. by intros a Ha ->%list_elem_of_singleton.
    - intros a [Ha|Ha]%elem_of_app; [by apply Hin|]. apply list_elem_of_singleton in Ha as ->. split; [done|]. apply Hl. by left. }
  destruct (Hf known [] (λ a Ha, Ha)) as (? & ? & Hin).
  { split_and!; [simpl; lia|apply NoDup_nil_2|by intros a ?%not_elem_of_nil]. }
  split_and!; [done..|]. intros a [? ?%Hknown]%Hin. done.
Qed.
End addrman.

Section witnesses.
#[local] Existing Instance Toy.easy_crypto.

Definition peer_a : bytes := str_bytes "203.0.113.1:8333".
Definition peer_b : bytes := str_bytes "198.51.100.2:8333".

Lemma addrman_invariant_witness :
  let am := am_good (am_add (am_add AddrMan_new peer_a []).2 peer_b []).2 7 peer_a in
  am_reachable am ∧ NoDup (am_feelers am).
Proof.
  cbn zeta. assert (am_reachable (am_good (am_add (am_add AddrMan_new peer_a []).2 peer_b []).2 7 peer_a)) as Hr.
  { apply am_reachable_good, am_reachable_add, am_reachable_add, am_reachable_new. }
  split; [exact Hr|]. apply (addrman_invariant _ Hr).
Defined.

Definition peer_a' : bytes := str_bytes "203.0.113.1:8334".
Lemma feelers_grow_witness :
  am_feelers (am_add (am_add AddrMan_new peer_a []).2 peer_a' []).2 = [peer_a; peer_a'].
Proof.
  apply (feelers_grow [peer_a; peer_a'] (bucket_for peer_a NEW_BUCKETS 0x4e)).
  - apply (bool_decide_unpack _). vm_compute. exact I.
  - apply (bool_decide_unpack _). vm_compute. exact I.
  - vm_compute. lia.
Defined.
End witnesses.
