(* ===== verification/P2p.v ===== *)
(** * The peer-to-peer node: data and helpers

    The wire messages, the limits, the rate window, compact-block reconstruction and
    the shared core of a node of [src/src/p2p.rs].  One node handles one message at a
    time: the mutexes of the source make each handler's accesses exclusive, and the
    handlers below are the sequences of those accesses.  What is written to a
    connection is appended to the outbox, a started dial to [sh_dials].  Clocks and the
    outcome of a connect are in a [Tick] given with each event; the iteration orders of
    the hash maps are parameters. *)

From S2P Require Import Prelude Genesis Crypto Address Predicate Utxo UtxoTx Registry Custody Block Ledger.
From S2P Require Import Dag Ghostdag Reachability FeeHistory Stark Superproof State Chain Sync Mempool FeeEstimate.
From S2P Require Import AccountPool Net AddrMan.

(** ** Limits *)

Definition PROTOCOL_VERSION : Z := 7.
Definition WIRE_MAGIC : bytes := str_bytes "HSN1".
Definition MAX_MESSAGE_BYTES : Z := MAX_BLOCK_BYTES + 16 * 1024.
Definition MAX_ADDRS_PER_MSG : nat := 16.
Definition MAX_PEERS : Z := 64.
Definition MAX_PEERS_PER_GROUP : Z := 3.
Definition MAX_ORPHANS : Z := 1000.
Definition ORPHAN_TTL : Z := 600 * 1000.
Definition BAN_DECAY_POINTS : Z := 10.
Definition BAN_DECAY_INTERVAL : Z := 60 * 1000.
Definition MAX_KNOWN_ADDRS : Z := 1024.
Definition PEER_RATE_WINDOW : Z := 10 * 1000.
Definition BAN_SCORE_THRESHOLD : Z := 100.
Definition INVALID_BLOCK_PENALTY : Z := 20.
Definition INVALID_STARK_PENALTY : Z := 50.
Definition INVALID_TX_PENALTY : Z := 20.
Definition MAX_PENDING_HEADERS : Z := 2048.
Definition MAX_IN_FLIGHT_BODIES : Z := 32.
Definition MAX_HEADERS_PER_MSG : Z := 2000.
Definition MAX_LOCATOR_HASHES : Z := 64.
Definition MAX_IN_FLIGHT_TX_GETS : Z := 64.
Definition MAX_TX_PACKAGE : nat := 25.

(** ** Messages *)

Inductive Message :=
| MHello (version : Z) (magic : bytes) (chain_id blue_score : Z) (listen_addr : option bytes)
| MGetAddr
| MAddr (addrs : list bytes)
| MGetTips
| MTips (tips : list Hash)
| MGetBlock (h : Hash)
| MBlock (b : Block)
| MInv (h : Hash)
| MNotFound (h : Hash)
| MTx (tx : TransparentTx)
| MTxInv (h : Hash)
| MGetTx (h : Hash)
| MTxPackage (txs : list TransparentTx)
| MUtxoTx (tx : UtxoTx)
| MUtxoTxInv (h : Hash)
| MGetUtxoTx (h : Hash)
| MCompactBlock (header_hash : Hash) (nonce : Z) (short_ids : list bytes) (prefilled : list TransparentTx)
| MGetBlockTxn (block_hash : Hash) (indexes : list Z)
| MBlockTxn (block_hash : Hash) (txs : list TransparentTx)
| MGetHeaders (locator : list Hash) (stop_hash : Hash) (limit : Z)
| MHeaders (headers : list Block)
| MPing (nonce : Z)
| MPong (nonce : Z)
| MFeeFilter (min_fee : Z)
| MGetPruningProof
| MPruningProof (headers : list Block)
| MGetMultiLevelPruningProof
| MMultiLevelPruningProof (proof : MultiLevelPruningProof)
| MGetPruningPointLedger (pp : Hash)
| MPruningPointLedger (ledger : PruningPointLedger)
| MIdentity (pubkey signature : bytes).

(** [max_payload_for], [message_within_type_cap]. *)
Definition max_payload_for (msg : Message) : Z :=
  match msg with
  | MHello _ _ _ _ _ | MPing _ | MPong _ | MGetAddr | MGetTips | MGetPruningProof | MGetMultiLevelPruningProof
  | MFeeFilter _ | MGetBlock _ | MInv _ | MNotFound _ | MTxInv _ | MGetTx _ | MUtxoTxInv _ | MGetUtxoTx _
  | MGetPruningPointLedger _ => 8 * 1024
  | MAddr addrs => 512 + Z.min (sat_mul 64 (len addrs) 256) (64 * 1024)
  | MTips tips => 256 + sat_mul 64 (len tips) 80
  | MTx _ | MTxPackage _ | MUtxoTx _ => 128 * 1024
  | MGetHeaders locator _ _ => 512 + sat_mul 64 (Z.min (len locator) MAX_LOCATOR_HASHES) 80
  | MHeaders hs => Z.min (512 + sat_mul 64 (Z.min (len hs) MAX_HEADERS_PER_MSG) 512) MAX_MESSAGE_BYTES
  | MIdentity _ _ => 16 * 1024
  | MCompactBlock _ _ _ _ | MGetBlockTxn _ _ | MBlockTxn _ _ | MBlock _ | MPruningProof _
  | MMultiLevelPruningProof _ | MPruningPointLedger _ => MAX_MESSAGE_BYTES
  end.
Definition message_within_type_cap (msg : Message) (payload_len : Z) : bool := payload_len <=? max_payload_for msg.

(** ** Rate window *)

Record RateWindow := { rw_window_start : Z; rw_count : Z; rw_limit : Z }.
Definition RateWindow_new (now limit : Z) : RateWindow := {| rw_window_start := now; rw_count := 0; rw_limit := limit |}.
(** [RateWindow::record]. *)
Definition record_message (w : RateWindow) (now : Z) : bool * RateWindow :=
  let w := if PEER_RATE_WINDOW <=? sat_sub now (rw_window_start w) then RateWindow_new now (rw_limit w) else w in
  let count := wrap 32 (rw_count w + 1) in
  (count <=? rw_limit w, {| rw_window_start := rw_window_start w; rw_count := count; rw_limit := rw_limit w |}).

(** ** Compact blocks *)

Record PendingCompact := { pc_short_ids : list bytes; pc_filled : list (option TransparentTx) }.

Definition tx_short_id `{!Crypto, !DualCrypto, !BodyCodec} (tx : TransparentTx) : bytes := take 8 (hash_bytes (tt_tx_hash tx)).
(** [reconstruct_from_mempool]: the transfers by short id, then one slot per id. *)
Definition push_sid `{!Crypto, !DualCrypto, !BodyCodec} (m : gmap bytes (list TransparentTx)) (tx : TransparentTx)
    : gmap bytes (list TransparentTx) :=
  <[tx_short_id tx := default [] (m !! tx_short_id tx) ++ [tx]]> m.
Definition fill_slot (by_sid : gmap bytes (list TransparentTx)) (sid : bytes) : option TransparentTx :=
  match by_sid !! sid with Some [tx] => Some tx | _ => None end.
Definition reconstruct_from_mempool `{!Crypto, !DualCrypto, !BodyCodec} (short_ids : list bytes)
    (mempool prefilled : list TransparentTx) : list (option TransparentTx) * list Z :=
  let by_sid := foldl push_sid (foldl push_sid ∅ mempool) prefilled in
  let filled := fill_slot by_sid <$> short_ids in
  (filled, (λ i, wrap 16 (Z.of_nat i)) <$> positions (λ _ slot, bool_decide (slot = None)) filled).

(** ** The shared core *)

Record OrphanBlock := { ob_block : Block; ob_inserted_at : Z }.
Record PendingHeader := { ph_header : Block; ph_work : Z; ph_requested : bool }.
Abbreviation ConnId := Z.
Record PeerHandle := { ph_group : option bytes; ph_conn : ConnId; ph_fee_filter : Z }.

(** [Shared], with the process-wide ban list; the keys and the proxy belong to the
    transport. *)
Record Shared := {
  sh_state : ChainState;
  sh_peers : list PeerHandle;
  sh_orphans : gmap Hash (list OrphanBlock);
  sh_known_addrs : gset bytes;
  sh_addrman : AddrMan;
  sh_pending_compact : gmap Hash PendingCompact;
  sh_pending_headers : gmap Hash PendingHeader;
  sh_in_flight_bodies : gset Hash;
  sh_in_flight_tx_gets : gset Hash;
  sh_connected_addrs : gset bytes;
  sh_banned_addrs : gset bytes;
  sh_verified_pruning_point : option Hash;
  sh_expecting_pruning_proof : bool;
  sh_expecting_pruning_ledger : bool;
  sh_best_pruning_work : Z;
  sh_my_listen_addr : option bytes;
  sh_chain_id : Z;
  sh_ip_bans : IpBanList;
  sh_outbox : list (ConnId * Message);
  sh_dials : list bytes;
}.

Record Tick := { tk_ms : Z; tk_instant : Z; tk_connects : bytes → bool }.

(** [net_policy::policy()] and the iteration orders of the hash tables. *)
Class NetEnv := {
  net_policy : NetPolicy;
  addr_order : gset bytes → list bytes;
  compact_order : gmap Hash PendingCompact → list Hash;
  header_order : gmap Hash PendingHeader → list Hash;
}.
(** Iterating yields every key once. *)
Class NetEnvOk `{!NetEnv} : Prop := {
  addr_order_ok X : addr_order X ≡ₚ elements X;
  compact_order_ok m : compact_order m ≡ₚ (map_to_list m).*1;
  header_order_ok m : header_order m ≡ₚ (map_to_list m).*1;
}.

Abbreviation Budget := (option StarkVerifyBudget).

(** Field updates. *)
Definition with_state (n : Shared) (x : ChainState) : Shared :=
  {| sh_state := x; sh_peers := sh_peers n; sh_orphans := sh_orphans n; sh_known_addrs := sh_known_addrs n;
     sh_addrman := sh_addrman n; sh_pending_compact := sh_pending_compact n;
     sh_pending_headers := sh_pending_headers n; sh_in_flight_bodies := sh_in_flight_bodies n;
     sh_in_flight_tx_gets := sh_in_flight_tx_gets n; sh_connected_addrs := sh_connected_addrs n;
     sh_banned_addrs := sh_banned_addrs n; sh_verified_pruning_point := sh_verified_pruning_point n;
     sh_expecting_pruning_proof := sh_expecting_pruning_proof n;
     sh_expecting_pruning_ledger := sh_expecting_pruning_ledger n; sh_best_pruning_work := sh_best_pruning_work n;
     sh_my_listen_addr := sh_my_listen_addr n; sh_chain_id := sh_chain_id n; sh_ip_bans := sh_ip_bans n;
     sh_outbox := sh_outbox n; sh_dials := sh_dials n |}.
Definition with_peers (n : Shared) (x : list PeerHandle) : Shared :=
  {| sh_state := sh_state n; sh_peers := x; sh_orphans := sh_orphans n; sh_known_addrs := sh_known_addrs n;
     sh_addrman := sh_addrman n; sh_pending_compact := sh_pending_compact n;
     sh_pending_headers := sh_pending_headers n; sh_in_flight_bodies := sh_in_flight_bodies n;
     sh_in_flight_tx_gets := sh_in_flight_tx_gets n; sh_connected_addrs := sh_connected_addrs n;
     sh_banned_addrs := sh_banned_addrs n; sh_verified_pruning_point := sh_verified_pruning_point n;
     sh_expecting_pruning_proof := sh_expecting_pruning_proof n;
     sh_expecting_pruning_ledger := sh_expecting_pruning_ledger n; sh_best_pruning_work := sh_best_pruning_work n;
     sh_my_listen_addr := sh_my_listen_addr n; sh_chain_id := sh_chain_id n; sh_ip_bans := sh_ip_bans n;
     sh_outbox := sh_outbox n; sh_dials := sh_dials n |}.
Definition with_orphans (n : Shared) (x : gmap Hash (list OrphanBlock)) : Shared :=
  {| sh_state := sh_state n; sh_peers := sh_peers n; sh_orphans := x; sh_known_addrs := sh_known_addrs n;
     sh_addrman := sh_addrman n; sh_pending_compact := sh_pending_compact n;
     sh_pending_headers := sh_pending_headers n; sh_in_flight_bodies := sh_in_flight_bodies n;
     sh_in_flight_tx_gets := sh_in_flight_tx_gets n; sh_connected_addrs := sh_connected_addrs n;
     sh_banned_addrs := sh_banned_addrs n; sh_verified_pruning_point := sh_verified_pruning_point n;
     sh_expecting_pruning_proof := sh_expecting_pruning_proof n;
     sh_expecting_pruning_ledger := sh_expecting_pruning_ledger n; sh_best_pruning_work := sh_best_pruning_work n;
     sh_my_listen_addr := sh_my_listen_addr n; sh_chain_id := sh_chain_id n; sh_ip_bans := sh_ip_bans n;
     sh_outbox := sh_outbox n; sh_dials := sh_dials n |}.
Definition with_known_addrs (n : Shared) (x : gset bytes) : Shared :=
  {| sh_state := sh_state n; sh_peers := sh_peers n; sh_orphans := sh_orphans n; sh_known_addrs := x;
     sh_addrman := sh_addrman n; sh_pending_compact := sh_pending_compact n;
     sh_pending_headers := sh_pending_headers n; sh_in_flight_bodies := sh_in_flight_bodies n;
     sh_in_flight_tx_gets := sh_in_flight_tx_gets n; sh_connected_addrs := sh_connected_addrs n;
     sh_banned_addrs := sh_banned_addrs n; sh_verified_pruning_point := sh_verified_pruning_point n;
     sh_expecting_pruning_proof := sh_expecting_pruning_proof n;
     sh_expecting_pruning_ledger := sh_expecting_pruning_ledger n; sh_best_pruning_work := sh_best_pruning_work n;
     sh_my_listen_addr := sh_my_listen_addr n; sh_chain_id := sh_chain_id n; sh_ip_bans := sh_ip_bans n;
     sh_outbox := sh_outbox n; sh_dials := sh_dials n |}.
Definition with_addrman (n : Shared) (x : AddrMan) : Shared :=
  {| sh_state := sh_state n; sh_peers := sh_peers n; sh_orphans := sh_orphans n;
     sh_known_addrs := sh_known_addrs n; sh_addrman := x; sh_pending_compact := sh_pending_compact n;
     sh_pending_headers := sh_pending_headers n; sh_in_flight_bodies := sh_in_flight_bodies n;
     sh_in_flight_tx_gets := sh_in_flight_tx_gets n; sh_connected_addrs := sh_connected_addrs n;
     sh_banned_addrs := sh_banned_addrs n; sh_verified_pruning_point := sh_verified_pruning_point n;
     sh_expecting_pruning_proof := sh_expecting_pruning_proof n;
     sh_expecting_pruning_ledger := sh_expecting_pruning_ledger n; sh_best_pruning_work := sh_best_pruning_work n;
     sh_my_listen_addr := sh_my_listen_addr n; sh_chain_id := sh_chain_id n; sh_ip_bans := sh_ip_bans n;
     sh_outbox := sh_outbox n; sh_dials := sh_dials n |}.
Definition with_pending_compact (n : Shared) (x : gmap Hash PendingCompact) : Shared :=
  {| sh_state := sh_state n; sh_peers := sh_peers n; sh_orphans := sh_orphans n;
     sh_known_addrs := sh_known_addrs n; sh_addrman := sh_addrman n; sh_pending_compact := x;
     sh_pending_headers := sh_pending_headers n; sh_in_flight_bodies := sh_in_flight_bodies n;
     sh_in_flight_tx_gets := sh_in_flight_tx_gets n; sh_connected_addrs := sh_connected_addrs n;
     sh_banned_addrs := sh_banned_addrs n; sh_verified_pruning_point := sh_verified_pruning_point n;
     sh_expecting_pruning_proof := sh_expecting_pruning_proof n;
     sh_expecting_pruning_ledger := sh_expecting_pruning_ledger n; sh_best_pruning_work := sh_best_pruning_work n;
     sh_my_listen_addr := sh_my_listen_addr n; sh_chain_id := sh_chain_id n; sh_ip_bans := sh_ip_bans n;
     sh_outbox := sh_outbox n; sh_dials := sh_dials n |}.
Definition with_pending_headers (n : Shared) (x : gmap Hash PendingHeader) : Shared :=
  {| sh_state := sh_state n; sh_peers := sh_peers n; sh_orphans := sh_orphans n;
     sh_known_addrs := sh_known_addrs n; sh_addrman := sh_addrman n; sh_pending_compact := sh_pending_compact n;
     sh_pending_headers := x; sh_in_flight_bodies := sh_in_flight_bodies n;
     sh_in_flight_tx_gets := sh_in_flight_tx_gets n; sh_connected_addrs := sh_connected_addrs n;
     sh_banned_addrs := sh_banned_addrs n; sh_verified_pruning_point := sh_verified_pruning_point n;
     sh_expecting_pruning_proof := sh_expecting_pruning_proof n;
     sh_expecting_pruning_ledger := sh_expecting_pruning_ledger n; sh_best_pruning_work := sh_best_pruning_work n;
     sh_my_listen_addr := sh_my_listen_addr n; sh_chain_id := sh_chain_id n; sh_ip_bans := sh_ip_bans n;
     sh_outbox := sh_outbox n; sh_dials := sh_dials n |}.
Definition with_in_flight_bodies (n : Shared) (x : gset Hash) : Shared :=
  {| sh_state := sh_state n; sh_peers := sh_peers n; sh_orphans := sh_orphans n;
     sh_known_addrs := sh_known_addrs n; sh_addrman := sh_addrman n; sh_pending_compact := sh_pending_compact n;
     sh_pending_headers := sh_pending_headers n; sh_in_flight_bodies := x;
     sh_in_flight_tx_gets := sh_in_flight_tx_gets n; sh_connected_addrs := sh_connected_addrs n;
     sh_banned_addrs := sh_banned_addrs n; sh_verified_pruning_point := sh_verified_pruning_point n;
     sh_expecting_pruning_proof := sh_expecting_pruning_proof n;
     sh_expecting_pruning_ledger := sh_expecting_pruning_ledger n; sh_best_pruning_work := sh_best_pruning_work n;
     sh_my_listen_addr := sh_my_listen_addr n; sh_chain_id := sh_chain_id n; sh_ip_bans := sh_ip_bans n;
     sh_outbox := sh_outbox n; sh_dials := sh_dials n |}.
Definition with_in_flight_tx_gets (n : Shared) (x : gset Hash) : Shared :=
  {| sh_state := sh_state n; sh_peers := sh_peers n; sh_orphans := sh_orphans n;
     sh_known_addrs := sh_known_addrs n; sh_addrman := sh_addrman n; sh_pending_compact := sh_pending_compact n;
     sh_pending_headers := sh_pending_headers n; sh_in_flight_bodies := sh_in_flight_bodies n;
     sh_in_flight_tx_gets := x; sh_connected_addrs := sh_connected_addrs n; sh_banned_addrs := sh_banned_addrs n;
     sh_verified_pruning_point := sh_verified_pruning_point n;
     sh_expecting_pruning_proof := sh_expecting_pruning_proof n;
     sh_expecting_pruning_ledger := sh_expecting_pruning_ledger n; sh_best_pruning_work := sh_best_pruning_work n;
     sh_my_listen_addr := sh_my_listen_addr n; sh_chain_id := sh_chain_id n; sh_ip_bans := sh_ip_bans n;
     sh_outbox := sh_outbox n; sh_dials := sh_dials n |}.
Definition with_connected_addrs (n : Shared) (x : gset bytes) : Shared :=
  {| sh_state := sh_state n; sh_peers := sh_peers n; sh_orphans := sh_orphans n;
     sh_known_addrs := sh_known_addrs n; sh_addrman := sh_addrman n; sh_pending_compact := sh_pending_compact n;
     sh_pending_headers := sh_pending_headers n; sh_in_flight_bodies := sh_in_flight_bodies n;
     sh_in_flight_tx_gets := sh_in_flight_tx_gets n; sh_connected_addrs := x; sh_banned_addrs := sh_banned_addrs n;
     sh_verified_pruning_point := sh_verified_pruning_point n;
     sh_expecting_pruning_proof := sh_expecting_pruning_proof n;
     sh_expecting_pruning_ledger := sh_expecting_pruning_ledger n; sh_best_pruning_work := sh_best_pruning_work n;
     sh_my_listen_addr := sh_my_listen_addr n; sh_chain_id := sh_chain_id n; sh_ip_bans := sh_ip_bans n;
     sh_outbox := sh_outbox n; sh_dials := sh_dials n |}.
Definition with_banned_addrs (n : Shared) (x : gset bytes) : Shared :=
  {| sh_state := sh_state n; sh_peers := sh_peers n; sh_orphans := sh_orphans n;
     sh_known_addrs := sh_known_addrs n; sh_addrman := sh_addrman n; sh_pending_compact := sh_pending_compact n;
     sh_pending_headers := sh_pending_headers n; sh_in_flight_bodies := sh_in_flight_bodies n;
     sh_in_flight_tx_gets := sh_in_flight_tx_gets n; sh_connected_addrs := sh_connected_addrs n;
     sh_banned_addrs := x; sh_verified_pruning_point := sh_verified_pruning_point n;
     sh_expecting_pruning_proof := sh_expecting_pruning_proof n;
     sh_expecting_pruning_ledger := sh_expecting_pruning_ledger n; sh_best_pruning_work := sh_best_pruning_work n;
     sh_my_listen_addr := sh_my_listen_addr n; sh_chain_id := sh_chain_id n; sh_ip_bans := sh_ip_bans n;
     sh_outbox := sh_outbox n; sh_dials := sh_dials n |}.
Definition with_verified_pruning_point (n : Shared) (x : option Hash) : Shared :=
  {| sh_state := sh_state n; sh_peers := sh_peers n; sh_orphans := sh_orphans n;
     sh_known_addrs := sh_known_addrs n; sh_addrman := sh_addrman n; sh_pending_compact := sh_pending_compact n;
     sh_pending_headers := sh_pending_headers n; sh_in_flight_bodies := sh_in_flight_bodies n;
     sh_in_flight_tx_gets := sh_in_flight_tx_gets n; sh_connected_addrs := sh_connected_addrs n;
     sh_banned_addrs := sh_banned_addrs n; sh_verified_pruning_point := x;
     sh_expecting_pruning_proof := sh_expecting_pruning_proof n;
     sh_expecting_pruning_ledger := sh_expecting_pruning_ledger n; sh_best_pruning_work := sh_best_pruning_work n;
     sh_my_listen_addr := sh_my_listen_addr n; sh_chain_id := sh_chain_id n; sh_ip_bans := sh_ip_bans n;
     sh_outbox := sh_outbox n; sh_dials := sh_dials n |}.
Definition with_expecting_pruning_proof (n : Shared) (x : bool) : Shared :=
  {| sh_state := sh_state n; sh_peers := sh_peers n; sh_orphans := sh_orphans n;
     sh_known_addrs := sh_known_addrs n; sh_addrman := sh_addrman n; sh_pending_compact := sh_pending_compact n;
     sh_pending_headers := sh_pending_headers n; sh_in_flight_bodies := sh_in_flight_bodies n;
     sh_in_flight_tx_gets := sh_in_flight_tx_gets n; sh_connected_addrs := sh_connected_addrs n;
     sh_banned_addrs := sh_banned_addrs n; sh_verified_pruning_point := sh_verified_pruning_point n;
     sh_expecting_pruning_proof := x; sh_expecting_pruning_ledger := sh_expecting_pruning_ledger n;
     sh_best_pruning_work := sh_best_pruning_work n; sh_my_listen_addr := sh_my_listen_addr n;
     sh_chain_id := sh_chain_id n; sh_ip_bans := sh_ip_bans n; sh_outbox := sh_outbox n; sh_dials := sh_dials n |}.
Definition with_expecting_pruning_ledger (n : Shared) (x : bool) : Shared :=
  {| sh_state := sh_state n; sh_peers := sh_peers n; sh_orphans := sh_orphans n;
     sh_known_addrs := sh_known_addrs n; sh_addrman := sh_addrman n; sh_pending_compact := sh_pending_compact n;
     sh_pending_headers := sh_pending_headers n; sh_in_flight_bodies := sh_in_flight_bodies n;
     sh_in_flight_tx_gets := sh_in_flight_tx_gets n; sh_connected_addrs := sh_connected_addrs n;
     sh_banned_addrs := sh_banned_addrs n; sh_verified_pruning_point := sh_verified_pruning_point n;
     sh_expecting_pruning_proof := sh_expecting_pruning_proof n; sh_expecting_pruning_ledger := x;
     sh_best_pruning_work := sh_best_pruning_work n; sh_my_listen_addr := sh_my_listen_addr n;
     sh_chain_id := sh_chain_id n; sh_ip_bans := sh_ip_bans n; sh_outbox := sh_outbox n; sh_dials := sh_dials n |}.
Definition with_best_pruning_work (n : Shared) (x : Z) : Shared :=
  {| sh_state := sh_state n; sh_peers := sh_peers n; sh_orphans := sh_orphans n;
     sh_known_addrs := sh_known_addrs n; sh_addrman := sh_addrman n; sh_pending_compact := sh_pending_compact n;
     sh_pending_headers := sh_pending_headers n; sh_in_flight_bodies := sh_in_flight_bodies n;
     sh_in_flight_tx_gets := sh_in_flight_tx_gets n; sh_connected_addrs := sh_connected_addrs n;
     sh_banned_addrs := sh_banned_addrs n; sh_verified_pruning_point := sh_verified_pruning_point n;
     sh_expecting_pruning_proof := sh_expecting_pruning_proof n;
     sh_expecting_pruning_ledger := sh_expecting_pruning_ledger n; sh_best_pruning_work := x;
     sh_my_listen_addr := sh_my_listen_addr n; sh_chain_id := sh_chain_id n; sh_ip_bans := sh_ip_bans n;
     sh_outbox := sh_outbox n; sh_dials := sh_dials n |}.
Definition with_my_listen_addr (n : Shared) (x : option bytes) : Shared :=
  {| sh_state := sh_state n; sh_peers := sh_peers n; sh_orphans := sh_orphans n;
     sh_known_addrs := sh_known_addrs n; sh_addrman := sh_addrman n; sh_pending_compact := sh_pending_compact n;
     sh_pending_headers := sh_pending_headers n; sh_in_flight_bodies := sh_in_flight_bodies n;
     sh_in_flight_tx_gets := sh_in_flight_tx_gets n; sh_connected_addrs := sh_connected_addrs n;
     sh_banned_addrs := sh_banned_addrs n; sh_verified_pruning_point := sh_verified_pruning_point n;
     sh_expecting_pruning_proof := sh_expecting_pruning_proof n;
     sh_expecting_pruning_ledger := sh_expecting_pruning_ledger n; sh_best_pruning_work := sh_best_pruning_work n;
     sh_my_listen_addr := x; sh_chain_id := sh_chain_id n; sh_ip_bans := sh_ip_bans n; sh_outbox := sh_outbox n;
     sh_dials := sh_dials n |}.
Definition with_ip_bans (n : Shared) (x : IpBanList) : Shared :=
  {| sh_state := sh_state n; sh_peers := sh_peers n; sh_orphans := sh_orphans n;
     sh_known_addrs := sh_known_addrs n; sh_addrman := sh_addrman n; sh_pending_compact := sh_pending_compact n;
     sh_pending_headers := sh_pending_headers n; sh_in_flight_bodies := sh_in_flight_bodies n;
     sh_in_flight_tx_gets := sh_in_flight_tx_gets n; sh_connected_addrs := sh_connected_addrs n;
     sh_banned_addrs := sh_banned_addrs n; sh_verified_pruning_point := sh_verified_pruning_point n;
     sh_expecting_pruning_proof := sh_expecting_pruning_proof n;
     sh_expecting_pruning_ledger := sh_expecting_pruning_ledger n; sh_best_pruning_work := sh_best_pruning_work n;
     sh_my_listen_addr := sh_my_listen_addr n; sh_chain_id := sh_chain_id n; sh_ip_bans := x;
     sh_outbox := sh_outbox n; sh_dials := sh_dials n |}.
Definition with_outbox (n : Shared) (x : list (ConnId * Message)) : Shared :=
  {| sh_state := sh_state n; sh_peers := sh_peers n; sh_orphans := sh_orphans n;
     sh_known_addrs := sh_known_addrs n; sh_addrman := sh_addrman n; sh_pending_compact := sh_pending_compact n;
     sh_pending_headers := sh_pending_headers n; sh_in_flight_bodies := sh_in_flight_bodies n;
     sh_in_flight_tx_gets := sh_in_flight_tx_gets n; sh_connected_addrs := sh_connected_addrs n;
     sh_banned_addrs := sh_banned_addrs n; sh_verified_pruning_point := sh_verified_pruning_point n;
     sh_expecting_pruning_proof := sh_expecting_pruning_proof n;
     sh_expecting_pruning_ledger := sh_expecting_pruning_ledger n; sh_best_pruning_work := sh_best_pruning_work n;
     sh_my_listen_addr := sh_my_listen_addr n; sh_chain_id := sh_chain_id n; sh_ip_bans := sh_ip_bans n;
     sh_outbox := x; sh_dials := sh_dials n |}.
Definition with_dials (n : Shared) (x : list bytes) : Shared :=
  {| sh_state := sh_state n; sh_peers := sh_peers n; sh_orphans := sh_orphans n;
     sh_known_addrs := sh_known_addrs n; sh_addrman := sh_addrman n; sh_pending_compact := sh_pending_compact n;
     sh_pending_headers := sh_pending_headers n; sh_in_flight_bodies := sh_in_flight_bodies n;
     sh_in_flight_tx_gets := sh_in_flight_tx_gets n; sh_connected_addrs := sh_connected_addrs n;
     sh_banned_addrs := sh_banned_addrs n; sh_verified_pruning_point := sh_verified_pruning_point n;
     sh_expecting_pruning_proof := sh_expecting_pruning_proof n;
     sh_expecting_pruning_ledger := sh_expecting_pruning_ledger n; sh_best_pruning_work := sh_best_pruning_work n;
     sh_my_listen_addr := sh_my_listen_addr n; sh_chain_id := sh_chain_id n; sh_ip_bans := sh_ip_bans n;
     sh_outbox := sh_outbox n; sh_dials := x |}.
Arguments with_state _ _ /.
Arguments with_peers _ _ /.
Arguments with_orphans _ _ /.
Arguments with_known_addrs _ _ /.
Arguments with_addrman _ _ /.
Arguments with_pending_compact _ _ /.
Arguments with_pending_headers _ _ /.
Arguments with_in_flight_bodies _ _ /.
Arguments with_in_flight_tx_gets _ _ /.
Arguments with_connected_addrs _ _ /.
Arguments with_banned_addrs _ _ /.
Arguments with_verified_pruning_point _ _ /.
Arguments with_expecting_pruning_proof _ _ /.
Arguments with_expecting_pruning_ledger _ _ /.
Arguments with_best_pruning_work _ _ /.
Arguments with_my_listen_addr _ _ /.
Arguments with_ip_bans _ _ /.
Arguments with_outbox _ _ /.
Arguments with_dials _ _ /.

(** [str::contains]. *)
Fixpoint str_contains (needle hay : string) : bool :=
  String.prefix needle hay || match hay with EmptyString => false | String _ hay => str_contains needle hay end.

Section node.
Context `{!Crypto, !DualCrypto, !BodyCodec, !NodeEnv, !PoolEnv, !NetEnv}.

(** [Node::with_data_dir], up to the keys; the ban list is the process's own. *)
Definition Shared_new (s : ChainState) (bans : IpBanList) : Shared :=
  {| sh_state := s; sh_peers := []; sh_orphans := ∅; sh_known_addrs := ∅; sh_addrman := AddrMan_new;
     sh_pending_compact := ∅; sh_pending_headers := ∅; sh_in_flight_bodies := ∅; sh_in_flight_tx_gets := ∅;
     sh_connected_addrs := ∅; sh_banned_addrs := ∅; sh_verified_pruning_point := None;
     sh_expecting_pruning_proof := false; sh_expecting_pruning_ledger := false; sh_best_pruning_work := 0;
     sh_my_listen_addr := None; sh_chain_id := cs_chain_id s; sh_ip_bans := bans; sh_outbox := []; sh_dials := [] |}.

(** [Shared::send], [broadcast]. *)
Definition send (n : Shared) (conn : ConnId) (msg : Message) : Shared := with_outbox n (sh_outbox n ++ [(conn, msg)]).
Definition broadcast (n : Shared) (msg : Message) : Shared :=
  with_outbox n (sh_outbox n ++ ((λ p, (ph_conn p, msg)) <$> sh_peers n)).

(** ** Orphans *)

(** [prune_orphans]. *)
Definition fresh_orphan (now : Z) (o : OrphanBlock) : bool := sat_sub now (ob_inserted_at o) <? ORPHAN_TTL.
Definition prune_orphans (now : Z) (orph : gmap Hash (list OrphanBlock)) : gmap Hash (list OrphanBlock) :=
  omap (λ v, match List.filter (fresh_orphan now) v with [] => None | v => Some v end) orph.
Definition orphan_total (orph : gmap Hash (list OrphanBlock)) : Z := total len orph.
(** One missing parent of [buffer_orphan]. *)
Definition push_orphan (now : Z) (block : Block) (hash : Hash) (orph : gmap Hash (list OrphanBlock)) (p : Hash)
    : gmap Hash (list OrphanBlock) :=
  let waiting := default [] (orph !! p) in
  if existsb (λ w, block_hash (ob_block w) =? hash) waiting then <[p := waiting]> orph
  else <[p := waiting ++ [{| ob_block := block; ob_inserted_at := now |}]]> orph.
(** [buffer_orphan]. *)
Definition buffer_orphan (t : Tick) (n : Shared) (missing : list Hash) (block : Block) (hash : Hash) : Shared :=
  let orph := prune_orphans (tk_instant t) (sh_orphans n) in
  if MAX_ORPHANS <=? orphan_total orph then with_orphans n orph else
  with_orphans n (foldl (push_orphan (tk_instant t) block hash) orph missing).

(** ** Queries *)

Definition our_blue_score (n : Shared) : Z := selected_tip_blue_score (sh_state n).
Definition have (n : Shared) (h : Hash) : bool := bool_decide (h ∈ dom (cs_dag (sh_state n))).
Definition peer_count (n : Shared) : Z := len (sh_peers n).
(** [hello]. *)
Definition hello (n : Shared) : Message :=
  MHello PROTOCOL_VERSION WIRE_MAGIC (sh_chain_id n) (our_blue_score n) (sh_my_listen_addr n).
(** [should_fetch]. *)
Definition should_fetch (n : Shared) (h : Hash) : bool :=
  if have n h then false else
  match sh_verified_pruning_point n with
  | None => true
  | Some pp =>
      let st := sh_state n in
      if negb (bool_decide (pp ∈ dom (cs_dag st))) then true else
      negb (negb (h =? pp) && reach_is_ancestor (cs_reachability st) (cs_dag st) h pp)
  end.

(** ** Addresses *)

(** [remember_addr]. *)
Definition remember_addr (n : Shared) (addr : bytes) : Shared :=
  if negb (is_dialable_gossip_addr (strict_dials net_policy) addr) then n else
  if bool_decide (Some addr = sh_my_listen_addr n) then n else
  if bool_decide (addr ∈ sh_banned_addrs n) then n else
  let known := sh_known_addrs n in
  let n := if Z.of_nat (size known) <? MAX_KNOWN_ADDRS then with_known_addrs n ({[addr]} ∪ known) else n in
  with_addrman n (am_add (sh_addrman n) addr (str_bytes "gossip")).2.
(** [dial]; a successful connect starts a connection, which [sh_dials] records. *)
Definition dial (t : Tick) (n : Shared) (addr : bytes) : Shared :=
  if negb (is_dialable_gossip_addr (strict_dials net_policy) addr) then n else
  if MAX_PEERS <=? peer_count n then n else
  if bool_decide (Some addr = sh_my_listen_addr n) then n else
  if bool_decide (addr ∈ sh_banned_addrs n) then n else
  if bool_decide (addr ∈ sh_connected_addrs n) then n else
  let n := with_connected_addrs n ({[addr]} ∪ sh_connected_addrs n) in
  if tk_connects t addr then with_dials n (sh_dials n ++ [addr])
  else with_connected_addrs n (sh_connected_addrs n ∖ {[addr]}).

(** ** Requests *)

(** The budget of body requests: hashes no longer wanted are dropped first. *)
Definition still_wanted (n : Shared) : gset Hash := filter (λ h, should_fetch n h = true) (sh_in_flight_bodies n).
(** [request_block_body]. *)
Definition request_block_body (n : Shared) (conn : ConnId) (hash : Hash) : Shared :=
  if negb (should_fetch n hash) then n else
  let inflight := still_wanted n in
  let n := with_in_flight_bodies n inflight in
  if MAX_IN_FLIGHT_BODIES <=? Z.of_nat (size inflight) then n else
  if bool_decide (hash ∈ inflight) then n else
  let n := with_in_flight_bodies n ({[hash]} ∪ inflight) in
  let n := with_pending_headers n
    (alter (λ p, {| ph_header := ph_header p; ph_work := ph_work p; ph_requested := true |}) hash (sh_pending_headers n)) in
  send n conn (MGetBlock hash).
(** [request_tx_pull]. *)
Definition request_tx_pull (n : Shared) (conn : ConnId) (hash : Hash) (utxo : bool) : Shared :=
  let inflight := sh_in_flight_tx_gets n in
  if MAX_IN_FLIGHT_TX_GETS <=? Z.of_nat (size inflight) then n else
  if bool_decide (hash ∈ inflight) then n else
  let n := with_in_flight_tx_gets n ({[hash]} ∪ inflight) in
  send n conn (if utxo then MGetUtxoTx hash else MGetTx hash).
(** [clear_body_inflight], [clear_tx_inflight]. *)
Definition clear_body_inflight (n : Shared) (hash : Hash) : Shared :=
  with_in_flight_bodies n (sh_in_flight_bodies n ∖ {[hash]}).
Definition clear_tx_inflight (n : Shared) (hash : Hash) : Shared :=
  with_in_flight_tx_gets n (sh_in_flight_tx_gets n ∖ {[hash]}).

(** [broadcast_compact_block]. *)
Definition broadcast_compact_block (n : Shared) (block : Block) : Shared :=
  let header_hash := block_hash block in
  let n := broadcast n (MCompactBlock header_hash (blk_nonce block) (tx_short_id <$> blk_transparent_txs block) []) in
  broadcast n (MInv header_hash).
(** [broadcast_tx], [broadcast_utxo_tx]: the announcement and the transaction, to every
    peer whose filter it passes. *)
Definition gossip (n : Shared) (tx_fee : Z) (inv full : Message) : Shared :=
  with_outbox n (sh_outbox n ++ concat ((λ p,
    if (0 <? ph_fee_filter p) && (tx_fee <? ph_fee_filter p) then [] else [(ph_conn p, inv); (ph_conn p, full)])
    <$> sh_peers n)).
Definition broadcast_tx (n : Shared) (tx : TransparentTx) : Shared := gossip n (tt_fee tx) (MTxInv (tt_tx_hash tx)) (MTx tx).
Definition broadcast_utxo_tx (n : Shared) (tx : UtxoTx) : Shared := gossip n (fee tx) (MUtxoTxInv (tx_id tx)) (MUtxoTx tx).

(** ** Relayed transactions *)

(** [relay_utxo]: penalty points for what is provably invalid. *)
Definition relay_utxo (t : Tick) (n : Shared) (tx : UtxoTx) : Z * Shared :=
  let '(r, s) := admit_utxo_to_mempool (sh_state n) (tk_ms t) tx in
  (match r with
   | Ok _ => 0
   | Err e =>
       if bool_decide (e = "Invalid signature") || bool_decide (e = "Wrong chain_id") || String.prefix "Invalid" e ||
          str_contains "Fee" e || str_contains "dust" e || str_contains "Duplicate input" e ||
          str_contains "requires at least" e
       then INVALID_TX_PENALTY else 0
   end, with_state n s).
(** [relay_transparent]; [None] when a nonce walk does not return. *)
Definition relay_transparent (t : Tick) (n : Shared) (tx : TransparentTx) : option (Z * Shared) :=
  let fuel := S (S (length (transparent_mempool (cs_pools (sh_state n))))) in
  '(r, s) ← admit_transparent_to_mempool fuel (sh_state n) (tk_ms t) tx;
  Some (match r with
        | Ok _ => 0
        | Err e =>
            if bool_decide (e = "Invalid signature") || bool_decide (e = "Wrong chain_id") ||
               bool_decide (e = "Insufficient balance") || String.prefix "Invalid" e ||
               String.prefix "Package nonce depth" e || str_contains "Fee" e || str_contains "Amount" e
            then INVALID_TX_PENALTY else 0
        end, with_state n s).
(** Several transfers, with saturating points. *)
Fixpoint relay_all (t : Tick) (n : Shared) (ban : Z) (txs : list TransparentTx) : option (Z * Shared) :=
  match txs with
  | [] => Some (ban, n)
  | tx :: txs => '(pen, n) ← relay_transparent t n tx; relay_all t n (sat_add 32 ban pen) txs
  end.

(** ** Blocks *)

(** [block_ban_penalty]. *)
Definition block_ban_penalty (err : string) : Z :=
  if str_contains "STARK" err then INVALID_STARK_PENALTY else INVALID_BLOCK_PENALTY.

Definition missing_parents (n : Shared) (b : Block) : list Hash :=
  List.filter (λ p, negb (have n p)) (blk_parents b).
(** The backfill loop after the pre-check; [break] at the budget. *)
Fixpoint backfill (n : Shared) (missing : list Hash) : Shared :=
  match missing with
  | [] => n
  | p :: missing =>
      if negb (should_fetch n p) then backfill n missing else
      let inflight := still_wanted n in
      let n := with_in_flight_bodies n inflight in
      if MAX_IN_FLIGHT_BODIES <=? Z.of_nat (size inflight) then n else
      if bool_decide (p ∈ inflight) then backfill n missing
      else backfill (broadcast (with_in_flight_bodies n ({[p]} ∪ inflight)) (MGetBlock p)) missing
  end.
(** The backfill after [add_block], without the budget. *)
Definition backfill_all (n : Shared) (missing : list Hash) : Shared :=
  foldl (λ n p, if should_fetch n p then broadcast n (MGetBlock p) else n) n missing.

(** One block from the work queue: the node, the budget, the points so far and the
    blocks it unlocks. *)
Definition ingest_one (t : Tick) (n : Shared) (budget : Budget) (penalty : Z) (b : Block) (is_direct : bool)
    : Shared * Budget * Z * list Block :=
  let hash := block_hash b in
  let charge e := if is_direct then sat_add 32 penalty (block_ban_penalty e) else penalty in
  if have n hash then (n, budget, penalty, []) else
  match precheck_block (sh_state n) b with
  | Err e =>
      if str_contains "Unknown parent" e then
        let missing := missing_parents n b in
        (backfill (buffer_orphan t n missing b hash) missing, budget, penalty, [])
      else (n, budget, charge e, [])
  | Ok _ =>
      let '(within, budget) :=
        match budget with
        | Some bu => if is_direct then let '(r, bu) := try_consume bu (tk_ms t) in (r, Some bu) else (true, Some bu)
        | None => (true, None)
        end in
      if negb within then (n, budget, sat_add 32 penalty INVALID_STARK_PENALTY, []) else
      match add_block (sh_state n) (tk_ms t) b with
      | Ok s =>
          let n := clear_body_inflight (with_state n s) hash in
          let n := with_pending_headers n (delete hash (sh_pending_headers n)) in
          let n := broadcast_compact_block n b in
          let children := List.filter (fresh_orphan (tk_instant t)) (default [] (sh_orphans n !! hash)) in
          (with_orphans n (delete hash (sh_orphans n)), budget, penalty, ob_block <$> children)
      | Err e =>
          if str_contains "Unknown parent" e then
            let missing := missing_parents n b in
            (backfill_all (buffer_orphan t n missing b hash) missing, budget, penalty, [])
          else (n, budget, charge e, [])
      end
  end.
(** [ingest_block]: the queue is a stack, its top first; [None] when the fuel runs out. *)
Fixpoint ingest_loop (fuel : nat) (t : Tick) (n : Shared) (budget : Budget) (penalty : Z) (queue : list (Block * bool))
    : option (Z * Shared * Budget) :=
  match fuel, queue with
  | _, [] => Some (penalty, n, budget)
  | O, _ => None
  | S fuel, (b, is_direct) :: queue =>
      let '(n, budget, penalty, unlocked) := ingest_one t n budget penalty b is_direct in
      ingest_loop fuel t n budget penalty (((λ c, (c, false)) <$> rev unlocked) ++ queue)
  end.
(** Enough for every run: the square of the blocks at hand, and two more. *)
Definition ingest_fuel (n : Shared) : nat := let w := S (Z.to_nat (orphan_total (sh_orphans n))) in S (S (w * w)).
Definition ingest_block (t : Tick) (n : Shared) (budget : Budget) (b : Block) : option (Z * Shared * Budget) :=
  ingest_loop (ingest_fuel n) t n budget 0 [(b, true)].
End node.
