(* ===== verification/Dispatch.v ===== *)
(** * The peer-to-peer node: message handlers and connections

    [dispatch] of [src/src/p2p.rs] with every arm, the life of a connection in
    [handle_conn] (caps, rate window, ban score, bans), discovery, the announcers and the
    proof requests of [Node]; and a node with its open connections as a transition
    system over the events it reacts to. *)

From S2P Require Import Prelude Genesis Crypto Address Predicate Utxo UtxoTx Registry Custody Block Ledger.
From S2P Require Import Dag Ghostdag Reachability FeeHistory Stark Superproof State Chain Sync Mempool FeeEstimate.
From S2P Require Import AccountPool Net AddrMan P2p.

Definition PRUNING_PROOF_RECENT_WINDOW : Z := sat_mul 64 DAA_WINDOW 2.

Section dispatch.
Context `{!Crypto, !DualCrypto, !BodyCodec, !NodeEnv, !PoolEnv, !NetEnv}.

(** ** Handshake and addresses *)

(** [Hello]: the points, the node and the peer's listen address. *)
Definition on_hello (n : Shared) (conn : ConnId) (listen : option bytes) (version : Z) (magic : bytes)
    (chain_id blue_score : Z) (listen_addr : option bytes) : Z * Shared * option bytes :=
  if negb (version =? PROTOCOL_VERSION) || negb (bool_decide (magic = WIRE_MAGIC)) || negb (chain_id =? sh_chain_id n)
  then (BAN_SCORE_THRESHOLD, n, listen) else
  let '(n, listen) :=
    match listen_addr with
    | Some a => let n := remember_addr n a in (with_connected_addrs n ({[a]} ∪ sh_connected_addrs n), Some a)
    | None => (n, listen)
    end in
  let n :=
    if our_blue_score n <? blue_score then
      let n :=
        if bool_decide (sh_verified_pruning_point n = None) then
          send (send (with_expecting_pruning_proof n true) conn MGetPruningProof) conn MGetMultiLevelPruningProof
        else n in
      send n conn MGetTips
    else n in
  (0, send n conn MGetAddr, listen).

Definition on_get_addr (n : Shared) (conn : ConnId) : Shared :=
  let addrs := take 64 (addr_order (sh_known_addrs n)) in
  if bool_decide (addrs = []) then n else send n conn (MAddr addrs).
Definition on_addr (t : Tick) (n : Shared) (addrs : list bytes) : Shared :=
  foldl (λ n a, dial t (remember_addr n a) a) n (take MAX_ADDRS_PER_MSG addrs).

(** ** Serving *)

(** What [GetBlock] answers with. *)
Definition served_block (n : Shared) (h : Hash) : option Block :=
  let st := sh_state n in
  b ← cs_dag st !! h;
  Some (if is_body_pruned st h then header_only b else
        match sh_verified_pruning_point n with
        | Some pp =>
            if negb (cs_archival st) && bool_decide (pp ∈ dom (cs_dag st)) && negb (h =? pp) &&
               reach_is_ancestor (cs_reachability st) (cs_dag st) h pp
            then header_only b else b
        | None => b
        end).
Definition on_get_block (n : Shared) (conn : ConnId) (h : Hash) : Shared :=
  send n conn (match served_block n h with Some b => MBlock b | None => MNotFound h end).
Definition on_get_tx (n : Shared) (conn : ConnId) (h : Hash) : Shared :=
  send n conn (match List.find (λ tx, tt_tx_hash tx =? h) (transparent_mempool (cs_pools (sh_state n))) with
               | Some tx => MTx tx | None => MNotFound h end).
Definition on_get_utxo_tx (n : Shared) (conn : ConnId) (h : Hash) : Shared :=
  send n conn (match List.find (λ tx, tx_id tx =? h) (utxo_mempool (cs_pools (sh_state n))) with
               | Some tx => MUtxoTx tx | None => MNotFound h end).
Definition on_tx_inv (n : Shared) (conn : ConnId) (h : Hash) : Shared :=
  if existsb (λ tx, tt_tx_hash tx =? h) (transparent_mempool (cs_pools (sh_state n))) then n else request_tx_pull n conn h false.
Definition on_utxo_tx_inv (n : Shared) (conn : ConnId) (h : Hash) : Shared :=
  if existsb (λ tx, tx_id tx =? h) (utxo_mempool (cs_pools (sh_state n))) then n else request_tx_pull n conn h true.
Definition on_get_block_txn (n : Shared) (conn : ConnId) (block_hash : Hash) (indexes : list Z) : Shared :=
  match cs_dag (sh_state n) !! block_hash with
  | Some b => send n conn (MBlockTxn block_hash (omap (λ i, blk_transparent_txs b !! Z.to_nat i) indexes))
  | None => n
  end.

(** The header loop of [GetHeaders]: stops after [stop_hash], unless that is zero. *)
Fixpoint headers_from (dag : Dag) (stop_hash : Hash) (chain : list Hash) : list Block :=
  match chain with
  | [] => []
  | h :: chain =>
      (if dag !! h is Some b then [header_only b] else []) ++
      (if (h =? stop_hash) && negb (stop_hash =? HASH_ZERO) then [] else headers_from dag stop_hash chain)
  end.
Definition on_get_headers (n : Shared) (conn : ConnId) (locator : list Hash) (stop_hash : Hash) (limit : Z) : Shared :=
  let st := sh_state n in
  let limit := clamp limit 1 MAX_HEADERS_PER_MSG in
  let start :=
    match List.find (λ h, bool_decide (h ∈ dom (cs_dag st))) (take (Z.to_nat MAX_LOCATOR_HASHES) locator) with
    | Some h => Some h
    | None => head (cs_main_chain st)
    end in
  let headers :=
    match start ≫= λ cur, list_find (λ h, h = cur) (cs_main_chain st) with
    | Some (pos, _) => headers_from (cs_dag st) stop_hash (take (Z.to_nat limit) (drop pos (cs_main_chain st)))
    | None => []
    end in
  if bool_decide (headers = []) then n else send n conn (MHeaders headers).

(** ** Compact blocks *)

Definition remember_compact (n : Shared) (h : Hash) (p : PendingCompact) : Shared :=
  let pending := <[h := p]> (sh_pending_compact n) in
  with_pending_compact n
    (if 128 <? Z.of_nat (size pending)
     then foldl (λ m k, delete k m) pending (take (size pending / 2) (compact_order pending))
     else pending).
Definition on_compact_block (t : Tick) (n : Shared) (conn : ConnId) (header_hash : Hash) (short_ids : list bytes)
    (prefilled : list TransparentTx) : option Shared :=
  '(_, n) ← relay_all t n 0 prefilled;
  let '(filled, missing) := reconstruct_from_mempool short_ids (transparent_mempool (cs_pools (sh_state n))) prefilled in
  let n := remember_compact n header_hash {| pc_short_ids := short_ids; pc_filled := filled |} in
  let n := if bool_decide (missing = []) then n else send n conn (MGetBlockTxn header_hash missing) in
  Some (if should_fetch n header_hash then request_block_body n conn header_hash else n).
(** The transfers of a [BlockTxn] fill the open slots in order: one transfer per open
    slot, kept when its short id is the slot's. *)
Fixpoint fill_from (short_ids : list bytes) (filled : list (option TransparentTx)) (txs : list TransparentTx)
    : list (option TransparentTx) :=
  match filled, txs with
  | None :: filled, tx :: txs =>
      (if bool_decide (head short_ids = Some (tx_short_id tx)) then Some tx else None) :: fill_from (tail short_ids) filled txs
  | slot :: filled, txs => slot :: fill_from (tail short_ids) filled txs
  | [], _ => []
  end.
Definition on_block_txn (t : Tick) (n : Shared) (block_hash : Hash) (txs : list TransparentTx) : option (Z * Shared) :=
  '(ban, n) ← relay_all t n 0 txs;
  Some (ban, with_pending_compact n (alter (λ p, {| pc_short_ids := pc_short_ids p;
    pc_filled := fill_from (pc_short_ids p) (pc_filled p) txs |}) block_hash (sh_pending_compact n))).

(** ** Headers *)

(** Errors of [precheck_header] that cost points. *)
Definition junk_header (e : string) : bool :=
  existsb (λ k, str_contains k e)
    ["Invalid proof of work"; "Wrong difficulty"; "Duplicate parent"; "Too many parents"; "no parents"; "interlinks"].
Definition header_work (s : ChainState) (h : Block) : Z :=
  let parents := omap (λ p, header_work_units ∘ blk_difficulty <$> cs_dag s !! p) (blk_parents h) in
  sat_add 128 (zmax_list parents) (header_work_units (blk_difficulty h)).
(** One header: the node, the points and the accepted headers so far. *)
Definition check_header (conn : ConnId) (acc : Shared * Z * list (Hash * PendingHeader)) (h : Block)
    : Shared * Z * list (Hash * PendingHeader) :=
  let '(n, ban, accepted) := acc in
  let st := sh_state n in
  if bool_decide (block_hash h ∈ dom (cs_dag st)) then acc else
  match precheck_header st h with
  | Ok _ =>
      (n, ban, accepted ++ [(block_hash h,
        {| ph_header := header_only h; ph_work := header_work st h; ph_requested := false |})])
  | Err e =>
      if str_contains "Unknown parent" e then (foldl (λ n p, request_block_body n conn p) n (blk_parents h), ban, accepted)
      else if junk_header e then (n, sat_add 32 ban INVALID_BLOCK_PENALTY, accepted) else acc
  end.
(** Overflowing entries of least work are dropped before the new ones enter. *)
Definition work_of (m : gmap Hash PendingHeader) (h : Hash) : Z := from_option ph_work 0 (m !! h).
Definition work_le (m : gmap Hash PendingHeader) (a b : Hash) : Prop := work_of m a <= work_of m b.
#[global] Instance work_le_dec m : RelDecision (work_le m).
Proof. intros a b. unfold work_le. apply _. Defined.
Definition work_ge (m : gmap Hash PendingHeader) (a b : Hash) : Prop := work_of m b <= work_of m a.
#[global] Instance work_ge_dec m : RelDecision (work_ge m).
Proof. intros a b. unfold work_ge. apply _. Defined.
Definition add_pending (pending : gmap Hash PendingHeader) (accepted : list (Hash * PendingHeader)) : gmap Hash PendingHeader :=
  let count := Z.of_nat (size pending) + len accepted in
  let pending :=
    if MAX_PENDING_HEADERS <? count then
      let by_work := merge_sort (work_le pending) (header_order pending) in
      foldl (λ m h, delete h m) pending (take (Z.to_nat (count - MAX_PENDING_HEADERS)) by_work)
    else pending in
  foldl (λ m '(h, ph), match m !! h with Some _ => m | None => <[h := ph]> m end) pending accepted.
(** Bodies of the heaviest headers first, within the budget. *)
Definition ranked_headers (pending : gmap Hash PendingHeader) : list Hash :=
  merge_sort (work_ge pending)
    (List.filter (λ h, negb (from_option ph_requested false (pending !! h))) (header_order pending)).
Fixpoint request_ranked (n : Shared) (conn : ConnId) (ranked : list Hash) : Shared :=
  match ranked with
  | [] => n
  | h :: ranked =>
      if MAX_IN_FLIGHT_BODIES <=? Z.of_nat (size (sh_in_flight_bodies n)) then n
      else request_ranked (request_block_body n conn h) conn ranked
  end.
Definition on_headers (n : Shared) (conn : ConnId) (headers : list Block) : Z * Shared :=
  if MAX_HEADERS_PER_MSG <? len headers then (INVALID_BLOCK_PENALTY, n) else
  let '(n, ban, accepted) := foldl (check_header conn) (n, 0, []) headers in
  if bool_decide (accepted = []) then (ban, n) else
  let pending := add_pending (sh_pending_headers n) accepted in
  (ban, request_ranked (with_pending_headers n pending) conn (ranked_headers pending)).

(** ** Pruning proofs *)

Definition freshness_context (t : Tick) (n : Shared) : IbdFreshnessContext :=
  let st := sh_state n in
  {| ctx_now_ms := tk_ms t; local_best_work := sh_best_pruning_work n; local_tip_height := tip_height st;
     local_tip_timestamp :=
       from_option blk_timestamp GENESIS_TIMESTAMP_MS (cs_dag st !! default genesis_hash (last (cs_main_chain st)));
     local_past_genesis := 0 <? tip_height st |}.

Definition on_get_pruning_proof (n : Shared) (conn : ConnId) : Shared :=
  match build_pruning_proof (sh_state n) with Some headers => send n conn (MPruningProof headers) | None => n end.
Definition on_get_multilevel (n : Shared) (conn : ConnId) : Shared :=
  let st := sh_state n in
  let fuel := S (size (cs_dag st)) in
  let ml := match state_multilevel_proof fuel st PRUNING_PROOF_RECENT_WINDOW with
            | Some p => Some p
            | None => state_multilevel_proof fuel st 2
            end in
  match ml with
  | Some p => send n conn (MMultiLevelPruningProof p)
  | None => on_get_pruning_proof n conn
  end.

(** What both proofs do once their headers are imported. *)
Definition record_pruning_point (n : Shared) (s : ChainState) (work : Z) (pp : Hash) : Shared :=
  let n := with_state n s in
  let n := if sh_best_pruning_work n <? work then with_best_pruning_work n work else n in
  with_expecting_pruning_ledger (with_verified_pruning_point n (Some pp)) true.

Definition on_pruning_proof (t : Tick) (n : Shared) (conn : ConnId) (headers : list Block) : Z * Shared :=
  if negb (sh_expecting_pruning_proof n) then (0, n) else
  match verify_pruning_proof lab_easy (tk_ms t) headers with
  | Err _ => (INVALID_BLOCK_PENALTY, n)
  | Ok summary =>
      let tip := header_at headers (len headers - 1) in
      let work := ps_cumulative_work summary in
      if is_err (check_ibd_proof_freshness (block_hash (header_at headers 0)) (blk_height tip) (blk_timestamp tip) work
                   (freshness_context t n))
      then (INVALID_BLOCK_PENALTY, with_expecting_pruning_proof n false) else
      if work <=? sh_best_pruning_work n then (0, with_expecting_pruning_proof n false) else
      match import_verified_pruning_headers (sh_state n) headers with
      | Err _ => (INVALID_BLOCK_PENALTY, n)
      | Ok (_, s) =>
          let pp := ps_pruning_point summary in
          let n := with_expecting_pruning_proof (record_pruning_point n s work pp) false in
          (0, send n conn (MGetPruningPointLedger pp))
      end
  end.

(** The closure given to [adopt_multilevel_pruning_proof_fresh]. *)
Definition adopt_multilevel (n : Shared) (headers : list Block) (summary : MultiLevelProofSummary) : result bool * Shared :=
  let work := ms_verified_work summary in
  if work <=? sh_best_pruning_work n then (Ok false, n) else
  match import_verified_pruning_headers (sh_state n) headers with
  | Err e => (Err e, n)
  | Ok (_, s) => (Ok true, record_pruning_point n s work (ms_pruning_point summary))
  end.
Definition on_multilevel_proof (t : Tick) (n : Shared) (conn : ConnId) (proof : MultiLevelPruningProof) : Z * Shared :=
  if negb (sh_expecting_pruning_proof n) then (0, n) else
  match adopt_multilevel_pruning_proof_fresh lab_easy (tk_ms t) proof (freshness_context t n)
          (adopt_multilevel n (headers_genesis_first proof)) with
  | Ok (Ok true, n) =>
      let n := with_expecting_pruning_proof n false in
      (0, match sh_verified_pruning_point n with Some pp => send n conn (MGetPruningPointLedger pp) | None => n end)
  | Ok (Ok false, n) => (0, with_expecting_pruning_proof n false)
  | Ok (Err _, n) => (INVALID_BLOCK_PENALTY, n)
  | Err _ => (INVALID_BLOCK_PENALTY, n)
  end.

Definition on_get_pruning_ledger (n : Shared) (conn : ConnId) (pp : Hash) : Shared :=
  if negb (bool_decide (cs_pruning_point (sh_state n) = Some pp)) then n else
  match build_pruning_point_ledger (sh_state n) with
  | Some ledger => send n conn (MPruningPointLedger ledger)
  | None => n
  end.
Definition on_pruning_ledger (n : Shared) (msg : PruningPointLedger) : Z * Shared :=
  if negb (sh_expecting_pruning_ledger n) then (0, n) else
  match adopt_pruning_point_ledger (sh_state n) msg with
  | Err _ => (INVALID_BLOCK_PENALTY, n)
  | Ok s => (0, with_expecting_pruning_ledger (with_state n s) false)
  end.

(** ** Dispatch *)

(** [dispatch]: the points the message earned, the node, the peer's listen address and
    the verification budget; [None] when a loop inside does not return. *)
Definition dispatch (t : Tick) (n : Shared) (conn : ConnId) (listen : option bytes) (budget : Budget) (msg : Message)
    : option (Z * Shared * option bytes * Budget) :=
  let quiet (n : Shared) := Some (0, n, listen, budget) in
  let scored (r : Z * Shared) := Some (r.1, r.2, listen, budget) in
  match msg with
  | MHello version magic chain_id blue_score listen_addr =>
      let '(pen, n, listen) := on_hello n conn listen version magic chain_id blue_score listen_addr in
      Some (pen, n, listen, budget)
  | MGetAddr => quiet (on_get_addr n conn)
  | MAddr addrs => quiet (on_addr t n addrs)
  | MGetTips => quiet (send n conn (MTips (cs_tips (sh_state n))))
  | MTips tips => quiet (foldl (λ n h, request_block_body n conn h) n tips)
  | MGetBlock h => quiet (on_get_block n conn h)
  | MBlock b =>
      '(pen, n, budget) ← ingest_block t n budget b;
      Some (pen, clear_body_inflight n (block_hash b), listen, budget)
  | MInv h => quiet (request_block_body n conn h)
  | MNotFound h => quiet (clear_tx_inflight (clear_body_inflight n h) h)
  | MTx tx => '(pen, n) ← relay_transparent t n tx; scored (pen, clear_tx_inflight n (tt_tx_hash tx))
  | MTxInv h => quiet (on_tx_inv n conn h)
  | MGetTx h => quiet (on_get_tx n conn h)
  | MTxPackage txs => r ← relay_all t n 0 (take MAX_TX_PACKAGE txs); scored r
  | MUtxoTx tx => let '(pen, n) := relay_utxo t n tx in scored (pen, clear_tx_inflight n (tx_id tx))
  | MUtxoTxInv h => quiet (on_utxo_tx_inv n conn h)
  | MGetUtxoTx h => quiet (on_get_utxo_tx n conn h)
  | MCompactBlock header_hash _ short_ids prefilled =>
      n ← on_compact_block t n conn header_hash short_ids prefilled; quiet n
  | MGetBlockTxn block_hash indexes => quiet (on_get_block_txn n conn block_hash indexes)
  | MBlockTxn block_hash txs => r ← on_block_txn t n block_hash txs; scored r
  | MGetHeaders locator stop_hash limit => quiet (on_get_headers n conn locator stop_hash limit)
  | MHeaders headers => scored (on_headers n conn headers)
  | MPing nonce => quiet (send n conn (MPong nonce))
  | MPong _ => quiet n
  | MGetPruningProof => quiet (on_get_pruning_proof n conn)
  | MGetMultiLevelPruningProof => quiet (on_get_multilevel n conn)
  | MPruningProof headers => scored (on_pruning_proof t n conn headers)
  | MMultiLevelPruningProof proof => scored (on_multilevel_proof t n conn proof)
  | MGetPruningPointLedger pp => quiet (on_get_pruning_ledger n conn pp)
  | MPruningPointLedger ledger => scored (on_pruning_ledger n ledger)
  | MFeeFilter _ => quiet n
  | MIdentity _ _ => quiet n
  end.

(** ** Connections *)

(** The locals of [handle_conn]. *)
Record Session := {
  ss_ip : option IpAddr;
  ss_listen : option bytes;
  ss_rate : RateWindow;
  ss_budget : Budget;
  ss_ban_score : Z;
  ss_last_decay : Z;
}.

(** Up to the loop.  [authenticated] is the outcome of the transport handshake and of
    [pq_authenticate]; [None] refuses the connection. *)
Definition open_conn (t : Tick) (n : Shared) (conn : ConnId) (ip : option IpAddr) (dialed : option bytes) (authenticated : bool)
    : Shared * option Session :=
  let '(is_ban, n) :=
    match ip with
    | Some ip => let '(r, l) := is_banned (sh_ip_bans n) (tk_instant t) ip in (r, with_ip_bans n l)
    | None => (false, n)
    end in
  if is_ban then (n, None) else
  let group := ip ≫= ip_group in
  if negb authenticated then (n, None) else
  if MAX_PEERS <=? len (sh_peers n) then (n, None) else
  let same_group := List.filter (λ p, bool_decide (ph_group p = group)) (sh_peers n) in
  if bool_decide (is_Some group) && (MAX_PEERS_PER_GROUP <=? len same_group) then (n, None) else
  let n := with_peers n (sh_peers n ++ [{| ph_group := group; ph_conn := conn; ph_fee_filter := 0 |}]) in
  let n := from_option (remember_addr n) n dialed in
  let n := send n conn (hello n) in
  let p := cs_pools (sh_state n) in
  let hot {A} (l : list A) := MAX_MEMPOOL_SIZE * 3 <=? len l * 4 in
  let our_min := if hot (utxo_mempool p) || hot (transparent_mempool p) then current_min_relay_fee (sh_state n) else 0 in
  let n := send n conn (MFeeFilter our_min) in
  (n, Some {| ss_ip := ip; ss_listen := dialed;
              ss_rate := RateWindow_new (tk_instant t) (peer_msg_limit net_policy);
              ss_budget := Some (StarkVerifyBudget_new (stark_verifies_per_window net_policy) (stark_window net_policy));
              ss_ban_score := 0; ss_last_decay := tk_instant t |}).

(** After the loop: the peer is deregistered and its address freed. *)
Definition close_conn (n : Shared) (conn : ConnId) (ss : Session) : Shared :=
  let n := with_peers n (List.filter (λ p, negb (ph_conn p =? conn)) (sh_peers n)) in
  match ss_listen ss with
  | Some a => with_connected_addrs n (sh_connected_addrs n ∖ {[a]})
  | None => n
  end.

(** The bans at the threshold. *)
Definition ban_peer (t : Tick) (n : Shared) (ss : Session) : Shared :=
  let n := match ss_listen ss with
           | Some a =>
               let banned := sh_banned_addrs n in
               let n := if Z.of_nat (size banned) <? MAX_KNOWN_ADDRS then with_banned_addrs n ({[a]} ∪ banned) else n in
               with_known_addrs n (sh_known_addrs n ∖ {[a]})
           | None => n
           end in
  match ss_ip ss with Some ip => with_ip_bans n (ban (sh_ip_bans n) (tk_instant t) ip) | None => n end.

Definition decay (now : Z) (ss : Session) : Session :=
  if BAN_DECAY_INTERVAL <=? sat_sub now (ss_last_decay ss) then
    {| ss_ip := ss_ip ss; ss_listen := ss_listen ss; ss_rate := ss_rate ss; ss_budget := ss_budget ss;
       ss_ban_score := sat_sub (ss_ban_score ss) BAN_DECAY_POINTS; ss_last_decay := now |}
  else ss.
Definition with_score (ss : Session) (score : Z) : Session :=
  {| ss_ip := ss_ip ss; ss_listen := ss_listen ss; ss_rate := ss_rate ss; ss_budget := ss_budget ss;
     ss_ban_score := score; ss_last_decay := ss_last_decay ss |}.
Definition set_fee_filter (n : Shared) (conn : ConnId) (msg : Message) : Shared :=
  match msg with
  | MFeeFilter min_fee =>
      with_peers n ((λ p, if ph_conn p =? conn
        then {| ph_group := ph_group p; ph_conn := ph_conn p; ph_fee_filter := min_fee |} else p) <$> sh_peers n)
  | _ => n
  end.

(** One iteration of the loop with a decoded message: the node, the session, and
    whether the loop goes on.  [t0] is the clock before the blocking read, [t] after it. *)
Definition receive (t0 t : Tick) (n : Shared) (conn : ConnId) (ss : Session) (payload_len : Z) (msg : Message)
    : option (Shared * Session * bool) :=
  let ss := decay (tk_instant t0) ss in
  if negb (message_within_type_cap msg payload_len) then
    let ss := with_score ss (sat_add 32 (ss_ban_score ss) INVALID_TX_PENALTY) in
    Some (n, ss, ss_ban_score ss <? BAN_SCORE_THRESHOLD)
  else
  let '(within, rate) := record_message (ss_rate ss) (tk_instant t) in
  if negb within then Some (n, ss, false) else
  '(pen, n, listen, budget) ← dispatch t (set_fee_filter n conn msg) conn (ss_listen ss) (ss_budget ss) msg;
  let ss := {| ss_ip := ss_ip ss; ss_listen := listen; ss_rate := rate; ss_budget := budget;
               ss_ban_score := sat_add 32 (ss_ban_score ss) pen; ss_last_decay := ss_last_decay ss |} in
  Some (if BAN_SCORE_THRESHOLD <=? ss_ban_score ss then (ban_peer t n ss, ss, false) else (n, ss, true)).

(** ** A node and its connections *)

(** The announcer threads keep what they have announced. *)
Record Net := {
  net_node : Shared;
  net_sessions : gmap ConnId Session;
  net_last_tip : option Hash;
  net_announced : gset Hash;
  net_announced_utxo : gset Hash;
}.
Definition Net_new (s : ChainState) (bans : IpBanList) : Net :=
  {| net_node := Shared_new s bans; net_sessions := ∅; net_last_tip := None; net_announced := ∅; net_announced_utxo := ∅ |}.
Definition with_node (w : Net) (n : Shared) (ss : gmap ConnId Session) : Net :=
  {| net_node := n; net_sessions := ss; net_last_tip := net_last_tip w; net_announced := net_announced w;
     net_announced_utxo := net_announced_utxo w |}.

(** [spawn_discovery], one turn: [break] once the table is full. *)
Fixpoint dial_known (t : Tick) (n : Shared) (candidates : list bytes) : Shared :=
  match candidates with
  | [] => n
  | a :: candidates => if MAX_PEERS <=? peer_count n then n else dial_known t (dial t n a) candidates
  end.
Definition discover (t : Tick) (n : Shared) : Shared :=
  if MAX_PEERS <=? peer_count n then n else
  let n := broadcast n MGetAddr in dial_known t n (addr_order (sh_known_addrs n)).
(** [spawn_tip_announcer], one turn. *)
Definition announce_tip (w : Net) : Net :=
  let n := net_node w in
  let tip := selected_tip (cs_ghostdag (sh_state n)) (cs_tips (sh_state n)) in
  if bool_decide (tip = net_last_tip w) then w else
  {| net_node := match tip with Some h => broadcast n (MInv h) | None => n end; net_sessions := net_sessions w;
     net_last_tip := tip; net_announced := net_announced w; net_announced_utxo := net_announced_utxo w |}.
(** [spawn_mempool_announcer], one turn. *)
Definition announce_mempool (w : Net) : Net :=
  let n := net_node w in
  let p := cs_pools (sh_state n) in
  let news := List.filter (λ tx, negb (bool_decide (tt_tx_hash tx ∈ net_announced w))) (transparent_mempool p) in
  let news_utxo := List.filter (λ tx, negb (bool_decide (tx_id tx ∈ net_announced_utxo w))) (utxo_mempool p) in
  {| net_node := foldl broadcast_utxo_tx (foldl broadcast_tx n news) news_utxo; net_sessions := net_sessions w;
     net_last_tip := net_last_tip w; net_announced := list_to_set (tt_tx_hash <$> transparent_mempool p);
     net_announced_utxo := list_to_set (tx_id <$> utxo_mempool p) |}.
(** [request_pruning_proof], [request_linear_pruning_proof]. *)
Definition request_proof (linear_only : bool) (n : Shared) : Shared :=
  let n := broadcast (with_expecting_pruning_proof n true) MGetPruningProof in
  if linear_only then n else broadcast n MGetMultiLevelPruningProof.
(** [Node::connect] once the stream is open. *)
Definition connect_to (n : Shared) (addr : bytes) : Shared :=
  let n := remember_addr n addr in
  with_dials (with_connected_addrs n ({[addr]} ∪ sh_connected_addrs n)) (sh_dials n ++ [addr]).

(** What a node reacts to: its connections, its threads and its own process (a mined
    block, a submitted transaction). *)
Inductive Event :=
| EOpen (t : Tick) (conn : ConnId) (ip : option IpAddr) (dialed : option bytes) (authenticated : bool)
| EReceive (t0 t : Tick) (conn : ConnId) (payload_len : Z) (msg : Message)
| EClose (conn : ConnId)
| EDiscover (t : Tick)
| EAnnounceTip
| EAnnounceMempool
| ERequestProof (linear_only : bool)
| EListen (addr : bytes)
| EConnect (addr : bytes)
| EMined (t : Tick) (b : Block)
| ESubmitted (t : Tick) (tx : UtxoTx).

Definition net_step (w : Net) (e : Event) : option Net :=
  let n := net_node w in
  let ss := net_sessions w in
  match e with
  | EOpen t conn ip dialed authenticated =>
      if bool_decide (conn ∈ dom ss) then Some w else
      let '(n, s) := open_conn t n conn ip dialed authenticated in
      Some (with_node w n (match s with Some s => <[conn := s]> ss | None => ss end))
  | EReceive t0 t conn payload_len msg =>
      match ss !! conn with
      | None => Some w
      | Some s =>
          '(n, s, go) ← receive t0 t n conn s payload_len msg;
          Some (if go : bool then with_node w n (<[conn := s]> ss) else with_node w (close_conn n conn s) (delete conn ss))
      end
  | EClose conn =>
      match ss !! conn with
      | None => Some w
      | Some s => Some (with_node w (close_conn n conn s) (delete conn ss))
      end
  | EDiscover t => Some (with_node w (discover t n) ss)
  | EAnnounceTip => Some (announce_tip w)
  | EAnnounceMempool => Some (announce_mempool w)
  | ERequestProof linear_only => Some (with_node w (request_proof linear_only n) ss)
  | EListen addr => Some (with_node w (with_my_listen_addr n (Some addr)) ss)
  | EConnect addr => Some (with_node w (connect_to n addr) ss)
  | EMined t b =>
      Some (match add_block (sh_state n) (tk_ms t) b with Ok s => with_node w (with_state n s) ss | Err _ => w end)
  | ESubmitted t tx => Some (with_node w (with_state n (admit_utxo_to_mempool (sh_state n) (tk_ms t) tx).2) ss)
  end.
Definition net_run (w : Net) (es : list Event) : option Net := foldl (λ w e, w ← w; net_step w e) (Some w) es.
End dispatch.
