(* ===== verification/P2pInv.v ===== *)
(** * The peer-to-peer node: the helpers keep its tables

    The invariant [node_ok] bounds every table of a node; each helper keeps it, changes
    the chain state by [chain_step]s only, and the ingest loop returns. *)

From S2P Require Import Prelude Genesis Crypto Address Predicate Utxo UtxoTx Registry Custody Block Ledger.
From S2P Require Import Dag Ghostdag Reachability Reindex ReachBuild Determinism FeeHistory Stark Superproof State Chain ChainInv.
From S2P Require Import Sync Mempool FeeEstimate AccountPool Net AddrMan P2p Dispatch.

Create HintDb node discriminated.

(** ** Tables *)

Section tables.
Context `{!Crypto, !DualCrypto, !BodyCodec, !NodeEnv, !PoolEnv, !NetEnv}.

Abbreviation Orphans := (gmap Hash (list OrphanBlock)).
Definition orphan_hash (o : OrphanBlock) : Hash := block_hash (ob_block o).
(** The orphans waiting for one parent are distinct blocks. *)
Definition waiting_ok (orph : Orphans) : Prop := map_Forall (λ _ v, NoDup (orphan_hash <$> v)) orph.

Lemma orphan_total_nonneg (orph : Orphans) : 0 <= orphan_total orph.
Proof. apply total_nonneg. intros k v _. apply len_nonneg. Qed.

Lemma prune_orphans_total now (orph : Orphans) : orphan_total (prune_orphans now orph) <= orphan_total orph.
Proof.
  unfold orphan_total, prune_orphans. induction orph as [|k v m Hk IH] using map_ind; [by rewrite omap_empty|].
  rewrite total_insert_None by done. pose proof (len_filter_le (fresh_orphan now) v) as Hle.
  destruct (List.filter (fresh_orphan now) v) as [|x l] eqn:Hf.
  - rewrite omap_insert_None by (by rewrite Hf). rewrite delete_id by (by rewrite lookup_omap, Hk). pose proof (len_nonneg v). lia.
  - rewrite (omap_insert_Some _ _ _ _ (x :: l)) by (by rewrite Hf). rewrite total_insert_None by (by rewrite lookup_omap, Hk). lia.
Qed.
Lemma lookup_prune now (orph : Orphans) k v :
  prune_orphans now orph !! k = Some v → ∃ v0, orph !! k = Some v0 ∧ v = List.filter (fresh_orphan now) v0.
Proof.
  unfold prune_orphans. rewrite lookup_omap. destruct (orph !! k) as [v0|]; [|done]. simpl.
  destruct (List.filter (fresh_orphan now) v0) eqn:Hf; [done|]. intros [= <-]. exists v0. by rewrite Hf.
Qed.
Lemma prune_orphans_waiting now (orph : Orphans) : waiting_ok orph → waiting_ok (prune_orphans now orph).
Proof.
  intros Hw k v (v0 & Hv & ->)%lookup_prune. eapply sublist_NoDup; [exact (Hw k v0 Hv)|]. apply fmap_sublist, filter_bool_sublist.
Qed.

Lemma push_orphan_total now b h (orph : Orphans) p : orphan_total (push_orphan now b h orph p) <= orphan_total orph + 1.
Proof.
  unfold push_orphan, orphan_total. destruct (existsb _ _); rewrite total_insert; unfold contrib;
    destruct (orph !! p); simpl; unfold len; rewrite ?length_app; simpl; lia.
Qed.
Lemma push_orphan_waiting now b (orph : Orphans) p : waiting_ok orph → waiting_ok (push_orphan now b (block_hash b) orph p).
Proof.
  intros Hw. assert (NoDup (orphan_hash <$> default [] (orph !! p))) as Hd.
  { destruct (orph !! p) as [v|] eqn:Hv; [exact (Hw p v Hv)|apply NoDup_nil_2]. }
  unfold push_orphan. destruct (existsb _ _) eqn:He; apply map_Forall_insert_2; [exact Hd|done| |done].
  rewrite fmap_app. apply NoDup_app. split; [exact Hd|]. split; [|apply NoDup_singleton].
  intros x Hin Hx%list_elem_of_singleton. subst x. apply list_elem_of_fmap in Hin as (w & Hw' & Hin).
  assert (existsb (λ w, block_hash (ob_block w) =? block_hash b) (default [] (orph !! p)) = true) as Ht; [|congruence].
  apply existsb_exists. exists w. split; [by apply list_elem_of_In|]. apply Z.eqb_eq. symmetry. exact Hw'.
Qed.
Lemma push_orphans_total now b h missing (orph : Orphans) :
  orphan_total (foldl (push_orphan now b h) orph missing) <= orphan_total orph + len missing.
Proof.
  revert orph. induction missing as [|p missing IH]; intros orph; [unfold len; simpl; lia|]. cbn [foldl].
  specialize (IH (push_orphan now b h orph p)). pose proof (push_orphan_total now b h orph p). unfold len in *. simpl length. lia.
Qed.
Lemma push_orphans_waiting now b missing (orph : Orphans) :
  waiting_ok orph → waiting_ok (foldl (push_orphan now b (block_hash b)) orph missing).
Proof. revert orph. induction missing as [|p missing IH]; intros orph Hw; [done|]. by apply IH, push_orphan_waiting. Qed.

(** ** The invariant of the tables *)

Record node_ok (n : Shared) : Prop := {
  no_orphans : orphan_total (sh_orphans n) < MAX_ORPHANS + MAX_BLOCK_PARENTS;
  no_waiting : waiting_ok (sh_orphans n);
  no_bodies : Z.of_nat (size (sh_in_flight_bodies n)) <= MAX_IN_FLIGHT_BODIES;
  no_tx_gets : Z.of_nat (size (sh_in_flight_tx_gets n)) <= MAX_IN_FLIGHT_TX_GETS;
  no_headers : Z.of_nat (size (sh_pending_headers n)) <= MAX_PENDING_HEADERS;
  no_compact : Z.of_nat (size (sh_pending_compact n)) <= 128;
  no_known : Z.of_nat (size (sh_known_addrs n)) <= MAX_KNOWN_ADDRS;
  no_banned : Z.of_nat (size (sh_banned_addrs n)) <= MAX_KNOWN_ADDRS;
  no_addrman : addrman_ok (sh_addrman n);
  no_peers : len (sh_peers n) <= MAX_PEERS;
  no_groups g : len (List.filter (λ p, bool_decide (ph_group p = Some g)) (sh_peers n)) <= MAX_PEERS_PER_GROUP;
}.

(** A field the invariant does not bound may change. *)
Ltac keep H := destruct H; split; simpl; assumption.

Lemma ok_outbox n x : node_ok n → node_ok (with_outbox n x). Proof. intros Hn. keep Hn. Qed.
Lemma ok_dials n x : node_ok n → node_ok (with_dials n x). Proof. intros Hn. keep Hn. Qed.
Lemma ok_state n x : node_ok n → node_ok (with_state n x). Proof. intros Hn. keep Hn. Qed.
Lemma ok_connected n x : node_ok n → node_ok (with_connected_addrs n x). Proof. intros Hn. keep Hn. Qed.
Lemma ok_expecting_proof n x : node_ok n → node_ok (with_expecting_pruning_proof n x). Proof. intros Hn. keep Hn. Qed.
Lemma ok_expecting_ledger n x : node_ok n → node_ok (with_expecting_pruning_ledger n x). Proof. intros Hn. keep Hn. Qed.
Lemma ok_verified n x : node_ok n → node_ok (with_verified_pruning_point n x). Proof. intros Hn. keep Hn. Qed.
Lemma ok_work n x : node_ok n → node_ok (with_best_pruning_work n x). Proof. intros Hn. keep Hn. Qed.
Lemma ok_listen n x : node_ok n → node_ok (with_my_listen_addr n x). Proof. intros Hn. keep Hn. Qed.
Lemma ok_ip_bans n x : node_ok n → node_ok (with_ip_bans n x). Proof. intros Hn. keep Hn. Qed.
Hint Resolve ok_outbox ok_dials ok_state ok_connected ok_expecting_proof ok_expecting_ledger ok_verified ok_work ok_listen
  ok_ip_bans : node.

(** Bounded fields may change within their bounds. *)
Lemma ok_bodies n x : Z.of_nat (size x) <= MAX_IN_FLIGHT_BODIES → node_ok n → node_ok (with_in_flight_bodies n x).
Proof. intros Hx Hn. keep Hn. Qed.
Lemma ok_tx_gets n x : Z.of_nat (size x) <= MAX_IN_FLIGHT_TX_GETS → node_ok n → node_ok (with_in_flight_tx_gets n x).
Proof. intros Hx Hn. keep Hn. Qed.
Lemma ok_headers n x : Z.of_nat (size x) <= MAX_PENDING_HEADERS → node_ok n → node_ok (with_pending_headers n x).
Proof. intros Hx Hn. keep Hn. Qed.
Lemma ok_compact n x : Z.of_nat (size x) <= 128 → node_ok n → node_ok (with_pending_compact n x).
Proof. intros Hx Hn. keep Hn. Qed.
Lemma ok_known n x : Z.of_nat (size x) <= MAX_KNOWN_ADDRS → node_ok n → node_ok (with_known_addrs n x).
Proof. intros Hx Hn. keep Hn. Qed.
Lemma ok_banned n x : Z.of_nat (size x) <= MAX_KNOWN_ADDRS → node_ok n → node_ok (with_banned_addrs n x).
Proof. intros Hx Hn. keep Hn. Qed.
Lemma ok_addrman n x : addrman_ok x → node_ok n → node_ok (with_addrman n x).
Proof. intros Hx Hn. keep Hn. Qed.
Lemma ok_orphans n x :
  orphan_total x < MAX_ORPHANS + MAX_BLOCK_PARENTS → waiting_ok x → node_ok n → node_ok (with_orphans n x).
Proof. intros Hx Hw Hn. keep Hn. Qed.

Lemma ok_send n c m : node_ok n → node_ok (send n c m). Proof. apply ok_outbox. Qed.
Lemma ok_broadcast n m : node_ok n → node_ok (broadcast n m). Proof. apply ok_outbox. Qed.
Lemma ok_gossip n f i m : node_ok n → node_ok (gossip n f i m). Proof. apply ok_outbox. Qed.
Hint Resolve ok_send ok_broadcast ok_gossip : node.

Lemma size_filter_le (P : Hash → Prop) `{!∀ h, Decision (P h)} (X : gset Hash) : (size (filter P X) <= size X)%nat.
Proof. apply subseteq_size. intros h. rewrite elem_of_filter. tauto. Qed.
Lemma size_add {A} `{Countable A} (x : A) (X : gset A) : (size ({[x]} ∪ X) <= S (size X))%nat.
Proof. pose proof (size_union_alt {[x]} X). rewrite size_singleton in *. pose proof (subseteq_size (X ∖ {[x]}) X ltac:(set_solver)). lia. Qed.
Lemma size_difference_le {A} `{Countable A} (X Y : gset A) : (size (X ∖ Y) <= size X)%nat.
Proof. apply subseteq_size. set_solver. Qed.

Lemma ok_remember_addr n a : node_ok n → node_ok (remember_addr n a).
Proof.
  intros Hn. unfold remember_addr. destruct (negb _); [done|]. case_bool_decide; [done|]. case_bool_decide; [done|].
  apply ok_addrman.
  - apply am_add_ok. destruct (_ <? _); apply Hn.
  - destruct (Z.ltb_spec (Z.of_nat (size (sh_known_addrs n))) MAX_KNOWN_ADDRS); [|done]. apply ok_known; [|done].
    pose proof (size_add a (sh_known_addrs n)). lia.
Qed.
Lemma ok_dial t n a : node_ok n → node_ok (dial t n a).
Proof.
  intros Hn. unfold dial. destruct (negb _); [done|]. destruct (_ <=? _); [done|]. do 3 (case_bool_decide; [done|]).
  destruct (tk_connects t a); auto with node.
Qed.
Hint Resolve ok_remember_addr ok_dial : node.

Lemma ok_still_wanted n : node_ok n → Z.of_nat (size (still_wanted n)) <= MAX_IN_FLIGHT_BODIES.
Proof. intros Hn. pose proof (no_bodies _ Hn). unfold still_wanted. pose proof (size_filter_le (λ h, should_fetch n h = true) (sh_in_flight_bodies n)). lia. Qed.
Lemma ok_more_bodies (X : gset Hash) h :
  (MAX_IN_FLIGHT_BODIES <=? Z.of_nat (size X)) = false → Z.of_nat (size ({[h]} ∪ X)) <= MAX_IN_FLIGHT_BODIES.
Proof. intros Hlt%Z.leb_gt. pose proof (size_add h X). lia. Qed.

Lemma size_alter {V} (f : V → V) h (m : gmap Hash V) : size (alter f h m) = size m.
Proof. rewrite <- !size_dom. by rewrite dom_alter_L. Qed.

Lemma ok_request_block_body n c h : node_ok n → node_ok (request_block_body n c h).
Proof.
  intros Hn. unfold request_block_body. destruct (negb _); [done|]. pose proof (ok_still_wanted n Hn) as Hw.
  destruct (_ <=? _) eqn:Hle; [by apply ok_bodies|]. case_bool_decide; [by apply ok_bodies|].
  apply ok_send, ok_headers; [simpl; rewrite size_alter; apply Hn|]. apply ok_bodies; [|by apply ok_bodies]. by apply ok_more_bodies.
Qed.
Lemma ok_request_tx_pull n c h u : node_ok n → node_ok (request_tx_pull n c h u).
Proof.
  intros Hn. unfold request_tx_pull. destruct (Z.leb_spec MAX_IN_FLIGHT_TX_GETS (Z.of_nat (size (sh_in_flight_tx_gets n)))); [done|].
  case_bool_decide; [done|]. apply ok_send, ok_tx_gets; [|done]. pose proof (size_add h (sh_in_flight_tx_gets n)). lia.
Qed.
Lemma ok_clear_body n h : node_ok n → node_ok (clear_body_inflight n h).
Proof.
  intros Hn. apply ok_bodies; [|done]. pose proof (size_difference_le (sh_in_flight_bodies n) {[h]}). pose proof (no_bodies _ Hn). lia.
Qed.
Lemma ok_clear_tx n h : node_ok n → node_ok (clear_tx_inflight n h).
Proof.
  intros Hn. apply ok_tx_gets; [|done]. pose proof (size_difference_le (sh_in_flight_tx_gets n) {[h]}). pose proof (no_tx_gets _ Hn). lia.
Qed.
Hint Resolve ok_request_block_body ok_request_tx_pull ok_clear_body ok_clear_tx : node.

(** A fold of a preserving step preserves. *)
Lemma ok_foldl {A} (f : Shared → A → Shared) l n :
  (∀ n x, node_ok n → node_ok (f n x)) → node_ok n → node_ok (foldl f n l).
Proof. intros Hf. revert n. induction l as [|x l IH]; intros n Hn; [done|]. by apply IH, Hf. Qed.

(** ** Relayed transactions *)

Lemma relay_transparent_off t n tx : relay_transparent t n tx = Some (0, with_state n (sh_state n)).
Proof. reflexivity. Qed.
Lemma with_state_same n : with_state n (sh_state n) = n.
Proof. by destruct n. Qed.
Lemma relay_all_off t n ban txs : 0 <= ban <= umax 32 → relay_all t n ban txs = Some (ban, n).
Proof.
  intros Hb. revert n. induction txs as [|tx txs IH]; intros n; [done|]. cbn [relay_all].
  rewrite relay_transparent_off, with_state_same. cbn [mbind option_bind].
  replace (sat_add 32 ban 0) with ban by (unfold sat_add; lia). apply IH.
Qed.
Lemma ok_relay_utxo t n tx : node_ok n → node_ok (relay_utxo t n tx).2.
Proof. intros Hn. unfold relay_utxo. destruct (admit_utxo_to_mempool _ _ _) as [r s]. by apply ok_state. Qed.

(** ** Orphans *)

Lemma missing_parents_len n b : len (missing_parents n b) <= len (blk_parents b).
Proof. apply len_filter_le. Qed.

Lemma ok_buffer_orphan t n b : node_ok n → len (blk_parents b) <= MAX_BLOCK_PARENTS →
  node_ok (buffer_orphan t n (missing_parents n b) b (block_hash b)).
Proof.
  intros Hn Hb. unfold buffer_orphan. pose proof (prune_orphans_total (tk_instant t) (sh_orphans n)) as Hp.
  pose proof (prune_orphans_waiting (tk_instant t) _ (no_waiting _ Hn)) as Hw. pose proof (no_orphans _ Hn).
  destruct (Z.leb_spec MAX_ORPHANS (orphan_total (prune_orphans (tk_instant t) (sh_orphans n)))); apply ok_orphans; [lia|done|done| | |done].
  - pose proof (push_orphans_total (tk_instant t) b (block_hash b) (missing_parents n b) (prune_orphans (tk_instant t) (sh_orphans n))).
    pose proof (missing_parents_len n b). lia.
  - by apply push_orphans_waiting.
Qed.

Lemma ok_backfill n missing : node_ok n → node_ok (backfill n missing).
Proof.
  revert n. induction missing as [|p missing IH]; intros n Hn; [done|]. cbn [backfill]. destruct (negb _); [by apply IH|].
  pose proof (ok_still_wanted n Hn) as Hw. destruct (_ <=? _) eqn:Hle; [by apply ok_bodies|].
  case_bool_decide; apply IH; [by apply ok_bodies|]. apply ok_broadcast, ok_bodies; [|by apply ok_bodies]. by apply ok_more_bodies.
Qed.
Lemma ok_backfill_all n missing : node_ok n → node_ok (backfill_all n missing).
Proof. apply ok_foldl. intros m p Hm. destruct (should_fetch m p); auto with node. Qed.
Hint Resolve ok_buffer_orphan ok_backfill ok_backfill_all ok_relay_utxo : node.

(** Only blocks with few parents are refused for an unknown one. *)
Lemma unknown_parent_few s b e :
  precheck_block s b = Err e → str_contains "Unknown parent" e = true → len (blk_parents b) <= MAX_BLOCK_PARENTS.
Proof.
  unfold precheck_block. intros He Hs. destruct (Z.ltb_spec MAX_BLOCK_PARENTS (len (blk_parents b))) as [Hgt|]; [|done].
  repeat match type of He with (if ?c then _ else _) = _ => destruct c; [injection He as <-; discriminate Hs|] end.
  injection He as <-. discriminate Hs.
Qed.
Lemma precheck_few s b : precheck_block s b = Ok () → len (blk_parents b) <= MAX_BLOCK_PARENTS.
Proof.
  unfold precheck_block. intros He. destruct (Z.ltb_spec MAX_BLOCK_PARENTS (len (blk_parents b))) as [Hgt|]; [|done].
  repeat match type of He with (if ?c then _ else _) = _ => destruct c; [discriminate He|] end. discriminate He.
Qed.

(** ** Ingesting blocks *)

Lemma ok_ingest_one t n budget pen b direct : node_ok n → node_ok (ingest_one t n budget pen b direct).1.1.1.
Proof.
  intros Hn. unfold ingest_one. destruct (have n (block_hash b)); [done|].
  destruct (precheck_block (sh_state n) b) as [[]|e] eqn:Hp.
  - set (bu := match budget with Some _ => _ | None => _ end). destruct bu as [within budget']. destruct (negb within); [done|].
    destruct (add_block _ _ b) as [s|e].
    + cbn [fst]. apply ok_orphans.
      * pose proof (no_orphans _ Hn). simpl. unfold orphan_total in *. rewrite total_delete.
        pose proof (contrib_le_total len (sh_orphans n) (block_hash b)) as Hc.
        assert (0 <= contrib len (sh_orphans n) (block_hash b)) by (unfold contrib; destruct (sh_orphans n !! _); simpl; [apply len_nonneg|lia]). lia.
      * simpl. apply map_Forall_delete, Hn.
      * unfold broadcast_compact_block. apply ok_broadcast, ok_broadcast, ok_headers; [|by apply ok_clear_body, ok_state].
        simpl. pose proof (no_headers _ Hn). pose proof (map_size_delete (block_hash b) (sh_pending_headers n)) as Hs. rewrite Hs.
        destruct (sh_pending_headers n !! block_hash b); cbn [id] in *; lia.
    + destruct (str_contains _ e); [|done]. apply ok_backfill_all, ok_buffer_orphan; [done|]. by apply (precheck_few (sh_state n)).
  - destruct (str_contains "Unknown parent" e) eqn:He; [|done]. apply ok_backfill, ok_buffer_orphan; [done|]. by eapply unknown_parent_few.
Qed.
Lemma ok_ingest_loop fuel t n budget pen queue pen' n' budget' :
  node_ok n → ingest_loop fuel t n budget pen queue = Some (pen', n', budget') → node_ok n'.
Proof.
  revert n budget pen queue. induction fuel as [|fuel IH]; intros n budget pen [|[b d] queue] Hn; cbn [ingest_loop]; [congruence|done|congruence|].
  pose proof (ok_ingest_one t n budget pen b d Hn) as Ho. destruct (ingest_one t n budget pen b d) as [[[n1 bu1] pen1] un].
  apply IH. exact Ho.
Qed.

(** ** What happens to the chain *)

(** The ways a handler changes the chain state.  Pools are node policy; a pruning proof
    and its ledger replace the base. *)
Inductive chain_step (s : ChainState) : ChainState → Prop :=
| step_pools p : chain_step s (set_pools s p)
| step_block now b s' : add_block s now b = Ok s' → chain_step s s'.
Inductive import_step (s : ChainState) : ChainState → Prop :=
| step_import headers pp s' : import_verified_pruning_headers s headers = Ok (pp, s') → import_step s s'
| step_adopt msg s' : adopt_pruning_point_ledger s msg = Ok s' → import_step s s'.
Definition evolves : ChainState → ChainState → Prop := rtc chain_step.

Lemma set_pools_same s : set_pools s (cs_pools s) = s.
Proof. by destruct s. Qed.

Lemma admit_utxo_pools s now tx : ∃ p, (admit_utxo_to_mempool s now tx).2 = set_pools s p.
Proof.
  unfold admit_utxo_to_mempool. destruct (check_utxo_admission s tx) as [[c r]|e]; [|exists (cs_pools s); by rewrite set_pools_same].
  destruct (admit_pools _ _ _ _ _ _) as [r' p]. by exists p.
Qed.

(** What a handler that touches neither the chain nor the orphans nor the pruning
    point leaves alone. *)
Record frame (n n' : Shared) : Prop := {
  fr_state : sh_state n' = sh_state n;
  fr_orphans : sh_orphans n' = sh_orphans n;
  fr_work : sh_best_pruning_work n' = sh_best_pruning_work n;
  fr_verified : sh_verified_pruning_point n' = sh_verified_pruning_point n;
}.
#[global] Instance frame_preorder : PreOrder frame.
Proof. split; [by split|]. intros a b c [] []. split; congruence. Qed.

Lemma frame_remember_addr n a : frame n (remember_addr n a).
Proof. unfold remember_addr. repeat case_match; by split. Qed.
Lemma frame_dial t n a : frame n (dial t n a).
Proof. unfold dial. repeat case_match; by split. Qed.
Lemma frame_request_block_body n c h : frame n (request_block_body n c h).
Proof. unfold request_block_body. repeat case_match; by split. Qed.
Lemma frame_request_tx_pull n c h u : frame n (request_tx_pull n c h u).
Proof. unfold request_tx_pull. repeat case_match; by split. Qed.
(** A fold of steps that leave these alone does. *)
Lemma frame_foldl {A} (f : Shared → A → Shared) l n : (∀ n x, frame n (f n x)) → frame n (foldl f n l).
Proof. intros Hf. revert n. induction l as [|x l IH]; intros n; [done|]. cbn [foldl]. etrans; [apply Hf|apply IH]. Qed.
Lemma frame_backfill n m : frame n (backfill n m).
Proof.
  revert n. induction m as [|p m IH]; intros n; [done|]. cbn [backfill].
  destruct (negb _); [apply IH|]. destruct (_ <=? _); [by split|]. case_bool_decide; (etrans; [|apply IH]); by split.
Qed.
Lemma frame_backfill_all n m : frame n (backfill_all n m).
Proof. apply frame_foldl. intros k p. destruct (should_fetch k p); by split. Qed.
Lemma buffer_orphan_keeps t n m b h :
  sh_state (buffer_orphan t n m b h) = sh_state n ∧
  sh_best_pruning_work (buffer_orphan t n m b h) = sh_best_pruning_work n ∧
  sh_verified_pruning_point (buffer_orphan t n m b h) = sh_verified_pruning_point n.
Proof. unfold buffer_orphan. by case_match. Qed.

Lemma ingest_one_state t n budget pen b direct :
  let r := ingest_one t n budget pen b direct in
  (sh_state r.1.1.1 = sh_state n ∧ r.2 = []) ∨
  (add_block (sh_state n) (tk_ms t) b = Ok (sh_state r.1.1.1) ∧ block_hash b ∉ dom (cs_dag (sh_state n)) ∧
   sh_orphans r.1.1.1 = delete (block_hash b) (sh_orphans n) ∧
   r.2 = ob_block <$> List.filter (fresh_orphan (tk_instant t)) (default [] (sh_orphans n !! block_hash b))).
Proof.
  cbv zeta. unfold ingest_one. destruct (have n (block_hash b)) eqn:Hh; [by left|].
  destruct (precheck_block (sh_state n) b) as [[]|e].
  - set (bu := match budget with Some _ => _ | None => _ end). destruct bu as [within budget']. destruct (negb within); [by left|].
    destruct (add_block _ _ b) as [s|e].
    + right. cbn [fst snd]. split; [done|]. split; [by apply bool_decide_eq_false_1 in Hh|done].
    + left. destruct (str_contains _ e); [|done]. cbn [fst snd]. by rewrite (fr_state _ _ (frame_backfill_all _ _)), (proj1 (buffer_orphan_keeps _ _ _ _ _)).
  - left. destruct (str_contains _ e); [|done]. cbn [fst snd]. by rewrite (fr_state _ _ (frame_backfill _ _)), (proj1 (buffer_orphan_keeps _ _ _ _ _)).
Qed.

Lemma ingest_one_pruning t n budget pen b direct :
  let n' := (ingest_one t n budget pen b direct).1.1.1 in
  sh_best_pruning_work n' = sh_best_pruning_work n ∧ sh_verified_pruning_point n' = sh_verified_pruning_point n.
Proof.
  cbv zeta. unfold ingest_one. destruct (have n (block_hash b)); [done|]. destruct (precheck_block (sh_state n) b) as [[]|e].
  - set (bu := match budget with Some _ => _ | None => _ end). destruct bu as [within budget']. destruct (negb within); [done|].
    destruct (add_block _ _ b) as [s|e]; [done|]. destruct (str_contains _ e); [|done]. cbn [fst].
    by destruct (frame_backfill_all (buffer_orphan t n (missing_parents n b) b (block_hash b)) (missing_parents n b)) as [_ _ -> ->],
      (buffer_orphan_keeps t n (missing_parents n b) b (block_hash b)) as (_ & -> & ->).
  - destruct (str_contains _ e); [|done]. cbn [fst].
    by destruct (frame_backfill (buffer_orphan t n (missing_parents n b) b (block_hash b)) (missing_parents n b)) as [_ _ -> ->],
      (buffer_orphan_keeps t n (missing_parents n b) b (block_hash b)) as (_ & -> & ->).
Qed.

Lemma ingest_loop_evolves fuel t n budget pen queue pen' n' budget' :
  ingest_loop fuel t n budget pen queue = Some (pen', n', budget') →
  evolves (sh_state n) (sh_state n') ∧ sh_best_pruning_work n' = sh_best_pruning_work n ∧
  sh_verified_pruning_point n' = sh_verified_pruning_point n.
Proof.
  revert n budget pen queue. induction fuel as [|fuel IH]; intros n budget pen [|[b d] queue]; cbn [ingest_loop];
    [intros [= _ <- _]; split; [apply rtc_refl|done]|done|intros [= _ <- _]; split; [apply rtc_refl|done]|].
  pose proof (ingest_one_state t n budget pen b d) as Ho. pose proof (ingest_one_pruning t n budget pen b d) as [Hw Hv].
  destruct (ingest_one t n budget pen b d) as [[[n1 bu1] pen1] un].
  cbn [fst snd] in *. intros Hl. apply IH in Hl as (Hl & Hw' & Hv'). split; [|split; congruence].
  destruct Ho as [[Hs _]|[Hs _]]; [by rewrite <- Hs|]. eapply rtc_l; [|exact Hl]. by eapply step_block.
Qed.

(** ** Ingesting returns *)

Lemma update_ledger_frame s : cs_dag (update_ledger s) = cs_dag s ∧ cs_archival (update_ledger s) = cs_archival s.
Proof.
  unfold update_ledger, recompute_virtual_state, advance_finalized_base, capture_base, order_main_chain.
  repeat (case_match; simpl in *; try done).
Qed.
Lemma connect_dag s b d :
  cs_archival s = true →
  cs_dag (connect_block s b d) = <[block_hash b := b]> (cs_dag s) ∧ cs_archival (connect_block s b d) = true.
Proof.
  intros Har. unfold connect_block. set (s1 := update_ledger (insert_block s b d)).
  assert (cs_dag s1 = <[block_hash b := b]> (cs_dag s) ∧ cs_archival s1 = true) as [Hd Ha].
  { unfold s1. by destruct (update_ledger_frame (insert_block s b d)) as [-> ->]. }
  clearbody s1. destruct (bookkeeping_eq s1 b) as (p & dd & ->).
  unfold prune_bodies. rewrite (Ha : cs_archival (set_difficulty (set_pools s1 p) dd) = true).
  unfold prune_history. by rewrite (Ha : cs_archival (set_difficulty (set_pools s1 p) dd) = true).
Qed.
Lemma add_block_dag s now b s' :
  cs_archival s = true → add_block s now b = Ok s' →
  cs_dag s' = <[block_hash b := b]> (cs_dag s) ∧ cs_archival s' = true.
Proof.
  intros Har. unfold add_block. destruct (check_block s now b) as [d|]; [|done]. cbn [mbind result_bind].
  intros [= <-]. by apply connect_dag.
Qed.

(** ** Pools are no consensus data *)

Lemma check_block_pools s p now b : check_block (set_pools s p) now b = check_block s now b.
Proof. reflexivity. Qed.
Lemma order_pools s p : order_main_chain (set_pools s p) = set_pools (order_main_chain s) p.
Proof. unfold order_main_chain. cbn [set_pools cs_ghostdag cs_tips]. by destruct (selected_tip _ _). Qed.
Lemma capture_pools s p : capture_base (set_pools s p) = set_pools (capture_base s) p.
Proof. unfold capture_base. cbn [set_pools cs_base_captured]. by destruct (cs_base_captured s). Qed.
Lemma advance_pools s p : advance_finalized_base (set_pools s p) = set_pools (advance_finalized_base s) p.
Proof.
  unfold advance_finalized_base. change (finality_point (set_pools s p)) with (finality_point s).
  destruct (finality_point s) as [fp|]; [|done]. cbn [set_pools cs_base_frontier cs_dag cs_ghostdag cs_tips].
  destruct (bool_decide _); [done|]. cbv zeta. destruct (list_find _ _) as [[i h]|]; [|done]. by destruct (_ <? _)%nat.
Qed.
Lemma update_ledger_pools s p : update_ledger (set_pools s p) = set_pools (update_ledger s) p.
Proof. unfold update_ledger. rewrite order_pools, capture_pools, advance_pools. reflexivity. Qed.
Lemma bookkeeping_pools s b :
  ∃ p, cache_difficulty (drop_included_from_mempools (record_selected_chain_fee_samples s) b) =
    set_pools (cache_difficulty s) p.
Proof.
  unfold cache_difficulty, drop_included_from_mempools, record_selected_chain_fee_samples.
  destruct (selected_tip (cs_ghostdag s) (cs_tips s)); by eexists.
Qed.
Lemma connect_pools s p b d :
  cs_archival s = true → ∃ p', connect_block (set_pools s p) b d = set_pools (connect_block s b d) p'.
Proof.
  intros Har. unfold connect_block. change (insert_block (set_pools s p) b d) with (set_pools (insert_block s b d) p).
  rewrite update_ledger_pools. set (s1 := update_ledger (insert_block s b d)).
  assert (cs_archival s1 = true) as Ha by (unfold s1; by rewrite (proj2 (update_ledger_frame _))).
  clearbody s1. destruct (bookkeeping_pools s1 b) as [p1 ->]. destruct (bookkeeping_pools (set_pools s1 p) b) as [p2 ->].
  unfold prune_bodies. assert (∀ q, cs_archival (set_pools (cache_difficulty s1) q) = true) as Ha1 by done.
  change (cache_difficulty (set_pools s1 p)) with (set_pools (cache_difficulty s1) p).
  change (set_pools (set_pools (cache_difficulty s1) p) p2) with (set_pools (cache_difficulty s1) p2). rewrite !Ha1.
  unfold prune_history. rewrite !Ha1. by exists p2.
Qed.
(** The blocks at hand are among [U]. *)
Definition at_hand (U : gset Hash) (orph : Orphans) : Prop := ∀ k v o, orph !! k = Some v → o ∈ v → orphan_hash o ∈ U.

Lemma push_orphan_cases now b h (orph : Orphans) p k v o :
  push_orphan now b h orph p !! k = Some v → o ∈ v →
  (∃ v0, orph !! k = Some v0 ∧ o ∈ v0) ∨ (k = p ∧ o = {| ob_block := b; ob_inserted_at := now |}).
Proof.
  unfold push_orphan. assert (∀ x, x ∈ default [] (orph !! p) → ∃ v0, orph !! p = Some v0 ∧ x ∈ v0) as Hd.
  { intros x Hx. destruct (orph !! p) as [v0|]; [|by apply not_elem_of_nil in Hx]. by exists v0. }
  destruct (existsb _ _); intros [[<- <-]|[_ Hk]]%lookup_insert_Some Ho; [left; by apply Hd|left; by exists v| |left; by exists v].
  apply elem_of_app in Ho as [Ho|Ho%list_elem_of_singleton]; [left; by apply Hd|by right].
Qed.
Lemma push_orphans_cases now b h missing (orph : Orphans) k v o :
  foldl (push_orphan now b h) orph missing !! k = Some v → o ∈ v →
  (∃ v0, orph !! k = Some v0 ∧ o ∈ v0) ∨ (k ∈ missing ∧ o = {| ob_block := b; ob_inserted_at := now |}).
Proof.
  revert orph. induction missing as [|p missing IH]; intros orph Hk Ho; [left; by exists v|]. cbn [foldl] in Hk.
  destruct (IH _ Hk Ho) as [(v0 & Hk0 & Ho0)|[Hin Hob]]; [|right; set_solver].
  destruct (push_orphan_cases _ _ _ _ _ _ _ _ Hk0 Ho0) as [|[-> ->]]; [by left|]. right. set_solver.
Qed.
(** What the pool holds after buffering: entries it held, or the new block. *)
Lemma buffer_orphan_cases t n missing b h k v o :
  sh_orphans (buffer_orphan t n missing b h) !! k = Some v → o ∈ v →
  (∃ v0, sh_orphans n !! k = Some v0 ∧ o ∈ v0) ∨ (k ∈ missing ∧ o = {| ob_block := b; ob_inserted_at := tk_instant t |}).
Proof.
  unfold buffer_orphan. assert (∀ v1, prune_orphans (tk_instant t) (sh_orphans n) !! k = Some v1 → o ∈ v1 →
    ∃ v0, sh_orphans n !! k = Some v0 ∧ o ∈ v0) as Hp.
  { intros v1 (v0 & Hv0 & ->)%lookup_prune Ho. exists v0. split; [done|]. by apply elem_of_filter_bool in Ho as [_ ?]. }
  destruct (_ <=? _); cbn [sh_orphans with_orphans]; intros Hk Ho; [left; by eapply Hp|].
  destruct (push_orphans_cases _ _ _ _ _ _ _ _ Hk Ho) as [(v1 & Hk1 & Ho1)|]; [left; by eapply Hp|by right].
Qed.

(** The pool after one block: a subset, or a subset with the block filed under missing
    parents. *)
Lemma ingest_one_orphans t n budget pen b direct k v o :
  sh_orphans (ingest_one t n budget pen b direct).1.1.1 !! k = Some v → o ∈ v →
  (∃ v0, sh_orphans n !! k = Some v0 ∧ o ∈ v0) ∨
  (k ∈ missing_parents n b ∧ sh_state (ingest_one t n budget pen b direct).1.1.1 = sh_state n ∧ ob_block o = b).
Proof.
  unfold ingest_one. destruct (have n (block_hash b)); [intros ? ?; left; by exists v|].
  destruct (precheck_block (sh_state n) b) as [[]|e].
  - set (bu := match budget with Some _ => _ | None => _ end). destruct bu as [within budget'].
    destruct (negb within); [intros ? ?; left; by exists v|]. destruct (add_block _ _ b) as [s|e].
    + cbn [fst sh_orphans with_orphans]. intros [_ Hk]%lookup_delete_Some Ho. left. by exists v.
    + destruct (str_contains _ e); [|intros ? ?; left; by exists v]. cbn [fst]. rewrite (fr_orphans _ _ (frame_backfill_all _ _)), (fr_state _ _ (frame_backfill_all _ _)).
      rewrite (proj1 (buffer_orphan_keeps _ _ _ _ _)). intros Hk Ho. destruct (buffer_orphan_cases _ _ _ _ _ _ _ _ Hk Ho) as [|[Hm ->]]; [by left|by right].
  - destruct (str_contains _ e); [|intros ? ?; left; by exists v]. cbn [fst]. rewrite (fr_orphans _ _ (frame_backfill _ _)), (fr_state _ _ (frame_backfill _ _)).
    rewrite (proj1 (buffer_orphan_keeps _ _ _ _ _)). intros Hk Ho. destruct (buffer_orphan_cases _ _ _ _ _ _ _ _ Hk Ho) as [|[Hm ->]]; [by left|by right].
Qed.

Lemma unlocked_few U t n h :
  waiting_ok (sh_orphans n) → at_hand U (sh_orphans n) →
  (length (List.filter (fresh_orphan (tk_instant t)) (default [] (sh_orphans n !! h))) <= size U)%nat.
Proof.
  intros Hw Hu. destruct (sh_orphans n !! h) as [v|] eqn:Hv; [|simpl; lia]. cbn [default from_option id].
  set (l := List.filter _ v). assert (NoDup (orphan_hash <$> l)) as Hd.
  { eapply sublist_NoDup; [exact (Hw h v Hv)|]. apply fmap_sublist, filter_bool_sublist. }
  rewrite <- (length_fmap orphan_hash), <- (size_list_to_set (C := gset Hash)) by done. apply subseteq_size.
  intros x Hx. apply elem_of_list_to_set, list_elem_of_fmap in Hx as (o & -> & Ho). unfold l in Ho.
  apply elem_of_filter_bool in Ho as [_ Ho]. by eapply Hu.
Qed.

Lemma ingest_loop_total U fuel t n budget pen queue :
  cs_archival (sh_state n) = true → node_ok n → at_hand U (sh_orphans n) →
  Forall (λ q, block_hash q.1 ∈ U) queue →
  (size (U ∖ dom (cs_dag (sh_state n))) * size U + length queue <= fuel)%nat →
  is_Some (ingest_loop fuel t n budget pen queue).
Proof.
  revert n budget pen queue. induction fuel as [|fuel IH]; intros n budget pen [|[b d] queue] Har Hn Hu Hq Hf;
    cbn [ingest_loop]; [by eexists|simpl in Hf; lia|by eexists|].
  apply Forall_cons in Hq as [Hb Hq]. cbn [fst] in Hb.
  pose proof (ingest_one_state t n budget pen b d) as Ho. pose proof (ok_ingest_one t n budget pen b d Hn) as Hok.
  pose proof (ingest_one_orphans t n budget pen b d) as Hor.
  destruct (ingest_one t n budget pen b d) as [[[n1 bu1] pen1] un]. cbn [fst snd] in *.
  assert (at_hand U (sh_orphans n1)) as Hu1.
  { intros k v o Hk Hin. destruct (Hor k v o Hk Hin) as [(v0 & Hv0 & Ho0)|(_ & _ & Hob)]; [by eapply Hu|].
    unfold orphan_hash. by rewrite Hob. }
  destruct Ho as [[Hs Hun]|(Hadd & Hnew & _ & Hun)].
  - subst un. apply IH; rewrite ?Hs; try done. simpl in *. lia.
  - destruct (add_block_dag _ _ _ _ Har Hadd) as [Hd Ha]. pose proof (unlocked_few U t n (block_hash b) (no_waiting _ Hn) Hu) as Hfew.
    apply IH; try done.
    + rewrite Forall_app. split; [|done]. rewrite Forall_forall. intros q Hq'. apply list_elem_of_fmap in Hq' as (c & -> & Hc).
      cbn [fst]. rewrite elem_of_rev in Hc. subst un. apply list_elem_of_fmap in Hc as (o & -> & Hin).
      apply elem_of_filter_bool in Hin as [_ Hin]. destruct (sh_orphans n !! block_hash b) as [v|] eqn:Hv;
        [|by apply not_elem_of_nil in Hin]. exact (Hu _ _ _ Hv Hin).
    + rewrite Hd, dom_insert_L, length_app, length_fmap, length_rev. subst un. rewrite length_fmap. simpl in Hf.
      set (D := dom (cs_dag (sh_state n))) in *.
      assert (size (U ∖ ({[block_hash b]} ∪ D)) < size (U ∖ D))%nat as Hlt.
      { apply subset_size. split; [set_solver|]. intros Hsub. specialize (Hsub (block_hash b)). set_solver. }
      nia.
Qed.

Lemma size_list_to_set_le (l : list Hash) : (size (list_to_set l : gset Hash) <= length l)%nat.
Proof. induction l as [|x l IH]; [done|]. cbn [list_to_set foldr length]. pose proof (size_add x (list_to_set l : gset Hash)). lia. Qed.
(** The hashes of the pool. *)
Definition pool_hashes (orph : Orphans) : gset Hash := list_to_set (orphan_hash <$> concat (map_to_list orph).*2).
Lemma pool_hashes_hand orph : at_hand (pool_hashes orph) orph.
Proof.
  intros k v o Hv Ho. apply elem_of_list_to_set, list_elem_of_fmap. exists o. split; [done|]. apply list_elem_of_In, in_concat.
  exists v. split; [|by apply list_elem_of_In]. apply list_elem_of_In, list_elem_of_fmap. exists (k, v). split; [done|]. by apply elem_of_map_to_list.
Qed.
Lemma pool_hashes_size orph : Z.of_nat (size (pool_hashes orph)) <= orphan_total orph.
Proof.
  unfold pool_hashes. etrans; [apply inj_le, size_list_to_set_le|]. rewrite length_fmap. unfold orphan_total.
  induction orph as [|k v m Hk IH] using map_ind; [by rewrite map_to_list_empty|].
  rewrite total_insert_None by done. rewrite map_to_list_insert by done. rewrite fmap_cons, concat_cons, length_app. cbn [snd]. unfold len at 1. lia.
Qed.

Lemma ingest_total t n budget b : cs_archival (sh_state n) = true → node_ok n → is_Some (ingest_block t n budget b).
Proof.
  intros Har Hn. unfold ingest_block. set (U := {[block_hash b]} ∪ pool_hashes (sh_orphans n)).
  apply (ingest_loop_total U); [done|done| | |].
  - intros k v o Hv Ho. unfold U. apply elem_of_union_r. by eapply pool_hashes_hand.
  - apply Forall_singleton. cbn [fst]. unfold U. by apply elem_of_union_l, elem_of_singleton.
  - pose proof (pool_hashes_size (sh_orphans n)) as Hs. pose proof (size_add (block_hash b) (pool_hashes (sh_orphans n))) as Ha.
    fold U in Ha. pose proof (size_difference_le U (dom (cs_dag (sh_state n)))) as Hd. unfold ingest_fuel.
    set (w := S (Z.to_nat (orphan_total (sh_orphans n)))). assert (size U <= w)%nat by lia. simpl length.
    assert (size (U ∖ dom (cs_dag (sh_state n))) * size U <= w * w)%nat by (apply Nat.mul_le_mono; lia). lia.
Qed.
End tables.

#[export] Hint Resolve ok_outbox ok_dials ok_state ok_connected ok_expecting_proof ok_expecting_ledger ok_verified ok_work
  ok_listen ok_ip_bans ok_send ok_broadcast ok_gossip ok_remember_addr ok_dial ok_request_block_body ok_request_tx_pull
  ok_clear_body ok_clear_tx ok_buffer_orphan ok_backfill ok_backfill_all ok_relay_utxo : node.
