(* ===== verification/NodeInv.v ===== *)
(** * The peer-to-peer node: theorems

    Every table of a node stays within its limit and every handler returns; the chain
    of a node that takes no pruning proof is one its own rules admit; orphans wait for
    parents the node lacks; penalties fall on the sender of an invalid block only;
    banned peers stay out; and the ways in which honest peers are shut out. *)

From S2P Require Import Prelude Genesis Crypto Address Predicate Utxo UtxoTx Registry Custody Block Ledger.
From S2P Require Import Dag Ghostdag Reachability Reindex ReachBuild Determinism FeeHistory Stark Superproof State Chain ChainInv.
From S2P Require Import Admission Sync Mempool FeeEstimate AccountPool Net AddrMan P2p Dispatch P2pInv.

Section handlers.
Context `{!Crypto, !DualCrypto, !BodyCodec, !NodeEnv, !PoolEnv, !NetEnv, !NetEnvOk}.

(** ** Every handler keeps the tables *)

Lemma ok_on_hello n conn listen version magic chain_id blue_score listen_addr :
  node_ok n → node_ok (on_hello n conn listen version magic chain_id blue_score listen_addr).1.2.
Proof.
  intros Hn. unfold on_hello. destruct (_ || _); [done|].
  assert (∀ m l, node_ok m → node_ok ((0, send (if our_blue_score m <? blue_score then
    send (if bool_decide (sh_verified_pruning_point m = None) then
      send (send (with_expecting_pruning_proof m true) conn MGetPruningProof) conn MGetMultiLevelPruningProof else m) conn MGetTips
    else m) conn MGetAddr, l) : Z * Shared * option bytes).1.2) as Hs.
  { intros m l Hm. cbn [fst snd]. apply ok_send. destruct (_ <? _); [|done]. apply ok_send. destruct (bool_decide _); auto with node. }
  destruct listen_addr as [a|]; cbn beta iota; apply Hs; auto with node.
Qed.

Lemma ok_on_addr t n addrs : node_ok n → node_ok (on_addr t n addrs).
Proof. apply ok_foldl. auto with node. Qed.

(** Dropping listed keys. *)
Lemma deleted_lookup {V} (l : list Hash) (m : gmap Hash V) k :
  foldl (λ m k, delete k m) m l !! k = if bool_decide (k ∈ l) then None else m !! k.
Proof.
  revert m. induction l as [|x l IH]; intros m; [done|]. cbn [foldl]. rewrite IH.
  destruct (decide (k = x)) as [->|Hne].
  - rewrite lookup_delete_eq. rewrite (bool_decide_eq_true_2 (x ∈ x :: l)) by set_solver. by case_bool_decide.
  - rewrite lookup_delete_ne by done. do 2 case_bool_decide; set_solver.
Qed.
Lemma deleted_size {V} (l : list Hash) (m : gmap Hash V) :
  NoDup l → (∀ k, k ∈ l → is_Some (m !! k)) → size (foldl (λ m k, delete k m) m l) = (size m - length l)%nat.
Proof.
  revert m. induction l as [|x l IH]; intros m Hd Hin; [simpl; lia|]. cbn [foldl length]. apply NoDup_cons in Hd as [Hx Hd].
  rewrite IH; [|done|].
  - pose proof (map_size_delete x m) as Hs. destruct (Hin x ltac:(set_solver)) as [y Hy]. rewrite Hy in Hs. cbn [id] in Hs.
    assert (size m ≠ 0)%nat by (intros H0'%map_size_empty_iff; subst m; by rewrite lookup_empty in Hy). lia.
  - intros k Hk. rewrite lookup_delete_ne by (intros <-; done). apply Hin. set_solver.
Qed.
(** Dropping the first keys of an iteration. *)
Lemma dropped_size {V} (keys : list Hash) (m : gmap Hash V) i :
  keys ≡ₚ (map_to_list m).*1 → size (foldl (λ m k, delete k m) m (take i keys)) = (size m - i)%nat.
Proof.
  intros Hp. assert (NoDup keys) as Hd by (rewrite Hp; apply NoDup_fst_map_to_list).
  assert (length keys = size m) as Hl by (rewrite Hp, length_fmap; apply length_map_to_list).
  rewrite deleted_size.
  - rewrite length_take. lia.
  - eapply sublist_NoDup; [exact Hd|apply sublist_take].
  - intros k (j & Hj & _)%elem_of_take. apply list_elem_of_lookup_2 in Hj. rewrite Hp in Hj.
    apply list_elem_of_fmap in Hj as ([k' v] & -> & Hv). apply elem_of_map_to_list in Hv. by exists v.
Qed.

Lemma ok_remember_compact n h p : node_ok n → node_ok (remember_compact n h p).
Proof.
  intros Hn. unfold remember_compact. set (pending := <[h := p]> (sh_pending_compact n)).
  assert (Z.of_nat (size pending) <= 129) as Hs.
  { unfold pending. rewrite map_size_insert. pose proof (no_compact _ Hn). destruct (_ !! h); cbn [id]; lia. }
  apply ok_compact; [|done]. destruct (Z.ltb_spec 128 (Z.of_nat (size pending))) as [Hgt|]; [|done].
  rewrite dropped_size by apply compact_order_ok. assert (size pending = 129)%nat as -> by lia. done.
Qed.

Lemma ok_on_compact t n conn h ids pre n' : node_ok n → on_compact_block t n conn h ids pre = Some n' → node_ok n'.
Proof.
  intros Hn. unfold on_compact_block. rewrite relay_all_off by done. cbn [mbind option_bind].
  destruct (reconstruct_from_mempool _ _ _) as [filled missing]. intros Heq. apply (inj Some) in Heq. subst n'.
  set (m := remember_compact n h _). assert (node_ok m) as Hm by by apply ok_remember_compact. clearbody m.
  case_bool_decide; destruct (should_fetch _ h); auto with node.
Qed.
Lemma ok_on_block_txn t n h txs : node_ok n → ∃ n', on_block_txn t n h txs = Some (0, n') ∧ node_ok n' ∧ frame n n'.
Proof.
  intros Hn. unfold on_block_txn. rewrite relay_all_off by done. cbn [mbind option_bind]. eexists. split; [done|]. split; [|by split].
  apply ok_compact; [|done]. rewrite size_alter. apply Hn.
Qed.

Lemma check_headers_ok conn headers n ban acc n' ban' acc' :
  node_ok n → foldl (check_header conn) (n, ban, acc) headers = (n', ban', acc') →
  node_ok n' ∧ frame n n' ∧ len acc' <= len acc + len headers.
Proof.
  revert n ban acc. induction headers as [|h headers IH]; intros n ban acc Hn.
  - intros [= <- <- <-]. unfold len. simpl. split; [done|]. split; [done|lia].
  - cbn [foldl]. intros Hf.
    assert (∃ n1 ban1 acc1, check_header conn (n, ban, acc) h = (n1, ban1, acc1) ∧ node_ok n1 ∧ frame n n1 ∧
      len acc1 <= len acc + 1) as (n1 & ban1 & acc1 & Hc & Hn1 & Hs1 & Hl1).
    { unfold check_header. destruct (bool_decide _); [eexists _, _, _; split; [done|]; split; [done|]; split; [done|lia]|].
      destruct (precheck_header _ _) as [[]|e]; [|destruct (str_contains _ e); [|destruct (junk_header e)]];
        (eexists _, _, _; split; [done|]).
      - split; [done|]. split; [done|]. unfold len. rewrite length_app. simpl. lia.
      - split; [apply ok_foldl; auto with node|]. split; [apply frame_foldl; intros; apply frame_request_block_body|lia].
      - split; [done|]. split; [done|lia].
      - split; [done|]. split; [done|lia]. }
    rewrite Hc in Hf. destruct (IH _ _ _ Hn1 Hf) as (Hn' & Hs' & Hl'). split; [done|]. split; [by etrans|].
    unfold len in *. simpl length. lia.
Qed.

Lemma inserted_size (acc : list (Hash * PendingHeader)) (m : gmap Hash PendingHeader) :
  (size (foldl (λ m '(h, ph), match m !! h with Some _ => m | None => <[h := ph]> m end) m acc) <= size m + length acc)%nat.
Proof.
  revert m. induction acc as [|[h ph] acc IH]; intros m; [simpl; lia|]. cbn [foldl length]. etrans; [apply IH|].
  destruct (m !! h) eqn:Hh; [lia|]. rewrite map_size_insert, Hh. cbn [id]. lia.
Qed.
Lemma add_pending_size pending acc :
  Z.of_nat (size pending) <= MAX_PENDING_HEADERS → len acc <= MAX_HEADERS_PER_MSG →
  Z.of_nat (size (add_pending pending acc)) <= MAX_PENDING_HEADERS.
Proof.
  intros Hp Ha. unfold add_pending. set (count := Z.of_nat (size pending) + len acc).
  destruct (Z.ltb_spec MAX_PENDING_HEADERS count) as [Hgt|Hle].
  - etrans; [apply inj_le, inserted_size|]. rewrite dropped_size.
    + unfold count, MAX_PENDING_HEADERS, MAX_HEADERS_PER_MSG, len in *. lia.
    + rewrite merge_sort_Permutation. apply header_order_ok.
  - pose proof (inserted_size acc pending). unfold count, len in *. lia.
Qed.

Lemma ok_request_ranked n conn ranked : node_ok n → node_ok (request_ranked n conn ranked).
Proof.
  revert n. induction ranked as [|h ranked IH]; intros n Hn; [done|]. cbn [request_ranked]. destruct (_ <=? _); [done|]. auto with node.
Qed.
Lemma frame_request_ranked n conn ranked : frame n (request_ranked n conn ranked).
Proof.
  revert n. induction ranked as [|h ranked IH]; intros n; [done|]. cbn [request_ranked]. destruct (_ <=? _); [done|].
  etrans; [apply frame_request_block_body|apply IH].
Qed.

Lemma ok_on_headers n conn headers :
  node_ok n → node_ok (on_headers n conn headers).2 ∧ frame n (on_headers n conn headers).2.
Proof.
  intros Hn. unfold on_headers. destruct (Z.ltb_spec MAX_HEADERS_PER_MSG (len headers)) as [|Hle]; [done|].
  destruct (foldl _ _ headers) as [[n1 ban] acc] eqn:Hf. destruct (check_headers_ok _ _ _ _ _ _ _ _ Hn Hf) as (Hn1 & Hs1 & Hl).
  case_bool_decide; [done|]. cbn [snd]. split; [|etrans; [exact Hs1|]; etrans; [|apply frame_request_ranked]; by split].
  apply ok_request_ranked, ok_headers; [|done]. apply add_pending_size; [apply Hn1|]. unfold len in *. simpl in Hl. lia.
Qed.

Lemma ok_record_pruning_point n s work pp : node_ok n → node_ok (record_pruning_point n s work pp).
Proof. intros Hn. unfold record_pruning_point. destruct (_ <? _); auto with node. Qed.
Lemma state_record_pruning_point n s work pp : sh_state (record_pruning_point n s work pp) = s.
Proof. unfold record_pruning_point. by destruct (_ <? _). Qed.

(** ** What a message does *)

(** How far a message reaches: the tables only, the pools, the chain by admitting
    blocks, or the base of the chain. *)
Inductive reach := Quiet | Pooled | Blocks | Imports.
Definition reach_of (msg : Message) : reach :=
  match msg with
  | MBlock _ => Blocks
  | MUtxoTx _ => Pooled
  | MPruningProof _ | MMultiLevelPruningProof _ | MPruningPointLedger _ => Imports
  | _ => Quiet
  end.
(** The pruning point moves only to one backed by strictly more work. *)
Definition work_grows (n n' : Shared) : Prop :=
  (sh_verified_pruning_point n' = sh_verified_pruning_point n ∧ sh_best_pruning_work n' = sh_best_pruning_work n) ∨
  sh_best_pruning_work n < sh_best_pruning_work n'.
Definition changes (k : reach) (n n' : Shared) : Prop :=
  match k with
  | Quiet => frame n n'
  | Pooled => ∃ p, frame (with_state n (set_pools (sh_state n) p)) n'
  | Blocks => evolves (sh_state n) (sh_state n') ∧ sh_verified_pruning_point n' = sh_verified_pruning_point n ∧
      sh_best_pruning_work n' = sh_best_pruning_work n
  | Imports => frame n n' ∨
      (import_step (sh_state n) (sh_state n') ∧ sh_orphans n' = sh_orphans n ∧ work_grows n n')
  end.
Definition good_step (k : reach) (n n' : Shared) : Prop := node_ok n → node_ok n' ∧ changes k n n'.

Lemma quiet_step n n' : (node_ok n → node_ok n') → frame n n' → good_step Quiet n n'.
Proof. intros Hk Hf Hn. split; [by apply Hk|done]. Qed.
Lemma no_import n n' : (node_ok n → node_ok n') → frame n n' → good_step Imports n n'.
Proof. intros Hk Hf Hn. split; [by apply Hk|by left]. Qed.

Ltac same := first [apply quiet_step|apply no_import]; [cbn [fst snd]; solve [auto with node]|try by split].

Lemma record_pruning_grows n s work pp :
  sh_best_pruning_work n < work → sh_best_pruning_work n < sh_best_pruning_work (record_pruning_point n s work pp).
Proof. intros Hlt. unfold record_pruning_point. simpl. by rewrite (proj2 (Z.ltb_lt _ _) Hlt). Qed.

Lemma good_pruning_proof t n conn headers : good_step Imports n (on_pruning_proof t n conn headers).2.
Proof.
  unfold on_pruning_proof. destruct (negb _); [same|]. destruct (verify_pruning_proof lab_easy (tk_ms t) headers) as [sm|]; [|same].
  cbv zeta. destruct (is_err _); [same|]. destruct (Z.leb_spec (ps_cumulative_work sm) (sh_best_pruning_work n)) as [|Hw]; [same|].
  destruct (import_verified_pruning_headers _ _) as [[pp s]|] eqn:Hi; [|same]. cbn [snd]. intros Hn. split.
  - apply ok_send, ok_expecting_proof. by apply ok_record_pruning_point.
  - right. split_and!.
    + eapply step_import. rewrite Hi. do 2 f_equal. simpl. by destruct (_ <? _).
    + simpl. by destruct (_ <? _).
    + right. by apply record_pruning_grows.
Qed.
Lemma good_multilevel t n conn proof : good_step Imports n (on_multilevel_proof t n conn proof).2.
Proof.
  unfold on_multilevel_proof. destruct (negb _); [same|].
  unfold adopt_multilevel_pruning_proof_fresh. destruct (verify_multilevel_pruning_proof _ _ _) as [sm|]; [|same].
  cbn [mbind result_bind]. destruct (ok_or _ _); [|same]. cbn [mbind result_bind].
  destruct (check_ibd_proof_freshness _ _ _ _ _); [|same]. cbn [mbind result_bind]. unfold adopt_multilevel. cbv zeta.
  destruct (Z.leb_spec (ms_verified_work sm) (sh_best_pruning_work n)) as [|Hw]; [same|].
  destruct (import_verified_pruning_headers _ _) as [[pp s]|] eqn:Hi; [|same]. cbn [snd]. intros Hn.
  pose proof (record_pruning_grows n s _ (ms_pruning_point sm) Hw) as Hg. set (n1 := record_pruning_point _ _ _ _) in *.
  assert (node_ok n1) as Hn1 by by apply ok_record_pruning_point. assert (sh_orphans n1 = sh_orphans n) as Ho by (unfold n1, record_pruning_point; simpl; by destruct (_ <? _)).
  assert (sh_state n1 = s) as Hs by apply state_record_pruning_point. clearbody n1.
  split; [destruct (sh_verified_pruning_point _); auto with node|]. right. split_and!.
  - eapply step_import. rewrite Hi. do 2 f_equal. rewrite <- Hs. by destruct (sh_verified_pruning_point _).
  - rewrite <- Ho. by destruct (sh_verified_pruning_point _).
  - right. by destruct (sh_verified_pruning_point _).
Qed.
Lemma good_ledger n msg : good_step Imports n (on_pruning_ledger n msg).2.
Proof.
  unfold on_pruning_ledger. destruct (negb _); [same|].
  destruct (adopt_pruning_point_ledger _ _) as [s|] eqn:Ha; [|same]. cbn [snd]. intros Hn. split; [auto with node|].
  right. split_and!; [by eapply step_adopt|done|by left].
Qed.
Lemma good_relay_utxo t n tx : good_step Pooled n (relay_utxo t n tx).2.
Proof.
  intros Hn. split; [by apply ok_relay_utxo|]. unfold relay_utxo. pose proof (admit_utxo_pools (sh_state n) (tk_ms t) tx) as [p Hp].
  destruct (admit_utxo_to_mempool _ _ _) as [r s]. cbn [snd] in *. subst s. by exists p.
Qed.
Lemma frame_on_hello n conn listen version magic chain_id blue_score listen_addr :
  frame n (on_hello n conn listen version magic chain_id blue_score listen_addr).1.2.
Proof.
  unfold on_hello. destruct (_ || _); [done|].
  assert (∀ m l, frame m ((0, send (if our_blue_score m <? blue_score then
    send (if bool_decide (sh_verified_pruning_point m = None) then
      send (send (with_expecting_pruning_proof m true) conn MGetPruningProof) conn MGetMultiLevelPruningProof else m) conn MGetTips
    else m) conn MGetAddr, l) : Z * Shared * option bytes).1.2) as Hs.
  { intros m l. cbn [fst snd]. destruct (_ <? _); [destruct (bool_decide _)|]; by split. }
  destruct listen_addr as [a|]; cbn beta iota; [|apply Hs]. etrans; [apply (frame_remember_addr n a)|]. etrans; [|apply Hs]. by split.
Qed.

Lemma dispatch_good t n conn listen budget msg pen n' listen' budget' :
  dispatch t n conn listen budget msg = Some (pen, n', listen', budget') → good_step (reach_of msg) n n'.
Proof.
  destruct msg; cbn [dispatch reach_of].
  - pose proof (ok_on_hello n conn listen version magic chain_id blue_score listen_addr) as Hok.
    pose proof (frame_on_hello n conn listen version magic chain_id blue_score listen_addr) as Hf.
    destruct (on_hello _ _ _ _ _ _ _ _) as [[p m] l]. intros [= <- <- <- <-]. by apply quiet_step.
  - intros [= _ <- _ _]. unfold on_get_addr. case_bool_decide; same.
  - intros [= _ <- _ _]. apply quiet_step; [apply ok_on_addr|]. apply frame_foldl. intros m a. etrans; [apply frame_remember_addr|apply frame_dial].
  - intros [= _ <- _ _]. same.
  - intros [= _ <- _ _]. apply quiet_step; [apply ok_foldl; auto with node|]. apply frame_foldl. intros m h. apply frame_request_block_body.
  - intros [= _ <- _ _]. apply quiet_step; [apply ok_send|by split].
  - destruct (ingest_block t n budget b) as [[[p m] bu]|] eqn:Hi; [|done]. cbn [mbind option_bind]. intros [= <- <- <- <-] Hn.
    split; [by apply ok_clear_body; eapply ok_ingest_loop|]. by apply ingest_loop_evolves in Hi as (He & Hw & Hv).
  - intros [= _ <- _ _]. apply quiet_step; [auto with node|apply frame_request_block_body].
  - intros [= _ <- _ _]. apply quiet_step; [auto with node|by split].
  - rewrite relay_transparent_off, with_state_same. cbn [mbind option_bind fst snd]. intros [= _ <- _ _]. apply quiet_step; [apply ok_clear_tx|by split].
  - intros [= _ <- _ _]. unfold on_tx_inv. destruct (existsb _ _); [same|]. apply quiet_step; [auto with node|apply frame_request_tx_pull].
  - intros [= _ <- _ _]. apply quiet_step; [apply ok_send|by split].
  - rewrite relay_all_off by done. cbn [mbind option_bind]. intros [= _ <- _ _]. same.
  - pose proof (good_relay_utxo t n tx) as Hg. destruct (relay_utxo t n tx) as [p m]. cbn [fst snd] in *. intros [= _ <- _ _] Hn.
    destruct (Hg Hn) as [Hm [q Hq]]. split; [auto with node|]. exists q. etrans; [exact Hq|by split].
  - intros [= _ <- _ _]. unfold on_utxo_tx_inv. destruct (existsb _ _); [same|]. apply quiet_step; [auto with node|apply frame_request_tx_pull].
  - intros [= _ <- _ _]. apply quiet_step; [apply ok_send|by split].
  - destruct (on_compact_block _ _ _ _ _ _) as [m|] eqn:Hc; [|done]. cbn [mbind option_bind]. intros [= _ <- _ _]. apply quiet_step.
    + intros Hn. by eapply ok_on_compact.
    + unfold on_compact_block in Hc. rewrite relay_all_off in Hc by done. cbn [mbind option_bind] in Hc.
      destruct (reconstruct_from_mempool _ _ _) as [filled missing]. injection Hc as <-.
      destruct (should_fetch _ _); [etrans; [|apply frame_request_block_body]|]; case_bool_decide; by split.
  - intros [= _ <- _ _]. unfold on_get_block_txn. case_match; same.
  - intros Hd Hn. destruct (ok_on_block_txn t n block_hash txs Hn) as (m & Hm & Hok & Hf). rewrite Hm in Hd. cbn [mbind option_bind fst snd] in Hd.
    by injection Hd as _ <- _ _.
  - intros [= _ <- _ _]. unfold on_get_headers. case_bool_decide; same.
  - intros [= _ <- _ _] Hn. by apply ok_on_headers.
  - intros [= _ <- _ _]. same.
  - intros [= _ <- _ _]. same.
  - intros [= _ <- _ _]. same.
  - intros [= _ <- _ _]. unfold on_get_pruning_proof. case_match; same.
  - intros [= _ <- _ _]. apply good_pruning_proof.
  - intros [= _ <- _ _]. unfold on_get_multilevel, on_get_pruning_proof. repeat case_match; same.
  - intros [= _ <- _ _]. apply good_multilevel.
  - intros [= _ <- _ _]. unfold on_get_pruning_ledger. repeat case_match; same.
  - intros [= _ <- _ _]. apply good_ledger.
  - intros [= _ <- _ _]. same.
Qed.

(** ** Connections *)

Lemma ok_peers_filter n f : node_ok n → node_ok (with_peers n (List.filter f (sh_peers n))).
Proof.
  intros Hn. destruct Hn as [? ? ? ? ? ? ? ? ? Hp Hg]; split; simpl; try assumption.
  - pose proof (len_filter_le f (sh_peers n)). lia.
  - intros g. etrans; [|apply (Hg g)]. generalize (sh_peers n). intros l. unfold len. apply inj_le. induction l as [|x l IH]; [done|]. cbn [List.filter].
    destruct (f x); cbn [List.filter]; destruct (bool_decide _); cbn [length]; lia.
Qed.
Lemma ok_peers_map n f :
  (∀ p, ph_group (f p) = ph_group p) → node_ok n → node_ok (with_peers n (f <$> sh_peers n)).
Proof.
  intros Hf Hn. destruct Hn as [? ? ? ? ? ? ? ? ? Hp Hg]; split; simpl; try assumption.
  - unfold len in *. by rewrite length_fmap.
  - intros g. etrans; [|apply (Hg g)]. generalize (sh_peers n). intros l. unfold len. apply inj_le. induction l as [|x l IH]; [done|].
    rewrite fmap_cons. cbn [List.filter]. rewrite Hf. destruct (bool_decide _); cbn [length]; lia.
Qed.

Lemma ok_close n conn ss : node_ok n → node_ok (close_conn n conn ss).
Proof. intros Hn. unfold close_conn. pose proof (ok_peers_filter n (λ p, negb (ph_conn p =? conn)) Hn). destruct (ss_listen ss); auto with node. Qed.
Lemma ok_ban_peer t n ss : node_ok n → node_ok (ban_peer t n ss).
Proof.
  intros Hn. unfold ban_peer. set (m := match ss_listen ss with Some _ => _ | None => _ end).
  assert (node_ok m) as Hm.
  { unfold m. destruct (ss_listen ss) as [a|]; [|done]. apply ok_known.
    - pose proof (no_known _ Hn). pose proof (size_difference_le (sh_known_addrs n) {[a]}). destruct (_ <? _); simpl; lia.
    - destruct (Z.ltb_spec (Z.of_nat (size (sh_banned_addrs n))) MAX_KNOWN_ADDRS); [|done]. apply ok_banned; [|done].
      pose proof (size_add a (sh_banned_addrs n)). lia. }
  clearbody m. destruct (ss_ip ss); auto with node.
Qed.
Lemma ok_fee_filter n conn msg : node_ok n → node_ok (set_fee_filter n conn msg).
Proof. intros Hn. destruct msg; try done. cbn [set_fee_filter]. apply ok_peers_map; [|done]. intros p. by destruct (_ =? _). Qed.
Hint Resolve ok_close ok_ban_peer ok_fee_filter : node.

Lemma ok_open t n conn ip dialed auth : node_ok n → node_ok (open_conn t n conn ip dialed auth).1.
Proof.
  intros Hn. unfold open_conn. set (x := match ip with Some _ => _ | None => _ end).
  assert (∃ r l, x = (r, with_ip_bans n l)) as (r & l & ->).
  { unfold x. destruct ip as [a|]; [destruct (is_banned _ _ a) as [r l]; by exists r, l|]. exists false, (sh_ip_bans n). by destruct n. }
  destruct r; [cbn [fst]; auto with node|]. destruct (negb auth); [cbn [fst]; auto with node|].
  destruct (Z.leb_spec MAX_PEERS (len (sh_peers (with_ip_bans n l)))) as [|Hp]; [cbn [fst]; auto with node|].
  destruct (bool_decide _ && _) eqn:Hg; [cbn [fst]; auto with node|]. cbn [fst]. apply ok_send, ok_send. set (m := with_peers _ _).
  assert (node_ok m) as Hm; [|destruct dialed; cbn [from_option]; solve [auto with node]]. unfold m. clear m.
  destruct Hn as [? ? ? ? ? ? ? ? ? Hps Hgs]; split; simpl in *; try assumption.
  - unfold len in *. rewrite length_app. simpl. lia.
  - intros g. rewrite List.filter_app. cbn [List.filter ph_group]. specialize (Hgs g). unfold len in *. rewrite length_app.
    destruct (bool_decide (ip ≫= ip_group = Some g)) eqn:Hb; [|simpl; lia]. apply bool_decide_eq_true_1 in Hb. rewrite Hb in Hg.
    rewrite bool_decide_eq_true_2 in Hg by done. cbn [andb] in Hg. apply Z.leb_gt in Hg. simpl. lia.
Qed.
Lemma frame_open t n conn ip dialed auth : frame n (open_conn t n conn ip dialed auth).1.
Proof.
  unfold open_conn. destruct ip as [a|]; [destruct (is_banned _ _ a) as [r l]; destruct r|]; [by split|..];
    (destruct (negb auth); [by split|]; destruct (_ <=? _); [by split|]; destruct (_ && _); [by split|]; cbn [fst];
     destruct dialed as [d|]; cbn [from_option]; [|by split];
     match goal with |- frame ?n (send (send (remember_addr ?m _) _ _) _ _) =>
       etrans; [|etrans; [apply (frame_remember_addr m d)|by split]]; by split end).
Qed.
Lemma frame_close n conn ss : frame n (close_conn n conn ss).
Proof. unfold close_conn. destruct (ss_listen ss); by split. Qed.
Lemma frame_ban_peer t n ss : frame n (ban_peer t n ss).
Proof. unfold ban_peer. destruct (ss_listen ss), (ss_ip ss); try destruct (_ <? _); by split. Qed.
Lemma frame_fee_filter n conn msg : frame n (set_fee_filter n conn msg).
Proof. destruct msg; by split. Qed.

Lemma changes_frame k n0 n n' n1 : frame n0 n → changes k n n' → frame n' n1 → changes k n0 n1.
Proof.
  intros [Hs0 Ho0 Hw0 Hv0] Hc [Hs1 Ho1 Hw1 Hv1]. destruct k; cbn [changes] in *.
  - destruct Hc as [? ? ? ?]. split; congruence.
  - destruct Hc as [p [Hs Ho Hw Hv]]. simpl in *. exists p. split; simpl; congruence.
  - destruct Hc as (He & Hv & Hw). rewrite Hs0, <- Hs1 in He. split_and!; congruence.
  - destruct Hc as [[? ? ? ?]|(Hi & Ho & Hg)]; [left; split; congruence|right]. rewrite Hs0, <- Hs1 in Hi. split; [done|].
    split; [congruence|]. unfold work_grows in *. rewrite Hw1, Hv1, <- Hw0, <- Hv0. done.
Qed.

Ltac stay := intros; split; [assumption|right; reflexivity].

Lemma receive_good t0 t n conn ss plen msg n' ss' go :
  receive t0 t n conn ss plen msg = Some (n', ss', go) →
  node_ok n → node_ok n' ∧ (changes (reach_of msg) n n' ∨ frame n n').
Proof.
  unfold receive. destruct (negb (message_within_type_cap _ _)); [intros [= <- _ _]; stay|].
  destruct (record_message _ _) as [within rate]. destruct (negb within); [intros [= <- _ _]; stay|].
  destruct (dispatch _ _ _ _ _ _) as [[[[pen n1] l1] bu1]|] eqn:Hd; [|done]. cbn [mbind option_bind]. apply dispatch_good in Hd.
  intros Heq Hn. destruct (Hd (ok_fee_filter n conn msg Hn)) as [Hn1 He].
  destruct (_ <=? _); injection Heq as <- <- <-; (split; [auto with node|]); left;
    (eapply changes_frame; [apply frame_fee_filter|exact He|]); [apply frame_ban_peer|done].
Qed.

(** ** Events *)

Definition event_reach (e : Event) : reach :=
  match e with
  | EReceive _ _ _ _ msg => reach_of msg
  | EMined _ _ => Blocks
  | ESubmitted _ _ => Pooled
  | _ => Quiet
  end.

Lemma ok_dial_known t n l : node_ok n → node_ok (dial_known t n l).
Proof. revert n. induction l as [|a l IH]; intros n Hn; [done|]. cbn [dial_known]. destruct (_ <=? _); auto with node. Qed.
Lemma frame_dial_known t n l : frame n (dial_known t n l).
Proof. revert n. induction l as [|a l IH]; intros n; [done|]. cbn [dial_known]. destruct (_ <=? _); [done|]. etrans; [apply frame_dial|apply IH]. Qed.

Lemma net_step_good w e w' :
  net_step w e = Some w' → node_ok (net_node w) →
  node_ok (net_node w') ∧ (changes (event_reach e) (net_node w) (net_node w') ∨ frame (net_node w) (net_node w')).
Proof.
  assert (∀ n n', good_step Quiet n n' → node_ok n → node_ok n' ∧ (changes (event_reach e) n n' ∨ frame n n')) as Hq.
  { intros n n' Hg Hn. destruct (Hg Hn). auto. }
  destruct e; cbn [net_step].
  - destruct (bool_decide _); [intros [= <-]; stay|].
    pose proof (ok_open t (net_node w) conn ip dialed authenticated) as Ho. pose proof (frame_open t (net_node w) conn ip dialed authenticated) as Hs.
    destruct (open_conn _ _ _ _ _ _) as [n s]. intros [= <-]. auto.
  - destruct (net_sessions w !! conn) as [s|]; [|intros [= <-]; stay].
    destruct (receive _ _ _ _ _ _ _) as [[[n s'] go]|] eqn:Hr; [|done]. cbn [mbind option_bind]. intros [= <-] Hn.
    destruct (receive_good _ _ _ _ _ _ _ _ _ _ Hr Hn) as [Hk He]. destruct go; [done|]. cbn [with_node net_node].
    split; [by apply ok_close|]. destruct He as [He|He].
    + left. eapply changes_frame; [done|exact He|apply frame_close].
    + right. etrans; [exact He|apply frame_close].
  - destruct (net_sessions w !! conn) as [s|]; intros [= <-]; [|stay]. apply Hq, quiet_step; [apply ok_close|apply frame_close].
  - intros [= <-]. cbn [with_node net_node]. unfold discover. destruct (_ <=? _); [stay|].
    apply Hq, quiet_step; [intros Hn; apply ok_dial_known; auto with node|]. etrans; [|apply frame_dial_known]. by split.
  - intros [= <-]. unfold announce_tip. case_bool_decide; [stay|]. cbn [net_node]. destruct (selected_tip _ _); apply Hq; same.
  - intros [= <-]. unfold announce_mempool. cbn [net_node]. apply Hq, quiet_step.
    + intros Hn. apply ok_foldl; [intros; by apply ok_gossip|]. apply ok_foldl; [intros; by apply ok_gossip|done].
    + etrans; [|by apply frame_foldl]. by apply frame_foldl.
  - intros [= <-]. cbn [with_node net_node]. unfold request_proof. destruct linear_only; apply Hq; same.
  - intros [= <-]. apply Hq, quiet_step; [apply ok_listen|by split].
  - intros [= <-]. cbn [with_node net_node]. unfold connect_to. apply Hq, quiet_step.
    + intros Hn. apply ok_dials, ok_connected. auto with node.
    + etrans; [apply (frame_remember_addr (net_node w) addr)|by split].
  - intros Heq. apply (inj Some) in Heq. subst w'. destruct (add_block _ _ _) as [s|] eqn:Ha; [|stay].
    cbn [with_node net_node]. intros Hn. split; [auto with node|]. left. split; [|done]. apply rtc_once. by eapply step_block.
  - intros Heq Hn. apply (inj Some) in Heq. subst w'. cbn [with_node net_node]. split; [auto with node|]. left.
    pose proof (admit_utxo_pools (sh_state (net_node w)) (tk_ms t) tx) as [p Hp]. exists p. cbn [changes]. rewrite Hp. by split.
Qed.

(** ** Every handler returns *)

Lemma import_archival s headers pp s' :
  import_verified_pruning_headers s headers = Ok (pp, s') → cs_archival s' = cs_archival s.
Proof.
  unfold import_verified_pruning_headers. destruct headers as [|first rest]; [done|]. destruct (negb _); [done|]. destruct (negb _); [done|].
  intros Heq. apply (f_equal (λ r, match r with Ok x => cs_archival x.2 | Err _ => cs_archival s' end)) in Heq. cbn [snd] in Heq.
  rewrite <- Heq. clear Heq. set (st := foldl import_header (s, genesis_hash) rest).
  assert (cs_archival st.1 = cs_archival s) as Hst.
  { unfold st. change (cs_archival s) with (cs_archival (s, genesis_hash).1). generalize (s, genesis_hash). clear.
    induction rest as [|h rest IH]; intros x; [done|]. cbn [foldl]. rewrite IH. unfold import_header. destruct x as [y prev]. by case_bool_decide. }
  rewrite <- Hst. clearbody st. unfold order_main_chain. destruct (selected_tip _ _); simpl; by destruct (cs_base_captured st.1).
Qed.
Lemma adopt_archival s msg s' : adopt_pruning_point_ledger s msg = Ok s' → cs_archival s' = cs_archival s.
Proof.
  unfold adopt_pruning_point_ledger. destruct (ok_or _ _); [|done]. cbn [mbind result_bind]. destruct (negb _); [done|].
  destruct (ok_or _ _); [|done]. cbn [mbind result_bind]. destruct (negb _); [done|]. by intros [= <-].
Qed.
Lemma evolves_archival s s' : evolves s s' → cs_archival s = true → cs_archival s' = true.
Proof.
  induction 1 as [s|s s1 s' Hs _ IH]; [done|]. intros Har. apply IH. destruct Hs as [p|now b s1 Ha]; [done|].
  by eapply add_block_dag in Ha as [_ ?].
Qed.
Lemma changes_archival k n n' : changes k n n' → cs_archival (sh_state n) = true → cs_archival (sh_state n') = true.
Proof.
  destruct k; cbn [changes].
  - intros [-> _ _ _]. done.
  - intros [p [-> _ _ _]]. done.
  - intros (He & _). by apply evolves_archival.
  - intros [[-> _ _ _]|(Hi & _)]; [done|]. intros Har.
    destruct Hi as [hs pp s' Hi|msg s' Ha]; [by rewrite (import_archival _ _ _ _ Hi)|by rewrite (adopt_archival _ _ _ Ha)].
Qed.

Lemma dispatch_total t n conn listen budget msg :
  cs_archival (sh_state n) = true → node_ok n → is_Some (dispatch t n conn listen budget msg).
Proof.
  intros Har Hn. destruct msg; cbn [dispatch]; rewrite ?relay_transparent_off, ?relay_all_off by done; cbn [mbind option_bind]; try by eexists.
  - destruct (on_hello _ _ _ _ _ _ _ _) as [[p m] l]. by eexists.
  - destruct (ingest_total t n budget b Har Hn) as [[[p m] bu] ->]. by eexists.
  - destruct (relay_utxo t n tx). by eexists.
  - unfold on_compact_block. rewrite relay_all_off by done. cbn [mbind option_bind].
    destruct (reconstruct_from_mempool _ _ _) as [filled missing]. by eexists.
  - destruct (ok_on_block_txn t n block_hash txs Hn) as (n' & -> & _). by eexists.
Qed.
Lemma net_step_total w e : cs_archival (sh_state (net_node w)) = true → node_ok (net_node w) → is_Some (net_step w e).
Proof.
  intros Har Hn. destruct e; cbn [net_step]; try by eexists.
  - destruct (bool_decide _); [by eexists|]. destruct (open_conn _ _ _ _ _ _). by eexists.
  - destruct (net_sessions w !! conn) as [s|]; [|by eexists]. unfold receive. destruct (negb (message_within_type_cap _ _)); [by eexists|].
    destruct (record_message _ _) as [within rate]. destruct (negb within); [by eexists|].
    destruct (dispatch_total t (set_fee_filter (net_node w) conn msg) conn (ss_listen (decay (tk_instant t0) s)) (ss_budget (decay (tk_instant t0) s)) msg)
      as [[[[p m] l] bu] ->]; [by destruct msg|by apply ok_fee_filter|]. cbn [mbind option_bind]. destruct (_ <=? _); by eexists.
  - destruct (net_sessions w !! conn); by eexists.
Qed.

Lemma net_run_snoc w es e : net_run w (es ++ [e]) = (net_run w es ≫= λ w, net_step w e).
Proof. unfold net_run. by rewrite foldl_app. Qed.
Lemma net_run_ind (P : Net → Prop) w es w' :
  P w → (∀ w1 e w2, e ∈ es → P w1 → net_step w1 e = Some w2 → P w2) → net_run w es = Some w' → P w'.
Proof.
  intros Hw Hs. revert w'. induction es as [|e es IH] using rev_ind; intros w'; [by intros [= <-]|].
  rewrite net_run_snoc. destruct (net_run w es) as [w1|]; [|done]. cbn [mbind option_bind]. intros He.
  eapply (Hs w1 e); [set_solver| |exact He]. apply IH; [|done]. intros x y z Hy. apply Hs. set_solver.
Qed.

Lemma new_node_ok s bans : node_ok (Shared_new s bans).
Proof.
  split; cbn [Shared_new sh_orphans sh_in_flight_bodies sh_in_flight_tx_gets sh_pending_headers sh_pending_compact sh_known_addrs
    sh_banned_addrs sh_addrman sh_peers]; rewrite ?size_empty, ?map_size_empty; try done.
  apply reachable_addrman_ok. constructor.
Qed.

(** C10. The tables of a node that [node_ok] lists stay bounded, and the handlers return:
    whatever events a fresh node sees (connections, messages from its peers, its own
    threads, blocks and transactions of its own process), in whatever order, the requests in
    flight, the pending headers and compact blocks, the known addresses, the ban list, the
    address manager's buckets, the peers and the peers per address group stay within the
    source's limits.  The orphan pool stays below [MAX_ORPHANS + MAX_BLOCK_PARENTS] entries
    and not within [MAX_ORPHANS]: the limit is tested before a block is stored, and the
    block is then stored once under each missing parent.  The addresses of [connected_addrs]
    and the feeler queue are not bounded by this theorem (nor by the code).  An archival node
    handles every such sequence: the ingest loop returns within its fuel at every message. *)
Theorem node_bounded s bans es :
  (∀ w, net_run (Net_new s bans) es = Some w → node_ok (net_node w)) ∧
  (cs_archival s = true → is_Some (net_run (Net_new s bans) es)).
Proof.
  split.
  - intros w. apply (net_run_ind (λ w, node_ok (net_node w))); [apply new_node_ok|].
    intros w1 e w2 _ Hok Hs. by apply (net_step_good _ _ _ Hs).
  - intros Har. assert (∃ w, net_run (Net_new s bans) es = Some w ∧ node_ok (net_node w) ∧ cs_archival (sh_state (net_node w)) = true)
      as (w & -> & _); [|by eexists].
    induction es as [|e es IH] using rev_ind; [exists (Net_new s bans); split_and!; [done|apply new_node_ok|done]|].
    destruct IH as (w & Hw & Hok & Ha). destruct (net_step_total w e Ha Hok) as [w' Hs]. exists w'.
    rewrite net_run_snoc, Hw. split; [done|].
    destruct (net_step_good _ _ _ Hs Hok) as [Hok' Hc]. split; [done|].
    destruct Hc as [Hc|Hc]; [by eapply changes_archival|by rewrite (fr_state _ _ Hc)].
Qed.

(** ** The chain of a node *)

Lemma evolves_grows s s' : cs_archival s = true → evolves s s' → (size (cs_dag s) <= size (cs_dag s'))%nat.
Proof.
  intros Har He. revert Har. induction He as [s|s s1 s' Hs _ IH]; intros Har; [done|]. destruct Hs as [p|now b s1 Ha]; [by apply IH|].
  destruct (add_block_dag _ _ _ _ Har Ha) as [Hd Har1]. specialize (IH Har1). rewrite Hd, map_size_insert in IH.
  destruct (cs_dag s !! block_hash b); cbn [id] in IH; lia.
Qed.

(** A chain state the admission rules reach, with any pools. *)
Definition reached (L0 : Ledger) (s : ChainState) : Prop := ∃ s0, reachable L0 s0 ∧ s = set_pools s0 (cs_pools s).
Lemma evolves_reached L0 s s' :
  reached L0 s → evolves s s' → Z.of_nat (size (cs_dag s')) * SCALE < SPACE_END → reached L0 s'.
Proof.
  intros Hr He Hsz. revert Hr. induction He as [s|s s1 s' Hs He IH]; intros (s0 & Hr & Hs0); [by exists s0|]. apply IH; [done|].
  destruct (reachable_ok L0 s0 Hr) as (_ & Har & _).
  destruct Hs as [p|now b s1 Ha]; [exists s0; split; [done|]; rewrite Hs0; done|].
  assert (cs_archival s = true) as Har' by (rewrite Hs0; done).
  destruct (add_block_dag _ _ _ _ Har' Ha) as [Hd Har1]. pose proof (evolves_grows s1 s' Har1 He) as Hg.
  rewrite Hs0 in Ha. unfold add_block in Ha. rewrite check_block_pools in Ha.
  destruct (check_block s0 now b) as [d|] eqn:Hc; [|done]. cbn [mbind result_bind] in Ha.
  destruct (connect_pools s0 (cs_pools s) b d Har) as [p' Hp]. rewrite Hp in Ha.
  assert (s1 = set_pools (connect_block s0 b d) p') as -> by congruence.
  exists (connect_block s0 b d). split; [|done]. eapply (reachable_block L0 s0 now b); [done| |].
  - assert (size (cs_dag s0) <= size (cs_dag s'))%nat; [|assert (0 <= SCALE) by done; nia]. etrans; [|exact Hg]. rewrite Hd, Hs0, map_size_insert.
    cbn [set_pools cs_dag]. destruct (_ !! _); cbn [id]; lia.
  - unfold add_block. by rewrite Hc.
Qed.

Lemma changes_evolves k n n' : k ≠ Imports → changes k n n' ∨ frame n n' → evolves (sh_state n) (sh_state n').
Proof.
  intros Hk [Hc|Hf]; [|rewrite (fr_state _ _ Hf); apply rtc_refl]. destruct k; cbn [changes] in Hc; [| | |done].
  - rewrite (fr_state _ _ Hc). apply rtc_refl.
  - destruct Hc as [p Hf]. rewrite (fr_state _ _ Hf). apply rtc_once, step_pools.
  - apply Hc.
Qed.

(** C9. The network only ever gives an archival node chains its own rules admit: after any
    events that bring no pruning proof or pruning-point ledger, and while the block count
    fits the reachability index, the chain state of a node that started from genesis with
    [archival = true] is one that [add_block] reaches from the seeded ledger, up to the
    content of the mempools; in particular its live ledger is the replay of the canonical
    order and its index answers for the DAG it holds.  What the peers send decides which
    blocks, never what a block may do.  A pruning node, the default, is not covered. *)
Theorem node_chain_reachable L0 bans es w :
  Forall (λ e, event_reach e ≠ Imports) es → net_run (Net_new (seeded L0) bans) es = Some w →
  Z.of_nat (size (cs_dag (sh_state (net_node w)))) * SCALE < SPACE_END →
  reached L0 (sh_state (net_node w)) ∧ chain_ok L0 (sh_state (net_node w)).
Proof.
  intros Hes Hr Hsz.
  assert (node_ok (net_node w) ∧ evolves (seeded L0) (sh_state (net_node w))) as [_ He].
  { revert Hr. apply (net_run_ind (λ w, node_ok (net_node w) ∧ evolves (seeded L0) (sh_state (net_node w)))); [split; [apply new_node_ok|apply rtc_refl]|]. intros w1 e w2 Hin [Hok He] Hs.
    rewrite Forall_forall in Hes. destruct (net_step_good _ _ _ Hs Hok) as [Hok2 Hc]. split; [done|]. etrans; [exact He|].
    by apply (changes_evolves _ _ _ (Hes e Hin)). }
  assert (reached L0 (sh_state (net_node w))) as Hre.
  { eapply evolves_reached; [|exact He|done]. exists (seeded L0). split; [constructor|done]. }
  split; [done|]. destruct Hre as (s0 & Hr0 & Hs0). destruct (reachable_ok L0 s0 Hr0) as (Hok & _). rewrite Hs0.
  exact (chain_ok_pools L0 s0 _ (cs_difficulty s0) Hok).
Qed.

(** ** Orphans wait for what is missing *)

Lemma prune_bodies_dom s : dom (cs_dag (prune_bodies s)) = dom (cs_dag s).
Proof.
  unfold prune_bodies. destruct (cs_archival s); [done|]. destruct (_ <=? _); [done|]. cbv zeta.
  generalize (List.filter (body_buried s (selected_tip_blue_score s - FINALITY_DEPTH)) (dag_keys (cs_dag s))). intros l.
  revert s. induction l as [|h l IH]; intros s; [done|]. cbn [foldl]. rewrite IH. cbn [prune_body set_graph cs_dag]. apply dom_alter_L.
Qed.
Lemma prune_history_dom s : dom (cs_dag (prune_history s)) ⊆ dom (cs_dag s).
Proof.
  unfold prune_history. destruct (cs_archival s); [done|]. destruct (selected_tip _ _); [|done]. cbv zeta.
  destruct (_ <=? _); [done|]. destruct (last _); [|done]. destruct (bool_decide _); [done|].
  assert (∀ x, cs_dag (order_main_chain x) = cs_dag x) as -> by (intros x; unfold order_main_chain; by destruct (selected_tip _ _)).
  cbn [set_pruning retain_graph set_graph cs_dag]. apply dom_filter_subseteq.
Qed.
Lemma add_block_dom s now b s' : add_block s now b = Ok s' → dom (cs_dag s') ⊆ {[block_hash b]} ∪ dom (cs_dag s).
Proof.
  unfold add_block. destruct (check_block s now b) as [d|]; [|done]. cbn [mbind result_bind]. intros [= <-]. unfold connect_block.
  etrans; [apply prune_history_dom|]. rewrite prune_bodies_dom. destruct (bookkeeping_eq (update_ledger (insert_block s b d)) b) as (p & dd & ->).
  cbn [set_difficulty set_pools cs_dag]. rewrite (proj1 (update_ledger_frame _)). cbn [insert_block set_graph cs_dag]. by rewrite dom_insert_L.
Qed.

(** Every buffered block is filed under a parent of its own that the node lacks. *)
Definition orphans_wait (n : Shared) : Prop :=
  ∀ k v o, sh_orphans n !! k = Some v → o ∈ v → k ∈ blk_parents (ob_block o) ∧ k ∉ dom (cs_dag (sh_state n)).

Lemma wait_frame n n' : frame n n' → orphans_wait n → orphans_wait n'.
Proof. intros [Hs Ho _ _] Hw k v o. rewrite Hs, Ho. apply Hw. Qed.
Lemma wait_ingest_one t n budget pen b d : orphans_wait n → orphans_wait (ingest_one t n budget pen b d).1.1.1.
Proof.
  intros Hw k v o Hk Hin. pose proof (ingest_one_orphans t n budget pen b d k v o Hk Hin) as Hc.
  pose proof (ingest_one_state t n budget pen b d) as Hs. cbv zeta in Hs. set (n' := (ingest_one t n budget pen b d).1.1.1) in *.
  destruct Hc as [(v0 & Hv0 & Ho0)|(Hm & Hst & ->)].
  - destruct (Hw k v0 o Hv0 Ho0) as [Hp Hd]. split; [done|]. destruct Hs as [[-> _]|(Hadd & _ & Hor & _)]; [done|].
    intros Hin'. apply (add_block_dom _ _ _ _ Hadd) in Hin'. apply elem_of_union in Hin' as [->%elem_of_singleton|?]; [|done].
    rewrite Hor, lookup_delete_eq in Hk. done.
  - rewrite Hst. unfold missing_parents in Hm. apply elem_of_filter_bool in Hm as [Hh Hp]. split; [done|].
    apply negb_true_iff in Hh. by apply bool_decide_eq_false_1 in Hh.
Qed.
Lemma wait_ingest fuel t n budget pen queue pen' n' budget' :
  orphans_wait n → ingest_loop fuel t n budget pen queue = Some (pen', n', budget') → orphans_wait n'.
Proof.
  revert n budget pen queue. induction fuel as [|fuel IH]; intros n budget pen [|[b d] queue] Hn; cbn [ingest_loop];
    [intros [= _ <- _]; exact Hn|done|intros [= _ <- _]; exact Hn|].
  pose proof (wait_ingest_one t n budget pen b d Hn) as Ho. destruct (ingest_one t n budget pen b d) as [[[n1 bu1] pen1] un].
  apply IH. exact Ho.
Qed.
Lemma wait_dispatch t n conn listen budget msg pen n' listen' budget' :
  dispatch t n conn listen budget msg = Some (pen, n', listen', budget') → reach_of msg ≠ Imports →
  node_ok n → orphans_wait n → orphans_wait n'.
Proof.
  intros Hd Hr Hn Hw. assert ((∃ b, msg = MBlock b) ∨ ∀ b, msg ≠ MBlock b) as [[b ->]|Hb] by (destruct msg; eauto).
  - cbn [dispatch] in Hd. destruct (ingest_block t n budget b) as [[[p m] bu]|] eqn:Hi; [|done]. cbn [mbind option_bind] in Hd.
    injection Hd as <- <- <- <-. apply (wait_frame m); [by split|]. by eapply wait_ingest in Hi.
  - destruct (dispatch_good _ _ _ _ _ _ _ _ _ _ Hd Hn) as [_ Hc].
    destruct msg; cbn [reach_of changes] in *; try (by eapply wait_frame); try done; [by destruct (Hb b)|].
    destruct Hc as [p Hf]. apply (wait_frame _ _ Hf). exact Hw.
Qed.

Lemma wait_receive t0 t n conn ss plen msg n' ss' go :
  receive t0 t n conn ss plen msg = Some (n', ss', go) → reach_of msg ≠ Imports → node_ok n → orphans_wait n → orphans_wait n'.
Proof.
  unfold receive. destruct (negb (message_within_type_cap _ _)); [by intros [= <- _ _]|].
  destruct (record_message _ _) as [within rate]. destruct (negb within); [by intros [= <- _ _]|].
  destruct (dispatch _ _ _ _ _ _) as [[[[pen n1] l1] bu1]|] eqn:Hd; [|done]. cbn [mbind option_bind]. intros Heq Hr Hn Hw.
  assert (orphans_wait n1) as Hw1.
  { eapply wait_dispatch; [exact Hd|done|by apply ok_fee_filter|]. by apply (wait_frame _ _ (frame_fee_filter n conn msg)). }
  destruct (_ <=? _); injection Heq as <- <- <-; [|done]. by apply (wait_frame _ _ (frame_ban_peer _ _ _)).
Qed.
(** The events of the peers and of the node's own threads. *)
Definition peer_event (e : Event) : Prop := match e with EMined _ _ => False | _ => event_reach e ≠ Imports end.
Lemma wait_step w e w' :
  net_step w e = Some w' → peer_event e → node_ok (net_node w) → orphans_wait (net_node w) → orphans_wait (net_node w').
Proof.
  intros Hs Hp Hn Hw. pose proof (net_step_good _ _ _ Hs Hn) as [_ Hc].
  assert (frame (net_node w) (net_node w') → orphans_wait (net_node w')) as Hf by (intros Hf; by apply (wait_frame _ _ Hf)).
  destruct e; cbn [event_reach changes peer_event] in *; try (destruct Hc; by apply Hf). 
  - cbn [net_step] in Hs. destruct (net_sessions w !! conn) as [s|]; [|by injection Hs as <-].
    destruct (receive _ _ _ _ _ _ _) as [[[n s'] go]|] eqn:Hr; [|done]. cbn [mbind option_bind] in Hs. injection Hs as <-.
    pose proof (wait_receive _ _ _ _ _ _ _ _ _ _ Hr Hp Hn Hw) as Hw1. destruct go; [done|]. by apply (wait_frame _ _ (frame_close n conn s')).
  - destruct Hc as [[p Hc]|Hc]; [|by apply Hf]. apply (wait_frame _ _ Hc). exact Hw.
Qed.

(** No orphan is forgotten: after any events of its peers that bring no pruning
    proof, every block a node buffers is filed under parents of its own that the node
    does not have, so the arrival of any of them takes the block out again; none waits
    for a block that is already there. *)
Theorem orphans_not_stuck s bans es w k v o :
  Forall peer_event es → net_run (Net_new s bans) es = Some w →
  sh_orphans (net_node w) !! k = Some v → o ∈ v →
  k ∈ blk_parents (ob_block o) ∧ k ∉ dom (cs_dag (sh_state (net_node w))).
Proof.
  intros Hes Hr. revert k v o. change (orphans_wait (net_node w)).
  apply (net_run_ind (λ w, node_ok (net_node w) ∧ orphans_wait (net_node w))) in Hr; [by destruct Hr| |].
  - split; [apply new_node_ok|]. intros k v o Hk. cbn [Net_new net_node Shared_new sh_orphans] in Hk. by rewrite lookup_empty in Hk.
  - intros w1 e w2 Hin [Hok Hw] Hs. rewrite Forall_forall in Hes. split; [by apply (net_step_good _ _ _ Hs)|].
    by eapply wait_step; [|apply Hes| |].
Qed.

(** ** Penalties *)

Lemma indirect_free t n budget pen b : (ingest_one t n budget pen b false).1.2 = pen.
Proof.
  unfold ingest_one. destruct (have n (block_hash b)); [done|]. destruct (precheck_block _ b) as [[]|e].
  - destruct budget as [bu|]; cbn [negb]; (destruct (add_block _ _ b); [done|]); by destruct (str_contains _ _).
  - by destruct (str_contains _ _).
Qed.
Lemma indirect_loop fuel t n budget pen queue pen' n' budget' :
  Forall (λ q, q.2 = false) queue → ingest_loop fuel t n budget pen queue = Some (pen', n', budget') → pen' = pen.
Proof.
  revert n budget pen queue. induction fuel as [|fuel IH]; intros n budget pen [|[b d] queue] Hq; cbn [ingest_loop];
    [by intros [= <- _ _]|done|by intros [= <- _ _]|].
  apply Forall_cons in Hq as [Hd Hq]. cbn [snd] in Hd. subst d. pose proof (indirect_free t n budget pen b) as Hp.
  destruct (ingest_one t n budget pen b false) as [[[n1 bu1] pen1] un]. cbn [fst snd] in Hp. subst pen1. apply IH.
  rewrite Forall_app. split; [|done]. rewrite Forall_forall. intros q (c & -> & _)%list_elem_of_fmap. done.
Qed.
(** The whole penalty is that of the received block itself. *)
Lemma ingest_first t n budget b pen n' budget' :
  ingest_block t n budget b = Some (pen, n', budget') →
  pen = (ingest_one t n budget 0 b true).1.2 ∧ evolves (sh_state (ingest_one t n budget 0 b true).1.1.1) (sh_state n').
Proof.
  unfold ingest_block. destruct (ingest_fuel n) as [|f] eqn:Hf; [done|]. clear Hf. cbn [ingest_loop].
  destruct (ingest_one t n budget 0 b true) as [[[n1 bu1] pen1] un]. cbn [fst snd]. rewrite app_nil_r. intros Hl.
  split; [|by apply ingest_loop_evolves in Hl as [He _]]. eapply indirect_loop; [|exact Hl].
  rewrite Forall_forall. intros q (c & -> & _)%list_elem_of_fmap. done.
Qed.

(** Whether the budget lets the block through to the verifier. *)
Definition within_budget (t : Tick) (budget : Budget) : bool :=
  match budget with Some bu => (try_consume bu (tk_ms t)).1 | None => true end.

(** The points of a received block. *)
Definition direct_penalty (t : Tick) (n : Shared) (budget : Budget) (b : Block) : Z :=
  let charge e := if str_contains "Unknown parent" e then 0 else block_ban_penalty e in
  if have n (block_hash b) then 0 else
  match precheck_block (sh_state n) b with
  | Err e => charge e
  | Ok _ =>
      if negb (within_budget t budget) then INVALID_STARK_PENALTY else
      match add_block (sh_state n) (tk_ms t) b with Ok _ => 0 | Err e => charge e end
  end.
Lemma ban_penalty_cases e : block_ban_penalty e = INVALID_BLOCK_PENALTY ∨ block_ban_penalty e = INVALID_STARK_PENALTY.
Proof. unfold block_ban_penalty. destruct (str_contains _ _); auto. Qed.
Lemma first_penalty e : sat_add 32 0 (block_ban_penalty e) = block_ban_penalty e.
Proof. by destruct (ban_penalty_cases e) as [-> | ->]. Qed.
Lemma budget_cases t budget :
  ∃ budget', match budget with
             | Some bu => let '(r, bu) := try_consume bu (tk_ms t) in (r, Some bu)
             | None => (true, None)
             end = (within_budget t budget, budget').
Proof. unfold within_budget. destruct budget as [x|]; [|by eexists]. destruct (try_consume x (tk_ms t)). by eexists. Qed.
Lemma ingest_one_penalty t n budget b : (ingest_one t n budget 0 b true).1.2 = direct_penalty t n budget b.
Proof.
  unfold ingest_one, direct_penalty. destruct (have n (block_hash b)); [done|]. destruct (precheck_block _ b) as [[]|e].
  - destruct (budget_cases t budget) as [budget' ->]. destruct (within_budget t budget); [|done]. cbn [negb].
    destruct (add_block _ _ b) as [s|e]; [done|]. destruct (str_contains _ _); [done|]. apply first_penalty.
  - destruct (str_contains _ _); [done|]. apply first_penalty.
Qed.
Lemma ingest_one_accepts t n budget b s :
  have n (block_hash b) = false → precheck_block (sh_state n) b = Ok () → within_budget t budget = true →
  add_block (sh_state n) (tk_ms t) b = Ok s → sh_state (ingest_one t n budget 0 b true).1.1.1 = s.
Proof.
  intros Hh Hp Hb Ha. unfold ingest_one. rewrite Hh, Hp. destruct (budget_cases t budget) as [budget' ->]. by rewrite Hb, Ha.
Qed.

Lemma evolves_dag_mono s s' h : cs_archival s = true → evolves s s' → h ∈ dom (cs_dag s) → h ∈ dom (cs_dag s').
Proof.
  intros Har He. revert Har. induction He as [s|s s1 s' Hs _ IH]; intros Har Hh; [done|]. destruct Hs as [p|now b s1 Ha]; [by apply IH|].
  destruct (add_block_dag _ _ _ _ Har Ha) as [Hd Har1]. apply IH; [done|]. rewrite Hd. set_solver.
Qed.
Lemma accepted_unknown s now b gd : check_block s now b = Ok gd → bool_decide (block_hash b ∈ dom (cs_dag s)) = false.
Proof. unfold check_block. cbv zeta. by destruct (bool_decide _). Qed.

(** Penalties fall on the sender of a bad block only: receiving a block costs
    nothing, [INVALID_BLOCK_PENALTY] or [INVALID_STARK_PENALTY], whatever it unlocks
    from the pool.  A block the node would admit costs nothing while the peer is within
    its verification budget, and is then in the chain; a known block costs nothing; a
    block whose only fault is a missing parent costs nothing.  A penalised block was
    refused by the pre-check or by [add_block], or was over budget. *)
Theorem ingest_penalty t n budget b pen n' budget' :
  cs_archival (sh_state n) = true → ingest_block t n budget b = Some (pen, n', budget') →
  (pen = 0 ∨ pen = INVALID_BLOCK_PENALTY ∨ pen = INVALID_STARK_PENALTY) ∧
  (is_ok (check_block (sh_state n) (tk_ms t) b) = true → within_budget t budget = true →
     pen = 0 ∧ block_hash b ∈ dom (cs_dag (sh_state n'))) ∧
  (have n (block_hash b) = true ∨ precheck_block (sh_state n) b = Err "Unknown parent block" → pen = 0) ∧
  (pen ≠ 0 → is_err (precheck_block (sh_state n) b) = true ∨ is_err (add_block (sh_state n) (tk_ms t) b) = true ∨
             within_budget t budget = false).
Proof.
  intros Har Hi. apply ingest_first in Hi as [Hpen He]. rewrite ingest_one_penalty in Hpen. split_and!.
  - subst pen. clear. unfold direct_penalty. destruct (have _ _); [auto|]. destruct (precheck_block _ b) as [[]|e].
    + destruct (negb _); [auto|]. destruct (add_block _ _ b) as [|e]; [auto|]. destruct (str_contains _ _); [auto|]. destruct (ban_penalty_cases e); auto.
    + destruct (str_contains _ _); [auto|]. destruct (ban_penalty_cases e); auto.
  - intros Hc Hb. destruct (check_block _ _ b) as [gd|] eqn:Hck; [|done]. clear Hc.
    pose proof (accepted_unknown _ _ _ _ Hck) as Hh. pose proof (proj1 (precheck_complete _ _ _ _ Hck)) as Hp.
    assert (add_block (sh_state n) (tk_ms t) b = Ok (connect_block (sh_state n) b gd)) as Ha by (unfold add_block; by rewrite Hck).
    split; [subst pen; unfold direct_penalty, have; by rewrite Hh, Hp, Hb, Ha|].
    rewrite (ingest_one_accepts t n budget b _ Hh Hp Hb Ha) in He. destruct (connect_dag (sh_state n) b gd Har) as [Hd Har1].
    eapply evolves_dag_mono; [exact Har1|exact He|]. rewrite Hd, dom_insert_L. set_solver.
  - subst pen. clear. unfold direct_penalty. intros [-> | ->]; [done|]. by destruct (have _ _).
  - subst pen. clear. unfold direct_penalty. destruct (have _ _); [done|]. destruct (precheck_block _ b) as [[]|e]; [|auto].
    destruct (within_budget t budget); [|auto]. destruct (add_block _ _ b); auto.
Qed.
End handlers.

(** ** A concrete node

    One connection, over which come a block on genesis and a block whose parent nobody
    has. *)
Module NodeExample.
#[export] Instance ex_pool_env : PoolEnv := {| public_mode := false; some_key m := head (elements (dom m)) |}.
#[export] Instance ex_net_env : NetEnv :=
  {| net_policy := {| np_public_mode := false; api_token := None; strict_dials := false; peer_msg_limit := 4096;
                      stark_verifies_per_window := 64; stark_window := 10000; cors_origins := [];
                      api_write_limit_per_window := 60 |};
     addr_order := elements; compact_order m := (map_to_list m).*1; header_order m := (map_to_list m).*1 |}.
#[export] Instance ex_net_ok : NetEnvOk.
Proof. by split. Qed.
#[export] Existing Instances ChainExample.ex_crypto ChainExample.ex_dual ChainExample.ex_body ChainExample.ex_env.

Definition tick : Tick := {| tk_ms := ChainExample.now; tk_instant := 50; tk_connects _ := true |}.
Definition bans : IpBanList := {| banned := ∅; ban_ttl := 1000 |}.
Definition peer_ip : IpAddr := V4 [5; 6; 7; 8].
Definition w0 : Net := Net_new ChainExample.start bans.
Definition receives (conn : ConnId) (msgs : list Message) : list Event := EReceive tick tick conn 100 <$> msgs.
Definition session (msgs : list Message) : list Event := EOpen tick 1 (Some peer_ip) None true :: receives 1 msgs.
Definition ran (msgs : list Message) : Net := default w0 (net_run w0 (session msgs)).
Definition runs (msgs : list Message) : bool := bool_decide (is_Some (net_run w0 (session msgs))).
Lemma ran_eq msgs : runs msgs = true → net_run w0 (session msgs) = Some (ran msgs).
Proof. intros [w Hw]%bool_decide_eq_true. unfold ran. by rewrite Hw. Qed.

Definition lone : Block := ChainExample.template (GENESIS_TIMESTAMP_MS + 100) [777].
Definition synced : list Message := [MBlock ChainExample.first_block; MBlock lone].
Definition synced_checks : bool :=
  runs synced && (Z.of_nat (size (cs_dag (sh_state (net_node (ran synced))))) * SCALE <? SPACE_END) &&
  existsb (λ o, block_hash (ob_block o) =? block_hash lone) (default [] (sh_orphans (net_node (ran synced)) !! 777)) &&
  is_ok (check_block (sh_state (net_node w0)) (tk_ms tick) ChainExample.first_block).
Lemma synced_ok : synced_checks = true.
Proof. vm_compute. reflexivity. Qed.
Lemma synced_facts :
  net_run w0 (session synced) = Some (ran synced) ∧
  Z.of_nat (size (cs_dag (sh_state (net_node (ran synced))))) * SCALE < SPACE_END ∧
  (∃ v o, sh_orphans (net_node (ran synced)) !! 777 = Some v ∧ o ∈ v) ∧
  is_ok (check_block (sh_state (net_node w0)) (tk_ms tick) ChainExample.first_block) = true.
Proof.
  pose proof synced_ok as [[[Hr%ran_eq Hsz%Z.ltb_lt]%andb_prop Ho]%andb_prop Hc]%andb_prop. split_and!; [assumption..| |assumption].
  revert Ho. generalize (sh_orphans (net_node (ran synced)) !! 777). intros [v|] Ho; [|discriminate].
  apply existsb_exists in Ho as (o & Ho%list_elem_of_In & _). exists v, o. split; [reflexivity|assumption].
Qed.
End NodeExample.

Section witnesses.
#[local] Existing Instances ChainExample.ex_crypto ChainExample.ex_dual ChainExample.ex_body ChainExample.ex_env
  NodeExample.ex_pool_env NodeExample.ex_net_env NodeExample.ex_net_ok.
Import NodeExample.

Lemma node_bounded_witness : is_Some (net_run w0 (session synced)) ∧ node_ok (net_node (ran synced)).
Proof.
  pose proof synced_facts as (Hr & _).
  exact (conj (proj2 (node_bounded ChainExample.start bans (session synced)) eq_refl)
              (proj1 (node_bounded ChainExample.start bans (session synced)) _ Hr)).
Defined.

Lemma node_chain_reachable_witness : chain_ok Ledger_default (sh_state (net_node (ran synced))).
Proof.
  pose proof synced_facts as (Hr & Hsz & _).
  refine (proj2 (node_chain_reachable Ledger_default bans (session synced) (ran synced) _ Hr Hsz)).
  repeat constructor; discriminate.
Defined.

Lemma orphans_not_stuck_witness : 777 ∉ dom (cs_dag (sh_state (net_node (ran synced)))).
Proof.
  pose proof synced_facts as (Hr & _ & (v & o & Hv & Ho) & _).
  refine (proj2 (orphans_not_stuck ChainExample.start bans (session synced) (ran synced) 777 v o _ Hr Hv Ho)).
  repeat constructor; discriminate.
Defined.

Lemma ingest_penalty_witness :
  ∃ pen n' budget', ingest_block tick (net_node w0) None ChainExample.first_block = Some (pen, n', budget') ∧
    pen = 0 ∧ block_hash ChainExample.first_block ∈ dom (cs_dag (sh_state n')).
Proof.
  pose proof synced_facts as (_ & _ & _ & Hc).
  destruct (ingest_total tick (net_node w0) None ChainExample.first_block eq_refl (new_node_ok _ _)) as [[[pen n'] bu] Hi].
  exists pen, n', bu. split; [exact Hi|].
  exact (proj1 (proj2 (ingest_penalty tick (net_node w0) None ChainExample.first_block pen n' bu eq_refl Hi)) Hc eq_refl).
Defined.
End witnesses.
