(* ===== verification/NodeSafety.v ===== *)
(** * The peer-to-peer node: bans, pruning points and shut-out peers

    What every handler preserves, stated once for any relation its primitive steps
    respect; with it, that banned peers stay out and that the pruning point moves only
    to more work.  Then the situations in which a node stops asking or punishes honest
    peers. *)

From S2P Require Import Prelude Genesis Crypto Address Predicate Utxo UtxoTx Registry Custody Block Ledger.
From S2P Require Import Dag Ghostdag Reachability Reindex ReachBuild Determinism FeeHistory Stark Superproof State Chain ChainInv.
From S2P Require Import Admission Sync Mempool FeeEstimate AccountPool Net AddrMan P2p Dispatch P2pInv NodeInv.

Section safety.
Context `{!Crypto, !DualCrypto, !BodyCodec, !NodeEnv, !PoolEnv, !NetEnv, !NetEnvOk}.

(** ** What every handler preserves *)

(** A preorder that holds across the primitive steps of the handlers. *)
Record stable (R : Shared → Shared → Prop) : Prop := {
  st_pre :: PreOrder R;
  st_outbox n x : R n (with_outbox n x);
  st_state n x : R n (with_state n x);
  st_orphans n x : R n (with_orphans n x);
  st_bodies n x : R n (with_in_flight_bodies n x);
  st_tx_gets n x : R n (with_in_flight_tx_gets n x);
  st_headers n x : R n (with_pending_headers n x);
  st_compact n x : R n (with_pending_compact n x);
  st_connected n x : R n (with_connected_addrs n x);
  st_expecting_proof n x : R n (with_expecting_pruning_proof n x);
  st_expecting_ledger n x : R n (with_expecting_pruning_ledger n x);
  st_verified n x : R n (with_verified_pruning_point n x);
  st_work n x : R n (with_best_pruning_work n x);
  st_remember n a : R n (remember_addr n a);
  st_dial t n a : R n (dial t n a);
}.

Section stable.
Context (R : Shared → Shared → Prop) (HR : stable R).
Let R_pre : PreOrder R := st_pre R HR.
#[local] Existing Instance R_pre.

(** Peel primitive steps off the right-hand side. *)
Ltac peel := repeat first
  [ reflexivity
  | apply (st_outbox R HR) | apply (st_state R HR) | apply (st_orphans R HR) | apply (st_bodies R HR)
  | apply (st_tx_gets R HR) | apply (st_headers R HR) | apply (st_compact R HR) | apply (st_connected R HR)
  | apply (st_expecting_proof R HR) | apply (st_expecting_ledger R HR) | apply (st_verified R HR) | apply (st_work R HR)
  | apply (st_remember R HR) | apply (st_dial R HR)
  | etrans; [|apply (st_outbox R HR)] | etrans; [|apply (st_state R HR)] | etrans; [|apply (st_orphans R HR)]
  | etrans; [|apply (st_bodies R HR)] | etrans; [|apply (st_tx_gets R HR)] | etrans; [|apply (st_headers R HR)]
  | etrans; [|apply (st_compact R HR)] | etrans; [|apply (st_connected R HR)]
  | etrans; [|apply (st_expecting_proof R HR)] | etrans; [|apply (st_expecting_ledger R HR)]
  | etrans; [|apply (st_verified R HR)] | etrans; [|apply (st_work R HR)]
  | etrans; [|apply (st_remember R HR)] | etrans; [|apply (st_dial R HR)] ].

Lemma stable_foldl {A} (f : Shared → A → Shared) l n : (∀ n x, R n (f n x)) → R n (foldl f n l).
Proof. intros Hf. revert n. induction l as [|x l IH]; intros n; [done|]. cbn [foldl]. etrans; [apply Hf|apply IH]. Qed.
Lemma stable_request_block_body n c h : R n (request_block_body n c h).
Proof. unfold request_block_body, send. repeat case_match; peel. Qed.
Lemma stable_request_tx_pull n c h u : R n (request_tx_pull n c h u).
Proof. unfold request_tx_pull, send. repeat case_match; peel. Qed.
Lemma stable_backfill n m : R n (backfill n m).
Proof.
  revert n. induction m as [|p m IH]; intros n; [done|]. cbn [backfill]. destruct (negb _); [apply IH|]. destruct (_ <=? _); [peel|].
  case_bool_decide; (etrans; [|apply IH]); unfold broadcast; peel.
Qed.
Lemma stable_ingest_one t n budget pen b d : R n (ingest_one t n budget pen b d).1.1.1.
Proof.
  unfold ingest_one. destruct (have n (block_hash b)); [done|].
  assert (∀ m, R n (buffer_orphan t n m b (block_hash b))) as Hb by (intros m; unfold buffer_orphan; case_match; peel).
  destruct (precheck_block (sh_state n) b) as [[]|e].
  - set (bu := match budget with Some _ => _ | None => _ end). destruct bu as [within budget']. destruct (negb within); [done|].
    destruct (add_block _ _ b) as [s|e].
    + cbn [fst]. unfold broadcast_compact_block, broadcast, clear_body_inflight. peel.
    + destruct (str_contains _ _); [|done]. cbn [fst]. etrans; [apply Hb|]. apply stable_foldl. intros m p. unfold broadcast. case_match; peel.
  - destruct (str_contains _ _); [|done]. cbn [fst]. etrans; [apply Hb|apply stable_backfill].
Qed.
Lemma stable_ingest_loop fuel t n budget pen queue pen' n' budget' :
  ingest_loop fuel t n budget pen queue = Some (pen', n', budget') → R n n'.
Proof.
  revert n budget pen queue. induction fuel as [|fuel IH]; intros n budget pen [|[b d] queue]; cbn [ingest_loop];
    [by intros [= _ <- _]|done|by intros [= _ <- _]|].
  pose proof (stable_ingest_one t n budget pen b d) as Ho. destruct (ingest_one t n budget pen b d) as [[[n1 bu1] pen1] un].
  intros Hl%IH. by etrans.
Qed.
Lemma stable_check_header conn acc h : R acc.1.1 (check_header conn acc h).1.1.
Proof.
  unfold check_header. destruct acc as [[n ban] accepted]. destruct (bool_decide _); [reflexivity|].
  destruct (precheck_header _ _); [reflexivity|]. destruct (str_contains _ _); [|destruct (junk_header _); reflexivity]. cbn [fst]. apply stable_foldl. intros m p. apply stable_request_block_body.
Qed.
Lemma stable_on_headers n conn headers : R n (on_headers n conn headers).2.
Proof.
  unfold on_headers. destruct (_ <? _); [done|].
  assert (∀ acc, R acc.1.1 (foldl (check_header conn) acc headers).1.1) as Hf.
  { induction headers as [|h hs IH]; intros acc; [done|]. cbn [foldl]. etrans; [apply stable_check_header|apply IH]. }
  specialize (Hf (n, 0, [])). destruct (foldl _ _ headers) as [[n1 ban] acc]. cbn [fst] in Hf. case_bool_decide; [done|]. cbn [snd].
  etrans; [exact Hf|]. etrans; [apply (st_headers R HR n1 (add_pending (sh_pending_headers n1) acc))|]. generalize (ranked_headers (add_pending (sh_pending_headers n1) acc)).
  generalize (with_pending_headers n1 (add_pending (sh_pending_headers n1) acc)). intros m l. revert m.
  induction l as [|h l IH]; intros m; [reflexivity|]. cbn [request_ranked]. destruct (_ <=? _); [reflexivity|].
  etrans; [apply stable_request_block_body|apply IH].
Qed.
Lemma stable_record n s work pp : R n (record_pruning_point n s work pp).
Proof. unfold record_pruning_point. case_match; peel. Qed.
Lemma stable_on_hello n conn listen version magic chain_id blue_score listen_addr :
  R n (on_hello n conn listen version magic chain_id blue_score listen_addr).1.2.
Proof.
  unfold on_hello, send. destruct (_ || _); [reflexivity|].
  assert (∀ m l, R m ((0, send (if our_blue_score m <? blue_score then
    send (if bool_decide (sh_verified_pruning_point m = None) then
      send (send (with_expecting_pruning_proof m true) conn MGetPruningProof) conn MGetMultiLevelPruningProof else m) conn MGetTips
    else m) conn MGetAddr, l) : Z * Shared * option bytes).1.2) as Hs.
  { intros m l. unfold send. cbn [fst snd]. destruct (_ <? _); [destruct (bool_decide _)|]; peel. }
  destruct listen_addr as [a|]; cbn beta iota; [|apply Hs]. etrans; [apply (st_remember R HR n a)|]. etrans; [|apply Hs]. peel.
Qed.
#[local] Opaque record_pruning_point.
Lemma stable_linear t n conn headers : R n (on_pruning_proof t n conn headers).2.
Proof.
  unfold on_pruning_proof, send. destruct (negb _); [done|]. destruct (verify_pruning_proof _ _ _); [|done]. cbv zeta.
  destruct (is_err _); [cbn [snd]; peel|]. destruct (_ <=? _); [cbn [snd]; peel|].
  destruct (import_verified_pruning_headers _ _) as [[pp s]|]; [|done]. cbn [snd]. peel. apply stable_record.
Qed.
Lemma stable_multilevel t n conn proof : R n (on_multilevel_proof t n conn proof).2.
Proof.
  unfold on_multilevel_proof, adopt_multilevel_pruning_proof_fresh, adopt_multilevel, send. destruct (negb _); [done|].
  destruct (verify_multilevel_pruning_proof _ _ _); [|done]. cbn [mbind result_bind]. destruct (ok_or _ _); [|done]. cbn [mbind result_bind].
  destruct (check_ibd_proof_freshness _ _ _ _ _); [|done]. cbn [mbind result_bind]. cbv zeta. destruct (_ <=? _); [cbn [snd]; peel|].
  destruct (import_verified_pruning_headers _ _) as [[pp s]|]; [|done]. cbn [snd].
  destruct (sh_verified_pruning_point _); peel; apply stable_record.
Qed.
Lemma stable_ledger n msg : R n (on_pruning_ledger n msg).2.
Proof. unfold on_pruning_ledger. destruct (negb _); [done|]. destruct (adopt_pruning_point_ledger _ _); [|done]. cbn [snd]. peel. Qed.
#[local] Transparent record_pruning_point.
Lemma dispatch_stable t n conn listen budget msg pen n' listen' budget' :
  dispatch t n conn listen budget msg = Some (pen, n', listen', budget') → R n n'.
Proof.
  destruct msg; cbn [dispatch]; rewrite ?relay_transparent_off, ?relay_all_off, ?with_state_same by done; cbn [mbind option_bind fst snd].
  - pose proof (stable_on_hello n conn listen version magic chain_id blue_score listen_addr) as Hh.
    destruct (on_hello _ _ _ _ _ _ _ _) as [[p m] l]. by intros [= _ <- _ _].
  - unfold on_get_addr, send. case_bool_decide; intros [= _ <- _ _]; peel.
  - intros [= _ <- _ _]. apply stable_foldl. intros m a. peel.
  - intros [= _ <- _ _]. unfold send. peel.
  - intros [= _ <- _ _]. apply stable_foldl. intros m h. apply stable_request_block_body.
  - intros [= _ <- _ _]. unfold on_get_block, send. peel.
  - destruct (ingest_block t n budget b) as [[[p m] bu]|] eqn:Hi; [|done]. cbn [mbind option_bind]. intros [= _ <- _ _].
    apply stable_ingest_loop in Hi. unfold clear_body_inflight. peel. exact Hi.
  - intros [= _ <- _ _]. apply stable_request_block_body.
  - intros [= _ <- _ _]. unfold clear_tx_inflight, clear_body_inflight. peel.
  - intros [= _ <- _ _]. unfold clear_tx_inflight. peel.
  - intros [= _ <- _ _]. unfold on_tx_inv. case_match; [done|apply stable_request_tx_pull].
  - intros [= _ <- _ _]. unfold on_get_tx, send. peel.
  - by intros [= _ <- _ _].
  - unfold relay_utxo. destruct (admit_utxo_to_mempool _ _ _). intros [= _ <- _ _]. unfold clear_tx_inflight. peel.
  - intros [= _ <- _ _]. unfold on_utxo_tx_inv. case_match; [done|apply stable_request_tx_pull].
  - intros [= _ <- _ _]. unfold on_get_utxo_tx, send. peel.
  - unfold on_compact_block. rewrite relay_all_off by done. cbn [mbind option_bind].
    destruct (reconstruct_from_mempool _ _ _) as [filled missing]. intros [= _ <- _ _].
    destruct (should_fetch _ _); [etrans; [|apply stable_request_block_body]|]; case_bool_decide; unfold send, remember_compact; peel.
  - intros [= _ <- _ _]. unfold on_get_block_txn, send. case_match; peel.
  - unfold on_block_txn. rewrite relay_all_off by done. cbn [mbind option_bind fst snd]. intros [= _ <- _ _]. peel.
  - intros [= _ <- _ _]. unfold on_get_headers, send. case_bool_decide; peel.
  - intros [= _ <- _ _]. apply stable_on_headers.
  - intros [= _ <- _ _]. unfold send. peel.
  - by intros [= _ <- _ _].
  - by intros [= _ <- _ _].
  - intros [= _ <- _ _]. unfold on_get_pruning_proof, send. case_match; peel.
  - intros [= _ <- _ _]. apply stable_linear.
  - intros [= _ <- _ _]. unfold on_get_multilevel, on_get_pruning_proof, send. repeat case_match; peel.
  - intros [= _ <- _ _]. apply stable_multilevel.
  - intros [= _ <- _ _]. unfold on_get_pruning_ledger, send. repeat case_match; peel.
  - intros [= _ <- _ _]. apply stable_ledger.
  - by intros [= _ <- _ _].
Qed.
End stable.

(** ** Banned peers stay out *)

(** Bans are kept, and no banned address is dialled. *)
Record keeps_bans (n n' : Shared) : Prop := {
  kb_ips : sh_ip_bans n' = sh_ip_bans n;
  kb_addrs : sh_banned_addrs n' = sh_banned_addrs n;
  kb_dials : ∃ l, sh_dials n' = sh_dials n ++ l ∧ Forall (λ a, a ∉ sh_banned_addrs n) l;
}.
Lemma keeps_same n n' :
  sh_ip_bans n' = sh_ip_bans n → sh_banned_addrs n' = sh_banned_addrs n → sh_dials n' = sh_dials n → keeps_bans n n'.
Proof. intros Hi Ha Hd. split; [done|done|]. exists []. rewrite app_nil_r. split; [done|constructor]. Qed.
Lemma keeps_bans_stable : stable keeps_bans.
Proof.
  split; try (intros; by apply keeps_same).
  - split; [intros n; by apply keeps_same|]. intros a b c [Hi1 Ha1 (l1 & Hd1 & Hl1)] [Hi2 Ha2 (l2 & Hd2 & Hl2)].
    split; [congruence..|]. exists (l1 ++ l2). rewrite Hd2, Hd1, app_assoc. split; [done|]. rewrite Forall_app. split; [done|]. by rewrite <- Ha1.
  - intros n a. unfold remember_addr. repeat case_match; by apply keeps_same.
  - intros t n a. unfold dial. destruct (negb _); [by apply keeps_same|]. destruct (_ <=? _); [by apply keeps_same|].
    case_bool_decide; [by apply keeps_same|]. case_bool_decide as Hb; [by apply keeps_same|]. case_bool_decide; [by apply keeps_same|].
    cbv zeta. destruct (tk_connects t a); [|by apply keeps_same]. split; [done|done|]. exists [a]. split; [done|]. by apply Forall_singleton.
Qed.

(** What holds of a banned address and socket between two instants. *)
Record shut_out (T : Z) (ip : IpAddr) (a : bytes) (n : Shared) : Prop := {
  so_ip : ∃ u, banned (sh_ip_bans n) !! ip = Some u ∧ T <= u;
  so_addr : a ∈ sh_banned_addrs n;
}.
(** The clock readings of an event lie in a window; the operator does not connect to
    [a]. *)
Definition event_within (t0 T : Z) (a : bytes) (e : Event) : Prop :=
  match e with
  | EOpen t _ _ _ _ => tk_instant t < T
  | EReceive _ t _ _ _ => t0 <= tk_instant t
  | EConnect b => b ≠ a
  | _ => True
  end.
(** How a step treats the shut-out: it stays, and [a] is not dialled. *)
Definition spares (T : Z) (ip : IpAddr) (a : bytes) (n n' : Shared) : Prop :=
  shut_out T ip a n' ∧ ban_ttl (sh_ip_bans n') = ban_ttl (sh_ip_bans n) ∧ ∃ l, sh_dials n' = sh_dials n ++ l ∧ a ∉ l.

Lemma keeps_spares T ip a n n' : keeps_bans n n' → shut_out T ip a n → spares T ip a n n'.
Proof.
  intros [Hi Ha (l & Hd & Hl)] [Hip Hin]. split; [split; [by rewrite Hi|by rewrite Ha]|]. split; [by rewrite Hi|].
  exists l. split; [done|]. rewrite Forall_forall in Hl. intros Hal. by apply (Hl a Hal).
Qed.
Lemma spares_trans T ip a n n1 n' : spares T ip a n n1 → spares T ip a n1 n' → spares T ip a n n'.
Proof.
  intros (_ & Ht1 & l1 & Hd1 & Hl1) (Hs & Ht2 & l2 & Hd2 & Hl2). split; [done|]. split; [congruence|]. exists (l1 ++ l2).
  rewrite Hd2, Hd1, app_assoc. split; [done|]. set_solver.
Qed.

Lemma ban_spares T ip a t n ss :
  shut_out T ip a n → T <= tk_instant t + ban_ttl (sh_ip_bans n) → spares T ip a n (ban_peer t n ss).
Proof.
  intros [(u & Hu & Hle) Hin] Ht. unfold ban_peer. set (m := match ss_listen ss with Some _ => _ | None => _ end).
  assert (sh_ip_bans m = sh_ip_bans n ∧ a ∈ sh_banned_addrs m ∧ sh_dials m = sh_dials n) as (Hi & Ha & Hd).
  { unfold m. destruct (ss_listen ss); [|done]. destruct (_ <? _); simpl; [|done]. split; [done|]. split; [set_solver|done]. }
  clearbody m. split_and!; [split| |].
  - destruct (ss_ip ss) as [x|]; [|exists u; by rewrite Hi]. cbn [sh_ip_bans with_ip_bans ban banned]. rewrite Hi.
    destruct (decide (x = ip)) as [->|Hne]; [rewrite lookup_insert_eq; eexists; split; [done|lia]|].
    rewrite lookup_insert_ne by done. by exists u.
  - by destruct (ss_ip ss).
  - destruct (ss_ip ss); simpl; by rewrite Hi.
  - exists []. rewrite app_nil_r. split; [by destruct (ss_ip ss)|apply not_elem_of_nil].
Qed.

Lemma open_refused t n conn ip dialed auth T a :
  shut_out T ip a n → tk_instant t < T → (open_conn t n conn (Some ip) dialed auth).2 = None.
Proof.
  intros [(u & Hu & Hle) _] Ht. unfold open_conn, is_banned. cbv zeta.
  rewrite bool_decide_eq_true_2; [done|]. exists u. apply map_lookup_filter_Some. split; [done|]. simpl. lia.
Qed.
Lemma open_spares t n conn ip0 dialed auth T ip a :
  shut_out T ip a n → tk_instant t < T → spares T ip a n (open_conn t n conn ip0 dialed auth).1.
Proof.
  intros Hso Ht. unfold open_conn.
  set (x := match ip0 with Some ip => _ | None => _ end).
  assert (spares T ip a n x.2) as Hx.
  { unfold x. destruct ip0 as [i|]; [|by apply keeps_spares; [apply keeps_same|]]. destruct Hso as [(u & Hu & Hle) Ha]. unfold is_banned. cbn [snd].
    split_and!; [split; [|done]|done|exists []; rewrite app_nil_r; split; [done|apply not_elem_of_nil]].
    exists u. split; [|done]. cbn [sh_ip_bans with_ip_bans banned]. apply map_lookup_filter_Some. split; [done|]. simpl. lia. }
  destruct x as [r m]. cbn [snd] in Hx. destruct r; [done|]. destruct (negb auth); [done|]. destruct (_ <=? _); [done|].
  destruct (_ && _); [done|]. cbn [fst]. eapply spares_trans; [exact Hx|]. apply keeps_spares; [|apply Hx].
  destruct keeps_bans_stable. unfold send. destruct dialed as [d|]; cbn [from_option]; [|by apply keeps_same].
  match goal with |- keeps_bans m (with_outbox (with_outbox (remember_addr ?k d) _) _) =>
    etrans; [|etrans; [apply (st_remember0 k d)|by apply keeps_same]]; by apply keeps_same end.
Qed.

Lemma decay_ip x ss : ss_ip (decay x ss) = ss_ip ss.
Proof. unfold decay. by case_match. Qed.
Lemma receive_spares t0 t n conn ss plen msg n' ss' go T ip a :
  receive t0 t n conn ss plen msg = Some (n', ss', go) → shut_out T ip a n → T <= tk_instant t + ban_ttl (sh_ip_bans n) →
  spares T ip a n n' ∧ ss_ip ss' = ss_ip ss.
Proof.
  intros Hr Hso Ht. unfold receive in Hr. assert (∀ x, ss_ip (decay x ss) = ss_ip ss) as Hip by (intros x; apply decay_ip).
  assert (spares T ip a n n) as Hn by (by apply keeps_spares; [apply keeps_same|]).
  destruct (negb (message_within_type_cap _ _)); [injection Hr as <- <- _; split; [done|apply Hip]|].
  destruct (record_message _ _) as [within rate]. destruct (negb within); [injection Hr as <- <- _; split; [done|apply Hip]|].
  destruct (dispatch _ _ _ _ _ _) as [[[[pen n1] l1] bu1]|] eqn:Hd; [|done]. cbn [mbind option_bind] in Hr.
  apply (dispatch_stable _ keeps_bans_stable) in Hd. assert (spares T ip a n n1) as H1'.
  { apply keeps_spares; [|done]. destruct keeps_bans_stable. etrans; [|exact Hd]. destruct msg; by apply keeps_same. }
  destruct (_ <=? _); injection Hr as <- <- _; (split; [|apply Hip]); [|done].
  eapply spares_trans; [exact H1'|]. destruct H1' as (Hso1 & Ht1 & _). apply ban_spares; [done|by rewrite Ht1].
Qed.

Lemma keeps_dial_known t n l : keeps_bans n (dial_known t n l).
Proof.
  destruct keeps_bans_stable as [Hpre]. revert n. induction l as [|x l IH]; intros n; [reflexivity|]. cbn [dial_known].
  destruct (_ <=? _); [reflexivity|]. etrans; [apply st_dial0|apply IH].
Qed.
Lemma step_spares t0 T ip a w e w' :
  net_step w e = Some w' → event_within t0 T a e → T <= t0 + ban_ttl (sh_ip_bans (net_node w)) → shut_out T ip a (net_node w) →
  spares T ip a (net_node w) (net_node w') ∧
  (∀ c s', net_sessions w' !! c = Some s' → ss_ip s' = Some ip → ∃ s, net_sessions w !! c = Some s ∧ ss_ip s = Some ip).
Proof.
  intros Hs He Ht Hso. pose proof keeps_bans_stable as Hst. destruct (Hst) as [Hpre]. assert (∀ n', keeps_bans (net_node w) n' → spares T ip a (net_node w) n') as Hk
    by (intros n' Hn'; by apply keeps_spares).
  assert (∀ P : Prop, P → P ∧ (∀ c s', net_sessions w !! c = Some s' → ss_ip s' = Some ip → ∃ s, net_sessions w !! c = Some s ∧ ss_ip s = Some ip)) as Hse
    by (intros P HP; split; [done|]; intros c s' Hc Hi; by exists s').
  assert (∀ conn ss n, keeps_bans n (close_conn n conn ss)) as Hcl by (intros conn ss n; unfold close_conn; case_match; by apply keeps_same).
  destruct e; cbn [net_step event_within] in *.
  - destruct (bool_decide _); [injection Hs as <-; apply Hse, Hk; done|].
    pose proof (open_spares t (net_node w) conn ip0 dialed authenticated T ip a Hso He) as Ho.
    assert (ip0 = Some ip → (open_conn t (net_node w) conn ip0 dialed authenticated).2 = None) as Hre
      by (intros ->; by eapply open_refused).
    assert (∀ s0, (open_conn t (net_node w) conn ip0 dialed authenticated).2 = Some s0 → ss_ip s0 = ip0) as Hip0.
    { intros s0. unfold open_conn. destruct (match ip0 with Some _ => _ | None => _ end) as [r m]. destruct r; [done|].
      destruct (negb _); [done|]. destruct (_ <=? _); [done|]. destruct (_ && _); [done|]. by intros [= <-]. }
    destruct (open_conn _ _ _ _ _ _) as [n s]. injection Hs as <-. split; [exact Ho|]. cbn [with_node net_sessions fst snd] in *.
    intros c s' Hc Hi. destruct s as [s|]; [|by exists s']. destruct (decide (c = conn)) as [->|Hne].
    + rewrite lookup_insert_eq in Hc. injection Hc as <-. rewrite (Hip0 s eq_refl) in Hi. by specialize (Hre Hi).
    + rewrite lookup_insert_ne in Hc by done. by exists s'.
  - destruct (net_sessions w !! conn) as [s|] eqn:Hconn; [|injection Hs as <-; apply Hse, Hk; done].
    destruct (receive _ _ _ _ _ _ _) as [[[n s'] go]|] eqn:Hr; [|done]. cbn [mbind option_bind] in Hs. injection Hs as <-.
    destruct (receive_spares _ _ _ _ _ _ _ _ _ _ T ip a Hr Hso) as [Hsp Hip]; [lia|]. destruct go; cbn [with_node net_node net_sessions].
    + split; [done|]. intros c s1 Hc Hi. destruct (decide (c = conn)) as [->|Hne].
      * rewrite lookup_insert_eq in Hc. injection Hc as <-. exists s. split; [done|]. by rewrite <- Hip.
      * rewrite lookup_insert_ne in Hc by done. by exists s1.
    + split; [eapply spares_trans; [exact Hsp|]; apply keeps_spares; [apply Hcl|apply Hsp]|].
      intros c s1 [_ Hc]%lookup_delete_Some Hi. by exists s1.
  - destruct (net_sessions w !! conn) as [s|] eqn:Hconn; injection Hs as <-; [|apply Hse, Hk; done].
    split; [apply Hk, Hcl|]. cbn [with_node net_node net_sessions]. intros c s1 [_ Hc]%lookup_delete_Some Hi. by exists s1.
  - injection Hs as <-. apply Hse, Hk. unfold discover. destruct (_ <=? _); [reflexivity|]. cbn [with_node net_node].
    etrans; [apply (st_outbox _ Hst)|apply keeps_dial_known].
  - injection Hs as <-. unfold announce_tip. case_bool_decide; [apply Hse, Hk; done|]. apply Hse, Hk. cbn [net_node].
    destruct (selected_tip _ _); [apply (st_outbox _ Hst)|done].
  - injection Hs as <-. unfold announce_mempool. apply Hse, Hk. cbn [net_node].
    etrans; [|apply (stable_foldl _ Hst); intros; apply (st_outbox _ Hst)]. apply (stable_foldl _ Hst). intros; apply (st_outbox _ Hst).
  - injection Hs as <-. apply Hse, Hk. cbn [with_node net_node]. unfold request_proof. destruct linear_only; by apply keeps_same.
  - injection Hs as <-. apply Hse, Hk. by apply keeps_same.
  - injection Hs as <-. apply Hse. cbn [with_node net_node]. unfold connect_to. eapply spares_trans; [apply Hk, (st_remember _ Hst _ addr)|].
    pose proof (keeps_spares T ip a _ _ (st_remember _ Hst (net_node w) addr) Hso) as ([Hip Ha] & _ & _).
    split; [by split|]. split; [done|]. exists [addr]. split; [done|]. set_solver.
  - injection Hs as <-. destruct (add_block _ _ _); [|apply Hse, Hk; done]. apply Hse, Hk, (st_state _ Hst).
  - injection Hs as <-. apply Hse, Hk, (st_state _ Hst).
Qed.

(** C22. A peer banned for its score stays out.  Suppose a connection with a known socket
    address, over which an address was advertised, is closed because the peer's score
    reached the threshold after a message was handled (a close in which the last points came
    from an oversized message bans nothing), and the list of banned addresses holds fewer
    than [MAX_KNOWN_ADDRS] entries at that time (its entries never expire, and a full list
    does not record the address).  Then while the socket ban lasts no event opens a
    connection from that socket address (every one that remains was open before), and the advertised address is not dialled, unless the operator connects to
    it by hand; what its old connections or other peers send changes nothing about it. *)
Theorem banned_stays_out t n conn ss w es w' ip a :
  net_node w = close_conn (ban_peer t n ss) conn ss → ss_ip ss = Some ip → ss_listen ss = Some a →
  Z.of_nat (size (sh_banned_addrs n)) < MAX_KNOWN_ADDRS →
  Forall (event_within (tk_instant t) (tk_instant t + ban_ttl (sh_ip_bans n)) a) es → net_run w es = Some w' →
  (∀ c s', net_sessions w' !! c = Some s' → ss_ip s' = Some ip → ∃ s, net_sessions w !! c = Some s ∧ ss_ip s = Some ip) ∧
  (∃ l, sh_dials (net_node w') = sh_dials (net_node w) ++ l ∧ a ∉ l).
Proof.
  intros Hw Hip Ha Hroom Hes Hrun. set (T := tk_instant t + ban_ttl (sh_ip_bans n)) in *.
  assert (shut_out T ip a (net_node w) ∧ ban_ttl (sh_ip_bans (net_node w)) = ban_ttl (sh_ip_bans n)) as [Hso Httl].
  { rewrite Hw. unfold close_conn, ban_peer. rewrite Hip, Ha. cbv zeta. rewrite (proj2 (Z.ltb_lt _ _) Hroom). split; [split|done].
    - exists T. split; [|done]. simpl. by rewrite lookup_insert_eq.
    - simpl. set_solver. }
  assert (spares T ip a (net_node w) (net_node w') ∧
    (∀ c s', net_sessions w' !! c = Some s' → ss_ip s' = Some ip → ∃ s, net_sessions w !! c = Some s ∧ ss_ip s = Some ip)) as [(_ & _ & Hd) Hs];
    [|by split].
  revert Hrun. apply (net_run_ind (λ w', spares T ip a (net_node w) (net_node w') ∧
    (∀ c s', net_sessions w' !! c = Some s' → ss_ip s' = Some ip → ∃ s, net_sessions w !! c = Some s ∧ ss_ip s = Some ip))).
  - split; [|intros c s' Hc Hi; by exists s']. by apply keeps_spares; [apply keeps_same|].
  - intros w1 e w2 Hin [Hsp Hse] Hst. rewrite Forall_forall in Hes. destruct Hsp as (Hso1 & Ht1 & Hd1) eqn:E. clear E.
    destruct (step_spares (tk_instant t) T ip a w1 e w2 Hst (Hes e Hin)) as [Hsp2 Hse2]; [rewrite Ht1, Httl; done|done|].
    split; [by eapply spares_trans; [split_and!; [exact Hso1|exact Ht1|exact Hd1]|]|].
    intros c s' Hc Hi. destruct (Hse2 c s' Hc Hi) as (s1 & Hc1 & Hi1). by apply (Hse c s1).
Qed.

(** ** The pruning point *)

(** C23. The pruning point of a node only moves to more work: across any events, the
    verified work behind it never falls, and whenever the point changed it rose
    strictly. *)
Theorem pruning_point_monotone s bans es es' w w' :
  net_run (Net_new s bans) es = Some w → net_run w es' = Some w' →
  sh_best_pruning_work (net_node w) <= sh_best_pruning_work (net_node w') ∧
  (sh_verified_pruning_point (net_node w') ≠ sh_verified_pruning_point (net_node w) →
   sh_best_pruning_work (net_node w) < sh_best_pruning_work (net_node w')).
Proof.
  intros Hw Hw'. assert (node_ok (net_node w)) as Hok.
  { revert Hw. apply (net_run_ind (λ w, node_ok (net_node w))); [apply new_node_ok|].
    intros w1 e w2 _ Hok Hs. by apply (net_step_good _ _ _ Hs). }
  assert (node_ok (net_node w') ∧ work_grows (net_node w) (net_node w')) as [_ Hg].
  - revert Hw'. apply (net_run_ind (λ w', node_ok (net_node w') ∧ work_grows (net_node w) (net_node w'))); [split; [done|by left]|].
    intros w1 e w2 _ [Hok1 Hg1] Hs. destruct (net_step_good _ _ _ Hs Hok1) as [Hok2 Hc]. split; [done|].
    assert (work_grows (net_node w1) (net_node w2)) as Hg2.
    { destruct Hc as [Hc|[_ _ Hwk Hv]]; [|by left]. destruct (event_reach e); cbn [changes] in Hc.
      - destruct Hc as [_ _ ? ?]. by left.
      - destruct Hc as [p [_ _ ? ?]]. by left.
      - destruct Hc as (_ & ? & ?). by left.
      - destruct Hc as [[_ _ ? ?]|(_ & _ & ?)]; [by left|done]. }
    unfold work_grows in *. destruct Hg1 as [[? ?]|Hlt1], Hg2 as [[? ?]|Hlt2]; [left; split; congruence|right; lia..].
  - unfold work_grows in Hg. split; [destruct Hg as [[_ ?]|?]; lia|]. intros Hne. by destruct Hg as [[He _]|?].
Qed.
(** ** Where honest peers lose *)

(** The body requests in flight fill the budget and are all still wanted. *)
Definition starved (n : Shared) : Prop :=
  MAX_IN_FLIGHT_BODIES <= Z.of_nat (size (sh_in_flight_bodies n)) ∧ ∀ h, h ∈ sh_in_flight_bodies n → should_fetch n h = true.
Lemma starved_wanted n : starved n → with_in_flight_bodies n (still_wanted n) = n.
Proof.
  intros [_ Hw]. assert (still_wanted n = sh_in_flight_bodies n) as ->; [|by destruct n]. unfold still_wanted. apply leibniz_equiv.
  intros h. rewrite elem_of_filter. split; [tauto|]. auto.
Qed.
Lemma starved_request n conn h : starved n → request_block_body n conn h = n.
Proof.
  intros Hs. unfold request_block_body. destruct (negb _); [done|]. cbv zeta. pose proof (starved_wanted n Hs) as He.
  assert (sh_in_flight_bodies n = still_wanted n) as Hi by (rewrite <- He at 1; done). rewrite He, <- Hi.
  by rewrite (proj2 (Z.leb_le _ _) (proj1 Hs)).
Qed.
Lemma starved_backfill n l : starved n → backfill n l = n.
Proof.
  intros Hs. induction l as [|p l IH]; [done|]. cbn [backfill]. destruct (negb _); [done|]. pose proof (starved_wanted n Hs) as He.
  assert (sh_in_flight_bodies n = still_wanted n) as Hi by (rewrite <- He at 1; done). rewrite He, <- Hi.
  by rewrite (proj2 (Z.leb_le _ _) (proj1 Hs)).
Qed.
Lemma starved_ranked n conn l : starved n → request_ranked n conn l = n.
Proof. intros Hs. destruct l; [done|]. cbn [request_ranked]. by rewrite (proj2 (Z.leb_le _ _) (proj1 Hs)). Qed.

(** Requests for made-up blocks are never given up: while the hashes of a full set
    of requests stay unknown, the node asks nobody for any block, whatever is announced
    and however much time passes; an announcement, a list of tips and the backfill of
    an orphan change nothing at all, and neither the end of the connections that
    announced the hashes nor a fresh connection releases them.  Requests for
    transactions stop the same way. *)
Theorem fetch_starvation t n conn listen budget h hs :
  starved n →
  dispatch t n conn listen budget (MInv h) = Some (0, n, listen, budget) ∧
  dispatch t n conn listen budget (MTips hs) = Some (0, n, listen, budget) ∧
  backfill n hs = n ∧ request_ranked n conn hs = n ∧
  (∀ c ss, starved (close_conn n c ss)) ∧ (∀ c ip d auth, starved (open_conn t n c ip d auth).1).
Proof.
  intros Hs. assert (∀ m, sh_in_flight_bodies m = sh_in_flight_bodies n → sh_state m = sh_state n →
    sh_verified_pruning_point m = sh_verified_pruning_point n → starved m) as Hsame.
  { intros m Hi Hst Hv. unfold starved, should_fetch, have in *. by rewrite Hi, Hst, Hv. }
  split_and!.
  - cbn [dispatch]. by rewrite starved_request.
  - cbn [dispatch]. assert (foldl (λ n h, request_block_body n conn h) n hs = n) as ->; [|done].
    induction hs as [|x hs IH]; [done|]. cbn [foldl]. by rewrite starved_request.
  - by apply starved_backfill.
  - by apply starved_ranked.
  - intros c ss. unfold close_conn. destruct (ss_listen ss); by apply Hsame.
  - intros c ip d auth. unfold open_conn. set (x := match ip with Some ip => _ | None => _ end).
    assert (x.2 = n ∨ ∃ l, x.2 = with_ip_bans n l) as Hx by (unfold x; destruct ip; [right; by eexists|by left]).
    destruct x as [r m]. cbn [snd] in Hx. assert (starved m) as Hm by (destruct Hx as [->|[l ->]]; by apply Hsame).
    assert (sh_in_flight_bodies m = sh_in_flight_bodies n ∧ sh_state m = sh_state n ∧
      sh_verified_pruning_point m = sh_verified_pruning_point n) as (Hi & Hst & Hv) by (destruct Hx as [->|[l ->]]; done).
    destruct r; [done|]. destruct (negb _); [done|]. destruct (_ <=? _); [done|]. destruct (_ && _); [done|].
    cbn [fst]. destruct d as [d|]; cbn [from_option]; [|by apply Hsame]. unfold remember_addr.
    repeat match goal with |- context [if ?b then _ else _] => destruct b end; by apply Hsame.
Qed.

(** The headers a pruned node answers with fail the pre-check of every node that
    would admit the block. *)
Lemma header_reply s now b gd :
  check_block s now b = Ok gd →
  ∃ e, precheck_block s (header_only b) = Err e ∧ str_contains "Unknown parent" e = false ∧ str_contains "STARK" e = false.
Proof.
  intros Hc. destruct (precheck_complete _ _ _ _ Hc) as [Hp _]. revert Hp. unfold precheck_block.
  rewrite block_hash_header_only. cbn [header_only blk_parents blk_difficulty blk_timestamp blk_stark_proof].
  destruct (bool_decide (block_hash b ∈ _)); [done|]. intros Hp.
  destruct (negb (verify_size (header_only b))); [by eexists|]. destruct (MAX_BLOCK_BYTES <? wire_size (header_only b)); [by eexists|].
  destruct (negb (verify_size b)); [done|]. destruct (MAX_BLOCK_BYTES <? wire_size b); [done|].
  destruct (bool_decide (blk_parents b = [])); [done|]. destruct (MAX_BLOCK_PARENTS <? _); [done|].
  destruct (precheck_parents _ _ _); [|done]. cbn [mbind result_bind] in *. destruct (negb _); [done|]. destruct (negb _); [done|].
  by eexists.
Qed.

(** A pruned node is penalised for answering: asked for a block whose body it has
    dropped, a node sends the header alone, and a node that would have admitted the
    block charges the sender [INVALID_BLOCK_PENALTY] for it; five such answers reach
    the ban threshold. *)
Theorem pruned_reply_penalised ns t n conn conn' listen budget b gd :
  cs_dag (sh_state ns) !! block_hash b = Some (clear_body b) → check_block (sh_state n) (tk_ms t) b = Ok gd →
  on_get_block ns conn (block_hash b) = send ns conn (MBlock (header_only b)) ∧
  dispatch t n conn' listen budget (MBlock (header_only b)) =
    Some (INVALID_BLOCK_PENALTY, clear_body_inflight n (block_hash b), listen, budget) ∧
  5 * INVALID_BLOCK_PENALTY = BAN_SCORE_THRESHOLD.
Proof.
  intros Hd Hc. split_and!; [| |done].
  - unfold on_get_block, served_block, is_body_pruned. rewrite Hd. done.
  - destruct (header_reply _ _ _ _ Hc) as (e & He & Hu & Hst). cbn [dispatch]. unfold ingest_block.
    assert (∃ k, ingest_fuel n = S (S k)) as [k ->] by (unfold ingest_fuel; by eexists). cbn [ingest_loop].
    unfold ingest_one. unfold have. rewrite block_hash_header_only, (accepted_unknown _ _ _ _ Hc), He, Hu.
    cbn [rev fmap list_fmap app ingest_loop mbind option_bind]. unfold block_ban_penalty. by rewrite Hst.
Qed.

(** A peer can stop a node from ever dialling an address: it says Hello twice, with
    the victim's address first; closing the connection frees the second address only,
    so the first stays reserved, and a reserved address is not dialled. *)
Theorem address_squatting t n conn listen budget score a a' ss :
  a ≠ a' → ss_listen ss = Some a' →
  ∃ n1 n2,
    dispatch t n conn listen budget (MHello PROTOCOL_VERSION WIRE_MAGIC (sh_chain_id n) score (Some a)) =
      Some (0, n1, Some a, budget) ∧
    dispatch t n1 conn (Some a) budget (MHello PROTOCOL_VERSION WIRE_MAGIC (sh_chain_id n) score (Some a')) =
      Some (0, n2, Some a', budget) ∧
    ∀ t', dial t' (close_conn n2 conn ss) a = close_conn n2 conn ss.
Proof.
  intros Hne Hss. assert (∀ m l x, sh_chain_id m = sh_chain_id n → ∃ m',
    dispatch t m conn l budget (MHello PROTOCOL_VERSION WIRE_MAGIC (sh_chain_id n) score (Some x)) = Some (0, m', Some x, budget) ∧
    sh_chain_id m' = sh_chain_id n ∧ sh_connected_addrs m' = {[x]} ∪ sh_connected_addrs m) as Hh.
  { intros m l x Hid. cbn [dispatch]. unfold on_hello. rewrite Hid, Z.eqb_refl, bool_decide_eq_true_2, Z.eqb_refl by done. cbn [negb orb].
    assert (sh_chain_id (remember_addr m x) = sh_chain_id m ∧ sh_connected_addrs (remember_addr m x) = sh_connected_addrs m) as [Hi Hc]
      by (unfold remember_addr; by repeat match goal with |- context [if ?b then _ else _] => destruct b end).
    eexists. split; [reflexivity|]. rewrite <- Hc, <- Hid, <- Hi. destruct (_ <? _); [destruct (bool_decide _)|]; done. }
  destruct (Hh n listen a eq_refl) as (n1 & H1' & Hid1 & Hc1). destruct (Hh n1 (Some a) a' Hid1) as (n2 & H2' & _ & Hc2).
  exists n1, n2. split_and!; [done|done|]. intros t'. unfold dial, close_conn. rewrite Hss. cbv zeta.
  destruct (negb _); [done|]. destruct (_ <=? _); [done|]. case_bool_decide; [done|]. case_bool_decide; [done|].
  rewrite bool_decide_eq_true_2; [done|]. cbn [with_connected_addrs with_peers sh_connected_addrs]. rewrite Hc2, Hc1. set_solver.
Qed.
End safety.

(** ** Concrete cases *)
Module SafetyExample.
Import NodeExample.
Definition addr_a : bytes := str_bytes "5.6.7.8:7777".
Definition addr_b : bytes := str_bytes "9.9.9.9:7777".
Definition bad : Session :=
  {| ss_ip := Some peer_ip; ss_listen := Some addr_a; ss_rate := RateWindow_new 0 100; ss_budget := None; ss_ban_score := 100;
     ss_last_decay := 0 |}.
Definition after_ban : Net := with_node w0 (close_conn (ban_peer tick (net_node w0) bad) 1 bad) ∅.
Definition retries : list Event := [EOpen tick 2 (Some peer_ip) None true; EDiscover tick].
Definition retried : Net := default after_ban (net_run after_ban retries).
Lemma retried_eq : net_run after_ban retries = Some retried.
Proof.
  assert (bool_decide (is_Some (net_run after_ban retries)) = true) as [w Hw]%bool_decide_eq_true by (vm_compute; reflexivity).
  unfold retried. rewrite Hw. reflexivity.
Qed.

(** A fresh node asks for a pruning proof and adopts the one it gets. *)
Definition proof_events : list Event :=
  [EOpen tick 1 (Some peer_ip) None true; ERequestProof true;
   EReceive tick tick 1 100 (MPruningProof [genesis_block; header_only ChainExample.first_block])].
Definition proved : Net := default w0 (net_run w0 proof_events).
Definition proved_checks : bool :=
  bool_decide (is_Some (net_run w0 proof_events)) &&
  bool_decide (sh_verified_pruning_point (net_node proved) = Some (block_hash ChainExample.first_block)).
Lemma proved_checks_ok : proved_checks = true.
Proof. vm_compute. reflexivity. Qed.
Lemma proved_facts :
  net_run w0 proof_events = Some proved ∧ sh_verified_pruning_point (net_node proved) ≠ sh_verified_pruning_point (net_node w0).
Proof.
  pose proof proved_checks_ok as [[w Hw]%bool_decide_eq_true Hp%bool_decide_eq_true]%andb_prop. split; [|rewrite Hp; discriminate].
  unfold proved. rewrite Hw. reflexivity.
Qed.

(** A peer announces thirty-two blocks that do not exist. *)
Definition made_up : list Message := (λ i, MInv (1000 + Z.of_nat i)) <$> seq 0 32.
Definition starved_bool (n : Shared) : bool :=
  (MAX_IN_FLIGHT_BODIES <=? Z.of_nat (size (sh_in_flight_bodies n))) && forallb (should_fetch n) (elements (sh_in_flight_bodies n)).
Lemma starved_bool_ok n : starved_bool n = true → starved n.
Proof.
  intros [Hs%Z.leb_le Hf]%andb_prop. split; [exact Hs|]. rewrite forallb_forall in Hf.
  intros h Hh. apply Hf, list_elem_of_In, elem_of_elements, Hh.
Qed.
Lemma made_up_starved : starved (net_node (ran made_up)).
Proof. apply starved_bool_ok. vm_compute. reflexivity. Qed.

Lemma later_holds : cs_dag ChainExample.later !! block_hash ChainExample.first_block = Some ChainExample.first_block.
Proof.
  destruct ChainExample.later_facts as (Ha & _).
  destruct (add_block_dag ChainExample.start ChainExample.now ChainExample.first_block _ eq_refl Ha) as [Hd _].
  rewrite Hd. apply lookup_insert_eq.
Qed.
Definition pruned_peer : Shared := Shared_new (prune_body ChainExample.later (block_hash ChainExample.first_block)) bans.
Lemma pruned_peer_holds :
  cs_dag (sh_state pruned_peer) !! block_hash ChainExample.first_block = Some (clear_body ChainExample.first_block).
Proof. unfold pruned_peer. cbn [Shared_new sh_state prune_body set_graph cs_dag]. rewrite lookup_alter_eq, later_holds. reflexivity. Qed.
End SafetyExample.

Section witnesses.
#[local] Existing Instances ChainExample.ex_crypto ChainExample.ex_dual ChainExample.ex_body ChainExample.ex_env
  NodeExample.ex_pool_env NodeExample.ex_net_env NodeExample.ex_net_ok.
Import NodeExample SafetyExample.

Lemma banned_stays_out_witness : ∃ l, sh_dials (net_node retried) = sh_dials (net_node after_ban) ++ l ∧ addr_a ∉ l.
Proof.
  refine (proj2 (banned_stays_out tick (net_node w0) 1 bad after_ban retries retried peer_ip addr_a
    eq_refl eq_refl eq_refl eq_refl _ retried_eq)).
  constructor; [|constructor; [exact I|constructor]]. vm_compute. reflexivity.
Defined.

Lemma pruning_point_monotone_witness :
  sh_best_pruning_work (net_node w0) < sh_best_pruning_work (net_node proved).
Proof.
  destruct proved_facts as [Hr Hne].
  exact (proj2 (pruning_point_monotone ChainExample.start bans [] proof_events w0 proved eq_refl Hr) Hne).
Defined.

Lemma fetch_starvation_witness :
  dispatch tick (net_node (ran made_up)) 2 None None (MInv 5) = Some (0, net_node (ran made_up), None, None).
Proof. exact (proj1 (fetch_starvation tick (net_node (ran made_up)) 2 None None 5 [] made_up_starved)). Defined.

Lemma pruned_reply_penalised_witness :
  dispatch tick (net_node w0) 1 None None (MBlock (header_only ChainExample.first_block)) =
    Some (INVALID_BLOCK_PENALTY, clear_body_inflight (net_node w0) (block_hash ChainExample.first_block), None, None).
Proof.
  pose proof synced_facts as (_ & _ & _ & [gd Hc]%ok_exists).
  exact (proj1 (proj2 (pruned_reply_penalised pruned_peer tick (net_node w0) 7 1 None None ChainExample.first_block gd
    pruned_peer_holds Hc))).
Defined.

Lemma address_squatting_witness :
  ∃ n1, dispatch tick (net_node w0) 1 None None (MHello PROTOCOL_VERSION WIRE_MAGIC (sh_chain_id (net_node w0)) 0 (Some addr_b)) =
    Some (0, n1, Some addr_b, None).
Proof.
  destruct (address_squatting tick (net_node w0) 1 None None 0 addr_b addr_a bad) as (n1 & _ & Hh & _);
    [vm_compute; discriminate|reflexivity|]. exists n1. exact Hh.
Defined.
End witnesses.
