(* ===== verification/Mining.v ===== *)
(** * Block production

    The producer of [src/src/consensus.rs]: template, nonce search, assembly and the
    loop that admits the block.  Clock readings are arguments; the order in which a
    hash map yields the senders, the lane that wins a parallel search and winterfell's
    prover are parameters.  A panic of the source ([expect]) is [Err]; [None] stands
    for a nonce walk that does not return. *)

From S2P Require Import Prelude Genesis Crypto Address Predicate Utxo UtxoTx Registry Custody Block Ledger.
From S2P Require Import Dag Ghostdag Reachability ReachBuild FeeHistory Stark VersionBits Superproof State Chain ChainInv.
From S2P Require Import Admission Mempool FeeEstimate AccountPool P2pInv NodeInv.

(** ** Data *)

Record Miner := {
  mi_address : string;
  mi_public_key : bytes;
  mi_signing_key : option bytes;
  mi_stake : Z;
  mi_hashrate : Z;
  mi_tor_address : option string;
  mi_is_pool : bool;
}.
Record MiningWork := { mw_block_template : Block; mw_target : Hash; mw_job_id : string; mw_extranonce : bytes }.
Record StratumShare := {
  sr_job_id : string;
  sr_nonce : Z;
  sr_miner : string;
  sr_result : Hash;
  sr_tor_proof : option string;
}.

(** [rayon]'s lanes, the lane whose result [find_map_any] returns, the sender order of
    [select_valid_block_txs] and winterfell's prover for a seed and a last row. *)
Class MinerEnv := {
  num_lanes : nat;
  pick_any : list StratumShare → option StratumShare;
  sender_order : gmap string ByNonce → list string;
  winterfell_prove : Z → Z → bytes;
}.

(** ** Field updates *)

Definition with_body (b : Block) (transparent : list TransparentTx) (utxo : list UtxoTx) (registry : list RegistryOp)
    (custody : list CustodyCertificate) : Block :=
  {| blk_height := blk_height b; blk_timestamp := blk_timestamp b; blk_parents := blk_parents b;
     blk_interlinks := blk_interlinks b; blk_transparent_txs := transparent; blk_utxo_txs := utxo;
     blk_registry_ops := registry; blk_custody_ops := custody; blk_merkle_root := blk_merkle_root b;
     blk_state_root := blk_state_root b; blk_miner := blk_miner b; blk_creator_pubkey := blk_creator_pubkey b;
     blk_nonce := blk_nonce b; blk_difficulty := blk_difficulty b; blk_version := blk_version b;
     blk_coinbase_entropy := blk_coinbase_entropy b; blk_stark_proof := blk_stark_proof b;
     blk_birth_certificate := blk_birth_certificate b; blk_size := blk_size b |}.
Definition with_header (b : Block) (merkle_root miner : Hash) (creator_pubkey : bytes) (nonce : Z) : Block :=
  {| blk_height := blk_height b; blk_timestamp := blk_timestamp b; blk_parents := blk_parents b;
     blk_interlinks := blk_interlinks b; blk_transparent_txs := blk_transparent_txs b; blk_utxo_txs := blk_utxo_txs b;
     blk_registry_ops := blk_registry_ops b; blk_custody_ops := blk_custody_ops b; blk_merkle_root := merkle_root;
     blk_state_root := blk_state_root b; blk_miner := miner; blk_creator_pubkey := creator_pubkey;
     blk_nonce := nonce; blk_difficulty := blk_difficulty b; blk_version := blk_version b;
     blk_coinbase_entropy := blk_coinbase_entropy b; blk_stark_proof := blk_stark_proof b;
     blk_birth_certificate := blk_birth_certificate b; blk_size := blk_size b |}.
Definition with_witness (b : Block) (stark_proof birth_certificate : bytes) (size : Z) : Block :=
  {| blk_height := blk_height b; blk_timestamp := blk_timestamp b; blk_parents := blk_parents b;
     blk_interlinks := blk_interlinks b; blk_transparent_txs := blk_transparent_txs b; blk_utxo_txs := blk_utxo_txs b;
     blk_registry_ops := blk_registry_ops b; blk_custody_ops := blk_custody_ops b; blk_merkle_root := blk_merkle_root b;
     blk_state_root := blk_state_root b; blk_miner := blk_miner b; blk_creator_pubkey := blk_creator_pubkey b;
     blk_nonce := blk_nonce b; blk_difficulty := blk_difficulty b; blk_version := blk_version b;
     blk_coinbase_entropy := blk_coinbase_entropy b; blk_stark_proof := stark_proof;
     blk_birth_certificate := birth_certificate; blk_size := size |}.

(** [Iterator::min_by_key]: the first of the least elements. *)
Definition min_index {A} (key : A → Z) (l : list A) : option nat :=
  fst <$> foldl (λ best ix, match best with
                            | Some (_, k) => if key ix.2 <? k then Some (ix.1, key ix.2) else best
                            | None => Some (ix.1, key ix.2)
                            end) None (imap pair l).

Section mining.
Context `{!Crypto, !DualCrypto, !BodyCodec, !NodeEnv, !PoolEnv, !MinerEnv}.

(** ** The template *)

Definition tip_ge (gd : GdMap) (a b : Hash) : Prop := key_le gd b a = true.
#[global] Instance tip_ge_dec gd : RelDecision (tip_ge gd).
Proof. intros a b. unfold tip_ge. apply _. Defined.
Definition template_parents (s : ChainState) : list Hash :=
  take (Z.to_nat MAX_BLOCK_PARENTS) (merge_sort (tip_ge (cs_ghostdag s)) (cs_tips s)).

(** The closure [too_big] and one turn of the trimming loop: the cheapest transfer,
    then the cheapest UTXO transaction, then the last registry or custody operation. *)
Definition too_big (b : Block) : bool :=
  negb (verify_size b) || (MAX_BLOCK_BYTES <? default U64_MAX (ser_block_len b)).
Definition trim_once (b : Block) : option Block :=
  let '(t, u, r, c) := (blk_transparent_txs b, blk_utxo_txs b, blk_registry_ops b, blk_custody_ops b) in
  match min_index tt_fee t with
  | Some i => Some (with_body b (delete i t) u r c)
  | None =>
      match min_index fee u with
      | Some i => Some (with_body b t (delete i u) r c)
      | None =>
          if bool_decide (r = []) then if bool_decide (c = []) then None else Some (with_body b t u r (removelast c))
          else Some (with_body b t u (removelast r) c)
      end
  end.
Fixpoint trim_body (fuel : nat) (b : Block) : Block :=
  match fuel with
  | O => b
  | S fuel => if too_big b then from_option (trim_body fuel) b (trim_once b) else b
  end.
Definition body_len (b : Block) : nat :=
  length (blk_transparent_txs b) + length (blk_utxo_txs b) + length (blk_registry_ops b) + length (blk_custody_ops b).

(** [create_block_template]: [timestamp], [entropy] and [job_ms] are its three clock
    readings. *)
Definition raw_template (s : ChainState) (timestamp entropy : Z) (transparent_txs : list TransparentTx) : Block :=
  let p := cs_pools s in
  let parents := template_parents s in
  {| blk_height := wrap 64 (cs_pruned_selected_blocks s + len (cs_main_chain s)); blk_timestamp := timestamp;
     blk_parents := parents; blk_interlinks := [];
     blk_transparent_txs := take 1000 transparent_txs;
     blk_utxo_txs := take 1000 (select_valid_utxo_txs s (utxo_mempool p));
     blk_registry_ops := select_valid_registry_ops s (take 500 (registry_mempool p));
     blk_custody_ops := select_valid_custody_ops s (take 200 (custody_mempool p));
     blk_merkle_root := HASH_ZERO; blk_state_root := HASH_ZERO; blk_miner := HASH_ZERO; blk_creator_pubkey := [];
     blk_nonce := 0; blk_difficulty := expected_difficulty_at s parents timestamp;
     blk_version := miner_version [0; 1; 2]; blk_coinbase_entropy := entropy; blk_stark_proof := replicate 64 0;
     blk_birth_certificate := []; blk_size := 0 |}.
Definition set_root (b : Block) : Block :=
  with_header b (body_root b) (blk_miner b) (blk_creator_pubkey b) (blk_nonce b).
Definition finish_template (s : ChainState) (job_ms : Z) (raw : Block) : result MiningWork :=
  b ← map_err (λ e, "template parents must yield a selected parent: " +:+ e) (bind_parent_commitments s raw);
  b ← map_err (λ e, "post-trim commitments: " +:+ e) (bind_parent_commitments s (set_root (trim_body (S (body_len b)) b)));
  Ok {| mw_block_template := b; mw_target := pow_target (blk_difficulty raw);
        mw_job_id := "job_" +:+ pretty job_ms; mw_extranonce := replicate 4 0 |}.
Definition create_block_template (s : ChainState) (timestamp entropy job_ms : Z) : option (result MiningWork) :=
  let pool := transparent_mempool (cs_pools s) in
  transfers ← select_valid_block_txs s pool (sender_order (mempool_index_by_sender pool));
  Some (finish_template s job_ms (raw_template s timestamp entropy transfers)).

(** ** The search *)

Definition lane_count : nat := Nat.max num_lanes 1.
(** One lane: [nonce] starts at the lane's number and advances by the number of lanes;
    [fuel] is how many nonces it tries before the deadline. *)
Fixpoint lane_search (fuel : nat) (target : Hash) (template : Block) (nonce : Z) : option (Z * Hash) :=
  match fuel with
  | O => None
  | S fuel =>
      let b := with_header template (blk_merkle_root template) (blk_miner template) (blk_creator_pubkey template) nonce in
      if hash_meets_target (block_hash b) target then Some (nonce, block_hash b)
      else lane_search fuel target template (wrap 64 (nonce + Z.of_nat lane_count))
  end.
(** [check_miner_shares]; [attempts lane] nonces are tried by a lane. *)
Definition searched_template (s : ChainState) (m : Miner) (work : MiningWork) : result Block :=
  let t := mw_block_template work in
  let pk := mi_public_key m in
  bind_parent_commitments s (set_root (with_header t (blk_merkle_root t) (address_hash pk) pk (blk_nonce t))).
Definition check_miner_shares (s : ChainState) (miners : list Miner) (work : MiningWork) (attempts : nat → nat)
    : option StratumShare :=
  m ← head miners;
  if negb (address_matches_pubkey (mi_address m) (mi_public_key m)) then None else
  match searched_template s m work with
  | Err _ => None
  | Ok template =>
      pick_any (omap (λ lane,
        '(nonce, hash) ← lane_search (attempts lane) (mw_target work) template (Z.of_nat lane);
        Some {| sr_job_id := mw_job_id work; sr_nonce := nonce; sr_miner := mi_address m; sr_result := hash; sr_tor_proof := None |})
        (seq 0 lane_count))
  end.

(** ** Assembly *)

(** [stark::prove]: the last row, then the proof. *)
Definition stark_prove (header_bytes : bytes) : bytes :=
  let '(seed, result) := prove_inputs header_bytes in be_bytes 16 result ++ winterfell_prove seed result.
(** [assemble_block]; [rng] is the signature's randomness. *)
Definition assemble_block (s : ChainState) (miners : list Miner) (work : MiningWork) (share : StratumShare) (rng : bytes)
    : result Block :=
  m ← ok_or (List.find (λ m, bool_decide (mi_address m = sr_miner share)) miners)
        ("No registered miner for share address " +:+ sr_miner share);
  signing_key ← ok_or (mi_signing_key m) "Miner has no signing key for birth certificate";
  let pk := mi_public_key m in
  fail_if negb (address_matches_pubkey (sr_miner share) pk)
    as ("Share miner address does not match creator pubkey: " +:+ sr_miner share);
  let t := mw_block_template work in
  block ← bind_parent_commitments s (set_root (with_header t (blk_merkle_root t) (address_hash pk) pk (sr_nonce share)));
  certificate ← sign_pq512 (str_bytes "birth-certificate") (settlement_id block) signing_key rng;
  let block := with_witness block (stark_prove (hash_bytes (block_hash block))) certificate (blk_size block) in
  Ok (with_witness block (blk_stark_proof block) (blk_birth_certificate block) (wire_size block)).

(** ** The engine *)

Record BlockDAGConsensus := { en_miners : list Miner; en_pool_shares : list StratumShare; en_running : bool }.
Definition BlockDAGConsensus_new : BlockDAGConsensus := {| en_miners := []; en_pool_shares := []; en_running := false |}.
Definition register_miner (e : BlockDAGConsensus) (m : Miner) : BlockDAGConsensus :=
  {| en_miners := en_miners e ++ [m]; en_pool_shares := en_pool_shares e; en_running := en_running e |}.
Definition set_running (e : BlockDAGConsensus) (r : bool) : BlockDAGConsensus :=
  {| en_miners := en_miners e; en_pool_shares := en_pool_shares e; en_running := r |}.
Definition submit_share (e : BlockDAGConsensus) (s : ChainState) (share : StratumShare) : result BlockDAGConsensus :=
  fail_if negb (verify_pow (sr_result share) (cs_difficulty s)) as "Share below target";
  Ok {| en_miners := en_miners e; en_pool_shares := en_pool_shares e ++ [share]; en_running := en_running e |}.

(** What one turn of the producer's loop reads besides the state. *)
Record Turn := {
  tn_timestamp : Z; tn_entropy : Z; tn_job_ms : Z;
  tn_attempts : nat → nat;
  tn_rng : bytes;
  tn_admit_ms : Z;
}.
(** One turn: [s1], [s2], [s3] and [s4] are the chain state at the four times the
    producer takes the lock.  [None] when the thread panics or does not return. *)
Definition mining_turn (e : BlockDAGConsensus) (t : Turn) (s1 s2 s3 s4 : ChainState) : option ChainState :=
  r ← create_block_template s1 (tn_timestamp t) (tn_entropy t) (tn_job_ms t);
  match r with
  | Err _ => None
  | Ok work =>
      Some (match check_miner_shares s2 (en_miners e) work (tn_attempts t) with
            | None => s4
            | Some share =>
                match assemble_block s3 (en_miners e) work share (tn_rng t) with
                | Err _ => s4
                | Ok block => match add_block s4 (tn_admit_ms t) block with Ok s => s | Err _ => s4 end
                end
            end)
  end.

(** ** What the state commitment depends on

    The registry records the settlement id of the including block, which commits to the
    nonce and to the state root itself.  The commitment does not read those records, so
    it is the same before and after the search. *)

(** Deeds up to their history. *)
Definition deed_core (d : TitleDeed) : Hash * AssetClass * string * string * Z * option Hash * option string :=
  (title_id d, asset_class d, description d, current_owner d, issued_at d, deed_escrow_id d, lienholder d).
Definition same_holdings (st st' : RegistryState) : Prop :=
  escrows st = escrows st' ∧ deed_core <$> titles st = deed_core <$> titles st'.
#[global] Instance same_holdings_equiv : Equivalence same_holdings.
Proof. split; [intros ?; by split|intros ?? [??]; by split|]. intros ??? [??] [??]. split; congruence. Qed.

Lemma holdings_lookup st st' tid : same_holdings st st' → deed_core <$> titles st !! tid = deed_core <$> titles st' !! tid.
Proof. intros [_ Ht]. by rewrite <- !lookup_fmap, Ht. Qed.
Lemma holdings_update st st' tid (f f' : TitleDeed → TitleDeed) :
  same_holdings st st' → (∀ d d', deed_core d = deed_core d' → deed_core (f d) = deed_core (f' d')) →
  deed_core <$> update_title (titles st) tid f = deed_core <$> update_title (titles st') tid f'.
Proof.
  intros Hs Hf. destruct tid as [tid|]; [|apply Hs]. cbn [update_title]. pose proof (holdings_lookup _ _ tid Hs) as Hl.
  destruct (titles st !! tid) as [d|], (titles st' !! tid) as [d'|]; [|done|done|apply Hs].
  apply (inj Some) in Hl. rewrite !fmap_insert, (proj2 Hs). f_equal. by apply Hf.
Qed.
Definition outcome_rel (o o' : result unit * (RegistryState * Accounts)) : Prop :=
  o.1 = o'.1 ∧ same_holdings o.2.1 o'.2.1 ∧ o.2.2 = o'.2.2.
Definition same_media (c c' : OpContext) : Prop :=
  ctx_timestamp c = ctx_timestamp c' ∧ ctx_height c = ctx_height c' ∧ ctx_blue c = ctx_blue c'.

Lemma hand_over_core d d' to c c' event memo :
  same_media c c' → deed_core d = deed_core d' → deed_core (hand_over d to c event memo) = deed_core (hand_over d' to c' event memo).
Proof. intros _ Hd. unfold deed_core in *. simpl. congruence. Qed.
Lemma with_escrow_core d d' e : deed_core d = deed_core d' → deed_core (with_escrow d e) = deed_core (with_escrow d' e).
Proof. unfold deed_core. simpl. congruence. Qed.

Lemma give_back_media st st' accts eid esc :
  same_holdings st st' → outcome_rel (give_back st accts eid esc) (give_back st' accts eid esc).
Proof.
  intros Hs. split_and!; [done| |done]. split; cbn [give_back titles escrows fst snd]; [by rewrite (proj1 Hs)|].
  apply holdings_update; [done|]. intros. by apply with_escrow_core.
Qed.
Lemma apply_op_media st st' accts op c c' :
  same_holdings st st' → same_media c c' → outcome_rel (apply_op st accts op c) (apply_op st' accts op c').
Proof.
  intros Hs Hc. unfold apply_op. destruct (negb _); [done|]. destruct (negb _); [done|].
  generalize (<[signer_address op := with_nonce (account_of accts (signer_address op)) (sat_add 64 (nonce (account_of accts (signer_address op))) 1)]> accts).
  intros a. unfold apply_op_body. pose proof Hs as [He Ht]. pose proof Hc as (Hts & Hh & Hb).
  destruct op; cbn [signer_address].
  - unfold issue_title. cbv zeta. pose proof (holdings_lookup _ _ (derive_title_id (signer_address (IssueTitle from_pubkey owner class desc title_seed nonce chain_id signature)) title_seed) Hs) as Hl.
    destruct (titles st !! _), (titles st' !! _); try done; simpl.
    split_and!; [done| |done]. split; [done|]. cbn [titles fst snd]. rewrite !fmap_insert, Ht. f_equal. unfold deed_core. simpl. congruence.
  - unfold transfer_title. pose proof (holdings_lookup _ _ tid Hs) as Hl.
    destruct (titles st !! tid) as [d|] eqn:E1, (titles st' !! tid) as [d'|] eqn:E2; try done. simpl in Hl.
    assert (deed_core d = deed_core d') as Hd by congruence. assert (current_owner d = current_owner d' ∧ deed_escrow_id d = deed_escrow_id d') as [-> ->]
      by (unfold deed_core in Hd; split; congruence).
    destruct (negb _); [done|]. destruct (bool_decide _); [done|]. split_and!; [done| |done]. split; [done|].
    cbn [titles fst snd]. rewrite !fmap_insert, Ht. f_equal. by apply hand_over_core.
  - unfold open_escrow. destruct (amount =? 0); [done|].
    assert (open_title_check st seller tid = open_title_check st' seller tid) as ->.
    { destruct tid as [tid|]; [|done]. cbn [open_title_check]. pose proof (holdings_lookup _ _ tid Hs) as Hl.
      destruct (titles st !! tid) as [d|], (titles st' !! tid) as [d'|]; try done. simpl in Hl. cbn [ok_or mbind result_bind].
      assert (current_owner d = current_owner d' ∧ deed_escrow_id d = deed_escrow_id d') as [-> ->] by (unfold deed_core in Hl; split; congruence). done. }
    destruct (open_title_check st' seller tid); [|done]. rewrite He. cbv zeta. destruct (bool_decide _); [done|].
    split_and!; [done| |done]. split; [cbn [escrows fst snd]; by rewrite Hts|].
    cbn [titles fst snd]. apply holdings_update; [done|]. intros. by apply with_escrow_core.
  - unfold fund_escrow. rewrite He. destruct (escrows st' !! eid); [|done]. destruct (negb _); [done|]. destruct (_ && _); [done|].
    destruct (a !! _); [|done]. destruct (_ <? _); [done|]. by split_and!.
  - unfold release_escrow. rewrite He. destruct (escrows st' !! eid); [|done]. destruct (negb _); [done|]. destruct (negb _); [done|].
    split_and!; [done| |done]. split; [done|]. cbn [titles fst snd]. apply holdings_update; [done|].
    intros. apply hand_over_core; [done|]. by apply with_escrow_core.
  - unfold refund_escrow. rewrite He. destruct (escrows st' !! eid); [|done]. cbv zeta. destruct (negb _); [done|]. destruct (_ || _); [done|].
    by apply give_back_media.
  - unfold timeout_claim_escrow. rewrite He, Hb. destruct (escrows st' !! eid); [|done]. destruct (negb _); [done|]. destruct (negb _); [done|].
    destruct (_ =? 0); [done|]. destruct (_ <? _); [done|].
    by apply give_back_media.
Qed.

(** Ledgers up to the recorded settlement ids, and outcomes related by them. *)
Definition same_value (l l' : Ledger) : Prop := ∃ r, l' = set_registry l r (l_accounts l) ∧ same_holdings (l_registry l) r.
Definition result_rel {A B} (R : A → B → Prop) (x : result A) (y : result B) : Prop :=
  match x, y with Ok a, Ok b => R a b | Err e, Err e' => e = e' | _, _ => False end.
Lemma same_value_refl l : same_value l l.
Proof. exists (l_registry l). split; [by destruct l|reflexivity]. Qed.
Lemma state_root_same l l' : same_value l l' → state_root l = state_root l'.
Proof. intros (r & -> & _). done. Qed.
Lemma try_fold_rel {A B C} (R : A → B → Prop) (f : A → C → result A) (g : B → C → result B) x y l :
  R x y → (∀ x y c, R x y → result_rel R (f x c) (g y c)) → result_rel R (try_fold f x l) (try_fold g y l).
Proof.
  intros Hx Hf. revert x y Hx. induction l as [|c l IH]; intros x y Hx; [done|]. cbn [try_fold].
  specialize (Hf x y c Hx). destruct (f x c), (g y c); try done. by apply IH.
Qed.
Lemma strict_registry_media b b' media l l' op :
  blk_timestamp b = blk_timestamp b' → blk_height b = blk_height b' → same_value l l' →
  result_rel same_value (strict_registry b media l op) (strict_registry b' media l' op).
Proof.
  intros Ht Hh (r & -> & Hr). unfold strict_registry. cbn [set_registry l_registry l_accounts].
  pose proof (apply_op_media (l_registry l) r (l_accounts l) op (registry_ctx b media) (registry_ctx b' media) Hr) as Ho.
  destruct Ho as (H1' & H2' & H3'); [by split_and!|].
  destruct (apply_op (l_registry l) _ _ _) as [[[]|e] [r1 a1]], (apply_op r _ _ _) as [[[]|e'] [r2 a2]]; cbn [fst snd] in *; try done;
    simplify_eq; [|done]. exists r2. done.
Qed.
Lemma strict_custody_value herr cid l l' op :
  same_value l l' → result_rel same_value (strict_custody herr cid l op) (strict_custody herr cid l' op).
Proof.
  intros (r & -> & Hr). unfold strict_custody, apply_custody_op. cbn [set_registry l_accounts staked].
  destruct (negb _); [done|]. destruct (_ =? 0); [done|]. destruct (negb _); [done|].
  destruct (parse_settlement_id _ _ _); [|done]. cbn [mbind result_bind]. destruct (custody_verify _ _); [|done]. cbn [mbind result_bind].
  destruct (negb _); [done|]. destruct (cc_kind op); try done; destruct (_ <? _); try done; cbn [mbind result_bind map_err]; by exists r.
Qed.
Lemma block_reward_value l l' b b' score fees :
  coinbase_txid b = coinbase_txid b' → blk_miner b = blk_miner b' → same_value l l' →
  same_value (apply_block_reward l b score fees) (apply_block_reward l' b' score fees).
Proof.
  intros Hid Hm (r & -> & Hr). unfold apply_block_reward. cbn [set_registry minted_supply]. destruct (_ =? 0); [by exists r|].
  exists r. split; [|done]. cbn [set_registry]. by rewrite Hid, Hm.
Qed.

(** Blocks that differ only in what the search and the assembly set. *)
Record same_body (b b' : Block) : Prop := {
  sb_height : blk_height b = blk_height b';
  sb_timestamp : blk_timestamp b = blk_timestamp b';
  sb_parents : blk_parents b = blk_parents b';
  sb_transparent : blk_transparent_txs b = blk_transparent_txs b';
  sb_utxo : blk_utxo_txs b = blk_utxo_txs b';
  sb_registry : blk_registry_ops b = blk_registry_ops b';
  sb_custody : blk_custody_ops b = blk_custody_ops b';
  sb_root : blk_merkle_root b = blk_merkle_root b';
  sb_miner : blk_miner b = blk_miner b';
  sb_creator : blk_creator_pubkey b = blk_creator_pubkey b';
  sb_entropy : blk_coinbase_entropy b = blk_coinbase_entropy b';
}.
Lemma post_root_same s sp ms b b' score :
  same_body b b' → post_mergeset_state_root s sp ms b score = post_mergeset_state_root s sp ms b' score.
Proof.
  intros [Hh Ht Hp Htr Hu Hre Hcu Hro Hmi Hcr Hen]. unfold post_mergeset_state_root, post_mergeset_ledger, simulate_apply_block_body.
  rewrite <- Htr, <- Hu, <- Hre, <- Hcu. destruct (try_fold _ (_, 0) _) as [[l0 f0]|]; [|done]. cbn [mbind result_bind].
  destruct (try_fold _ (l0, f0) _) as [[l1 f1]|]; [|done]. cbn [mbind result_bind].
  pose proof (try_fold_rel same_value (strict_registry b score) (strict_registry b' score) l1 l1 (blk_registry_ops b)
    (same_value_refl l1) (λ x y c, strict_registry_media b b' score x y c Ht Hh)) as Hr.
  destruct (try_fold (strict_registry b score) _ _) as [l2|], (try_fold (strict_registry b' score) _ _) as [l2'|]; try done; cbn [result_rel mbind result_bind] in *;
    [|by rewrite Hr].
  pose proof (try_fold_rel same_value (strict_custody hex_err (cs_chain_id s)) (strict_custody hex_err (cs_chain_id s)) l2 l2' (blk_custody_ops b)
    Hr (λ x y c, strict_custody_value hex_err (cs_chain_id s) x y c)) as Hc.
  destruct (try_fold _ l2 _) as [l3|], (try_fold _ l2' _) as [l3'|]; try done; cbn [result_rel mbind result_bind fmap result_fmap] in *; [|by rewrite Hc].
  f_equal. apply state_root_same, block_reward_value; [|done|done]. unfold coinbase_txid. congruence.
Qed.

(** ** Commitments *)

Lemma bind_ok s b b1 :
  bind_parent_commitments s b = Ok b1 →
  ∃ gd sp root,
    try_compute_ghostdag_data (cs_reachability s) (cs_dag s) (cs_ghostdag s) (blk_parents b) MAX_MERGESET_SIZE = Ok gd ∧
    gd_selected_parent gd = Some sp ∧ b1 = with_commitments b (expected_interlinks s sp) root ∧
    post_mergeset_state_root s sp (merged gd) b (gd_blue_score gd) = Ok root.
Proof.
  unfold bind_parent_commitments. intros Hb. destruct (try_compute_ghostdag_data _ _ _ _ _) as [gd|]; [|done]. cbn [mbind result_bind] in Hb.
  destruct (gd_selected_parent gd) as [sp|] eqn:Hsp; [|done]. cbn [ok_or mbind result_bind] in Hb.
  rewrite (post_root_same s sp (merged gd) _ b) in Hb by (by split).
  destruct (post_mergeset_state_root _ _ _ _ _) as [root|] eqn:Hr; [|done]. cbn [mbind result_bind] in Hb.
  apply (f_equal (λ r, match r with Ok x => x | Err _ => b1 end)) in Hb. subst b1. by exists gd, sp, root.
Qed.
(** Binding twice, with any nonce, gives the same commitments. *)
Lemma bind_again s b b1 nonce :
  bind_parent_commitments s b = Ok b1 →
  bind_parent_commitments s (with_header b (blk_merkle_root b) (blk_miner b) (blk_creator_pubkey b) nonce) =
    Ok (with_header b1 (blk_merkle_root b) (blk_miner b) (blk_creator_pubkey b) nonce).
Proof.
  intros (gd & sp & root & Hg & Hsp & -> & Hr)%bind_ok. unfold bind_parent_commitments. cbn [with_header blk_parents]. rewrite Hg.
  cbn [mbind result_bind]. rewrite Hsp. cbn [ok_or mbind result_bind].
  rewrite (post_root_same s sp (merged gd) _ b) by (by split). by rewrite Hr.
Qed.

(** ** Trimming *)

(** Everything but the body is kept, and the body only loses entries. *)
Record trimmed (b b' : Block) : Prop := {
  tr_height : blk_height b' = blk_height b;
  tr_timestamp : blk_timestamp b' = blk_timestamp b;
  tr_parents : blk_parents b' = blk_parents b;
  tr_difficulty : blk_difficulty b' = blk_difficulty b;
  tr_transparent : blk_transparent_txs b' ⊆ blk_transparent_txs b;
  tr_utxo : blk_utxo_txs b' ⊆ blk_utxo_txs b;
  tr_registry : blk_registry_ops b' ⊆ blk_registry_ops b;
  tr_custody : blk_custody_ops b' ⊆ blk_custody_ops b;
}.
#[global] Instance trimmed_preorder : PreOrder trimmed.
Proof. split; [intros b; by split|]. intros a b c [] []. split; try congruence; by etrans. Qed.

Lemma removelast_subset {A} (l : list A) : removelast l ⊆ l.
Proof.
  induction l as [|x l IH]; [done|]. intros y. cbn [removelast]. destruct l; [by intros ?%elem_of_nil|].
  intros [->|Hy]%elem_of_cons; [apply list_elem_of_here|]. apply list_elem_of_further. by apply IH.
Qed.
Lemma min_index_lt {A} (key : A → Z) l i : min_index key l = Some i → (i < length l)%nat.
Proof.
  unfold min_index. set (f := λ best ix, _).
  assert (∀ best js, (∀ j k, best = Some (j, k) → (j < length l)%nat) → Forall (λ jx : nat * A, (jx.1 < length l)%nat) js →
    ∀ j k, foldl f best js = Some (j, k) → (j < length l)%nat) as Hf.
  { intros best js. revert best. induction js as [|[j x] js IH]; intros best Hb Hjs; [done|]. apply Forall_cons in Hjs as [Hj Hjs].
    cbn [foldl]. apply IH; [|done]. intros j' k'. unfold f. destruct best as [[j0 k0]|]; [|by intros [= <- _]].
    cbn [fst snd]. destruct (_ <? _); [by intros [= <- _]|]. intros [= <- <-]. by apply (Hb j0 k0). }
  intros Hi. apply fmap_Some in Hi as ([j k] & Hfold & ->). eapply Hf; [| |exact Hfold]; [done|].
  apply Forall_forall. intros [j' x] Hin. apply elem_of_lookup_imap in Hin as (n & y & [= -> ->] & Hy). by eapply lookup_lt_Some.
Qed.
Lemma min_index_None {A} (key : A → Z) l : min_index key l = None → l = [].
Proof.
  destruct l as [|x l]; [done|]. unfold min_index. cbn [imap foldl fst snd]. intros Hn. exfalso. revert Hn.
  generalize (key x) as k. generalize 0%nat as j. generalize (imap (pair ∘ S) l) as js.
  induction js as [|[j' y] js IH]; intros j k; [done|]. cbn [foldl fst snd]. destruct (_ <? _); apply IH.
Qed.
Lemma length_removelast_lt {A} (l : list A) : l ≠ [] → (length (removelast l) < length l)%nat.
Proof.
  induction l as [|x l IH]; [done|]. intros _. cbn [removelast]. destruct l as [|y l]; [cbn [length]; lia|].
  cbn [length] in *. specialize (IH ltac:(done)). lia.
Qed.
Lemma trim_once_ok b b' : trim_once b = Some b' → trimmed b b' ∧ (body_len b' < body_len b)%nat.
Proof.
  unfold trim_once, body_len. destruct (min_index tt_fee _) as [i|] eqn:Ht.
  { intros [= <-]. apply min_index_lt in Ht. split; [split; simpl; try done; apply sublist_subseteq, sublist_delete|].
    cbn [with_body blk_transparent_txs blk_utxo_txs blk_registry_ops blk_custody_ops].
    rewrite length_delete by (by apply lookup_lt_is_Some). lia. }
  destruct (min_index fee _) as [i|] eqn:Hu.
  { intros [= <-]. apply min_index_lt in Hu. split; [split; simpl; try done; apply sublist_subseteq, sublist_delete|].
    cbn [with_body blk_transparent_txs blk_utxo_txs blk_registry_ops blk_custody_ops].
    rewrite length_delete by (by apply lookup_lt_is_Some). lia. }
  case_bool_decide as Hr; [case_bool_decide as Hc; [done|]|]; intros [= <-];
    (split; [split; simpl; try done; apply removelast_subset|]); cbn [with_body blk_transparent_txs blk_utxo_txs blk_registry_ops blk_custody_ops].
  - pose proof (length_removelast_lt _ Hc). lia.
  - pose proof (length_removelast_lt _ Hr). lia.
Qed.
Lemma trim_once_None b : trim_once b = None → body_len b = 0%nat.
Proof.
  unfold trim_once, body_len. destruct (min_index tt_fee _) eqn:Ht; [done|]. destruct (min_index fee _) eqn:Hu; [done|].
  apply min_index_None in Ht, Hu. rewrite Ht, Hu. case_bool_decide as Hr; [|done]. case_bool_decide as Hc; [|done]. by rewrite Hr, Hc.
Qed.
(** The loop ends with a block that fits, or with an empty body. *)
Lemma trim_ok fuel b :
  (body_len b < fuel)%nat →
  trimmed b (trim_body fuel b) ∧ (too_big (trim_body fuel b) = false ∨ body_len (trim_body fuel b) = 0%nat).
Proof.
  revert b. induction fuel as [|fuel IH]; intros b Hf; [lia|]. cbn [trim_body]. destruct (too_big b) eqn:Hb; [|split; [reflexivity|by left]].
  destruct (trim_once b) as [b'|] eqn:Ho; cbn [from_option].
  - apply trim_once_ok in Ho as [Ht Hl]. destruct (IH b') as [Ht' Hd]; [lia|]. split; [by etrans|done].
  - apply trim_once_None in Ho. split; [reflexivity|by right].
Qed.

(** ** Templates *)

Lemma finish_ok s job_ms raw work :
  finish_template s job_ms raw = Ok work →
  ∃ b, bind_parent_commitments s raw = Ok b ∧
    let t := trim_body (S (body_len b)) b in
    trimmed raw t ∧ bind_parent_commitments s (set_root t) = Ok (mw_block_template work) ∧
    mw_target work = pow_target (blk_difficulty raw).
Proof.
  unfold finish_template. intros Hf. destruct (bind_parent_commitments s raw) as [b|] eqn:Hb; [|done]. cbn [map_err mbind result_bind] in Hf.
  destruct (bind_parent_commitments s (set_root _)) as [b1|] eqn:Hb1; [|done]. cbn [map_err mbind result_bind] in Hf.
  apply (f_equal (λ r, match r with Ok x => x | Err _ => work end)) in Hf. subst work. exists b. split; [done|]. cbv zeta. split; [|done].
  destruct (trim_ok (S (body_len b)) b) as [Ht _]; [lia|]. etrans; [|exact Ht].
  destruct (bind_ok _ _ _ Hb) as (gd & sp & root & _ & _ & -> & _). by split.
Qed.

Lemma template_parents_spec s :
  NoDup (cs_tips s) → NoDup (template_parents s) ∧ template_parents s ⊆ cs_tips s ∧
  len (template_parents s) <= MAX_BLOCK_PARENTS ∧
  ∀ t, selected_tip (cs_ghostdag s) (cs_tips s) = Some t → (∀ x, x ∈ cs_tips s → x ∈ dom (cs_ghostdag s)) →
    t ∈ template_parents s.
Proof.
  intros Hnd. unfold template_parents. pose proof (merge_sort_Permutation (tip_ge (cs_ghostdag s)) (cs_tips s)) as Hp.
  assert (Total (tip_ge (cs_ghostdag s))) as Htot by (intros a b; unfold tip_ge; rewrite !key_le_spec; lia).
  assert (Transitive (tip_ge (cs_ghostdag s))) as Htr by (intros a b c; unfold tip_ge; rewrite !key_le_spec; lia).
  pose proof (StronglySorted_merge_sort (tip_ge (cs_ghostdag s)) (cs_tips s)) as Hsort.
  set (l := merge_sort _ (cs_tips s)) in *. split_and!.
  - eapply sublist_NoDup; [|apply sublist_take]. by rewrite Hp.
  - intros x Hx. rewrite <- Hp. by eapply sublist_subseteq; [apply sublist_take|].
  - pose proof (firstn_le_length (Z.to_nat MAX_BLOCK_PARENTS) l). assert (0 <= MAX_BLOCK_PARENTS) by done. unfold len. lia.
  - intros t (Ht & Htd & Hmax)%select_parent_Some Hd. rewrite <- Hp in Ht.
    destruct l as [|y l']; [by apply elem_of_nil in Ht|]. apply StronglySorted_inv in Hsort as [_ Hall].
    assert (t = y) as ->.
    { apply elem_of_cons in Ht as [->|Ht]; [done|]. rewrite Forall_forall in Hall. apply (key_le_antisym (cs_ghostdag s)).
      - apply Hall. done.
      - apply Hmax; [rewrite <- Hp; apply list_elem_of_here|]. apply Hd. rewrite <- Hp. apply list_elem_of_here. }
    assert (∃ k, Z.to_nat MAX_BLOCK_PARENTS = S k) as [k ->] by (eexists; vm_compute; reflexivity). cbn [take]. apply list_elem_of_here.
Qed.

(** ** A body that applies passes the form checks *)

Lemma spend_kept op s0 so : entries (utxos s0) !! op = None → entries (utxos (spend_one s0 so).2) !! op = None.
Proof.
  intros Hn. unfold spend_one. destruct (spend (utxos s0) so.1) as [r u] eqn:Hsp. apply spend_inv in Hsp.
  destruct r; simpl; [|by destruct Hsp as [-> _]]. destruct Hsp as (_ & _ & -> & _). by apply lookup_delete_None; right.
Qed.
Lemma spent_gone s sos s' op :
  run spend_one s sos = (Ok (), s') → op ∈ sos.*1 → entries (utxos s') !! op = None.
Proof.
  revert s. induction sos as [|[op' o] sos IH]; intros s; [by intros _ ?%elem_of_nil|]. cbn [run fmap list_fmap fst].
  destruct (spend_one s (op', o)) as [[[]|e] s1] eqn:H1'; [|done]. intros Hr [->|Hin]%elem_of_cons; [|by eapply IH].
  assert (entries (utxos s1) !! op' = None) as Hn.
  { unfold spend_one in H1'. cbn [fst] in H1'. destruct (spend (utxos s) op') as [r u] eqn:Hsp. apply spend_inv in Hsp.
    destruct r; [|done]. injection H1' as <-. destruct Hsp as (_ & _ & He & _). simpl. rewrite He. apply lookup_delete_eq. }
  pose proof (run_inv (λ s, entries (utxos s) !! op' = None) spend_one sos s1 Hn (λ s x _, spend_kept op' s x)) as Hi.
  by rewrite Hr in Hi.
Qed.
Lemma inputs_dead s tx media s' op :
  apply_utxo_tx s tx media = (Ok (), s') → op ∈ previous <$> inputs tx → txid op ≠ tx_hash tx → entries (utxos s') !! op = None.
Proof.
  unfold apply_utxo_tx. destruct (check_utxo_tx (utxos s) tx media) as [so|] eqn:Hck; [|done].
  apply check_utxo_tx_spec in Hck as (_ & _ & _ & _ & os & Hos & -> & _).
  destruct (run spend_one s _) as [[[]|e] s1] eqn:Hr; [|done]. intros Hc Hop Hne.
  assert (entries (utxos s1) !! op = None) as Hn.
  { eapply spent_gone; [exact Hr|]. rewrite fst_zip; [done|]. rewrite length_fmap. by rewrite (Forall2_length _ _ _ Hos). }
  assert (entries (utxos (run (create_output (tx_hash tx) media) s1 (enumerate (outputs tx))).2) !! op = None) as Hn2.
  { apply (run_inv (λ s, entries (utxos s) !! op = None)); [done|]. intros s0 [i o] _ Hs0. unfold create_output.
    destruct (is_account_credit _); [destruct (locked_address _); [by destruct (checked_add 128 _ _)|done]|].
    simpl. rewrite lookup_insert_ne; [done|]. by intros <-. }
  destruct (run (create_output _ _) _ _) as [[[]|e] s2]; [|done]. injection Hc as <-. exact Hn2.
Qed.

(** No transaction spends an output of itself or of a later one; a transaction's id
    commits to its inputs. *)
Fixpoint spends_back (txs : list UtxoTx) : Prop :=
  match txs with
  | [] => True
  | tx :: txs' => (∀ tin tx', tin ∈ inputs tx → tx' ∈ txs → txid (previous tin) ≠ tx_hash tx') ∧ spends_back txs'
  end.
Lemma spend_once_ok seen tins :
  NoDup (previous <$> tins) → (∀ tin, tin ∈ tins → previous tin ∉ seen) →
  try_fold spend_once seen tins = Ok (list_to_set (previous <$> tins) ∪ seen).
Proof.
  revert seen. induction tins as [|tin tins IH]; intros seen Hnd Hs; cbn [try_fold fmap list_fmap list_to_set]; [f_equal; set_solver|].
  unfold spend_once. rewrite bool_decide_eq_false_2 by (apply Hs; set_solver). cbn [fmap list_fmap] in Hnd. apply NoDup_cons in Hnd as [Hn Hnd].
  rewrite IH; [f_equal; set_solver|done|]. intros t Ht. assert (previous t ∈ previous <$> tins) by (by apply list_elem_of_fmap_2). set_solver.
Qed.

Lemma utxo_tx_parts s tx media s' :
  apply_utxo_tx s tx media = (Ok (), s') →
  validate_form tx = Ok () ∧ verify tx = true ∧ NoDup (previous <$> inputs tx) ∧
  ∀ tin, tin ∈ inputs tx → is_Some (entries (utxos s) !! previous tin).
Proof.
  unfold apply_utxo_tx. destruct (check_utxo_tx (utxos s) tx media) as [so|] eqn:Hck; [|done]. intros _.
  pose proof (check_utxo_tx_spec _ _ _ _ Hck) as (Hv & _ & _ & Hnd & os & Hos & _). split_and!; [|done|done|].
  - unfold check_utxo_tx in Hck. by destruct (validate_form tx) as [[]|].
  - intros tin [i Hi]%list_elem_of_lookup. destruct (Forall2_lookup_l _ _ _ _ _ Hos Hi) as (out & _ & Hout & _). by eexists.
Qed.
Lemma utxo_forms_fold cid media txs l f lf' (seen : gset OutPoint) :
  try_fold (strict_utxo cid media) (l, f) txs = Ok lf' → spends_back txs →
  (∀ op, op ∈ seen → entries (l_utxo l) !! op = None ∧ ∀ tx, tx ∈ txs → txid op ≠ tx_hash tx) →
  ∃ seen', try_fold (λ seen tx,
        _ ← map_err (λ e, "Utxo tx: " +:+ e) (validate_form tx);
        fail_if negb (chain_id tx =? cid) as "Utxo tx: wrong chain_id";
        try_fold spend_once seen (inputs tx)) seen txs = Ok seen' ∧ forallb verify txs = true.
Proof.
  revert l f seen. induction txs as [|tx txs IH]; intros l f seen Hr Hb Hs; [by eexists|]. cbn [try_fold] in Hr |- *.
  unfold strict_utxo in Hr at 1. destruct (negb (chain_id tx =? cid)); [done|]. unfold ledger_utxo_tx in Hr. cbn [fst] in Hr.
  destruct (apply_utxo_tx _ tx media) as [[[]|e] s'] eqn:Ha; [|done].
  destruct (utxo_tx_parts _ _ _ _ Ha) as (-> & Hv & Hnd & Hlive). cbn [map_err mbind result_bind].
  rewrite spend_once_ok; [|done|].
  2: { intros tin Hin Hseen. destruct (Hs _ Hseen) as [Hn _]. destruct (Hlive tin Hin) as [? Hl]. simpl in Hl. congruence. }
  destruct Hb as [Hb Hbs]. cbn [forallb]. rewrite Hv. cbn [andb].
  eapply (IH (set_utxo l (utxos s') (accounts s'))); [exact Hr|done|]. cbn [set_utxo l_utxo]. intros op.
  rewrite elem_of_union, elem_of_list_to_set. intros [Hop|Hop].
  - pose proof Hop as (tin & -> & Hin)%list_elem_of_fmap. split.
    + eapply inputs_dead; [exact Ha|done|]. apply Hb; [done|apply list_elem_of_here].
    + intros tx' Hin'. apply Hb; [done|by apply list_elem_of_further].
  - destruct (Hs op Hop) as [Hn Hne]. split; [|intros tx' Hin'; apply Hne; by apply list_elem_of_further].
    pose proof (apply_utxo_tx_entries {| utxos := l_utxo l; accounts := l_accounts l; fees_out := 0 |} tx media op Hn) as He.
    rewrite Ha in He. apply He. left. apply Hne, list_elem_of_here.
Qed.
Lemma utxo_forms_ok cid media txs l f lf' :
  try_fold (strict_utxo cid media) (l, f) txs = Ok lf' → spends_back txs → validate_utxo_forms cid txs = Ok ().
Proof.
  intros Hr Hb. destruct (utxo_forms_fold cid media txs l f lf' ∅ Hr Hb) as (seen' & Hf & Hv); [set_solver|].
  unfold validate_utxo_forms. rewrite Hf. cbn [mbind result_bind].
  destruct (existsb _ txs) eqn:He; [|done]. apply existsb_exists in He as (tx & Hin & Hn).
  rewrite forallb_forall in Hv. rewrite (Hv tx Hin) in Hn. done.
Qed.

Lemma registry_selected s ops :
  Forall (λ op, op_chain_id op = cs_chain_id s ∧ op_verify op = true) (select_valid_registry_ops s ops).
Proof.
  unfold select_valid_registry_ops.
  apply (foldl_inv (λ st : gmap string Z * Accounts * RegistryState * list RegistryOp,
    Forall (λ op, op_chain_id op = cs_chain_id s ∧ op_verify op = true) st.2)); [constructor|].
  intros [[[n a] r] good] op _ Hg. unfold registry_select_step.
  destruct (op_chain_id op =? cs_chain_id s) eqn:Hc; [|done]. destruct (op_verify op) eqn:Hv; [|done]. cbn [negb orb].
  destruct (negb _); [done|]. destruct (apply_op _ _ _ _) as [[[]|e] [r' a']]; [|done]. cbn [snd] in *.
  apply Forall_app. split; [done|]. apply Forall_singleton. split; [lia|done].
Qed.
Lemma registry_forms_ok cid ops : Forall (λ op, op_chain_id op = cid ∧ op_verify op = true) ops → validate_registry_ops cid ops = Ok ().
Proof.
  intros Hf. unfold validate_registry_ops. induction Hf as [|op ops [Hc Hv] _ IH]; [done|]. cbn [try_fold].
  by rewrite Hc, Z.eqb_refl, Hv.
Qed.
Lemma custody_selected s ops : select_valid_custody_ops s ops ⊆ ops.
Proof.
  unfold select_valid_custody_ops. apply (foldl_inv (λ st : Ledger * list CustodyCertificate, st.2 ⊆ ops)); [apply list_subseteq_nil|].
  intros [l good] op Hin Hg. unfold custody_select_step. cbn [fst snd]. destruct (apply_custody_op _ _ _ _); [|done]. cbn [snd] in *.
  intros x [Hx|Hx%list_elem_of_singleton]%elem_of_app; [by apply Hg|]. by subst.
Qed.
Lemma custody_forms_ok dag cid ops l l' :
  try_fold (strict_custody hex_err cid) l ops = Ok l' → Forall (λ op, check_custody_anchor dag op = Ok ()) ops →
  validate_custody_ops dag cid ops = Ok ().
Proof.
  intros Hr Ha. revert l Hr. unfold validate_custody_ops. induction Ha as [|op ops Hop _ IH]; intros l Hr; [done|]. cbn [try_fold] in *.
  unfold strict_custody in Hr at 1. destruct (apply_custody_op hex_err l cid op) as [l1|] eqn:Hc; [|done]. cbn [map_err] in Hr.
  assert (validate_custody_op dag cid op = Ok ()) as ->; [|by eapply IH].
  unfold apply_custody_op in Hc. unfold validate_custody_op. destruct (negb (cc_chain_id op =? cid)); [done|].
  destruct (cc_amount op =? 0); [done|]. destruct (negb (is_valid_address _)); [done|].
  destruct (parse_settlement_id _ _ _); [|done]. cbn [mbind result_bind] in *. destruct (custody_verify _ _); [|done]. cbn [mbind result_bind map_err] in *.
  destruct (negb _); [done|]. by destruct (cc_kind op).
Qed.

(** ** The state of the node *)

Lemma reachable_tips L0 s : reachable L0 s → NoDup (cs_tips s).
Proof.
  induction 1 as [|s now b s' Hr IH Hsz Ha]; [apply NoDup_singleton|].
  destruct (reachable_ok _ _ Hr) as (Hok & Har & _). destruct (add_block_ok L0 s now b s' Hok Har Hsz Ha) as (d & Hc & _ & _ & _ & _ & -> & _).
  destruct (check_block_ok _ _ _ _ Hc) as (Hn & _). cbn [insert_block set_graph cs_tips]. apply NoDup_app. split_and!; [| |apply NoDup_singleton].
  - assert (∀ ps ts, NoDup ts → NoDup (foldl (λ ts p, List.filter (λ t, negb (t =? p)) ts) ts ps)) as Hf; [|by apply Hf].
    induction ps as [|p ps IHp]; intros ts Hts; [done|]. cbn [foldl]. apply IHp. eapply sublist_NoDup; [exact Hts|apply filter_bool_sublist].
  - intros x [Hx _]%filter_tips ->%list_elem_of_singleton. apply Hn. apply (ok_tips _ _ Hok) in Hx. by destruct Hx.
Qed.
Lemma reached_ok L0 s : reached L0 s → chain_ok L0 s ∧ cs_archival s = true ∧ NoDup (cs_tips s).
Proof.
  intros (s0 & Hr & Hs). destruct (reachable_ok _ _ Hr) as (Hok & Har & _). pose proof (reachable_tips _ _ Hr) as Hnd. rewrite Hs.
  split_and!; [exact (chain_ok_pools L0 s0 (cs_pools s) (cs_difficulty s0) Hok)|done|done].
Qed.

Section producer.
Context (L0 : Ledger) (s : ChainState) (Hs : reached L0 s).
Let Hok : chain_ok L0 s := proj1 (reached_ok L0 s Hs).

Lemma tips_known x : x ∈ cs_tips s → x ∈ dom (cs_dag s) ∧ x ∈ dom (cs_ghostdag s).
Proof.
  intros [Hx _]%(ok_tips _ _ Hok). destruct (rbuilt_ok _ _ _ (ok_graph _ _ Hok)) as (Hi & _). split; [done|]. by rewrite (inv_dom _ _ Hi).
Qed.
(** The selected parent of a template is the selected tip. *)
Lemma template_selects tip :
  selected_tip (cs_ghostdag s) (cs_tips s) = Some tip → select_parent (cs_ghostdag s) (template_parents s) = Some tip.
Proof.
  intros Ht. destruct (template_parents_spec s (proj2 (proj2 (reached_ok L0 s Hs)))) as (_ & Hsub & _ & Hin).
  specialize (Hin tip Ht (λ x Hx, proj2 (tips_known x Hx))). destruct (select_parent_Some _ _ _ Ht) as (_ & Htd & Hmax).
  destruct (select_parent (cs_ghostdag s) (template_parents s)) as [sp|] eqn:Hsp; [|by destruct (select_parent_None _ _ tip Hsp Hin)].
  destruct (select_parent_Some _ _ _ Hsp) as (Hpin & Hpd & Hpmax). f_equal. apply (key_le_antisym (cs_ghostdag s)); [|by apply Hpmax].
  apply Hmax; [by apply Hsub|done].
Qed.
Lemma template_final : finality_violation s (template_parents s) = false.
Proof.
  destruct (ok_main _ _ Hok) as (tip & Ht & _). unfold finality_violation. rewrite (template_selects tip Ht).
  destruct (finality_point s) as [fp|] eqn:Hfp; [|done]. destruct (rbuilt_ok _ _ _ (ok_graph _ _ Hok)) as (Hi & _).
  destruct (finality_point_chain s tip fp Hi Ht Hfp) as [Hfc _]. destruct (select_parent_Some _ _ _ Ht) as (Hti & Htd & _).
  rewrite (chain_ancestor_test _ _ _ fp tip (ok_graph _ _ Hok)).
  - rewrite (bool_decide_eq_true_2 (fp ∈ _)) by done. reflexivity.
  - rewrite <- (inv_dom _ _ Hi). by apply (chain_dom _ _ Hi tip).
  - by apply tips_known.
Qed.
Lemma template_parents_checked :
  bool_decide (template_parents s = []) = false ∧ has_duplicate ∅ (template_parents s) = false ∧
  existsb (λ p, negb (bool_decide (p ∈ dom (cs_dag s)))) (template_parents s) = false.
Proof.
  destruct (template_parents_spec s (proj2 (proj2 (reached_ok L0 s Hs)))) as (Hnd & Hsub & _ & Hin).
  destruct (ok_main _ _ Hok) as (tip & Ht & _). specialize (Hin tip Ht (λ x Hx, proj2 (tips_known x Hx))). split_and!.
  - apply bool_decide_eq_false_2. intros He. rewrite He in Hin. by apply elem_of_nil in Hin.
  - assert (∀ (seen : gset Hash) l, NoDup l → (∀ x, x ∈ l → x ∉ seen) → has_duplicate seen l = false) as Hd; [|apply Hd; [done|set_solver]].
    intros seen l Hl. revert seen. induction Hl as [|x l Hx _ IH]; intros seen Hsn; [done|]. cbn [has_duplicate].
    rewrite bool_decide_eq_false_2 by (apply Hsn; set_solver). apply IH. intros y Hy. assert (y ≠ x) by (by intros ->).
    specialize (Hsn y ltac:(set_solver)). set_solver.
  - apply not_true_iff_false. intros (p & Hp%list_elem_of_In & Hn)%existsb_exists. zbool. apply Hn. by apply tips_known, Hsub.
Qed.
End producer.

(** ** Search and proof *)

(** What the parallel search and winterfell's prover promise: a lane that found a
    nonce is returned, and the proof of a trace built by the transition function parses,
    fits and verifies. *)
Class MinerEnvOk : Prop := {
  pick_any_in l x : pick_any l = Some x → x ∈ l;
  pick_any_some l : l ≠ [] → is_Some (pick_any l);
  prove_parses seed r : proof_parses (winterfell_prove seed r) = true;
  prove_size seed r : 0 < len (winterfell_prove seed r) <= MAX_STARK_PROOF_BYTES - Z.of_nat RESULT_HEADER_LEN;
  prove_verifies h : winterfell_verify (winterfell_prove (prove_inputs h).1 (prove_inputs h).2) (prove_inputs h).1 (prove_inputs h).2 = true;
}.

Lemma prove_result_range h : 0 <= (prove_inputs h).2 < F128_MODULUS.
Proof.
  unfold prove_inputs. cbn [snd]. generalize (seed_from_bytes h). intros seed.
  assert (0 < F128_MODULUS) as Hm by (vm_compute; reflexivity).
  assert (∀ n i x, build_trace x n !! S i = None ∨ ∃ y, build_trace x n !! S i = Some (step y)) as Hr.
  { induction n as [|n IH]; intros i x; [by left|]. cbn [build_trace lookup list_lookup]. destruct i as [|i]; [|apply IH].
    destruct n; [by left|]. right. by exists x. }
  assert (∃ k, (SEQUENTIAL_STEPS - 1)%nat = S k) as [k ->] by (eexists; vm_compute; reflexivity).
  destruct (Hr SEQUENTIAL_STEPS k seed) as [->|[y ->]]; cbn [default from_option id]; [lia|]. unfold step. apply Z.mod_pos_bound. done.
Qed.
Lemma stark_prove_ok `{!MinerEnvOk} h :
  precheck_format (stark_prove h) = Ok () ∧ stark_verify h (stark_prove h) = true ∧ stark_prove h ≠ [].
Proof.
  unfold stark_verify, stark_prove. pose proof (prove_result_range h) as Hr. pose proof (prove_verifies h) as Hv.
  assert ((prove_inputs h).1 = seed_from_bytes h) as Hseed by done. destruct (prove_inputs h) as [seed r]. cbn [fst snd] in *.
  pose proof (prove_size seed r) as Hsz. pose proof (prove_parses seed r) as Hp.
  assert (length (be_bytes 16 r) = RESULT_HEADER_LEN) as Hl by apply length_be_bytes.
  assert (drop RESULT_HEADER_LEN (be_bytes 16 r ++ winterfell_prove seed r) = winterfell_prove seed r) as Hd by (rewrite <- Hl; apply drop_app_length).
  assert (take RESULT_HEADER_LEN (be_bytes 16 r ++ winterfell_prove seed r) = be_bytes 16 r) as Ht by (rewrite <- Hl; apply take_app_length).
  assert (precheck_format (be_bytes 16 r ++ winterfell_prove seed r) = Ok ()) as Hf.
  { unfold precheck_format. unfold len in *. rewrite length_app, Hl, Hd, Hp.
    rewrite (proj2 (Z.leb_gt _ _)) by lia. rewrite (proj2 (Z.ltb_ge _ _)) by lia. done. }
  rewrite Hf, Ht, Hd. split_and!; [done| |].
  - cbn [is_err]. rewrite be_int_bytes by (split; [lia|]; eapply Z.lt_trans; [apply Hr|vm_compute; reflexivity]).
    unfold BaseElement_new. rewrite Z.mod_small by done. by rewrite <- Hseed.
  - intros He. apply (f_equal length) in He. rewrite length_app, Hl in He. discriminate He.
Qed.

Definition with_nonce_of (t : Block) (n : Z) : Block :=
  with_header t (blk_merkle_root t) (blk_miner t) (blk_creator_pubkey t) n.
Lemma lane_search_ok fuel target t nonce n h :
  lane_search fuel target t nonce = Some (n, h) → hash_meets_target (block_hash (with_nonce_of t n)) target = true.
Proof.
  revert nonce. induction fuel as [|fuel IH]; intros nonce; [done|]. cbn [lane_search].
  fold (with_nonce_of t nonce). destruct (hash_meets_target (block_hash (with_nonce_of t nonce)) _) eqn:Hm; [|apply IH]. by intros [= <- _].
Qed.
Lemma share_found `{!MinerEnvOk} s miners work attempts share :
  check_miner_shares s miners work attempts = Some share →
  ∃ m t, head miners = Some m ∧ address_matches_pubkey (mi_address m) (mi_public_key m) = true ∧
    searched_template s m work = Ok t ∧ sr_miner share = mi_address m ∧
    hash_meets_target (block_hash (with_nonce_of t (sr_nonce share))) (mw_target work) = true.
Proof.
  unfold check_miner_shares. destruct (head miners) as [m|]; [|done]. cbn [mbind option_bind].
  destruct (address_matches_pubkey _ _) eqn:Ha; [|done]. cbn [negb]. destruct (searched_template s m work) as [t|] eqn:Ht; [|done].
  intros Hp%pick_any_in. apply list_elem_of_omap in Hp as (lane & _ & Hl).
  destruct (lane_search _ _ _ _) as [[n h]|] eqn:Hls; [|done]. cbn [mbind option_bind] in Hl. injection Hl as <-.
  apply lane_search_ok in Hls. exists m, t. by split_and!.
Qed.
(** The assembled block is the searched one with the nonce and the witness data. *)
Lemma assembled s miners work share rng block m t :
  head miners = Some m → searched_template s m work = Ok t → sr_miner share = mi_address m →
  assemble_block s miners work share rng = Ok block →
  ∃ sk cert size, mi_signing_key m = Some sk ∧
    sign_pq512 (str_bytes "birth-certificate") (settlement_id (with_nonce_of t (sr_nonce share))) sk rng = Ok cert ∧
    block = with_witness (with_nonce_of t (sr_nonce share))
              (stark_prove (hash_bytes (block_hash (with_nonce_of t (sr_nonce share))))) cert size.
Proof.
  intros Hm Ht Hmi. unfold assemble_block. destruct miners as [|m0 miners]; [done|]. injection Hm as ->. cbn [List.find].
  rewrite bool_decide_eq_true_2 by done. cbn [ok_or mbind result_bind]. destruct (mi_signing_key m) as [sk|]; [|done].
  cbn [ok_or mbind result_bind]. destruct (negb _); [done|]. unfold searched_template in Ht.
  pose proof (bind_again _ _ _ (sr_nonce share) Ht) as Hb.
  match type of Hb with bind_parent_commitments s ?x = _ => match goal with |- context [bind_parent_commitments s ?y] => change y with x end end.
  rewrite Hb. cbn [mbind result_bind].
  match goal with |- context [sign_pq512 _ (settlement_id ?b)] => assert (b = with_nonce_of t (sr_nonce share)) as -> end.
  { destruct (bind_ok _ _ _ Ht) as (gd & sp & root & _ & _ & -> & _). reflexivity. }
  destruct (sign_pq512 _ _ sk rng) as [cert|] eqn:Hsg; [|done]. cbn [mbind result_bind]. intros Heq.
  apply (f_equal (λ r, match r with Ok x => x | Err _ => block end)) in Heq. subst block. exists sk, cert. eexists. split_and!; [done|done|]. reflexivity.
Qed.

(** ** A produced block is admitted *)

(** ML-DSA's law for a registered key pair: what the secret key signs, the public key
    verifies. *)
Definition signs_for (m : Miner) : Prop :=
  ∀ sk dom msg rng sig, mi_signing_key m = Some sk → sign_pq512 dom msg sk rng = Ok sig →
    verify_pq512 dom msg (mi_public_key m) sig = true ∧ sig ≠ [].
(** The readings of the clock that the rules on timestamps accept. *)
Definition timely (s : ChainState) (timestamp now : Z) : Prop :=
  default 0 (max_timestamp (cs_dag s) (template_parents s)) <= timestamp <= sat_add 64 now MAX_FUTURE_DRIFT_MS ∧
  ∀ tip, selected_tip (cs_ghostdag s) (cs_tips s) = Some tip → past_median_time s tip < timestamp.

(** A body that applies has no transfers, and its entries pass the form checks. *)
Lemma applied_body s sp ms b score root :
  post_mergeset_state_root s sp ms b score = Ok root →
  spends_back (blk_utxo_txs b) → Forall (λ op, op_chain_id op = cs_chain_id s ∧ op_verify op = true) (blk_registry_ops b) →
  Forall (λ op, check_custody_anchor (cs_dag s) op = Ok ()) (blk_custody_ops b) → validate_block_transactions s b = Ok ().
Proof.
  unfold post_mergeset_state_root, post_mergeset_ledger, simulate_apply_block_body. intros Hr Hb Hreg Hcu.
  destruct (blk_transparent_txs b) as [|tx txs] eqn:Ht; [|done]. cbn [try_fold mbind result_bind] in Hr.
  destruct (try_fold (strict_utxo _ _) _ _) as [[l1 f1]|] eqn:H1'; [|done]. cbn [mbind result_bind] in Hr.
  destruct (try_fold (strict_registry _ _) _ _) as [l2|] eqn:H2'; [|done]. cbn [mbind result_bind] in Hr.
  destruct (try_fold (strict_custody _ _) _ _) as [l3|] eqn:H3'; [|done].
  unfold validate_block_transactions. rewrite Ht. change (validate_account_forms (cs_chain_id s) []) with (Ok () : result unit).
  cbn [mbind result_bind]. rewrite (utxo_forms_ok _ _ _ _ _ _ H1' Hb). cbn [mbind result_bind]. rewrite (registry_forms_ok _ _ Hreg).
  cbn [mbind result_bind]. by eapply custody_forms_ok.
Qed.

(** What the search starts from: the template of the chosen miner. *)
Record template_for (s : ChainState) (timestamp : Z) (m : Miner) (t : Block) (gd : GhostdagData) (sp root : Hash) : Prop := {
  tf_parents : blk_parents t = template_parents s;
  tf_timestamp : blk_timestamp t = timestamp;
  tf_difficulty : blk_difficulty t = expected_difficulty_at s (template_parents s) timestamp;
  tf_ghostdag : try_compute_ghostdag_data (cs_reachability s) (cs_dag s) (cs_ghostdag s) (template_parents s) MAX_MERGESET_SIZE = Ok gd;
  tf_selected : gd_selected_parent gd = Some sp;
  tf_interlinks : blk_interlinks t = expected_interlinks s sp;
  tf_root : post_mergeset_state_root s sp (merged gd) t (gd_blue_score gd) = Ok root;
  tf_state_root : blk_state_root t = root;
  tf_body_root : blk_merkle_root t = body_root t;
  tf_creator : blk_creator_pubkey t = mi_public_key m;
  tf_miner : blk_miner t = address_hash (mi_public_key m);
  tf_registry : Forall (λ op, op_chain_id op = cs_chain_id s ∧ op_verify op = true) (blk_registry_ops t);
  tf_custody : blk_custody_ops t ⊆ custody_mempool (cs_pools s);
}.
Lemma searched_ok s timestamp entropy job_ms work m t :
  create_block_template s timestamp entropy job_ms = Some (Ok work) → searched_template s m work = Ok t →
  mw_target work = pow_target (blk_difficulty t) ∧ ∃ gd sp root, template_for s timestamp m t gd sp root.
Proof.
  unfold create_block_template. intros Hc Hs. destruct (select_valid_block_txs _ _ _) as [txs|]; [|done]. cbn [mbind option_bind] in Hc.
  apply (inj Some) in Hc. destruct (finish_ok _ _ _ _ Hc) as (b & _ & Htr & Hb2 & Htg). cbv zeta in *. set (tb := trim_body _ b) in *.
  destruct Htr as [Hh Hts Hpa Hdi _ _ Hre Hcu]. destruct (bind_ok _ _ _ Hb2) as (gd0 & sp0 & r0 & _ & _ & Hw & _).
  unfold searched_template in Hs. rewrite Hw in Hs. destruct (bind_ok _ _ _ Hs) as (gd & sp & root & Hgd & Hsp & -> & Hroot).
  cbn [with_commitments set_root with_header blk_parents] in Hgd. rewrite Hpa in Hgd. split.
  { rewrite Htg. cbn [with_commitments set_root with_header blk_difficulty]. by rewrite Hdi. }
  exists gd, sp, root. split; cbn [with_commitments set_root with_header blk_parents blk_timestamp blk_difficulty blk_interlinks
    blk_state_root blk_merkle_root blk_creator_pubkey blk_miner blk_registry_ops blk_custody_ops]; try done.
  - rewrite <- Hroot. by apply post_root_same.
  - apply Forall_forall. intros op Hop%Hre. by eapply Forall_forall in Hop; [|apply registry_selected].
  - etrans; [exact Hcu|]. etrans; [apply custody_selected|]. apply sublist_subseteq, sublist_take.
Qed.

Lemma selected_parent_select {R} `{!AncestorOracle R} (r : R) dag gd ps cap d sp :
  try_compute_ghostdag_data r dag gd ps cap = Ok d → gd_selected_parent d = Some sp → select_parent gd ps = Some sp.
Proof.
  unfold try_compute_ghostdag_data. destruct (select_parent gd ps) as [sp'|]; [|by intros [= <-]].
  destruct (_ <? _); [done|]. by intros [= <-].
Qed.
(** The issuance rule holds for a certificate signed by the miner's key. *)
Lemma issuance_ok b pk :
  len pk = PQ_PUBLIC_KEY_SIZE → blk_creator_pubkey b = pk → blk_miner b = address_hash pk →
  verify_pq512 (str_bytes "birth-certificate") (settlement_id b) pk (blk_birth_certificate b) = true → verify_issuance b = Ok ().
Proof.
  intros Hl Hc Hm Hv. unfold verify_issuance, birth_verify. rewrite Hc, Hm, Hl, Hv, !Z.eqb_refl. by destruct (bool_decide _).
Qed.

Section admitted.
Context `{!MinerEnvOk}.

(** A block made from a searched template, with its proof and its certificate, passes
    every check of admission. *)
Lemma witness_admitted L0 s timestamp now m t gd sp root n cert size :
  let c := with_nonce_of t n in
  let b := with_witness c (stark_prove (hash_bytes (block_hash c))) cert size in
  reached L0 s → template_for s timestamp m t gd sp root → timely s timestamp now →
  hash_meets_target (block_hash c) (pow_target (blk_difficulty t)) = true →
  verify_pq512 (str_bytes "birth-certificate") (settlement_id c) (mi_public_key m) cert = true → cert ≠ [] →
  spends_back (blk_utxo_txs t) → Forall (λ op, check_custody_anchor (cs_dag s) op = Ok ()) (custody_mempool (cs_pools s)) →
  block_hash b ∉ dom (cs_dag s) → verify_size b = true → wire_size b <= MAX_BLOCK_BYTES →
  check_block s now b = Ok gd.
Proof.
  intros c b Hs Ht [Hts Hmed] Hpow Hcert Hne Hback Hanch Hnew Hsz Hwire.
  destruct (reached_ok L0 s Hs) as (Hok & _ & Hnd). destruct (ok_main _ _ Hok) as (tip & Htip & _).
  pose proof (template_selects L0 s Hs tip Htip) as Hsel. pose proof (selected_parent_select _ _ _ _ _ _ _ (tf_ghostdag _ _ _ _ _ _ _ Ht) (tf_selected _ _ _ _ _ _ _ Ht)) as Hsel'.
  rewrite Hsel in Hsel'. injection Hsel' as <-. destruct (template_parents_checked L0 s Hs) as (Hp1 & Hp2 & Hp3).
  destruct (template_parents_spec s Hnd) as (_ & _ & Hp4 & _). pose proof (template_final L0 s Hs) as Hfin.
  destruct (stark_prove_ok (hash_bytes (block_hash c))) as (Hst1 & Hst2 & Hst3).
  assert (validate_block_transactions s b = Ok ()) as Hval.
  { change (validate_block_transactions s t = Ok ()). eapply applied_body; [apply (tf_root _ _ _ _ _ _ _ Ht)|done|apply (tf_registry _ _ _ _ _ _ _ Ht)|].
    apply Forall_forall. intros op Hop%(tf_custody _ _ _ _ _ _ _ Ht). rewrite Forall_forall in Hanch. by apply Hanch. }
  assert (verify_issuance b = Ok ()) as Hiss.
  { eapply issuance_ok; [|apply (tf_creator _ _ _ _ _ _ _ Ht)|apply (tf_miner _ _ _ _ _ _ _ Ht)|exact Hcert]. by apply verify_pq512_sizes in Hcert as [? _]. }
  assert (post_mergeset_state_root s tip (merged gd) b (gd_blue_score gd) = Ok root) as Hroot.
  { rewrite <- (tf_root _ _ _ _ _ _ _ Ht). by apply post_root_same. }
  assert (verify_stark_proof b = true) as Hstark by exact Hst2.
  assert (verify_pow (block_hash b) (blk_difficulty b) = true) as Hpow' by exact Hpow.
  assert (blk_merkle_root b = body_root b) as Hbody by exact (tf_body_root _ _ _ _ _ _ _ Ht).
  unfold check_block. cbv zeta. rewrite (bool_decide_eq_false_2 (block_hash b ∈ _)) by done. rewrite Hsz. cbn [negb].
  rewrite (proj2 (Z.ltb_ge _ _)) by done.
  change (blk_parents b) with (blk_parents t). change (blk_timestamp b) with (blk_timestamp t). change (blk_interlinks b) with (blk_interlinks t).
  change (blk_stark_proof b) with (stark_prove (hash_bytes (block_hash c))). change (blk_birth_certificate b) with cert.
  rewrite (tf_parents _ _ _ _ _ _ _ Ht), (tf_timestamp _ _ _ _ _ _ _ Ht), (tf_interlinks _ _ _ _ _ _ _ Ht), Hp1, Hp2, Hp3, Hfin.
  rewrite (proj2 (Z.ltb_ge MAX_BLOCK_PARENTS _)) by done.
  rewrite Hpow', Hst1, Hsel, Hbody, Hstark, Hiss, Hval, (tf_ghostdag _ _ _ _ _ _ _ Ht), Z.eqb_refl.
  change (blk_difficulty b) with (blk_difficulty t). rewrite (tf_difficulty _ _ _ _ _ _ _ Ht), Z.eqb_refl.
  rewrite !(bool_decide_eq_false_2 (_ = [])) by done. cbn [negb orb map_err ok_or mbind result_bind].
  rewrite Hroot. cbn [mbind result_bind]. change (blk_state_root b) with (blk_state_root t). rewrite (tf_state_root _ _ _ _ _ _ _ Ht), Z.eqb_refl.
  rewrite bool_decide_eq_true_2 by done. rewrite (proj2 (Z.ltb_ge timestamp _)) by lia.
  rewrite (proj2 (Z.leb_gt timestamp _)) by (by apply Hmed). rewrite (proj2 (Z.ltb_ge _ timestamp)) by lia. cbn [negb]. by rewrite andb_false_r.
Qed.

(** C11. A block the producer makes in one turn is admitted by its own node, if template,
    nonce search and assembly run on one state and all succeed: the block passes every check
    of admission and the turn ends in the state with that block connected.  The hypotheses
    are what the producer does not establish itself: the state is one that an archival node
    reaches from genesis (up to the mempools); the registered miners' keys sign; the clock
    readings satisfy the timestamp rules; every pooled custody operation passes
    [check_custody_anchor]; no UTXO transaction of the block spends an output of itself or
    of a later one ([spends_back]); the block's hash is not in the DAG yet; and the block
    keeps the two size limits. *)
Theorem mined_block_admitted L0 s e t work share block :
  reached L0 s → Forall signs_for (en_miners e) → timely s (tn_timestamp t) (tn_admit_ms t) →
  Forall (λ op, check_custody_anchor (cs_dag s) op = Ok ()) (custody_mempool (cs_pools s)) →
  create_block_template s (tn_timestamp t) (tn_entropy t) (tn_job_ms t) = Some (Ok work) →
  check_miner_shares s (en_miners e) work (tn_attempts t) = Some share →
  assemble_block s (en_miners e) work share (tn_rng t) = Ok block →
  spends_back (blk_utxo_txs block) → block_hash block ∉ dom (cs_dag s) →
  verify_size block = true → wire_size block <= MAX_BLOCK_BYTES →
  ∃ s', add_block s (tn_admit_ms t) block = Ok s' ∧ mining_turn e t s s s s = Some s'.
Proof.
  intros Hs Hsign Htime Hanch Hwork Hshare Hblock Hback Hnew Hsz Hwire.
  destruct (share_found _ _ _ _ _ Hshare) as (m & tb & Hm & _ & Hsearch & Hmi & Hpow).
  destruct (searched_ok _ _ _ _ _ _ _ Hwork Hsearch) as (Htg & gd & sp & root & Htf). rewrite Htg in Hpow.
  destruct (assembled _ _ _ _ _ _ _ _ Hm Hsearch Hmi Hblock) as (sk & cert & size & Hsk & Hsg & Hb).
  assert (signs_for m) as Hsm. { destruct (en_miners e) as [|m0 ms]; [done|]. injection Hm as ->. by apply Forall_cons in Hsign as [? _]. }
  destruct (Hsm sk _ _ _ _ Hsk Hsg) as [Hcert Hne].
  assert (check_block s (tn_admit_ms t) block = Ok gd) as Hck by (subst block; by eapply witness_admitted).
  assert (add_block s (tn_admit_ms t) block = Ok (connect_block s block gd)) as Hadd by (unfold add_block; by rewrite Hck).
  exists (connect_block s block gd). split; [done|]. unfold mining_turn. rewrite Hwork. cbn [mbind option_bind]. by rewrite Hshare, Hblock, Hadd.
Qed.
End admitted.

(** ** Where the producer stalls *)

(** What assembly keeps of the template. *)
Lemma assembled_frame s timestamp entropy job_ms work miners share rng block :
  create_block_template s timestamp entropy job_ms = Some (Ok work) → assemble_block s miners work share rng = Ok block →
  blk_parents block = template_parents s ∧ blk_timestamp block = timestamp.
Proof.
  intros Hc. unfold assemble_block. destruct (List.find _ miners) as [m|]; [|done]. cbn [ok_or mbind result_bind].
  destruct (mi_signing_key m) as [sk|]; [|done]. cbn [ok_or mbind result_bind]. destruct (negb _); [done|].
  destruct (bind_parent_commitments s (set_root _)) as [b|] eqn:Hb; [|done]. cbn [mbind result_bind].
  destruct (sign_pq512 _ _ _ _) as [cert|]; [|done]. cbn [mbind result_bind]. intros Heq.
  apply (f_equal (λ r, match r with Ok x => (blk_parents x, blk_timestamp x) | Err _ => ([], 0) end)) in Heq.
  cbn [with_witness blk_parents blk_timestamp] in Heq. injection Heq as <- <-.
  destruct (bind_ok _ _ _ Hb) as (? & ? & ? & _ & _ & -> & _). cbn [with_commitments set_root with_header blk_parents blk_timestamp].
  unfold create_block_template in Hc. destruct (select_valid_block_txs _ _ _); [|done]. apply (inj Some) in Hc.
  destruct (finish_ok _ _ _ _ Hc) as (b0 & _ & Htr & Hb2 & _). destruct (bind_ok _ _ _ Hb2) as (? & ? & ? & _ & _ & -> & _).
  cbn [with_commitments set_root with_header blk_parents blk_timestamp]. by rewrite (tr_parents _ _ Htr), (tr_timestamp _ _ Htr).
Qed.

(** The template takes its timestamp from the clock and does not raise it to the
    parents': while a tip carries a later timestamp (admission allows two hours), no
    turn of the producer changes the chain, whatever the search finds. *)
Theorem future_tip_stalls s e t p bp s' :
  p ∈ template_parents s → cs_dag s !! p = Some bp → tn_timestamp t < blk_timestamp bp →
  mining_turn e t s s s s = Some s' → s' = s.
Proof.
  intros Hp Hbp Hlt. unfold mining_turn. destruct (create_block_template _ _ _ _) as [[work|]|] eqn:Hc; [|done|done]. cbn [mbind option_bind].
  destruct (check_miner_shares _ _ _ _); [|by intros [= ->]]. destruct (assemble_block _ _ _ _ _) as [block|] eqn:Ha; [|by intros [= ->]].
  destruct (assembled_frame _ _ _ _ _ _ _ _ _ Hc Ha) as [Hpar Hts].
  unfold add_block. destruct (check_block _ _ block) as [gd|] eqn:Hk; [|by intros [= ->]]. exfalso.
  destruct (check_block_ok _ _ _ _ Hk) as (_ & _ & _ & _ & _ & _ & _ & _ & _ & _ & _ & sp & _ & _ & Hmax & _).
  rewrite Hpar, Hts in Hmax. unfold max_timestamp in Hmax.
  assert (blk_timestamp bp ∈ omap (λ h, blk_timestamp <$> cs_dag s !! h) (template_parents s)) as Hin.
  { apply list_elem_of_omap. exists p. by rewrite Hbp. }
  destruct (omap _ _) as [|x l] eqn:Ho; [by apply elem_of_nil in Hin|]. cbn [default from_option id] in Hmax.
  pose proof (zmax_list_ge _ _ Hin). lia.
Qed.

(** The template is filled from the state at the selected tip but bound to the state after the
    merge set: when a merged sibling has spent an output that the first pooled transaction spends,
    the binding fails, and the [expect] on it ends the producer's thread. *)
Theorem merged_spend_panics s e t gd sp tx txs tin s2 s3 s4 :
  transparent_mempool (cs_pools s) = [] →
  try_compute_ghostdag_data (cs_reachability s) (cs_dag s) (cs_ghostdag s) (template_parents s) MAX_MERGESET_SIZE = Ok gd →
  gd_selected_parent gd = Some sp → select_valid_utxo_txs s (utxo_mempool (cs_pools s)) = tx :: txs → tin ∈ inputs tx →
  entries (l_utxo (foldl (sim_step s) (virtual_state_at s sp) (merged gd)).1) !! previous tin = None →
  mining_turn e t s s2 s3 s4 = None.
Proof.
  intros Hpool Hgd Hsp Hsel Hin Hdead. unfold mining_turn, create_block_template. rewrite Hpool.
  change (select_valid_block_txs s [] (sender_order (mempool_index_by_sender []))) with (Some ([] : list TransparentTx)). cbn [mbind option_bind].
  unfold finish_template. destruct (bind_parent_commitments s _) as [b|] eqn:Hb; [exfalso|done].
  destruct (bind_ok _ _ _ Hb) as (gd' & sp' & root & Hgd' & Hsp' & _ & Hroot).
  cbn [raw_template blk_parents] in Hgd'. rewrite Hgd in Hgd'. injection Hgd' as <-. rewrite Hsp in Hsp'. injection Hsp' as <-.
  unfold post_mergeset_state_root, post_mergeset_ledger, simulate_apply_block_body in Hroot.
  cbn [raw_template blk_transparent_txs blk_utxo_txs] in Hroot. rewrite Hsel in Hroot. cbn [take try_fold mbind result_bind] in Hroot.
  unfold strict_utxo at 1 in Hroot. destruct (negb _); [done|]. unfold ledger_utxo_tx in Hroot. cbn [fst] in Hroot.
  destruct (apply_utxo_tx _ tx _) as [[[]|err] s'] eqn:Ha; [|done].
  destruct (utxo_tx_parts _ _ _ _ Ha) as (_ & _ & _ & Hlive). destruct (Hlive tin Hin) as [o Ho]. simpl in Ho. congruence.
Qed.
End mining.

(** ** Example: a node that mines on genesis *)

Module MinerExample.
#[export] Existing Instances ChainExample.ex_crypto ChainExample.ex_dual ChainExample.ex_body ChainExample.ex_env NodeExample.ex_pool_env.
#[export] Instance ex_miner_env : MinerEnv :=
  {| num_lanes := 2; pick_any := head; sender_order m := elements (dom m); winterfell_prove _ _ := [1] |}.
#[export] Instance ex_miner_ok : MinerEnvOk.
Proof.
  split; [|intros [|x l] Hl; [done|by eexists]|done|intros; vm_compute; split; [reflexivity|discriminate]|done].
  intros [|y l] x; [done|]. intros [= ->]. apply list_elem_of_here.
Qed.
Definition miner : Miner :=
  {| mi_address := hash_to_address ChainExample.pk; mi_public_key := ChainExample.pk; mi_signing_key := Some ChainExample.pk;
     mi_stake := 0; mi_hashrate := 0; mi_tor_address := None; mi_is_pool := false |}.
Lemma miner_signs : signs_for miner.
Proof.
  intros sk dom msg rng sig [= <-]. unfold sign_pq512, sign_message, verify_pq512, verify_signature.
  generalize (digest512 dom msg). intros m. cbn [mi_public_key miner]. change (len ChainExample.pk =? PQ_SECRET_KEY_SIZE) with true.
  change (len ChainExample.pk =? PQ_PUBLIC_KEY_SIZE) with true. cbn [negb]. intros [= <-]. split; [|done]. cbn [negb ml_dsa_pk_parses].
  simpl. by rewrite bool_decide_eq_true_2.
Qed.
Definition engine : BlockDAGConsensus := register_miner BlockDAGConsensus_new miner.
Definition turn (ts : Z) : Turn :=
  {| tn_timestamp := ts; tn_entropy := 7; tn_job_ms := ts; tn_attempts _ := 3%nat; tn_rng := []; tn_admit_ms := ChainExample.now |}.
Definition t1 : Turn := turn (GENESIS_TIMESTAMP_MS + 100).
Definition produced (s : ChainState) (t : Turn) : option (MiningWork * StratumShare * Block) :=
  match create_block_template s (tn_timestamp t) (tn_entropy t) (tn_job_ms t) with
  | Some (Ok work) =>
      share ← check_miner_shares s (en_miners engine) work (tn_attempts t);
      match assemble_block s (en_miners engine) work share (tn_rng t) with Ok b => Some (work, share, b) | Err _ => None end
  | _ => None
  end.

(** A node whose mempool holds a payment that a sibling of its selected tip includes. *)
Definition coin : OutPoint := {| txid := 9; vout := 0 |}.
Definition purse : Ledger :=
  {| l_accounts := ∅; minted_supply := 50000; fees_burned := 0; treasury := 0; l_registry := RegistryState_default; staked := ∅;
     l_utxo := {| entries := {[ coin := {| value := 50000; predicate := PayToAddress (mi_address miner); created_blue := 0 |} ]}; spent := ∅ |} |}.
Definition pay : UtxoTx :=
  let tx := match payment ChainExample.pk coin 50000 (hash_to_address [3; 4]) 20000 0 CHAIN_ID 0 0 with
            | Ok tx => tx | Err _ => payment_body ChainExample.pk coin 0 0 0 0 [] end in
  match sign tx ChainExample.pk [] with Ok tx => tx | Err _ => tx end.
Definition forge (s : ChainState) (ts : Z) (txs : list UtxoTx) : Block :=
  let t := set_root (with_body (ChainExample.template ts [genesis_hash]) [] txs [] []) in
  let b := match bind_parent_commitments s t with Ok b => b | Err _ => t end in
  with_witness b (replicate 20 1)
    (match sign_pq512 (str_bytes "birth-certificate") (settlement_id b) ChainExample.pk [] with Ok c => c | Err _ => [] end) 0.
Definition extend (s : ChainState) (b : Block) : ChainState :=
  match add_block s ChainExample.now b with Ok s => s | Err _ => s end.
Definition g0 : ChainState := seeded purse.
Definition own : Block := forge g0 (GENESIS_TIMESTAMP_MS + 100) [].
Definition rival : Block := forge g0 (GENESIS_TIMESTAMP_MS + 150) [pay].
Definition torn : ChainState := (admit_utxo_to_mempool (extend (extend g0 own) rival) ChainExample.now pay).2.

(** The first turn on genesis, a turn with a slow clock, and a turn on the torn state. *)
Definition first_turn_ok (s : ChainState) (t : Turn) : bool :=
  match produced s t with
  | None => false
  | Some (_, _, b) =>
      negb (block_hash b =? genesis_hash) && verify_size b && (wire_size b <=? MAX_BLOCK_BYTES) && (len (blk_utxo_txs b) =? 0)
  end && (default 0 (max_timestamp (cs_dag s) (template_parents s)) <=? tn_timestamp t) &&
  (past_median_time s genesis_hash <? tn_timestamp t).
Lemma first_turn_checked : first_turn_ok ChainExample.start t1 = true.
Proof. vm_compute. reflexivity. Qed.
Definition slow : Turn := turn (GENESIS_TIMESTAMP_MS + 50).
Definition stalled_ok (s : ChainState) (t : Turn) : bool :=
  match mining_turn engine t s s s s, template_parents s with
  | Some _, [p] => from_option (λ b, tn_timestamp t <? blk_timestamp b) false (cs_dag s !! p)
  | _, _ => false
  end.
Lemma stalled_checked : stalled_ok ChainExample.later slow = true.
Proof. vm_compute. reflexivity. Qed.
Definition torn_ok (s : ChainState) : bool :=
  match try_compute_ghostdag_data (cs_reachability s) (cs_dag s) (cs_ghostdag s) (template_parents s) MAX_MERGESET_SIZE,
        select_valid_utxo_txs s (utxo_mempool (cs_pools s)) with
  | Ok gd, [tx] =>
      match gd_selected_parent gd, inputs tx with
      | Some sp, [tin] => negb (bool_decide (is_Some (entries (l_utxo (foldl (sim_step s) (virtual_state_at s sp) (merged gd)).1) !! previous tin)))
      | _, _ => false
      end
  | _, _ => false
  end && (len (transparent_mempool (cs_pools s)) =? 0).
Lemma torn_checked : torn_ok torn = true.
Proof. vm_compute. reflexivity. Qed.
Lemma produced_inv s t w share b :
  produced s t = Some (w, share, b) →
  create_block_template s (tn_timestamp t) (tn_entropy t) (tn_job_ms t) = Some (Ok w) ∧
  check_miner_shares s (en_miners engine) w (tn_attempts t) = Some share ∧
  assemble_block s (en_miners engine) w share (tn_rng t) = Ok b.
Proof.
  unfold produced. destruct (create_block_template _ _ _ _) as [[w'|]|]; [|done|done].
  destruct (check_miner_shares _ _ w' _) as [sh'|] eqn:Hc; [|done]. cbn [mbind option_bind].
  destruct (assemble_block _ _ _ _ _) as [b'|] eqn:Ha; [|done]. intros [= -> -> ->]. by split_and!.
Qed.
Lemma first_turn_inv s t :
  first_turn_ok s t = true →
  ∃ w share b, produced s t = Some (w, share, b) ∧ block_hash b ≠ genesis_hash ∧ verify_size b = true ∧
    wire_size b <= MAX_BLOCK_BYTES ∧ blk_utxo_txs b = [] ∧
    default 0 (max_timestamp (cs_dag s) (template_parents s)) <= tn_timestamp t ∧ past_median_time s genesis_hash < tn_timestamp t.
Proof.
  unfold first_turn_ok. intros [[Hp Hmax%Z.leb_le]%andb_prop Hmed%Z.ltb_lt]%andb_prop.
  destruct (produced s t) as [[[w share] b]|]; [|done]. exists w, share, b.
  apply andb_prop in Hp as [[[Hn%negb_true_iff%Z.eqb_neq Hsz]%andb_prop Hwire%Z.leb_le]%andb_prop Htx%Z.eqb_eq].
  split_and!; try done. by destruct (blk_utxo_txs b).
Qed.
End MinerExample.

Section witnesses.
Import MinerExample.

Lemma mined_block_admitted_witness :
  ∃ b s', add_block ChainExample.start (tn_admit_ms t1) b = Ok s' ∧
    mining_turn engine t1 ChainExample.start ChainExample.start ChainExample.start ChainExample.start = Some s'.
Proof.
  destruct (first_turn_inv _ _ first_turn_checked) as (w & share & b & Hpr & Hn & Hsz & Hwire & Htx & Hmax & Hmed).
  destruct (produced_inv _ _ _ _ _ Hpr) as (Hw & Hsh & Hb). exists b.
  apply (mined_block_admitted Ledger_default ChainExample.start engine t1 w share b); [| | | |exact Hw|exact Hsh|exact Hb| | |exact Hsz|exact Hwire].
  - exists ChainExample.start. split; [apply ChainExample.start_reachable|reflexivity].
  - apply Forall_singleton. exact miner_signs.
  - split; [split; [exact Hmax|apply Z.leb_le; vm_compute; reflexivity]|]. intros tip Ht.
    assert (tip = genesis_hash) as ->; [|exact Hmed]. apply select_parent_Some in Ht as (Ht & _). by apply list_elem_of_singleton in Ht.
  - apply Forall_nil. exact I.
  - rewrite Htx. exact I.
  - intros He. apply Hn. change (cs_dag ChainExample.start) with ({[genesis_hash := genesis_block]} : Dag) in He.
    rewrite dom_singleton_L in He. by apply elem_of_singleton in He.
Defined.

Lemma future_tip_stalls_witness :
  mining_turn engine slow ChainExample.later ChainExample.later ChainExample.later ChainExample.later = Some ChainExample.later.
Proof.
  pose proof stalled_checked as Hs. unfold stalled_ok in Hs. revert Hs. pose proof (future_tip_stalls ChainExample.later engine slow) as Hstall.
  revert Hstall. generalize ChainExample.later. intros s Hstall Hs.
  destruct (mining_turn engine slow s s s s) as [s'|] eqn:Ht; [|discriminate].
  destruct (template_parents s) as [|p [|? ?]] eqn:Hp; [discriminate| |discriminate].
  destruct (cs_dag s !! p) as [bp|] eqn:Hd; [|discriminate]. f_equal.
  apply (Hstall p bp s'); [apply list_elem_of_here|exact Hd|apply Z.ltb_lt; exact Hs|reflexivity].
Defined.

Lemma merged_spend_panics_witness : mining_turn engine t1 torn torn torn torn = None.
Proof.
  pose proof torn_checked as Hs. revert Hs. pose proof (merged_spend_panics torn engine t1) as Hpanic. revert Hpanic. generalize torn.
  intros s Hpanic [Hs Hl%Z.eqb_eq]%andb_prop.
  destruct (try_compute_ghostdag_data _ _ _ _ _) as [gd|] eqn:Hgd; [|discriminate].
  destruct (select_valid_utxo_txs _ _) as [|tx [|? ?]] eqn:Hsel; [discriminate| |discriminate].
  destruct (gd_selected_parent gd) as [sp|] eqn:Hsp; [|discriminate]. destruct (inputs tx) as [|tin [|? ?]] eqn:Hin; [discriminate| |discriminate].
  apply negb_true_iff, bool_decide_eq_false_1 in Hs.
  apply (Hpanic gd sp tx [] tin s s s); [|reflexivity|exact Hsp|reflexivity|rewrite Hin; apply list_elem_of_here|by apply eq_None_not_Some].
  destruct (transparent_mempool (cs_pools s)); [reflexivity|discriminate Hl].
Defined.
End witnesses.
