(* ===== verification/Stratum.v ===== *)
(** * The Stratum endpoint for external miners

    [StratumServer] of [src/src/stratum.rs]: JSON-RPC dispatch, worker authorisation,
    jobs, share submission with its rate limits and bans, and the two reports.  The
    clock is an argument; the order in which a hash map yields its keys is a parameter. *)

From S2P Require Import Prelude Genesis Crypto Address Predicate Utxo UtxoTx Registry Custody Block Ledger.
From S2P Require Import Dag Ghostdag Reachability Stark VersionBits State Chain ChainInv Mempool FeeEstimate AccountPool Net NodeInv Mining.

(** ** JSON *)

(** [serde_json::Value]; [JNum] is an integer, [JFloat] any other number. *)
Inductive Json :=
  | JNull | JBool (b : bool) | JNum (n : Z) | JFloat | JStr (s : string) | JArr (l : list Json) | JObj (fields : list (string * Json)).
Definition as_str (v : Json) : option string := match v with JStr s => Some s | _ => None end.
Definition as_u64 (v : Json) : option Z := match v with JNum n => if bool_decide (0 <= n <= U64_MAX) then Some n else None | _ => None end.
Definition as_array (v : Json) : option (list Json) := match v with JArr l => Some l | _ => None end.
Definition json_get (v : Json) (key : string) : option Json :=
  match v with
  | JObj fields => snd <$> List.find (λ kv, bool_decide (kv.1 = key)) fields
  | _ => None
  end.

(** [u64::from_str_radix(s, 16)]. *)
Fixpoint hex_digits (acc : Z) (l : bytes) : option Z :=
  match l with
  | [] => Some acc
  | b :: l =>
      d ← to_digit 16 b;
      let acc := acc * 16 + d in
      if U64_MAX <? acc then None else hex_digits acc l
  end.
Definition from_str_radix_16 (s : string) : option Z :=
  match str_bytes s with
  | [] => None
  | b :: l' => if b =? 43 then match l' with [] => None | _ => hex_digits 0 l' end else hex_digits 0 (str_bytes s)
  end.
(** [format!("{:x}")], without and with a width of eight. *)
Definition hex_char (d : Z) : Ascii.ascii := Ascii.ascii_of_N (Z.to_N (if d <? 10 then 48 + d else 87 + d)).
Fixpoint lower_hex_loop (fuel : nat) (n : Z) (acc : string) : string :=
  match fuel with
  | O => acc
  | S fuel =>
      let acc := String (hex_char (n mod 16)) acc in
      if n <? 16 then acc else lower_hex_loop fuel (n / 16) acc
  end.
Definition lower_hex (n : Z) : string := lower_hex_loop 16 n EmptyString.
Fixpoint zeros (n : nat) : string := match n with O => EmptyString | S n => String (hex_char 0) (zeros n) end.
Definition lower_hex_08 (n : Z) : string := zeros (8 - String.length (lower_hex n)) +:+ lower_hex n.

(** ** Data *)

Definition DEFAULT_SHARE_DIFFICULTY : Z := 16.
Definition MIN_SHARE_DIFFICULTY : Z := 1.
Definition MAX_SHARE_DIFFICULTY : Z := 1000000.
Definition MAX_STRATUM_WORKERS : Z := 256.
Definition MAX_SUBMITS_PER_WINDOW : Z := 120.
Definition SUBMIT_WINDOW_MS : Z := 60000.
Definition MAX_CONSECUTIVE_REJECTS : Z := 32.
Definition WORKER_BAN_MS : Z := 60000.
Definition MAX_JOB_AGE_MS : Z := 120000.
Definition MAX_NONCES_PER_JOB : Z := 4096.

Record PoolShare := {
  ps_worker : string;
  ps_job_id : string;
  ps_nonce : Z;
  ps_block_hash : Hash;
  ps_difficulty : Z;
  ps_accepted : bool;
}.
Record WorkerState := {
  ws_authorized : bool;
  ws_share_diff : Z;
  ws_accepted : Z;
  ws_rejected : Z;
  ws_consecutive_rejects : Z;
  ws_window_start_ms : Z;
  ws_window_submits : Z;
  ws_banned_until_ms : Z;
}.
Record Job := { jb_id : string; jb_template_hash : Hash; jb_difficulty : Z; jb_created_ms : Z; jb_seen_nonces : gset Z }.
Record StratumServer := {
  sv_workers : gmap string WorkerState;
  sv_jobs : gmap string Job;
  sv_shares : list PoolShare;
  sv_next_job : Z;
  sv_password : option string;
}.

Definition set_workers (sv : StratumServer) (w : gmap string WorkerState) : StratumServer :=
  {| sv_workers := w; sv_jobs := sv_jobs sv; sv_shares := sv_shares sv; sv_next_job := sv_next_job sv; sv_password := sv_password sv |}.
Definition set_jobs (sv : StratumServer) (j : gmap string Job) : StratumServer :=
  {| sv_workers := sv_workers sv; sv_jobs := j; sv_shares := sv_shares sv; sv_next_job := sv_next_job sv; sv_password := sv_password sv |}.
Definition set_shares (sv : StratumServer) (l : list PoolShare) : StratumServer :=
  {| sv_workers := sv_workers sv; sv_jobs := sv_jobs sv; sv_shares := l; sv_next_job := sv_next_job sv; sv_password := sv_password sv |}.
Definition set_next_job (sv : StratumServer) (n : Z) : StratumServer :=
  {| sv_workers := sv_workers sv; sv_jobs := sv_jobs sv; sv_shares := sv_shares sv; sv_next_job := n; sv_password := sv_password sv |}.

(** [StratumServer::new] with the value of [HASSAN_STRATUM_PASSWORD]. *)
Definition StratumServer_new (env : option string) : StratumServer :=
  {| sv_workers := ∅; sv_jobs := ∅; sv_shares := []; sv_next_job := 1;
     sv_password := p ← env; if bool_decide (p = "") then None else Some p |}.

(** A worker's entry as [authorize] and [submit] create it. *)
Definition WorkerState_new (authorized : bool) (now : Z) : WorkerState :=
  {| ws_authorized := authorized; ws_share_diff := DEFAULT_SHARE_DIFFICULTY; ws_accepted := 0; ws_rejected := 0;
     ws_consecutive_rejects := 0; ws_window_start_ms := now; ws_window_submits := 0; ws_banned_until_ms := 0 |}.
Definition with_window (w : WorkerState) (start submits : Z) : WorkerState :=
  {| ws_authorized := ws_authorized w; ws_share_diff := ws_share_diff w; ws_accepted := ws_accepted w; ws_rejected := ws_rejected w;
     ws_consecutive_rejects := ws_consecutive_rejects w; ws_window_start_ms := start; ws_window_submits := submits;
     ws_banned_until_ms := ws_banned_until_ms w |}.
Definition set_ban (w : WorkerState) (until : Z) : WorkerState :=
  {| ws_authorized := ws_authorized w; ws_share_diff := ws_share_diff w; ws_accepted := ws_accepted w; ws_rejected := ws_rejected w;
     ws_consecutive_rejects := ws_consecutive_rejects w; ws_window_start_ms := ws_window_start_ms w;
     ws_window_submits := ws_window_submits w; ws_banned_until_ms := until |}.
Definition with_counts (w : WorkerState) (share_diff accepted rejected consecutive : Z) : WorkerState :=
  {| ws_authorized := ws_authorized w; ws_share_diff := share_diff; ws_accepted := accepted; ws_rejected := rejected;
     ws_consecutive_rejects := consecutive; ws_window_start_ms := ws_window_start_ms w;
     ws_window_submits := ws_window_submits w; ws_banned_until_ms := ws_banned_until_ms w |}.
(** One more rejection: only the total, or the run of rejections too. *)
Definition count_reject (w : WorkerState) : WorkerState :=
  with_counts w (ws_share_diff w) (ws_accepted w) (sat_add 64 (ws_rejected w) 1) (ws_consecutive_rejects w).
Definition count_bad_share (w : WorkerState) : WorkerState :=
  with_counts w (ws_share_diff w) (ws_accepted w) (sat_add 64 (ws_rejected w) 1) (sat_add 32 (ws_consecutive_rejects w) 1).
Definition ban_if_due (w : WorkerState) (now : Z) : WorkerState :=
  if MAX_CONSECUTIVE_REJECTS <=? ws_consecutive_rejects w then set_ban w (sat_add 64 now WORKER_BAN_MS) else w.
Definition with_seen (j : Job) (seen : gset Z) : Job :=
  {| jb_id := jb_id j; jb_template_hash := jb_template_hash j; jb_difficulty := jb_difficulty j; jb_created_ms := jb_created_ms j;
     jb_seen_nonces := seen |}.

(** The order in which the job table yields its keys. *)
Class StratumEnv := { job_order : gmap string Job → list string }.
Class StratumEnvOk `{!StratumEnv} : Prop := { job_order_keys m : job_order m ≡ₚ (map_to_list m).*1 }.

(** ** Operations *)

Section stratum.
Context `{!Crypto, !DualCrypto, !BodyCodec, !NodeEnv, !PoolEnv, !MinerEnv, !StratumEnv}.

Definition subscribe : Json := JArr [JArr [JArr [JStr "mining.notify"; JStr "hn"]]; JStr (hex_encode [0x48; 0x53; 0x4e; 0x01]); JNum 4].

(** Positional parameters. *)
Definition param (params : Json) (i : nat) : option Json := as_array params ≫= (.!! i).
Definition authorize (sv : StratumServer) (now : Z) (params : Json) : result Json * StratumServer :=
  let worker := default "default" (param params 0 ≫= as_str) in
  let password := default "" (param params 1 ≫= as_str) in
  match sv_password sv with
  | None => (Err "stratum auth not configured — set HASSAN_STRATUM_PASSWORD", sv)
  | Some expected =>
      if negb (bool_decide (password = expected)) then (Err "unauthorized", sv) else
      if negb (bool_decide (worker ∈ dom (sv_workers sv))) && (MAX_STRATUM_WORKERS <=? Z.of_nat (size (sv_workers sv)))
      then (Err "too many stratum workers", sv) else
      (Ok (JBool true), set_workers sv (<[worker := WorkerState_new true now]> (sv_workers sv)))
  end.

(** The bound on the job table: the older half goes. *)
Definition age_le (a b : string * Z) : Prop := a.2 <= b.2.
#[global] Instance age_le_dec : RelDecision age_le.
Proof. intros a b. unfold age_le. apply _. Defined.
Definition prune_jobs (jobs : gmap string Job) : gmap string Job :=
  if 256 <? Z.of_nat (size jobs) then
    let by_age := merge_sort age_le ((λ k, (k, from_option jb_created_ms 0 (jobs !! k))) <$> job_order jobs) in
    foldl (λ m k, delete k m) jobs (take (size jobs / 2) by_age).*1
  else jobs.
Definition job_template_hash (job_id : string) (parents : list Hash) (difficulty : Z) : Hash :=
  blake3_512 (str_bytes "hassan-stratum-job-v1" ++ str_bytes job_id ++ concat (hash_bytes <$> parents) ++ le_bytes 8 difficulty).
Definition make_notify (sv : StratumServer) (s : ChainState) (ts : Z) : Json * StratumServer :=
  let parents := cs_tips s in
  let difficulty := expected_difficulty_at s parents ts in
  let job_id := lower_hex (sv_next_job sv) in
  let sv := set_next_job sv (sat_add 64 (sv_next_job sv) 1) in
  let template_hash := job_template_hash job_id parents difficulty in
  let job := {| jb_id := job_id; jb_template_hash := template_hash; jb_difficulty := difficulty; jb_created_ms := ts; jb_seen_nonces := ∅ |} in
  (JArr [JStr job_id; JStr (hex_encode (hash_bytes template_hash)); JStr ""; JStr "";
         JArr ((λ p, JStr (hex_encode (hash_bytes p))) <$> parents); JStr (lower_hex_08 (miner_version [0; 1; 2]));
         JStr (lower_hex difficulty); JStr (lower_hex ts); JBool true],
   set_jobs sv (prune_jobs (<[job_id := job]> (sv_jobs sv)))).

(** [get_block_template]; [None] when the selection does not return. *)
Definition get_block_template (s : ChainState) (ts : Z) : option Json :=
  let parents := cs_tips s in
  let pool := transparent_mempool (cs_pools s) in
  txs ← select_valid_block_txs s pool (sender_order (mempool_index_by_sender pool));
  Some (JObj [
    ("version", JNum (miner_version [0; 1; 2]));
    ("parents", JArr ((λ p, JStr (hex_encode (hash_bytes p))) <$> parents));
    ("difficulty", JNum (expected_difficulty_at s parents ts));
    ("curtime", JNum ts);
    ("mintime", JNum (past_median_time s (default HASH_ZERO (head parents))));
    ("state_root_hint", JStr (hex_encode (hash_bytes (state_root (cs_ledger s)))));
    ("utxo_commitment", JStr (hex_encode (hash_bytes (commitment (l_utxo (cs_ledger s))))));
    ("transactions", JArr ((λ t, JObj [
      ("txid", JStr (hex_encode (hash_bytes (tt_tx_hash t)))); ("fee", JStr (pretty (tt_fee t)));
      ("from", JStr (tt_from t)); ("to", JStr (tt_to t)); ("amount", JStr (pretty (tt_amount t)))]) <$> txs));
    ("target_block_time_ms", JNum TARGET_BLOCK_TIME_MS);
    ("longpollid", JStr (hex_encode (hash_bytes (default HASH_ZERO (head parents)))))]).

(** ** Submission *)

Definition share_hash (template_hash : Hash) (nonce : Z) : Hash :=
  blake3_512 (str_bytes "hassan-stratum-share-v1" ++ hash_bytes template_hash ++ le_bytes 8 nonce).
(** The list keeps the last 5,000 once it has more than 10,000. *)
Definition push_share (l : list PoolShare) (s : PoolShare) : list PoolShare :=
  let l := l ++ [s] in if 10000 <? len l then drop (length l - 5000) l else l.
Definition parse_nonce (v : Json) : option Z :=
  match as_u64 v with Some n => Some n | None => as_str v ≫= from_str_radix_16 end.
(** The parameters: worker, job, nonce. *)
Definition submit_params (params : Json) : result (string * string * Z) :=
  arr ← ok_or (as_array params) "params must be array";
  job_id ← ok_or (arr !! 1%nat ≫= as_str) "missing job_id";
  nonce ← ok_or (arr !! 2%nat ≫= parse_nonce) "missing nonce";
  Ok (default "default" (head arr ≫= as_str), job_id, nonce).
(** The budget of the worker's window; an error leaves the entry as given. *)
Definition worker_budget (w : WorkerState) (now : Z) : result unit * WorkerState :=
  if negb (ws_authorized w) then (Err "unauthorized", count_reject w) else
  if now <? ws_banned_until_ms w then (Err "worker temporarily banned", w) else
  let w := if SUBMIT_WINDOW_MS <=? sat_sub now (ws_window_start_ms w) then with_window w now 0 else w in
  let w := with_window w (ws_window_start_ms w) (sat_add 32 (ws_window_submits w) 1) in
  if MAX_SUBMITS_PER_WINDOW <? ws_window_submits w then (Err "submit rate limit exceeded", set_ban w (sat_add 64 now WORKER_BAN_MS))
  else (Ok (), w).
(** The job's checks: its age, the nonce, the number of nonces. *)
Definition take_nonce (w : WorkerState) (jobs : gmap string Job) (now : Z) (job_id : string) (nonce : Z)
    : result Job * WorkerState * gmap string Job :=
  match jobs !! job_id with
  | None => (Err "unknown job", w, jobs)
  | Some job =>
      if negb (bool_decide (jb_id job = job_id)) then (Err "job id mismatch", w, jobs) else
      if MAX_JOB_AGE_MS <? sat_sub now (jb_created_ms job) then (Err "stale job", count_bad_share w, jobs) else
      if bool_decide (nonce ∈ jb_seen_nonces job)
      then (Err "duplicate share nonce", ban_if_due (count_bad_share w) now, jobs) else
      let job := with_seen job ({[nonce]} ∪ jb_seen_nonces job) in
      if MAX_NONCES_PER_JOB <? Z.of_nat (size (jb_seen_nonces job))
      then (Err "job nonce budget exhausted", w, delete job_id jobs)
      else (Ok job, w, <[job_id := job]> jobs)
  end.
Definition share_target (w : WorkerState) (job : Job) : Z :=
  Z.min (clamp (ws_share_diff w) MIN_SHARE_DIFFICULTY MAX_SHARE_DIFFICULTY) (Z.max (jb_difficulty job) MIN_SHARE_DIFFICULTY).
(** The worker after a share: its difficulty follows its luck. *)
Definition score_share (w : WorkerState) (now : Z) (meet : bool) : WorkerState :=
  if meet then
    let accepted := sat_add 64 (ws_accepted w) 1 in
    let diff := if accepted mod 20 =? 0 then Z.min (sat_mul 64 (ws_share_diff w) 2) MAX_SHARE_DIFFICULTY else ws_share_diff w in
    with_counts w diff accepted (ws_rejected w) 0
  else
    let w := ban_if_due (count_bad_share w) now in
    if (5 <? ws_rejected w) && (MIN_SHARE_DIFFICULTY <? ws_share_diff w)
    then with_counts w (Z.max (ws_share_diff w / 2) MIN_SHARE_DIFFICULTY) (ws_accepted w) (ws_rejected w) (ws_consecutive_rejects w)
    else w.
Definition submit (sv : StratumServer) (now : Z) (params : Json) : result Json * StratumServer :=
  match submit_params params with
  | Err e => (Err e, sv)
  | Ok (worker, job_id, nonce) =>
      let '(r, w) := worker_budget (default (WorkerState_new false now) (sv_workers sv !! worker)) now in
      match r with
      | Err e => (Err e, set_workers sv (<[worker := w]> (sv_workers sv)))
      | Ok _ =>
          let '(r, w, jobs) := take_nonce w (sv_jobs sv) now job_id nonce in
          let sv := set_jobs sv jobs in
          match r with
          | Err e => (Err e, set_workers sv (<[worker := w]> (sv_workers sv)))
          | Ok job =>
              let target := share_target w job in
              let hash := share_hash (jb_template_hash job) nonce in
              let meet := verify_pow hash target in
              let share := {| ps_worker := worker; ps_job_id := job_id; ps_nonce := nonce; ps_block_hash := hash;
                              ps_difficulty := target; ps_accepted := meet |} in
              let sv := set_shares sv (push_share (sv_shares sv) share) in
              let sv := set_workers sv (<[worker := score_share w now meet]> (sv_workers sv)) in
              (if meet then Ok (JBool true) else Err "low difficulty share", sv)
          end
      end
  end.

(** [handle_rpc]: the request's id and the result. *)
Definition handle_rpc (sv : StratumServer) (s : ChainState) (now : Z) (req : Json) : option (Json * result Json * StratumServer) :=
  let id := default JNull (json_get req "id") in
  let method := default "" (json_get req "method" ≫= as_str) in
  let params := default (JArr []) (json_get req "params") in
  let reply (r : result Json * StratumServer) := Some (id, r.1, r.2) in
  if bool_decide (method = "mining.subscribe") then reply (Ok subscribe, sv) else
  if bool_decide (method = "mining.authorize") then reply (authorize sv now params) else
  if bool_decide (method = "mining.submit") then reply (submit sv now params) else
  if bool_decide (method = "mining.get_transactions") then reply (Ok (JArr []), sv) else
  if bool_decide (method = "mining.extranonce.subscribe") then reply (Ok (JBool true), sv) else
  if bool_decide (method = "getblocktemplate") || bool_decide (method = "mining.get_block_template")
  then t ← get_block_template s now; reply (Ok t, sv) else
  reply (Err ("unknown method: " +:+ method), sv).

(** Reports; [worker_order] is the order of the worker table. *)
Definition worker_stats (sv : StratumServer) (worker_order : list string) : Json :=
  JObj [("workers", JArr (omap (λ name,
    w ← sv_workers sv !! name;
    Some (JObj [("worker", JStr name); ("authorized", JBool (ws_authorized w)); ("share_diff", JNum (ws_share_diff w));
                ("accepted", JNum (ws_accepted w)); ("rejected", JNum (ws_rejected w))])) worker_order))].
Definition recent_shares (sv : StratumServer) (n : nat) : Json :=
  JObj [("shares", JArr ((λ s, JObj [
    ("worker", JStr (ps_worker s)); ("job_id", JStr (ps_job_id s)); ("nonce", JNum (ps_nonce s));
    ("difficulty", JNum (ps_difficulty s)); ("accepted", JBool (ps_accepted s));
    ("hash", JStr (hex_encode (hash_bytes (ps_block_hash s))))]) <$> take n (rev (sv_shares sv))))].
Definition block_meets_network_diff (b : Block) : bool := verify_pow (block_hash b) (blk_difficulty b).

(** ** Runs *)

(** A server's calls: a notification, or one request. *)
Inductive Call := Notify (s : ChainState) (ts : Z) | Rpc (s : ChainState) (now : Z) (req : Json).
Definition req_method (req : Json) : string := default "" (json_get req "method" ≫= as_str).
Definition req_params (req : Json) : Json := default (JArr []) (json_get req "params").
(** What a request achieved: the accepted job and nonce, the authorised name with the password it gave. *)
Record Effects := { ef_accepted : list (string * Z); ef_authorized : list (string * string) }.
Definition effects_of (req : Json) (r : result Json) : Effects :=
  {| ef_accepted :=
       if bool_decide (req_method req = "mining.submit") && is_ok r
       then match submit_params (req_params req) with Ok (_, job_id, nonce) => [(job_id, nonce)] | Err _ => [] end else [];
     ef_authorized :=
       if bool_decide (req_method req = "mining.authorize") && is_ok r
       then [(default "default" (param (req_params req) 0 ≫= as_str), default "" (param (req_params req) 1 ≫= as_str))] else [] |}.
Definition stratum_step (sv : StratumServer) (c : Call) : option (Effects * StratumServer) :=
  match c with
  | Notify s ts => Some ({| ef_accepted := []; ef_authorized := [] |}, (make_notify sv s ts).2)
  | Rpc s now req => '(_, r, sv) ← handle_rpc sv s now req; Some (effects_of req r, sv)
  end.
Inductive stratum_run (env : option string) : list (string * Z) → list (string * string) → StratumServer → Prop :=
  | run_new : stratum_run env [] [] (StratumServer_new env)
  | run_step log auths sv c ef sv' :
      stratum_run env log auths sv → stratum_step sv c = Some (ef, sv') →
      stratum_run env (ef_accepted ef ++ log) (ef_authorized ef ++ auths) sv'.

(** ** Hexadecimal job ids *)

Definition digit_char (d : Z) : Z := if d <? 10 then 48 + d else 87 + d.
Definition hex_val (ds : list Z) : Z := foldl (λ a d, a * 16 + d) 0 ds.
Lemma hex_char_byte d : 0 <= d < 16 → Z.of_N (Ascii.N_of_ascii (hex_char d)) = digit_char d.
Proof.
  intros Hd. unfold hex_char, digit_char. rewrite Ascii.N_ascii_embedding; destruct (d <? 10); rewrite ?Z2N.id; lia.
Qed.
Lemma lower_hex_loop_spec fuel n acc :
  0 <= n < 16 ^ Z.of_nat fuel → (0 < fuel)%nat →
  ∃ ds, str_bytes (lower_hex_loop fuel n acc) = (digit_char <$> ds) ++ str_bytes acc ∧ hex_val ds = n ∧
    Forall (λ d, 0 <= d < 16) ds ∧ ds ≠ [].
Proof.
  revert n acc. induction fuel as [|fuel IH]; intros n acc Hn Hf; [lia|]. cbn [lower_hex_loop].
  rewrite Nat2Z.inj_succ, Z.pow_succ_r in Hn by lia. pose proof (Z.mod_pos_bound n 16 ltac:(lia)) as Hm. pose proof (Z.div_mod n 16 ltac:(lia)) as Hdm.
  assert (∀ a, str_bytes (String (hex_char (n mod 16)) a) = digit_char (n mod 16) :: str_bytes a) as Hsb.
  { intros a. unfold str_bytes. cbn [String.list_ascii_of_string fmap list_fmap]. by rewrite hex_char_byte. }
  destruct (Z.ltb_spec n 16) as [Hlt|Hge].
  - exists [n mod 16]. rewrite Hsb. rewrite Z.mod_small by lia. split_and!; [done|unfold hex_val; simpl; lia|apply Forall_singleton; lia|done].
  - destruct fuel as [|fuel]; [simpl in Hn; lia|].
    destruct (IH (n / 16) (String (hex_char (n mod 16)) acc)) as (ds & Hds & Hv & Hr & Hne); [split; [apply Z.div_pos; lia|apply Z.div_lt_upper_bound; lia]|lia|].
    exists (ds ++ [n mod 16]). rewrite Hds, Hsb, fmap_app, <- app_assoc. split_and!; [done| | |by destruct ds].
    + unfold hex_val in *. rewrite foldl_app, Hv. simpl. lia.
    + apply Forall_app. split; [done|]. by apply Forall_singleton.
Qed.
Lemma to_digit_char d : 0 <= d < 16 → to_digit 16 (digit_char d) = Some d.
Proof.
  intros Hd. set (f d := bool_decide (to_digit 16 (digit_char d) = Some d)).
  assert (f d = true) as Hf by (apply (forallb_seqZ f 16); [vm_compute; reflexivity|done]). by apply bool_decide_eq_true in Hf.
Qed.
Lemma hex_val_mono ds a : Forall (λ d, 0 <= d < 16) ds → 0 <= a → a <= foldl (λ a d, a * 16 + d) a ds.
Proof.
  intros Hds. revert a. induction Hds as [|d ds Hd _ IH]; intros a Ha; [done|]. cbn [foldl]. specialize (IH (a * 16 + d)). lia.
Qed.
Lemma hex_digits_spec ds a :
  Forall (λ d, 0 <= d < 16) ds → 0 <= a → foldl (λ a d, a * 16 + d) a ds <= U64_MAX →
  hex_digits a (digit_char <$> ds) = Some (foldl (λ a d, a * 16 + d) a ds).
Proof.
  intros Hds. revert a. induction Hds as [|d ds Hd Hds IH]; intros a Ha Hv; [done|]. cbn [fmap list_fmap hex_digits foldl] in *.
  rewrite to_digit_char by done. cbn [mbind option_bind].
  pose proof (hex_val_mono ds (a * 16 + d) Hds ltac:(lia)). rewrite (proj2 (Z.ltb_ge _ _)) by lia. apply IH; [lia|done].
Qed.
(** Job ids read back. *)
Lemma lower_hex_parse n : 0 <= n <= U64_MAX → from_str_radix_16 (lower_hex n) = Some n.
Proof.
  intros Hn. unfold lower_hex. destruct (lower_hex_loop_spec 16 n EmptyString) as (ds & Hds & Hv & Hr & Hne).
  { split; [lia|]. change (16 ^ Z.of_nat 16) with (U64_MAX + 1). lia. } { lia. }
  unfold from_str_radix_16. rewrite Hds. change (str_bytes EmptyString) with ([] : bytes). rewrite app_nil_r.
  pose proof (hex_digits_spec ds 0 Hr ltac:(lia)) as Hp. fold (hex_val ds) in Hp. rewrite Hv in Hp.
  destruct ds as [|d ds]; [done|]. cbn [fmap list_fmap]. apply Forall_cons in Hr as [Hd _].
  assert ((digit_char d =? 43) = false) as ->; [|apply Hp; lia]. unfold digit_char. destruct (Z.ltb_spec d 10); lia.
Qed.
Lemma lower_hex_inj a b : 0 <= a <= U64_MAX → 0 <= b <= U64_MAX → lower_hex a = lower_hex b → a = b.
Proof. intros Ha Hb He. apply lower_hex_parse in Ha, Hb. congruence. Qed.

(** ** One submission *)

Definition diff_ok (w : WorkerState) : Prop := MIN_SHARE_DIFFICULTY <= ws_share_diff w <= MAX_SHARE_DIFFICULTY.
(** Same authorisation, and a share difficulty in range if it was. *)
Definition worker_after (w w' : WorkerState) : Prop := ws_authorized w' = ws_authorized w ∧ (diff_ok w → diff_ok w').
#[global] Instance worker_after_preorder : PreOrder worker_after.
Proof. split; [by intros w|]. intros a b c [Hab Hab'] [Hbc Hbc']. split; [congruence|auto]. Qed.

Lemma ban_if_due_after w now : worker_after w (ban_if_due w now).
Proof. unfold ban_if_due. by destruct (_ <=? _). Qed.
Lemma worker_budget_spec w now r w' :
  worker_budget w now = (r, w') →
  worker_after w w' ∧
  (r = Ok () → ws_authorized w = true ∧ ws_banned_until_ms w <= now ∧ ws_window_submits w' <= MAX_SUBMITS_PER_WINDOW).
Proof.
  unfold worker_budget. destruct (ws_authorized w) eqn:Ha; cbn [negb]; [|by intros [= <- <-]].
  destruct (Z.ltb_spec now (ws_banned_until_ms w)); [by intros [= <- <-]|]. cbv zeta.
  set (w1 := if SUBMIT_WINDOW_MS <=? _ then _ else w). assert (worker_after w w1) as H1' by (unfold w1; destruct (_ <=? _); by split).
  destruct (Z.ltb_spec MAX_SUBMITS_PER_WINDOW (ws_window_submits (with_window w1 (ws_window_start_ms w1) (sat_add 32 (ws_window_submits w1) 1))));
    intros [= <- <-]; (split; [exact H1'|]); [done|]. intros _. by split_and!.
Qed.
Lemma take_nonce_spec w jobs now j n r w' jobs' :
  take_nonce w jobs now j n = (r, w', jobs') →
  worker_after w w' ∧
  match r with
  | Err _ => jobs' = jobs ∨ jobs' = delete j jobs
  | Ok job' => w' = w ∧ ∃ job, jobs !! j = Some job ∧ sat_sub now (jb_created_ms job) <= MAX_JOB_AGE_MS ∧ (n ∉ jb_seen_nonces job) ∧
      job' = with_seen job ({[n]} ∪ jb_seen_nonces job) ∧ jobs' = <[j := job']> jobs ∧
      Z.of_nat (size (jb_seen_nonces job')) <= MAX_NONCES_PER_JOB
  end.
Proof.
  unfold take_nonce. destruct (jobs !! j) as [job|] eqn:Hj; [|intros [= <- <- <-]; by split; [|left]].
  destruct (negb _); [intros [= <- <- <-]; by split; [|left]|]. destruct (Z.ltb_spec MAX_JOB_AGE_MS (sat_sub now (jb_created_ms job))) as [|Hage]; [intros [= <- <- <-]; by split; [|left]|].
  case_bool_decide as Hn. { intros [= <- <- <-]. split; [|by left]. by etrans; [|apply ban_if_due_after]. }
  cbv zeta. destruct (Z.ltb_spec MAX_NONCES_PER_JOB (Z.of_nat (size (jb_seen_nonces (with_seen job ({[n]} ∪ jb_seen_nonces job)))))) as [|Hsz];
    intros [= <- <- <-]; [by split; [|right]|]. split; [done|]. split; [done|]. exists job. by split_and!.
Qed.
Lemma score_share_after w now meet : worker_after w (score_share w now meet).
Proof.
  unfold score_share. destruct meet.
  - split; [done|]. intros [Hlo Hhi]. unfold diff_ok. cbn [with_counts ws_share_diff]. unfold sat_mul, umax, MIN_SHARE_DIFFICULTY, MAX_SHARE_DIFFICULTY in *.
    destruct (_ =? _); [|done]. lia.
  - etrans; [apply (ban_if_due_after (count_bad_share w) now)|]. cbv zeta. destruct (_ && _); [|done]. split; [done|].
    intros [Hlo Hhi]. unfold diff_ok. cbn [with_counts ws_share_diff]. unfold MIN_SHARE_DIFFICULTY, MAX_SHARE_DIFFICULTY in *.
    pose proof (Z.div_le_upper_bound (ws_share_diff (ban_if_due (count_bad_share w) now)) 2 (ws_share_diff (ban_if_due (count_bad_share w) now)) ltac:(lia) ltac:(lia)). lia.
Qed.
Lemma push_share_len l s : len l <= 10000 → len (push_share l s) <= 10000.
Proof.
  intros Hl. unfold push_share, len in *. rewrite length_app. cbn [length].
  destruct (Z.ltb_spec 10000 (Z.of_nat (length l + 1))); [|rewrite length_app; simpl; lia]. rewrite length_drop, length_app. simpl. lia.
Qed.

(** An accepted submission, in full. *)
Record accepted_share (sv : StratumServer) (now : Z) (worker j : string) (n : Z) (w : WorkerState) (job : Job) : Prop := {
  ac_worker : sv_workers sv !! worker = Some w;
  ac_authorized : ws_authorized w = true;
  ac_not_banned : ws_banned_until_ms w <= now;
  ac_job : sv_jobs sv !! j = Some job;
  ac_fresh : sat_sub now (jb_created_ms job) <= MAX_JOB_AGE_MS;
  ac_nonce : n ∉ jb_seen_nonces job;
  ac_pow : ∃ target, MIN_SHARE_DIFFICULTY <= target <= Z.max (jb_difficulty job) MIN_SHARE_DIFFICULTY ∧
             verify_pow (share_hash (jb_template_hash job) n) target = true;
}.
Lemma share_target_range w job : MIN_SHARE_DIFFICULTY <= share_target w job <= Z.max (jb_difficulty job) MIN_SHARE_DIFFICULTY.
Proof.
  unfold share_target. pose proof (clamp_range (ws_share_diff w) MIN_SHARE_DIFFICULTY MAX_SHARE_DIFFICULTY ltac:(done)). lia.
Qed.
Lemma submit_spec sv now params r sv' :
  submit sv now params = (r, sv') →
  sv_next_job sv' = sv_next_job sv ∧ sv_password sv' = sv_password sv ∧ (len (sv_shares sv) <= 10000 → len (sv_shares sv') <= 10000) ∧
  (sv_workers sv' = sv_workers sv ∨ ∃ worker w', sv_workers sv' = <[worker := w']> (sv_workers sv) ∧
     worker_after (default (WorkerState_new false now) (sv_workers sv !! worker)) w') ∧
  match r with
  | Err _ => sv_jobs sv' = sv_jobs sv ∨ (∃ j, sv_jobs sv' = delete j (sv_jobs sv)) ∨
      (∃ j n job, sv_jobs sv !! j = Some job ∧ Z.of_nat (size ({[n]} ∪ jb_seen_nonces job : gset Z)) <= MAX_NONCES_PER_JOB ∧
         sv_jobs sv' = <[j := with_seen job ({[n]} ∪ jb_seen_nonces job)]> (sv_jobs sv))
  | Ok _ => ∃ worker j n w job, submit_params params = Ok (worker, j, n) ∧ accepted_share sv now worker j n w job ∧
      Z.of_nat (size ({[n]} ∪ jb_seen_nonces job : gset Z)) <= MAX_NONCES_PER_JOB ∧
      sv_jobs sv' = <[j := with_seen job ({[n]} ∪ jb_seen_nonces job)]> (sv_jobs sv)
  end.
Proof.
  unfold submit. destruct (submit_params params) as [[[worker j] n]|e] eqn:Hp.
  2: { intros [= <- <-]. split_and!; try done; by left. }
  destruct (worker_budget _ now) as [r1 w1] eqn:Hb. apply worker_budget_spec in Hb as [Hw1 Hok]. destruct r1 as [[]|e].
  2: { intros [= <- <-]. split_and!; try done; [right; by exists worker, w1|by left]. }
  destruct (Hok eq_refl) as (Ha & Hban & _).
  destruct (take_nonce w1 (sv_jobs sv) now j n) as [[r2 w2] jobs] eqn:Ht. apply take_nonce_spec in Ht as [Hw2 Hr].
  assert (worker_after (default (WorkerState_new false now) (sv_workers sv !! worker)) w2) as Hw by (by etrans). destruct r2 as [job'|e].
  2: { intros [= <- <-]. cbn [set_workers set_jobs sv_next_job sv_password sv_shares sv_workers sv_jobs].
       split_and!; try done; [right; by exists worker, w2|]. destruct Hr as [->| ->]; [by left|right; left; by exists j]. }
  destruct Hr as (-> & job & Hj & Hage & Hn & -> & -> & Hsz). cbv zeta. set (meet := verify_pow _ _).
  intros Heq. injection Heq as Hr Hsv. subst sv'. cbn [set_workers set_jobs set_shares sv_next_job sv_password sv_shares sv_workers sv_jobs].
  split_and!; [done|done|apply push_share_len| |].
  { right. exists worker, (score_share w1 now meet). split; [done|]. etrans; [exact Hw|apply score_share_after]. }
  destruct meet eqn:Hm; rewrite <- Hr; [|right; right; by exists j, n, job]. destruct (sv_workers sv !! worker) as [w0|] eqn:Hwk; [|done].
  cbn [default from_option id] in *. exists worker, j, n, w0, job. split_and!; [done| |done|done].
  split; try done. exists (share_target w1 (with_seen job ({[n]} ∪ jb_seen_nonces job))). split; [apply (share_target_range w1 (with_seen job _))|exact Hm].
Qed.

(** ** The job table *)

Lemma foldl_delete_subset (ks : list string) (m : gmap string Job) : foldl (λ m k, delete k m) m ks ⊆ m.
Proof.
  revert m. induction ks as [|k ks IH]; intros m; cbn [foldl]; [done|]. etrans; [apply IH|]. apply delete_subseteq.
Qed.
Lemma prune_jobs_subset jobs : prune_jobs jobs ⊆ jobs.
Proof. unfold prune_jobs. destruct (_ <? _); [|done]. cbv zeta. apply foldl_delete_subset. Qed.
Lemma prune_jobs_size `{!StratumEnvOk} jobs : Z.of_nat (size jobs) <= 257 → Z.of_nat (size (prune_jobs jobs)) <= 256.
Proof.
  intros Hsz. unfold prune_jobs. destruct (Z.ltb_spec 256 (Z.of_nat (size jobs))) as [Hbig|]; [|lia]. cbv zeta.
  set (by_age := merge_sort age_le _).
  assert (by_age ≡ₚ (λ k, (k, from_option jb_created_ms 0 (jobs !! k))) <$> (map_to_list jobs).*1) as Hp.
  { unfold by_age. rewrite merge_sort_Permutation. by rewrite job_order_keys. }
  assert (length by_age = size jobs) as Hlen.
  { rewrite Hp, !length_fmap. apply length_map_to_list. }
  assert (∃ half, (size jobs / 2)%nat = S half) as [half ->].
  { exists (size jobs / 2 - 1)%nat. pose proof (Nat.Div0.div_le_mono 2 (size jobs) 2 ltac:(lia)). change (2 / 2)%nat with 1%nat in *. lia. }
  destruct by_age as [|[k ms] by_age]; [simpl in Hlen; lia|]. cbn [take fmap list_fmap fst foldl].
  assert (k ∈ dom jobs) as Hk.
  { assert ((k, ms) ∈ (λ k, (k, from_option jb_created_ms 0 (jobs !! k))) <$> (map_to_list jobs).*1) as Hin by (rewrite <- Hp; apply list_elem_of_here).
    apply list_elem_of_fmap in Hin as (k' & [= <- _] & Hk'). apply list_elem_of_fmap in Hk' as ([k' j] & -> & Hm).
    apply elem_of_map_to_list in Hm. by apply elem_of_dom_2 in Hm. }
  pose proof (map_subseteq_size _ _ (foldl_delete_subset (take half by_age).*1 (delete k jobs))) as Hs.
  apply elem_of_dom in Hk as [j Hj]. rewrite map_size_delete, Hj in Hs. simpl in Hs. lia.
Qed.

(** ** The invariant of a run *)

Definition issued_id (sv : StratumServer) (j : string) : Prop := ∃ k, 1 <= k < sv_next_job sv ∧ j = lower_hex k.
Record stratum_inv (env : option string) (log : list (string * Z)) (auths : list (string * string)) (sv : StratumServer) : Prop := {
  si_next : 1 <= sv_next_job sv;
  si_password : sv_password sv = sv_password (StratumServer_new env);
  si_shares : len (sv_shares sv) <= 10000;
  si_jobs : Z.of_nat (size (sv_jobs sv)) <= 256;
  si_job j job : sv_jobs sv !! j = Some job → issued_id sv j ∧ Z.of_nat (size (jb_seen_nonces job)) <= MAX_NONCES_PER_JOB;
  si_workers w st : sv_workers sv !! w = Some st →
    diff_ok st ∧ (ws_authorized st = true → ∃ p, (w, p) ∈ auths ∧ sv_password sv = Some p);
  si_log j n : (j, n) ∈ log → issued_id sv j ∧ ∀ job, sv_jobs sv !! j = Some job → n ∈ jb_seen_nonces job;
  si_nodup : NoDup log;
}.
Lemma inv_new env : stratum_inv env [] [] (StratumServer_new env).
Proof. split; try done. - by intros j n ?%elem_of_nil. - apply NoDup_nil_2. Qed.

(** A notification adds a job under an id never used before. *)
Lemma notify_inv `{!StratumEnvOk} env log auths sv s ts :
  stratum_inv env log auths sv → sv_next_job sv < U64_MAX → stratum_inv env log auths (make_notify sv s ts).2.
Proof.
  intros Hi Hlt. pose proof (si_next _ _ _ _ Hi) as Hn1. unfold make_notify. cbn [snd set_jobs set_next_job].
  assert (sat_add 64 (sv_next_job sv) 1 = sv_next_job sv + 1) as Hnext by (unfold sat_add; lia).
  set (job := {| jb_id := _ |}). set (id := lower_hex (sv_next_job sv)) in *.
  assert (∀ j, issued_id sv j → j ≠ id) as Hfresh.
  { intros j (k & Hk & ->) He. apply lower_hex_inj in He; lia. }
  assert (∀ j, issued_id sv j → issued_id (make_notify sv s ts).2 j) as Hmono.
  { intros j (k & Hk & ->). exists k. split; [|done]. cbn [make_notify snd set_jobs set_next_job sv_next_job]. lia. }
  split; cbn [set_jobs set_next_job sv_next_job sv_password sv_shares sv_jobs sv_workers].
  - rewrite Hnext. lia.
  - apply Hi.
  - apply Hi.
  - apply prune_jobs_size. pose proof (si_jobs _ _ _ _ Hi). rewrite map_size_insert. destruct (sv_jobs sv !! id); simpl; lia.
  - intros j job' Hj. eapply lookup_weaken in Hj; [|apply prune_jobs_subset]. apply lookup_insert_Some in Hj as [[<- <-]|[Hne Hj]].
    + split; [exists (sv_next_job sv); split; [|done]; cbn [set_jobs set_next_job sv_next_job]; lia|]. unfold job. cbn [jb_seen_nonces]. rewrite size_empty. unfold MAX_NONCES_PER_JOB. lia.
    + destruct (si_job _ _ _ _ Hi j job' Hj) as [Hid Hsz]. split; [by apply Hmono|done].
  - apply Hi.
  - intros j n Hin. destruct (si_log _ _ _ _ Hi j n Hin) as [Hid Hseen]. split; [by apply Hmono|].
    intros job' Hj. eapply lookup_weaken in Hj; [|apply prune_jobs_subset]. rewrite lookup_insert_ne in Hj by (apply not_eq_sym; by apply Hfresh). by apply Hseen.
  - apply Hi.
Qed.

Lemma authorize_inv env log auths sv now params r sv' :
  stratum_inv env log auths sv → authorize sv now params = (r, sv') →
  stratum_inv env log ((if is_ok r then [(default "default" (param params 0 ≫= as_str), default "" (param params 1 ≫= as_str))] else []) ++ auths) sv' ∧
  sv_next_job sv' = sv_next_job sv.
Proof.
  intros Hi. unfold authorize. destruct (sv_password sv) as [expected|] eqn:Hpw; [|by intros [= <- <-]].
  case_bool_decide as Hp; cbn [negb]; [|by intros [= <- <-]]. destruct (_ && _); [by intros [= <- <-]|]. intros [= <- <-]. split; [|done]. cbn [is_ok app].
  destruct Hi as [H1' H2' H3' H4' H5' H6' H7' H8']. split; try done. cbn [set_workers sv_workers sv_password].
  intros w st [[<- <-]|[_ Hst]]%lookup_insert_Some.
  - split; [done|]. intros _. exists expected. split; [rewrite Hp; apply list_elem_of_here|done].
  - destruct (H6' w st Hst) as [Hd Hau]. split; [done|]. intros Ha. destruct (Hau Ha) as (p & Hin & ->). exists p. split; [by apply list_elem_of_further|done].
Qed.
Lemma submit_inv env log auths sv now params r sv' :
  stratum_inv env log auths sv → submit sv now params = (r, sv') →
  stratum_inv env ((if is_ok r then match submit_params params with Ok (_, j, n) => [(j, n)] | Err _ => [] end else []) ++ log) auths sv' ∧
  sv_next_job sv' = sv_next_job sv.
Proof.
  intros Hi Hs. destruct (submit_spec _ _ _ _ _ Hs) as (Hnext & Hpw & Hsh & Hwk & Hr). split; [|done].
  destruct Hi as [H1' H2' H3' H4' H5' H6' H7' H8'].
  assert (∀ w st, sv_workers sv' !! w = Some st → diff_ok st ∧ (ws_authorized st = true → ∃ p, (w, p) ∈ auths ∧ sv_password sv' = Some p)) as Hwk'.
  { rewrite Hpw. destruct Hwk as [-> |(wn & w' & -> & Ha & Hd)]; [done|]. intros w st [[<- <-]|[_ Hst]]%lookup_insert_Some; [|by apply H6'].
    rewrite Ha. destruct (sv_workers sv !! wn) as [w0|] eqn:Hw0; cbn [default from_option id] in *; [|split; [by apply Hd|done]].
    destruct (H6' wn w0 Hw0) as [Hd0 Hau0]. split; [by apply Hd|done]. }
  assert (∀ j, issued_id sv j → issued_id sv' j) as Hid by (intros j (k & Hk & ->); exists k; by rewrite Hnext).
  (* jobs that only lose entries, or whose nonces grow *)
  assert (∀ j n job (log' : list (string * Z)), sv_jobs sv !! j = Some job → Z.of_nat (size ({[n]} ∪ jb_seen_nonces job : gset Z)) <= MAX_NONCES_PER_JOB →
    sv_jobs sv' = <[j := with_seen job ({[n]} ∪ jb_seen_nonces job)]> (sv_jobs sv) →
    log' = log ∨ (log' = (j, n) :: log ∧ n ∉ jb_seen_nonces job) → stratum_inv env log' auths sv') as Hgrow.
  { intros j n job log' Hj Hsz Hjobs Hlog. split; rewrite ?Hnext, ?Hpw; auto.
    - rewrite Hjobs, map_size_insert, Hj. exact H4'.
    - intros j' job'. rewrite Hjobs. intros [[<- <-]|[_ Hj']]%lookup_insert_Some; [split; [apply Hid; by apply (H5' j job)|done]|].
      destruct (H5' j' job' Hj'). auto.
    - rewrite <- Hpw. exact Hwk'.
    - assert (∀ j' n', (j', n') ∈ log → issued_id sv' j' ∧ ∀ job', sv_jobs sv' !! j' = Some job' → n' ∈ jb_seen_nonces job') as Hold.
      { intros j' n' Hin. destruct (H7' j' n' Hin) as [Hid' Hseen]. split; [auto|]. intros job'. rewrite Hjobs.
        intros [[<- <-]|[_ Hj']]%lookup_insert_Some; [cbn [with_seen jb_seen_nonces]|auto]. specialize (Hseen job Hj). set_solver. }
      intros j' n' Hin. destruct Hlog as [->|[-> _]]; [by apply Hold|]. apply elem_of_cons in Hin as [[= -> ->]|Hin]; [|by apply Hold].
      split; [apply Hid; by apply (H5' j job)|]. intros job'. rewrite Hjobs, lookup_insert_eq. intros [= <-]. cbn [with_seen jb_seen_nonces]. set_solver.
    - destruct Hlog as [->|[-> Hn]]; [done|]. apply NoDup_cons. split; [|done]. intros Hin. apply Hn. by apply (H7' j n Hin). }
  destruct r as [v|e]; cbn [is_ok].
  - destruct Hr as (worker & j & n & w & job & -> & Hacc & Hsz & Hjobs). cbn [app].
    apply (Hgrow j n job); [apply Hacc|done|done|]. right. split; [done|apply Hacc].
  - cbn [app]. assert (sv_jobs sv' ⊆ sv_jobs sv → stratum_inv env log auths sv') as Hshrink.
    { intros Hsub. split; rewrite ?Hnext, ?Hpw; auto.
      - pose proof (map_subseteq_size _ _ Hsub). lia.
      - intros j job Hj. eapply lookup_weaken in Hj; [|exact Hsub]. destruct (H5' j job Hj). auto.
      - rewrite <- Hpw. exact Hwk'.
      - intros j n Hin. destruct (H7' j n Hin) as [Hid' Hseen]. split; [auto|]. intros job Hj. apply Hseen. by eapply lookup_weaken. }
    destruct Hr as [He|[[j He]|(j & n & job & Hj & Hsz & He)]].
    + apply Hshrink. by rewrite He.
    + apply Hshrink. rewrite He. apply delete_subseteq.
    + apply (Hgrow j n job); auto.
Qed.

Definition no_effects : Effects := {| ef_accepted := []; ef_authorized := [] |}.
Lemma rpc_cases sv s now req id r sv' :
  handle_rpc sv s now req = Some (id, r, sv') →
  (sv' = sv ∧ effects_of req r = no_effects) ∨
  (req_method req = "mining.authorize" ∧ authorize sv now (req_params req) = (r, sv')) ∨
  (req_method req = "mining.submit" ∧ submit sv now (req_params req) = (r, sv')).
Proof.
  unfold handle_rpc. fold (req_method req) (req_params req). unfold effects_of, no_effects. generalize (req_method req) as m. intros m.
  case_bool_decide as H1'; [subst m; intros [= _ <- <-]; by left|]. case_bool_decide as H2'.
  { subst m. intros [= _ <- <-]. right; left. by destruct (authorize _ _ _). }
  case_bool_decide as H3'; [subst m; intros [= _ <- <-]; right; right; by destruct (submit _ _ _)|]. cbn [andb].
  case_bool_decide; [intros [= _ <- <-]; by left|]. case_bool_decide; [intros [= _ <- <-]; by left|].
  destruct (_ || _); [|intros [= _ <- <-]; by left]. destruct (get_block_template s now); [|done]. intros [= _ <- <-]. by left.
Qed.
Lemma step_inv `{!StratumEnvOk} env log auths sv c ef sv' :
  stratum_inv env log auths sv → stratum_step sv c = Some (ef, sv') → sv_next_job sv' < U64_MAX →
  stratum_inv env (ef_accepted ef ++ log) (ef_authorized ef ++ auths) sv'.
Proof.
  intros Hi. destruct c as [s ts|s now req]; cbn [stratum_step].
  - intros Heq Hlt. apply (inj Some) in Heq. injection Heq as <- Heq. cbn [ef_accepted ef_authorized app]. rewrite <- Heq. apply notify_inv; [done|].
    rewrite <- Heq in Hlt. unfold make_notify in Hlt. cbn [snd set_jobs set_next_job sv_next_job] in Hlt. unfold sat_add in Hlt. lia.
  - destruct (handle_rpc sv s now req) as [[[id r] sv1]|] eqn:Hr; [|done]. intros [= <- <-] _.
    destruct (rpc_cases _ _ _ _ _ _ _ Hr) as [[-> ->]|[[Hm Ha]|[Hm Hs]]]; [done| |]; unfold effects_of; rewrite Hm.
    + by apply (authorize_inv _ _ _ _ _ _ _ _ Hi) in Ha as [? _].
    + by apply (submit_inv _ _ _ _ _ _ _ _ Hi) in Hs as [? _].
Qed.
Lemma next_job_mono sv c ef sv' : stratum_step sv c = Some (ef, sv') → sv_next_job sv <= U64_MAX → sv_next_job sv <= sv_next_job sv' <= U64_MAX.
Proof.
  destruct c as [s ts|s now req]; cbn [stratum_step]; intros Heq Hle.
  - apply (inj Some) in Heq. injection Heq as _ Heq. rewrite <- Heq. unfold make_notify. cbn [snd set_jobs set_next_job sv_next_job]. unfold sat_add. lia.
  - destruct (handle_rpc sv s now req) as [[[id r] sv1]|] eqn:Hr; [|done]. injection Heq as _ <-.
    destruct (rpc_cases _ _ _ _ _ _ _ Hr) as [[-> _]|[[_ Ha]|[_ Hs]]]; [lia| |].
    + unfold authorize in Ha. destruct (sv_password sv); [|injection Ha as _ <-; lia]. destruct (negb _); [injection Ha as _ <-; lia|].
      destruct (_ && _); injection Ha as _ <-; cbn [set_workers sv_next_job]; lia.
    + destruct (submit_spec _ _ _ _ _ Hs) as (-> & _). lia.
Qed.
Lemma run_inv_ok `{!StratumEnvOk} env log auths sv :
  stratum_run env log auths sv → sv_next_job sv <= U64_MAX ∧ (sv_next_job sv < U64_MAX → stratum_inv env log auths sv).
Proof.
  induction 1 as [|log auths sv c ef sv' _ [Hle IH] Hs]; [split; [done|intros _; apply inv_new]|].
  pose proof (next_job_mono _ _ _ _ Hs Hle). split; [lia|]. intros Hlt. eapply step_inv; [|done|done]. apply IH. lia.
Qed.
Lemma password_of env p : sv_password (StratumServer_new env) = Some p → env = Some p ∧ p ≠ "".
Proof. cbn [StratumServer_new sv_password]. destruct env as [q|]; [|done]. cbn [mbind option_bind]. case_bool_decide; [done|]. by intros [= <-]. Qed.

(** Every share the server accepts was submitted under a name that had presented the configured
    password, on a job at most two minutes old, meets the share's target, and is new: no accepted
    share of the whole run has the same job and nonce, however many jobs and workers came and went. *)
Theorem stratum_accepts `{!StratumEnvOk} env log auths sv s now req id v sv' :
  stratum_run env log auths sv → sv_next_job sv < U64_MAX → req_method req = "mining.submit" →
  handle_rpc sv s now req = Some (id, Ok v, sv') →
  ∃ worker j n w job p, submit_params (req_params req) = Ok (worker, j, n) ∧ accepted_share sv now worker j n w job ∧
    (worker, p) ∈ auths ∧ env = Some p ∧ (j, n) ∉ log.
Proof.
  intros Hrun Hlt Hm Hr. destruct (run_inv_ok _ _ _ _ Hrun) as [_ Hi]. specialize (Hi Hlt).
  destruct (rpc_cases _ _ _ _ _ _ _ Hr) as [[_ He]|[[Hm' _]|[_ Hs]]]; [|congruence|].
  - exfalso. unfold handle_rpc in Hr. fold (req_method req) (req_params req) in Hr. rewrite Hm in Hr.
    change (Some (default JNull (json_get req "id"), (submit sv now (req_params req)).1, (submit sv now (req_params req)).2) = Some (id, Ok v, sv')) in Hr.
    destruct (submit sv now (req_params req)) as [r1 sv1] eqn:Hs. injection Hr as _ -> ->.
    destruct (submit_spec _ _ _ _ _ Hs) as (_ & _ & _ & _ & worker & j & n & w & job & Hp & _).
    apply (f_equal ef_accepted) in He. unfold effects_of in He. rewrite Hm, Hp in He. discriminate He.
  - destruct (submit_spec _ _ _ _ _ Hs) as (_ & _ & _ & _ & worker & j & n & w & job & Hp & Hacc & _).
    destruct (si_workers _ _ _ _ Hi worker w (ac_worker _ _ _ _ _ _ _ Hacc)) as [_ Hau].
    destruct (Hau (ac_authorized _ _ _ _ _ _ _ Hacc)) as (p & Hin & Hpw). rewrite (si_password _ _ _ _ Hi) in Hpw. apply password_of in Hpw as [-> _].
    exists worker, j, n, w, job, p. split_and!; try done. intros Hlog. apply (ac_nonce _ _ _ _ _ _ _ Hacc).
    by apply (si_log _ _ _ _ Hi j n Hlog), (ac_job _ _ _ _ _ _ _ Hacc).
Qed.

(** What the server stores for jobs and shares is bounded whatever it is sent, and share
    difficulties stay in their range; the worker table is not in this list. *)
Theorem stratum_bounded `{!StratumEnvOk} env log auths sv :
  stratum_run env log auths sv → sv_next_job sv < U64_MAX →
  Z.of_nat (size (sv_jobs sv)) <= 256 ∧ len (sv_shares sv) <= 10000 ∧
  (∀ j job, sv_jobs sv !! j = Some job → Z.of_nat (size (jb_seen_nonces job)) <= MAX_NONCES_PER_JOB) ∧
  (∀ w st, sv_workers sv !! w = Some st → MIN_SHARE_DIFFICULTY <= ws_share_diff st <= MAX_SHARE_DIFFICULTY) ∧ NoDup log.
Proof.
  intros Hrun Hlt. destruct (run_inv_ok _ _ _ _ Hrun) as [_ Hi]. specialize (Hi Hlt). split_and!; apply Hi.
Qed.

(** ** Unauthenticated names fill the worker table *)

Definition flood_request (name : string) : Json :=
  JObj [("method", JStr "mining.submit"); ("params", JArr [JStr name; JStr "0"; JNum 0])].
Definition flood (sv : StratumServer) (s : ChainState) (now : Z) (names : list string) : option StratumServer :=
  foldl (λ o name, sv ← o; snd <$> handle_rpc sv s now (flood_request name)) (Some sv) names.
Lemma flood_one sv s now name :
  ∃ sv', snd <$> handle_rpc sv s now (flood_request name) = Some sv' ∧ sv_password sv' = sv_password sv ∧
    dom (sv_workers sv') = {[name]} ∪ dom (sv_workers sv).
Proof.
  change (handle_rpc sv s now (flood_request name)) with
    (Some (JNull, (submit sv now (JArr [JStr name; JStr "0"; JNum 0])).1, (submit sv now (JArr [JStr name; JStr "0"; JNum 0])).2)).
  cbn [fmap option_fmap option_map snd]. eexists. split; [done|]. unfold submit.
  change (submit_params (JArr [JStr name; JStr "0"; JNum 0])) with (Ok (name, "0", 0) : result (string * string * Z)). cbv beta iota.
  destruct (worker_budget _ now) as [[[]|e] w1]; [|split; [done|apply dom_insert_L]].
  destruct (take_nonce w1 _ now _ _) as [[[job|e] w2] jobs]; (split; [done|]); cbn [snd set_workers set_jobs set_shares sv_workers]; apply dom_insert_L.
Qed.
Lemma flood_all sv s now names :
  ∃ sv', flood sv s now names = Some sv' ∧ sv_password sv' = sv_password sv ∧ dom (sv_workers sv') = list_to_set names ∪ dom (sv_workers sv).
Proof.
  revert sv. induction names as [|name names IH]; intros sv; [exists sv; split_and!; [done|done|set_solver]|].
  destruct (flood_one sv s now name) as (sv1 & H1' & Hp1 & Hd1). destruct (IH sv1) as (sv2 & H2' & Hp2 & Hd2). exists sv2.
  unfold flood in *. cbn [foldl mbind option_bind list_to_set]. rewrite H1'. split; [exact H2'|]. split; [by rewrite Hp2|]. rewrite Hd2, Hd1. set_solver.
Qed.
(** A caller without the password can lock every new worker out: submissions are refused as
    unauthorised but leave an entry for the name, so 256 names fill the table, and then
    [mining.authorize] with the right password fails for every name not yet in it. *)
Theorem stratum_lockout sv s now now' names worker password :
  MAX_STRATUM_WORKERS <= Z.of_nat (size (list_to_set names : gset string)) →
  sv_password sv = Some password → worker ∉ names → sv_workers sv !! worker = None →
  ∃ sv', flood sv s now names = Some sv' ∧
    authorize sv' now' (JArr [JStr worker; JStr password]) = (Err "too many stratum workers", sv').
Proof.
  intros Hsz Hpw Hn Hw. destruct (flood_all sv s now names) as (sv' & Hf & Hp & Hd). exists sv'. split; [done|]. unfold authorize.
  rewrite Hp, Hpw. change (default "default" (param (JArr [JStr worker; JStr password]) 0 ≫= as_str)) with worker.
  change (default "" (param (JArr [JStr worker; JStr password]) 1 ≫= as_str)) with password.
  rewrite (bool_decide_eq_true_2 (password = password)) by done. cbn [negb].
  assert (worker ∉ dom (sv_workers sv')) as Hnd.
  { rewrite Hd. apply not_elem_of_dom in Hw. set_solver. }
  rewrite (bool_decide_eq_false_2 (worker ∈ _)) by done. cbn [negb andb].
  rewrite (proj2 (Z.leb_le _ _)); [done|]. rewrite <- size_dom, Hd.
  pose proof (subseteq_size (list_to_set names : gset string) (list_to_set names ∪ dom (sv_workers sv)) ltac:(set_solver)). lia.
Qed.
End stratum.

(** ** Example: a miner's session *)

Module StratumExample.
#[export] Existing Instances ChainExample.ex_crypto ChainExample.ex_dual ChainExample.ex_body ChainExample.ex_env
  NodeExample.ex_pool_env MinerExample.ex_miner_env.
#[export] Instance ex_stratum_env : StratumEnv := {| job_order m := (map_to_list m).*1 |}.
#[export] Instance ex_stratum_ok : StratumEnvOk.
Proof. by split. Qed.

Definition password : option string := Some "secret".
Definition request (method : string) (params : list Json) : Json :=
  JObj [("id", JNum 1); ("method", JStr method); ("params", JArr params)].
Definition auth_request : Json := request "mining.authorize" [JStr "rig"; JStr "secret"].
Definition share_request : Json := request "mining.submit" [JStr "rig"; JStr "1"; JStr "2a"].
Definition v0 : StratumServer := StratumServer_new password.
Definition v1 : StratumServer := set_workers v0 (<["rig" := WorkerState_new true 10]> (sv_workers v0)).
Definition v2 : StratumServer := (make_notify v1 ChainExample.start 20).2.
Lemma v2_run : stratum_run password [] [("rig", "secret")] v2.
Proof.
  apply (run_step password [] [("rig", "secret")] v1 (Notify ChainExample.start 20) no_effects v2); [|reflexivity].
  apply (run_step password [] [] v0 (Rpc ChainExample.start 10 auth_request) {| ef_accepted := []; ef_authorized := [("rig", "secret")] |} v1);
    [apply run_new|]. reflexivity.
Qed.
Definition accepted_by (sv : StratumServer) : bool :=
  match handle_rpc sv ChainExample.start 30 share_request with Some (_, Ok _, _) => true | _ => false end.
Lemma share_accepted : accepted_by v2 = true.
Proof. vm_compute. reflexivity. Qed.
Definition names : list string := (λ n, "x" +:+ pretty (Z.of_nat n)) <$> seq 0 256.
Lemma names_many : MAX_STRATUM_WORKERS <= Z.of_nat (size (list_to_set names : gset string)).
Proof. vm_compute. discriminate. Qed.
End StratumExample.

Section witnesses.
Import StratumExample.

Lemma stratum_accepts_witness :
  ∃ worker j n w job p, submit_params (req_params share_request) = Ok (worker, j, n) ∧
    accepted_share v2 30 worker j n w job ∧ (worker, p) ∈ [("rig", "secret")] ∧ password = Some p ∧ ((j, n) ∉ ([] : list (string * Z))).
Proof.
  pose proof share_accepted as Ha. unfold accepted_by in Ha.
  destruct (handle_rpc v2 ChainExample.start 30 share_request) as [[[id [v|e]] sv']|] eqn:Hr; [|discriminate|discriminate].
  exact (stratum_accepts password [] [("rig", "secret")] v2 ChainExample.start 30 share_request id v sv' v2_run eq_refl eq_refl Hr).
Defined.
Lemma stratum_bounded_witness : Z.of_nat (size (sv_jobs v2)) <= 256 ∧ len (sv_shares v2) <= 10000.
Proof.
  destruct (stratum_bounded password [] [("rig", "secret")] v2 v2_run eq_refl) as (Hj & Hs & _). split; [exact Hj|exact Hs].
Defined.
Lemma stratum_lockout_witness :
  ∃ sv', flood v2 ChainExample.start 30 names = Some sv' ∧
    authorize sv' 40 (JArr [JStr "late"; JStr "secret"]) = (Err "too many stratum workers", sv').
Proof.
  apply (stratum_lockout v2 ChainExample.start 30 40 names "late" "secret"); [exact names_many|reflexivity| |reflexivity].
  apply (bool_decide_eq_false_1 ("late" ∈ names)). vm_compute. reflexivity.
Defined.
End witnesses.
