(* ===== verification/Kernel.v ===== *)
(** * Kernel checks

    The stateless helpers of [src/src/kernel.rs] and how they relate to admission. *)

From S2P Require Import Prelude Genesis Crypto Address Predicate Utxo UtxoTx Block Ledger.

Section kernel.
Context `{!Crypto}.

(** ** Operations *)

Definition validate_transparent_form `{!BodyCodec} (tx : TransparentTx) (chain_id_ : Z) : result unit :=
  _ ← tt_validate_form tx;
  fail_if negb (tt_chain_id tx =? chain_id_) as "Wrong chain_id";
  fail_if negb (tt_verify tx) as "Invalid signature";
  match tt_hashlock tx with
  | Some h => fail_if negb (hashlock_commitment (tt_hashlock_preimage tx) =? h) as "Hashlock preimage mismatch"; Ok ()
  | None => Ok ()
  end.

Context `{!UtxoCodec}.
Definition validate_utxo_form (tx : UtxoTx) (chain_id_ : Z) : result unit :=
  _ ← validate_form tx;
  fail_if negb (chain_id tx =? chain_id_) as "Wrong chain_id";
  fail_if negb (verify tx) as "Invalid signature";
  Ok ().
Definition sum_input (u : UtxoSet) (input_sum : Z) (tin : TxIn) : result Z :=
  out ← ok_or (get u (previous tin)) "Unknown outpoint";
  ok_or (checked_add 128 input_sum (value out)) "input overflow".
Definition sum_paid (output_sum : Z) (out : TxOut) : result Z := ok_or (checked_add 128 output_sum (value out)) "output overflow".
Definition utxo_value_conserved (u : UtxoSet) (tx : UtxoTx) : result unit :=
  input_sum ← try_fold (sum_input u) 0 (inputs tx);
  output_sum ← try_fold sum_paid (fee tx) (outputs tx);
  fail_if negb (input_sum =? output_sum) as ("Value imbalance: " +:+ pretty input_sum +:+ " != " +:+ pretty output_sum);
  Ok ().
Definition kernel_rules_id : Hash := blake3_512 (str_bytes "hassan-kernel-rules-v22" ++ le_bytes 8 64).

(** ** Agreement with admission *)

(** One input's own conditions: it exists, is mature and unlocked, and its predicate holds. *)
Definition input_passes (u : UtxoSet) (tx : UtxoTx) (media_blue : Z) (tin : TxIn) : bool :=
  is_ok (check_input u tx media_blue (0, []) tin).
(** Values are of type [u128]. *)
Definition u128_values (u : UtxoSet) : Prop := ∀ op out, entries u !! op = Some out → is_u128 (value out).
Lemma check_input_split u tx media sum outs tin sum' :
  u128_values u →
  (∃ outs', check_input u tx media (sum, outs) tin = Ok (sum', outs')) ↔ input_passes u tx media tin = true ∧ sum_input u sum tin = Ok sum'.
Proof.
  intros Hb. unfold input_passes, check_input, sum_input, get. destruct (entries u !! previous tin) as [out|] eqn:Hl; cbn [ok_or mbind result_bind].
  2: { split; [by intros [? ?]|by intros [? _]]. }
  pose proof (Hb _ _ Hl) as Hv.
  destruct (_ && _); [split; [by intros [? ?]|by intros [? _]]|]. destruct (_ && _); [split; [by intros [? ?]|by intros [? _]]|].
  destruct (evaluate_full _ _ _ _ _ _); cbn [mbind result_bind]; [|split; [by intros [? ?]|by intros [? _]]].
  destruct (assert_exact_value_binds _ _); cbn [mbind result_bind]; [|split; [by intros [? ?]|by intros [? _]]].
  assert (checked_add 128 0 (value out) = Some (value out)) as -> by (apply checked_add_Some; unfold in_width in Hv; lia).
  cbn [ok_or mbind result_bind is_ok]. destruct (checked_add 128 sum (value out)) as [z|]; cbn [ok_or mbind result_bind].
  - split; [intros [? [= -> _]]; done|]. intros [_ [= ->]]. by eexists.
  - split; [by intros [? ?]|by intros [_ ?]].
Qed.

Lemma check_inputs_split u tx media sum outs ins sum' :
  u128_values u →
  (∃ outs', try_fold (check_input u tx media) (sum, outs) ins = Ok (sum', outs')) ↔
  forallb (input_passes u tx media) ins = true ∧ try_fold (sum_input u) sum ins = Ok sum'.
Proof.
  intros Hb. revert sum outs. induction ins as [|tin ins IH]; intros sum outs; cbn [try_fold forallb].
  { split; [by intros [? [= -> _]]|]. intros [_ [= ->]]. by eexists. }
  destruct (check_input u tx media (sum, outs) tin) as [[s1 o1]|e] eqn:Hc.
  - destruct (proj1 (check_input_split u tx media sum outs tin s1 Hb) (ex_intro _ o1 Hc)) as [-> ->]. cbn [andb]. apply IH.
  - split; [by intros [? ?]|]. intros [[Hp _]%andb_prop Hf]. destruct (sum_input u sum tin) as [s1|] eqn:Hs; [|done].
    destruct (proj2 (check_input_split u tx media sum outs tin s1 Hb) (conj Hp Hs)) as [o Ho]. congruence.
Qed.
Lemma sum_paid_outputs f outs r : try_fold sum_paid f outs = Ok r ↔ try_fold sum_output f outs = Ok r.
Proof.
  revert f. induction outs as [|o outs IH]; intros f; cbn [try_fold]; [done|]. unfold sum_paid at 1, sum_output at 1.
  destruct (checked_add 128 f (value o)); cbn [ok_or]; [apply IH|done].
Qed.

(** The kernel's stateless checks and admission agree: [apply_utxo_tx] gets past its checks exactly when
    the kernel accepts the form, the signature and the balance of the transaction, its absolute lock has
    passed, and every input satisfies its own maturity, lock and predicate.  The kernel's value check is
    thus necessary for admission, and nothing but these conditions is missing from it. *)
Theorem kernel_agrees u tx media :
  u128_values u →
  is_ok (check_utxo_tx u tx media) = true ↔
  validate_utxo_form tx (chain_id tx) = Ok () ∧ utxo_value_conserved u tx = Ok () ∧
  (0 < lock_blue_score tx → lock_blue_score tx <= media) ∧ Forall (λ tin, input_passes u tx media tin = true) (inputs tx).
Proof.
  intros Hb. unfold check_utxo_tx, validate_utxo_form, utxo_value_conserved.
  destruct (validate_form tx) as [[]|]; cbn [mbind result_bind]; [|by split; [|intros [? _]]]. rewrite Z.eqb_refl. cbn [negb].
  destruct (verify tx); cbn [negb]; [|by split; [|intros [? _]]].
  assert ((0 <? lock_blue_score tx) && (media <? lock_blue_score tx) = false ↔ (0 < lock_blue_score tx → lock_blue_score tx <= media)) as Hlock.
  { rewrite andb_false_iff, !Z.ltb_ge. lia. }
  destruct ((0 <? lock_blue_score tx) && _); [split; [done|intros (_ & _ & Hl & _); by apply Hlock in Hl]|].
  assert (Forall (λ tin, input_passes u tx media tin = true) (inputs tx) ↔ forallb (input_passes u tx media) (inputs tx) = true) as ->.
  { rewrite forallb_forall, Forall_forall. by setoid_rewrite list_elem_of_In. }
  pose proof (check_inputs_split u tx media 0 [] (inputs tx)) as Hins.
  destruct (try_fold (check_input u tx media) (0, []) (inputs tx)) as [[isum so]|e] eqn:Hc; cbn [mbind result_bind].
  - destruct (proj1 (Hins isum Hb) (ex_intro _ so eq_refl)) as [-> ->]. cbn [mbind result_bind].
    assert (∀ r, try_fold sum_paid (fee tx) (outputs tx) = Ok r ↔ try_fold sum_output (fee tx) (outputs tx) = Ok r) as Ho by (intros; apply sum_paid_outputs).
    destruct (try_fold sum_output (fee tx) (outputs tx)) as [osum|] eqn:Hos; cbn [mbind result_bind].
    + rewrite (proj2 (Ho osum) eq_refl). cbn [mbind result_bind]. destruct (negb _); [by split; [|intros (_ & ? & _)]|]. split; [|done]. intros _. by split_and!; try apply Hlock.
    + destruct (try_fold sum_paid _ _) as [z|]; [discriminate (proj1 (Ho z) eq_refl)|]. by split; [|intros (_ & ? & _)].
  - split; [done|]. intros (_ & Hval & _ & Hall). destruct (try_fold (sum_input u) 0 (inputs tx)) as [isum|]; [|done].
    destruct (proj2 (Hins isum Hb) (conj Hall eq_refl)) as [? ?]. done.
Qed.

(** A transfer that applies has passed the kernel's form check. *)
Lemma kernel_transparent `{!BodyCodec} l cid media tx l' :
  apply_transparent_enabled l cid media tx = Ok l' → validate_transparent_form tx cid = Ok ().
Proof.
  unfold apply_transparent_enabled, validate_transparent_form. destruct (tt_validate_form tx) as [[]|]; [|done]. cbn [mbind result_bind].
  destruct (negb _); [done|]. destruct (negb _); [done|]. destruct (_ && _); [done|]. cbv zeta. destruct (_ && _); [done|].
  destruct (tt_hashlock tx); [|done]. by destruct (negb _).
Qed.
End kernel.

Lemma kernel_agrees_witness :
  @utxo_value_conserved (utxos UtxoExample.funded) UtxoExample.payment_tx = Ok ().
Proof.
  assert (u128_values (utxos UtxoExample.funded)) as Hv.
  { intros op out Hl. change (entries (utxos UtxoExample.funded)) with ({[ UtxoExample.fund := {| value := 50000; predicate := PayToAddress UtxoExample.alice_addr; created_blue := 1 |} ]} : gmap OutPoint TxOut) in Hl.
    apply lookup_singleton_Some in Hl as [_ <-]. unfold in_width. simpl. split; [lia|vm_compute; discriminate]. }
  apply (@kernel_agrees Toy.toy_crypto UtxoExample.toy_codec (utxos UtxoExample.funded) UtxoExample.payment_tx 5 Hv).
  vm_compute. reflexivity.
Defined.
