(* ===== verification/PeerPin.v ===== *)
(** * Peer identity pins

    [src/src/peer_pin.rs]: the pin directory, its parser and the check of a peer's key.
    The environment is a function and a file is given by its contents. *)

From S2P Require Import Prelude Genesis Crypto Address Net.

(** ** Data *)

Record PeerPinDirectory := {
  pin_keys : gset bytes;
  pin_by_addr : gmap bytes bytes;
  pin_strict : bool;
}.
Definition PeerPinDirectory_empty (strict : bool) : PeerPinDirectory := {| pin_keys := ∅; pin_by_addr := ∅; pin_strict := strict |}.

(** ** Text *)

(** [str::split] and [split_once] at one byte. *)
Fixpoint split_at (sep : Z) (l : bytes) : list bytes :=
  match l with
  | [] => [[]]
  | b :: l =>
      if b =? sep then [] :: split_at sep l
      else match split_at sep l with x :: xs => (b :: x) :: xs | [] => [[b]] end
  end.
Fixpoint split_once (sep : Z) (l : bytes) : option (bytes * bytes) :=
  match l with
  | [] => None
  | b :: l => if b =? sep then Some ([], l) else '(x, y) ← split_once sep l; Some (b :: x, y)
  end.
(** [str::lines]: the empty piece after a final newline does not count; a carriage
    return before a newline is dropped. *)
Definition strip_cr (l : bytes) : bytes := if bool_decide (last l = Some 13) then removelast l else l.
Fixpoint strip_lines (pieces : list bytes) : list bytes :=
  match pieces with
  | [] => []
  | [l] => if bool_decide (l = []) then [] else [l]
  | l :: pieces => strip_cr l :: strip_lines pieces
  end.
Definition lines (l : bytes) : list bytes := strip_lines (split_at 10 l).

Section pins.
Context `{!Crypto}.

(** ** Parsing *)

Definition parse_hex_pubkey (raw : bytes) : option bytes :=
  bs ← hex_decode (bytes_str (trim raw));
  if negb (len bs =? PQ_PUBLIC_KEY_SIZE) then None else Some bs.
Definition pin_line (dir : PeerPinDirectory) (line : bytes) : PeerPinDirectory :=
  let line := trim (default [] (head (split_at 35 line))) in
  if bool_decide (line = []) then dir else
  match split_once 64 line with
  | Some (hex_part, addr) =>
      match parse_hex_pubkey hex_part with
      | Some pk => {| pin_keys := {[pk]} ∪ pin_keys dir; pin_by_addr := <[trim addr := pk]> (pin_by_addr dir); pin_strict := pin_strict dir |}
      | None => dir
      end
  | None =>
      match parse_hex_pubkey line with
      | Some pk => {| pin_keys := {[pk]} ∪ pin_keys dir; pin_by_addr := pin_by_addr dir; pin_strict := pin_strict dir |}
      | None => dir
      end
  end.
(** [file]: the source names no file, a file that cannot be read, or one with contents. *)
Inductive PinFile := NotAFile | Unreadable | Contents (text : bytes).
Definition pin_text (source : bytes) (file : PinFile) : bytes :=
  match file with
  | Contents text => text
  | Unreadable => []
  | NotAFile => (λ b, if (b =? 59) || (b =? 44) then 10 else b) <$> source
  end.
Definition parse_pin_source (source : bytes) (file : PinFile) (strict : bool) : PeerPinDirectory :=
  foldl pin_line (PeerPinDirectory_empty strict) (lines (pin_text source file)).
Definition strict_flag (env : string → option bytes) : bool :=
  match env "HASSAN_PEER_PINS_STRICT" with
  | Some v => bool_decide (v = str_bytes "1" ∨ v = str_bytes "true" ∨ v = str_bytes "TRUE")
  | None => false
  end.
Definition load_directory (env : string → option bytes) (file_of : bytes → PinFile) : PeerPinDirectory :=
  let strict := strict_flag env in
  match env "HASSAN_PEER_PINS" with
  | Some src => if bool_decide (trim src = []) then PeerPinDirectory_empty strict
                else parse_pin_source (trim src) (file_of (trim src)) strict
  | None => PeerPinDirectory_empty strict
  end.
Definition has_pins (d : PeerPinDirectory) : bool := negb (bool_decide (pin_keys d = ∅)) || negb (bool_decide (pin_by_addr d = ∅)).

(** ** The check *)

Definition check_peer_identity (d : PeerPinDirectory) (pubkey : bytes) (dialed_addr : option bytes) : result unit :=
  if bool_decide (pin_keys d = ∅) && bool_decide (pin_by_addr d = ∅) then Ok () else
  match dialed_addr ≫= λ addr, expected ← pin_by_addr d !! addr; Some (addr, expected) with
  | Some (addr, expected) =>
      fail_if negb (bool_decide (expected = pubkey)) as ("peer identity mismatch for pinned address " +:+ bytes_str addr);
      Ok ()
  | None =>
      if bool_decide (pubkey ∈ pin_keys d) then Ok () else
      if pin_strict d then Err "peer identity not in HASSAN_PEER_PINS (strict)" else Ok ()
  end.

(** ** What the directory holds *)

Record pins_ok (d : PeerPinDirectory) : Prop := {
  po_len k : k ∈ pin_keys d → len k = PQ_PUBLIC_KEY_SIZE;
  po_addr a k : pin_by_addr d !! a = Some k → k ∈ pin_keys d;
}.
Lemma parse_hex_pubkey_len raw k : parse_hex_pubkey raw = Some k → len k = PQ_PUBLIC_KEY_SIZE.
Proof.
  unfold parse_hex_pubkey. destruct (hex_decode _) as [bs|]; [|done]. cbn [mbind option_bind].
  destruct (Z.eqb_spec (len bs) PQ_PUBLIC_KEY_SIZE); [|done]. by intros [= <-].
Qed.
Lemma pin_line_ok d line : pins_ok d → pins_ok (pin_line d line) ∧ pin_strict (pin_line d line) = pin_strict d.
Proof.
  intros Hd. pose proof Hd as [Hl Ha]. unfold pin_line. cbv zeta. case_bool_decide; [done|].
  destruct (split_once _ _) as [[h a]|]; (destruct (parse_hex_pubkey _) as [k|] eqn:Hk; [|done]); apply parse_hex_pubkey_len in Hk;
    (split; [|done]); split; cbn [pin_keys pin_by_addr]; try (intros k' [->%elem_of_singleton|?]%elem_of_union; [done|by apply Hl]).
  - intros a' k' [[_ <-]|[_ H']]%lookup_insert_Some; [set_solver|]. apply Ha in H'. set_solver.
  - intros a' k' H'. apply Ha in H'. set_solver.
Qed.
Lemma load_ok env file_of : pins_ok (load_directory env file_of) ∧ pin_strict (load_directory env file_of) = strict_flag env.
Proof.
  assert (∀ b, pins_ok (PeerPinDirectory_empty b) ∧ pin_strict (PeerPinDirectory_empty b) = b) as He by (intros; split; [split; [set_solver|done]|done]).
  unfold load_directory. destruct (env "HASSAN_PEER_PINS") as [src|]; [|done]. case_bool_decide; [done|]. unfold parse_pin_source.
  apply (foldl_inv (λ d, pins_ok d ∧ pin_strict d = strict_flag env)); [done|]. intros d l _ [Hd <-]. by apply pin_line_ok.
Qed.

(** A strict directory with at least one pin admits exactly the pinned identities: at a dialled address
    with its own pin only that key, elsewhere the listed keys, all of the size of an ML-DSA key.  A key bound to
    an address is also accepted wherever no pin is bound. *)
Theorem strict_pins_exact env file_of pubkey dialed :
  let d := load_directory env file_of in
  strict_flag env = true → has_pins d = true →
  check_peer_identity d pubkey dialed = Ok () ↔
  pubkey ∈ pin_keys d ∧ len pubkey = PQ_PUBLIC_KEY_SIZE ∧ ∀ a k, dialed = Some a → pin_by_addr d !! a = Some k → k = pubkey.
Proof.
  intros d Hs Hp. destruct (load_ok env file_of) as [[Hl Ha] Hst]. fold d in Hl, Ha, Hst. rewrite Hs in Hst. unfold check_peer_identity.
  unfold has_pins in Hp. destruct (bool_decide (pin_keys d = ∅) && bool_decide (pin_by_addr d = ∅)) eqn:He.
  { apply andb_prop in He as [H1' H2']. by rewrite H1', H2' in Hp. }
  rewrite Hst. clear He Hp. destruct dialed as [a|]; cbn [mbind option_bind]; [destruct (pin_by_addr d !! a) as [k|] eqn:Hk; cbn [mbind option_bind]|].
  - case_bool_decide as Hkp; cbn [negb]; (split; [|intros (_ & _ & Hall); try done]).
    + intros _. subst k. split_and!; [by eapply Ha|by eapply Hl, Ha|]. intros a' k' [= <-]. by rewrite Hk; intros [= <-].
    + done.
    + exfalso. apply Hkp. by eapply Hall.
  - case_bool_decide as Hin; (split; [|intros (? & _); done]); [|done]. intros _. split_and!; [done|by apply Hl|]. intros a' k' [= <-]. by rewrite Hk.
  - case_bool_decide as Hin; (split; [|intros (? & _); done]); [|done]. intros _. by split_and!; [|apply Hl|].
Qed.

(** Strict mode fails open: if the configured pin file cannot be read, every identity is accepted,
    although strict mode was asked for. *)
Theorem unreadable_pins_accept_all env file_of src pubkey dialed :
  env "HASSAN_PEER_PINS" = Some src → file_of (trim src) = Unreadable →
  check_peer_identity (load_directory env file_of) pubkey dialed = Ok ().
Proof.
  intros He Hf. unfold load_directory. rewrite He. case_bool_decide; [done|]. by rewrite Hf.
Qed.
End pins.

(** ** Example *)

Section witnesses.
#[local] Existing Instances Toy.easy_crypto.
Definition pin_env (v : string) (name : string) : option bytes :=
  if String.eqb name "HASSAN_PEER_PINS" then Some (str_bytes v)
  else if String.eqb name "HASSAN_PEER_PINS_STRICT" then Some (str_bytes "1") else None.

Lemma strict_pins_exact_witness :
  check_peer_identity (load_directory (pin_env "0102@10.0.0.1:9333;0304") (λ _, NotAFile)) [1; 2] None = Ok () ∧
  check_peer_identity (load_directory (pin_env "0102@10.0.0.1:9333;0304") (λ _, NotAFile)) [9; 9] None ≠ Ok ().
Proof.
  pose proof (strict_pins_exact (pin_env "0102@10.0.0.1:9333;0304") (λ _, NotAFile)) as Hx. cbv zeta in Hx. split.
  - apply Hx; [vm_compute; reflexivity|vm_compute; reflexivity|]. split_and!; [|reflexivity|discriminate].
    apply (bool_decide_eq_true_1 (_ ∈ _)). vm_compute. reflexivity.
  - intros Hc. apply Hx in Hc as (Hin & _); [|vm_compute; reflexivity|vm_compute; reflexivity].
    apply (bool_decide_eq_true_2 _) in Hin. vm_compute in Hin. discriminate Hin.
Defined.
Lemma unreadable_pins_accept_all_witness :
  check_peer_identity (load_directory (pin_env "pins.txt") (λ _, Unreadable)) [9; 9] None = Ok ().
Proof. apply (unreadable_pins_accept_all (pin_env "pins.txt") (λ _, Unreadable) (str_bytes "pins.txt")); reflexivity. Defined.
End witnesses.
