(* ===== verification/NodeRole.v ===== *)
(** * Node roles and operator profile

    [src/src/node_role.rs]: the command line, the profile and what it writes into the
    environment that [NetPolicy::from_env] and the rest of the start-up read; and the
    switch of [TorLayer::from_env] ([src/src/tor.rs]).  The environment is a function from
    names to values; an exit of the process is its code. *)

From S2P Require Import Prelude Genesis Crypto Address Net PeerPin.

(** ** Environment *)

Definition Env := string → option bytes.
Definition env_set (env : Env) (k : string) (v : bytes) : Env := λ k', if String.eqb k' k then Some v else env k'.
Definition env_remove (env : Env) (k : string) : Env := λ k', if String.eqb k' k then None else env k'.
(** [env::set_var] when the variable is unset. *)
Definition env_default (env : Env) (k : string) (v : bytes) : Env := match env k with Some _ => env | None => env_set env k v end.
(** [node_role::env_flag]. *)
Definition role_flag (env : Env) (name : string) : bool :=
  match env name with
  | Some v => existsb (λ w, bool_decide (v = str_bytes w)) ["1"; "true"; "TRUE"; "yes"; "YES"]
  | None => false
  end.

(** ** Profile *)

Inductive NodeRole := Archive | Validator | Light.
#[global] Instance node_role_dec : EqDecision NodeRole.
Proof. solve_decision. Defined.
Record NodeProfile := {
  pr_role : NodeRole;
  pr_archival : bool;
  pr_enable_indexer : bool;
  pr_enable_mining : bool;
  pr_tor_only : bool;
  pr_public_lock : bool;
  pr_p2p_listen : option bytes;
  pr_peers : list bytes;
  pr_data_dir : option bytes;
  pr_api_bind : option bytes;
}.

(** ** Command line *)

Definition arg_is (a : bytes) (s : string) : bool := bool_decide (a = str_bytes s).
Record Options := {
  op_clearnet : bool;
  op_public : bool;
  op_listen : option bytes;
  op_peers : list bytes;
  op_data_dir : option bytes;
  op_api_bind : option bytes;
  op_mining : bool;
}.
Definition Options_default : Options :=
  {| op_clearnet := false; op_public := false; op_listen := None; op_peers := []; op_data_dir := None; op_api_bind := None; op_mining := true |}.
Definition with_public (o : Options) : Options :=
  {| op_clearnet := true; op_public := true; op_listen := op_listen o; op_peers := op_peers o; op_data_dir := op_data_dir o;
     op_api_bind := op_api_bind o; op_mining := op_mining o |}.
Definition with_clearnet (o : Options) : Options :=
  {| op_clearnet := true; op_public := op_public o; op_listen := op_listen o; op_peers := op_peers o; op_data_dir := op_data_dir o;
     op_api_bind := op_api_bind o; op_mining := op_mining o |}.
Definition with_no_mine (o : Options) : Options :=
  {| op_clearnet := op_clearnet o; op_public := op_public o; op_listen := op_listen o; op_peers := op_peers o; op_data_dir := op_data_dir o;
     op_api_bind := op_api_bind o; op_mining := false |}.
Definition with_values (o : Options) (listen : option bytes) (peers : list bytes) (data_dir api_bind : option bytes) : Options :=
  {| op_clearnet := op_clearnet o; op_public := op_public o; op_listen := listen; op_peers := peers; op_data_dir := data_dir;
     op_api_bind := api_bind; op_mining := op_mining o |}.
(** The option loop; exit code 2 for an unknown option or a missing value. *)
Fixpoint parse_options (args : list bytes) (o : Options) : Z + Options :=
  match args with
  | [] => inr o
  | a :: args =>
      if arg_is a "--public" then parse_options args (with_public o) else
      if arg_is a "--clearnet" then parse_options args (with_clearnet o) else
      if arg_is a "--no-mine" then parse_options args (with_no_mine o) else
      if arg_is a "--listen" then
        match args with [] => inl 2 | v :: args => parse_options args (with_values o (Some v) (op_peers o) (op_data_dir o) (op_api_bind o)) end else
      if arg_is a "--peer" then
        match args with [] => inl 2 | v :: args => parse_options args (with_values o (op_listen o) (op_peers o ++ [v]) (op_data_dir o) (op_api_bind o)) end else
      if arg_is a "--data-dir" then
        match args with [] => inl 2 | v :: args => parse_options args (with_values o (op_listen o) (op_peers o) (Some v) (op_api_bind o)) end else
      if arg_is a "--api-bind" then
        match args with [] => inl 2 | v :: args => parse_options args (with_values o (op_listen o) (op_peers o) (op_data_dir o) (Some v)) end else
      inl 2
  end.
(** The first argument: a role, an option, or an error. *)
Definition parse_role (args : list bytes) : Z + (NodeRole * list bytes) :=
  match args with
  | [] => inr (Validator, [])
  | a :: rest =>
      if arg_is a "archive" || arg_is a "full" then inr (Archive, rest) else
      if arg_is a "validator" || arg_is a "prune" || arg_is a "pruned" then inr (Validator, rest) else
      if arg_is a "light" || arg_is a "lite" || arg_is a "miner" then inr (Light, rest) else
      if bool_decide (head a = Some 45) then inr (Validator, args) else inl 2
  end.
(** Peers of the environment, without repetitions. *)
Definition add_peer (peers : list bytes) (p : bytes) : list bytes := if bool_decide (p ∈ peers) then peers else peers ++ [p].
Definition split_peers (l : bytes) : list bytes := split_at 10 ((λ b, if (b =? 44) || (b =? 59) || (b =? 32) then 10 else b) <$> l).
Definition env_peers (env : Env) (peers : list bytes) : list bytes :=
  let peers := match env "HASSAN_P2P_PEER" with Some one => if bool_decide (trim one = []) then peers else add_peer peers one | None => peers end in
  match env "HASSAN_P2P_PEERS" with
  | Some many => foldl (λ ps p, if bool_decide (trim p = []) then ps else add_peer ps (trim p)) peers (split_peers many)
  | None => peers
  end.
(** [parse_args]; [raw] starts with the program's name. *)
Definition parse_args (raw : list bytes) (env : Env) : Z + NodeProfile :=
  let args := tail raw in
  if existsb (λ a, arg_is a "-h" || arg_is a "--help" || arg_is a "help") args then inl 0 else
  match parse_role args with
  | inl e => inl e
  | inr (role, args) =>
      match parse_options args Options_default with
      | inl e => inl e
      | inr o =>
          let peers := env_peers env (op_peers o) in
          let o := if role_flag env "HASSAN_PUBLIC" then with_public o else o in
          let '(archival, enable_indexer) := match role with Archive => (true, true) | Validator => (false, true) | Light => (false, false) end in
          inr {| pr_role := role; pr_archival := archival; pr_enable_indexer := enable_indexer; pr_enable_mining := op_mining o;
                 pr_tor_only := negb (op_clearnet o); pr_public_lock := op_public o; pr_p2p_listen := op_listen o; pr_peers := peers;
                 pr_data_dir := op_data_dir o; pr_api_bind := op_api_bind o |}
      end
  end.

(** ** The profile in the environment *)

Definition is_loopback_bind (addr : bytes) : bool :=
  let host := default addr (head (split_at 58 addr)) in
  arg_is host "127.0.0.1" || arg_is host "localhost" || arg_is host "::1".
Fixpoint join_comma (l : list bytes) : bytes :=
  match l with [] => [] | [x] => x | x :: l => x ++ 44 :: join_comma l end.
Definition apply_env (p : NodeProfile) (env : Env) : Z + Env :=
  let env := from_option (env_set env "HASSAN_DATA_DIR") env (pr_data_dir p) in
  let env := match pr_api_bind p with
             | Some b => env_set env "HASSAN_API_BIND" b
             | None => env_default env "HASSAN_API_BIND" (str_bytes "127.0.0.1:8080")
             end in
  let env := if pr_archival p then env_set env "HASSAN_ARCHIVAL" (str_bytes "1") else env_default env "HASSAN_ARCHIVAL" (str_bytes "0") in
  let env := if pr_public_lock p then env_set (env_set env "HASSAN_PUBLIC" (str_bytes "1")) "HASSAN_STRICT_DIALS" (str_bytes "1") else env in
  if pr_public_lock p && bool_decide (pr_p2p_listen p = None) && bool_decide (env "HASSAN_P2P_LISTEN" = None) then inl 1 else
  let env := if pr_tor_only p then
               let env := env_default env "HASSAN_TOR" (str_bytes "1") in
               if bool_decide (is_Some (env "HASSAN_PEER_PINS")) then env_default env "HASSAN_PEER_PINS_STRICT" (str_bytes "1") else env
             else env in
  let env := if bool_decide (pr_peers p = []) then env else env_default env "HASSAN_P2P_PEERS" (join_comma (pr_peers p)) in
  match pr_p2p_listen p with
  | Some listen =>
      if pr_tor_only p && negb (is_loopback_bind listen) then inl 1 else inr (env_set env "HASSAN_P2P_LISTEN" listen)
  | None =>
      inr (if pr_tor_only p && from_option (λ l, negb (is_loopback_bind l)) false (env "HASSAN_P2P_LISTEN")
           then env_remove env "HASSAN_P2P_LISTEN" else env)
  end.
(** [TorLayer::from_env]: whether outbound dials go through the proxy. *)
Definition tor_enabled (env : Env) : bool :=
  from_option (λ v, arg_is v "1" || bool_decide (to_ascii_lowercase v = str_bytes "true")) false (env "HASSAN_TOR").

(** ** Properties *)

Lemma env_set_eq env k v : env_set env k v k = Some v.
Proof. unfold env_set. by rewrite String.eqb_refl. Qed.
Lemma env_set_ne env k v k' : String.eqb k' k = false → env_set env k v k' = env k'.
Proof. unfold env_set. by intros ->. Qed.
Lemma env_default_ne env k v k' : String.eqb k' k = false → env_default env k v k' = env k'.
Proof. unfold env_default. destruct (env k); [done|]. apply env_set_ne. Qed.
Lemma env_default_some env k v : is_Some (env_default env k v k).
Proof. unfold env_default. destruct (env k) eqn:He; [by rewrite He|]. rewrite env_set_eq. by eexists. Qed.
Lemma parse_options_public args o o' :
  parse_options args o = inr o' → (op_public o = true → op_clearnet o = true) → op_public o' = true → op_clearnet o' = true.
Proof.
  assert (∀ n args o, (length args <= n)%nat → parse_options args o = inr o' →
    (op_public o = true → op_clearnet o = true) → op_public o' = true → op_clearnet o' = true) as Hind; [|by eapply Hind].
  clear. induction n as [|n IH]; intros args o Hn Hp Ho.
  { destruct args; [|simpl in Hn; lia]. by injection Hp as <-. }
  destruct args as [|a args]; [by injection Hp as <-|]. cbn [length] in Hn. cbn [parse_options] in Hp.
  destruct (arg_is a "--public"); [by eapply IH; [|exact Hp|]; [lia|]|]. destruct (arg_is a "--clearnet"); [by eapply IH; [|exact Hp|]; [lia|]|].
  destruct (arg_is a "--no-mine"); [by eapply IH; [|exact Hp|]; [lia|]|].
  destruct args as [|v args]; [by repeat match type of Hp with context [if ?b then _ else _] => destruct b end|]. cbn [length] in Hn.
  destruct (arg_is a "--listen"); [by eapply IH; [|exact Hp|]; [lia|]|]. destruct (arg_is a "--peer"); [by eapply IH; [|exact Hp|]; [lia|]|].
  destruct (arg_is a "--data-dir"); [by eapply IH; [|exact Hp|]; [lia|]|]. destruct (arg_is a "--api-bind"); [by eapply IH; [|exact Hp|]; [lia|]|]. done.
Qed.
Lemma parse_args_public raw env p : parse_args raw env = inr p → pr_public_lock p = true → pr_tor_only p = false.
Proof.
  unfold parse_args. destruct (existsb _ _); [done|]. destruct (parse_role _) as [|[role args]]; [done|].
  destruct (parse_options _ _) as [|o] eqn:Ho; [done|]. intros Hp Hl.
  assert (pr_tor_only p = negb (op_clearnet (if role_flag env "HASSAN_PUBLIC" then with_public o else o)) ∧
          pr_public_lock p = op_public (if role_flag env "HASSAN_PUBLIC" then with_public o else o)) as [-> Hpub] by (by destruct role; injection Hp as <-).
  rewrite Hpub in Hl. destruct (role_flag _ _); [done|]. by rewrite (parse_options_public _ _ _ Ho).
Qed.

(** Lookups through the writes of a profile. *)
Ltac env_look := repeat first [rewrite env_set_eq | rewrite env_set_ne by reflexivity | rewrite env_default_ne by reflexivity].
Ltac env_cases p :=
  destruct (pr_data_dir p), (pr_api_bind p), (pr_archival p), (bool_decide (pr_peers p = [])); cbn [from_option].

Section applied.
Context (p : NodeProfile) (env env' : Env).

(** What the public lock leaves in the environment. *)
Lemma applied_public :
  apply_env p env = inr env' → pr_public_lock p = true → pr_tor_only p = false →
  env' "HASSAN_PUBLIC" = Some (str_bytes "1") ∧ is_Some (env' "HASSAN_P2P_LISTEN") ∧
  ∀ k, k ∈ ["HASSAN_API_TOKEN"; "HASSAN_ALLOW_UNAUTH_WRITES"; "HASSAN_RELAX_NET"; "HASSAN_BOOTSTRAP_EASY"; "HASSAN_CORS_ORIGIN"] → env' k = env k.
Proof.
  intros Happ Hl Ht. unfold apply_env in Happ. rewrite Hl, Ht in Happ. cbn [andb] in Happ.
  destruct (pr_p2p_listen p) as [l|] eqn:Hp2p.
  - rewrite (bool_decide_eq_false_2 (Some l = None)) in Happ by done. cbn [andb] in Happ. injection Happ as <-.
    env_cases p; (split_and!; [by env_look|env_look; by eexists|]); intros k Hk; repeat (apply elem_of_cons in Hk as [->|Hk]; [by env_look|]); by apply elem_of_nil in Hk.
  - rewrite (bool_decide_eq_true_2 (None = None)) in Happ by done. cbn [andb] in Happ.
    match type of Happ with context [bool_decide (?x = None)] => destruct (bool_decide_reflect (x = None)) as [|Hn] end; [done|]. injection Happ as <-.
    revert Hn. env_cases p; env_look; intros Hn; (split_and!; [by env_look|env_look; by apply not_eq_None_Some|]);
      intros k Hk; repeat (apply elem_of_cons in Hk as [->|Hk]; [by env_look|]); by apply elem_of_nil in Hk.
Qed.

(** What a Tor-only profile leaves in it. *)
Lemma applied_tor :
  apply_env p env = inr env' → pr_public_lock p = false → pr_tor_only p = true →
  (env' "HASSAN_TOR" = Some (default (str_bytes "1") (env "HASSAN_TOR"))) ∧
  (∀ l, env' "HASSAN_P2P_LISTEN" = Some l → is_loopback_bind l = true).
Proof.
  intros Happ Hl Ht. unfold apply_env in Happ. rewrite Hl, Ht in Happ. cbn [andb] in Happ.
  assert (∀ e : Env, e "HASSAN_TOR" = env "HASSAN_TOR" → env_default e "HASSAN_TOR" (str_bytes "1") "HASSAN_TOR" = Some (default (str_bytes "1") (env "HASSAN_TOR"))) as Hdef.
  { intros e He. unfold env_default. rewrite He. destruct (env "HASSAN_TOR") eqn:Hv; [by rewrite He|]. by rewrite env_set_eq. }
  destruct (pr_p2p_listen p) as [l|].
  - destruct (is_loopback_bind l) eqn:Hlb; [|done]. cbn [negb] in Happ. injection Happ as <-. split.
    + env_cases p; case_bool_decide; env_look; apply Hdef; by env_look.
    + intros l'. rewrite env_set_eq. by intros [= <-].
  - match type of Happ with inr (if _ then _ else ?e) = _ => set (e0 := e) in * end.
    match type of Happ with inr (if ?c then _ else _) = _ => destruct c eqn:Hc end; injection Happ as <-.
    + split; [|intros l; unfold env_remove; by rewrite String.eqb_refl].
      change (e0 "HASSAN_TOR" = Some (default (str_bytes "1") (env "HASSAN_TOR"))). unfold e0.
      env_cases p; case_bool_decide; env_look; apply Hdef; by env_look.
    + split; [unfold e0; env_cases p; case_bool_decide; env_look; apply Hdef; by env_look|].
      intros l Hl'. rewrite Hl' in Hc. cbn [from_option] in Hc. by destruct (is_loopback_bind l).
Qed.
(** Where it leaves the API bound: the address of the profile, of the environment, or loopback. *)
Lemma applied_api :
  apply_env p env = inr env' →
  env' "HASSAN_API_BIND" = Some (default (default (str_bytes "127.0.0.1:8080") (env "HASSAN_API_BIND")) (pr_api_bind p)).
Proof.
  intros Happ. assert (∀ e : Env, e "HASSAN_API_BIND" = env "HASSAN_API_BIND" →
    env_default e "HASSAN_API_BIND" (str_bytes "127.0.0.1:8080") "HASSAN_API_BIND" = Some (default (str_bytes "127.0.0.1:8080") (env "HASSAN_API_BIND"))) as Hdef.
  { intros e He. unfold env_default. rewrite He. destruct (env "HASSAN_API_BIND") eqn:Hv; [by rewrite He|]. by rewrite env_set_eq. }
  assert (∀ e k, String.eqb "HASSAN_API_BIND" k = false → env_remove e k "HASSAN_API_BIND" = e "HASSAN_API_BIND") as Hrem by (by unfold env_remove; intros ?? ->).
  unfold apply_env in Happ. cbv zeta in Happ.
  repeat match type of Happ with
         | (if ?c then _ else _) = _ => destruct c; [discriminate Happ|]
         | match pr_p2p_listen p with _ => _ end = _ => destruct (pr_p2p_listen p)
         end;
  injection Happ as <-; env_look;
  repeat match goal with |- (if ?c then _ else _) _ = _ => destruct c end; rewrite ?Hrem by reflexivity; env_look;
  repeat match goal with |- (if ?c then _ else _) _ = _ => destruct c; env_look end;
  destruct (pr_api_bind p); cbn [default from_option]; rewrite ?env_set_eq; try reflexivity; apply Hdef; destruct (pr_data_dir p); cbn [from_option]; by env_look.
Qed.
End applied.

Lemma public_flag env : env "HASSAN_PUBLIC" = Some (str_bytes "1") → env_flag env "HASSAN_PUBLIC" = true.
Proof. intros He. unfold env_flag. by rewrite He. Qed.
(** The public lock reaches the network policy: a profile that asked for it, by option or by the
    environment, starts only on clearnet with a listen address, and the policy that [from_env] then
    builds is public with strict dials and an explicit token; every soft override makes the start fail. *)
Theorem public_start raw env p env' tok pol :
  parse_args raw env = inr p → pr_public_lock p = true → apply_env p env = inr env' → from_env env' tok = Ok pol →
  pr_tor_only p = false ∧ is_Some (env' "HASSAN_P2P_LISTEN") ∧ np_public_mode pol = true ∧ strict_dials pol = true ∧
  (∃ t, env "HASSAN_API_TOKEN" = Some t ∧ api_token pol = Some (trim t) ∧ trim t ≠ []) ∧
  env_flag env "HASSAN_ALLOW_UNAUTH_WRITES" = false ∧ env_flag env "HASSAN_RELAX_NET" = false ∧ env_flag env "HASSAN_BOOTSTRAP_EASY" = false.
Proof.
  intros Hp Hl Happ Hf. pose proof (parse_args_public _ _ _ Hp Hl) as Ht. destruct (applied_public _ _ _ Happ Hl Ht) as (Hpub & Hlis & Hsame).
  split; [done|]. split; [done|]. unfold from_env in Hf. rewrite (public_flag _ Hpub) in Hf. cbn [andb orb] in Hf.
  assert (∀ k, k ∈ ["HASSAN_API_TOKEN"; "HASSAN_ALLOW_UNAUTH_WRITES"; "HASSAN_RELAX_NET"; "HASSAN_BOOTSTRAP_EASY"; "HASSAN_CORS_ORIGIN"] →
    env_flag env' k = env_flag env k) as Hflag by (intros k Hk; unfold env_flag; by rewrite Hsame).
  rewrite !Hflag in Hf by set_solver. rewrite (Hsame "HASSAN_API_TOKEN") in Hf by set_solver.
  destruct (env_flag env "HASSAN_ALLOW_UNAUTH_WRITES"); [done|]. destruct (env_flag env "HASSAN_RELAX_NET"); [done|].
  destruct (env_flag env "HASSAN_BOOTSTRAP_EASY"); [done|]. destruct (env "HASSAN_API_TOKEN") as [t|]; [|done]. cbn [mbind option_bind] in Hf.
  destruct (bool_decide_reflect (trim t = [])) as [|Htr]; [done|]. rewrite !(bool_decide_eq_false_2 (Some (trim t) = None)) in Hf by done. cbn [andb negb] in Hf.
  injection Hf as <-. split_and!; try done. by exists t.
Qed.

(** What a Tor-only start guarantees, exactly: no P2P listener off the loopback interface, whatever the
    environment asked for; and dials through the proxy if and only if [HASSAN_TOR] was unset or spelled in a way
    the Tor layer accepts.  A value such as [yes] or [0] is kept, and the node then dials in the clear. *)
Theorem tor_only_start raw env p env' :
  parse_args raw env = inr p → pr_tor_only p = true → apply_env p env = inr env' →
  (∀ l, env' "HASSAN_P2P_LISTEN" = Some l → is_loopback_bind l = true) ∧
  (tor_enabled env' = true ↔ env "HASSAN_TOR" = None ∨ tor_enabled env = true).
Proof.
  intros Hp Ht Happ. assert (pr_public_lock p = false) as Hl.
  { destruct (pr_public_lock p) eqn:Hl; [|done]. by rewrite (parse_args_public _ _ _ Hp Hl) in Ht. }
  destruct (applied_tor _ _ _ Happ Hl Ht) as [Htor Hlis]. split; [done|]. unfold tor_enabled. rewrite Htor.
  destruct (env "HASSAN_TOR") as [v|]; cbn [default from_option id]; [|split; [by left|done]]. split; [by right|]. by intros [?|?].
Qed.

(** ** Examples *)

Definition public_env : Env := env_set (λ _, None) "HASSAN_API_TOKEN" (str_bytes "token").
Definition public_args : list bytes := str_bytes <$> ["hassan"; "archive"; "--public"; "--listen"; "0.0.0.0:9333"].
Definition policy_of (raw : list bytes) (env : Env) : option (NodeProfile * Env * NetPolicy) :=
  match parse_args raw env with
  | inr p => match apply_env p env with inr e => match from_env e [] with Ok pol => Some (p, e, pol) | Err _ => None end | inl _ => None end
  | inl _ => None
  end.
Lemma public_start_witness : ∃ p e pol, policy_of public_args public_env = Some (p, e, pol) ∧ np_public_mode pol = true ∧ strict_dials pol = true.
Proof.
  assert ((λ x, pr_public_lock x.1.1) <$> policy_of public_args public_env = Some true) as Hl by (vm_compute; reflexivity).
  unfold policy_of in *. destruct (parse_args public_args public_env) as [?|p] eqn:Hp; [discriminate Hl|].
  destruct (apply_env p public_env) as [?|e] eqn:Ha; [discriminate Hl|]. destruct (from_env e []) as [pol|] eqn:Hf; [|discriminate Hl].
  exists p, e, pol. injection Hl as Hl. destruct (public_start public_args public_env p e [] pol Hp Hl Ha Hf) as (_ & _ & H3' & H4' & _).
  split; [reflexivity|]. split; [exact H3'|exact H4'].
Defined.
Definition tor_env : Env := env_set (λ _, None) "HASSAN_TOR" (str_bytes "yes").
Definition started (raw : list bytes) (env : Env) : option bool :=
  match parse_args raw env with
  | inr p => match apply_env p env with inr _ => Some (pr_tor_only p) | inl _ => None end
  | inl _ => None
  end.
Lemma tor_only_start_witness :
  ∃ p e, parse_args [str_bytes "hassan"] tor_env = inr p ∧ apply_env p tor_env = inr e ∧ pr_tor_only p = true ∧ tor_enabled e = false.
Proof.
  assert (started [str_bytes "hassan"] tor_env = Some true) as Hs by (vm_compute; reflexivity). unfold started in Hs.
  destruct (parse_args [str_bytes "hassan"] tor_env) as [?|p] eqn:Hp; [discriminate Hs|].
  destruct (apply_env p tor_env) as [?|e] eqn:Ha; [discriminate Hs|]. injection Hs as Hs. exists p, e.
  split; [reflexivity|]. split; [exact Ha|]. split; [exact Hs|]. apply not_true_iff_false. intros Ht.
  destruct (tor_only_start [str_bytes "hassan"] tor_env p e Hp Hs Ha) as [_ [Hx _]].
  destruct (Hx Ht) as [He|He]; vm_compute in He; discriminate He.
Defined.
