(* ===== verification/Indexer.v ===== *)
(** * The explorer's index

    [IndexerDb] of [src/src/indexer.rs]: the index of the selected chain that explorer
    queries read, kept up to date from the chain state, with its file format.  Hash maps
    are maps; the order in which the transfer table yields its keys and the bincode form
    of the index are parameters. *)

From S2P Require Import Prelude Genesis Crypto Address Predicate Utxo UtxoTx Registry Custody Block Ledger.
From S2P Require Import Dag Ghostdag Reachability ReachBuild Superproof Stark State Chain ChainInv.

(** ** Data *)

Definition MAX_SERIES_POINTS : Z := 4096.
Definition MAX_ADDR_TXS : Z := 2048.
Definition MAX_TX_RECORDS : Z := 50000.
Definition INDEXER_MAGIC : bytes := str_bytes "HSNIDX01".
Definition INDEXER_FORMAT : Z := 1.

Record BlockRecord := {
  br_height : Z; br_hash : string; br_blue_score : Z; br_timestamp : Z; br_difficulty : Z; br_miner : string;
  br_transfers : Z; br_registry_ops : Z; br_custody_ops : Z; br_utxo_txs : Z; br_fees : string;
  br_selected_parent : option string; br_is_chain_block : bool;
}.
Record TxRecord := {
  tr_tx_hash : string; tr_height : Z; tr_block_hash : string; tr_from : string; tr_to : string; tr_amount : string; tr_fee : string;
  tr_nonce : Z; tr_timestamp : Z;
}.
Record SeriesPoint := {
  sp_height : Z; sp_blue_score : Z; sp_timestamp : Z; sp_difficulty : Z; sp_transfers : Z; sp_fees : string;
  sp_minted_supply : string; sp_mempool : Z; sp_dag_blocks : Z;
}.
Record IndexerDb := {
  ix_format : Z;
  ix_tip_height : Z;
  ix_tip_hash : option string;
  ix_blocks : gmap Z BlockRecord;
  ix_by_hash : gmap string Z;
  ix_txs : gmap string TxRecord;
  ix_address_txs : gmap string (list string);
  ix_labels : gmap string string;
  ix_series : list SeriesPoint;
  ix_indexed_at_ms : Z;
}.
Definition set_chain (db : IndexerDb) (blocks : gmap Z BlockRecord) (by_hash : gmap string Z) : IndexerDb :=
  {| ix_format := ix_format db; ix_tip_height := ix_tip_height db; ix_tip_hash := ix_tip_hash db; ix_blocks := blocks; ix_by_hash := by_hash;
     ix_txs := ix_txs db; ix_address_txs := ix_address_txs db; ix_labels := ix_labels db; ix_series := ix_series db;
     ix_indexed_at_ms := ix_indexed_at_ms db |}.
Definition set_txs (db : IndexerDb) (txs : gmap string TxRecord) (address_txs : gmap string (list string)) : IndexerDb :=
  {| ix_format := ix_format db; ix_tip_height := ix_tip_height db; ix_tip_hash := ix_tip_hash db; ix_blocks := ix_blocks db;
     ix_by_hash := ix_by_hash db; ix_txs := txs; ix_address_txs := address_txs; ix_labels := ix_labels db; ix_series := ix_series db;
     ix_indexed_at_ms := ix_indexed_at_ms db |}.
Definition set_labels (db : IndexerDb) (labels : gmap string string) : IndexerDb :=
  {| ix_format := ix_format db; ix_tip_height := ix_tip_height db; ix_tip_hash := ix_tip_hash db; ix_blocks := ix_blocks db;
     ix_by_hash := ix_by_hash db; ix_txs := ix_txs db; ix_address_txs := ix_address_txs db; ix_labels := labels; ix_series := ix_series db;
     ix_indexed_at_ms := ix_indexed_at_ms db |}.
Definition set_series (db : IndexerDb) (series : list SeriesPoint) : IndexerDb :=
  {| ix_format := ix_format db; ix_tip_height := ix_tip_height db; ix_tip_hash := ix_tip_hash db; ix_blocks := ix_blocks db;
     ix_by_hash := ix_by_hash db; ix_txs := ix_txs db; ix_address_txs := ix_address_txs db; ix_labels := ix_labels db; ix_series := series;
     ix_indexed_at_ms := ix_indexed_at_ms db |}.
Definition set_tip (db : IndexerDb) (height : Z) (hash : option string) (now : Z) : IndexerDb :=
  {| ix_format := INDEXER_FORMAT; ix_tip_height := height; ix_tip_hash := hash; ix_blocks := ix_blocks db; ix_by_hash := ix_by_hash db;
     ix_txs := ix_txs db; ix_address_txs := ix_address_txs db; ix_labels := ix_labels db; ix_series := ix_series db; ix_indexed_at_ms := now |}.

(** [entry(k).or_insert(v)]. *)
Definition label_once (labels : gmap string string) (k v : string) : gmap string string :=
  match labels !! k with Some _ => labels | None => <[k := v]> labels end.
Definition put_label (db : IndexerDb) (k v : string) : IndexerDb := set_labels db (label_once (ix_labels db) k v).
Definition seed_protocol_labels (db : IndexerDb) : IndexerDb :=
  put_label (put_label (put_label db "protocol:genesis" "Hassan genesis") "protocol:kernel" "Kernel rules ID")
    ("domain:" +:+ bytes_str GENESIS_DOMAIN) "Genesis domain".
Definition IndexerDb_new : IndexerDb :=
  seed_protocol_labels {| ix_format := INDEXER_FORMAT; ix_tip_height := 0; ix_tip_hash := None; ix_blocks := ∅; ix_by_hash := ∅; ix_txs := ∅;
    ix_address_txs := ∅; ix_labels := ∅; ix_series := []; ix_indexed_at_ms := 0 |}.

(** ** Trimming *)

Definition keep_txs (db : IndexerDb) (txs : gmap string TxRecord) : IndexerDb :=
  set_txs db txs ((λ l, List.filter (λ id, bool_decide (id ∈ dom txs)) l) <$> ix_address_txs db).
Definition trim_from_height (db : IndexerDb) (height : Z) : IndexerDb :=
  let gone := filter (λ kb, height <= kb.1) (ix_blocks db) in
  let by_hash := foldl (λ m kb, delete (br_hash kb.2) m) (ix_by_hash db) (map_to_list gone) in
  let db := set_chain db (filter (λ kb, ¬ height <= kb.1) (ix_blocks db)) by_hash in
  keep_txs (set_series db (List.filter (λ p, sp_height p <? height) (ix_series db))) (filter (λ kt, tr_height kt.2 < height) (ix_txs db)).
Definition push_addr_tx (db : IndexerDb) (addr txid : string) : IndexerDb :=
  let l := default [] (ix_address_txs db !! addr) in
  let l := if bool_decide (last l = Some txid) then l else l ++ [txid] in
  set_txs db (ix_txs db) (<[addr := drop (Z.to_nat (len l - MAX_ADDR_TXS)) l]> (ix_address_txs db)).

Class IndexEnv := {
  tx_order : gmap string TxRecord → list string;
  ser_index : IndexerDb → option bytes;
  de_index : bytes → result IndexerDb;
}.

Section indexer.
Context `{!Crypto, !DualCrypto, !BodyCodec, !NodeEnv, !IndexEnv}.

Definition height_le (a b : Z * string) : Prop := a.1 <= b.1.
#[global] Instance height_le_dec : RelDecision height_le.
Proof. intros a b. unfold height_le. apply _. Defined.
Definition trim_tx_cap (db : IndexerDb) : IndexerDb :=
  if Z.of_nat (size (ix_txs db)) <=? MAX_TX_RECORDS then db else
  let pairs := merge_sort height_le ((λ k, (from_option tr_height 0 (ix_txs db !! k), k)) <$> tx_order (ix_txs db)) in
  keep_txs db (foldl (λ m p, delete p.2 m) (ix_txs db) (take (Z.to_nat (Z.of_nat (size (ix_txs db)) - MAX_TX_RECORDS)) pairs)).

(** ** Catching up *)

Definition hash_hex (h : Hash) : string := hex_encode (hash_bytes h).
Definition fee_sum (b : Block) : Z := wrap 128 (zsum (tt_fee <$> blk_transparent_txs b)).
Definition miner_name (b : Block) : string := "hsn:" +:+ hash_hex (blk_miner b).
Definition block_record (height : Z) (h : Hash) (b : Block) (gd : option GhostdagData) : BlockRecord :=
  {| br_height := height; br_hash := hash_hex h; br_blue_score := from_option gd_blue_score 0 gd; br_timestamp := blk_timestamp b;
     br_difficulty := blk_difficulty b; br_miner := miner_name b; br_transfers := wrap 32 (len (blk_transparent_txs b));
     br_registry_ops := wrap 32 (len (blk_registry_ops b)); br_custody_ops := wrap 32 (len (blk_custody_ops b));
     br_utxo_txs := wrap 32 (len (blk_utxo_txs b)); br_fees := pretty (fee_sum b);
     br_selected_parent := hash_hex <$> (gd ≫= gd_selected_parent); br_is_chain_block := true |}.
Definition index_tx (height : Z) (h : Hash) (b : Block) (db : IndexerDb) (tx : TransparentTx) : IndexerDb :=
  let txid := hash_hex (tt_tx_hash tx) in
  let tr := {| tr_tx_hash := txid; tr_height := height; tr_block_hash := hash_hex h; tr_from := tt_from tx; tr_to := tt_to tx;
               tr_amount := pretty (tt_amount tx); tr_fee := pretty (tt_fee tx); tr_nonce := tt_nonce tx; tr_timestamp := blk_timestamp b |} in
  let db := push_addr_tx (push_addr_tx db (tt_from tx) txid) (tt_to tx) txid in
  let db := put_label (put_label db (tt_from tx) "Active account") (tt_to tx) "Active account" in
  set_txs db (<[txid := tr]> (ix_txs db)) (ix_address_txs db).
(** The insertion of one block of the chain. *)
Definition index_block (s : ChainState) (height : Z) (h : Hash) (b : Block) (db : IndexerDb) : IndexerDb :=
  let gd := cs_ghostdag s !! h in
  let db := set_chain db (<[height := block_record height h b gd]> (ix_blocks db)) (<[hash_hex h := height]> (ix_by_hash db)) in
  let db := put_label db (miner_name b) ("Miner @ height " +:+ pretty height) in
  let db := foldl (index_tx height h b) db (blk_transparent_txs b) in
  set_series db (ix_series db ++ [
    {| sp_height := height; sp_blue_score := from_option gd_blue_score 0 gd; sp_timestamp := blk_timestamp b; sp_difficulty := blk_difficulty b;
       sp_transfers := wrap 32 (len (blk_transparent_txs b)); sp_fees := pretty (fee_sum b); sp_minted_supply := pretty (minted_supply (cs_ledger s));
       sp_mempool := wrap 32 (len (transparent_mempool (cs_pools s))); sp_dag_blocks := wrap 32 (Z.of_nat (size (cs_dag s))) |}]).
(** One turn of the loop over the main chain. *)
Definition sync_block (s : ChainState) (db : IndexerDb) (ih : Z * Hash) : IndexerDb :=
  let height := cs_pruned_selected_blocks s + ih.1 in
  let h := ih.2 in
  let insert db := from_option (λ b, index_block s height h b db) db (cs_dag s !! h) in
  match ix_blocks db !! height with
  | Some existing => if bool_decide (br_hash existing = hash_hex h) then db else insert (trim_from_height db height)
  | None => insert db
  end.
Definition label_tip (db : IndexerDb) (tip : Hash) : IndexerDb :=
  if bool_decide (hash_hex tip ∈ dom (ix_by_hash db)) then db else put_label db (hash_hex tip) "DAG tip (non-indexed body)".
Definition sync_from_state (db : IndexerDb) (s : ChainState) (now : Z) : IndexerDb :=
  let db := foldl (sync_block s) db (enumerate (cs_main_chain s)) in
  let db := foldl label_tip db (cs_tips s) in
  let db := set_series db (drop (Z.to_nat (len (ix_series db) - MAX_SERIES_POINTS)) (ix_series db)) in
  let db := trim_tx_cap db in
  set_tip db (tip_height s) (hash_hex <$> last (cs_main_chain s)) now.

(** ** The file *)

Definition index_tag (payload : bytes) : bytes := blake3_xof (str_bytes "hassan-indexer-v1" ++ payload) 64.
(** [IndexerDb::checksum]; [save_to] up to the bytes written; [load_from] from the bytes read. *)
Definition checksum (db : IndexerDb) : Hash := be_int (index_tag (default [] (ser_index db))).
Definition index_bytes (ser_err : string) (db : IndexerDb) : result bytes :=
  payload ← ok_or (ser_index db) ser_err;
  Ok (INDEXER_MAGIC ++ le_bytes 4 INDEXER_FORMAT ++ le_bytes 8 (len payload) ++ payload ++ index_tag payload).
Definition load_index (bytes : bytes) : result IndexerDb :=
  fail_if len bytes <? 8 + 4 + 8 + 64 as "indexer file too short";
  fail_if negb (bool_decide (take 8 bytes = INDEXER_MAGIC)) as "bad indexer magic";
  let format := le_int (take 4 (drop 8 bytes)) in
  fail_if negb (format =? INDEXER_FORMAT) as ("unsupported indexer format " +:+ pretty format);
  let plen := le_int (take 8 (drop 12 bytes)) in
  fail_if negb (wrap 64 (20 + plen + 64) =? len bytes) as "indexer length mismatch";
  let payload := take (Z.to_nat plen) (drop 20 bytes) in
  fail_if negb (bool_decide (drop (20 + Z.to_nat plen) bytes = index_tag payload)) as "indexer checksum mismatch";
  db ← de_index payload;
  Ok (seed_protocol_labels db).

(** ** The chain part of the index *)

Definition chain_of (db : IndexerDb) : gmap Z BlockRecord * gmap string Z := (ix_blocks db, ix_by_hash db).
Lemma index_txs_chain height h b db : chain_of (foldl (index_tx height h b) db (blk_transparent_txs b)) = chain_of db.
Proof. apply (foldl_inv (λ d, chain_of d = chain_of db)); [done|]. intros d tx _ Hd. exact Hd. Qed.
Lemma index_block_chain s height h b db :
  chain_of (index_block s height h b db) =
    (<[height := block_record height h b (cs_ghostdag s !! h)]> (ix_blocks db), <[hash_hex h := height]> (ix_by_hash db)).
Proof. unfold index_block. cbv zeta. match goal with |- context [foldl (index_tx _ _ _) ?d _] => exact (index_txs_chain height h b d) end. Qed.
Lemma finish_chain db s :
  chain_of (trim_tx_cap (set_series (foldl label_tip db (cs_tips s)) (drop (Z.to_nat (len (ix_series (foldl label_tip db (cs_tips s))) - MAX_SERIES_POINTS))
    (ix_series (foldl label_tip db (cs_tips s)))))) = chain_of db.
Proof.
  assert (chain_of (foldl label_tip db (cs_tips s)) = chain_of db) as Hl.
  { apply (foldl_inv (λ d, chain_of d = chain_of db)); [done|]. intros d tip _ Hd. unfold label_tip. by destruct (bool_decide _). }
  unfold trim_tx_cap. destruct (_ <=? _); exact Hl.
Qed.

Lemma foldl_delete_lookup {A} (f : A → string) (l : list A) (m : gmap string Z) x :
  foldl (λ m a, delete (f a) m) m l !! x = if bool_decide (x ∈ f <$> l) then None else m !! x.
Proof.
  revert m. induction l as [|a l IH]; intros m; cbn [foldl fmap list_fmap]; [by rewrite bool_decide_eq_false_2 by apply not_elem_of_nil|].
  rewrite IH. destruct (decide (x ∈ f <$> l)) as [Hin|Hn].
  - rewrite !bool_decide_eq_true_2; [done|by apply list_elem_of_further|done].
  - rewrite (bool_decide_eq_false_2 (x ∈ f <$> l)) by done. destruct (decide (f a = x)) as [<-|Hne].
    + rewrite bool_decide_eq_true_2 by apply list_elem_of_here. apply lookup_delete_eq.
    + rewrite bool_decide_eq_false_2; [by apply lookup_delete_ne|]. rewrite elem_of_cons. intros [->|?]; done.
Qed.

(** [by_hash] is the inverse of the block table. *)
Definition inverse (c : gmap Z BlockRecord * gmap string Z) : Prop :=
  ∀ x k, c.2 !! x = Some k ↔ ∃ rec, c.1 !! k = Some rec ∧ br_hash rec = x.
Lemma inverse_inj c k k' rec rec' :
  inverse c → c.1 !! k = Some rec → c.1 !! k' = Some rec' → br_hash rec = br_hash rec' → k = k'.
Proof.
  intros Hi H1' H2' He. assert (c.2 !! br_hash rec = Some k) as Ha by (apply Hi; by exists rec).
  assert (c.2 !! br_hash rec = Some k') as Hb by (apply Hi; by exists rec'). congruence.
Qed.
Lemma trim_chain db height k :
  ix_blocks (trim_from_height db height) !! k = if decide (height <= k) then None else ix_blocks db !! k.
Proof.
  unfold trim_from_height. cbv zeta. cbn [keep_txs set_txs set_series set_chain ix_blocks]. destruct (decide (height <= k)) as [Hk|Hk].
  - apply map_lookup_filter_None. right. intros rec _. cbn [fst]. by intros Hn.
  - destruct (ix_blocks db !! k) as [rec|] eqn:Hb; [by apply map_lookup_filter_Some|]. apply map_lookup_filter_None. by left.
Qed.
Lemma trim_inverse db height : inverse (chain_of db) → inverse (chain_of (trim_from_height db height)).
Proof.
  intros Hi x k. cbn [chain_of fst snd]. setoid_rewrite trim_chain.
  unfold trim_from_height. cbv zeta. cbn [keep_txs set_txs set_series set_chain ix_by_hash]. rewrite (foldl_delete_lookup (λ kb : Z * BlockRecord, br_hash kb.2)).
  specialize (Hi x) as Hx. cbn [chain_of fst snd] in Hx.
  assert (x ∈ (λ kb : Z * BlockRecord, br_hash kb.2) <$> map_to_list (filter (λ kb, height <= kb.1) (ix_blocks db)) ↔
    ∃ k' rec, height <= k' ∧ ix_blocks db !! k' = Some rec ∧ br_hash rec = x) as Hgone.
  { rewrite list_elem_of_fmap. split.
    - intros ([k' rec] & -> & Hin). apply elem_of_map_to_list, map_lookup_filter_Some in Hin as [Hb Hk]. by exists k', rec.
    - intros (k' & rec & Hk & Hb & <-). exists (k', rec). split; [done|]. apply elem_of_map_to_list, map_lookup_filter_Some. done. }
  destruct (bool_decide_reflect (x ∈ (λ kb : Z * BlockRecord, br_hash kb.2) <$> map_to_list (filter (λ kb, height <= kb.1) (ix_blocks db)))) as [Hin|Hn].
  - apply Hgone in Hin as (k' & rec' & Hk' & Hb' & Hh'). split; [done|]. intros (rec & Hr & Hh). destruct (decide (height <= k)); [done|].
    exfalso. assert (k = k') by (eapply (inverse_inj _ k k' rec rec' Hi); [exact Hr|exact Hb'|congruence]). lia.
  - rewrite Hx. split.
    + intros (rec & Hr & Hh). exists rec. split; [|done]. destruct (decide (height <= k)) as [Hk|]; [|done]. exfalso. apply Hn, Hgone. by exists k, rec.
    + intros (rec & Hr & Hh). destruct (decide (height <= k)); [done|]. by exists rec.
Qed.

Lemma insert_inverse c n r :
  inverse c → c.1 !! n = None → (∀ k rec, c.1 !! k = Some rec → br_hash rec ≠ br_hash r) →
  inverse (<[n := r]> c.1, <[br_hash r := n]> c.2).
Proof.
  intros Hi Hn Hr x k. cbn [fst snd]. destruct (decide (x = br_hash r)) as [->|Hx].
  - rewrite lookup_insert_eq. split; [intros [= <-]; exists r; by rewrite lookup_insert_eq|].
    intros (rec & [[<- <-]|[_ Hk]]%lookup_insert_Some & He); [done|]. by destruct (Hr k rec Hk).
  - rewrite lookup_insert_ne by done. rewrite (Hi x k). split; intros (rec & Hk & <-).
    + exists rec. rewrite lookup_insert_ne; [done|]. intros ->. congruence.
    + apply lookup_insert_Some in Hk as [[_ <-]|[_ Hk]]; [done|]. by exists rec.
Qed.

(** ** One synchronisation *)

(** What the index should hold for a state: the blocks of its main chain, by position. *)
Definition spec_at (s : ChainState) (k : Z) : option BlockRecord :=
  if decide (0 <= k) then h ← cs_main_chain s !! Z.to_nat k; b ← cs_dag s !! h; Some (block_record k h b (cs_ghostdag s !! h)) else None.
(** An index whose records describe blocks of the state's graph, without gaps. *)
Record index_ok (db : IndexerDb) (s : ChainState) : Prop := {
  io_rec k rec : ix_blocks db !! k = Some rec → 0 <= k ∧ ∃ h b, cs_dag s !! h = Some b ∧ rec = block_record k h b (cs_ghostdag s !! h);
  io_inv : inverse (chain_of db);
  io_dense k k' : 0 <= k <= k' → is_Some (ix_blocks db !! k') → is_Some (ix_blocks db !! k);
}.
Lemma index_ok_chain db db' s : chain_of db = chain_of db' → index_ok db s → index_ok db' s.
Proof. intros He [H1' H2' H3']. pose proof (f_equal fst He) as Hb. cbn [chain_of fst] in Hb. split; [by rewrite <- Hb|by rewrite <- He|by rewrite <- Hb]. Qed.

Section sync_one.
Context (s : ChainState) (Hbase : cs_pruned_selected_blocks s = 0).
Context (Hdag : ∀ h, h ∈ cs_main_chain s → h ∈ dom (cs_dag s)) (Hnd : NoDup (cs_main_chain s)).
Context (Hhex : ∀ a b, a ∈ dom (cs_dag s) → b ∈ dom (cs_dag s) → hash_hex a = hash_hex b → a = b).

Definition synced_to (db0 db : IndexerDb) (n : nat) : Prop :=
  index_ok db s ∧ (∀ j, 0 <= j < Z.of_nat n → ix_blocks db !! j = spec_at s j) ∧
  ((∀ k, Z.of_nat n <= k → ix_blocks db !! k = None) ∨ chain_of db = chain_of db0).

Lemma insert_synced db0 db n h b :
  cs_main_chain s !! n = Some h → cs_dag s !! h = Some b → index_ok db s →
  (∀ j, 0 <= j < Z.of_nat n → ix_blocks db !! j = spec_at s j) → (∀ k, Z.of_nat n <= k → ix_blocks db !! k = None) →
  synced_to db0 (index_block s (Z.of_nat n) h b db) (S n).
Proof.
  intros Hh Hb [Hrec Hinv Hdense] Hspec Hnone. pose proof (index_block_chain s (Z.of_nat n) h b db) as Hc.
  set (r := block_record (Z.of_nat n) h b (cs_ghostdag s !! h)) in *.
  assert (ix_blocks (index_block s (Z.of_nat n) h b db) = <[Z.of_nat n := r]> (ix_blocks db)) as Hbl by exact (f_equal fst Hc).
  split_and!.
  - split; rewrite ?Hbl, ?Hc.
    + intros k rec [[<- <-]|[_ Hk]]%lookup_insert_Some; [|by apply Hrec]. split; [lia|]. by exists h, b.
    + apply (insert_inverse (chain_of db) (Z.of_nat n) r); [done|by apply Hnone|]. intros k rec Hk. cbn [chain_of fst] in Hk.
      assert (0 <= k < Z.of_nat n) as Hlt.
      { destruct (Hrec k rec Hk) as [Hk0 _]. split; [done|]. destruct (Z.lt_ge_cases k (Z.of_nat n)); [done|]. by rewrite Hnone in Hk. }
      rewrite (Hspec k Hlt) in Hk. unfold spec_at in Hk. rewrite decide_True in Hk by lia.
      destruct (cs_main_chain s !! Z.to_nat k) as [h'|] eqn:Hh'; [|done]. cbn [mbind option_bind] in Hk.
      destruct (cs_dag s !! h') as [b'|] eqn:Hb'; [|done]. injection Hk as <-. cbn [block_record br_hash r]. intros He.
      apply Hhex in He; [|by eapply elem_of_dom_2|by eapply elem_of_dom_2]. subst h'. pose proof (NoDup_lookup _ _ _ _ Hnd Hh Hh'). lia.
    + intros k k' Hk [rec [[<- _]|[_ Hk']]%lookup_insert_Some].
      * destruct (decide (k = Z.of_nat n)) as [->|]; [rewrite lookup_insert_eq; by eexists|]. rewrite lookup_insert_ne by done.
        rewrite Hspec by lia. unfold spec_at. rewrite decide_True by lia.
        destruct (lookup_lt_is_Some_2 (cs_main_chain s) (Z.to_nat k)) as [h' Hh']; [apply lookup_lt_Some in Hh; lia|]. rewrite Hh'. cbn [mbind option_bind].
        apply list_elem_of_lookup_2 in Hh'. apply Hdag, elem_of_dom in Hh' as [b' ->]. by eexists.
      * destruct (decide (k = Z.of_nat n)) as [->|]; [rewrite lookup_insert_eq; by eexists|]. rewrite lookup_insert_ne by done. eapply Hdense; [exact Hk|by eexists].
  - intros j Hj. rewrite Hbl. destruct (decide (j = Z.of_nat n)) as [->|Hne].
    + rewrite lookup_insert_eq. unfold spec_at. rewrite decide_True by lia. rewrite Nat2Z.id, Hh. cbn [mbind option_bind]. by rewrite Hb.
    + rewrite lookup_insert_ne by done. apply Hspec. lia.
  - left. intros k Hk. rewrite Hbl, lookup_insert_ne by lia. apply Hnone. lia.
Qed.
Lemma trim_index_ok db height : index_ok db s → index_ok (trim_from_height db height) s.
Proof.
  intros [Hrec Hinv Hdense]. split.
  - intros k rec. rewrite trim_chain. destruct (decide (height <= k)); [done|]. apply Hrec.
  - by apply trim_inverse.
  - intros k k' Hk. rewrite !trim_chain. destruct (decide (height <= k')); [by intros [? ?]|]. rewrite decide_False by lia. by apply Hdense.
Qed.
Lemma sync_block_synced db0 db n h :
  cs_main_chain s !! n = Some h → synced_to db0 db n → synced_to db0 (sync_block s db (Z.of_nat n, h)) (S n).
Proof.
  intros Hh (Hok & Hspec & Hrest). unfold sync_block. rewrite Hbase. cbn [fst snd]. rewrite Z.add_0_l. cbv zeta.
  assert (h ∈ cs_main_chain s) as [b Hb]%Hdag%elem_of_dom by (by eapply list_elem_of_lookup_2). rewrite Hb. cbn [from_option].
  destruct (ix_blocks db !! Z.of_nat n) as [rec|] eqn:Hr.
  - case_bool_decide as He.
    + assert (ix_blocks db !! Z.of_nat n = spec_at s (Z.of_nat n)) as Hn.
      { destruct (io_rec _ _ Hok _ _ Hr) as (_ & h' & b' & Hb' & ->). cbn [block_record br_hash] in He.
        apply Hhex in He; [|by eapply elem_of_dom_2|by eapply elem_of_dom_2]. subst h'.
        unfold spec_at. rewrite decide_True by lia. rewrite Nat2Z.id, Hh. cbn [mbind option_bind]. rewrite Hb, Hr. by simplify_eq. }
      split_and!; [done| |destruct Hrest as [Hnone|]; [left; intros k Hk; apply Hnone; lia|by right]].
      intros j Hj. destruct (decide (j = Z.of_nat n)) as [->|]; [done|]. apply Hspec. lia.
    + apply insert_synced; [done|done|by apply trim_index_ok| |].
      * intros j Hj. rewrite trim_chain, decide_False by lia. by apply Hspec.
      * intros k Hk. by rewrite trim_chain, decide_True by lia.
  - apply insert_synced; [done..|]. intros k Hk. apply eq_None_not_Some. intros Hs. apply (io_dense _ _ Hok (Z.of_nat n) k) in Hs; [|lia].
    rewrite Hr in Hs. by destruct Hs.
Qed.

Lemma enumerate_snoc {A} (l : list A) x : enumerate (l ++ [x]) = enumerate l ++ [(len l, x)].
Proof.
  unfold enumerate, len. rewrite length_app. cbn [length]. replace (Z.of_nat (length l + 1)) with (Z.of_nat (length l) + 1) by lia. rewrite (seqZ_app 0 (Z.of_nat (length l)) 1) by lia.
  rewrite zip_with_app by (rewrite length_seqZ; lia). done.
Qed.
Lemma sync_loop db0 c1 c2 :
  index_ok db0 s → cs_main_chain s = c1 ++ c2 → synced_to db0 (foldl (sync_block s) db0 (enumerate c1)) (length c1).
Proof.
  intros Hok. revert c2. induction c1 as [|h c1 IH] using rev_ind; intros c2 Hc.
  { split_and!; [done|intros; simpl in *; lia|by right]. }
  rewrite enumerate_snoc, foldl_app, length_app, Nat.add_1_r. cbn [foldl]. apply sync_block_synced; [|by apply (IH ([h] ++ c2)); rewrite Hc, <- app_assoc].
  rewrite Hc, <- app_assoc. by apply list_lookup_middle.
Qed.
(** After a synchronisation the block table is that of the state, unless the state's chain is a
    proper prefix of what was indexed. *)
Lemma sync_exact db0 now :
  index_ok db0 s →
  (∀ k, is_Some (ix_blocks db0 !! k) → k < len (cs_main_chain s)) ∨
    (∃ j, 0 <= j < len (cs_main_chain s) ∧ ix_blocks db0 !! j ≠ spec_at s j) →
  index_ok (sync_from_state db0 s now) s ∧ ∀ k, ix_blocks (sync_from_state db0 s now) !! k = spec_at s k.
Proof.
  intros Hok Hpre. destruct (sync_loop db0 (cs_main_chain s) [] Hok) as (Hok' & Hspec & Hrest); [by rewrite app_nil_r|].
  set (db := foldl (sync_block s) db0 _) in *.
  assert (chain_of (sync_from_state db0 s now) = chain_of db) as Hc by exact (finish_chain db s).
  split; [by eapply index_ok_chain|]. intros k. assert (ix_blocks (sync_from_state db0 s now) = ix_blocks db) as -> by exact (f_equal fst Hc).
  destruct (decide (0 <= k < len (cs_main_chain s))) as [Hk|Hk]; [by apply Hspec|].
  assert (spec_at s k = None) as ->.
  { unfold spec_at. destruct (decide (0 <= k)); [|done]. rewrite lookup_ge_None_2; [done|]. unfold len in Hk. lia. }
  apply eq_None_not_Some. intros Hsome. pose proof Hsome as [rec Hr]. destruct (io_rec _ _ Hok' _ _ Hr) as [Hk0 _].
  destruct Hrest as [Hnone|Heq]; [rewrite Hnone in Hr; [done|unfold len in Hk; lia]|].
  assert (ix_blocks db = ix_blocks db0) as Hb by exact (f_equal fst Heq). destruct Hpre as [Hle|(j & Hj & Hne)].
  - rewrite Hb in Hsome. apply Hle in Hsome. lia.
  - apply Hne. rewrite <- Hb. by apply Hspec.
Qed.
End sync_one.

(** ** An index that follows a node *)

Lemma advance_pruned x : cs_pruned_selected_blocks (advance_finalized_base x) = cs_pruned_selected_blocks x.
Proof.
  unfold advance_finalized_base. destruct (finality_point x); [|done]. destruct (bool_decide _); [done|].
  destruct (list_find _ _) as [[i ?]|]; [|done]. by destruct (_ <? _)%nat.
Qed.
Lemma update_pruned x : cs_pruned_selected_blocks (update_ledger x) = cs_pruned_selected_blocks x.
Proof.
  unfold update_ledger, recompute_virtual_state. cbv zeta. cbn [restore_ledger cs_pruned_selected_blocks]. rewrite advance_pruned.
  unfold capture_base, order_main_chain. destruct (selected_tip _ _); by destruct (cs_base_captured _).
Qed.
Lemma connect_pruned s b d :
  cs_archival (update_ledger (insert_block s b d)) = true →
  cs_pruned_selected_blocks (connect_block s b d) = cs_pruned_selected_blocks s.
Proof.
  intros Har. unfold connect_block. cbv zeta. destruct (bookkeeping_eq (update_ledger (insert_block s b d)) b) as (p & dd & ->).
  assert (cs_archival (set_difficulty (set_pools (update_ledger (insert_block s b d)) p) dd) = true) as Har3 by exact Har.
  unfold prune_bodies. rewrite Har3. unfold prune_history. rewrite Har3. cbn [set_difficulty set_pools cs_pruned_selected_blocks]. exact (update_pruned (insert_block s b d)).
Qed.
Lemma reachable_unpruned L0 s : reachable L0 s → cs_pruned_selected_blocks s = 0.
Proof.
  induction 1 as [|s now b s' Hr IH Hsz Ha]; [done|]. destruct (reachable_ok _ _ Hr) as (Hok & Har & _).
  destruct (add_block_ok L0 s now b s' Hok Har Hsz Ha) as (d & Hc & _).
  assert (s' = connect_block s b d) as -> by (unfold add_block in Ha; rewrite Hc in Ha; cbn [mbind result_bind] in Ha; congruence).
  destruct (update_ok L0 s now b d Hok Hc Hsz) as (_ & _ & _ & _ & Hua & _).
  rewrite connect_pruned; [exact IH|]. by rewrite Hua.
Qed.

(** Blocks added one after the other. *)
Inductive grows (s : ChainState) : ChainState → Prop :=
| grows_refl : grows s s
| grows_block s1 now b s' : grows s s1 → Z.of_nat (size (cs_dag s1)) * SCALE < SPACE_END → add_block s1 now b = Ok s' → grows s s'.
Lemma grows_ok L0 s s' : reachable L0 s → grows s s' → reachable L0 s' ∧ cs_dag s ⊆ cs_dag s' ∧ cs_ghostdag s ⊆ cs_ghostdag s'.
Proof.
  intros Hr. induction 1 as [|s1 now b s' _ (Hr1 & Hd & Hg) Hsz Ha]; [done|]. split; [by eapply reachable_block|].
  destruct (reachable_ok _ _ Hr1) as (Hok & Har & _). destruct (add_block_ok L0 s1 now b s' Hok Har Hsz Ha) as (d & Hc & _ & _ & -> & -> & _).
  destruct (check_block_ok _ _ _ _ Hc) as (Hn & _). cbn [insert_block set_graph cs_dag cs_ghostdag].
  destruct (rbuilt_ok _ _ _ (ok_graph _ _ Hok)) as (Hi & _). split; (etrans; [eassumption|]); apply insert_subseteq; apply not_elem_of_dom; [done|].
  by rewrite (inv_dom _ _ Hi).
Qed.
(** Neighbours on a selected chain are child and parent. *)
Lemma chain_next dag gd h i a x :
  dag_inv dag gd → h ∈ dom gd → selected_chain gd h !! i = Some a → selected_chain gd h !! S i = Some x → edge dag x a.
Proof.
  intros Hi Hh. revert i a x. revert h Hh. refine (gd_ind gd _ (inv_wf _ _ Hi) _). intros h d Hd IH i a x.
  rewrite (selected_chain_eq gd h d (inv_wf _ _ Hi) Hd). destruct (gd_selected_parent d) as [sp|] eqn:Hsp; cbn [from_option].
  2: { intros Ha Hx. apply lookup_lt_Some in Hx. simpl in Hx. lia. }
  intros Ha Hx. assert (sp ∈ dom gd) as Hspd by (by apply (gd_parent_dom gd h d sp (inv_wf _ _ Hi))).
  destruct (decide (S i < length (selected_chain gd sp))%nat) as [Hlt|Hge].
  - rewrite lookup_app_l in Ha, Hx by lia. by apply (IH sp eq_refl i).
  - apply lookup_lt_Some in Hx as Hlen. rewrite length_app in Hlen. cbn [length] in Hlen.
    assert (S i = length (selected_chain gd sp)) as Hi' by lia. rewrite lookup_app_r, Hi', Nat.sub_diag in Hx by lia. injection Hx as <-.
    rewrite lookup_app_l in Ha by lia. destruct (proj1 (elem_of_dom gd sp) Hspd) as [dsp Hdsp].
    rewrite (selected_chain_eq gd sp dsp (inv_wf _ _ Hi) Hdsp), length_app in Hi'. cbn [length] in Hi'.
    rewrite (selected_chain_eq gd sp dsp (inv_wf _ _ Hi) Hdsp), lookup_app_r in Ha by lia.
    replace (i - _)%nat with 0%nat in Ha by lia. injection Ha as <-. by apply (entry_selected _ _ _ _ (inv_entry _ _ Hi h d Hd) sp Hsp).
Qed.

(** The graph of a node and the shape of its main chain. *)
Lemma reachable_chain L0 s :
  reachable L0 s →
  (∀ h, h ∈ cs_main_chain s → h ∈ dom (cs_dag s)) ∧ NoDup (cs_main_chain s) ∧
  ∃ tip, last (cs_main_chain s) = Some tip ∧ childless (cs_dag s) tip.
Proof.
  intros Hr. destruct (reachable_ok _ _ Hr) as (Hok & _). destruct (rbuilt_ok _ _ _ (ok_graph _ _ Hok)) as (Hi & _).
  destruct (ok_main _ _ Hok) as (tip & Ht & ->). destruct (select_parent_Some _ _ _ Ht) as (Hti & Htd & _). split_and!.
  - intros h Hh. rewrite <- (inv_dom _ _ Hi). by eapply (chain_dom _ _ Hi tip).
  - by apply (chain_NoDup _ _ Hi).
  - exists tip. split; [|by apply (ok_tips _ _ Hok)]. apply elem_of_dom in Htd as [d Hd].
    rewrite (selected_chain_eq _ tip d (inv_wf _ _ Hi) Hd). apply last_snoc.
Qed.
Lemma hash_hex_inj `{!CryptoLaws} L0 s a b :
  reachable L0 s → a ∈ dom (cs_dag s) → b ∈ dom (cs_dag s) → hash_hex a = hash_hex b → a = b.
Proof.
  intros Hr Ha Hb He. destruct (reachable_ok _ _ Hr) as (Hok & _).
  assert (∀ h, h ∈ dom (cs_dag s) → 0 <= h < 256 ^ Z.of_nat 64) as Hrange.
  { intros h [blk Hblk]%elem_of_dom. rewrite <- (ok_keyed _ _ Hok h blk Hblk). unfold block_hash.
    pose proof (blake3_512_range (absorb_identity blk)) as Hx. assert (HASH_MAX < 256 ^ Z.of_nat 64) by (vm_compute; reflexivity). lia. }
  unfold hash_hex in He. apply (f_equal hex_decode) in He. unfold hash_bytes in He.
  rewrite !hex_decode_encode in He by apply be_bytes_is_bytes. apply (inj Some), (f_equal be_int) in He.
  by rewrite !be_int_bytes in He by (by apply Hrange).
Qed.

(** An index that was created with a node and synchronised from time to time. *)
Inductive follows (L0 : Ledger) : IndexerDb → ChainState → Prop :=
| follow_new s now : reachable L0 s → follows L0 (sync_from_state IndexerDb_new s now) s
| follow_sync db s s' now : follows L0 db s → grows s s' → follows L0 (sync_from_state db s' now) s'.

Lemma spec_at_len s k : is_Some (spec_at s k) → 0 <= k < len (cs_main_chain s).
Proof.
  unfold spec_at. destruct (decide (0 <= k)); [|by intros [? ?]]. destruct (cs_main_chain s !! Z.to_nat k) eqn:Hl; [|by intros [? ?]].
  intros _. apply lookup_lt_Some in Hl. unfold len. lia.
Qed.
(** The new chain is not a proper prefix of the old one: its tip has no child. *)
Lemma not_prefix `{!CryptoLaws} L0 s s' :
  reachable L0 s → grows s s' →
  (∀ k, is_Some (spec_at s k) → k < len (cs_main_chain s')) ∨ (∃ j, 0 <= j < len (cs_main_chain s') ∧ spec_at s j ≠ spec_at s' j).
Proof.
  intros Hr Hg. destruct (grows_ok _ _ _ Hr Hg) as (Hr' & Hd & _). destruct (reachable_chain _ _ Hr) as (Hdom & _).
  destruct (reachable_chain _ _ Hr') as (Hdom' & _ & tip & Htip & Hleaf).
  destruct (decide (len (cs_main_chain s) <= len (cs_main_chain s'))) as [Hle|Hgt]; [left; intros k Hk%spec_at_len; lia|]. right.
  rewrite last_lookup in Htip. apply lookup_lt_Some in Htip as Hlen. exists (len (cs_main_chain s') - 1). unfold len in *. split; [lia|]. intros He.
  unfold spec_at in He. rewrite !decide_True in He by lia. replace (Z.to_nat (Z.of_nat (length (cs_main_chain s')) - 1)) with (pred (length (cs_main_chain s'))) in He by lia.
  rewrite Htip in He. destruct (lookup_lt_is_Some_2 (cs_main_chain s) (pred (length (cs_main_chain s')))) as [a Ha]; [lia|].
  destruct (lookup_lt_is_Some_2 (cs_main_chain s) (S (pred (length (cs_main_chain s'))))) as [x Hx]; [lia|].
  rewrite Ha in He. cbn [mbind option_bind] in He. pose proof (list_elem_of_lookup_2 _ _ _ Ha) as [b Hb]%Hdom%elem_of_dom.
  pose proof (list_elem_of_lookup_2 _ _ _ Htip) as [b' Hb']%Hdom'%elem_of_dom. rewrite Hb, Hb' in He. injection He as He _.
  assert (a = tip) as ->. { eapply (hash_hex_inj L0 s'); [done| | |exact He]; [by eapply elem_of_dom_2, lookup_weaken|by eapply elem_of_dom_2]. }
  destruct (reachable_ok _ _ Hr) as (Hok & _). destruct (rbuilt_ok _ _ _ (ok_graph _ _ Hok)) as (Hi & _).
  destruct (ok_main _ _ Hok) as (t0 & Ht0 & Hm). destruct (select_parent_Some _ _ _ Ht0) as (_ & Htd & _). rewrite Hm in Ha, Hx.
  pose proof (chain_next _ _ t0 _ _ _ Hi Htd Ha Hx) as He'. apply (proj2 Hleaf x). revert He'. unfold edge, parents_of.
  destruct (cs_dag s !! x) as [bx|] eqn:Hbx; [|by intros ?%elem_of_nil]. by rewrite (lookup_weaken _ _ _ _ Hbx Hd).
Qed.
Lemma follows_ok `{!CryptoLaws} L0 db s :
  follows L0 db s → reachable L0 s ∧ index_ok db s ∧ ∀ k, ix_blocks db !! k = spec_at s k.
Proof.
  induction 1 as [s now Hr|db s s' now _ (Hr & Hok & Hspec) Hg].
  - destruct (reachable_chain _ _ Hr) as (Hdom & Hnd & _). split; [done|].
    apply (sync_exact s (reachable_unpruned _ _ Hr) Hdom Hnd (λ a b, hash_hex_inj L0 s a b Hr)); [|left; by intros k [? ?]].
    split; [done| |by intros k k' _ [? ?]]. intros x k. split; [done|]. by intros (rec & ? & _).
  - destruct (grows_ok _ _ _ Hr Hg) as (Hr' & Hd & Hgd). destruct (reachable_chain _ _ Hr') as (Hdom & Hnd & _). split; [done|].
    apply (sync_exact s' (reachable_unpruned _ _ Hr') Hdom Hnd (λ a b, hash_hex_inj L0 s' a b Hr')).
    + destruct Hok as [Hrec Hinv Hdense]. split; [|done|done]. intros k rec Hk. destruct (Hrec k rec Hk) as (Hk0 & h & b & Hb & ->).
      split; [done|]. exists h, b. split; [by eapply lookup_weaken|]. destruct (reachable_ok _ _ Hr) as (Hok0 & _).
      destruct (rbuilt_ok _ _ _ (ok_graph _ _ Hok0)) as (Hi & _). assert (h ∈ dom (cs_ghostdag s)) as [d Hd']%elem_of_dom by (rewrite (inv_dom _ _ Hi); by eapply elem_of_dom_2).
      rewrite Hd'. by rewrite (lookup_weaken _ _ _ _ Hd' Hgd).
    + destruct (not_prefix L0 s s' Hr Hg) as [Hle|(j & Hj & Hne)]; [left; intros k; rewrite Hspec; apply Hle|right; exists j; by rewrite Hspec].
Qed.

Lemma index_exact `{!CryptoLaws} L0 db s :
  follows L0 db s →
  (∀ k, ix_blocks db !! k = spec_at s k) ∧
  (∀ x k, ix_by_hash db !! x = Some k ↔ 0 <= k ∧ ∃ h, cs_main_chain s !! Z.to_nat k = Some h ∧ hash_hex h = x).
Proof.
  intros (Hr & Hok & Hspec)%follows_ok. split; [done|]. intros x k. destruct (reachable_chain _ _ Hr) as (Hdom & _).
  pose proof (io_inv _ _ Hok x k) as Hi. cbn [chain_of fst snd] in Hi. rewrite Hi. setoid_rewrite Hspec. unfold spec_at. split.
  - intros (rec & Hrec & <-). destruct (decide (0 <= k)); [|done]. split; [done|]. destruct (cs_main_chain s !! Z.to_nat k) as [h|]; [|done].
    cbn [mbind option_bind] in Hrec. destruct (cs_dag s !! h); [|done]. injection Hrec as <-. by exists h.
  - intros (Hk & h & Hh & <-). rewrite decide_True, Hh by done. cbn [mbind option_bind].
    pose proof (list_elem_of_lookup_2 _ _ _ Hh) as [b ->]%Hdom%elem_of_dom. by eexists.
Qed.

(** C35. The explorer's index refines the chain: an index created on an archival node and synchronised at any
    times, over any blocks and reorganisations in between, holds exactly the records of the current main chain by
    height, and its hash table is exactly the inverse; nothing of an abandoned branch is left. *)
Theorem index_tracks_chain `{!CryptoLaws} L0 db s :
  follows L0 db s →
  (∀ k, ix_blocks db !! k = spec_at s k) ∧
  (∀ x k, ix_by_hash db !! x = Some k ↔ 0 <= k ∧ ∃ h, cs_main_chain s !! Z.to_nat k = Some h ∧ hash_hex h = x).
Proof. apply index_exact. Qed.

(** ** Transfers *)

(** Consensus admits no block with account transfers. *)
Lemma no_transfers L0 s h b : reachable L0 s → cs_dag s !! h = Some b → blk_transparent_txs b = [].
Proof.
  intros Hr. revert h b. induction Hr as [|s now b0 s' Hr IH Hsz Ha]; intros h b.
  { intros Hb. change (cs_dag (seeded L0)) with ({[genesis_hash := genesis_block]} : Dag) in Hb. by apply lookup_singleton_Some in Hb as [_ <-]. }
  destruct (reachable_ok _ _ Hr) as (Hok & Har & _). destruct (add_block_ok L0 s now b0 s' Hok Har Hsz Ha) as (d & Hc & _ & _ & -> & _).
  cbn [insert_block set_graph cs_dag]. intros [[_ <-]|[_ Hb]]%lookup_insert_Some; [|by eapply IH].
  destruct (check_block_ok _ _ _ _ Hc) as (_ & _ & _ & _ & _ & _ & _ & _ & _ & Hv & _). unfold validate_block_transactions, validate_account_forms in Hv.
  destruct (blk_transparent_txs b0) as [|tx txs]; [done|]. done.
Qed.
Definition no_txs (db : IndexerDb) : Prop := ix_txs db = ∅ ∧ ix_address_txs db = ∅.
Lemma sync_no_txs L0 s db now : reachable L0 s → no_txs db → no_txs (sync_from_state db s now).
Proof.
  intros Hr Hdb. unfold sync_from_state. cbv zeta.
  assert (no_txs (foldl (sync_block s) db (enumerate (cs_main_chain s)))) as Hl.
  { apply (foldl_inv no_txs); [done|]. intros d [i h] _ Hd. unfold sync_block. cbn [fst snd]. cbv zeta.
    assert (∀ d', no_txs d' → no_txs (from_option (λ b, index_block s (cs_pruned_selected_blocks s + i) h b d') d' (cs_dag s !! h))) as Hins.
    { intros d' Hd'. destruct (cs_dag s !! h) as [b|] eqn:Hb; [|done]. cbn [from_option]. unfold index_block. cbv zeta.
      rewrite (no_transfers L0 s h b Hr Hb). exact Hd'. }
    destruct (ix_blocks d !! _); [|by apply Hins]. destruct (bool_decide _); [done|]. apply Hins.
    destruct Hd as [Ht Hat]. unfold trim_from_height. cbv zeta. split; cbn [keep_txs set_txs set_series set_chain ix_txs ix_address_txs].
    - rewrite Ht. apply map_filter_empty.
    - rewrite Hat. apply fmap_empty. }
  generalize dependent (foldl (sync_block s) db (enumerate (cs_main_chain s))). intros d1 Hd1.
  assert (no_txs (foldl label_tip d1 (cs_tips s))) as Hd2.
  { apply (foldl_inv no_txs); [done|]. intros d tip _ Hd. unfold label_tip. by destruct (bool_decide _). }
  generalize dependent (foldl label_tip d1 (cs_tips s)). intros d2 Hd2. destruct Hd2 as [Ht Hat]. unfold trim_tx_cap. cbn [set_series ix_txs].
  rewrite Ht, map_size_empty. change (Z.of_nat 0 <=? MAX_TX_RECORDS) with true. split; [exact Ht|exact Hat].
Qed.
(** The index of transfers and of address activity stays empty on every node: it reads the account transfers of a
    block only, which consensus has disabled, and no UTXO transaction ever enters it. *)
Theorem transfer_index_empty L0 db s : follows L0 db s → ix_txs db = ∅ ∧ ix_address_txs db = ∅.
Proof.
  intros Hf. assert (reachable L0 s ∧ no_txs db) as [_ Hn]; [|exact Hn].
  induction Hf as [s now Hr|db s s' now _ [Hr Hn] Hg]; [split; [done|by eapply sync_no_txs]|].
  destruct (grows_ok _ _ _ Hr Hg) as (Hr' & _). split; [done|by eapply sync_no_txs].
Qed.

(** ** The file reads back *)

(** A written index is read back, with the protocol labels present. *)
Theorem index_roundtrip err db data :
  (∀ db payload, ser_index db = Some payload → de_index payload = Ok db) → (∀ i n, length (blake3_xof i n) = n) →
  index_bytes err db = Ok data → len data <= U64_MAX → load_index data = Ok (seed_protocol_labels db).
Proof.
  intros Hser Hxof Hd Hlen. unfold index_bytes in Hd. destruct (ser_index db) as [payload|] eqn:Hs; [|done]. cbn [ok_or mbind result_bind] in Hd.
  apply (f_equal (λ r, match r with Ok x => x | Err _ => data end)) in Hd. cbv beta iota in Hd.
  assert (length (index_tag payload) = 64%nat) as Htag by apply Hxof.
  assert (length INDEXER_MAGIC = 8%nat) as Hmag by reflexivity.
  assert (data = INDEXER_MAGIC ++ (le_bytes 4 INDEXER_FORMAT ++ (le_bytes 8 (len payload) ++ (payload ++ index_tag payload)))) as -> by (symmetry; exact Hd). clear Hd.
  assert (∀ (a b : bytes) n, length a = n → take n (a ++ b) = a) as Htk by (intros a b n <-; apply take_app_length).
  assert (∀ (a b : bytes) n, length a = n → drop n (a ++ b) = b) as Hdr by (intros a b n <-; apply drop_app_length).
  pose proof (length_le_bytes 4 INDEXER_FORMAT) as H4. pose proof (length_le_bytes 8 (len payload)) as H8.
  assert (len (INDEXER_MAGIC ++ (le_bytes 4 INDEXER_FORMAT ++ (le_bytes 8 (len payload) ++ (payload ++ index_tag payload)))) = 84 + len payload) as Hl.
  { unfold len at 1. rewrite !length_app, Hmag, H4, H8, Htag. unfold len. lia. }
  rewrite Hl in Hlen.
  assert (le_int (le_bytes 8 (len payload)) = len payload) as Hle.
  { apply le_int_bytes. unfold len in *. split; [lia|]. change (256 ^ Z.of_nat 8) with (U64_MAX + 1). lia. }
  unfold load_index. rewrite Hl. rewrite (proj2 (Z.ltb_ge _ _)) by (unfold len; lia). rewrite (Htk _ _ 8%nat Hmag), bool_decide_eq_true_2 by done. cbn [negb].
  rewrite (Hdr _ _ 8%nat Hmag), (Htk _ _ 4%nat H4). change (le_int (le_bytes 4 INDEXER_FORMAT)) with INDEXER_FORMAT. rewrite Z.eqb_refl. cbn [negb]. cbv zeta.
  assert (∀ l : bytes, drop 12 l = drop 4 (drop 8 l)) as H12 by (intros l; by rewrite drop_drop).
  rewrite H12, (Hdr _ _ 8%nat Hmag), (Hdr _ _ 4%nat H4), (Htk _ _ 8%nat H8), Hle.
  rewrite wrap_small by (unfold in_width, len in *; change (umax 64) with U64_MAX; lia). replace (20 + len payload + 64) with (84 + len payload) by lia. rewrite Z.eqb_refl. cbn [negb].
  assert (∀ n, drop (20 + n) (INDEXER_MAGIC ++ (le_bytes 4 INDEXER_FORMAT ++ (le_bytes 8 (len payload) ++ (payload ++ index_tag payload)))) = drop n (payload ++ index_tag payload)) as Hd20.
  { intros n. change (20 + n)%nat with (8 + (4 + (8 + n)))%nat. by rewrite <- !drop_drop, (Hdr _ _ 8%nat Hmag), (Hdr _ _ 4%nat H4), (Hdr _ _ 8%nat H8). }
  rewrite (Hd20 (Z.to_nat (len payload))). pose proof (Hd20 0%nat) as Hz. cbn [Nat.add] in Hz. rewrite Hz, drop_0.
  unfold len. rewrite Nat2Z.id, take_app_length, drop_app_length, bool_decide_eq_true_2 by done. cbn [negb]. by rewrite (Hser _ _ Hs).
Qed.
End indexer.

(** ** Example: an index synchronised at genesis and after the first block *)

Module IndexExample.
#[export] Existing Instances ChainExample.ex_crypto ChainExample.ex_dual ChainExample.ex_body ChainExample.ex_env.
#[export] Instance ex_laws : CryptoLaws.
Proof.
  split.
  - intros i n. apply be_bytes_is_bytes.
  - intros i n. apply length_be_bytes.
  - intros sk m r s [= <-]. reflexivity.
  - exact (@hex_decode_encode Toy.toy_crypto Toy.toy_laws).
  - exact (@hex_encode_length Toy.toy_crypto Toy.toy_laws).
Qed.
#[export] Instance ex_index_env : IndexEnv :=
  {| tx_order m := (map_to_list m).*1; ser_index _ := None; de_index _ := Err "" |}.
Definition db0 : IndexerDb := sync_from_state IndexerDb_new ChainExample.start 5.
Definition db1 : IndexerDb := sync_from_state db0 ChainExample.later 6.
Lemma later_grows : grows ChainExample.start ChainExample.later.
Proof.
  exact (grows_block ChainExample.start ChainExample.start ChainExample.now ChainExample.first_block ChainExample.later (grows_refl _)
    ChainExample.start_small (proj1 ChainExample.later_facts)).
Qed.
Lemma db1_follows : follows Ledger_default db1 ChainExample.later.
Proof.
  unfold db1, db0. exact (follow_sync Ledger_default _ ChainExample.start ChainExample.later 6 (follow_new Ledger_default ChainExample.start 5 ChainExample.start_reachable) later_grows).
Qed.
End IndexExample.

Section witnesses.
Import IndexExample.

Lemma index_tracks_chain_witness : ix_blocks db1 !! 1 = spec_at ChainExample.later 1.
Proof. exact (proj1 (index_tracks_chain Ledger_default db1 ChainExample.later db1_follows) 1). Defined.
Lemma transfer_index_empty_witness : ix_txs db1 = ∅ ∧ ix_address_txs db1 = ∅.
Proof. exact (transfer_index_empty Ledger_default db1 ChainExample.later db1_follows). Defined.
End witnesses.
