(* ===== verification/Stream.v ===== *)
(** * Byte streams

    A TCP connection as one side sees it ([std::io::Read] and [Write] on a
    [TcpStream]): the bytes that will still arrive before the peer closes, the bytes
    written so far, and how many more the connection takes before a write fails.  The
    code on top of it threads the connection through calls that may fail; a failure
    leaves the connection as it is at that point. *)

From S2P Require Import Prelude.

Record Stream := { st_in : bytes; st_out : bytes; st_room : nat }.

(** Calls that thread a state and may fail; a failure keeps what was done to the state. *)
Definition SE (S A : Type) : Type := S → result A * S.
#[global] Instance se_ret {S} : MRet (SE S) := λ A a s, (Ok a, s).
#[global] Instance se_bind {S} : MBind (SE S) := λ A B f m s,
  match m s with
  | (Ok a, s) => f a s
  | (Err e, s) => (Err e, s)
  end.
Abbreviation IO := (SE Stream).

(** [?] on a value that does not touch the state. *)
Definition lift {S A} (r : result A) : SE S A := λ s, (r, s).
Definition io_fail {S A} (e : string) : SE S A := lift (Err e).
(** [map_err]. *)
Definition io_map_err {S A} (f : string → string) (m : SE S A) : SE S A := λ s, let '(r, s) := m s in (map_err f r, s).

(** [write_all], [read_exact]. *)
Definition write_all (data : bytes) : IO () := λ s,
  if Nat.leb (length data) (st_room s)
  then (Ok (), {| st_in := st_in s; st_out := st_out s ++ data; st_room := st_room s - length data |})
  else (Err "failed to write whole buffer",
        {| st_in := st_in s; st_out := st_out s ++ take (st_room s) data; st_room := 0 |}).
Definition read_exact (n : nat) : IO bytes := λ s,
  if Nat.leb n (length (st_in s))
  then (Ok (take n (st_in s)), {| st_in := drop n (st_in s); st_out := st_out s; st_room := st_room s |})
  else (Err "failed to fill whole buffer", {| st_in := []; st_out := st_out s; st_room := st_room s |}).

(** ** Reasoning *)

Lemma io_bind_ok {S A B} (m : SE S A) (f : A → SE S B) s a s' : m s = (Ok a, s') → (m ≫= f) s = f a s'.
Proof. unfold mbind, se_bind. by intros ->. Qed.
Lemma io_bind_inv {S A B} (m : SE S A) (f : A → SE S B) s b s' :
  (m ≫= f) s = (Ok b, s') → ∃ a s1, m s = (Ok a, s1) ∧ f a s1 = (Ok b, s').
Proof. unfold mbind, se_bind. destruct (m s) as [[a|e] s1]; [|done]. intros H. by exists a, s1. Qed.
Lemma io_map_err_ok {S A} f (m : SE S A) s a s' : io_map_err f m s = (Ok a, s') ↔ m s = (Ok a, s').
Proof. unfold io_map_err. destruct (m s) as [[x|e] s1]; simpl; by split; intros [= <- <-]. Qed.

Lemma write_all_ok data i o n :
  write_all data {| st_in := i; st_out := o; st_room := length data + n |} = (Ok (), {| st_in := i; st_out := o ++ data; st_room := n |}).
Proof.
  unfold write_all. cbn [st_room st_in st_out]. rewrite (proj2 (Nat.leb_le _ _)) by lia. by replace (length data + n - length data)%nat with n by lia.
Qed.
Lemma write_all_inv data s s' :
  write_all data s = (Ok (), s') →
  st_in s' = st_in s ∧ st_out s' = st_out s ++ data ∧ st_room s = (length data + st_room s')%nat.
Proof.
  unfold write_all. destruct (Nat.leb_spec (length data) (st_room s)); [|done]. intros [= <-]. cbn [st_in st_out st_room]. repeat split. lia.
Qed.
Lemma read_exact_ok n x y o r :
  length x = n → read_exact n {| st_in := x ++ y; st_out := o; st_room := r |} = (Ok x, {| st_in := y; st_out := o; st_room := r |}).
Proof.
  intros <-. unfold read_exact. cbn [st_in st_out st_room]. rewrite (proj2 (Nat.leb_le _ _)) by (rewrite length_app; lia).
  by rewrite take_app_length, drop_app_length.
Qed.
Lemma read_exact_inv n s x s' :
  read_exact n s = (Ok x, s') → length x = n ∧ st_in s = x ++ st_in s' ∧ st_out s' = st_out s ∧ st_room s' = st_room s.
Proof.
  unfold read_exact. destruct (Nat.leb_spec n (length (st_in s))); [|done]. intros [= <- <-]. cbn [st_in st_out st_room].
  rewrite take_drop, length_take. repeat split; lia.
Qed.

(** One step of a successful run: [m ≫= f] returned [Ok]. *)
Ltac io_step H a s Hm := apply io_bind_inv in H; destruct H as (a & s & Hm & H).
