(* ===== verification/Tor.v ===== *)
(** * Dialling through Tor

    [src/src/tor.rs]: the SOCKS5 client (RFC 1928) that carries outbound dials, the
    [host:port] parser, the layer's configuration and its local onion identifier.
    Name resolution and TCP connects are the operating system's: the class [Sockets];
    every use of them is recorded, since what a dial reveals is what it resolves and
    connects to.  Timeouts are not values of the model: a read that times out is one
    that fails. *)

From S2P Require Import Prelude Crypto Address Net NodeRole Stream.

Definition SockAddr : Type := IpAddr * Z.
Class Sockets := {
  (** [to_socket_addrs], [TcpStream::connect_timeout]. *)
  resolve : bytes → result (list SockAddr);
  connect : SockAddr → result Stream;
}.
Inductive NetAction := Resolve (name : bytes) | Connect (addr : SockAddr).

Definition DEFAULT_TOR_PROXY : bytes := str_bytes "127.0.0.1:9050".
Record TorLayer := {
  onion_address : bytes;
  tor_peers : gset bytes;
  is_enabled : bool;
  proxy_host : bytes;
  proxy_port : Z;
}.

(** Text in double quotes; two lower-case hexadecimal digits. *)
Definition quoted (l : bytes) : string := bytes_str ([34] ++ l ++ [34]).
Definition hex2 (b : Z) : string :=
  let digit d := if d <? 10 then 48 + d else 87 + d in bytes_str [digit (b / 16); digit (b mod 16)].

(** ** Addresses *)

Definition split_host_port (target : bytes) : result (bytes * Z) :=
  '(host, port_str) ← ok_or (rsplit_once COLON target) ("expected " +:+ quoted (str_bytes "host:port") +:+ ", got " +:+ quoted target);
  port ← ok_or (parse_uint 65535 port_str) ("invalid port in " +:+ quoted target);
  fail_if bool_decide (host = []) as ("empty host in " +:+ quoted target);
  Ok (host, port).

(** [base32_encode]: five bytes make eight characters, a short last chunk fewer. *)
Definition ALPHABET : bytes := str_bytes "ABCDEFGHIJKLMNOPQRSTUVWXYZ234567".
Definition out_chars (n : nat) : nat := match n with 5 => 8 | 4 => 7 | 3 => 5 | 2 => 4 | 1 => 2 | _ => 0 end%nat.
Definition encode_chunk (chunk : bytes) : bytes :=
  let buf := chunk ++ replicate (5 - length chunk) 0 in
  let n := foldl (λ acc b, Z.lor (Z.shiftl acc 8) b) 0 buf in
  (λ i : nat, default 0 (ALPHABET !! Z.to_nat (Z.land (Z.shiftr n (40 - 5 * (Z.of_nat i + 1))) 0x1f))) <$> seq 0 (out_chars (length chunk)).
Fixpoint base32_loop (fuel : nat) (data : bytes) : bytes :=
  match fuel, data with
  | S fuel, _ :: _ => encode_chunk (take 5 data) ++ base32_loop fuel (drop 5 data)
  | _, _ => []
  end.
Definition base32_encode (data : bytes) : bytes := base32_loop (length data) data.
(** [generate_onion_address] from its 35 random bytes, [verify_onion_address]. *)
Definition generate_onion_address (random_bytes : bytes) : bytes := to_ascii_lowercase (base32_encode random_bytes) ++ onion.
Definition verify_onion_address (addr : bytes) : bool := ends_with onion addr && (len addr =? 56 + 6).

(** ** The layer *)

Definition TorLayer_new (random_bytes : bytes) : TorLayer :=
  {| onion_address := generate_onion_address random_bytes; tor_peers := ∅; is_enabled := true;
     proxy_host := str_bytes "127.0.0.1"; proxy_port := 9050 |}.
Definition proxy_addr (t : TorLayer) : bytes := proxy_host t ++ [COLON] ++ str_bytes (pretty (proxy_port t)).
Definition set_proxy (t : TorLayer) (proxy : bytes) : result TorLayer :=
  '(host, port) ← split_host_port proxy;
  Ok {| onion_address := onion_address t; tor_peers := tor_peers t; is_enabled := is_enabled t; proxy_host := host; proxy_port := port |}.
Definition set_enabled (t : TorLayer) (b : bool) : TorLayer :=
  {| onion_address := onion_address t; tor_peers := tor_peers t; is_enabled := b; proxy_host := proxy_host t; proxy_port := proxy_port t |}.
(** [TorLayer::from_env]: an invalid proxy is reported and ignored. *)
Definition TorLayer_from_env (random_bytes : bytes) (env : Env) : TorLayer :=
  let layer := set_enabled (TorLayer_new random_bytes) (tor_enabled env) in
  match env "HASSAN_TOR_PROXY" with
  | Some proxy => match set_proxy layer proxy with Ok l => l | Err _ => layer end
  | None => layer
  end.
Definition tor_add_peer (t : TorLayer) (peer : bytes) : result TorLayer :=
  fail_if negb (verify_onion_address peer) as "Invalid onion address";
  Ok {| onion_address := onion_address t; tor_peers := {[peer]} ∪ tor_peers t; is_enabled := is_enabled t;
        proxy_host := proxy_host t; proxy_port := proxy_port t |}.
(** [anonymity_score]: eight-bit arithmetic, which wraps in the release profile. *)
Definition anonymity_score (t : TorLayer) : Z :=
  if negb (is_enabled t) then 0 else
  let peer_score := wrap 8 (Z.of_nat (size (tor_peers t)) * 10) in
  Z.min (wrap 8 (50 + peer_score)) 100.

(** ** SOCKS5 *)

Definition socks5_error_message (code : Z) : string :=
  if code =? 1 then "general SOCKS server failure" else
  if code =? 2 then "connection not allowed by ruleset" else
  if code =? 3 then "network unreachable" else
  if code =? 4 then "host unreachable" else
  if code =? 5 then "connection refused" else
  if code =? 6 then "TTL expired" else
  if code =? 7 then "command not supported" else
  if code =? 8 then "address type not supported" else "unknown SOCKS5 error code".

Definition build_socks5_connect_request (target_host : bytes) (target_port : Z) : result bytes :=
  body ← match parse_ip target_host with
         | Some (V4 o) => Ok (0x01 :: o)
         | Some (V6 s) => Ok (0x04 :: v6_octets s)
         | None =>
             fail_if bool_decide (target_host = []) || (255 <? len target_host)
               as "target host must be 1-255 bytes for SOCKS5's domain-name field";
             Ok (0x03 :: wrap 8 (len target_host) :: target_host)
         end;
  Ok ([0x05; 0x01; 0x00] ++ body ++ be_bytes 2 target_port).

(** The reply after its four leading bytes: the bound address and port are consumed. *)
Definition read_bound_addr (atyp : Z) : IO () :=
  n ← (if atyp =? 1 then mret 4%nat else
       if atyp =? 4 then mret 16%nat else
       if atyp =? 3 then (b ← read_exact 1; mret (Z.to_nat (octet b 0))) else
       io_fail ("unsupported SOCKS5 bound-address type 0x" +:+ hex2 atyp));
  _ ← io_map_err (λ e, "SOCKS5 CONNECT reply truncated: " +:+ e) (read_exact (n + 2));
  mret ().
(** [socks5_connect_timeout] on the connection to the proxy. *)
Definition socks5_handshake (target_host : bytes) (target_port : Z) : IO () :=
  _ ← io_map_err (λ e, "SOCKS5 greeting failed: " +:+ e) (write_all [0x05; 0x01; 0x00]);
  method_reply ← io_map_err (λ e, "SOCKS5 greeting reply failed: " +:+ e) (read_exact 2);
  if negb (octet method_reply 0 =? 5) then io_fail ("not a SOCKS5 server (version byte " +:+ pretty (octet method_reply 0) +:+ ")") else
  if negb (octet method_reply 1 =? 0) then
    io_fail ("SOCKS5 server rejected no-auth (method byte 0x" +:+ hex2 (octet method_reply 1) +:+ ")") else
  request ← lift (build_socks5_connect_request target_host target_port);
  _ ← io_map_err (λ e, "SOCKS5 CONNECT request failed: " +:+ e) (write_all request);
  head ← io_map_err (λ e, "SOCKS5 CONNECT reply failed: " +:+ e) (read_exact 4);
  if negb (octet head 0 =? 5) then io_fail "malformed SOCKS5 reply (bad version byte)" else
  if negb (octet head 1 =? 0) then io_fail ("SOCKS5 CONNECT rejected: " +:+ socks5_error_message (octet head 1)) else
  read_bound_addr (octet head 3).

Section dial.
Context `{!Sockets}.

Definition socks5_connect_timeout (proxy target_host : bytes) (target_port : Z) : result Stream * list NetAction :=
  match resolve proxy with
  | Err e => (Err ("cannot resolve SOCKS5 proxy " +:+ bytes_str proxy +:+ ": " +:+ e), [Resolve proxy])
  | Ok [] => (Err ("no address for SOCKS5 proxy " +:+ bytes_str proxy), [Resolve proxy])
  | Ok (a :: _) =>
      (match connect a with
       | Err e => Err ("cannot reach SOCKS5 proxy at " +:+ bytes_str proxy +:+
           " (is Tor running? e.g. `tor` or `brew install tor && tor`): " +:+ e)
       | Ok s => let '(r, s) := socks5_handshake target_host target_port s in _ ← r; Ok s
       end, [Resolve proxy; Connect a])
  end.

(** The addresses in turn; the last error stands. *)
Fixpoint connect_first (addrs : list SockAddr) (last_err : string) : result Stream * list NetAction :=
  match addrs with
  | [] => (Err last_err, [])
  | a :: addrs =>
      match connect a with
      | Ok s => (Ok s, [Connect a])
      | Err e => let '(r, acts) := connect_first addrs e in (r, Connect a :: acts)
      end
  end.
Definition dial_target (target : bytes) (socks_proxy : option bytes) : result Stream * list NetAction :=
  match split_host_port target with
  | Err e => (Err e, [])
  | Ok (host, port) =>
      match socks_proxy with
      | Some proxy => socks5_connect_timeout proxy host port
      | None =>
          match resolve target with
          | Err e => (Err ("resolve " +:+ bytes_str target +:+ ": " +:+ e), [Resolve target])
          | Ok addrs =>
              let '(r, acts) := connect_first addrs ("no resolvable address for " +:+ bytes_str target) in
              (r, Resolve target :: acts)
          end
      end
  end.

(** [route_message]: what arrives until the peer closes or falls silent is the reply;
    [broken] is the error of a read that neither ends nor times out. *)
Definition read_to_end (broken : option string) : IO bytes := λ s,
  (match broken with Some e => Err ("read from Tor circuit failed: " +:+ e) | None => Ok (st_in s) end,
   {| st_in := []; st_out := st_out s; st_room := st_room s |}).
Definition exchange (broken : option string) (data : bytes) : IO bytes :=
  _ ← io_map_err (λ e, "write to Tor circuit failed: " +:+ e) (write_all data); read_to_end broken.
Definition route_message (broken : option string) (t : TorLayer) (target data : bytes) : result bytes * list NetAction :=
  if negb (is_enabled t) then (Ok data, []) else
  match split_host_port target with
  | Err e => (Err e, [])
  | Ok (host, port) =>
      let '(r, acts) := socks5_connect_timeout (proxy_addr t) host port in
      (s ← r; (exchange broken data s).1, acts)
  end.

(** [TorBridge]. *)
Record TorBridge := { bridge_address : bytes; is_obfs4 : bool }.
Definition TorBridge_new (address : bytes) : TorBridge := {| bridge_address := address; is_obfs4 := true |}.
Definition bridge_connect (b : TorBridge) : result Stream * list NetAction :=
  if is_obfs4 b then (Err "obfs4 pluggable-transport bridging is not implemented", []) else
  match rsplit_once COLON (bridge_address b) with
  | None => (Err "bridge address must be host:port", [])
  | Some (host, port) =>
      match parse_uint 65535 port with
      | None => (Err "invalid bridge port", [])
      | Some port => socks5_connect_timeout DEFAULT_TOR_PROXY host port
      end
  end.
End dial.

(** ** Parsed addresses are addresses *)

Lemma to_digit_range radix b d : 0 < radix → to_digit radix b = Some d → 0 <= d < radix.
Proof. unfold to_digit. intros Hr. repeat case_match; intros [= <-]; zbool; lia. Qed.
Lemma read_digits_range radix l : 0 < radix → Forall (λ d, 0 <= d < radix) (read_digits radix l).1.
Proof.
  intros Hr. induction l as [|b l IH]; [constructor|]. simpl. destruct (to_digit radix b) as [d|] eqn:Hd; [|constructor].
  destruct (read_digits radix l). constructor; [by eapply to_digit_range|done].
Qed.
Lemma digits_value_nonneg radix ds : 0 < radix → Forall (λ d, 0 <= d < radix) ds → 0 <= digits_value radix ds.
Proof.
  intros Hr. unfold digits_value. assert (∀ acc, 0 <= acc → Forall (λ d, 0 <= d < radix) ds → 0 <= foldl (λ acc d, acc * radix + d) acc ds) as Hg; [|by apply Hg].
  induction ds as [|d ds IH]; intros acc Ha Hds; [done|]. simpl. inversion Hds; subst. apply IH; [nia|done].
Qed.
Lemma read_number_range radix m k z l v rest : 0 < radix → read_number radix m k z l = Some (v, rest) → 0 <= v <= m.
Proof.
  intros Hr. unfold read_number. pose proof (read_digits_range radix l Hr) as Hd. destruct (read_digits radix l) as [ds r]. simpl in Hd.
  repeat case_match; try done. intros [= <- <-]. pose proof (digits_value_nonneg radix ds Hr Hd). zbool. lia.
Qed.
Lemma read_separator_inv {A} sep i (inner : bytes → option (A * bytes)) l x :
  read_separator sep i inner l = Some x → ∃ l', inner l' = Some x.
Proof. unfold read_separator. destruct i; [by exists l|]. destruct (read_char sep l) as [l'|]; [by exists l'|done]. Qed.
Lemma read_octets_shape n i l os rest : read_octets n i l = Some (os, rest) → length os = n ∧ is_bytes os.
Proof.
  revert i l os rest. induction n as [|n IH]; intros i l os rest; simpl; [intros [= <- <-]; by split; [|constructor]|].
  destruct (read_separator 46 i (read_number 10 255 3 false) l) as [[o l1]|] eqn:Ho; [|done]. simpl.
  destruct (read_octets n (S i) l1) as [[os' l2]|] eqn:Hos; [|done]. simpl. intros [= <- <-]. destruct (IH _ _ _ _ Hos) as [<- Hb].
  split; [done|]. constructor; [|done]. destruct (read_separator_inv _ _ _ _ _ Ho) as [l' Hl]. by apply read_number_range in Hl.
Qed.
Abbreviation is_u16 := (in_width 16).
Lemma read_groups_shape n i l : (length (read_groups n i l).1.1 <= n)%nat ∧ Forall is_u16 (read_groups n i l).1.1.
Proof.
  revert i l. induction n as [|n IH]; intros i l; [by split; [|constructor]|]. cbn [read_groups].
  assert (∀ i l, (length (match read_separator 58 i (read_number 16 65535 4 true) l with
     | Some (g, l) => let '(gs, v4, l) := read_groups n (S i) l in (g :: gs, v4, l) | None => ([], false, l) end).1.1 <= S n)%nat ∧
     Forall is_u16 (match read_separator 58 i (read_number 16 65535 4 true) l with
     | Some (g, l) => let '(gs, v4, l) := read_groups n (S i) l in (g :: gs, v4, l) | None => ([], false, l) end).1.1) as Hother.
  { clear i l. intros i l. destruct (read_separator 58 i (read_number 16 65535 4 true) l) as [[g l1]|] eqn:Hg; [|split; [simpl; lia|constructor]].
    specialize (IH (S i) l1). destruct (read_groups n (S i) l1) as [[gs v4] l2]. cbn [fst snd length] in *. destruct IH as [? ?]. split; [lia|].
    constructor; [|done]. destruct (read_separator_inv _ _ _ _ _ Hg) as [l' Hl]. apply read_number_range in Hl; [|done].
    unfold in_width. change (umax 16) with 65535. lia. }
  destruct (Nat.leb_spec 2 (S n)) as [Hn|Hn]; [|apply Hother].
  destruct (read_separator 58 i read_ipv4_addr l) as [[os l1]|] eqn:Hs; [|apply Hother].
  destruct os as [|o1 [|o2 [|o3 [|o4 [|? ?]]]]]; try apply Hother. cbn [fst length]. split; [lia|].
  destruct (read_separator_inv _ _ _ _ _ Hs) as [l' Hl]. apply read_octets_shape in Hl as [_ Hb].
  unfold is_bytes in Hb. rewrite !Forall_cons in Hb. unfold in_width in Hb. change (umax 8) with 255 in Hb. rewrite !Forall_cons. unfold in_width. change (umax 16) with 65535. split_and!; try lia. done.
Qed.
Lemma parse_ip_shape l ip :
  parse_ip l = Some ip → match ip with V4 o => length o = 4%nat ∧ is_bytes o | V6 s => length s = 8%nat ∧ Forall is_u16 s end.
Proof.
  unfold parse_ip. destruct (read_ipv4_addr l) as [[o rest]|] eqn:H4.
  - case_bool_decide; [|done]. intros [= <-]. by eapply read_octets_shape.
  - destruct (read_ipv6_addr l) as [[s rest]|] eqn:H6; case_bool_decide; try done. intros [= <-]. unfold read_ipv6_addr in H6.
    pose proof (read_groups_shape 8 0 l) as Hh. destruct (read_groups 8 0 l) as [[h v4] l1]. cbn [fst] in Hh. destruct Hh as [Hl Hu].
    destruct (Nat.eqb_spec (length h) 8); [by injection H6 as <- <-|]. destruct v4; [done|].
    destruct (read_char 58 l1) as [l2|]; [|done]. simpl in H6. destruct (read_char 58 l2) as [l3|]; [|done]. cbn [mbind option_bind] in H6.
    pose proof (read_groups_shape (8 - (length h + 1)) 0 l3) as Ht. destruct (read_groups (8 - (length h + 1)) 0 l3) as [[t ?] l4]. cbn [fst] in Ht.
    destruct Ht as [Hlt Hut]. injection H6 as <- <-. split; [rewrite !length_app, length_replicate; lia|].
    rewrite !Forall_app. split_and!; [done| |done]. apply Forall_replicate. unfold in_width. change (umax 16) with 65535. lia.
Qed.

(** ** The request means what it should *)

(** A CONNECT request as a proxy reads it (RFC 1928, section 4). *)
Inductive Target := TAddr (ip : IpAddr) | TName (name : bytes).
Fixpoint segments (l : bytes) : list Z :=
  match l with
  | hi :: lo :: l => hi * 256 + lo :: segments l
  | _ => []
  end.
Definition read_target (l : bytes) : option (Target * bytes) :=
  match l with
  | 1 :: l => Some (TAddr (V4 (take 4 l)), drop 4 l)
  | 4 :: l => Some (TAddr (V6 (segments (take 16 l))), drop 16 l)
  | 3 :: n :: l => Some (TName (take (Z.to_nat n) l), drop (Z.to_nat n) l)
  | _ => None
  end.
Definition decode_request (l : bytes) : option (Target * Z * bytes) :=
  match l with
  | 5 :: 1 :: 0 :: l => '(t, l) ← read_target l; if len l <? 2 then None else Some (t, be_int (take 2 l), drop 2 l)
  | _ => None
  end.
(** What a host text denotes: a literal address or a name for the proxy to resolve. *)
Definition target_of (host : bytes) : Target := from_option TAddr (TName host) (parse_ip host).

Lemma segments_octets s : Forall is_u16 s → segments (v6_octets s) = s.
Proof.
  induction 1 as [|g s Hg _ IH]; [done|]. unfold v6_octets in *. cbn [fmap list_fmap concat app segments]. rewrite IH. f_equal.
  pose proof (Z.div_mod g 256). lia.
Qed.
Lemma length_v6_octets s : length (v6_octets s) = (2 * length s)%nat.
Proof. unfold v6_octets. induction s as [|g s IH]; [done|]. cbn [fmap list_fmap concat app length]. rewrite IH. lia. Qed.

(** Decoding undoes [build_socks5_connect_request]. *)
Lemma request_decodes host port r rest :
  build_socks5_connect_request host port = Ok r → in_width 16 port → decode_request (r ++ rest) = Some (target_of host, port, rest).
Proof.
  unfold build_socks5_connect_request, target_of. intros Hb Hp.
  assert (∀ t a l, read_target (a ++ be_bytes 2 port ++ rest) = Some (t, be_bytes 2 port ++ rest) → r = [5; 1; 0] ++ a ++ be_bytes 2 port → l = r ++ rest →
    decode_request l = Some (t, port, rest)) as Hend.
  { intros t a l Ha -> ->. cbn [app decode_request]. rewrite <- !app_assoc. rewrite Ha. cbn [mbind option_bind]. unfold len. rewrite length_app, length_be_bytes.
    rewrite (proj2 (Z.ltb_ge _ _)) by lia. rewrite take_app_length', drop_app_length' by (by rewrite length_be_bytes). rewrite be_int_bytes; [done|].
    unfold in_width in Hp. change (umax 16) with 65535 in Hp. change (256 ^ Z.of_nat 2) with 65536. lia. }
  destruct (parse_ip host) as [[o|s]|] eqn:Hip; cbn [from_option].
  - injection Hb as <-. apply parse_ip_shape in Hip as [Hl _]. eapply (Hend _ (1 :: o)); [|reflexivity|reflexivity].
    cbn [app read_target]. by rewrite take_app_length', drop_app_length' by done.
  - injection Hb as <-. apply parse_ip_shape in Hip as [Hl Hs]. eapply (Hend _ (4 :: v6_octets s)); [|reflexivity|reflexivity].
    assert (length (v6_octets s) = 16%nat) as Hl6 by (rewrite length_v6_octets; lia).
    cbn [app read_target]. rewrite take_app_length', drop_app_length' by done. by rewrite segments_octets.
  - destruct (bool_decide (host = []) || (255 <? len host)) eqn:Hlen; [done|]. injection Hb as <-. apply orb_false_iff in Hlen as [_ Hlen]. apply Z.ltb_ge in Hlen.
    eapply (Hend _ (3 :: wrap 8 (len host) :: host)); [|reflexivity|reflexivity]. rewrite wrap_small by (split; [apply len_nonneg|done]).
    cbn [app read_target]. unfold len. by rewrite Nat2Z.id, take_app_length, drop_app_length.
Qed.

(** Whatever follows it on the wire, a built request decodes to the host and port it was
    built for, and a name stays a name: it is never resolved here. *)
Theorem socks_request_roundtrip host port r rest :
  build_socks5_connect_request host port = Ok r → in_width 16 port → decode_request (r ++ rest) = Some (target_of host, port, rest).
Proof. apply request_decodes. Qed.

(** ** The handshake *)

(** A success reply (RFC 1928, section 6). *)
Inductive socks_reply : bytes → Prop :=
| reply_v4 rsv addr port : length addr = 4%nat → length port = 2%nat → socks_reply ([5; 0; rsv; 1] ++ addr ++ port)
| reply_v6 rsv addr port : length addr = 16%nat → length port = 2%nat → socks_reply ([5; 0; rsv; 4] ++ addr ++ port)
| reply_name rsv n addr port : length addr = Z.to_nat n → length port = 2%nat → socks_reply ([5; 0; rsv; 3; n] ++ addr ++ port).

Lemma read_bound_addr_inv atyp s s' :
  read_bound_addr atyp s = (Ok (), s') →
  st_out s' = st_out s ∧ st_room s' = st_room s ∧
  ∃ r, st_in s = r ++ st_in s' ∧ ∀ rsv, socks_reply ([5; 0; rsv; atyp] ++ r).
Proof.
  unfold read_bound_addr. intros H. io_step H n s1 Hn. io_step H x s2 Hx. apply io_map_err_ok, read_exact_inv in Hx as (Hl & Hin & Ho & Hr).
  injection H as ->. rewrite Ho, Hr. clear Ho Hr.
  assert (∃ a p, x = a ++ p ∧ length a = n ∧ length p = 2%nat) as (a & p & -> & Ha & Hp).
  { exists (take n x), (drop n x). rewrite take_drop, length_take, length_drop. split_and!; [done|lia|lia]. }
  destruct (Z.eqb_spec atyp 1) as [->|]; [injection Hn as <- <-; split_and!; [done..|]; exists (a ++ p); split; [done|]; intros; by apply reply_v4|].
  destruct (Z.eqb_spec atyp 4) as [->|]; [injection Hn as <- <-; split_and!; [done..|]; exists (a ++ p); split; [done|]; intros; by apply reply_v6|].
  destruct (Z.eqb_spec atyp 3) as [->|]; [|done]. io_step Hn b s3 Hb. apply read_exact_inv in Hb as (Hl1 & Hin1 & Ho & Hr). injection Hn as Hn <-.
  destruct b as [|b [|? ?]]; try done. split_and!; [done..|]. exists ([b] ++ a ++ p). split; [by rewrite Hin1, Hin, !app_assoc|]. intros. apply (reply_name _ b); [|done]. change (octet [b] 0) with b in Hn. congruence.
Qed.

Lemma socks5_handshake_inv host port req s s' :
  build_socks5_connect_request host port = Ok req → socks5_handshake host port s = (Ok (), s') →
  (∃ reply, socks_reply reply ∧ st_in s = [5; 0] ++ reply ++ st_in s') ∧
  st_out s' = st_out s ++ [5; 1; 0] ++ req ∧ st_room s = (3 + length req + st_room s')%nat.
Proof.
  intros Hreq. unfold socks5_handshake. intros H. io_step H u s1 H1. destruct u. apply io_map_err_ok, write_all_inv in H1 as (Hi1 & Ho1 & Hr1).
  io_step H m s2 H2. apply io_map_err_ok, read_exact_inv in H2 as (Hl2 & Hi2 & Ho2 & Hr2).
  destruct m as [|m0 [|m1 [|? ?]]]; try done. change (octet [m0; m1] 0) with m0 in H. change (octet [m0; m1] 1) with m1 in H.
  destruct (Z.eqb_spec m0 5) as [->|]; [|done]. destruct (Z.eqb_spec m1 0) as [->|]; [|done]. cbn [negb] in H.
  io_step H rq s3 H3. injection H3 as Hrq <-. rewrite Hreq in Hrq. injection Hrq as <-.
  io_step H u s4 H4. destruct u. apply io_map_err_ok, write_all_inv in H4 as (Hi4 & Ho4 & Hr4).
  io_step H hdr s5 H5. apply io_map_err_ok, read_exact_inv in H5 as (Hl5 & Hi5 & Ho5 & Hr5).
  destruct hdr as [|a [|b [|c [|d [|? ?]]]]]; try done.
  change (octet [a; b; c; d] 0) with a in H. change (octet [a; b; c; d] 1) with b in H. change (octet [a; b; c; d] 3) with d in H.
  destruct (Z.eqb_spec a 5) as [->|]; [|done]. destruct (Z.eqb_spec b 0) as [->|]; [|done]. cbn [negb] in H.
  apply read_bound_addr_inv in H as (Ho6 & Hr6 & r & Hi6 & Hrep). cbn [length] in Hr1.
  split_and!; [|rewrite Ho6, Ho5, Ho4, Ho2, Ho1; by rewrite <- app_assoc|lia].
  exists ([5; 0; c; d] ++ r). split; [apply Hrep|]. rewrite <- Hi1, Hi2, <- Hi4, Hi5, Hi6. by rewrite <- !app_assoc.
Qed.
Lemma socks5_handshake_ok host port req reply i o n :
  build_socks5_connect_request host port = Ok req → socks_reply reply →
  socks5_handshake host port {| st_in := [5; 0] ++ reply ++ i; st_out := o; st_room := 3 + length req + n |} =
  (Ok (), {| st_in := i; st_out := o ++ [5; 1; 0] ++ req; st_room := n |}).
Proof.
  intros Hreq Hrep.
  assert (∀ r atyp rsv, reply = [5; 0; rsv; atyp] ++ r →
    read_bound_addr atyp {| st_in := r ++ i; st_out := (o ++ [5; 1; 0]) ++ req; st_room := n |} = (Ok (), {| st_in := i; st_out := o ++ [5; 1; 0] ++ req; st_room := n |}) →
    socks5_handshake host port {| st_in := [5; 0] ++ reply ++ i; st_out := o; st_room := 3 + length req + n |} =
    (Ok (), {| st_in := i; st_out := o ++ [5; 1; 0] ++ req; st_room := n |})) as Hgo.
  { intros r atyp rsv -> Hb. unfold socks5_handshake.
    erewrite io_bind_ok; [|apply io_map_err_ok; replace (3 + length req + n)%nat with (length [5; 1; 0] + (length req + n))%nat by (simpl; lia); apply write_all_ok].
    erewrite io_bind_ok; [|apply io_map_err_ok; by apply read_exact_ok]. cbv beta.
    change (octet [5; 0] 0) with 5. change (octet [5; 0] 1) with 0. cbn [Z.eqb Pos.eqb negb]. rewrite Hreq.
    erewrite io_bind_ok; [|reflexivity]. cbv beta. erewrite io_bind_ok; [|apply io_map_err_ok; apply write_all_ok]. cbv beta.
    rewrite <- app_assoc. erewrite io_bind_ok; [|apply io_map_err_ok; by apply read_exact_ok]. cbv beta.
    change (octet [5; 0; rsv; atyp] 0) with 5. change (octet [5; 0; rsv; atyp] 1) with 0. change (octet [5; 0; rsv; atyp] 3) with atyp.
    cbn [Z.eqb Pos.eqb negb]. exact Hb. }
  destruct Hrep as [rsv a p Ha Hp|rsv a p Ha Hp|rsv k a p Ha Hp]; (eapply Hgo; [reflexivity|]); unfold read_bound_addr; cbn [Z.eqb Pos.eqb].
  + erewrite io_bind_ok; [|reflexivity]. cbv beta. erewrite io_bind_ok; [|apply io_map_err_ok, read_exact_ok; rewrite length_app; lia]. by rewrite <- app_assoc.
  + erewrite io_bind_ok; [|reflexivity]. cbv beta. erewrite io_bind_ok; [|apply io_map_err_ok, read_exact_ok; rewrite length_app; lia]. by rewrite <- app_assoc.
  + erewrite io_bind_ok; [|erewrite io_bind_ok; [|apply (read_exact_ok 1 [k]); done]; reflexivity]. cbv beta.
    erewrite io_bind_ok; [|apply io_map_err_ok, read_exact_ok; rewrite length_app; change (octet [k] 0) with k; lia]. by rewrite <- app_assoc.
Qed.

(** The handshake succeeds exactly on a proxy that picks no authentication and answers a
    success reply; it has then written the greeting and the request and nothing else, and
    consumed the answer to the last byte: what is left to read is the target's data. *)
Theorem socks5_exact host port req s s' :
  build_socks5_connect_request host port = Ok req →
  socks5_handshake host port s = (Ok (), s') ↔
   (∃ reply, socks_reply reply ∧ st_in s = [5; 0] ++ reply ++ st_in s') ∧
   st_out s' = st_out s ++ [5; 1; 0] ++ req ∧ st_room s = (3 + length req + st_room s')%nat.
Proof.
  intros Hreq. split; [by apply socks5_handshake_inv|]. intros ((reply & Hrep & Hin) & Hout & Hrm).
  destruct s as [i o n], s' as [i' o' n']. cbn [st_in st_out st_room] in *. subst i o' n. by apply socks5_handshake_ok.
Qed.

(** ** Dialling *)

Lemma parse_digits_range m acc l v : 0 <= acc <= m → parse_digits m acc l = Some v → 0 <= v <= m.
Proof.
  revert acc. induction l as [|b l IH]; intros acc Ha; simpl; [by intros [= <-]|].
  destruct (to_digit 10 b) as [d|] eqn:Hd; [|done]. apply to_digit_range in Hd; [|done]. simpl.
  destruct (Z.ltb_spec m (acc * 10 + d)); [done|]. apply IH. lia.
Qed.
Lemma parse_uint_range m l v : 0 <= m → parse_uint m l = Some v → 0 <= v <= m.
Proof. intros Hm. destruct l as [|b l]; [done|]. unfold parse_uint. repeat case_match; try done; apply parse_digits_range; lia. Qed.
Lemma split_host_port_ok target host port :
  split_host_port target = Ok (host, port) → host ≠ [] ∧ in_width 16 port ∧ ∃ text, rsplit_once COLON target = Some (host, text) ∧ parse_uint 65535 text = Some port.
Proof.
  unfold split_host_port. destruct (rsplit_once COLON target) as [[h t]|]; [|done]. cbn [ok_or mbind result_bind].
  destruct (parse_uint 65535 t) as [p|] eqn:Hp; [|done]. cbn [ok_or mbind result_bind]. case_bool_decide; [done|]. intros [= <- <-].
  split; [done|]. split; [by apply parse_uint_range in Hp|by eexists].
Qed.

Section dialling.
Context `{!Sockets}.

(** What a proxied dial does on the network. *)
Lemma proxied_acts target proxy act :
  act ∈ (dial_target target (Some proxy)).2 → act = Resolve proxy ∨ ∃ a rest, resolve proxy = Ok (a :: rest) ∧ act = Connect a.
Proof.
  unfold dial_target. destruct (split_host_port target) as [[host port]|e]; [|by intros ?%elem_of_nil].
  unfold socks5_connect_timeout. destruct (resolve proxy) as [[|a addrs]|e] eqn:Hr; cbn [snd];
    [intros [->|?%elem_of_nil]%elem_of_cons; [by left|done]| |intros [->|?%elem_of_nil]%elem_of_cons; [by left|done]].
  intros [->|[->|?%elem_of_nil]%elem_of_cons]%elem_of_cons; [by left|right; by exists a, addrs|done].
Qed.

(** With a proxy configured, a dial resolves the proxy's name and connects to the proxy and
    to nothing else, whether it succeeds or not; when it succeeds, the proxy was asked for
    exactly the target's host and port, a name being passed on unresolved. *)
Theorem proxied_dial target proxy r acts :
  dial_target target (Some proxy) = (r, acts) →
  (∀ act, act ∈ acts → act = Resolve proxy ∨ ∃ a rest, resolve proxy = Ok (a :: rest) ∧ act = Connect a) ∧
  (∀ s, r = Ok s → ∃ host port a s0 req, split_host_port target = Ok (host, port) ∧ connect a = Ok s0 ∧
     st_out s = st_out s0 ++ [5; 1; 0] ++ req ∧ decode_request req = Some (target_of host, port, [])).
Proof.
  intros Hd. split; [intros act Ha; apply (proxied_acts target); by rewrite Hd|]. revert Hd.
  unfold dial_target. destruct (split_host_port target) as [[host port]|e] eqn:Hs; [|by intros [= <- <-]].
  unfold socks5_connect_timeout. destruct (resolve proxy) as [[|a addrs]|e] eqn:Hr; intros [= <- <-]; try done.
  intros s Hok. destruct (connect a) as [s0|] eqn:Hc; [|done].
  destruct (socks5_handshake host port s0) as [[[]|e] s1] eqn:Hh; [|done]. injection Hok as ->.
  assert (∃ req, build_socks5_connect_request host port = Ok req) as [req Hreq].
  { destruct (build_socks5_connect_request host port) as [req|e] eqn:Hb; [by exists req|]. exfalso. revert Hh. unfold socks5_handshake. intros Hf.
    io_step Hf u s2 H1. io_step Hf m s3 H2. do 2 (destruct (negb _) in Hf; [done|]). io_step Hf rq s4 H3. by rewrite Hb in H3. }
  destruct (socks5_handshake_inv _ _ _ _ _ Hreq Hh) as (_ & Ho & _). exists host, port, a, s0, req. split_and!; [done..|].
  apply split_host_port_ok in Hs as (_ & Hp & _). pose proof (request_decodes host port req [] Hreq Hp) as Hq. by rewrite app_nil_r in Hq.
Qed.
End dialling.

(** ** The local onion identifier *)

Lemma alphabet_onion c : c ∈ ALPHABET → is_onion_char (if is_ascii_uppercase c then c + 32 else c) = true.
Proof. revert c. apply Forall_forall. vm_compute. repeat constructor. Qed.
Lemma encode_chunk_alphabet chunk : Forall (λ c, c ∈ ALPHABET) (encode_chunk chunk).
Proof.
  unfold encode_chunk. apply Forall_fmap, Forall_forall. intros i _. cbn [compose].
  generalize (Z.shiftr (foldl (λ acc b, Z.lor (Z.shiftl acc 8) b) 0 (chunk ++ replicate (5 - length chunk) 0)) (40 - 5 * (Z.of_nat i + 1))). intros x.
  change 0x1f with (Z.ones 5). rewrite Z.land_ones by done. pose proof (Z.mod_pos_bound x (2 ^ 5) eq_refl) as Hx.
  destruct (lookup_lt_is_Some_2 ALPHABET (Z.to_nat (x mod 2 ^ 5))) as [c Hc]; [change (length ALPHABET) with 32%nat; lia|].
  rewrite Hc. by eapply list_elem_of_lookup_2.
Qed.
Lemma base32_chars data : Forall (λ c, c ∈ ALPHABET) (base32_encode data).
Proof.
  unfold base32_encode. generalize (length data). intros fuel. revert data. induction fuel as [|fuel IH]; intros data; [constructor|].
  destruct data; [constructor|]. cbn [base32_loop]. apply Forall_app. split; [apply encode_chunk_alphabet|apply IH].
Qed.
Lemma base32_length k data : length data = (5 * k)%nat → length (base32_encode data) = (8 * k)%nat.
Proof.
  unfold base32_encode. assert (∀ fuel data, length data = (5 * k)%nat → (k <= fuel)%nat → length (base32_loop fuel data) = (8 * k)%nat) as Hg; [|intros Hl; apply Hg; lia].
  clear data. induction k as [|k IH]; intros fuel data Hl Hf; [destruct data; [by destruct fuel|done]|].
  destruct fuel as [|fuel]; [lia|]. destruct data as [|x data]; [done|]. cbn [base32_loop]. rewrite length_app, (IH fuel); [|rewrite length_drop; lia|lia].
  unfold encode_chunk. rewrite length_fmap, length_seq, length_take. replace (5 `min` length (x :: data))%nat with 5%nat by lia. cbn [out_chars]. lia.
Qed.

Lemma ends_with_app l : ends_with onion (l ++ onion) = true.
Proof.
  unfold ends_with. rewrite length_app, (proj2 (Nat.leb_le _ _)) by lia. cbn [andb]. apply bool_decide_eq_true.
  replace (length l + length onion - length onion)%nat with (length l) by lia. apply drop_app_length.
Qed.
Lemma trim_suffix fuel l : ends_with onion l = false → trim_end_matches (S (S fuel)) onion (l ++ onion) = l.
Proof.
  intros Hl. cbn [trim_end_matches]. rewrite ends_with_app, length_app. replace (length l + length onion - length onion)%nat with (length l) by lia.
  rewrite take_app_length. by rewrite Hl.
Qed.

(** The identifier generated from 35 random bytes has the shape of a version-3 onion
    address: it passes the layer's own test and the dial filter of the network policy. *)
Theorem onion_address_wellformed random_bytes :
  length random_bytes = 35%nat →
  verify_onion_address (generate_onion_address random_bytes) = true ∧ onion_ok (generate_onion_address random_bytes) = true.
Proof.
  intros Hl. unfold generate_onion_address. pose proof (base32_length 7 _ Hl) as Hlen. pose proof (base32_chars random_bytes) as Hc.
  set (h := to_ascii_lowercase (base32_encode random_bytes)).
  assert (length h = 56%nat) as Hh by (unfold h, to_ascii_lowercase; by rewrite length_fmap).
  assert (Forall (λ c, is_onion_char c = true) h) as Hon.
  { unfold h, to_ascii_lowercase. apply Forall_fmap. eapply Forall_impl; [done|]. intros c. apply alphabet_onion. }
  assert ((len (h ++ onion) =? 62) = true) as H62 by (apply Z.eqb_eq; unfold len; rewrite length_app, Hh; reflexivity).
  split; [unfold verify_onion_address; by rewrite ends_with_app|]. unfold onion_ok. rewrite H62. cbn [andb]. rewrite length_app, Hh.
  rewrite (trim_suffix 60).
  2: { unfold ends_with. apply andb_false_iff. right. apply bool_decide_eq_false. intros Hd. rewrite Forall_forall in Hon.
    assert (46 ∈ h) as Hin%Hon; [|done]. rewrite <- (take_drop (length h - length onion) h), Hd. apply elem_of_app. right. apply elem_of_cons. by left. }
  apply forallb_forall. intros c Hin%list_elem_of_In. rewrite Forall_forall in Hon. by apply Hon.
Qed.

(** The score is computed in eight bits: the twenty-first peer takes it from 100 to 4. *)
Theorem anonymity_score_wraps t :
  is_enabled t = true →
  (size (tor_peers t) = 20%nat → anonymity_score t = 100) ∧ (size (tor_peers t) = 21%nat → anonymity_score t = 4).
Proof. intros He. unfold anonymity_score. rewrite He. by split; intros ->. Qed.

(** ** Example: a dial through a local proxy *)

Module TorExample.
Definition local : SockAddr := (V4 [127; 0; 0; 1], 9050).
(** A proxy that accepts, binds 10.0.0.1:80 and relays five bytes. *)
Definition proxy_stream : Stream := {| st_in := [5; 0; 5; 0; 0; 1; 10; 0; 0; 1; 0; 80; 104; 101; 108; 108; 111]; st_out := []; st_room := 1000 |}.
#[export] Instance sockets : Sockets :=
  {| resolve name := if bool_decide (name = DEFAULT_TOR_PROXY) then Ok [local] else Err "no such host";
     connect a := if bool_decide (a = local) then Ok proxy_stream else Err "refused" |}.
Definition peer_name : bytes := str_bytes "peer.example:9333".
Definition dialled : Stream :=
  match (dial_target peer_name (Some DEFAULT_TOR_PROXY)).1 with Ok s => s | Err _ => proxy_stream end.
Lemma dial_ok : dial_target peer_name (Some DEFAULT_TOR_PROXY) = (Ok dialled, [Resolve DEFAULT_TOR_PROXY; Connect local]).
Proof. vm_compute. reflexivity. Qed.
Definition short_request : bytes := [5; 1; 0; 3; 1; 97; 0; 80].
Definition crowd : gset bytes := list_to_set ((λ i, str_bytes (pretty i)) <$> seqZ 0 21).
Definition crowded : TorLayer :=
  {| onion_address := []; tor_peers := crowd; is_enabled := true; proxy_host := []; proxy_port := 9050 |}.
End TorExample.

Section witnesses.
Import TorExample.

Lemma socks_request_roundtrip_witness : decode_request (short_request ++ [1]) = Some (target_of [97], 80, [1]).
Proof. apply (socks_request_roundtrip [97] 80 short_request [1]); [vm_compute; reflexivity|split; discriminate]. Defined.
Lemma socks5_exact_witness :
  socks5_handshake [97] 80 proxy_stream = (Ok (), {| st_in := [104; 101; 108; 108; 111]; st_out := [5; 1; 0] ++ short_request; st_room := 989 |}).
Proof.
  apply (socks5_exact [97] 80 short_request proxy_stream); [vm_compute; reflexivity|]. split; [|by split].
  exists ([5; 0; 0; 1] ++ [10; 0; 0; 1] ++ [0; 80]). split; [by apply reply_v4|reflexivity].
Defined.
Lemma proxied_dial_witness : ∃ host port, split_host_port peer_name = Ok (host, port) ∧ is_Some (head (st_out dialled)).
Proof.
  destruct (proj2 (proxied_dial peer_name DEFAULT_TOR_PROXY _ _ dial_ok) dialled eq_refl) as (host & port & a & s0 & req & Hs & _).
  exists host, port. split; [exact Hs|vm_compute; by eexists].
Defined.
Lemma onion_address_wellformed_witness : verify_onion_address (generate_onion_address (replicate 35 7)) = true.
Proof. exact (proj1 (onion_address_wellformed (replicate 35 7) eq_refl)). Defined.
Lemma anonymity_score_wraps_witness : anonymity_score crowded = 4.
Proof. exact (proj2 (anonymity_score_wraps crowded eq_refl) ltac:(vm_compute; reflexivity)). Defined.
End witnesses.
