(* ===== verification/Transport.v ===== *)
(** * The encrypted transport

    The wire under the messages of [src/src/p2p.rs]: raw frames, the ML-KEM and Noise
    handshake, encrypted frames with their chunking, the exchange of signed identities
    ([pq_authenticate]) and the file that keeps a node's keys.  The cryptography (the
    [snow] and [fips203] crates) and the [bincode] form of a message are parameters: the
    class [Wire], with what is documented of them in [WireLaws].  Randomness is an
    argument; a poisoned lock is not modelled. *)

From S2P Require Import Prelude Genesis Crypto Address Predicate Utxo UtxoTx Registry Custody Block Ledger.
From S2P Require Import Superproof P2p Net PeerPin Stream.

(** ** Third-party code *)

Class Wire := {
  (** [snow::TransportState]. *)
  TransportState : Type;
  ts_write : TransportState → bytes → result (bytes * TransportState);
  ts_read : TransportState → bytes → result (bytes * TransportState);
  (** [snow::HandshakeState], built with a role, a static key, the pre-shared key and
      randomness; every handshake message has an empty payload. *)
  HandshakeState : Type;
  hs_build : bool → bytes → bytes → bytes → result HandshakeState;
  hs_write : HandshakeState → result (bytes * HandshakeState);
  hs_read : HandshakeState → bytes → result HandshakeState;
  hs_hash : HandshakeState → bytes;
  hs_transport : HandshakeState → result TransportState;
  (** [fips203::ml_kem_768]: encapsulation and decapsulation keys, ciphertexts. *)
  EK_LEN : nat;
  CT_LEN : nat;
  kem_keygen : bytes → result (bytes * bytes);
  kem_ek_parses : bytes → result ();
  kem_ct_parses : bytes → result ();
  kem_encaps : bytes → bytes → result (bytes * bytes);
  kem_decaps : bytes → bytes → result bytes;
  (** [bincode] with fixed-width little-endian integers. *)
  ser_message : Message → option bytes;
  de_message : bytes → option Message;
}.

(** [65535 - 16]. *)
Definition NOISE_MAX_PLAINTEXT : Z := 65519.

Section transport.
Context `{!Crypto, !Wire}.

(** ** Raw frames *)

Definition write_raw_frame (data : bytes) : IO () :=
  _ ← write_all (be_bytes 2 (wrap 16 (len data))); write_all data.
Definition read_raw_frame : IO bytes :=
  lb ← read_exact 2; read_exact (Z.to_nat (be_int lb)).

(** ** Handshake *)

Definition mlkem_shared_secret (initiator : bool) (rng : bytes) : IO bytes :=
  if initiator then
    '(ek, dk) ← lift (kem_keygen rng);
    _ ← write_raw_frame ek;
    ct ← read_raw_frame;
    if negb (Nat.eqb (length ct) CT_LEN) then io_fail "ML-KEM ciphertext wrong length" else
    _ ← lift (kem_ct_parses ct);
    lift (kem_decaps dk ct)
  else
    ek ← read_raw_frame;
    if negb (Nat.eqb (length ek) EK_LEN) then io_fail "ML-KEM encapsulation key wrong length" else
    _ ← lift (kem_ek_parses ek);
    '(ssk, ct) ← lift (kem_encaps ek rng);
    _ ← write_raw_frame ct;
    mret ssk.

Definition noise_handshake (initiator : bool) (local_private kem_rng hs_rng : bytes) : IO (TransportState * bytes) :=
  psk ← mlkem_shared_secret initiator kem_rng;
  hs ← lift (hs_build initiator local_private psk hs_rng);
  hs ← (if initiator then
          '(m, hs) ← lift (hs_write hs);
          _ ← write_raw_frame m;
          msg ← read_raw_frame;
          hs ← lift (hs_read hs msg);
          '(m, hs) ← lift (hs_write hs);
          _ ← write_raw_frame m;
          mret hs
        else
          msg ← read_raw_frame;
          hs ← lift (hs_read hs msg);
          '(m, hs) ← lift (hs_write hs);
          _ ← write_raw_frame m;
          msg ← read_raw_frame;
          lift (hs_read hs msg));
  let handshake_hash := hs_hash hs in
  transport ← lift (hs_transport hs);
  mret (transport, handshake_hash).

(** ** Encrypted frames *)

(** [Conn] with its read half. *)
Record Channel := { ch_stream : Stream; ch_transport : TransportState }.
Definition on_stream {A} (m : IO A) : SE Channel A := λ c,
  let '(r, s) := m (ch_stream c) in (r, {| ch_stream := s; ch_transport := ch_transport c |}).
(** An operation of the transport state: a failed one leaves it as it was. *)
Definition on_transport {A} (f : TransportState → result (A * TransportState)) : SE Channel A := λ c,
  match f (ch_transport c) with
  | Ok (a, t) => (Ok a, {| ch_stream := ch_stream c; ch_transport := t |})
  | Err e => (Err e, c)
  end.

Definition write_enc_frame (plaintext : bytes) : SE Channel () :=
  ct ← on_transport (λ t, ts_write t plaintext);
  _ ← on_stream (write_all (be_bytes 2 (wrap 16 (len ct))));
  on_stream (write_all ct).
Definition read_enc_frame : SE Channel bytes :=
  lb ← on_stream (read_exact 2);
  ct ← on_stream (read_exact (Z.to_nat (be_int lb)));
  on_transport (λ t, ts_read t ct).

(** [slice::chunks]. *)
Fixpoint chunks_loop (fuel n : nat) (l : bytes) : list bytes :=
  match fuel, l with
  | S fuel, _ :: _ => take n l :: chunks_loop fuel n (drop n l)
  | _, _ => []
  end.
Definition chunks (n : Z) (l : bytes) : list bytes := chunks_loop (length l) (Z.to_nat n) l.
Fixpoint write_frames (l : list bytes) : SE Channel () :=
  match l with
  | [] => mret ()
  | chunk :: l => _ ← write_enc_frame chunk; write_frames l
  end.
Definition noise_write (payload : bytes) : SE Channel () :=
  if MAX_MESSAGE_BYTES <? len payload then io_fail "outgoing message exceeds MAX_MESSAGE_BYTES" else
  _ ← write_enc_frame (be_bytes 4 (wrap 32 (len payload)));
  write_frames (chunks NOISE_MAX_PLAINTEXT payload).

(** The reassembly loop.  Every frame consumes input, so that the length of what is still
    to arrive is fuel enough ([read_chunks_enough]). *)
Fixpoint read_chunks (fuel : nat) (total : Z) (out : bytes) : SE Channel bytes :=
  if negb (len out <? total) then mret out else
  match fuel with
  | O => io_fail "out of fuel"
  | S fuel =>
      chunk ← read_enc_frame;
      if bool_decide (chunk = []) then io_fail "empty noise chunk" else
      let out := out ++ chunk in
      if total <? len out then io_fail "noise chunk overflow" else read_chunks fuel total out
  end.
Definition noise_read : SE Channel bytes := λ c,
  (header ← read_enc_frame;
   if negb (len header =? 4) then io_fail "bad noise length header" else
   let total := be_int header in
   if MAX_MESSAGE_BYTES <? total then io_fail "incoming message exceeds MAX_MESSAGE_BYTES" else
   read_chunks (S (length (st_in (ch_stream c)))) total []) c.

(** ** Identities *)

(** [Shared::send]: failures are ignored. *)
Definition send_message (msg : Message) (c : Channel) : Channel :=
  match ser_message msg with Some payload => (noise_write payload c).2 | None => c end.

Definition p2p_identity : bytes := str_bytes "p2p-identity".
Definition pq_authenticate (d : PeerPinDirectory) (identity_secret identity_public rng handshake_hash : bytes)
    (dialed_addr : option bytes) (c : Channel) : bool * Channel :=
  match sign_pq512 p2p_identity handshake_hash identity_secret rng with
  | Err _ => (false, c)
  | Ok sig =>
      let c := send_message (MIdentity identity_public sig) c in
      match noise_read c with
      | (Err _, c) => (false, c)
      | (Ok plaintext, c) =>
          match de_message plaintext with
          | Some (MIdentity pubkey signature) =>
              if negb (verify_pq512 p2p_identity handshake_hash pubkey signature) then (false, c) else
              (is_ok (check_peer_identity d pubkey dialed_addr), c)
          | _ => (false, c)
          end
      end
  end.

(** The keys of a node and the randomness it draws in one connection. *)
Record Keys := { noise_private : bytes; identity_secret : bytes; identity_public : bytes }.
Record Rand := { rand_kem : bytes; rand_noise : bytes; rand_sign : bytes }.
(** The beginning of [handle_conn]: [None] drops the connection. *)
Definition establish (d : PeerPinDirectory) (k : Keys) (r : Rand) (dialed_addr : option bytes) (s : Stream) : option Channel :=
  match noise_handshake (bool_decide (is_Some dialed_addr)) (noise_private k) (rand_kem r) (rand_noise r) s with
  | (Err _, _) => None
  | (Ok (transport, handshake_hash), s) =>
      let '(ok, c) := pq_authenticate d (identity_secret k) (identity_public k) (rand_sign r) handshake_hash dialed_addr
                        {| ch_stream := s; ch_transport := transport |} in
      if ok then Some c else None
  end.

(** ** The identity file *)

(** [load_or_create_identity]: the file's permission bits and contents if it can be read;
    fresh keys; whether writing works.  The keys and the file afterwards. *)
(** Mode 600. *)
Definition OWNER_ONLY : Z := 384.
Definition IDENTITY_LEN : Z := 32 + PQ_SECRET_KEY_SIZE + PQ_PUBLIC_KEY_SIZE.
Definition parse_identity (l : bytes) : Keys :=
  {| noise_private := take 32 l; identity_secret := take SK_LEN (drop 32 l); identity_public := take PK_LEN (drop (32 + SK_LEN) l) |}.
Definition identity_bytes (k : Keys) : bytes := noise_private k ++ identity_secret k ++ identity_public k.
Definition load_or_create_identity (data_dir : bool) (file : option (Z * bytes)) (fresh : Keys) (writes : bool)
    : Keys * option (Z * bytes) :=
  if negb data_dir then (fresh, file) else
  match file with
  | Some (mode, l) =>
      if negb (Z.land (Z.land mode 511) 63 =? 0) then (fresh, file) else
      if IDENTITY_LEN <=? len l then (parse_identity l, file) else
      (fresh, if writes then Some (mode, identity_bytes fresh) else file)
  | None => (fresh, if writes then Some (OWNER_ONLY, identity_bytes fresh) else file)
  end.
End transport.

(** ** What is documented of the cryptography

    A transport state is two halves, a sending and a receiving one; a ciphertext is read
    by the receiving half that equals the sending half it was written with, once, and
    both move on.  A half serves a bounded number of messages.  The handshake pattern is
    three messages, written in turn by the initiator, the responder and the initiator;
    two states built with the same pre-shared key follow it to the end. *)
Class WireLaws `{!Wire} := {
  Half : Type;
  tx : TransportState → Half;
  rx : TransportState → Half;
  left_in : Half → nat;
  ts_write_total t p : (0 < left_in (tx t))%nat → len p <= NOISE_MAX_PLAINTEXT → ∃ ct t', ts_write t p = Ok (ct, t');
  ts_write_spec t p ct t' : ts_write t p = Ok (ct, t') → len ct = len p + 16 ∧ rx t' = rx t ∧ left_in (tx t) = S (left_in (tx t'));
  ts_read_spec a b p ct a' :
    tx a = rx b → ts_write a p = Ok (ct, a') → ∃ b', ts_read b ct = Ok (p, b') ∧ rx b' = tx a' ∧ tx b' = tx b;
  (** The state to write next, and the other one, after [n] messages. *)
  hs_linked : nat → HandshakeState → HandshakeState → Prop;
  hs_start psk ki kr ri rr i r : hs_build true ki psk ri = Ok i → hs_build false kr psk rr = Ok r → hs_linked 0 i r;
  hs_turn n w o : hs_linked n w o → (n < 3)%nat →
    ∃ m w' o', hs_write w = Ok (m, w') ∧ len m <= 65535 ∧ hs_read o m = Ok o' ∧ hs_linked (S n) o' w';
  hs_end w o : hs_linked 3 w o →
    hs_hash w = hs_hash o ∧ ∃ tw to, hs_transport w = Ok tw ∧ hs_transport o = Ok to ∧ tx tw = rx to ∧ tx to = rx tw ∧
      (100 <= left_in (tx tw))%nat ∧ (100 <= left_in (tx to))%nat;
  kem_sizes : Z.of_nat EK_LEN <= 65535 ∧ Z.of_nat CT_LEN <= 65535;
  kem_keygen_spec r ek dk : kem_keygen r = Ok (ek, dk) → length ek = EK_LEN ∧ kem_ek_parses ek = Ok ();
  kem_encaps_spec r ek dk r' ss ct :
    kem_keygen r = Ok (ek, dk) → kem_encaps ek r' = Ok (ss, ct) → length ct = CT_LEN ∧ kem_ct_parses ct = Ok () ∧ kem_decaps dk ct = Ok ss;
  (** The decoder has a limit. *)
  de_ser_message m l : ser_message m = Some l → len l <= MAX_MESSAGE_BYTES → de_message l = Some m;
}.

(** ** Chunks *)

Lemma chunks_loop_spec fuel n l :
  (0 < n)%nat → (length l <= fuel)%nat →
  concat (chunks_loop fuel n l) = l ∧ Forall (λ c : bytes, c ≠ [] ∧ (length c <= n)%nat) (chunks_loop fuel n l).
Proof.
  intros Hn. revert l. induction fuel as [|fuel IH]; intros [|b l] Hl; [by split; [|constructor]|simpl in Hl; lia|by split; [|constructor]|].
  cbn [chunks_loop concat]. destruct (IH (drop n (b :: l))) as [Hc Hf]; [rewrite length_drop; simpl in *; lia|]. rewrite Hc, take_drop. split; [done|].
  constructor; [|done]. split; [by destruct n; [lia|]|rewrite length_take; lia].
Qed.
Lemma chunks_spec n l :
  0 < n → concat (chunks n l) = l ∧ Forall (λ c : bytes, c ≠ [] ∧ len c <= n) (chunks n l).
Proof.
  intros Hn. destruct (chunks_loop_spec (length l) (Z.to_nat n) l) as [Hc Hf]; [lia|done|]. split; [exact Hc|].
  eapply Forall_impl; [exact Hf|]. intros c [? ?]. split; [done|]. unfold len. lia.
Qed.
Lemma chunks_count n l : 0 < n → Z.of_nat (length (chunks n l)) * n < len l + n.
Proof.
  intros Hn. unfold chunks. assert (∀ fuel l, Z.of_nat (length (chunks_loop fuel (Z.to_nat n) l)) * n < len l + n) as Hg; [|apply Hg]. clear l.
  induction fuel as [|fuel IH]; intros [|b l]; cbn [chunks_loop length]; [change (len (@nil Z)) with 0; lia|pose proof (len_nonneg (b :: l)); lia|change (len (@nil Z)) with 0; lia|].
  specialize (IH (drop (Z.to_nat n) (b :: l))). assert (1 <= len (b :: l)) by (unfold len; simpl; lia). unfold len in *. rewrite length_drop in IH.
  rewrite Nat2Z.inj_succ. generalize dependent (Z.of_nat (length (chunks_loop fuel (Z.to_nat n) (drop (Z.to_nat n) (b :: l))))). intros c IH.
  destruct (Nat.le_gt_cases (Z.to_nat n) (length (b :: l))); [|assert (c <= 0) by nia; nia].
  rewrite Nat2Z.inj_sub in IH by done. rewrite Z2Nat.id in IH by lia. lia.
Qed.

(** ** Frames *)

Section frames.
Context `{!Crypto, !Wire}.

(** A length prefix and its payload. *)
Definition frame_of (l : bytes) : bytes := be_bytes 2 (len l) ++ l.

Lemma be_bytes_len n (l : bytes) : len l < 256 ^ Z.of_nat n → be_int (be_bytes n (len l)) = len l.
Proof. intros Hl. apply be_int_bytes. split; [apply len_nonneg|done]. Qed.
Lemma wrap_len w (l : bytes) : 0 <= w → len l <= umax w → wrap w (len l) = len l.
Proof. intros Hw Hl. apply wrap_small. split; [apply len_nonneg|done]. Qed.
Lemma length_frame_of l : length (frame_of l) = (2 + length l)%nat.
Proof. unfold frame_of. by rewrite length_app, length_be_bytes. Qed.

Lemma write_raw_frame_ok data i o r :
  len data <= 65535 → (length (frame_of data) <= r)%nat →
  write_raw_frame data {| st_in := i; st_out := o; st_room := r |} =
  (Ok (), {| st_in := i; st_out := o ++ frame_of data; st_room := r - length (frame_of data) |}).
Proof.
  intros Hl Hr. assert (∃ n, r = (length (frame_of data) + n)%nat) as [n ->] by (exists (r - length (frame_of data))%nat; lia).
  replace (length (frame_of data) + n - length (frame_of data))%nat with n by lia. unfold write_raw_frame. rewrite wrap_len by done. rewrite length_frame_of.
  replace (2 + length data + n)%nat with (length (be_bytes 2 (len data)) + (length data + n))%nat by (rewrite length_be_bytes; lia).
  erewrite io_bind_ok; [|apply write_all_ok]. rewrite write_all_ok. unfold frame_of. by rewrite <- app_assoc.
Qed.
Lemma read_raw_frame_ok data rest o n :
  len data <= 65535 →
  read_raw_frame {| st_in := frame_of data ++ rest; st_out := o; st_room := n |} = (Ok data, {| st_in := rest; st_out := o; st_room := n |}).
Proof.
  intros Hl. unfold read_raw_frame, frame_of. rewrite <- app_assoc. erewrite io_bind_ok; [|apply read_exact_ok; apply length_be_bytes].
  apply read_exact_ok. rewrite be_bytes_len by (change (256 ^ Z.of_nat 2) with 65536; lia). unfold len. by rewrite Nat2Z.id.
Qed.

Definition chan (i o : bytes) (n : nat) (t : TransportState) : Channel :=
  {| ch_stream := {| st_in := i; st_out := o; st_room := n |}; ch_transport := t |}.

Lemma write_enc_frame_ok p a ct a' i o n :
  ts_write a p = Ok (ct, a') → len ct <= 65535 →
  write_enc_frame p (chan i o (length (frame_of ct) + n) a) = (Ok (), chan i (o ++ frame_of ct) n a').
Proof.
  intros Hw Hl. unfold write_enc_frame, chan. erewrite io_bind_ok; [|unfold on_transport; cbn [ch_transport]; rewrite Hw; reflexivity].
  cbv beta. rewrite wrap_len by done. rewrite length_frame_of.
  replace (2 + length ct + n)%nat with (length (be_bytes 2 (len ct)) + (length ct + n))%nat by (rewrite length_be_bytes; lia).
  erewrite io_bind_ok; [|unfold on_stream; cbn [ch_stream]; rewrite write_all_ok; reflexivity]. cbv beta.
  unfold on_stream. cbn [ch_stream]. rewrite write_all_ok. unfold frame_of. by rewrite <- app_assoc.
Qed.
Lemma read_enc_frame_ok p b ct b' rest o n :
  ts_read b ct = Ok (p, b') → len ct <= 65535 → read_enc_frame (chan (frame_of ct ++ rest) o n b) = (Ok p, chan rest o n b').
Proof.
  intros Hr Hl. unfold read_enc_frame, chan, frame_of. rewrite <- app_assoc.
  erewrite io_bind_ok; [|unfold on_stream; cbn [ch_stream]; rewrite read_exact_ok by apply length_be_bytes; reflexivity]. cbv beta.
  erewrite io_bind_ok.
  2: { unfold on_stream. cbn [ch_stream]. rewrite read_exact_ok; [reflexivity|]. rewrite be_bytes_len by (change (256 ^ Z.of_nat 2) with 65536; lia).
       unfold len. by rewrite Nat2Z.id. }
  unfold on_transport. cbn [ch_transport ch_stream]. by rewrite Hr.
Qed.
(** A frame that was read was there: at least its length prefix is gone. *)
Lemma read_enc_frame_consumes c p c' :
  read_enc_frame c = (Ok p, c') → (length (st_in (ch_stream c')) + 2 <= length (st_in (ch_stream c)))%nat.
Proof.
  unfold read_enc_frame. intros Hr. io_step Hr lb c1 H1. io_step Hr ct c2 H2. unfold on_stream in H1, H2. unfold on_transport in Hr.
  destruct (read_exact 2 (ch_stream c)) as [r1 s1] eqn:E1. injection H1 as -> <-. cbn [ch_stream] in H2.
  destruct (read_exact (Z.to_nat (be_int lb)) s1) as [r2 s2] eqn:E2. injection H2 as -> <-. cbn [ch_stream ch_transport] in Hr.
  destruct (ts_read (ch_transport c) ct) as [[q t]|e]; [|done]. injection Hr as -> <-. cbn [ch_stream].
  apply read_exact_inv in E1 as (Hl1 & -> & _). apply read_exact_inv in E2 as (Hl2 & -> & _). rewrite !length_app. lia.
Qed.

(** Any fuel above the input is the same: the loop returns. *)
Lemma read_chunks_enough f1 f2 total out c :
  (length (st_in (ch_stream c)) < f1)%nat → (length (st_in (ch_stream c)) < f2)%nat → read_chunks f1 total out c = read_chunks f2 total out c.
Proof.
  revert f2 out c. induction f1 as [|f1 IH]; intros [|f2] out c H1 H2; try lia. cbn [read_chunks]. destruct (negb (len out <? total)); [done|].
  unfold mbind, se_bind. destruct (read_enc_frame c) as [[p|e] c'] eqn:Hr; [|done]. case_bool_decide; [done|]. cbv zeta. destruct (total <? _); [done|].
  apply read_enc_frame_consumes in Hr. apply IH; lia.
Qed.
Lemma read_chunks_len fuel total out c l c' : len out <= total → read_chunks fuel total out c = (Ok l, c') → len l = total.
Proof.
  revert out c. induction fuel as [|fuel IH]; intros out c Hle; cbn [read_chunks]; destruct (Z.ltb_spec (len out) total) as [Hlt|Hge]; cbn [negb].
  1,3: try done. 2,3: intros [= <- _]; lia.
  intros Hr. io_step Hr p c1 Hp. case_bool_decide; [done|]. cbv zeta in Hr. destruct (Z.ltb_spec total (len (out ++ p))); [done|]. by eapply IH.
Qed.
(** Whatever a peer sends, a received message is within the limit. *)
Theorem noise_read_bounded c l c' : noise_read c = (Ok l, c') → len l <= MAX_MESSAGE_BYTES.
Proof.
  unfold noise_read. intros Hr. io_step Hr h c1 Hh. destruct (negb (len h =? 4)); [done|]. cbv zeta in Hr.
  destruct (Z.ltb_spec MAX_MESSAGE_BYTES (be_int h)); [done|]. destruct (Z.le_gt_cases 0 (be_int h)).
  - apply read_chunks_len in Hr; [lia|done].
  - cbn [read_chunks] in Hr. rewrite (proj2 (Z.ltb_ge _ _)) in Hr by (change (len (@nil Z)) with 0; lia). injection Hr as <- _. change (len (@nil Z)) with 0.
    unfold MAX_MESSAGE_BYTES. vm_compute. discriminate.
Qed.
End frames.

(** ** Messages *)

Section messages.
Context `{!Crypto, !Wire, !WireLaws}.

(** The wire form of a sequence of plaintexts. *)
Fixpoint seal (a : TransportState) (ps : list bytes) : result (bytes * TransportState) :=
  match ps with
  | [] => Ok ([], a)
  | p :: ps => '(ct, a) ← ts_write a p; '(w, a) ← seal a ps; Ok (frame_of ct ++ w, a)
  end.
Definition frames_of (payload : bytes) : list bytes := be_bytes 4 (len payload) :: chunks NOISE_MAX_PLAINTEXT payload.

Lemma seal_cons a p ps ct a1 w a2 : ts_write a p = Ok (ct, a1) → seal a1 ps = Ok (w, a2) → seal a (p :: ps) = Ok (frame_of ct ++ w, a2).
Proof. intros Hw Hs. cbn [seal]. rewrite Hw. cbn [mbind result_bind]. by rewrite Hs. Qed.
Lemma seal_total a ps :
  (length ps <= left_in (tx a))%nat → Forall (λ p, len p <= NOISE_MAX_PLAINTEXT) ps →
  ∃ w a', seal a ps = Ok (w, a') ∧ rx a' = rx a ∧ left_in (tx a) = (length ps + left_in (tx a'))%nat.
Proof.
  intros Hl Hf. revert a Hl. induction Hf as [|p ps Hp _ IH]; intros a Hl; [by exists [], a|]. cbn [length] in Hl.
  destruct (ts_write_total a p) as (ct & a1 & Hw); [lia|done|]. destruct (ts_write_spec _ _ _ _ Hw) as (_ & Hrx & Hn).
  destruct (IH a1) as (w & a2 & Hs & Hrx2 & Hn2); [lia|]. exists (frame_of ct ++ w), a2. split; [by eapply seal_cons|]. split; [congruence|]. simpl. lia.
Qed.
Lemma seal_inv a p ps w a' :
  seal a (p :: ps) = Ok (w, a') → ∃ ct a1 w1, ts_write a p = Ok (ct, a1) ∧ seal a1 ps = Ok (w1, a') ∧ w = frame_of ct ++ w1.
Proof.
  cbn [seal]. destruct (ts_write a p) as [[ct a1]|]; [|done]. cbn [mbind result_bind]. destruct (seal a1 ps) as [[w1 a2]|] eqn:Hs; [|done].
  cbn [mbind result_bind]. intros [= <- <-]. by exists ct, a1, w1.
Qed.
Lemma ct_fits a p ct a' : ts_write a p = Ok (ct, a') → len p <= NOISE_MAX_PLAINTEXT → len ct <= 65535.
Proof. intros (Hl & _)%ts_write_spec. unfold NOISE_MAX_PLAINTEXT. lia. Qed.

Lemma write_frames_ok ps a w a' i o n :
  seal a ps = Ok (w, a') → Forall (λ p, len p <= NOISE_MAX_PLAINTEXT) ps →
  write_frames ps (chan i o (length w + n) a) = (Ok (), chan i (o ++ w) n a').
Proof.
  intros Hs Hf. revert a w o Hs. induction Hf as [|p ps Hp _ IH]; intros a w o Hs; [injection Hs as <- <-; by rewrite app_nil_r|].
  apply seal_inv in Hs as (ct & a1 & w1 & Hw & Hs & ->). cbn [write_frames]. rewrite length_app, <- Nat.add_assoc.
  erewrite io_bind_ok; [|by apply write_enc_frame_ok; [|eapply ct_fits]]. cbv beta. rewrite (IH _ _ _ Hs). by rewrite <- app_assoc.
Qed.
Lemma noise_write_frames payload c : len payload <= MAX_MESSAGE_BYTES → noise_write payload c = write_frames (frames_of payload) c.
Proof.
  intros Hl. unfold noise_write. rewrite (proj2 (Z.ltb_ge _ _)) by done. rewrite wrap_len; [done|done|].
  etrans; [exact Hl|]. vm_compute. discriminate.
Qed.

Lemma read_frame_of a b p ps w a' :
  seal a (p :: ps) = Ok (w, a') → tx a = rx b → len p <= NOISE_MAX_PLAINTEXT →
  ∃ a1 w1 b1, seal a1 ps = Ok (w1, a') ∧ tx a1 = rx b1 ∧ tx b1 = tx b ∧ (length w1 + 2 <= length w)%nat ∧
    ∀ rest o n, read_enc_frame (chan (w ++ rest) o n b) = (Ok p, chan (w1 ++ rest) o n b1).
Proof.
  intros Hs Hab Hp. apply seal_inv in Hs as (ct & a1 & w1 & Hw & Hs & ->). destruct (ts_read_spec _ _ _ _ _ Hab Hw) as (b1 & Hr & Hrx & Htx).
  exists a1, w1, b1. split_and!; [done|done|done|rewrite length_app, length_frame_of; lia|].
  intros rest o n. rewrite <- app_assoc. apply read_enc_frame_ok; [done|by eapply ct_fits].
Qed.
Lemma read_chunks_ok ps a b w a' :
  seal a ps = Ok (w, a') → tx a = rx b → Forall (λ p : bytes, p ≠ [] ∧ len p <= NOISE_MAX_PLAINTEXT) ps →
  ∃ b', tx a' = rx b' ∧ tx b' = tx b ∧ ∀ rest o n fuel out total, len out + len (concat ps) = total → (length w < fuel)%nat →
    read_chunks fuel total out (chan (w ++ rest) o n b) = (Ok (out ++ concat ps), chan rest o n b').
Proof.
  intros Hs Hab Hf. revert a b w Hs Hab. induction Hf as [|p ps [Hne Hp] Hf IH]; intros a b w Hs Hab.
  - injection Hs as <- <-. exists b. split; [done|]. split; [done|]. intros rest o n fuel out total Htot Hfuel. cbn [concat] in *.
    change (len (@nil Z)) with 0 in Htot. rewrite app_nil_r. destruct fuel; cbn [read_chunks]; rewrite (proj2 (Z.ltb_ge _ _)) by lia; done.
  - destruct (read_frame_of _ b _ _ _ _ Hs Hab Hp) as (a1 & w1 & b1 & Hs1 & Hab1 & Htx1 & Hlen & Hr).
    destruct (IH a1 b1 w1 Hs1 Hab1) as (b' & Hx & Hy & Hgo). exists b'. split; [done|]. split; [congruence|].
    intros rest o n fuel out total Htot Hfuel. cbn [concat] in *.
    assert (len (p ++ concat ps) = len p + len (concat ps)) as Hap by (unfold len; rewrite length_app; lia).
    assert (0 < len p) by (unfold len; destruct p; [done|simpl; lia]). pose proof (len_nonneg (concat ps)).
    destruct fuel as [|fuel]; [lia|]. cbn [read_chunks]. rewrite (proj2 (Z.ltb_lt _ _)) by lia. cbn [negb].
    erewrite io_bind_ok; [|apply Hr]. rewrite bool_decide_eq_false_2 by done. cbv zeta.
    assert (len (out ++ p) = len out + len p) as Hop by (unfold len; rewrite length_app; lia). rewrite (proj2 (Z.ltb_ge _ _)) by lia.
    rewrite Hgo by lia. by rewrite <- app_assoc.
Qed.

Lemma message_sent payload a :
  len payload <= MAX_MESSAGE_BYTES → (length (frames_of payload) <= left_in (tx a))%nat →
  ∃ w a', (∀ i o n, noise_write payload (chan i o (length w + n) a) = (Ok (), chan i (o ++ w) n a')) ∧
    rx a' = rx a ∧ left_in (tx a) = (length (frames_of payload) + left_in (tx a'))%nat ∧
    ∀ b, tx a = rx b → ∃ b', tx a' = rx b' ∧ tx b' = tx b ∧
      ∀ rest o n, noise_read (chan (w ++ rest) o n b) = (Ok payload, chan rest o n b').
Proof.
  intros Hl Hleft. destruct (chunks_spec NOISE_MAX_PLAINTEXT payload eq_refl) as [Hcat Hch].
  assert (len (be_bytes 4 (len payload)) = 4) as H4 by (unfold len at 1; by rewrite length_be_bytes).
  assert (Forall (λ p, len p <= NOISE_MAX_PLAINTEXT) (frames_of payload)) as Hfit.
  { constructor; [by rewrite H4|]. eapply Forall_impl; [exact Hch|]. by intros ? []. }
  destruct (seal_total a _ Hleft Hfit) as (w & a' & Hs & Hrx & Hn). exists w, a'.
  split; [intros i o n; rewrite noise_write_frames by done; by apply write_frames_ok|]. split; [done|]. split; [done|]. intros b Hab.
  destruct (read_frame_of a b _ _ w a' Hs Hab) as (a1 & w1 & b1 & Hs1 & Hab1 & Htx1 & Hlen & Hr); [by rewrite H4|].
  destruct (read_chunks_ok _ _ b1 _ _ Hs1 Hab1 Hch) as (b' & Hx & Hy & Hgo). exists b'. split; [done|]. split; [congruence|].
  intros rest o n. unfold noise_read. cbn [chan ch_stream st_in]. erewrite io_bind_ok; [|apply Hr]. rewrite H4. cbn [Z.eqb Pos.eqb negb]. cbv zeta.
  rewrite be_bytes_len by (apply (Z.le_lt_trans _ _ _ Hl); vm_compute; reflexivity). rewrite (proj2 (Z.ltb_ge _ _)) by done.
  rewrite Hgo; [by rewrite Hcat|by rewrite Hcat|]. rewrite length_app. lia.
Qed.
Lemma frames_few payload : len payload <= MAX_MESSAGE_BYTES → (length (frames_of payload) <= 6)%nat.
Proof.
  intros Hl. unfold frames_of. cbn [length]. pose proof (chunks_count NOISE_MAX_PLAINTEXT payload eq_refl) as Hc.
  change MAX_MESSAGE_BYTES with 278528 in Hl. unfold NOISE_MAX_PLAINTEXT in *. lia.
Qed.

(** Messages sent and received in turn. *)
Fixpoint sends (l : list bytes) : SE Channel () :=
  match l with [] => mret () | payload :: l => _ ← noise_write payload; sends l end.
Fixpoint receives (n : nat) : SE Channel (list bytes) :=
  match n with O => mret [] | S n => m ← noise_read; l ← receives n; mret (m :: l) end.

(** C37. What is written on one side of a channel is read on the other: every sequence of
    messages within the limit arrives unchanged and in order, however it was chunked and
    whatever follows it on the wire, and the two sides stay in step.  Six cipher messages
    are enough for each. *)
Theorem message_roundtrip payloads a b :
  Forall (λ p, len p <= MAX_MESSAGE_BYTES) payloads → tx a = rx b → (6 * length payloads <= left_in (tx a))%nat →
  ∃ w a' b',
    (∀ i o n, sends payloads (chan i o (length w + n) a) = (Ok (), chan i (o ++ w) n a')) ∧
    (∀ rest o n, receives (length payloads) (chan (w ++ rest) o n b) = (Ok payloads, chan rest o n b')) ∧
    tx a' = rx b' ∧ rx a' = rx a ∧ tx b' = tx b.
Proof.
  intros Hf. revert a b. induction Hf as [|p ps Hp _ IH]; intros a b Hab Hleft.
  { exists [], a, b. split_and!; [|done..]. intros i o n. by rewrite app_nil_r. }
  cbn [length] in Hleft. pose proof (frames_few p Hp). destruct (message_sent p a Hp) as (w & a1 & Hw & Hrx & Hn & Hread); [lia|].
  destruct (Hread b Hab) as (b1 & Hab1 & Htx & Hr). destruct (IH a1 b1 Hab1) as (w2 & a2 & b2 & Hw2 & Hr2 & Hab2 & Hrx2 & Htx2); [lia|].
  exists (w ++ w2), a2, b2. split_and!; [| |done|congruence|congruence].
  - intros i o n. cbn [sends]. rewrite length_app, <- Nat.add_assoc. erewrite io_bind_ok; [|apply Hw]. cbv beta. rewrite Hw2. by rewrite <- app_assoc.
  - intros rest o n. cbn [receives length]. rewrite <- app_assoc. erewrite io_bind_ok; [|apply Hr]. cbv beta. erewrite io_bind_ok; [|apply Hr2]. done.
Qed.
End messages.

(** ** Sessions *)

Section sessions.
Context `{!Crypto, !Wire, !WireLaws}.

(** Two transport states that talk to each other. *)
Definition matched (a b : TransportState) : Prop := tx a = rx b ∧ tx b = rx a.

Ltac raw_step := first
  [ erewrite io_bind_ok; [|apply read_raw_frame_ok; lia]
  | erewrite io_bind_ok; [|apply write_raw_frame_ok; lia]
  | erewrite io_bind_ok; [|reflexivity] ]; cbv beta iota.

(** What one side computes and what it puts on the wire. *)
Lemma mlkem_agrees r1 ek dk r2 ss ct :
  kem_keygen r1 = Ok (ek, dk) → kem_encaps ek r2 = Ok (ss, ct) →
  (∀ rest o r, (length (frame_of ek) <= r)%nat →
     mlkem_shared_secret true r1 {| st_in := frame_of ct ++ rest; st_out := o; st_room := r |} =
     (Ok ss, {| st_in := rest; st_out := o ++ frame_of ek; st_room := r - length (frame_of ek) |})) ∧
  (∀ rest o r, (length (frame_of ct) <= r)%nat →
     mlkem_shared_secret false r2 {| st_in := frame_of ek ++ rest; st_out := o; st_room := r |} =
     (Ok ss, {| st_in := rest; st_out := o ++ frame_of ct; st_room := r - length (frame_of ct) |})).
Proof.
  intros Hk He. destruct (kem_keygen_spec _ _ _ Hk) as [Hle Hpe]. destruct (kem_encaps_spec _ _ _ _ _ _ Hk He) as (Hlc & Hpc & Hd).
  pose proof kem_sizes as [Hek Hct]. assert (len ek <= 65535) by (unfold len; lia). assert (len ct <= 65535) by (unfold len; lia).
  split; intros rest o r Hr; unfold mlkem_shared_secret.
  - rewrite Hk. raw_step. raw_step. raw_step. rewrite (proj2 (Nat.eqb_eq _ _) Hlc), Hpc. cbn [negb]. raw_step. by rewrite Hd.
  - raw_step. rewrite (proj2 (Nat.eqb_eq _ _) Hle), Hpe. cbn [negb]. raw_step. rewrite He. raw_step. raw_step. done.
Qed.

(** The randomness of both sides makes the third-party calls succeed. *)
Record handshake_ready (k1 k2 : Keys) (r1 r2 : Rand) : Prop := {
  hr_kem : ∃ ek dk ss ct, kem_keygen (rand_kem r1) = Ok (ek, dk) ∧ kem_encaps ek (rand_kem r2) = Ok (ss, ct) ∧
    is_ok (hs_build true (noise_private k1) ss (rand_noise r1)) = true ∧ is_ok (hs_build false (noise_private k2) ss (rand_noise r2)) = true;
}.
Lemma handshake_agrees k1 k2 r1 r2 :
  handshake_ready k1 k2 r1 r2 →
  ∃ w1 w2 t1 t2 h,
    (∀ rest o n, noise_handshake true (noise_private k1) (rand_kem r1) (rand_noise r1) {| st_in := w2 ++ rest; st_out := o; st_room := length w1 + n |} =
       (Ok (t1, h), {| st_in := rest; st_out := o ++ w1; st_room := n |})) ∧
    (∀ rest o n, noise_handshake false (noise_private k2) (rand_kem r2) (rand_noise r2) {| st_in := w1 ++ rest; st_out := o; st_room := length w2 + n |} =
       (Ok (t2, h), {| st_in := rest; st_out := o ++ w2; st_room := n |})) ∧
    matched t1 t2 ∧ (100 <= left_in (tx t1))%nat ∧ (100 <= left_in (tx t2))%nat.
Proof.
  intros [(ek & dk & ss & ct & Hk & He & [hi Hi]%ok_exists & [hr Hr]%ok_exists)]. destruct (mlkem_agrees _ _ _ _ _ _ Hk He) as [Hm1 Hm2].
  pose proof (hs_start _ _ _ _ _ _ _ Hi Hr) as L0. destruct (hs_turn _ _ _ L0) as (m1 & hi1 & hr1 & Hw1 & Hl1 & Hr1 & L1); [lia|].
  destruct (hs_turn _ _ _ L1) as (m2 & hr2 & hi2 & Hw2 & Hl2 & Hr2 & L2); [lia|].
  destruct (hs_turn _ _ _ L2) as (m3 & hi3 & hr3 & Hw3 & Hl3 & Hr3 & L3); [lia|].
  destruct (hs_end _ _ L3) as (Hh & t2 & t1 & Ht2 & Ht1 & H21 & H12 & Hn2 & Hn1).
  exists (frame_of ek ++ frame_of m1 ++ frame_of m3), (frame_of ct ++ frame_of m2), t1, t2, (hs_hash hr3). split_and!; [| |done|done|done].
  - intros rest o n. unfold noise_handshake. rewrite <- app_assoc. rewrite !length_app.
    erewrite io_bind_ok; [|apply Hm1; lia]. cbv beta. rewrite Hi. raw_step. rewrite Hw1.
    erewrite io_bind_ok.
    2: { raw_step. raw_step. raw_step. rewrite Hr2. raw_step. rewrite Hw3. raw_step. raw_step. reflexivity. }
    cbv beta zeta. rewrite Ht1. raw_step. rewrite <- Hh. unfold mret, se_ret. do 2 f_equal; [by rewrite <- !app_assoc|lia].
  - intros rest o n. unfold noise_handshake. rewrite <- !app_assoc. rewrite !length_app.
    erewrite io_bind_ok; [|apply Hm2; lia]. cbv beta. rewrite Hr. raw_step.
    erewrite io_bind_ok.
    2: { raw_step. rewrite Hr1. raw_step. rewrite Hw2. raw_step. raw_step. raw_step. rewrite Hr3. reflexivity. }
    cbv beta zeta. rewrite Ht2. raw_step. unfold mret, se_ret. do 2 f_equal; [by rewrite <- !app_assoc|lia].
Qed.

(** A node whose signatures verify under its public key and whose identity fits a message. *)
Definition identity_message (k : Keys) (rng h l : bytes) : Prop :=
  ∃ sig, sign_pq512 p2p_identity h (identity_secret k) rng = Ok sig ∧ verify_pq512 p2p_identity h (identity_public k) sig = true ∧
    ser_message (MIdentity (identity_public k) sig) = Some l ∧ len l <= MAX_MESSAGE_BYTES.
Definition honest (k : Keys) (rng : bytes) : Prop := ∀ h, ∃ l, identity_message k rng h l.

Lemma identity_sent a l : len l <= MAX_MESSAGE_BYTES → (100 <= left_in (tx a))%nat →
  ∃ w a', (∀ i o n, noise_write l (chan i o (length w + n) a) = (Ok (), chan i (o ++ w) n a')) ∧ rx a' = rx a ∧
    ∀ b, tx a = rx b → ∃ b', tx a' = rx b' ∧ tx b' = tx b ∧ ∀ rest o n, noise_read (chan (w ++ rest) o n b) = (Ok l, chan rest o n b').
Proof.
  intros Hl Hn. pose proof (frames_few l Hl). destruct (message_sent l a Hl) as (w & a' & Hw & Hrx & _ & Hread); [lia|]. by exists w, a'.
Qed.
Lemma authenticate_ok d k rng h dialed l pk sig' l' a a1 a2 w w' rest o n :
  identity_message k rng h l → de_message l' = Some (MIdentity pk sig') → verify_pq512 p2p_identity h pk sig' = true →
  check_peer_identity d pk dialed = Ok () →
  (∀ i o n, noise_write l (chan i o (length w + n) a) = (Ok (), chan i (o ++ w) n a1)) →
  (∀ rest o n, noise_read (chan (w' ++ rest) o n a1) = (Ok l', chan rest o n a2)) →
  pq_authenticate d (identity_secret k) (identity_public k) rng h dialed (chan (w' ++ rest) o (length w + n) a) = (true, chan rest (o ++ w) n a2).
Proof.
  intros (sig & Hsig & _ & Hser & _) Hde Hver Hpin Hw Hr. unfold pq_authenticate. rewrite Hsig. unfold send_message. rewrite Hser, Hw. cbn [snd].
  rewrite Hr, Hde, Hver. cbn [negb]. by rewrite Hpin.
Qed.
Lemma identity_message_read k rng h l : identity_message k rng h l →
  ∃ sig, de_message l = Some (MIdentity (identity_public k) sig) ∧ verify_pq512 p2p_identity h (identity_public k) sig = true.
Proof. intros (sig & _ & Hv & Hs & Hl). exists sig. split; [by apply de_ser_message|done]. Qed.

(** C31. Two honest nodes connect.  Assumed: the random draws give usable keys, each node's
    identity signature verifies under its own key and fits a message, and the pins of each node
    accept the other's public key.  Then the dialler and the listener both finish the
    handshake and derive the same channel binding [h], over which each verifies the other's
    signature, so both keep the connection; their channels are then in step, with everything
    that was sent after the exchange still to be read. *)
Theorem session_established d1 d2 k1 k2 r1 r2 addr :
  handshake_ready k1 k2 r1 r2 → honest k1 (rand_sign r1) → honest k2 (rand_sign r2) →
  check_peer_identity d1 (identity_public k2) (Some addr) = Ok () → check_peer_identity d2 (identity_public k1) None = Ok () →
  ∃ w1 w2 t1 t2 a b h, matched t1 t2 ∧
    (∀ rest o n, let s := {| st_in := w2 ++ rest; st_out := o; st_room := length w1 + n |} in
       (∃ s', noise_handshake true (noise_private k1) (rand_kem r1) (rand_noise r1) s = (Ok (a, h), s')) ∧
       establish d1 k1 r1 (Some addr) s = Some (chan rest (o ++ w1) n t1)) ∧
    (∀ rest o n, let s := {| st_in := w1 ++ rest; st_out := o; st_room := length w2 + n |} in
       (∃ s', noise_handshake false (noise_private k2) (rand_kem r2) (rand_noise r2) s = (Ok (b, h), s')) ∧
       establish d2 k2 r2 None s = Some (chan rest (o ++ w2) n t2)).
Proof.
  intros Hready Hh1 Hh2 Hp1 Hp2. destruct (handshake_agrees _ _ _ _ Hready) as (w1 & w2 & a & b & h & Hs1 & Hs2 & [Hab Hba] & Hna & Hnb).
  destruct (Hh1 h) as [l1 Hl1]. destruct (Hh2 h) as [l2 Hl2]. pose proof Hl1 as (_ & _ & _ & _ & Hf1). pose proof Hl2 as (_ & _ & _ & _ & Hf2).
  destruct (identity_message_read _ _ _ _ Hl1) as (g1 & Hd1 & Hv1). destruct (identity_message_read _ _ _ _ Hl2) as (g2 & Hd2 & Hv2).
  destruct (identity_sent a l1 Hf1 Hna) as (v1 & a1 & Hwa & Hrxa & Hra). destruct (identity_sent b l2 Hf2 Hnb) as (v2 & b1 & Hwb & Hrxb & Hrb).
  destruct (Hra b1) as (b2 & Hx1 & Hx2 & Hread2); [congruence|]. destruct (Hrb a1) as (a2 & Hy1 & Hy2 & Hread1); [congruence|].
  exists (w1 ++ v1), (w2 ++ v2), a2, b2, a, b, h. split; [split; congruence|]. split; intros rest o n; cbv zeta; unfold establish.
  - rewrite bool_decide_eq_true_2 by (by eexists). rewrite length_app, <- app_assoc, <- Nat.add_assoc, Hs1. split; [by eexists|].
    pose proof (authenticate_ok d1 k1 _ h _ l1 _ g2 l2 a a1 a2 v1 v2 rest (o ++ w1) n Hl1 Hd2 Hv2 Hp1 Hwa Hread1) as Hau. unfold chan in Hau at 1. rewrite Hau. by rewrite <- app_assoc.
  - rewrite bool_decide_eq_false_2 by (by intros [? ?]). rewrite length_app, <- app_assoc, <- Nat.add_assoc, Hs2. split; [by eexists|].
    pose proof (authenticate_ok d2 k2 _ h _ l2 _ g1 l1 b b1 b2 v2 v1 rest (o ++ w2) n Hl2 Hd1 Hv1 Hp2 Hwb Hread2) as Hau. unfold chan in Hau at 1. rewrite Hau. by rewrite <- app_assoc.
Qed.

(** A connection is only kept when the peer's first message was an identity whose signature
    over this session's handshake hash verifies and whose key the pins accept. *)
Theorem established_authenticated d k r dialed s c :
  establish d k r dialed s = Some c →
  ∃ transport h s1 c1 plaintext pubkey signature,
    noise_handshake (bool_decide (is_Some dialed)) (noise_private k) (rand_kem r) (rand_noise r) s = (Ok (transport, h), s1) ∧
    noise_read c1 = (Ok plaintext, c) ∧ de_message plaintext = Some (MIdentity pubkey signature) ∧
    verify_pq512 p2p_identity h pubkey signature = true ∧ check_peer_identity d pubkey dialed = Ok ().
Proof.
  unfold establish. destruct (noise_handshake _ _ _ _ s) as [[[t h]|e] s1]; [|done]. unfold pq_authenticate.
  destruct (sign_pq512 _ _ _ _) as [sig|]; [|done].
  destruct (noise_read (send_message (MIdentity (identity_public k) sig) {| ch_stream := s1; ch_transport := t |})) as [[pt|e] c1] eqn:Hr; [|done].
  destruct (de_message pt) as [[]|] eqn:Hd; try done. destruct (verify_pq512 p2p_identity h pubkey signature) eqn:Hv; [|done]. cbn [negb].
  destruct (check_peer_identity d pubkey dialed) as [[]|] eqn:Hp; [|done]. cbn [is_ok]. intros [= <-]. by eexists t, h, s1, _, pt, pubkey, signature.
Qed.

(** The signature does not say who speaks: a peer without any identity key that sends back the
    identity message it was sent is accepted, whenever the pins accept the node's own key. *)
Theorem reflected_identity d k rng h dialed l a b :
  identity_message k rng h l → check_peer_identity d (identity_public k) dialed = Ok () →
  matched a b → (100 <= left_in (tx a))%nat → (100 <= left_in (tx b))%nat →
  ∃ w w' a' b',
    (∀ rest o n, noise_write l (chan rest o (length w' + n) b) = (Ok (), chan rest (o ++ w') n b')) ∧
    (∀ rest o n, pq_authenticate d (identity_secret k) (identity_public k) rng h dialed (chan (w' ++ rest) o (length w + n) a) =
       (true, chan rest (o ++ w) n a')).
Proof.
  intros Hl Hp [Hab Hba] Hna Hnb. pose proof Hl as (_ & _ & _ & _ & Hf). destruct (identity_message_read _ _ _ _ Hl) as (g & Hd & Hv).
  destruct (identity_sent a l Hf Hna) as (w & a1 & Hwa & Hrxa & _). destruct (identity_sent b l Hf Hnb) as (w' & b1 & Hwb & _ & Hrb).
  destruct (Hrb a1) as (a2 & _ & _ & Hread); [congruence|]. exists w, w', a2, b1. split; [done|]. intros rest o n. by eapply authenticate_ok.
Qed.

(** A node keeps its identity: the file written at the first start is what every later start
    loads, as long as its permissions stay private. *)
Theorem identity_reload fresh fresh' k file mode writes :
  length (noise_private fresh) = 32%nat → length (identity_secret fresh) = SK_LEN → length (identity_public fresh) = PK_LEN →
  load_or_create_identity true None fresh true = (k, file) →
  k = fresh ∧ ∃ l, file = Some (OWNER_ONLY, l) ∧
    (Z.land (Z.land mode 511) 63 = 0 → load_or_create_identity true (Some (mode, l)) fresh' writes = (fresh, Some (mode, l))) ∧
    (Z.land (Z.land mode 511) 63 ≠ 0 → load_or_create_identity true (Some (mode, l)) fresh' writes = (fresh', Some (mode, l))).
Proof.
  intros Hn Hs Hp [= <- <-]. split; [done|]. exists (identity_bytes fresh). split; [done|]. unfold load_or_create_identity. cbn [negb].
  assert (len (identity_bytes fresh) = IDENTITY_LEN) as Hl.
  { unfold identity_bytes, IDENTITY_LEN, PQ_SECRET_KEY_SIZE, PQ_PUBLIC_KEY_SIZE, len. rewrite !length_app. lia. }
  split; intros Hm; [rewrite (proj2 (Z.eqb_eq _ _) Hm)|rewrite (proj2 (Z.eqb_neq _ _) Hm); done]. cbn [negb].
  rewrite Hl, Z.leb_refl. f_equal. unfold parse_identity, identity_bytes. destruct fresh as [np isec ip]. cbn [noise_private identity_secret identity_public] in *.
  rewrite take_app_length', drop_app_length' by done. rewrite take_app_length' by done.
  rewrite app_assoc, drop_app_length' by (rewrite length_app; lia). by rewrite (firstn_all2 ip) by lia.
Qed.
End sessions.

(** ** Example: a toy cipher, and two nodes that connect

    A half is a key and the number of messages left; a ciphertext is the plaintext with a
    tag of sixteen copies of that number. *)
Module WireExample.
Abbreviation ToyHalf := (Z * nat)%type (only parsing).
Definition toy_write (t : ToyHalf * ToyHalf) (p : bytes) : result (bytes * (ToyHalf * ToyHalf)) :=
  let '(k, n, r) := t in
  match n with
  | O => Err "exhausted"
  | S n' => Ok (p ++ replicate 16 (Z.of_nat n), (k, n', r))
  end.
Definition toy_read (t : ToyHalf * ToyHalf) (ct : bytes) : result (bytes * (ToyHalf * ToyHalf)) :=
  let '(s, (k, n)) := t in
  let body := take (length ct - 16) ct in
  match n with
  | O => Err "exhausted"
  | S n' => if bool_decide (ct = body ++ replicate 16 (Z.of_nat n)) then Ok (body, (s, (k, n'))) else Err "decrypt"
  end.
(** A handshake state is its role and the number of messages seen. *)
Definition toy_hs_read (h : bool * nat) (m : bytes) : result (bool * nat) :=
  if bool_decide (m = [Z.of_nat h.2]) then Ok (h.1, S h.2) else Err "handshake".
Definition toy_transport (h : bool * nat) : ToyHalf * ToyHalf := if h.1 then (1, 200%nat, (2, 200%nat)) else (2, 200%nat, (1, 200%nat)).
Definition toy_ser (m : Message) : option bytes :=
  match m with MIdentity [a; b] sig => Some (a :: b :: sig) | _ => None end.
Definition toy_de (l : bytes) : option Message :=
  match l with a :: b :: sig => Some (MIdentity [a; b] sig) | _ => None end.
#[export] Instance toy_wire : Wire := {|
  TransportState := ToyHalf * ToyHalf; ts_write := toy_write; ts_read := toy_read;
  HandshakeState := bool * nat; hs_build b _ _ _ := Ok (b, 0%nat);
  hs_write h := Ok ([Z.of_nat h.2], (h.1, S h.2)); hs_read := toy_hs_read; hs_hash _ := [7]; hs_transport h := Ok (toy_transport h);
  EK_LEN := 2; CT_LEN := 3; kem_keygen _ := Ok ([1; 2], [3]); kem_ek_parses _ := Ok (); kem_ct_parses _ := Ok ();
  kem_encaps _ _ := Ok ([9], [4; 5; 6]); kem_decaps _ _ := Ok [9];
  ser_message := toy_ser; de_message := toy_de |}.

Lemma toy_read_write s k n r n' k' p ct t' :
  toy_write (k, n, r) p = Ok (ct, t') → (k', n') = (k, n) → ∃ b', toy_read (s, (k', n')) ct = Ok (p, b') ∧ b'.2 = t'.1 ∧ b'.1 = s.
Proof.
  intros Hw [= -> ->]. destruct n as [|n]; [done|]. unfold toy_write in Hw.
  assert (ct = p ++ replicate 16 (Z.of_nat (S n)) ∧ t' = (k, n, r)) as [-> ->] by (split; congruence).
  unfold toy_read. rewrite length_app, length_replicate. replace (length p + 16 - 16)%nat with (length p) by lia.
  rewrite take_app_length, bool_decide_eq_true_2 by done. by eexists.
Qed.
#[export] Instance toy_wire_laws : WireLaws.
Proof.
  refine {| Half := ToyHalf; tx := (fst : TransportState → ToyHalf); rx := (snd : TransportState → ToyHalf); left_in := snd;
            hs_linked n w o := w.2 = n ∧ o.2 = n ∧ w.1 = Nat.even n ∧ o.1 = negb (Nat.even n) |}.
  - intros [[k [|n]] r] p Hn _; [simpl in Hn; lia|]. by do 2 eexists.
  - intros [[k [|n]] r] p ct t' Hw; [done|]. injection Hw as <- <-. split_and!; [unfold len; rewrite length_app; simpl; lia|done|done].
  - intros [[k n] r] [s [k' n']] p ct a' Hab Hw. cbn [fst snd] in Hab. destruct (toy_read_write s k n r n' k' p ct a' Hw) as (b' & Hr & Hx & Hy); [by symmetry|].
    exists b'. by split_and!.
  - intros psk ki kr ri rr i r [= <-] [= <-]. done.
  - intros n [wb wn] [ob on] (Hw & Ho & Hwb & Hob) Hn. cbn [fst snd] in *. subst wn on.
    exists [Z.of_nat n], (wb, S n), (ob, S n). split_and!; try done.
    + unfold hs_read, toy_wire, toy_hs_read. cbn [snd]. by rewrite bool_decide_eq_true_2 by done.
    + cbn [fst]. rewrite Nat.even_succ, <- Nat.negb_even. done.
    + cbn [fst]. rewrite Nat.even_succ, <- Nat.negb_even, negb_involutive. done.
  - intros [wb wn] [ob on] (Hw & Ho & Hwb & Hob). cbn [fst snd] in *. subst. split; [done|]. do 2 eexists. split_and!; [reflexivity|reflexivity|done|done|cbn; lia|cbn; lia].
  - split; vm_compute; discriminate.
  - intros r ek dk [= <- <-]. done.
  - intros r ek dk r' ss ct [= <- <-] [= <- <-]. done.
  - intros m l. unfold ser_message, de_message, toy_wire, toy_ser, toy_de. destruct m; try done. destruct pubkey as [|x [|y [|? ?]]]; try done. by intros [= <-].
Defined.

#[export] Existing Instance Toy.toy_crypto.
Definition alice : Keys := {| noise_private := replicate 32 1; identity_secret := [1; 2]; identity_public := [1; 2] |}.
Definition carol : Keys := {| noise_private := replicate 32 3; identity_secret := [3; 4]; identity_public := [3; 4] |}.
Definition rand : Rand := {| rand_kem := []; rand_noise := []; rand_sign := [] |}.
Definition no_pins : PeerPinDirectory := PeerPinDirectory_empty true.
Definition home : bytes := str_bytes "10.0.0.1:9333".
Definition t_out : TransportState := toy_transport (true, 3%nat).
Definition t_in : TransportState := toy_transport (false, 3%nat).

Lemma toy_signs k h : identity_secret k = identity_public k → length (identity_public k) = 2%nat → ∃ l, identity_message k [] h l.
Proof.
  destruct k as [np [|x [|y [|? ?]]] ip]; cbn [identity_secret identity_public]; intros <-; try done. intros _.
  exists (x :: y :: le_bytes 4 (Toy.mix ([x; y] ++ digest512 p2p_identity h))), (le_bytes 4 (Toy.mix ([x; y] ++ digest512 p2p_identity h))).
  split; [reflexivity|]. split; [|split; [reflexivity|]].
  - unfold verify_pq512, verify_signature. change (len [x; y] =? PQ_PUBLIC_KEY_SIZE) with true. cbn [negb identity_public].
    unfold len. rewrite length_le_bytes. change (Z.of_nat 4 =? PQ_SIGNATURE_SIZE) with true. cbn [negb]. apply bool_decide_eq_true_2. reflexivity.
  - unfold len. cbn [length]. rewrite length_le_bytes. vm_compute. discriminate.
Qed.
Lemma ready : handshake_ready alice carol rand rand.
Proof. split. by exists [1; 2], [3], [9], [4; 5; 6]. Qed.
Definition meets (w : bytes) : Stream := {| st_in := w; st_out := []; st_room := 5000 |}.
(** What the listener sends to the dialler, computed. *)
Definition greeting : bytes := frame_of [4; 5; 6] ++ frame_of [1].
Definition identity_wire : bytes := st_out (ch_stream (send_message
  (MIdentity [3; 4] (match sign_pq512 p2p_identity [7] [3; 4] [] with Ok s => s | Err _ => [] end)) (chan [] [] 5000 t_in))).
Definition met : option Channel := establish no_pins alice rand (Some home) (meets (greeting ++ identity_wire)).
Lemma met_some : met = Some (default (chan [] [] 0 t_out) met).
Proof. vm_compute. reflexivity. Qed.
End WireExample.

Section witnesses.
Import WireExample.

Lemma message_roundtrip_witness :
  ∃ w b', receives 2 (chan (w ++ [5]) [] 0 t_in) = (Ok [replicate 9 1; []], chan [5] [] 0 b').
Proof.
  destruct (message_roundtrip [replicate 9 1; []] t_out t_in) as (w & a' & b' & _ & Hr & _).
  - repeat constructor; vm_compute; discriminate.
  - reflexivity.
  - cbn. lia.
  - exists w, b'. exact (Hr [5] [] 0%nat).
Defined.
Lemma noise_read_bounded_witness :
  ∃ l c', noise_read (chan identity_wire [] 0 t_out) = (Ok l, c') ∧ len l <= MAX_MESSAGE_BYTES.
Proof.
  do 2 eexists. split; [vm_compute; reflexivity|]. eapply (noise_read_bounded (chan identity_wire [] 0 t_out)). vm_compute. reflexivity.
Defined.
Lemma session_established_witness :
  ∃ w1 w2 t, establish no_pins alice rand (Some home) {| st_in := w2; st_out := []; st_room := length w1 + 0 |} = Some (chan [] w1 0 t).
Proof.
  destruct (session_established no_pins no_pins alice carol rand rand home ready (λ h, toy_signs alice h eq_refl eq_refl) (λ h, toy_signs carol h eq_refl eq_refl) eq_refl eq_refl)
    as (w1 & w2 & t1 & t2 & a & b & h & _ & H1 & _).
  exists w1, w2, t1. pose proof (proj2 (H1 [] [] 0%nat)) as Hx. rewrite app_nil_r in Hx. exact Hx.
Defined.
Lemma established_authenticated_witness :
  ∃ h pubkey signature, verify_pq512 p2p_identity h pubkey signature = true ∧ check_peer_identity no_pins pubkey (Some home) = Ok ().
Proof.
  destruct (established_authenticated no_pins alice rand (Some home) (meets (greeting ++ identity_wire)) _ met_some) as (? & h & ? & ? & ? & pk & sg & _ & _ & _ & Hv & Hp).
  by exists h, pk, sg.
Defined.
Lemma reflected_identity_witness :
  ∃ w w' a', pq_authenticate no_pins [1; 2] [1; 2] [] [7] None (chan (w' ++ []) [] (length w + 0) t_out) = (true, chan [] w 0 a').
Proof.
  destruct (toy_signs alice [7] eq_refl eq_refl) as [l Hl].
  destruct (reflected_identity no_pins alice [] [7] None l t_out t_in Hl eq_refl ltac:(by split) ltac:(cbn; lia) ltac:(cbn; lia)) as (w & w' & a' & b' & _ & Hr).
  exists w, w', a'. exact (Hr [] [] 0%nat).
Defined.
Lemma identity_reload_witness :
  load_or_create_identity true (Some (OWNER_ONLY, identity_bytes alice)) carol true = (alice, Some (OWNER_ONLY, identity_bytes alice)).
Proof.
  destruct (identity_reload alice carol alice (Some (OWNER_ONLY, identity_bytes alice)) OWNER_ONLY true ltac:(reflexivity) ltac:(reflexivity) ltac:(reflexivity) ltac:(reflexivity)) as (_ & l & [= <-] & Hx & _).
  apply Hx. reflexivity.
Defined.
End witnesses.
