(* ===== verification/Api.v ===== *)
(** * The node's HTTP API: handlers

    [ApiServer] of [src/src/api.rs]: what each endpoint reads from the chain state and
    reports, as a JSON value, and the five endpoints that submit to a mempool.  JSON text
    is [serde_json]'s.  The iteration orders of hash maps, the debug form of a predicate
    and the JSON form of derived types are parameters; the clock is an argument. *)

From S2P Require Import Prelude Genesis Crypto Address Predicate Utxo UtxoTx Escrow Bdpe Registry Custody Block Ledger.
From S2P Require Import Dag Ghostdag Reachability FeeHistory Stark VersionBits Superproof State Chain ChainInv Mempool FeeEstimate.
From S2P Require Import AccountPool Net Mining Stratum Kernel Indexer Persist.

Class ApiEnv := {
  titles_iter : gmap Hash TitleDeed → list TitleDeed;
  escrows_iter : gmap Hash EscrowAccount → list EscrowAccount;
  accounts_iter : gmap string Account → list (string * Account);
  staked_iter : gmap string Z → list (string * Z);
  senders_iter : list TransparentTx → list string;
  debug_predicate : Predicate → string;
  json_utxo_tx : UtxoTx → Json;
  json_registry_op : RegistryOp → Json;
  json_custody_op : CustodyCertificate → Json;
  json_title_event : TitleEvent → Json;
  json_abs_signature : TransparentTx → Json;
}.
(** Iterating yields every entry once. *)
Class ApiEnvOk `{!ApiEnv} : Prop := {
  titles_iter_ok m : titles_iter m ≡ₚ (map_to_list m).*2;
  escrows_iter_ok m : escrows_iter m ≡ₚ (map_to_list m).*2;
  accounts_iter_ok m : accounts_iter m ≡ₚ map_to_list m;
  staked_iter_ok m : staked_iter m ≡ₚ map_to_list m;
}.

Section api.
Context `{!Crypto, !DualCrypto, !BodyCodec, !NodeEnv, !PoolEnv, !ApiEnv}.

(** ** JSON of the common values *)

Definition jopt {A} (f : A → Json) (o : option A) : Json := from_option f JNull o.
Definition jhash (h : Hash) : Json := JStr (hash_hex h).
Definition jhashes (l : list Hash) : Json := JArr (jhash <$> l).
Definition jbytes (l : bytes) : Json := JStr (hex_encode l).
Definition jdec (n : Z) : Json := JStr (pretty n).
Definition jlen {A} (l : list A) : Json := JNum (len l).
Definition birth_ok (b : Block) : Json := JBool (is_ok (verify_issuance b)).
Definition blue_of (s : ChainState) (h : Hash) : option Z := gd_blue_score <$> cs_ghostdag s !! h.
Definition on_chain (s : ChainState) (h : Hash) : bool := bool_decide (h ∈ cs_main_chain s).
Definition chain_hash : Hash :=
  be_int (digest512 (str_bytes "chain-hash") (GENESIS_DOMAIN ++ le_bytes 8 CHAIN_ID ++ hash_bytes genesis_hash)).
(** [Iterator::position]. *)
Fixpoint index_of (h : Hash) (l : list Hash) : option Z :=
  match l with
  | [] => None
  | x :: l => if x =? h then Some 0 else Z.succ <$> index_of h l
  end.
(** The BTree order of the UTXO set. *)
Definition utxo_entries (u : UtxoSet) : list (OutPoint * TxOut) := merge_sort outpoint_entry_le (map_to_list (entries u)).

(** ** Blocks *)

(** A hash from its hexadecimal form. *)
Definition hash_of_hex (id : string) : option Hash := bs ← hex_decode id; if len bs =? 64 then Some (be_int bs) else None.
Definition resolve_block (s : ChainState) (id : string) : option (Hash * Block) :=
  match parse_uint U64_MAX (str_bytes id) with
  | Some height =>
      if height <? cs_pruned_selected_blocks s then None else
      h ← cs_main_chain s !! Z.to_nat (height - cs_pruned_selected_blocks s);
      b ← cs_dag s !! h;
      Some (h, b)
  | None =>
      if negb (len (str_bytes id) =? 64 * 2) then None else
      h ← hash_of_hex id; b ← cs_dag s !! h; Some (h, b)
  end.
(** The height of a block: its position on the selected chain, else what its header says. *)
Definition height_of (s : ChainState) (h : Hash) (b : Block) : Z :=
  from_option (λ i, cs_pruned_selected_blocks s + i) (blk_height b) (index_of h (cs_main_chain s)).

Definition latest_block (s : ChainState) (ih : Z * Hash) : option Json :=
  let '(i, h) := ih in
  b ← cs_dag s !! h;
  Some (JObj [("hash", jhash h); ("height", JNum (cs_pruned_selected_blocks s + i)); ("blue_score", jopt JNum (blue_of s h));
    ("transfers", jlen (blk_transparent_txs b)); ("utxo_txs", jlen (blk_utxo_txs b)); ("registry_ops", jlen (blk_registry_ops b));
    ("tx_count", JNum (len (blk_transparent_txs b) + len (blk_utxo_txs b) + len (blk_registry_ops b)));
    ("timestamp", JNum (blk_timestamp b)); ("miner", JStr (encode_hash (blk_miner b)));
    ("settlement_id", jbytes (settlement_id b)); ("birth_ok", birth_ok b);
    ("parents", JArr ((λ p, jbytes (take 5 (hash_bytes p))) <$> blk_parents b)); ("id", jbytes (take 5 (hash_bytes h)))]).
Definition latest_blocks (s : ChainState) (n : nat) : list Json :=
  omap (latest_block s) (take n (rev (enumerate (cs_main_chain s)))).

Definition json_transfer (tx : TransparentTx) : list (string * Json) :=
  [("tx_hash", jhash (tt_tx_hash tx)); ("from", JStr (tt_from tx)); ("to", JStr (tt_to tx)); ("amount", jdec (tt_amount tx));
   ("fee", jdec (tt_fee tx)); ("nonce", JNum (tt_nonce tx))].
Definition json_utxo_summary (tx : UtxoTx) : list (string * Json) :=
  [("txid", jhash (tx_id tx)); ("wtxid", jhash (tx_hash tx)); ("fee", jdec (fee tx)); ("inputs", jlen (inputs tx));
   ("outputs", jlen (outputs tx)); ("from", JStr (from_address tx))].
Definition issuer (b : Block) : Json :=
  if bool_decide (blk_creator_pubkey b = []) then JNull else JStr (hash_to_address (blk_creator_pubkey b)).
Definition get_block (s : ChainState) (id : string) : option Json :=
  '(h, b) ← resolve_block s id;
  let height := default (height_of s h b) (parse_uint U64_MAX (str_bytes id)) in
  let blue := blue_of s h in
  let confirmations := (λ bs, sat_sub (selected_tip_blue_score s) bs) <$> blue in
  let is_final := from_option (λ c, FINALITY_DEPTH <=? c) false confirmations in
  Some (JObj [("hash", jhash h); ("height", JNum height); ("blue_score", jopt JNum blue); ("confirmations", jopt JNum confirmations);
    ("finality_depth", JNum FINALITY_DEPTH); ("is_final", JBool is_final); ("on_selected_chain", JBool (on_chain s h));
    ("timestamp", JNum (blk_timestamp b)); ("parents", jhashes (blk_parents b)); ("difficulty", JNum (blk_difficulty b));
    ("transfers", JArr ((λ tx, JObj (json_transfer tx)) <$> blk_transparent_txs b));
    ("utxo_transactions", JArr ((λ tx, JObj (json_utxo_summary tx)) <$> blk_utxo_txs b));
    ("registry_ops", jlen (blk_registry_ops b)); ("miner", JStr (encode_hash (blk_miner b))); ("issuer", issuer b);
    ("issuer_pubkey", jbytes (blk_creator_pubkey b)); ("settlement_id", jbytes (settlement_id b)); ("settlement_bits", JNum 512);
    ("birth_ok", birth_ok b); ("birth_certificate", jbytes (blk_birth_certificate b)); ("nonce", JNum (blk_nonce b));
    ("state_root", jhash (blk_state_root b)); ("merkle_root", jhash (blk_merkle_root b)); ("utxo_txs", jlen (blk_utxo_txs b));
    ("custody_ops", jlen (blk_custody_ops b)); ("version", JNum (blk_version b)); ("interlinks", jhashes (blk_interlinks b));
    ("body_pruned", JBool (is_body_pruned s h))]).
Definition get_block_issuance (s : ChainState) (id : string) : option Json :=
  '(h, b) ← resolve_block s id;
  Some (JObj [("hash", jhash h); ("settlement_id", jbytes (settlement_id b)); ("settlement_bits", JNum 512);
    ("issuer_pubkey", jbytes (blk_creator_pubkey b)); ("issuer", issuer b); ("birth_certificate", jbytes (blk_birth_certificate b));
    ("birth_ok", birth_ok b); ("signature_scheme", JStr "ML-DSA-87"); ("pq_digest_bits", JNum 512); ("verifiable_everywhere", birth_ok b)]).

Definition children_of (s : ChainState) (h : Hash) : list Hash :=
  List.filter (λ c, from_option (λ b, bool_decide (h ∈ blk_parents b)) false (cs_dag s !! c)) (dag_keys (cs_dag s)).
Definition sibling_tips (s : ChainState) (h : Hash) (b : Block) : list Hash :=
  List.filter (λ t, negb (t =? h) && from_option (λ tb, existsb (λ p, bool_decide (p ∈ blk_parents b)) (blk_parents tb)) false (cs_dag s !! t))
    (cs_tips s).
Definition get_block_family (s : ChainState) (id : string) : option Json :=
  '(h, b) ← resolve_block s id;
  let gd := cs_ghostdag s !! h in
  Some (JObj [("hash", jhash h); ("parents", jhashes (blk_parents b)); ("selected_parent", jopt jhash (gd ≫= gd_selected_parent));
    ("children", jhashes (children_of s h)); ("sibling_tips", jhashes (sibling_tips s h b)); ("settlement_id", jbytes (settlement_id b));
    ("issuer", JStr (encode_hash (blk_miner b))); ("birth_ok", birth_ok b); ("blue_score", jopt JNum (gd_blue_score <$> gd));
    ("blue_mergeset_size", jopt (λ d, jlen (gd_mergeset_blues d)) gd); ("red_mergeset_size", jopt (λ d, jlen (gd_mergeset_reds d)) gd);
    ("is_chain_block", JBool (on_chain s h))]).

Definition ghostdag_info (s : ChainState) (id : string) : option Json :=
  '(h, _) ← resolve_block s id;
  d ← cs_ghostdag s !! h;
  Some (JObj [("hash", jhash h); ("blue_score", JNum (gd_blue_score d)); ("selected_parent", jopt jhash (gd_selected_parent d));
    ("mergeset_blues", jhashes (gd_mergeset_blues d)); ("mergeset_reds", jhashes (gd_mergeset_reds d));
    ("is_blue_on_selected", JBool (on_chain s h))]).
Definition edge (from to : Hash) (kind : string) : Json := JObj [("from", jhash from); ("to", jhash to); ("kind", JStr kind)].
Definition mergeset_edge_list (h : Hash) (b : Block) (d : GhostdagData) : list Json :=
  ((λ p, edge p h (if bool_decide (gd_selected_parent d = Some p) then "selected_parent" else "parent")) <$> blk_parents b) ++
  ((λ x, edge x h "mergeset_blue") <$> List.filter (λ x, negb (bool_decide (Some x = gd_selected_parent d))) (gd_mergeset_blues d)) ++
  ((λ x, edge x h "mergeset_red") <$> gd_mergeset_reds d).
Definition mergeset_edges (s : ChainState) (id : string) : option Json :=
  '(h, b) ← resolve_block s id;
  d ← cs_ghostdag s !! h;
  Some (JObj [("hash", jhash h); ("blue_score", JNum (gd_blue_score d)); ("selected_parent", jopt jhash (gd_selected_parent d));
    ("mergeset_blues", jhashes (gd_mergeset_blues d)); ("mergeset_reds", jhashes (gd_mergeset_reds d));
    ("edges", JArr (mergeset_edge_list h b d)); ("is_chain_block", JBool (on_chain s h))]).

Definition audit_block_dump (s : ChainState) (id : string) : option Json :=
  '(h, b) ← resolve_block s id;
  Some (JObj [("hash", jhash h); ("height", JNum (height_of s h b)); ("timestamp", JNum (blk_timestamp b)); ("parents", jhashes (blk_parents b));
    ("interlinks", jhashes (blk_interlinks b));
    ("transparent_txs", JArr ((λ tx, JObj (json_transfer tx ++
      [("chain_id", JNum (tt_chain_id tx)); ("from_pubkey", jbytes (tt_from_pubkey tx)); ("signature", jbytes (tt_signature tx));
       ("lock_blue_score", JNum (tt_lock_blue_score tx)); ("relative_lock_blues", JNum (tt_relative_lock_blues tx));
       ("relay_bytes", JNum (tt_relay_bytes tx))])) <$> blk_transparent_txs b));
    ("utxo_txs", JArr (json_utxo_tx <$> blk_utxo_txs b)); ("registry_ops", JArr (json_registry_op <$> blk_registry_ops b));
    ("custody_ops", JArr (json_custody_op <$> blk_custody_ops b)); ("merkle_root", jhash (blk_merkle_root b)); ("state_root", jhash (blk_state_root b));
    ("miner", JStr (encode_hash (blk_miner b))); ("creator_pubkey", jbytes (blk_creator_pubkey b)); ("nonce", JNum (blk_nonce b));
    ("difficulty", JNum (blk_difficulty b)); ("version", JNum (blk_version b)); ("coinbase_entropy", JNum (blk_coinbase_entropy b));
    ("stark_proof_hex", jbytes (blk_stark_proof b)); ("stark_proof_bytes", jlen (blk_stark_proof b));
    ("stark_kind", JStr "sequential_work_companion"); ("stark_is_validity_zk", JBool false);
    ("birth_certificate", jbytes (blk_birth_certificate b)); ("settlement_id", jbytes (settlement_id b)); ("size", JNum (blk_size b));
    ("ghostdag", jopt (λ d, JObj [("blue_score", JNum (gd_blue_score d)); ("selected_parent", jopt jhash (gd_selected_parent d));
       ("mergeset_blues", jhashes (gd_mergeset_blues d)); ("mergeset_reds", jhashes (gd_mergeset_reds d))]) (cs_ghostdag s !! h));
    ("is_chain_block", JBool (on_chain s h)); ("birth_ok", birth_ok b)]).

(** The two ends of [audit_diff]: a height, a hash, or the blue score of a selected block. *)
Definition diff_end (s : ChainState) (spec : string) : option (Z * Hash * option Block) :=
  match strip_prefix (str_bytes "blue:") (str_bytes spec) with
  | Some rest =>
      bs ← parse_uint U64_MAX rest;
      '(i, h) ← List.find (λ ih, bool_decide (blue_of s ih.2 = Some bs)) (enumerate (cs_main_chain s));
      Some (cs_pruned_selected_blocks s + i, h, cs_dag s !! h)
  | None => '(h, b) ← resolve_block s spec; Some (height_of s h b, h, Some b)
  end.
Definition diff_steps (s : ChainState) (fh th : Z) : list (Z * Hash) :=
  List.filter (λ ih, let h := cs_pruned_selected_blocks s + ih.1 in (Z.min fh th <? h) && (h <=? Z.max fh th)) (enumerate (cs_main_chain s)).
Definition diff_json (s : ChainState) (spec : string) (e : Z * Hash * option Block) : Json :=
  JObj [("spec", JStr spec); ("height", JNum e.1.1); ("hash", jhash e.1.2); ("state_root", jopt (λ b, jhash (blk_state_root b)) e.2);
    ("blue_score", jopt JNum (blue_of s e.1.2))].
(** The difference of two heights cast to [i64]. *)
Definition as_i64 (z : Z) : Z := let w := wrap 64 z in if 2 ^ 63 <=? w then w - 2 ^ 64 else w.
Definition audit_diff (s : ChainState) (from to : string) : Json :=
  match diff_end s from with
  | None => JObj [("error", JStr "from not found"); ("from", JStr from)]
  | Some f =>
      match diff_end s to with
      | None => JObj [("error", JStr "to not found"); ("to", JStr to)]
      | Some t =>
          JObj [("from", diff_json s from f); ("to", diff_json s to t); ("height_delta", JNum (as_i64 (t.1.1 - f.1.1)));
            ("state_root_changed", JBool (negb (bool_decide ((hash_hex ∘ blk_state_root) <$> f.2 = (hash_hex ∘ blk_state_root) <$> t.2))));
            ("selected_chain_steps", JArr ((λ '(i, h), JObj [("height", JNum (cs_pruned_selected_blocks s + i)); ("hash", jhash h);
               ("blue_score", jopt JNum (blue_of s h)); ("state_root", jopt (λ b, jhash (blk_state_root b)) (cs_dag s !! h));
               ("transfers", JNum (from_option (λ b, len (blk_transparent_txs b)) 0 (cs_dag s !! h)))]) <$> diff_steps s f.1.1 t.1.1))]
      end
  end.

(** ** Titles and escrows *)

Definition get_title (s : ChainState) (id : string) : option Json :=
  tid ← hash_of_hex id;
  d ← titles (l_registry (cs_ledger s)) !! tid;
  Some (JObj [("title_id", jhash (title_id d)); ("asset_class", JStr (asset_str (asset_class d))); ("description", JStr (description d));
    ("current_owner", JStr (current_owner d)); ("issued_at", JNum (issued_at d)); ("lienholder", jopt JStr (lienholder d));
    ("escrow_id", jopt jhash (deed_escrow_id d)); ("chain_of_title", JArr (json_title_event <$> title_history d));
    ("owners", JObj [("current", JStr (current_owner d)); ("prior", JArr (JStr <$> omap ev_from (title_history d)))])]).
Definition list_titles (s : ChainState) (limit : nat) : list Json :=
  (λ d, JObj [("title_id", jhash (title_id d)); ("asset_class", JStr (asset_str (asset_class d))); ("description", JStr (description d));
     ("current_owner", JStr (current_owner d)); ("events", jlen (title_history d)); ("in_escrow", JBool (bool_decide (is_Some (deed_escrow_id d))))])
  <$> take limit (titles_iter (titles (l_registry (cs_ledger s)))).
(** [format!("{:?}")] of the status in lower case. *)
Definition status_str (st : EscrowStatus) : string :=
  match st with StOpen => "open" | StFunded => "funded" | StReleased => "released" | StRefunded => "refunded" | StDisputed => "disputed" end.
Definition get_escrow (s : ChainState) (id : string) : option Json :=
  eid ← hash_of_hex id;
  e ← escrows (l_registry (cs_ledger s)) !! eid;
  Some (JObj [("escrow_id", jhash (esc_id e)); ("buyer", JStr (esc_buyer e)); ("seller", JStr (esc_seller e)); ("arbiter", jopt JStr (esc_arbiter e));
    ("amount", jdec (esc_amount e)); ("funded", jdec (esc_funded e)); ("status", JStr (status_str (esc_status e)));
    ("title_id", jopt jhash (esc_title_id e)); ("opened_at", JNum (esc_opened_at e)); ("timeout_blue", JNum (esc_timeout_blue e));
    ("timeout_height", JNum (esc_timeout_blue e)); ("memo", JStr (esc_memo e))]).
Definition list_escrows (s : ChainState) (limit : nat) : list Json :=
  (λ e, JObj [("escrow_id", jhash (esc_id e)); ("buyer", JStr (esc_buyer e)); ("seller", JStr (esc_seller e)); ("amount", jdec (esc_amount e));
     ("funded", jdec (esc_funded e)); ("status", JStr (status_str (esc_status e))); ("timeout_blue", JNum (esc_timeout_blue e));
     ("timeout_height", JNum (esc_timeout_blue e))])
  <$> take limit (escrows_iter (escrows (l_registry (cs_ledger s)))).
Definition owned_titles (s : ChainState) (address : string) : list TitleDeed :=
  List.filter (λ d, bool_decide (current_owner d = address)) (titles_iter (titles (l_registry (cs_ledger s)))).
Definition titles_for_owner (s : ChainState) (address : string) : list Json :=
  (λ d, JObj [("title_id", jhash (title_id d)); ("asset_class", JStr (asset_str (asset_class d))); ("description", JStr (description d));
     ("events", jlen (title_history d))]) <$> owned_titles s address.

(** ** Value *)

(** Sums of [u128] wrap in the release profile. *)
Definition get_supply (s : ChainState) : Json :=
  let l := cs_ledger s in
  JObj [("minted_supply", jdec (minted_supply l)); ("max_supply", jdec MAX_SUPPLY);
    ("account_balances", jdec (wrap 128 (total balance (l_accounts l)))); ("utxo_value", jdec (total_value (l_utxo l)));
    ("staked", jdec (wrap 128 (total (λ x, x) (staked l)))); ("fees_burned", jdec (fees_burned l));
    ("fee_policy", JStr "v26+ fees pay miner coinbase; fees_burned legacy (0 on fresh)");
    ("cumulative_issuance_at_tip", jdec (cumulative_issuance (selected_tip_blue_score s)));
    ("hybrid_ledger_note", JStr "v27: peer value is UTXO-only (ACCOUNT_PEER_TRANSFERS=false). Accounts remain for registry/custody; fund via CreditAccount; bridge_account_to_utxo returns overlay→UTXO. supply_invariant_ok must hold.");
    ("account_peer_transfers", JBool ACCOUNT_PEER_TRANSFERS)].

Definition locked_to (address : string) (o : TxOut) : bool :=
  from_option (λ a, addresses_equivalent a address) false (locked_address (predicate o)).
Definition vault_json (v : string * string * Z) : Json :=
  JObj [("buyer", JStr v.1.1); ("seller", JStr v.1.2); ("timeout_blue", JNum v.2)].
Definition involved (address : string) (o : TxOut) : bool := locked_to address o || predicate_involves_address (predicate o) address.
Definition list_utxos (s : ChainState) (address : string) : Json :=
  JObj [("address", JStr address); ("utxos", JArr (
    (λ '(op, o), JObj [("txid", jhash (txid op)); ("vout", JNum (vout op)); ("value", jdec (value o)); ("created_blue", JNum (created_blue o));
       ("coinbase", JBool (is_coinbase op)); ("predicate", JStr (debug_predicate (predicate o)));
       ("bdpe_vault", jopt vault_json (parse_vault_predicate (predicate o)))])
    <$> List.filter (λ e, involved address e.2) (utxo_entries (l_utxo (cs_ledger s)))))].

(** [list_bdpe_vaults]: the limit is tested after an entry was added. *)
Definition vault_entry (s : ChainState) (address : option string) (e : OutPoint * TxOut) : option Json :=
  '(buyer, seller, timeout) ← parse_vault_predicate (predicate e.2);
  if from_option (λ a, negb (addresses_equivalent buyer a) && negb (addresses_equivalent seller a)) false address then None else
  let reached := timeout <=? selected_tip_blue_score s in
  Some (JObj [("txid", jhash (txid e.1)); ("vout", JNum (vout e.1)); ("value", jdec (value e.2)); ("created_blue", JNum (created_blue e.2));
    ("buyer", JStr buyer); ("seller", JStr seller); ("timeout_blue", JNum timeout); ("media_blue", JNum (selected_tip_blue_score s));
    ("timeout_reached", JBool reached); ("status", JStr (if reached then "claimable" else "funded"))]).
Definition list_bdpe_vaults (s : ChainState) (address : option string) (limit : Z) : list Json :=
  take (Z.to_nat (Z.max 1 limit)) (omap (vault_entry s address) (utxo_entries (l_utxo (cs_ledger s)))).

Definition account (s : ChainState) (address : string) : Json :=
  let l := cs_ledger s in
  let acct := snd <$> List.find (λ kv, addresses_equivalent kv.1 address) (accounts_iter (l_accounts l)) in
  let titles_held := List.filter (λ d, addresses_equivalent (current_owner d) address) (titles_iter (titles (l_registry l))) in
  let utxo_sum := wrap 128 (zsum ((λ e, value e.2) <$> List.filter (λ e, locked_to address e.2) (utxo_entries (l_utxo l)))) in
  JObj [("address", JStr address); ("balance", jdec (from_option balance 0 acct)); ("utxo_value", jdec utxo_sum);
    ("nonce", JNum (from_option nonce 0 acct)); ("titles_held", jlen titles_held); ("bech32m", JBool (is_bech32m_address address));
    ("chain_id", JNum (cs_chain_id s)); ("chain_hash", jhash chain_hash)].
Definition list_custody (s : ChainState) : Json :=
  JObj [("staked", JArr ((λ '(addr, amt), JObj [("owner", JStr addr); ("amount", jdec amt)]) <$> staked_iter (staked (cs_ledger s))));
    ("custody_mempool", jlen (custody_mempool (cs_pools s)))].
Definition utxo_snapshot (s : ChainState) (limit : Z) : Json :=
  let lim := clamp limit 1 2000 in
  let u := l_utxo (cs_ledger s) in
  let returned := take (Z.to_nat lim) (utxo_entries u) in
  JObj [("utxo_commitment", jhash (commitment u)); ("total_entries", JNum (Z.of_nat (size (entries u)))); ("returned", jlen returned);
    ("truncated", JBool (lim <? Z.of_nat (size (entries u))));
    ("entries", JArr ((λ '(op, o), JObj [("txid", jhash (txid op)); ("vout", JNum (vout op)); ("value", jdec (value o));
       ("created_blue", JNum (created_blue o)); ("coinbase", JBool (is_coinbase op)); ("predicate", JStr (debug_predicate (predicate o)));
       ("locked_address", jopt JStr (locked_address (predicate o)))]) <$> returned))].

(** ** Pools and mining *)

(** [tx.nonce - tip + 1] wraps at 64 bits in the release profile. *)
Definition pooled_transfer (s : ChainState) (tx : TransparentTx) : Json :=
  let pool := transparent_mempool (cs_pools s) in
  let tip := account_nonce (cs_ledger s) (tt_from tx) in
  let ancestors := if tip <=? tt_nonce tx then wrap 64 (tt_nonce tx - tip + 1) else 0 in
  let pkg_fee := wrap 128 (zsum (tt_fee <$> List.filter
    (λ t, bool_decide (tt_from t = tt_from tx) && (tip <=? tt_nonce t) && (tt_nonce t <=? tt_nonce tx)) pool)) in
  JObj ([("type", JStr "transparent")] ++ json_transfer tx ++
    [("relay_bytes", JNum (tt_relay_bytes tx)); ("ancestor_count", JNum ancestors); ("ancestor_fees", jdec pkg_fee);
     ("feerate", jdec (if 0 <? tt_relay_bytes tx then tt_fee tx / tt_relay_bytes tx else 0))]).
Definition mempool_txs (s : ChainState) : list Json :=
  (pooled_transfer s <$> transparent_mempool (cs_pools s)) ++
  ((λ tx, let nbytes := Z.max (relay_bytes tx) 1 in
     JObj [("type", JStr "utxo"); ("txid", jhash (tx_id tx)); ("wtxid", jhash (tx_hash tx)); ("from", JStr (from_address tx)); ("fee", jdec (fee tx));
       ("inputs", jlen (inputs tx)); ("outputs", jlen (outputs tx)); ("relay_bytes", JNum nbytes); ("feerate", jdec (fee tx / nbytes))])
   <$> utxo_mempool (cs_pools s)).
Definition fee_history_export (s : ChainState) : Json :=
  let h := fee_history (cs_pools s) in
  JObj [("max_blocks", JNum (max_blocks h)); ("samples", JArr ((λ sm, JObj [("blue_score", JNum (fs_blue_score sm));
    ("feerates", JArr (jdec <$> fs_feerates sm)); ("confirm_blues", JArr (JNum <$> fs_confirm_blues sm))]) <$> samples h))].
(** [None] when a nonce walk of the estimate does not return. *)
Definition fee_estimate (s : ChainState) : option Json :=
  est ← estimate_fee s (senders_iter (transparent_mempool (cs_pools s)));
  Some (JObj [("low", jdec (fe_low est)); ("medium", jdec (fe_medium est)); ("high", jdec (fe_high est));
    ("high_target_blues", JNum FEE_TARGET_HIGH_BLUES); ("medium_target_blues", JNum FEE_TARGET_MEDIUM_BLUES);
    ("low_target_blues", JNum FEE_TARGET_LOW_BLUES); ("min_relay_fee", jdec (current_min_relay_fee s)); ("protocol_min_fee", jdec MIN_TX_FEE);
    ("mempool_txs", JNum (fe_mempool_txs est)); ("mempool_utxo", jlen (utxo_mempool (cs_pools s))); ("package_count", JNum (fe_package_count est));
    ("best_package_fee", jdec (fe_best_package_fee est)); ("fee_history_blocks", jlen (samples (fee_history (cs_pools s))))]).
Definition light_tip (s : ChainState) (n : nat) : Json :=
  let tip := last (cs_main_chain s) in
  JObj [("tip", jopt jhash tip); ("blue_score", JNum (selected_tip_blue_score s));
    ("selected_chain_tail", JArr ((λ h, let gd := cs_ghostdag s !! h in let b := cs_dag s !! h in
       JObj [("hash", jhash h); ("blue_score", jopt JNum (gd_blue_score <$> gd)); ("selected_parent", jopt jhash (gd ≫= gd_selected_parent));
         ("mergeset_blues", JNum (from_option (λ d, len (gd_mergeset_blues d)) 0 gd)); ("mergeset_reds", JNum (from_option (λ d, len (gd_mergeset_reds d)) 0 gd));
         ("state_root", jopt (λ b, jhash (blk_state_root b)) b); ("interlinks", from_option (λ b, jhashes (blk_interlinks b)) (JArr []) b)])
       <$> take n (rev (cs_main_chain s))));
    ("utxo_commitment", jhash (commitment (l_utxo (cs_ledger s))));
    ("state_root", jopt (λ b, jhash (blk_state_root b)) (h ← tip; cs_dag s !! h)); ("pruning_point", jopt jhash (cs_pruning_point s));
    ("supply_ok", JBool (supply_invariant_ok (cs_ledger s))); ("kernel_rules", jhash kernel_rules_id)].
Definition events_snapshot (s : ChainState) (now : Z) : Json :=
  JObj [("type", JStr "tip"); ("height", JNum (tip_height s)); ("blue_score", JNum (selected_tip_blue_score s));
    ("tip", jopt jhash (last (cs_main_chain s))); ("mempool", JNum (len (transparent_mempool (cs_pools s)) + len (utxo_mempool (cs_pools s))));
    ("mempool_utxo", jlen (utxo_mempool (cs_pools s))); ("tips", jhashes (cs_tips s)); ("ts_ms", JNum now)].
Definition mining_stats (s : ChainState) (now : Z) : Json :=
  JObj [("difficulty", JNum (cs_difficulty s)); ("era_min_difficulty", JNum (era_min_difficulty lab_easy (minted_supply (cs_ledger s)) now));
    ("min_difficulty", JNum BOOTSTRAP_MIN_DIFFICULTY); ("hard_era_min_difficulty", JNum HARD_ERA_MIN_DIFFICULTY);
    ("bootstrap_era_end", jdec BOOTSTRAP_ERA_END); ("pow_algo", JStr "blake3-512"); ("target_block_time_ms", JNum TARGET_BLOCK_TIME_MS);
    ("block_reward", jdec BLOCK_REWARD); ("fees_burned", jdec (fees_burned (cs_ledger s))); ("treasury", jdec (treasury (cs_ledger s)));
    ("default_share_difficulty", JNum DEFAULT_SHARE_DIFFICULTY); ("light_mine", JStr "/api/v1/mining/light");
    ("template", JStr "/api/v1/mining/template"); ("stratum", JStr "/api/v1/stratum")].

(** [light_mine]: the search, then the report. *)
Fixpoint light_search (fuel : nat) (template : bytes) (target : Hash) (nonce : Z) : option (Z * Hash) :=
  match fuel with
  | O => None
  | S fuel =>
      let h := blake3_512 (str_bytes "hassan-stratum-share-v1" ++ template ++ le_bytes 8 nonce) in
      if hash_meets_target h target then Some (nonce, h) else light_search fuel template target (nonce + 1)
  end.
Definition light_template (s : ChainState) (now : Z) : bytes :=
  blake3_xof (str_bytes "hassan-light-mine-v1" ++ concat (hash_bytes <$> cs_tips s) ++
    le_bytes 8 (expected_difficulty_at s (cs_tips s) now) ++ le_bytes 8 now) 64.
Definition light_difficulty (share_difficulty : option Z) : Z :=
  clamp (default DEFAULT_SHARE_DIFFICULTY share_difficulty) MIN_SHARE_DIFFICULTY MAX_SHARE_DIFFICULTY.
Definition light_result (s : ChainState) (now max_hashes : Z) (share_difficulty : option Z) : option (Z * Hash) :=
  light_search (Z.to_nat (clamp max_hashes 1 25000)) (light_template s now) (pow_target (light_difficulty share_difficulty)) 0.
Definition light_mine (s : ChainState) (now elapsed_ms max_hashes : Z) (share_difficulty : option Z) : Json :=
  let share_diff := light_difficulty share_difficulty in
  let found := light_result s now max_hashes share_difficulty in
  let tried := from_option (λ p, p.1 + 1) (clamp max_hashes 1 25000) found in
  let hps := if 0 <? elapsed_ms then sat_mul 64 tried 1000 / Z.max elapsed_ms 1 else tried in
  JObj [("pow_algo", JStr "blake3-512"); ("share_difficulty", JNum share_diff); ("network_difficulty", JNum (expected_difficulty_at s (cs_tips s) now));
    ("era_min_difficulty", JNum (era_min_difficulty lab_easy (minted_supply (cs_ledger s)) now)); ("max_hashes", JNum (clamp max_hashes 1 25000));
    ("hashes_tried", JNum tried); ("elapsed_ms", JNum elapsed_ms); ("hashes_per_sec", JNum hps); ("found", JBool (bool_decide (is_Some found)));
    ("nonce", jopt (λ p, JNum p.1) found); ("share_hash", jopt (λ p, jhash p.2) found); ("template", jbytes (light_template s now));
    ("parents", jhashes (cs_tips s));
    ("note", JStr "Light mine searches share difficulty for CPU/laptop/mobile. Full blocks require birth certificates from a registered miner key (solo miner / pool).")].

(** [api_block_template]; [None] when the selection of transfers does not return. *)
Definition api_block_template (s : ChainState) (now : Z) : option Json :=
  let parents := template_parents s in
  txs ← select_valid_block_txs s (transparent_mempool (cs_pools s)) (senders_iter (transparent_mempool (cs_pools s)));
  let utxo_txs := select_valid_utxo_txs s (utxo_mempool (cs_pools s)) in
  let sp := select_parent (cs_ghostdag s) parents in
  Some (JObj [("version", JNum STATE_FORMAT_VERSION); ("chain_id", JNum (cs_chain_id s)); ("chain_hash", jhash chain_hash);
    ("genesis_domain", JStr (bytes_str GENESIS_DOMAIN)); ("height", JNum (sat_add 64 (tip_height s) 1));
    ("blue_score_hint", JNum (sat_add 64 (selected_tip_blue_score s) 1)); ("timestamp", JNum now);
    ("difficulty", JNum (expected_difficulty_at s parents now)); ("parents", jhashes parents); ("selected_parent", jopt jhash sp);
    ("state_root_hint", jopt (λ h, jhash (merkle_root_at s h)) sp); ("past_median_time", jopt (λ h, JNum (past_median_time s h)) sp);
    ("transactions", JArr ((λ tx, JObj [("tx_hash", jhash (tt_tx_hash tx)); ("fee", jdec (tt_fee tx)); ("from", JStr (tt_from tx));
       ("to", JStr (tt_to tx)); ("amount", jdec (tt_amount tx)); ("nonce", JNum (tt_nonce tx)); ("lock_blue_score", JNum (tt_lock_blue_score tx));
       ("relative_lock_blues", JNum (tt_relative_lock_blues tx))]) <$> txs));
    ("utxo_transactions", JArr ((λ tx, JObj (json_utxo_summary tx ++ [("relay_bytes", JNum (relay_bytes tx))])) <$> utxo_txs));
    ("min_relay_fee", jdec (current_min_relay_fee s)); ("kernel_rules_id", jhash kernel_rules_id);
    ("utxo_set_size", JNum (Z.of_nat (size (entries (l_utxo (cs_ledger s)))))); ("utxo_commitment", jhash (commitment (l_utxo (cs_ledger s))))]).

(** ** Submissions *)

(** [TransparentTx::new_with_fee], [new]. *)
Definition TransparentTx_new_with_fee (pubkey : bytes) (to : string) (amount f n chain : Z) : TransparentTx :=
  {| tt_from := hash_to_address pubkey; tt_from_pubkey := pubkey; tt_to := to; tt_amount := amount; tt_fee := f; tt_nonce := n;
     tt_chain_id := chain; tt_lock_blue_score := 0; tt_relative_lock_blues := 0; tt_hashlock := None; tt_hashlock_preimage := []; tt_signature := [] |}.
Definition tt_with_fee (tx : TransparentTx) (f : Z) : TransparentTx :=
  {| tt_from := tt_from tx; tt_from_pubkey := tt_from_pubkey tx; tt_to := tt_to tx; tt_amount := tt_amount tx; tt_fee := f; tt_nonce := tt_nonce tx;
     tt_chain_id := tt_chain_id tx; tt_lock_blue_score := tt_lock_blue_score tx; tt_relative_lock_blues := tt_relative_lock_blues tx;
     tt_hashlock := tt_hashlock tx; tt_hashlock_preimage := tt_hashlock_preimage tx; tt_signature := tt_signature tx |}.
Definition TransparentTx_new (pubkey : bytes) (to : string) (amount n chain : Z) : TransparentTx :=
  let tx := TransparentTx_new_with_fee pubkey to amount MIN_TX_FEE n chain in tt_with_fee tx (tt_min_fee_required tx).

Record TxSubmitRequest := {
  rq_from_pubkey : string; rq_to : string; rq_amount : Z; rq_fee : Z; rq_nonce : Z; rq_chain_id : Z; rq_signature : string;
}.
(** Every submission: the outcome and the state it leaves; [None] when the admission of an
    account transfer does not return. *)
Definition pool_fuel (s : ChainState) : nat := S (S (length (transparent_mempool (cs_pools s)))).
Definition submit_tx (s : ChainState) (now : Z) (req : TxSubmitRequest) : option (result Json * ChainState) :=
  if negb ACCOUNT_PEER_TRANSFERS
  then Some (Err "Account peer transfers disabled (v27); submit a UTXO spend via /api/v1/utxo/submit", s) else
  match hex_decode (rq_from_pubkey req), hex_decode (rq_signature req) with
  | None, _ => Some (Err "Invalid from_pubkey hex", s)
  | Some _, None => Some (Err "Invalid signature hex", s)
  | Some pubkey, Some sig =>
      let tx := tt_with_signature (TransparentTx_new_with_fee pubkey (rq_to req) (rq_amount req) (rq_fee req) (rq_nonce req) (rq_chain_id req)) sig in
      '(r, s) ← admit_transparent_to_mempool (pool_fuel s) s now tx;
      Some (_ ← r; Ok (JObj [("tx_hash", jhash (tt_tx_hash tx)); ("status", JStr "pending")]), s)
  end.
Definition submit_transfer (s : ChainState) (now : Z) (tx : TransparentTx) : option (result Json * ChainState) :=
  '(r, s) ← admit_transparent_to_mempool (pool_fuel s) s now tx;
  Some (_ ← r; Ok (JObj [("status", JStr "accepted"); ("tx_hash", jhash (tt_tx_hash tx)); ("abs_signature", json_abs_signature tx)]), s).
Definition submit_utxo_tx (s : ChainState) (now : Z) (tx : UtxoTx) : result Json * ChainState :=
  let '(r, s) := admit_utxo_to_mempool s now tx in
  (_ ← r; Ok (JObj [("status", JStr "accepted"); ("txid", jhash (tx_id tx)); ("wtxid", jhash (tx_hash tx))]), s).
Definition submit_registry_op (s : ChainState) (op : RegistryOp) : result Json * ChainState :=
  match admit_registry_to_mempool s op with
  | Ok s' => (Ok (JObj [("status", JStr "accepted"); ("op_hash", jbytes (op_hash op))]), s')
  | Err e => (Err e, s)
  end.
Definition submit_custody (s : ChainState) (op : CustodyCertificate) : result Json * ChainState :=
  match admit_custody_to_mempool s op with
  | Ok s' => (Ok (JObj [("status", JStr "accepted"); ("fingerprint512", jbytes (custody_fingerprint op))]), s')
  | Err e => (Err e, s)
  end.
Definition kind_debug (k : CustodyKind) : string :=
  match k with StakeLock => "StakeLock" | StakeUnlock => "StakeUnlock" | BridgeExit => "BridgeExit" | BridgeEnter => "BridgeEnter" end.
Definition verify_custody (c : CustodyCertificate) : result Json :=
  sid ← parse_settlement_id hex_err "settlement_id must be 64 bytes hex" (cc_settlement_id c);
  _ ← custody_verify c sid;
  Ok (JObj [("status", JStr "verified"); ("kind", JStr (kind_debug (cc_kind c))); ("birth_ok", JBool true);
    ("settlement_id", JStr (cc_settlement_id c)); ("fingerprint512", jbytes (custody_fingerprint c))]).
End api.

(** ** What the reports say *)

Section reports.
Context `{!Crypto, !DualCrypto, !BodyCodec, !NodeEnv, !PoolEnv, !ApiEnv}.

(** The supply report of a sound ledger adds up once the funds held in registry escrows, which
    it does not list, are added: nothing wraps and nothing else is missing. *)
Theorem supply_report s :
  ledger_ok (cs_ledger s) →
  ∃ accounts utxo stake burned minted,
    json_get (get_supply s) "account_balances" = Some (jdec accounts) ∧ json_get (get_supply s) "utxo_value" = Some (jdec utxo) ∧
    json_get (get_supply s) "staked" = Some (jdec stake) ∧ json_get (get_supply s) "fees_burned" = Some (jdec burned) ∧
    json_get (get_supply s) "minted_supply" = Some (jdec minted) ∧
    accounts + utxo + stake + burned + total esc_funded (escrows (l_registry (cs_ledger s))) = minted ∧ minted <= MAX_SUPPLY.
Proof.
  intros Hl. destruct (ledger_sound_bounds _ _ Hl) as (Ha & Hst & Hu & He & Hmax & Hlt). pose proof (ls_supply _ _ Hl) as Hs. pose proof (ls_burned _ _ Hl) as Hb.
  unfold ledger_value in *. do 5 eexists. split_and!; [reflexivity..| |exact (ls_cap _ _ Hl)].
  unfold total_value. change (total (λ x : Z, x) (staked (cs_ledger s))) with (total id (staked (cs_ledger s))).
  rewrite !wrap_small by (unfold in_width, umax in *; lia). lia.
Qed.

Lemma light_search_spec fuel template target n :
  match light_search fuel template target n with
  | Some (k, h) => n <= k < n + Z.of_nat fuel ∧ h = blake3_512 (str_bytes "hassan-stratum-share-v1" ++ template ++ le_bytes 8 k) ∧ hash_meets_target h target = true ∧
      ∀ j, n <= j < k → hash_meets_target (blake3_512 (str_bytes "hassan-stratum-share-v1" ++ template ++ le_bytes 8 j)) target = false
  | None => ∀ j, n <= j < n + Z.of_nat fuel → hash_meets_target (blake3_512 (str_bytes "hassan-stratum-share-v1" ++ template ++ le_bytes 8 j)) target = false
  end.
Proof.
  revert n. induction fuel as [|fuel IH]; intros n; [intros j Hj; lia|]. cbn [light_search]. cbv zeta.
  destruct (hash_meets_target (blake3_512 (str_bytes "hassan-stratum-share-v1" ++ template ++ le_bytes 8 n)) target) eqn:Hm.
  { split_and!; [lia|lia|done|done|]. intros j Hj. lia. }
  specialize (IH (n + 1)). destruct (light_search fuel template target (n + 1)) as [[k h]|].
  - destruct IH as (Hk & Hh & Hmeet & Hleast). split_and!; [lia|lia|done|done|]. intros j Hj. destruct (Z.eq_dec j n) as [->|]; [done|]. apply Hleast. lia.
  - intros j Hj. destruct (Z.eq_dec j n) as [->|]; [done|]. apply IH. lia.
Qed.

(** A title is listed for its owner under the spelling of the address that owns it only; the
    account report counts it under every spelling. *)
Theorem titles_by_spelling `{!ApiEnvOk} s tid d a b :
  titles (l_registry (cs_ledger s)) = {[tid := d]} → current_owner d = a → a ≠ b → addresses_equivalent a b = true →
  titles_for_owner s b = [] ∧ json_get (account s b) "titles_held" = Some (JNum 1).
Proof.
  intros Ht <- Hne He. assert (titles_iter (titles (l_registry (cs_ledger s))) = [d]) as Hi.
  { pose proof (titles_iter_ok (titles (l_registry (cs_ledger s)))) as Hp. rewrite Ht, map_to_list_singleton in Hp. rewrite Ht. by apply Permutation_singleton_r in Hp. }
  split.
  - unfold titles_for_owner, owned_titles. rewrite Hi. cbn [List.filter]. by rewrite bool_decide_eq_false_2.
  - unfold account. cbv zeta. rewrite Hi. cbn [List.filter]. rewrite He. reflexivity.
Qed.

(** Finality is reported from the blue score alone: a block outside the selected chain that is
    old enough is reported final. *)
Theorem off_chain_final s id h b d :
  resolve_block s id = Some (h, b) → cs_ghostdag s !! h = Some d → h ∉ cs_main_chain s →
  FINALITY_DEPTH + gd_blue_score d <= selected_tip_blue_score s →
  ∃ v, get_block s id = Some v ∧ json_get v "is_final" = Some (JBool true) ∧ json_get v "on_selected_chain" = Some (JBool false).
Proof.
  intros Hr Hd Hout Hle. unfold get_block. rewrite Hr. cbn [mbind option_bind]. cbv zeta. unfold blue_of. rewrite Hd. eexists. split; [reflexivity|].
  assert (from_option (λ c, FINALITY_DEPTH <=? c) false ((λ bs, sat_sub (selected_tip_blue_score s) bs) <$> (gd_blue_score <$> Some d)) = true) as Hf.
  { cbn [fmap option_fmap option_map from_option]. apply Z.leb_le. unfold sat_sub. lia. }
  assert (on_chain s h = false) as Ho by (by apply bool_decide_eq_false). rewrite Hf, Ho. split; reflexivity.
Qed.
End reports.
