(* ===== verification/Economics.v ===== *)
(** * Economic reports

    [src/src/economics.rs]: the view of a block as provenance, custody, lineage and
    finality, its hash-chained audit trail and biography, the view of a transfer, and the
    fee market as a spread.  The cost estimate, which is floating point, enters as the
    difficulty it is computed from and its JSON form is a parameter of the report.
    [record_first_seen] is in [Mempool]. *)

From S2P Require Import Prelude Genesis Crypto Address Predicate Utxo UtxoTx Escrow Bdpe Registry Custody Block Ledger.
From S2P Require Import Dag Ghostdag Reachability ReachBuild FeeHistory Stark VersionBits Superproof State Chain ChainInv Mempool FeeEstimate.
From S2P Require Import AccountPool Net Mining Stratum Kernel Indexer Persist Api.

(** ** Data *)

Record ProvenanceRecord := {
  pr_settlement_id : string;
  pr_instrument_type : string;
  pr_issuing_authority : option string;
  pr_jurisdiction : string;
  pr_issuance_signature : string;
  pr_issuance_verified : bool;
  pr_issued_at_ms : Z;
}.
Inductive Custodian :=
| PrimaryIssuer (address : option string)
| Validator (description : string)
| ArchiveCustodian (is_local_node_archival : bool)
| BeneficialOwner (address : option string) (current_balance : string).
Record CustodyChain := { cu_primary_issuer : Custodian; cu_validator : Custodian; cu_archive_custodian : Custodian; cu_beneficial_owner : Custodian }.
Record LineageGraph := {
  li_ancestors : list string;
  li_selected_parent : option string;
  li_economic_offspring : list string;
  li_economic_siblings : list string;
  li_blue_mergeset_size : option Z;
  li_red_mergeset_size : option Z;
}.
Record EconomicFinality := {
  ef_blue_score : option Z;
  ef_is_on_selected_chain : bool;
  ef_is_economically_final : bool;
  ef_confirmations : option Z;
  ef_finality_depth : Z;
}.
Record AuditEntry := { ae_sequence : Z; ae_event : string; ae_detail : string; ae_prev_entry_hash : string; ae_entry_hash : string }.
Record AuditTrail := { at_entries : list AuditEntry; at_trail_hash : string }.
Record VerificationSnapshot := {
  ve_protocol_min_fee : Z; ve_current_min_relay_fee : Z; ve_low : Z; ve_medium : Z; ve_high : Z; ve_spread : Z;
  ve_mempool_txs : Z; ve_package_count : Z; ve_best_package_fee : Z;
}.
(** [ee_difficulty] stands for the cost basis; [ee_verification] is [None] when a nonce walk
    of the fee estimate does not return. *)
Record EconomicEntity := {
  ee_header_hash : string;
  ee_height : option Z;
  ee_transaction_count : Z;
  ee_provenance : ProvenanceRecord;
  ee_custody : CustodyChain;
  ee_lineage : LineageGraph;
  ee_finality : EconomicFinality;
  ee_audit_trail : AuditTrail;
  ee_difficulty : Z;
  ee_verification : option VerificationSnapshot;
}.
Record EconomicBiography := { eb_header_hash : string; eb_origin : string; eb_transformations : list string; eb_current_state : string }.
Inductive TransactionLineage := Pending | Confirmed (containing_block : string) (height : option Z).
Record TransactionJourney := { tj_first_seen_ms : option Z; tj_confirmed_at_ms : option Z; tj_mempool_dwell_ms : option Z }.
Record TransactionEconomicEntity := {
  te_tx_hash : string; te_signed_by : string; te_nonce : Z; te_lineage : TransactionLineage; te_remitting_agent : string;
  te_beneficiary_agent : string; te_amount : Z; te_fee : Z; te_journey : TransactionJourney;
}.

Definition FOUNDER : string := "MMK".
Definition bool_str (b : bool) : string := if b then "true" else "false".

Section economics.
Context `{!Crypto, !DualCrypto, !BodyCodec, !NodeEnv, !PoolEnv, !ApiEnv}.

(** ** The audit trail *)

(** [AuditTrail::push]: an entry commits to the one before it. *)
Definition last_entry_hash (entries : list AuditEntry) : string := from_option ae_entry_hash (hash_hex 0) (last entries).
Definition entry_preimage (prev : string) (sequence : Z) (event detail : string) : bytes :=
  str_bytes prev ++ be_bytes 4 sequence ++ str_bytes event ++ str_bytes detail.
Definition audit_push (entries : list AuditEntry) (event detail : string) : list AuditEntry :=
  let sequence := wrap 32 (len entries) in
  let prev := last_entry_hash entries in
  entries ++ [{| ae_sequence := sequence; ae_event := event; ae_detail := detail; ae_prev_entry_hash := prev;
                 ae_entry_hash := hash_hex (hash512 (entry_preimage prev sequence event detail)) |}].
(** The events of [AuditTrail::build] in their order. *)
Definition audit_events (difficulty : Z) (is_genesis : bool) (p : ProvenanceRecord) (l : LineageGraph) (f : EconomicFinality)
    : list (string * string) :=
  [("block_received", "settlement_id=" +:+ pr_settlement_id p);
   if is_genesis then ("proof_of_work_exempt", "genesis instrument is defined into existence, not mined")
   else ("proof_of_work_verified", "difficulty=" +:+ pretty difficulty +:+ " target_met=true");
   ("birth_certificate_verified", "scheme=ML-DSA-87 verified=" +:+ bool_str (pr_issuance_verified p) +:+ " issuer=" +:+
      default "none (genesis)" (pr_issuing_authority p));
   ("ghostdag_coloring_computed", "blue_score=" +:+ from_option pretty "n/a" (ef_blue_score f) +:+
      " blue_mergeset=" +:+ pretty (default 0 (li_blue_mergeset_size l)) +:+ " red_mergeset=" +:+ pretty (default 0 (li_red_mergeset_size l)) +:+
      " ancestors=" +:+ pretty (len (li_ancestors l)) +:+ " siblings_preserved=" +:+ pretty (len (li_economic_siblings l)));
   ("chain_membership_evaluated", "is_on_selected_chain=" +:+ bool_str (ef_is_on_selected_chain f) +:+
      " confirmations=" +:+ from_option pretty "n/a" (ef_confirmations f))] ++
  if ef_is_economically_final f then [("economic_finality_reached", "finality_depth=" +:+ pretty (ef_finality_depth f))] else [].
Definition audit_build (difficulty : Z) (is_genesis : bool) (p : ProvenanceRecord) (l : LineageGraph) (f : EconomicFinality) : AuditTrail :=
  let entries := foldl (λ es e, audit_push es e.1 e.2) [] (audit_events difficulty is_genesis p l f) in
  {| at_entries := entries; at_trail_hash := last_entry_hash entries |}.

(** ** Blocks *)

Definition issuer_address (b : Block) : option string :=
  if bool_decide (blk_creator_pubkey b = []) then None else Some ("hsn:" +:+ hash_hex (address_hash (blk_creator_pubkey b))).
Definition is_genesis_block (b : Block) : bool := bool_decide (blk_parents b = []).
Definition provenance_of (s : ChainState) (b : Block) : ProvenanceRecord :=
  {| pr_settlement_id := hex_encode (settlement_id b); pr_instrument_type := if is_genesis_block b then "Genesis Instrument" else "PoW Block";
     pr_issuing_authority := issuer_address b; pr_jurisdiction := "Hassan Protocol, chain_id " +:+ pretty (cs_chain_id s);
     pr_issuance_signature := hex_encode (blk_birth_certificate b); pr_issuance_verified := is_ok (verify_issuance b);
     pr_issued_at_ms := blk_timestamp b |}.
(** The balance is looked up under the legacy spelling of the miner's address. *)
Definition custody_of (s : ChainState) (b : Block) : CustodyChain :=
  let miner_addr := "hsn:" +:+ hash_hex (blk_miner b) in
  {| cu_primary_issuer := PrimaryIssuer (Some miner_addr);
     cu_validator := Validator "Every full node re-verifies this block's Birth Certificate and GHOSTDAG coloring before accepting it.";
     cu_archive_custodian := ArchiveCustodian (cs_archival s);
     cu_beneficial_owner := BeneficialOwner (Some miner_addr) (pretty (from_option balance 0 (l_accounts (cs_ledger s) !! miner_addr))) |}.
Definition lineage_of (s : ChainState) (h : Hash) (b : Block) : LineageGraph :=
  let gd := cs_ghostdag s !! h in
  {| li_ancestors := hash_hex <$> blk_parents b; li_selected_parent := hash_hex <$> (gd ≫= gd_selected_parent);
     li_economic_offspring := hash_hex <$> children_of s h; li_economic_siblings := hash_hex <$> sibling_tips s h b;
     li_blue_mergeset_size := (λ d, len (gd_mergeset_blues d)) <$> gd; li_red_mergeset_size := (λ d, len (gd_mergeset_reds d)) <$> gd |}.
Definition finality_of (s : ChainState) (h : Hash) : EconomicFinality :=
  let blue_score := blue_of s h in
  let confirmations := (λ bs, sat_sub (selected_tip_blue_score s) bs) <$> blue_score in
  {| ef_blue_score := blue_score; ef_is_on_selected_chain := on_chain s h;
     ef_is_economically_final := on_chain s h && from_option (λ c, FINALITY_DEPTH <=? c) false confirmations;
     ef_confirmations := confirmations; ef_finality_depth := FINALITY_DEPTH |}.
Definition verification_snapshot (s : ChainState) : option VerificationSnapshot :=
  est ← estimate_fee s (senders_iter (transparent_mempool (cs_pools s)));
  Some {| ve_protocol_min_fee := MIN_TX_FEE; ve_current_min_relay_fee := current_min_relay_fee s; ve_low := fe_low est; ve_medium := fe_medium est;
          ve_high := fe_high est; ve_spread := sat_sub (fe_high est) (fe_low est); ve_mempool_txs := fe_mempool_txs est;
          ve_package_count := fe_package_count est; ve_best_package_fee := fe_best_package_fee est |}.
Definition entity_for_block (s : ChainState) (h : Hash) : option EconomicEntity :=
  b ← cs_dag s !! h;
  let provenance := provenance_of s b in
  let lineage := lineage_of s h b in
  let finality := finality_of s h in
  Some {| ee_header_hash := hash_hex h; ee_height := (λ i, cs_pruned_selected_blocks s + i) <$> index_of h (cs_main_chain s);
          ee_transaction_count := len (blk_transparent_txs b) + len (blk_registry_ops b); ee_provenance := provenance;
          ee_custody := custody_of s b; ee_lineage := lineage; ee_finality := finality;
          ee_audit_trail := audit_build (blk_difficulty b) (is_genesis_block b) provenance lineage finality;
          ee_difficulty := blk_difficulty b; ee_verification := verification_snapshot s |}.

(** [EconomicBiography::for_block]. *)
Definition biography_origin (b : Block) (e : EconomicEntity) : string :=
  let p := ee_provenance e in
  if is_genesis_block b then
    "Instrument created at genesis (t=" +:+ pretty (pr_issued_at_ms p) +:+ "ms), issuing authority '" +:+ FOUNDER +:+ "', jurisdiction " +:+
    pr_jurisdiction p +:+ "."
  else
    "Issued at t=" +:+ pretty (pr_issued_at_ms p) +:+ "ms by " +:+ default "unknown issuer" (pr_issuing_authority p) +:+
    " via proof-of-work at difficulty " +:+ pretty (ee_difficulty e) +:+ ", notarized with a Birth Certificate over Settlement ID " +:+
    String.substring 0 16 (pr_settlement_id p) +:+ ".".
Definition biography_transformations (e : EconomicEntity) : list string :=
  let l := ee_lineage e in let f := ee_finality e in
  (if bool_decide (li_economic_offspring l = []) then [] else
     ["Extended by " +:+ pretty (len (li_economic_offspring l)) +:+ " descendant block(s) in the DAG."]) ++
  (if bool_decide (li_economic_siblings l = []) then [] else
     [pretty (len (li_economic_siblings l)) +:+
      " economic sibling(s) preserved (blue/red GHOSTDAG mergeset) rather than discarded as orphans."]) ++
  from_option (λ c, ["Accrued " +:+ pretty c +:+ " confirmation(s) (blue-score distance from the selected tip)."]) [] (ef_confirmations f) ++
  (if ef_is_economically_final f then ["Reached economic finality: beyond the reorg window, all claims settled."] else []).
Definition biography_state (f : EconomicFinality) : string :=
  if ef_is_on_selected_chain f
  then "Currently on the selected chain" +:+ (if ef_is_economically_final f then ", economically final" else ", awaiting finality") +:+ "."
  else "Currently a non-selected (red) DAG block — still valid, but not on the main chain.".
Definition biography_for_block (s : ChainState) (h : Hash) : option EconomicBiography :=
  e ← entity_for_block s h;
  b ← cs_dag s !! h;
  Some {| eb_header_hash := ee_header_hash e; eb_origin := biography_origin b e; eb_transformations := biography_transformations e;
          eb_current_state := biography_state (ee_finality e) |}.

(** ** Transfers *)

Fixpoint find_on_chain (s : ChainState) (id : Hash) (i : Z) (chain : list Hash) : option (Block * Z * TransparentTx) :=
  match chain with
  | [] => None
  | h :: chain =>
      match b ← cs_dag s !! h; tx ← List.find (λ t, tt_tx_hash t =? id) (blk_transparent_txs b); Some (b, tx) with
      | Some (b, tx) => Some (b, cs_pruned_selected_blocks s + i, tx)
      | None => find_on_chain s id (i + 1) chain
      end
  end.
Definition find_confirmed_transfer (s : ChainState) (id : Hash) : option (Block * Z * TransparentTx) := find_on_chain s id 0 (cs_main_chain s).
Definition tx_entity (id : Hash) (tx : TransparentTx) (lineage : TransactionLineage) (journey : TransactionJourney) : TransactionEconomicEntity :=
  {| te_tx_hash := hash_hex id; te_signed_by := tt_from tx; te_nonce := tt_nonce tx; te_lineage := lineage; te_remitting_agent := tt_from tx;
     te_beneficiary_agent := tt_to tx; te_amount := tt_amount tx; te_fee := tt_fee tx; te_journey := journey |}.
Definition entity_for_tx (s : ChainState) (id : Hash) : option TransactionEconomicEntity :=
  let first_seen := tx_first_seen_ms (cs_pools s) !! id in
  match List.find (λ t, tt_tx_hash t =? id) (transparent_mempool (cs_pools s)) with
  | Some tx => Some (tx_entity id tx Pending {| tj_first_seen_ms := first_seen; tj_confirmed_at_ms := None; tj_mempool_dwell_ms := None |})
  | None =>
      '(b, height, tx) ← find_confirmed_transfer s id;
      Some (tx_entity id tx (Confirmed (hash_hex (block_hash b)) (Some height))
        {| tj_first_seen_ms := first_seen; tj_confirmed_at_ms := Some (blk_timestamp b);
           tj_mempool_dwell_ms := (λ seen, sat_sub (blk_timestamp b) seen) <$> first_seen |})
  end.
End economics.

(** ** The trail is bound by its fingerprint *)

Section trail.
Context `{!Crypto, !CryptoLaws, !DualCrypto, !BodyCodec, !NodeEnv, !PoolEnv, !ApiEnv}.

Definition collision : Prop := ∃ x y, x ≠ y ∧ hash512 x = hash512 y.
Definition trail (evs : list (string * string)) : list AuditEntry := foldl (λ es e, audit_push es e.1 e.2) [] evs.

Lemma trail_snoc evs e : trail (evs ++ [e]) = audit_push (trail evs) e.1 e.2.
Proof. unfold trail. by rewrite foldl_app. Qed.
Lemma length_trail evs : length (trail evs) = length evs.
Proof. induction evs as [|e evs IH] using rev_ind; [done|]. rewrite trail_snoc. unfold audit_push. rewrite !length_app, IH. done. Qed.
Lemma hash512_range x : 0 <= hash512 x < 256 ^ Z.of_nat 64.
Proof.
  unfold hash512, digest512. pose proof (be_int_range _ (blake3_xof_bytes (str_bytes "hassan-pq-512-v1" ++ str_bytes "raw" ++ x) 64)) as Hrange.
  unfold len in Hrange. by rewrite blake3_xof_length in Hrange.
Qed.
Lemma hash_hex_inv x y : hash_hex (hash512 x) = hash_hex (hash512 y) → hash512 x = hash512 y.
Proof.
  unfold hash_hex, hash_bytes. intros He%(f_equal hex_decode). rewrite !hex_decode_encode in He by apply be_bytes_is_bytes.
  apply (inj Some), (f_equal be_int) in He. by rewrite !be_int_bytes in He by apply hash512_range.
Qed.
Lemma length_last_hash evs : length (str_bytes (last_entry_hash (trail evs))) = 128%nat.
Proof.
  assert (∀ h, length (str_bytes (hash_hex h)) = 128%nat) as Hx.
  { intros h. unfold hash_hex, hash_bytes. by rewrite length_str_bytes, hex_encode_length, length_be_bytes. }
  induction evs as [|e evs _] using rev_ind; [apply Hx|]. rewrite trail_snoc. unfold last_entry_hash, audit_push. rewrite last_snoc. apply Hx.
Qed.
Lemma entry_preimage_inv p1 n1 e1 d1 p2 n2 e2 d2 :
  length (str_bytes p1) = 128%nat → length (str_bytes p2) = 128%nat → in_width 32 n1 → in_width 32 n2 →
  entry_preimage p1 n1 e1 d1 = entry_preimage p2 n2 e2 d2 → p1 = p2 ∧ n1 = n2 ∧ e1 +:+ d1 = e2 +:+ d2.
Proof.
  unfold entry_preimage. intros Hl1 Hl2 Hn1 Hn2 He. apply app_inj_1 in He as [Hp He]; [|congruence].
  apply app_inj_1 in He as [Hn He]; [|by rewrite !length_be_bytes]. rewrite <- !str_bytes_app in He. split_and!.
  - by rewrite <- (bytes_str_bytes p1), <- (bytes_str_bytes p2), Hp.
  - apply (f_equal be_int) in Hn. unfold in_width, umax in *. by rewrite !be_int_bytes in Hn by lia.
  - by rewrite <- (bytes_str_bytes (e1 +:+ d1)), <- (bytes_str_bytes (e2 +:+ d2)), He.
Qed.
Lemma trail_binding a b :
  a ≠ [] → b ≠ [] → len a <= U32_MAX → len b <= U32_MAX → last_entry_hash (trail a) = last_entry_hash (trail b) →
  ((λ e, e.1 +:+ e.2) <$> a) = ((λ e, e.1 +:+ e.2) <$> b) ∨ collision.
Proof.
  revert b. induction a as [|e a IH] using rev_ind; [done|]. intros b _. destruct b as [|e' b _] using rev_ind; [done|]. intros _ Ha Hb.
  rewrite !trail_snoc. unfold last_entry_hash at 1 2, audit_push. rewrite !last_snoc. cbn [from_option ae_entry_hash].
  intros He%hash_hex_inv. unfold len in *. rewrite !length_app in *. cbn [length] in *.
  match type of He with hash512 ?x = hash512 ?y => destruct (decide (x = y)) as [Heq|Hne]; [|by right; exists x, y] end.
  rewrite !length_trail, !wrap_small in Heq by (unfold in_width, umax in *; lia).
  apply entry_preimage_inv in Heq as (Hp & Hn & Hc); [|apply length_last_hash..|unfold in_width, umax in *; lia|unfold in_width, umax in *; lia].
  rewrite !fmap_app. cbn [fmap list_fmap]. rewrite Hc.
  destruct a as [|x a'] eqn:Hae; destruct b as [|y b'] eqn:Hbe; cbn [length] in Hn; try lia; [by left|].
  destruct (IH (y :: b')) as [Heq|Hcol]; [done|done|cbn [length] in *; lia|cbn [length] in *; lia|done| |by right].
  left. by rewrite Heq.
Qed.

Lemma append_inj_l (p x y : string) : p +:+ x = p +:+ y → x = y.
Proof. induction p as [|c p IH]; [done|]. simpl. intros [= H0']. by apply IH. Qed.
Lemma audit_events_inj d1 g1 p1 l1 f1 d2 g2 p2 l2 f2 :
  ((λ e, e.1 +:+ e.2) <$> audit_events d1 g1 p1 l1 f1) = ((λ e, e.1 +:+ e.2) <$> audit_events d2 g2 p2 l2 f2) →
  audit_events d1 g1 p1 l1 f1 = audit_events d2 g2 p2 l2 f2.
Proof.
  unfold audit_events. intros He. rewrite !fmap_app in He. apply app_inj_1 in He as [He Hf]; [|done].
  cbn [fmap list_fmap fst snd] in He.
  assert (∀ (a b : string) (l k : list string), a :: l = b :: k → a = b ∧ l = k) as Hcons by (by intros ???? [= -> ->]).
  apply Hcons in He as [Ha He]. apply Hcons in He as [Hb He]. apply Hcons in He as [Hc He]. apply Hcons in He as [Hd He].
  apply Hcons in He as [Hg _]. apply append_inj_l in Ha, Hc, Hd, Hg. rewrite Ha, Hc, Hd, Hg.
  assert ((if ef_is_economically_final f1 then [("economic_finality_reached", "finality_depth=" +:+ pretty (ef_finality_depth f1))] else []) =
          (if ef_is_economically_final f2 then [("economic_finality_reached", "finality_depth=" +:+ pretty (ef_finality_depth f2))] else [])) as ->.
  { destruct (ef_is_economically_final f1), (ef_is_economically_final f2); try done.
    cbn [fmap list_fmap fst snd] in Hf. apply Hcons in Hf as [Hf _]. apply append_inj_l in Hf. by rewrite Hf. }
  do 2 f_equal. destruct g1, g2; cbn [fst snd] in Hb; [done|discriminate Hb|discriminate Hb|]. apply append_inj_l in Hb. by rewrite Hb.
Qed.

(** Two audit trails with the same fingerprint record the same events with the same
    details, or two different messages with the same digest are known: no entry can be
    changed, dropped or moved under a published [trail_hash]. *)
Theorem audit_trail_binding d1 g1 p1 l1 f1 d2 g2 p2 l2 f2 :
  at_trail_hash (audit_build d1 g1 p1 l1 f1) = at_trail_hash (audit_build d2 g2 p2 l2 f2) →
  audit_events d1 g1 p1 l1 f1 = audit_events d2 g2 p2 l2 f2 ∨ collision.
Proof.
  intros He. assert (∀ d g p l f, audit_events d g p l f ≠ [] ∧ len (audit_events d g p l f) <= U32_MAX) as Hev.
  { intros. unfold audit_events. split; [done|]. unfold len. destruct (ef_is_economically_final f); cbn [app length]; unfold umax; lia. }
  destruct (Hev d1 g1 p1 l1 f1), (Hev d2 g2 p2 l2 f2).
  destruct (trail_binding (audit_events d1 g1 p1 l1 f1) (audit_events d2 g2 p2 l2 f2)) as [Hx|Hx]; [done..|left|by right].
  by apply audit_events_inj.
Qed.
End trail.

(** ** Reported finality holds *)

Section final.
Context `{!Crypto, !CryptoLaws, !DualCrypto, !BodyCodec, !NodeEnv}.

Lemma selected_from_genesis L0 s h :
  reachable L0 s → h ∈ dom (cs_dag s) → head (selected_chain (cs_ghostdag s) h) = Some genesis_hash ∧ score_of (cs_ghostdag s) genesis_hash = 0.
Proof.
  intros Hr. revert h. induction Hr as [|s now b s' Hr IH Hsz Hadd]; intros h Hh.
  - cbn [seeded cs_dag cs_ghostdag] in *. rewrite dom_singleton_L, elem_of_singleton in Hh. subst h.
    destruct (reachable_ok _ _ (reachable_seeded L0)) as (Hok & _). destruct (rbuilt_ok _ _ _ (ok_graph _ _ Hok)) as (Hi & _).
    cbn [seeded cs_dag cs_ghostdag] in Hi. rewrite (selected_chain_eq _ genesis_hash GhostdagData_genesis (inv_wf _ _ Hi) (lookup_singleton_eq _ _)).
    split; [done|]. unfold score_of. by rewrite lookup_singleton_eq.
  - destruct (reachable_ok _ _ Hr) as (Hok & Har & _).
    destruct (add_block_ok L0 s now b s' Hok Har Hsz Hadd) as (d & Hc & _ & _ & Hd' & Hg' & _). rewrite Hd' in Hh. rewrite Hg'.
    destruct (ins_new L0 s now b d Hok Hc Hsz) as (sp & _ & _ & Hspd & _ & Hch & _).
    destruct (IH sp Hspd) as [Hsp Hz].
    assert (genesis_hash ∈ dom (cs_dag s)) as Hgd.
    { destruct (rbuilt_ok _ _ _ (ok_graph _ _ Hok)) as (Hi & _). rewrite <- (inv_dom _ _ Hi).
      apply (chain_dom _ _ Hi sp); [by rewrite (inv_dom _ _ Hi)|]. by apply head_Some_elem_of. }
    split.
    + cbn [insert_block set_graph cs_dag] in Hh. unfold insert_block in Hh. cbn in Hh. rewrite dom_insert_L, elem_of_union, elem_of_singleton in Hh.
      destruct (decide (h = block_hash b)) as [->|Hne].
      * rewrite Hch. by destruct (selected_chain (cs_ghostdag s) sp).
      * destruct Hh as [|Hh]; [done|]. destruct (ins_old L0 s now b d Hok Hc Hsz h Hh) as (_ & -> & _). by apply IH.
    + destruct (ins_old L0 s now b d Hok Hc Hsz genesis_hash Hgd) as (_ & _ & -> & _). done.
Qed.

Lemma finality_of_true s h :
  0 <= score_of (cs_ghostdag s) h →
  ef_is_economically_final (finality_of s h) = true ↔
  h ∈ cs_main_chain s ∧ h ∈ dom (cs_ghostdag s) ∧ FINALITY_DEPTH <= selected_tip_blue_score s - score_of (cs_ghostdag s) h.
Proof.
  intros Hs. unfold finality_of, on_chain, blue_of. cbn [ef_is_economically_final]. rewrite andb_true_iff, bool_decide_eq_true, elem_of_dom.
  unfold score_of in *. destruct (cs_ghostdag s !! h) as [d|]; cbn [fmap option_fmap option_map from_option] in *.
  - rewrite Z.leb_le. unfold sat_sub. assert (0 < FINALITY_DEPTH) by done. split; [intros [? ?]; split_and!; [done|by eexists|lia]|intros (? & _ & ?); split; [done|lia]].
  - split; [by intros []|]. by intros (_ & [? ?] & _).
Qed.
(** Down to the finality point the selected chain is that of the finality point. *)
Lemma below_finality_point s tip h :
  dag_inv (cs_dag s) (cs_ghostdag s) → selected_tip (cs_ghostdag s) (cs_tips s) = Some tip → h ∈ selected_chain (cs_ghostdag s) tip →
  FINALITY_DEPTH < score_of (cs_ghostdag s) tip → FINALITY_DEPTH <= score_of (cs_ghostdag s) tip - score_of (cs_ghostdag s) h →
  ∃ fp, finality_point s = Some fp ∧ h ∈ selected_chain (cs_ghostdag s) fp.
Proof.
  intros Hi Ht Hh Hdeep Hle. destruct (select_parent_Some _ _ _ Ht) as (_ & Htd & _).
  set (th := score_of (cs_ghostdag s) tip - FINALITY_DEPTH). pose proof (chain_sorted _ _ Hi tip Htd) as Hsort.
  destruct (chain_below_spec _ _ Hi th (selected_chain (cs_ghostdag s) tip)) as [[k Hk] Hin]; [intros x; by apply (chain_dom _ _ Hi)|done|].
  assert (h ∈ chain_below (cs_ghostdag s) th (selected_chain (cs_ghostdag s) tip)) as Hb by (apply Hin; split; [done|unfold th; lia]).
  destruct (last (chain_below (cs_ghostdag s) th (selected_chain (cs_ghostdag s) tip))) as [fp|] eqn:Hl;
    [|apply last_None in Hl; rewrite Hl in Hb; by apply not_elem_of_nil in Hb].
  assert (finality_point s = Some fp) as Hfp by (apply (finality_point_Some s tip fp Hi Ht); done). exists fp. split; [done|].
  assert (score_of (cs_ghostdag s) h <= score_of (cs_ghostdag s) fp) as Hs.
  { apply last_Some in Hl as [l Hl]. rewrite Hl in Hb, Hk. rewrite Hk, <- app_assoc in Hsort. apply StronglySorted_app in Hsort as (Hx & _ & _).
    apply elem_of_app in Hb as [Hb|Hb]; [|apply list_elem_of_singleton in Hb; subst; lia]. enough (score_of (cs_ghostdag s) h < score_of (cs_ghostdag s) fp) by lia.
    apply Hx; [done|]. cbn [app]. by left. }
  destruct (finality_point_chain s tip fp Hi Ht Hfp) as [Hfc _]. destruct (chain_prefix _ _ Hi tip fp Htd Hfc) as [[l Hpre] _].
  rewrite Hpre in Hh, Hsort. apply elem_of_app in Hh as [Hh|Hh]; [done|]. apply StronglySorted_app in Hsort as (Hx & _ & _).
  enough (score_of (cs_ghostdag s) fp < score_of (cs_ghostdag s) h) by lia. apply Hx; [|done].
  assert (fp ∈ dom (cs_ghostdag s)) as [d Hd]%elem_of_dom by by apply (chain_dom _ _ Hi tip).
  rewrite (selected_chain_eq _ fp d (inv_wf _ _ Hi) Hd). apply elem_of_app. right. by apply list_elem_of_singleton.
Qed.
Lemma shallow_final_is_genesis L0 s tip h :
  reachable L0 s → tip ∈ dom (cs_dag s) → h ∈ selected_chain (cs_ghostdag s) tip → score_of (cs_ghostdag s) h <= 0 → h = genesis_hash.
Proof.
  intros Hr Htd Hh Hs. destruct (reachable_ok _ _ Hr) as (Hok & _). destruct (rbuilt_ok _ _ _ (ok_graph _ _ Hok)) as (Hi & _).
  destruct (selected_from_genesis L0 s tip Hr Htd) as [Hhead Hz]. pose proof (chain_sorted _ _ Hi tip ltac:(by rewrite (inv_dom _ _ Hi))) as Hsort.
  destruct (selected_chain (cs_ghostdag s) tip) as [|g l]; [done|]. injection Hhead as ->. apply elem_of_cons in Hh as [Hh|Hh]; [done|].
  apply StronglySorted_inv in Hsort as [_ Hg]. rewrite Forall_forall in Hg. specialize (Hg h Hh). lia.
Qed.

(** C39. On a node that keeps its history ([archival = true], from genesis), a block reported
    economically final is still reported so after every block the node admits: it stays on
    the selected chain, however the chain grows or is reorganised.  A pruning node, the
    default, is not covered: it drops old blocks and with them their reports. *)
Theorem economic_finality_kept L0 s now b s' :
  reachable L0 s → Z.of_nat (size (cs_dag s)) * SCALE < SPACE_END → add_block s now b = Ok s' →
  ∀ h, ef_is_economically_final (finality_of s h) = true → ef_is_economically_final (finality_of s' h) = true.
Proof.
  intros Hr Hsz Hadd h. assert (reachable L0 s') as Hr' by by eapply reachable_block.
  destruct (reachable_ok _ _ Hr) as (Hok & Har & _). destruct (reachable_ok _ _ Hr') as (Hok' & _).
  destruct (add_block_ok L0 s now b s' Hok Har Hsz Hadd) as (d & Hc & _ & _ & Hd' & Hg' & Ht' & _).
  destruct (rbuilt_ok _ _ _ (ok_graph _ _ Hok)) as (Hi & _). destruct (rbuilt_ok _ _ _ (ok_graph _ _ Hok')) as (Hi' & _).
  destruct (ok_main _ _ Hok) as (tip & Ht & Hm). destruct (ok_main _ _ Hok') as (tip' & Htip' & Hm').
  destruct (select_parent_Some _ _ _ Ht) as (_ & Htd & _). destruct (select_parent_Some _ _ _ Htip') as (_ & Htd' & _).
  destruct (ins_tip L0 s now b d Hok Hc Hsz tip Ht) as (tip1 & Ht1 & _ & Hgrow).
  assert (tip1 = tip') as -> by (rewrite <- Hg', <- Ht' in Ht1; congruence).
  assert (∀ st t, selected_tip (cs_ghostdag st) (cs_tips st) = Some t → t ∈ dom (cs_ghostdag st) → selected_tip_blue_score st = score_of (cs_ghostdag st) t) as Htop.
  { intros st t Hst [dt Hdt]%elem_of_dom. unfold selected_tip_blue_score, score_of. rewrite Hst. cbn [mbind option_bind]. by rewrite Hdt. }
  rewrite (finality_of_true s h (score_nonneg _ _ h Hi)), (finality_of_true s' h (score_nonneg _ _ h Hi')), (Htop s tip Ht Htd), (Htop s' tip' Htip' Htd'), Hm, Hm'.
  intros (Hh & Hhd & Hle). rewrite (inv_dom _ _ Hi) in Hhd, Htd. destruct (ins_old L0 s now b d Hok Hc Hsz h Hhd) as (_ & _ & Hsame & _ & Hhd').
  rewrite Hg'. split_and!; [|done|by rewrite Hsame; lia].
  destruct (decide (FINALITY_DEPTH < score_of (cs_ghostdag s) tip)) as [Hdeep|Hshallow].
  - destruct (below_finality_point s tip h Hi Ht Hh Hdeep Hle) as (fp & Hfp & Hhfp).
    destruct (ins_finality L0 s now b d Hok Hc Hsz fp Hfp) as (fp' & Hfp' & Hin).
    assert (finality_point s' = Some fp') as Hfp1 by (unfold finality_point in *; by rewrite Hg', Ht').
    destruct (finality_point_chain s' tip' fp' Hi' Htip' Hfp1) as [Hfc' _]. rewrite <- Hg' in *.
    assert (fp ∈ dom (cs_dag s)) as Hfd.
    { rewrite <- (inv_dom _ _ Hi). apply (chain_dom _ _ Hi tip); [by rewrite (inv_dom _ _ Hi)|]. by destruct (finality_point_chain s tip fp Hi Ht Hfp). }
    apply (chain_trans _ _ Hi' h fp' tip'); [done| |done]. apply (chain_trans _ _ Hi' h fp fp'); [by apply (chain_dom _ _ Hi' tip')| |done].
    rewrite Hg'. destruct (ins_old L0 s now b d Hok Hc Hsz fp Hfd) as (_ & -> & _). done.
  - assert (h = genesis_hash) as ->.
    { apply (shallow_final_is_genesis L0 s tip); [done..|]. lia. }
    rewrite <- Hg'. apply head_Some_elem_of. apply (selected_from_genesis L0 s' tip' Hr'). by rewrite <- (inv_dom _ _ Hi').
Qed.
End final.

(** ** Witnesses *)

Section econ_witnesses.
Import ChainExample.
#[local] Existing Instances ex_crypto ex_dual ex_body ex_env.

(** Two notarised blocks that differ in their signature bytes only. *)
Definition notarised (sig : string) : ProvenanceRecord :=
  {| pr_settlement_id := "aa"; pr_instrument_type := "PoW Block"; pr_issuing_authority := Some "hsn:01"; pr_jurisdiction := "";
     pr_issuance_signature := sig; pr_issuance_verified := true; pr_issued_at_ms := 7 |}.
Definition no_kin : LineageGraph :=
  {| li_ancestors := []; li_selected_parent := None; li_economic_offspring := []; li_economic_siblings := [];
     li_blue_mergeset_size := Some 1; li_red_mergeset_size := Some 0 |}.
Definition settled : EconomicFinality :=
  {| ef_blue_score := Some 9; ef_is_on_selected_chain := true; ef_is_economically_final := true; ef_confirmations := Some 90000; ef_finality_depth := FINALITY_DEPTH |}.
Lemma audit_trail_binding_witness :
  at_trail_hash (@audit_build Toy.toy_crypto 5 false (notarised "01") no_kin settled) = at_trail_hash (@audit_build Toy.toy_crypto 5 false (notarised "02") no_kin settled) ∧
  (audit_events 5 false (notarised "01") no_kin settled = audit_events 5 false (notarised "02") no_kin settled ∨ @collision Toy.toy_crypto).
Proof.
  assert (at_trail_hash (@audit_build Toy.toy_crypto 5 false (notarised "01") no_kin settled) = at_trail_hash (@audit_build Toy.toy_crypto 5 false (notarised "02") no_kin settled)) as He by reflexivity.
  split; [exact He|]. exact (@audit_trail_binding Toy.toy_crypto Toy.toy_laws 5 false (notarised "01") no_kin settled 5 false (notarised "02") no_kin settled He).
Defined.
End econ_witnesses.
