(* ===== verification/Trace.v ===== *)
(** * The block trace

    [src/src/ai_trace.rs]: the process-wide log of accepted blocks and custody
    certificates, numbered, with a digest per event, bounded to the latest ten thousand.
    The text of a JSON value is [serde_json]'s, a parameter; the clock is an argument. *)

From S2P Require Import Prelude Genesis Crypto Address Predicate Utxo UtxoTx Escrow Bdpe Registry Custody Block Ledger.
From S2P Require Import Dag Ghostdag Reachability FeeHistory Stark VersionBits Superproof State Chain ChainInv Mempool FeeEstimate.
From S2P Require Import AccountPool Net Mining Stratum Kernel Indexer Persist Api.

(** [Value::to_string]. *)
Class JsonText := { json_text : Json → bytes }.

Record AiTraceEvent := {
  tv_seq : Z;
  tv_timestamp_ms : Z;
  tv_event : string;
  tv_block_hash : option string;
  tv_settlement_id : option string;
  tv_birth_ok : option bool;
  tv_detail : Json;
  tv_event_digest512 : string;
}.
Record AiTraceLog := { tl_events : list AiTraceEvent; tl_next_seq : Z }.
Definition AiTraceLog_default : AiTraceLog := {| tl_events := []; tl_next_seq := 0 |}.
Definition MAX_TRACE_EVENTS : nat := Z.to_nat 10000.

Section trace.
Context `{!Crypto, !DualCrypto, !BodyCodec, !JsonText}.

Definition trace_event (seq now : Z) (event : string) (block : option Block) (detail : Json) : AiTraceEvent :=
  let block_hash := (λ b, hash_hex (block_hash b)) <$> block in
  let settlement := (λ b, hex_encode (settlement_id b)) <$> block in
  let birth := (λ b, is_ok (verify_issuance b)) <$> block in
  let payload := JObj [("seq", JNum seq); ("event", JStr event); ("block_hash", jopt JStr block_hash); ("settlement_id", jopt JStr settlement);
    ("birth_ok", jopt JBool birth); ("detail", detail)] in
  {| tv_seq := seq; tv_timestamp_ms := now; tv_event := event; tv_block_hash := block_hash; tv_settlement_id := settlement; tv_birth_ok := birth;
     tv_detail := detail; tv_event_digest512 := hex_encode (digest512 (str_bytes "ai-trace") (json_text payload)) |}.
(** [AiTraceLog::record]; the counter wraps at 64 bits in the release profile. *)
Definition record (log : AiTraceLog) (now : Z) (event : string) (block : option Block) (detail : Json) : AiTraceLog :=
  let events := tl_events log ++ [trace_event (tl_next_seq log) now event block detail] in
  {| tl_events := drop (length events - MAX_TRACE_EVENTS) events; tl_next_seq := wrap 64 (tl_next_seq log + 1) |}.
Definition record_custody (log : AiTraceLog) (now : Z) (c : CustodyCertificate) : AiTraceLog :=
  record log now "custody" None
    (JObj [("kind", JStr (kind_debug (cc_kind c))); ("owner", JStr (cc_owner c)); ("amount", jdec (cc_amount c));
           ("foreign_chain_id", JNum (cc_foreign_chain_id c)); ("settlement_id", JStr (cc_settlement_id c)); ("block_hash", jhash (cc_block_hash c))]).
Definition trace_block_accepted (log : AiTraceLog) (now : Z) (b : Block) : AiTraceLog :=
  record log now "block_accepted" (Some b)
    (JObj [("height", JNum (blk_height b)); ("transfers", jlen (blk_transparent_txs b)); ("registry_ops", jlen (blk_registry_ops b));
           ("issuer", JStr (encode_hash (blk_miner b))); ("settlement_bits", JNum 512);
           ("birth_certificate_present", JBool (negb (bool_decide (blk_birth_certificate b = []))))]).
Definition trace_block_rejected (log : AiTraceLog) (now : Z) (reason : string) (b : option Block) : AiTraceLog :=
  record log now "block_rejected" b (JObj [("reason", JStr reason)]).

Definition recent (log : AiTraceLog) (n : nat) : list AiTraceEvent := drop (length (tl_events log) - n) (tl_events log).
Definition for_block (log : AiTraceLog) (h : string) : list AiTraceEvent :=
  List.filter (λ e, bool_decide (tv_block_hash e = Some h)) (tl_events log).
Definition tip_digest512 (log : AiTraceLog) : string :=
  hex_encode (digest512 (str_bytes "ai-trace-tip") (concat ((λ e, str_bytes (tv_event_digest512 e)) <$> tl_events log))).

(** The derived JSON form of an event. *)
Definition json_trace_event (e : AiTraceEvent) : Json :=
  JObj [("seq", JNum (tv_seq e)); ("timestamp_ms", JNum (tv_timestamp_ms e)); ("event", JStr (tv_event e)); ("block_hash", jopt JStr (tv_block_hash e));
    ("settlement_id", jopt JStr (tv_settlement_id e)); ("birth_ok", jopt JBool (tv_birth_ok e)); ("detail", tv_detail e);
    ("event_digest512", JStr (tv_event_digest512 e))].
(** [ApiServer::ai_trace], [ai_trace_block]. *)
Definition ai_trace (log : AiTraceLog) (n : nat) : Json :=
  JObj [("events", JArr (json_trace_event <$> recent log n)); ("tip_digest512", JStr (tip_digest512 log)); ("signature_scheme", JStr "ML-DSA-87");
    ("digest_bits", JNum 512)].
Definition ai_trace_block (log : AiTraceLog) (h : string) : Json :=
  JObj [("block", JStr h); ("events", JArr (json_trace_event <$> for_block log h))].

(** ** The log is the end of the history *)

(** What is asked to be recorded: when, the event, the block and the detail. *)
Definition Entry : Type := Z * string * option Block * Json.
Definition record_entry (log : AiTraceLog) (e : Entry) : AiTraceLog := let '(now, event, block, detail) := e in record log now event block detail.
Fixpoint numbered (seq : Z) (es : list Entry) : list AiTraceEvent :=
  match es with
  | [] => []
  | (now, event, block, detail) :: es => trace_event seq now event block detail :: numbered (seq + 1) es
  end.
Lemma length_numbered seq es : length (numbered seq es) = length es.
Proof. revert seq. induction es as [|[[[now ev] b] d] es IH]; intros seq; [done|]. simpl. by rewrite IH. Qed.
Lemma numbered_snoc seq es now ev b d :
  numbered seq (es ++ [(now, ev, b, d)]) = numbered seq es ++ [trace_event (seq + len es) now ev b d].
Proof.
  revert seq. induction es as [|[[[now' ev'] b'] d'] es IH]; intros seq; [unfold len; simpl; by rewrite Z.add_0_r|].
  simpl. rewrite IH. unfold len. cbn [length]. by replace (seq + 1 + Z.of_nat (length es)) with (seq + Z.of_nat (S (length es))) by lia.
Qed.

Lemma trace_history es :
  len es <= U64_MAX →
  foldl record_entry AiTraceLog_default es =
    {| tl_events := drop (length es - MAX_TRACE_EVENTS) (numbered 0 es); tl_next_seq := len es |}.
Proof.
  induction es as [|[[[now ev] b] d] es IH] using rev_ind; intros Hn; [done|]. unfold len in *. rewrite length_app in *. cbn [length] in *.
  rewrite foldl_app, IH by lia. cbn [foldl record_entry]. unfold record. cbn [tl_events tl_next_seq]. rewrite numbered_snoc.
  rewrite wrap_small by (unfold in_width, umax in *; lia). f_equal; [|lia]. unfold len. rewrite length_app, length_drop, length_numbered. cbn [length].
  assert (1 <= MAX_TRACE_EVENTS)%nat by (unfold MAX_TRACE_EVENTS; lia).
  rewrite drop_app_le by (rewrite length_drop, length_numbered; lia). rewrite drop_drop, drop_app_le by (rewrite length_numbered; lia).
  f_equal. f_equal. lia.
Qed.
End trace.

Section trace_theorems.
Context `{!Crypto, !DualCrypto, !BodyCodec, !JsonText}.

(** The bounded log refines the complete history: after any sequence of records it holds the
    latest ten thousand of the events numbered from zero in the order they were recorded, so
    [recent n] is the last [n] of them whenever [n] is within the bound, and nothing but the
    oldest events is ever missing. *)
Theorem trace_refines_history es :
  len es <= U64_MAX →
  let log := foldl record_entry AiTraceLog_default es in
  (length (tl_events log) <= MAX_TRACE_EVENTS)%nat ∧
  (∀ n, (n <= MAX_TRACE_EVENTS)%nat → recent log n = drop (length es - n) (numbered 0 es)) ∧
  ∀ h e, e ∈ for_block log h → e ∈ numbered 0 es ∧ tv_block_hash e = Some h.
Proof.
  intros Hn. cbv zeta. rewrite trace_history by done. split_and!.
  - cbn [tl_events]. rewrite length_drop, length_numbered. lia.
  - intros n Hle. unfold recent. cbn [tl_events]. rewrite length_drop, length_numbered, drop_drop. f_equal. lia.
  - intros h e. unfold for_block. cbn [tl_events]. rewrite elem_of_filter_bool, bool_decide_eq_true. intros [He Hin]. split; [|done].
    apply list_elem_of_lookup in Hin as [i Hi]. rewrite lookup_drop in Hi. by eapply list_elem_of_lookup_2.
Qed.
End trace_theorems.

Section trace_witness.
#[local] Existing Instances ChainExample.ex_crypto ChainExample.ex_dual ChainExample.ex_body.
#[local] Instance text : JsonText := {| json_text _ := [] |}.
Definition history : list Entry := [(1, "a", None, JNull); (2, "b", None, JNull); (3, "c", None, JNull)].
Lemma trace_refines_history_witness :
  len history <= U64_MAX ∧ recent (foldl record_entry AiTraceLog_default history) 2 = [trace_event 1 2 "b" None JNull; trace_event 2 3 "c" None JNull].
Proof.
  assert (len history <= U64_MAX) as Hn by (vm_compute; discriminate). split; [exact Hn|].
  destruct (trace_refines_history history Hn) as (_ & Hr & _). apply (Hr 2%nat). unfold MAX_TRACE_EVENTS. lia.
Defined.
End trace_witness.
