(* ===== verification/Explorer.v ===== *)
(** * The explorer's queries

    The search and report functions of [src/src/indexer.rs] with the index handle, and the
    reports of [src/src/api.rs] that draw on several components: status, network, pruning
    proofs, the rich block view and the audit pack.  Parameters: the iteration order of the
    index tables, Unicode lower-casing, and the serialised form of derived types; the
    clock, the network snapshot and the result of a floating-point division are arguments
    or opaque JSON numbers. *)

From S2P Require Import Prelude Genesis Crypto Address Predicate Utxo UtxoTx Escrow Bdpe Registry Custody Block Ledger.
From S2P Require Import Dag Ghostdag Reachability FeeHistory Stark VersionBits Superproof State Chain ChainInv Sync Mempool FeeEstimate.
From S2P Require Import AccountPool Net PeerPin AddrMan P2p Dispatch Mining Stratum Kernel Indexer Persist Api Economics Trace.

Class ExplorerEnv := {
  by_hash_iter : gmap string Z → list (string * Z);
  txs_iter : gmap string TxRecord → list (string * TxRecord);
  labels_iter : gmap string string → list (string * string);
  (** [str::to_lowercase]. *)
  to_lowercase : bytes → bytes;
  (** [bincode] of the two header proofs, the derived JSON of the multi-level one and of the
      cost estimate for a difficulty, and one decimal of a quotient. *)
  ser_linear_proof : list Block → option bytes;
  ser_multilevel_proof : MultiLevelPruningProof → option bytes;
  json_multilevel_proof : MultiLevelPruningProof → option Json;
  json_cost_basis : Z → Json;
  ratio_text : Z → Z → string;
}.
(** Iterating yields every entry once. *)
Class ExplorerEnvOk `{!ExplorerEnv} : Prop := {
  by_hash_iter_ok m : by_hash_iter m ≡ₚ map_to_list m;
  txs_iter_ok m : txs_iter m ≡ₚ map_to_list m;
  labels_iter_ok m : labels_iter m ≡ₚ map_to_list m;
}.

(** [trim_start_matches]: all repetitions of the prefix. *)
Fixpoint trim_start_matches (fuel : nat) (pre l : bytes) : bytes :=
  match fuel with
  | O => l
  | S fuel => match strip_prefix pre l with Some rest => trim_start_matches fuel pre rest | None => l end
  end.
Fixpoint bytes_contain (needle l : bytes) : bool :=
  bool_decide (is_Some (strip_prefix needle l)) || match l with [] => false | _ :: l => bytes_contain needle l end.

Section explorer.
Context `{!Crypto, !DualCrypto, !BodyCodec, !NodeEnv, !PoolEnv, !ApiEnv, !IndexEnv, !StratumEnv, !JsonText, !ExplorerEnv}.

(** ** The index *)

Definition label_of (db : IndexerDb) (k : string) : Json := jopt JStr (ix_labels db !! k).
Definition block_hit (db : IndexerDb) (id : string) (height : Z) : Json :=
  JObj [("kind", JStr "block"); ("id", JStr id); ("height", JNum height); ("label", label_of db id)].
(** By height. *)
Definition height_hits (db : IndexerDb) (q : bytes) : list Json :=
  match parse_uint U64_MAX q with
  | Some h => from_option (λ b, [block_hit db (br_hash b) (br_height b)]) [] (ix_blocks db !! h)
  | None => []
  end.
(** By address, in any of its forms. *)
Definition address_hits (db : IndexerDb) (q : bytes) : list Json :=
  let a := bytes_str q in
  if is_valid_address a || bool_decide (is_Some (strip_prefix (str_bytes "hsn:") q)) || bool_decide (is_Some (strip_prefix (str_bytes "hsn1") q))
  then [JObj [("kind", JStr "address"); ("id", JStr a); ("tx_count", JNum (from_option len 0 (ix_address_txs db !! a))); ("label", label_of db a)]]
  else [].
(** By hash: exact, else by prefix, at most eight of each kind.  A text that lower-cases to
    hexadecimal digits is ASCII. *)
Definition hash_hits (db : IndexerDb) (q : bytes) : list Json :=
  let qhex := to_ascii_lowercase (default q (strip_prefix (str_bytes "0x") q)) in
  let id := bytes_str qhex in
  let starts k := bool_decide (is_Some (strip_prefix qhex (str_bytes k))) in
  if negb (forallb is_ascii_hexdigit qhex && (8 <=? len qhex)) then [] else
  match ix_by_hash db !! id with
  | Some h => [block_hit db id h]
  | None =>
      match ix_txs db !! id with
      | Some tx => [JObj [("kind", JStr "tx"); ("id", JStr id); ("height", JNum (tr_height tx)); ("block", JStr (tr_block_hash tx)); ("label", label_of db id)]]
      | None =>
          ((λ '(hash, height), block_hit db hash height) <$> take 8 (List.filter (λ kv, starts kv.1) (by_hash_iter (ix_by_hash db)))) ++
          ((λ '(id, tx), JObj [("kind", JStr "tx"); ("id", JStr id); ("height", JNum (tr_height tx)); ("block", JStr (tr_block_hash tx))])
             <$> take 8 (List.filter (λ kv, starts kv.1) (txs_iter (ix_txs db))))
      end
  end.
Definition outpoint_hits (db : IndexerDb) (q : bytes) : list Json :=
  match split_once 58 q with
  | Some (id, vout) =>
      if is_valid_hash_hex id && bool_decide (is_Some (parse_uint U32_MAX vout))
      then [JObj [("kind", JStr "outpoint"); ("id", JStr (bytes_str q)); ("txid", JStr (bytes_str id)); ("vout", JStr (bytes_str vout)); ("label", label_of db (bytes_str q))]]
      else []
  | None => []
  end.
(** By label: the limit of 32 counts the results found so far and is tested after one was
    added. *)
Definition label_hits (db : IndexerDb) (q : bytes) (found : Z) : list Json :=
  let lower := to_lowercase q in
  if negb (bool_decide (is_Some (strip_prefix (str_bytes "op:") lower)) || bool_decide (is_Some (strip_prefix (str_bytes "label:") lower))) then [] else
  let needle := trim (trim_start_matches (length lower) (str_bytes "label:") (trim_start_matches (length lower) (str_bytes "op:") lower)) in
  (λ '(k, v), JObj [("kind", JStr "label"); ("id", JStr k); ("label", JStr v)]) <$>
    take (Z.to_nat (Z.max 1 (32 - found)))
      (List.filter (λ kv, bytes_contain needle (to_lowercase (str_bytes kv.2)) || bytes_contain needle (to_lowercase (str_bytes kv.1))) (labels_iter (ix_labels db))).
Definition search_results (db : IndexerDb) (q : bytes) : list Json :=
  if bool_decide (q = []) then [] else
  let results := height_hits db q ++ address_hits db q ++ hash_hits db q ++ outpoint_hits db q in
  results ++ label_hits db q (len results).
Definition search (db : IndexerDb) (q : bytes) : Json :=
  let q := trim q in JObj [("query", JStr (bytes_str q)); ("results", JArr (search_results db q))].

(** The derived JSON of the records. *)
Definition json_point (p : SeriesPoint) : Json :=
  JObj [("height", JNum (sp_height p)); ("blue_score", JNum (sp_blue_score p)); ("timestamp", JNum (sp_timestamp p)); ("difficulty", JNum (sp_difficulty p));
    ("transfers", JNum (sp_transfers p)); ("fees", JStr (sp_fees p)); ("minted_supply", JStr (sp_minted_supply p)); ("mempool", JNum (sp_mempool p));
    ("dag_blocks", JNum (sp_dag_blocks p))].
Definition json_tx_record (t : TxRecord) : Json :=
  JObj [("tx_hash", JStr (tr_tx_hash t)); ("height", JNum (tr_height t)); ("block_hash", JStr (tr_block_hash t)); ("from", JStr (tr_from t));
    ("to", JStr (tr_to t)); ("amount", JStr (tr_amount t)); ("fee", JStr (tr_fee t)); ("nonce", JNum (tr_nonce t)); ("timestamp", JNum (tr_timestamp t))].
Definition jsize {K A} `{Countable K} (m : gmap K A) : Json := JNum (Z.of_nat (size m)).
(** The transfer rate is floating point. *)
Definition analytics (db : IndexerDb) (limit : Z) : Json :=
  let lim := clamp limit 1 MAX_SERIES_POINTS in
  let points := drop (Z.to_nat (sat_sub (len (ix_series db)) lim)) (ix_series db) in
  JObj [("points", JArr (json_point <$> points)); ("count", jlen points); ("tps_estimate", JFloat); ("tip_height", JNum (ix_tip_height db));
    ("tip_hash", jopt JStr (ix_tip_hash db)); ("indexed_at_ms", JNum (ix_indexed_at_ms db)); ("tx_index_size", jsize (ix_txs db));
    ("block_index_size", jsize (ix_blocks db)); ("address_index_size", jsize (ix_address_txs db)); ("label_count", jsize (ix_labels db))].
Definition address_history (db : IndexerDb) (addr : string) (limit : Z) : Json :=
  let lim := clamp limit 1 500 in
  let ids := default [] (ix_address_txs db !! addr) in
  JObj [("address", JStr addr); ("label", label_of db addr);
    ("txs", JArr (json_tx_record <$> omap (λ id, ix_txs db !! id) (take (Z.to_nat lim) (rev ids)))); ("total_indexed", jlen ids)].
Definition index_status (db : IndexerDb) (path : string) : Json :=
  JObj [("path", JStr path); ("format", JNum (ix_format db)); ("tip_height", JNum (ix_tip_height db)); ("tip_hash", jopt JStr (ix_tip_hash db));
    ("blocks", jsize (ix_blocks db)); ("txs", jsize (ix_txs db)); ("addresses", jsize (ix_address_txs db)); ("labels", jsize (ix_labels db));
    ("series", jlen (ix_series db)); ("indexed_at_ms", JNum (ix_indexed_at_ms db)); ("checksum", jhash (checksum db))].
(** [/api/v1/labels]: the first 500 in the order of their ids. *)
Definition label_le (a b : string * string) : Prop := String.leb a.1 b.1 = true.
#[global] Instance label_le_dec : RelDecision label_le.
Proof. intros a b. unfold label_le. apply _. Defined.
Definition labels_report (db : IndexerDb) : Json :=
  JObj [("labels", JArr ((λ '(k, v), JObj [("id", JStr k); ("label", JStr v)]) <$> take 500 (merge_sort label_le (labels_iter (ix_labels db)))))].

(** [IndexerHandle::open] from the file if there is one and it can be read; [sync] with
    whether writing works: the index and the file afterwards. *)
Definition index_open (file : option (result bytes)) : IndexerDb :=
  match file with
  | Some r => match (data ← r; load_index data) with Ok db => db | Err _ => IndexerDb_new end
  | None => IndexerDb_new
  end.
Definition index_sync (ser_err : string) (writes : bool) (db : IndexerDb) (file : option (result bytes)) (s : ChainState) (now : Z)
    : IndexerDb * option (result bytes) :=
  let db := sync_from_state db s now in
  (db, match index_bytes ser_err db with Ok data => if writes then Some (Ok data) else file | Err _ => file end).

(** ** The network snapshot *)

(** [NetworkStatus] and [refresh_network_status]. *)
Record NetworkStatus := { ns_peer_count : Z; ns_listening : bool; ns_listen_addr : option bytes; ns_banned_count : Z; ns_known_addrs : Z }.
Definition refresh_network_status (n : Shared) : NetworkStatus :=
  {| ns_peer_count := len (sh_peers n); ns_listening := bool_decide (is_Some (sh_my_listen_addr n)); ns_listen_addr := sh_my_listen_addr n;
     ns_banned_count := Z.of_nat (size (sh_banned_addrs n)); ns_known_addrs := Z.of_nat (size (sh_known_addrs n)) |}.
Definition network (net : NetworkStatus) (s : ChainState) : Json :=
  JObj [("peer_count", JNum (ns_peer_count net)); ("listening", JBool (ns_listening net)); ("listen_addr", jopt (λ a, JStr (bytes_str a)) (ns_listen_addr net));
    ("banned_count", JNum (ns_banned_count net)); ("known_addrs", JNum (ns_known_addrs net)); ("tips", jhashes (cs_tips s));
    ("dag_blocks", jsize (cs_dag s)); ("height", JNum (tip_height s)); ("chain_id", JNum (cs_chain_id s)); ("chain_hash", jhash chain_hash);
    ("genesis_domain", JStr (bytes_str GENESIS_DOMAIN))].

(** ** Status *)

Definition SLOGAN : string := "Knowing".
Definition CRATE_VERSION : string := "0.1.0".
Definition status_chain (s : ChainState) : list (string * Json) :=
  let p := cs_pools s in
  [("height", JNum (tip_height s)); ("blue_score", JNum (selected_tip_blue_score s)); ("dag_blocks", jsize (cs_dag s)); ("tips", jlen (cs_tips s));
   ("difficulty", JNum (cs_difficulty s)); ("target_block_time_ms", JNum TARGET_BLOCK_TIME_MS);
   ("mempool", JNum (len (transparent_mempool p) + len (utxo_mempool p) + len (registry_mempool p) + len (custody_mempool p)));
   ("mempool_transparent", jlen (transparent_mempool p)); ("mempool_utxo", jlen (utxo_mempool p)); ("mempool_registry", jlen (registry_mempool p));
   ("mempool_custody", jlen (custody_mempool p)); ("finality_depth", JNum FINALITY_DEPTH); ("pruning_depth", JNum PRUNING_DEPTH);
   ("min_relay_fee", jdec (current_min_relay_fee s))].
Definition status_ledger (s : ChainState) (now : Z) : list (string * Json) :=
  let l := cs_ledger s in
  [("titles", jsize (titles (l_registry l))); ("escrows", jsize (escrows (l_registry l))); ("pruning_point", jopt jhash (cs_pruning_point s));
   ("state_root", jopt (λ b, jhash (blk_state_root b)) (h ← last (cs_main_chain s); cs_dag s !! h)); ("utxo_commitment", jhash (commitment (l_utxo l)));
   ("utxo_set_size", JNum (Z.of_nat (size (entries (l_utxo l))))); ("supply_ok", JBool (supply_invariant_ok l));
   ("circulating_supply", jdec (minted_supply l)); ("max_supply", jdec MAX_SUPPLY); ("max_supply_coins", JNum MAX_SUPPLY_COINS); ("coin_decimals", JNum 8);
   ("block_reward", jdec BLOCK_REWARD); ("bootstrap_era_end", jdec BOOTSTRAP_ERA_END); ("hard_era_min_difficulty", JNum HARD_ERA_MIN_DIFFICULTY);
   ("era_min_difficulty", JNum (era_min_difficulty lab_easy (minted_supply l) now)); ("min_difficulty", JNum BOOTSTRAP_MIN_DIFFICULTY);
   ("total_supply", jdec (minted_supply l)); ("fees_burned", jdec (fees_burned l));
   ("fee_policy", JStr "v26+ fees pay miner coinbase (subsidy+fees); fees_burned is legacy and 0 on fresh chains");
   ("stark_kind", JStr "sequential_work_companion"); ("stark_is_validity_zk", JBool false);
   ("stark_notes", JStr "Per-block STARK proves SEQUENTIAL_STEPS of a fixed AIR from the block-hash seed — a VDF-style companion to PoW, not a validity ZK of txs/state transitions and not privacy ZK.");
   ("assume_valid", jopt jhash pinned_digest); ("staked_accounts", jsize (staked l))].
Definition status_node (net : NetworkStatus) (s : ChainState) : list (string * Json) :=
  [("chain_id", JNum (cs_chain_id s)); ("chain_hash", jhash chain_hash); ("genesis_domain", JStr (bytes_str GENESIS_DOMAIN)); ("founder", JStr FOUNDER);
   ("slogan", JStr SLOGAN); ("settlement_bits", JNum 512); ("signature_scheme", JStr "ML-DSA-87"); ("pow_algo", JStr "blake3-512");
   ("pow_notes", JStr "Blake3-512 XOF PoW; target_block_time_ms=100. Bootstrap floor 7000 until 1M HSN minted, then hard 2^24. Optional HASSAN_BOOTSTRAP_EASY=1 keeps bootstrap floor after 1M (peers must match). Parallel GHOSTDAG tips: more honest hashrate raises aggregate accepted blocks/sec. Solo miner, stratum (HASSAN_STRATUM_PASSWORD), /api/v1/mining/light.");
   ("pq_digest_bits", JNum 512); ("abs_scheme", JNum 87); ("peers", JNum (ns_peer_count net)); ("p2p_listening", JBool (ns_listening net));
   ("p2p_listen_addr", jopt (λ a, JStr (bytes_str a)) (ns_listen_addr net)); ("archival", JBool (cs_archival s)); ("kernel_rules", jhash kernel_rules_id);
   ("crate_version", JStr CRATE_VERSION)].
Definition status (net : NetworkStatus) (s : ChainState) (now : Z) : Json :=
  JObj (status_chain s ++ status_ledger s now ++ status_node net s).

(** [VersionBitsState::status_json]. *)
Definition deployment_str (st : DeploymentState) : string :=
  match st with Defined => "Defined" | Started => "Started" | LockedIn => "LockedIn" | Active => "Active" | Failed => "Failed" end.
Definition version_bits_json (v : VersionBitsState) : Json :=
  JObj [("window", JNum SIGNAL_WINDOW); ("threshold", JNum SIGNAL_THRESHOLD);
    ("deployments", JArr ((λ '(i, d), JObj [("name", JStr (dep_name d)); ("bit", JNum (dep_bit d));
       ("state", JStr (deployment_str (default Defined (states v !! i)))); ("window_signals", JNum (default 0 (window_counts v !! i)))])
       <$> imap (λ i d, (i, d)) DEPLOYMENTS))].
(** [/api/v1/stratum]: a server of its own for every request, with one job and no worker. *)
Definition stratum_status (password : option string) (s : ChainState) (now : Z) : Json :=
  let '(notify, sv) := make_notify (StratumServer_new password) s now in
  JObj [("notify", notify); ("workers", worker_stats sv [])].

(** ** Pruning proofs *)

Definition proof_fuel (s : ChainState) : nat := S (size (cs_dag s)).
Definition pruning_proof_stats (s : ChainState) (now : Z) : Json :=
  let linear := length <$> build_pruning_proof s in
  let multilevel := state_multilevel_proof (proof_fuel s) s PRUNING_PROOF_RECENT_WINDOW in
  let summary := p ← multilevel; match verify_multilevel_pruning_proof lab_easy now p with Ok sm => Some sm | Err _ => None end in
  JObj [("archival", JBool (cs_archival s)); ("pruning_point", jopt jhash (cs_pruning_point s)); ("linear_proof_headers", jopt (λ n, JNum (Z.of_nat n)) linear);
    ("multilevel_proof_headers", jopt (λ sm, JNum (ms_header_count sm)) summary);
    ("multilevel_recent_headers", jopt (λ p, jlen (recent_headers p)) multilevel); ("multilevel_hops", jopt (λ p, jlen (hops p)) multilevel);
    ("compression_ratio", match linear, summary with
       | Some n, Some sm => if 0 <? ms_header_count sm then JStr (ratio_text (Z.of_nat n) (ms_header_count sm)) else JNull
       | _, _ => JNull
       end);
    ("verified_work", jopt (λ sm, jdec (ms_verified_work sm)) summary); ("estimated_total_work", jopt (λ sm, jdec (ms_estimated_total_work sm)) summary)].
Definition pruning_proof_download (s : ChainState) (now : Z) : Json :=
  let linear := build_pruning_proof s in
  let multilevel := state_multilevel_proof (proof_fuel s) s PRUNING_PROOF_RECENT_WINDOW in
  JObj [("archival", JBool (cs_archival s)); ("pruning_point", jopt jhash (cs_pruning_point s)); ("linear_proof_hex", jopt jbytes (linear ≫= ser_linear_proof));
    ("linear_headers", jopt jlen linear); ("multilevel_proof_hex", jopt jbytes (multilevel ≫= ser_multilevel_proof));
    ("multilevel", default JNull (multilevel ≫= json_multilevel_proof)); ("stats", pruning_proof_stats s now)].

(** ** Economic views *)

Definition verification_json (v : VerificationSnapshot) : Json :=
  JObj [("protocol_min_fee", jdec (ve_protocol_min_fee v)); ("current_min_relay_fee", jdec (ve_current_min_relay_fee v)); ("low_fee_estimate", jdec (ve_low v));
    ("medium_fee_estimate", jdec (ve_medium v)); ("high_fee_estimate", jdec (ve_high v)); ("verification_spread", jdec (ve_spread v));
    ("mempool_txs", JNum (ve_mempool_txs v)); ("package_count", JNum (ve_package_count v)); ("best_package_fee", jdec (ve_best_package_fee v))].
Definition custodian_json (c : Custodian) : Json :=
  match c with
  | PrimaryIssuer a => JObj [("role", JStr "PrimaryIssuer"); ("address", jopt JStr a)]
  | Validator d => JObj [("role", JStr "Validator"); ("description", JStr d)]
  | ArchiveCustodian b => JObj [("role", JStr "ArchiveCustodian"); ("is_local_node_archival", JBool b)]
  | BeneficialOwner a bal => JObj [("role", JStr "BeneficialOwner"); ("address", jopt JStr a); ("current_balance", JStr bal)]
  end.
Definition jstrs (l : list string) : Json := JArr (JStr <$> l).
Definition provenance_json (p : ProvenanceRecord) : Json :=
  JObj [("settlement_id", JStr (pr_settlement_id p)); ("instrument_type", JStr (pr_instrument_type p)); ("issuing_authority", jopt JStr (pr_issuing_authority p));
    ("jurisdiction", JStr (pr_jurisdiction p)); ("issuance_signature", JStr (pr_issuance_signature p)); ("issuance_verified", JBool (pr_issuance_verified p));
    ("issued_at_ms", JNum (pr_issued_at_ms p))].
Definition lineage_json (l : LineageGraph) : Json :=
  JObj [("ancestors", jstrs (li_ancestors l)); ("selected_parent", jopt JStr (li_selected_parent l)); ("economic_offspring", jstrs (li_economic_offspring l));
    ("economic_siblings", jstrs (li_economic_siblings l)); ("blue_mergeset_size", jopt JNum (li_blue_mergeset_size l));
    ("red_mergeset_size", jopt JNum (li_red_mergeset_size l))].
Definition finality_json (f : EconomicFinality) : Json :=
  JObj [("blue_score", jopt JNum (ef_blue_score f)); ("is_on_selected_chain", JBool (ef_is_on_selected_chain f));
    ("is_economically_final", JBool (ef_is_economically_final f)); ("confirmations", jopt JNum (ef_confirmations f)); ("finality_depth", JNum (ef_finality_depth f))].
Definition trail_json (t : AuditTrail) : Json :=
  JObj [("entries", JArr ((λ e, JObj [("sequence", JNum (ae_sequence e)); ("event", JStr (ae_event e)); ("detail", JStr (ae_detail e));
      ("prev_entry_hash", JStr (ae_prev_entry_hash e)); ("entry_hash", JStr (ae_entry_hash e))]) <$> at_entries t)); ("trail_hash", JStr (at_trail_hash t))].
(** [get_block_economic_entity], [get_block_economic_biography], [get_tx_economic_entity]: not
    found, or the JSON form, itself [None] when the fee estimate does not return. *)
Definition get_block_economic_entity (s : ChainState) (id : string) : option (option Json) :=
  '(h, _) ← resolve_block s id;
  e ← entity_for_block s h;
  Some (v ← ee_verification e;
    Some (JObj [("header_hash", JStr (ee_header_hash e)); ("height", jopt JNum (ee_height e)); ("transaction_count", JNum (ee_transaction_count e));
      ("provenance", provenance_json (ee_provenance e));
      ("custody", JObj [("primary_issuer", custodian_json (cu_primary_issuer (ee_custody e))); ("validator", custodian_json (cu_validator (ee_custody e)));
         ("archive_custodian", custodian_json (cu_archive_custodian (ee_custody e))); ("beneficial_owner", custodian_json (cu_beneficial_owner (ee_custody e)))]);
      ("lineage", lineage_json (ee_lineage e)); ("finality", finality_json (ee_finality e)); ("audit_trail", trail_json (ee_audit_trail e));
      ("cost_basis", json_cost_basis (ee_difficulty e)); ("verification_economics", verification_json v)])).
Definition get_block_economic_biography (s : ChainState) (id : string) : option Json :=
  '(h, _) ← resolve_block s id;
  b ← biography_for_block s h;
  Some (JObj [("header_hash", JStr (eb_header_hash b)); ("origin", JStr (eb_origin b)); ("transformations", jstrs (eb_transformations b));
    ("current_state", JStr (eb_current_state b))]).
Definition tx_lineage_json (l : TransactionLineage) : Json :=
  match l with
  | Pending => JObj [("status", JStr "Pending")]
  | Confirmed b h => JObj [("status", JStr "Confirmed"); ("containing_block", JStr b); ("height", jopt JNum h)]
  end.
Definition get_tx_economic_entity (s : ChainState) (id : string) : option Json :=
  h ← hash_of_hex id;
  t ← entity_for_tx s h;
  Some (JObj [("tx_hash", JStr (te_tx_hash t)); ("signed_by", JStr (te_signed_by t)); ("nonce", JNum (te_nonce t)); ("lineage", tx_lineage_json (te_lineage t));
    ("remitting_agent", JStr (te_remitting_agent t)); ("beneficiary_agent", JStr (te_beneficiary_agent t)); ("amount", jdec (te_amount t)); ("fee", jdec (te_fee t));
    ("journey", JObj [("first_seen_ms", jopt JNum (tj_first_seen_ms (te_journey t))); ("confirmed_at_ms", jopt JNum (tj_confirmed_at_ms (te_journey t)));
       ("mempool_dwell_ms", jopt JNum (tj_mempool_dwell_ms (te_journey t)))])]).

(** ** Combined views *)

(** [Map::insert]; [v[key]] of a missing key is null. *)
Definition json_put (fields : list (string * Json)) (k : string) (v : Json) : list (string * Json) :=
  List.filter (λ kv, negb (bool_decide (kv.1 = k))) fields ++ [(k, v)].
Definition json_at (v : Json) (k : string) : Json := default JNull (json_get v k).
Definition copy_fields (from : Json) (keys : list (string * string)) (fields : list (string * Json)) : list (string * Json) :=
  foldl (λ fs kk, json_put fs kk.1 (json_at from kk.2)) fields keys.
Definition get_block_rich (s : ChainState) (id : string) : option Json :=
  v ← get_block s id;
  Some (match v with
        | JObj fields =>
            let fields := match mergeset_edges s id with
              | Some ms => copy_fields ms [("mergeset_blues", "mergeset_blues"); ("mergeset_reds", "mergeset_reds"); ("mergeset_edges", "edges")] fields
              | None => fields
              end in
            JObj (match audit_block_dump s id with
              | Some dump => copy_fields dump [("stark_proof_bytes", "stark_proof_bytes"); ("coinbase_entropy", "coinbase_entropy"); ("interlinks", "interlinks");
                  ("registry_ops_detail", "registry_ops"); ("custody_ops_detail", "custody_ops"); ("utxo_txs_detail", "utxo_txs")] fields
              | None => fields
              end)
        | _ => v
        end).
Definition audit_pack (net : NetworkStatus) (s : ChainState) (now : Z) (block_id : option string) : option Json :=
  let block_dump := id ← (match block_id with Some id => Some id | None => hash_hex <$> last (cs_main_chain s) end); audit_block_dump s id in
  fees ← fee_estimate s;
  Some (JObj [("generated_at_ms", JNum now); ("crate_version", JStr CRATE_VERSION); ("genesis_domain", JStr (bytes_str GENESIS_DOMAIN));
    ("status", status net s now); ("supply", get_supply s); ("network", network net s); ("fee_estimate", fees); ("fee_history", fee_history_export s);
    ("pruning", pruning_proof_download s now); ("light_tip", light_tip s 16); ("utxo_snapshot", utxo_snapshot s 256);
    ("block", default JNull block_dump); ("kernel_rules", jhash kernel_rules_id)]).
End explorer.

(** ** Search finds the chain *)

Lemma strip_prefix_len pat l y : strip_prefix pat l = Some y → l = pat ++ y.
Proof. revert l. induction pat as [|x pat IH]; intros [|b l]; simpl; intros H; try done; try (by injection H as <-). destruct (Z.eqb_spec x b) as [->|]; [|done]. by rewrite (IH _ H). Qed.

Section search_theorems.
Context `{!Crypto, !CryptoLaws, !DualCrypto, !BodyCodec, !NodeEnv, !IndexEnv, !ExplorerEnv, !ExplorerEnvOk}.

Definition lower_hex_digit (b : Z) : Prop := 48 <= b <= 57 ∨ 97 <= b <= 102.
Lemma hex_digit_visible b : lower_hex_digit b → visible b.
Proof. unfold lower_hex_digit, visible. lia. Qed.
Lemma hex_digit_lower l : Forall lower_hex_digit l → to_ascii_lowercase l = l ∧ forallb is_ascii_hexdigit l = true.
Proof.
  unfold to_ascii_lowercase. induction 1 as [|b l Hb _ [IH1 IH2]]; [done|]. split.
  - cbn [fmap list_fmap]. rewrite IH1. f_equal. unfold is_ascii_uppercase, lower_hex_digit in *. destruct (Z.leb_spec 65 b), (Z.leb_spec b 90); cbn [andb]; lia.
  - cbn [forallb]. rewrite IH2, andb_true_r. unfold is_ascii_hexdigit. apply bool_decide_eq_true. unfold to_digit, lower_hex_digit in *.
    repeat case_match; zbool; try lia; by eexists.
Qed.
Lemma hex_no_0x l : Forall lower_hex_digit l → strip_prefix (str_bytes "0x") l = None.
Proof.
  intros Hl. destruct (strip_prefix (str_bytes "0x") l) as [r|] eqn:Hs; [|done]. exfalso.
  apply strip_prefix_len in Hs. subst l. rewrite Forall_app in Hl. destruct Hl as [Hl _]. change (str_bytes "0x") with [48; 120] in Hl.
  rewrite !Forall_cons in Hl. unfold lower_hex_digit in Hl. lia.
Qed.

Lemma block_hit_inj db i k i' k' : block_hit db i k = block_hit db i' k' → i = i' ∧ k = k'.
Proof. unfold block_hit. by intros [= -> -> _]. Qed.

Lemma hash_hits_exact db h k :
  Forall lower_hex_digit (str_bytes (hash_hex h)) →
  block_hit db (hash_hex h) k ∈ hash_hits db (str_bytes (hash_hex h)) ↔ ix_by_hash db !! hash_hex h = Some k.
Proof.
  intros Hd. destruct (hex_digit_lower _ Hd) as [Hlow Hall].
  assert (8 <=? len (str_bytes (hash_hex h)) = true) as Hlen.
  { apply Z.leb_le. unfold len, hash_hex, hash_bytes. rewrite length_str_bytes, hex_encode_length, length_be_bytes. lia. }
  unfold hash_hits. cbv zeta. rewrite (hex_no_0x _ Hd). cbn [default]. rewrite Hlow, Hall, Hlen. cbn [negb andb]. rewrite bytes_str_bytes.
  destruct (ix_by_hash db !! hash_hex h) as [k0|] eqn:Hb.
  - rewrite list_elem_of_singleton. split; [by intros [_ ->]%block_hit_inj|by intros [= ->]].
  - split; [|done]. destruct (ix_txs db !! hash_hex h); [by intros ?%list_elem_of_singleton|]. rewrite elem_of_app, !list_elem_of_fmap.
    intros [([i k1] & [<- <-]%block_hit_inj & Hin)|([i tx] & Hbad & _)]; [|done].
    assert ((hash_hex h, k) ∈ by_hash_iter (ix_by_hash db)) as Hin'.
    { apply elem_of_take in Hin as (j & Hj & _). apply list_elem_of_lookup_2 in Hj. by apply elem_of_filter_bool in Hj as [_ ?]. }
    rewrite by_hash_iter_ok, elem_of_map_to_list in Hin'. congruence.
Qed.

(** A search for the full hash of a block of the graph finds it as a block, under the height it
    has on the selected chain, exactly when it is on the selected chain: nothing of an
    abandoned branch is ever found. *)
Theorem search_exact L0 db s h k :
  (∀ l, is_bytes l → Forall lower_hex_digit (str_bytes (hex_encode l))) → follows L0 db s → h ∈ dom (cs_dag s) → 0 <= k →
  (∃ rs, json_get (search db (str_bytes (hash_hex h))) "results" = Some (JArr rs) ∧ block_hit db (hash_hex h) k ∈ rs) ↔
  cs_main_chain s !! Z.to_nat k = Some h.
Proof.
  intros Hhex Hf Hh Hk. pose proof (Hhex (hash_bytes h) ltac:(apply be_bytes_is_bytes)) as Hd. fold (hash_hex h) in Hd. pose proof Hf as (Hr & _)%follows_ok.
  destruct (index_exact L0 db s Hf) as [Hblocks Hhash].
  assert (json_get (search db (str_bytes (hash_hex h))) "results" = Some (JArr (search_results db (str_bytes (hash_hex h))))) as ->.
  { unfold search. cbv zeta. rewrite trim_visible by (eapply Forall_impl; [exact Hd|apply hex_digit_visible]). reflexivity. }
  transitivity (block_hit db (hash_hex h) k ∈ search_results db (str_bytes (hash_hex h))).
  { split; [by intros (rs & [= <-] & ?)|]. intros Hin. by eexists. }
  assert (∀ k', 0 <= k' → ix_by_hash db !! hash_hex h = Some k' ↔ cs_main_chain s !! Z.to_nat k' = Some h) as Hkey.
  { intros k' Hk'. rewrite Hhash. split; [|by eauto]. intros (_ & h' & Hh' & He). destruct (reachable_chain _ _ Hr) as (Hdom & _).
    rewrite Hh'. f_equal. apply (hash_hex_inj L0 s); [done| |done|done]. apply Hdom. by eapply list_elem_of_lookup_2. }
  pose proof (λ k', hash_hits_exact db h k' Hd) as Hhits.
  unfold search_results. rewrite bool_decide_eq_false_2.
  2: { intros He%(f_equal length). unfold hash_hex, hash_bytes in He. rewrite length_str_bytes, hex_encode_length, length_be_bytes in He. done. }
  cbv zeta.
  rewrite !elem_of_app, Hhits, (Hkey k Hk). split; [|by auto]. intros [[Hx|[Hx|[Hx|Hx]]]|Hx]; [| |done| |].
  - unfold height_hits in Hx. destruct (parse_uint U64_MAX (str_bytes (hash_hex h))) as [n|]; [|by apply not_elem_of_nil in Hx].
    rewrite Hblocks in Hx. unfold spec_at in Hx. destruct (decide (0 <= n)); [|by apply not_elem_of_nil in Hx].
    destruct (cs_main_chain s !! Z.to_nat n) as [h'|] eqn:Hn; [|by apply not_elem_of_nil in Hx]. cbn [mbind option_bind] in Hx.
    destruct (cs_dag s !! h') as [b'|] eqn:Hb'; [|by apply not_elem_of_nil in Hx]. cbn [from_option block_record br_hash br_height] in Hx.
    apply list_elem_of_singleton, block_hit_inj in Hx as [He ->].
    change (cs_main_chain s !! Z.to_nat n = Some h). rewrite Hn. f_equal. apply (hash_hex_inj L0 s); [done|by eapply elem_of_dom_2|done|exact (eq_sym He)].
  - unfold address_hits in Hx. cbv zeta in Hx. destruct (_ || _); [by apply list_elem_of_singleton in Hx|by apply not_elem_of_nil in Hx].
  - unfold outpoint_hits in Hx. destruct (split_once 58 _) as [[a v]|]; [|by apply not_elem_of_nil in Hx].
    destruct (_ && _); [by apply list_elem_of_singleton in Hx|by apply not_elem_of_nil in Hx].
  - unfold label_hits in Hx. cbv zeta in Hx. destruct (negb _); [by apply not_elem_of_nil in Hx|]. apply list_elem_of_fmap in Hx as ([a v] & Hbad & _). done.
Qed.
End search_theorems.

Section search_witness.
Import IndexExample.
#[local] Instance ex_explorer : ExplorerEnv :=
  {| by_hash_iter := map_to_list; txs_iter := map_to_list; labels_iter := map_to_list; to_lowercase := to_ascii_lowercase; ser_linear_proof _ := None;
     ser_multilevel_proof _ := None; json_multilevel_proof _ := None; json_cost_basis _ := JNull; ratio_text _ _ := "" |}.
#[local] Instance ex_explorer_ok : ExplorerEnvOk.
Proof. by split. Qed.
Lemma toy_hex_digits l : is_bytes l → Forall lower_hex_digit (str_bytes (Toy.encode_hex l)).
Proof.
  assert (∀ d, 0 <= d < 16 → lower_hex_digit (Z.of_N (Ascii.N_of_ascii (Toy.hex_digit d)))) as Hdigit.
  { intros d Hd. unfold Toy.hex_digit. destruct (Z.ltb_spec d 10); rewrite Ascii.N_ascii_embedding by lia; unfold lower_hex_digit; lia. }
  induction 1 as [|b l Hb _ IH]; [constructor|]. unfold in_width in Hb. change (umax 8) with 255 in Hb.
  constructor; [apply Hdigit; split; [apply Z.div_pos; lia|apply Z.div_lt_upper_bound; lia]|]. constructor; [apply Hdigit; pose proof (Z.mod_pos_bound b 16); lia|exact IH].
Qed.
Lemma later_chain :
  cs_main_chain ChainExample.later !! Z.to_nat 1 = Some (block_hash ChainExample.first_block) ∧ is_Some (cs_dag ChainExample.later !! block_hash ChainExample.first_block).
Proof.
  assert (bool_decide (cs_main_chain ChainExample.later !! Z.to_nat 1 = Some (block_hash ChainExample.first_block)) &&
    bool_decide (is_Some (cs_dag ChainExample.later !! block_hash ChainExample.first_block)) = true) as Hc by (vm_compute; reflexivity).
  apply andb_prop in Hc as [Ha Hb]. exact (conj (bool_decide_eq_true_1 _ Ha) (bool_decide_eq_true_1 _ Hb)).
Qed.
Lemma search_exact_witness :
  ∃ rs, json_get (search db1 (str_bytes (hash_hex (block_hash ChainExample.first_block)))) "results" = Some (JArr rs) ∧
    block_hit db1 (hash_hex (block_hash ChainExample.first_block)) 1 ∈ rs.
Proof.
  destruct later_chain as [Hc Hd%elem_of_dom].
  exact (proj2 (search_exact Ledger_default db1 ChainExample.later (block_hash ChainExample.first_block) 1 toy_hex_digits db1_follows Hd ltac:(done)) Hc).
Defined.
End search_witness.
