(* ===== verification/Http.v ===== *)
(** * The node's HTTP API: requests

    The server of [src/src/main.rs]: reading a request from the wire, the header and path
    parsing, the rate limit, the origin and token checks that guard every write, the
    routing table, the response and the event stream.  Handlers are those of [Api] and
    [Explorer].  Reading JSON text is [serde_json]'s: the class [HttpCodec].  Request text is a UTF-8 byte string, made valid
    as [String::from_utf8_lossy] makes it. *)

From S2P Require Import Prelude Genesis Crypto Address Predicate Utxo UtxoTx Escrow Bdpe Registry Custody Block Ledger.
From S2P Require Import Dag Ghostdag Reachability FeeHistory Stark VersionBits Superproof State Chain ChainInv Sync Mempool FeeEstimate.
From S2P Require Import MempoolInv AccountPool Net PeerPin AddrMan P2p Dispatch P2pInv Mining Stratum Kernel Indexer Persist Api Economics Trace Explorer.

(** ** Text *)

(** The first byte of a UTF-8 sequence: how many continuation bytes follow, and the range
    of the first of them. *)
Definition utf8_lead (b : Z) : option (nat * Z * Z) :=
  if b <? 0x80 then Some (0%nat, 0, 0) else
  if (0xC2 <=? b) && (b <=? 0xDF) then Some (1%nat, 0x80, 0xBF) else
  if b =? 0xE0 then Some (2%nat, 0xA0, 0xBF) else
  if b =? 0xED then Some (2%nat, 0x80, 0x9F) else
  if (0xE1 <=? b) && (b <=? 0xEF) then Some (2%nat, 0x80, 0xBF) else
  if b =? 0xF0 then Some (3%nat, 0x90, 0xBF) else
  if (0xF1 <=? b) && (b <=? 0xF3) then Some (3%nat, 0x80, 0xBF) else
  if b =? 0xF4 then Some (3%nat, 0x80, 0x8F) else None.
(** How many of the [n] continuation bytes are there. *)
Fixpoint utf8_tail (n : nat) (lo hi : Z) (l : bytes) : nat :=
  match n, l with
  | S n, b :: l => if (lo <=? b) && (b <=? hi) then S (utf8_tail n 0x80 0xBF l) else 0
  | _, _ => 0
  end.
(** [String::from_utf8_lossy]: every maximal broken prefix becomes U+FFFD. *)
Definition REPLACEMENT : bytes := [0xEF; 0xBF; 0xBD].
Fixpoint lossy_loop (fuel : nat) (l : bytes) : bytes :=
  match fuel, l with
  | S fuel, b :: l' =>
      match utf8_lead b with
      | None => REPLACEMENT ++ lossy_loop fuel l'
      | Some (n, lo, hi) =>
          let k := utf8_tail n lo hi l' in
          if Nat.eqb k n then take (S n) l ++ lossy_loop fuel (drop n l') else REPLACEMENT ++ lossy_loop fuel (drop k l')
      end
  | _, _ => []
  end.
Definition from_utf8_lossy (l : bytes) : bytes := lossy_loop (length l) l.

(** [str::split_once] at a pattern; [Iterator::find_map]. *)
Fixpoint split_at_str (pat l : bytes) : option (bytes * bytes) :=
  match strip_prefix pat l with
  | Some rest => Some ([], rest)
  | None => match l with [] => None | b :: l => '(x, y) ← split_at_str pat l; Some (b :: x, y) end
  end.
Fixpoint find_map {A B} (f : A → option B) (l : list A) : option B :=
  match l with
  | [] => None
  | a :: l => match f a with Some b => Some b | None => find_map f l end
  end.
Definition CRLF2 : bytes := [13; 10; 13; 10].
Definition eq_ignore_case (a b : bytes) : bool := bool_decide (to_ascii_lowercase a = to_ascii_lowercase b).
(** [split_whitespace]. *)
Fixpoint words_loop (fuel : nat) (word l : bytes) : list bytes :=
  match fuel, l with
  | S fuel, b :: l' =>
      match whitespace_len l with
      | O => words_loop fuel (word ++ [b]) l'
      | n => (if bool_decide (word = []) then [] else [word]) ++ words_loop fuel [] (drop n l)
      end
  | _, _ => if bool_decide (word = []) then [] else [word]
  end.
Definition split_whitespace (l : bytes) : list bytes := words_loop (length l) [] l.

(** ** Reading a request *)

Definition MAX_REQUEST_BYTES : Z := 64 * 1024.
Definition content_length_line (l : bytes) : option Z :=
  '(name, value) ← split_once 58 l;
  if eq_ignore_case name (str_bytes "content-length") then parse_uint U64_MAX (trim value) else None.
Definition content_length (headers : bytes) : Z := default 0 (find_map content_length_line (lines (from_utf8_lossy headers))).
(** What the bytes read so far say: refuse, enough, or go on. *)
Inductive Progress := TooLarge | Complete | More.
Definition progress (max_bytes : Z) (buf : bytes) : Progress :=
  if max_bytes <? len buf then TooLarge else
  match split_at_str CRLF2 buf with
  | None => More
  | Some (headers, body) =>
      let n := content_length headers in
      if sat_sub max_bytes (len headers + 4) <? n then TooLarge else
      if n <=? len body then Complete else More
  end.
Definition cap_error (max_bytes : Z) : string := "request exceeds " +:+ pretty max_bytes +:+ " byte cap".
(** [read_request]: what each [read] returns, at most 4096 bytes, none at the end of the
    stream; [fin] is the error of the read after the last of them, if it fails. *)
Fixpoint read_request (max_bytes : Z) (buf : bytes) (reads : list bytes) (fin : option string) : result bytes :=
  match reads with
  | [] => match fin with Some e => Err e | None => Ok buf end
  | [] :: _ => Ok buf
  | chunk :: reads =>
      let buf := buf ++ chunk in
      match progress max_bytes buf with
      | TooLarge => Err (cap_error max_bytes)
      | Complete => Ok buf
      | More => read_request max_bytes buf reads fin
      end
  end.

(** ** Headers *)

Definition header_line (name l : bytes) : option bytes :=
  '(k, v) ← split_once 58 l; if eq_ignore_case (trim k) name then Some (trim v) else None.
Definition header_value (request name : bytes) : option bytes := find_map (header_line name) (lines request).
Definition origin_is_local (origin : bytes) : bool :=
  let host := match split_at_str (str_bytes "://") origin with
              | Some (_, rest) => from_option fst rest (split_at_str (str_bytes "://") rest)
              | None => origin
              end in
  let host := default host (head (split_at 47 host)) in
  let host := from_option fst host (rsplit_once COLON host) in
  bool_decide (host ∈ str_bytes <$> ["127.0.0.1"; "localhost"; "::1"; "[::1]"]).
Definition bearer_token (request : bytes) : option bytes :=
  match header_value request (str_bytes "authorization") with
  | Some v =>
      let v := trim v in
      match strip_prefix (str_bytes "Bearer ") v with
      | Some rest => Some (trim rest)
      | None => match strip_prefix (str_bytes "bearer ") v with
                | Some rest => Some (trim rest)
                | None => header_value request (str_bytes "x-hassan-api-token")
                end
      end
  | None => header_value request (str_bytes "x-hassan-api-token")
  end.
(** The path and the query of the request line. *)
Definition request_target (request : bytes) : bytes * bytes :=
  let raw_path := default (str_bytes "/") (split_whitespace (default [] (head (lines request))) !! 1%nat) in
  default (raw_path, []) (split_once 63 raw_path).
(** [request.split("\r\n\r\n").nth(1)]. *)
Definition body_str (request : bytes) : bytes :=
  match split_at_str CRLF2 request with
  | Some (_, rest) => from_option fst rest (split_at_str CRLF2 rest)
  | None => str_bytes "{}"
  end.

(** [percent_decode]. *)
Definition hex_pair (a b : Z) : option Z := hi ← to_digit 16 a; lo ← to_digit 16 b; Some (Z.lor (wrap 8 (Z.shiftl hi 4)) lo).
Fixpoint percent_loop (fuel : nat) (l : bytes) : bytes :=
  match fuel, l with
  | S fuel, b :: l' =>
      match (if b =? 37 then match l' with x :: y :: rest => v ← hex_pair x y; Some (v, rest) | _ => None end else None) with
      | Some (v, rest) => v :: percent_loop fuel rest
      | None => (if b =? 43 then 32 else b) :: percent_loop fuel l'
      end
  | _, _ => []
  end.
Definition percent_decode (s : bytes) : bytes := from_utf8_lossy (percent_loop (length s) s).

(** The last of the query's parameters with one of the given names and an accepted value. *)
Definition query_param {A} (query : bytes) (names : list string) (f : bytes → option A) : option A :=
  foldl (λ acc part, match split_once 61 part with
                     | Some (k, v) => if bool_decide (k ∈ str_bytes <$> names) then match f v with Some a => Some a | None => acc end else acc
                     | None => acc
                     end) None (split_at 38 query).
Definition nonempty (v : bytes) : option bytes := if bool_decide (v = []) then None else Some v.

(** ** Routes *)

Inductive Endpoint :=
| Page (name : string)
| Status | LatestBlocks | MiningStats
| BlockIssuance (id : bytes) | BlockEntity (id : bytes) | BlockBiography (id : bytes) | BlockFamily (id : bytes) | BlockAudit (id : bytes)
| BlockMergeset (id : bytes) | BlockRich (id : bytes)
| Titles | Title (id : bytes) | Escrows | EscrowOf (id : bytes) | OwnerTitles (addr : bytes)
| AiTrace | AiBlock (h : bytes) | CustodyVerify
| TxSubmit | UtxoSubmit | RegistrySubmit | CustodySubmit | TxTransfer
| BdpeVaults (addr : option bytes) (limit : Z)
| MempoolTxs | VersionBitsStatus | Network | CustodyList | LightMine (max_hashes : Z) (share_diff : option Z) | LightTip
| GhostdagInfo (id : bytes) | Utxos (addr : bytes) | StratumStatus | TxEntity (id : bytes)
| FeeEstimates | FeeHistory | Template | Supply | VerificationEconomics | PruningStats | PruningProof
| Snapshot (limit : Z) | AuditPack (block : option bytes) | AuditDiff (from to : bytes)
| SearchFor (q : bytes) | Analytics (limit : Z) | IndexStatus | Labels | AddressHistory (addr : bytes)
| AccountOf (addr : bytes).

Definition path_is (p : bytes) (names : list string) : bool := bool_decide (p ∈ str_bytes <$> names).
Definition strip_suffix (suf l : bytes) : option bytes := if ends_with suf l then Some (take (length l - length suf) l) else None.
(** The arm [p if p.starts_with(pre)] with [strip_prefix]. *)
Definition under (p : bytes) (pre : string) (f : bytes → Endpoint) : option Endpoint := f <$> strip_prefix (str_bytes pre) p.
(** The arm [p if p.starts_with(pre) && p.ends_with(suf)]; the two may overlap. *)
Definition between (p : bytes) (pre suf : string) (f : bytes → Endpoint) : option Endpoint :=
  match strip_prefix (str_bytes pre) p with
  | Some rest => if ends_with (str_bytes suf) p then Some (f (default [] (strip_suffix (str_bytes suf) rest))) else None
  | None => None
  end.
Definition exactly (p : bytes) (names : list string) (e : Endpoint) : option Endpoint := if path_is p names then Some e else None.
(** The first arm that matches. *)
Definition first_arm (arms : list (option Endpoint)) : option Endpoint := find_map id arms.

Definition explorer_arms (p : bytes) : list (option Endpoint) :=
  [exactly p ["/"; "/explorer"] (Page "index.html"); exactly p ["/app.js"] (Page "app.js"); exactly p ["/style.css"] (Page "style.css");
   exactly p ["/api/v1/status"] Status; exactly p ["/api/v1/blocks"] LatestBlocks; exactly p ["/api/v1/mining"] MiningStats].
Definition block_arms (p : bytes) : list (option Endpoint) :=
  [between p "/api/v1/block/" "/issuance" BlockIssuance; between p "/api/v1/block/" "/economic-entity" BlockEntity;
   between p "/api/v1/block/" "/economic-biography" BlockBiography; between p "/api/v1/block/" "/family" BlockFamily;
   between p "/api/v1/block/" "/audit" BlockAudit; between p "/api/v1/block/" "/mergeset" BlockMergeset].
Definition registry_arms (p : bytes) : list (option Endpoint) :=
  [exactly p ["/api/v1/titles"] Titles; under p "/api/v1/title/" Title; exactly p ["/api/v1/escrows"] Escrows; under p "/api/v1/escrow/" EscrowOf;
   between p "/api/v1/owner/" "/titles" OwnerTitles; exactly p ["/api/v1/ai/trace"] AiTrace; under p "/api/v1/ai/block/" AiBlock;
   exactly p ["/api/v1/custody/verify"] CustodyVerify; under p "/api/v1/block/" BlockRich].
Definition parse_u64 (v : bytes) : option Z := parse_uint U64_MAX v.
Definition submit_arms (p query : bytes) : list (option Endpoint) :=
  [exactly p ["/api/v1/tx/submit"] TxSubmit; exactly p ["/api/v1/utxo/submit"] UtxoSubmit;
   exactly p ["/api/v1/bdpe/vaults"; "/api/v1/escrow/vaults"]
     (BdpeVaults (percent_decode <$> query_param query ["address"; "addr"] nonempty)
        (from_option (λ n, Z.min n 256) 64 (query_param query ["limit"] parse_u64)));
   exactly p ["/api/v1/registry/submit"] RegistrySubmit; exactly p ["/api/v1/custody/submit"] CustodySubmit;
   exactly p ["/api/v1/mempool"] MempoolTxs; exactly p ["/api/v1/versionbits"] VersionBitsStatus; exactly p ["/api/v1/network"; "/api/v1/peers"] Network;
   exactly p ["/api/v1/custody"; "/api/v1/custody/list"] CustodyList;
   exactly p ["/api/v1/mining/light"]
     (LightMine (default 10000 (query_param query ["max"; "max_hashes"] parse_u64)) (query_param query ["diff"; "share_difficulty"] parse_u64));
   exactly p ["/api/v1/light/tip"] LightTip; under p "/api/v1/ghostdag/" GhostdagInfo; under p "/api/v1/utxos/" Utxos;
   exactly p ["/api/v1/stratum"] StratumStatus; between p "/api/v1/tx/" "/economic-entity" TxEntity].
(** [tip] is the selected height, the default of [to]. *)
Definition report_arms (tip : Z) (p query : bytes) : list (option Endpoint) :=
  [exactly p ["/api/v1/fee/estimate"] FeeEstimates; exactly p ["/api/v1/fees/history"; "/api/v1/fee/history"] FeeHistory;
   exactly p ["/api/v1/mining/template"; "/api/v1/getblocktemplate"] Template; exactly p ["/api/v1/supply"] Supply;
   exactly p ["/api/v1/economics/verification"] VerificationEconomics; exactly p ["/api/v1/pruning/stats"] PruningStats;
   exactly p ["/api/v1/pruning/proof"; "/api/v1/pruning/download"] PruningProof;
   exactly p ["/api/v1/utxo/snapshot"] (Snapshot (default 256 (query_param query ["limit"] parse_u64)));
   exactly p ["/api/v1/audit/pack"] (AuditPack (query_param query ["block"] nonempty));
   exactly p ["/api/v1/audit/diff"]
     (AuditDiff (default (str_bytes "0") (query_param query ["from"] Some))
        (default (str_bytes (pretty tip)) (query_param query ["to"] Some ≫= nonempty)))].
Definition index_arms (p query : bytes) : list (option Endpoint) :=
  [exactly p ["/api/v1/search"] (SearchFor (percent_decode (default [] (query_param query ["q"] Some))));
   exactly p ["/api/v1/analytics"; "/api/v1/analytics/history"] (Analytics (default 512 (query_param query ["limit"] parse_u64)));
   exactly p ["/api/v1/indexer"; "/api/v1/indexer/status"] IndexStatus; exactly p ["/api/v1/labels"] Labels;
   between p "/api/v1/address/" "/history" (λ a, AddressHistory (percent_decode a));
   exactly p ["/api/v1/tx/transfer"] TxTransfer; under p "/api/v1/account/" AccountOf].
Definition route (tip : Z) (p query : bytes) : option Endpoint :=
  first_arm (explorer_arms p ++ block_arms p ++ registry_arms p ++ submit_arms p query ++ report_arms tip p query ++ index_arms p query).

(** ** Responses *)

Inductive Body := Value (v : Json) | Text (t : string) | File (name : string).
Record Response := { rs_status : string; rs_type : string; rs_body : Body; rs_cache : string; rs_cors : option (bytes * bool) }.

Class HttpCodec := {
  de_tx_submit : bytes → option TxSubmitRequest;
  de_utxo_tx : bytes → result UtxoTx;
  de_registry_op : bytes → result RegistryOp;
  de_custody : bytes → result CustodyCertificate;
  de_json : bytes → option Json;
}.
(** Read from the environment of the process. *)
Class HostEnv := { stratum_password : option string; index_path : string }.

Definition MAX_SSE_STREAMS : Z := 32.
Definition MAX_API_CONNECTIONS : Z := 256.
(** What the handler threads share: the node's state, index, trace and network snapshot, the
    rate limiter, and the two counters. *)
Record Server := {
  srv_state : ChainState; srv_index : IndexerDb; srv_trace : AiTraceLog; srv_net : NetworkStatus;
  srv_limiter : RateLimiter; srv_streams : Z; srv_active : Z;
}.
Inductive Reply := Dropped | Respond (r : Response) | EventStream (cors : option (bytes * bool)).

Section http.
Context `{!Crypto, !DualCrypto, !BodyCodec, !NodeEnv, !PoolEnv, !ApiEnv, !IndexEnv, !StratumEnv, !JsonText, !ExplorerEnv, !HttpCodec, !HostEnv}.

Definition err_json (e : string) : Json := JObj [("error", JStr e)].
Definition outcome_json (r : result Json) : Json := match r with Ok v => v | Err e => err_json e end.
Definition found_or (e : string) (v : option Json) : Json := default (err_json e) v.
(** The body of [/api/v1/tx/transfer]: a field that is missing or of another type counts as
    empty or zero, an amount may be a number or a decimal text. *)
Definition field (j : Json) (k : string) : Json := default JNull (json_get j k).
Definition transfer_of_json (j : Json) : TransparentTx :=
  let text k := default "" (as_str (field j k)) in
  let amount := match as_str (field j "amount") ≫= (λ t, parse_uint U128_MAX (str_bytes t)) with
                | Some n => n
                | None => default 0 (as_u64 (field j "amount"))
                end in
  tt_with_signature
    (TransparentTx_new (default [] (hex_decode (text "from_pubkey"))) (text "to") amount
       (default 0 (as_u64 (field j "nonce"))) (default CHAIN_ID (as_u64 (field j "chain_id"))))
    (default [] (hex_decode (text "signature"))).

(** The five endpoints that write: the reply and the state. *)
Definition submit (s : ChainState) (now : Z) (body : bytes) (e : Endpoint) : option (Json * ChainState) :=
  match e with
  | TxSubmit =>
      match de_tx_submit body with
      | Some req => '(r, s) ← submit_tx s now req; Some (outcome_json r, s)
      | None => Some (err_json "Invalid JSON", s)
      end
  | UtxoSubmit =>
      match de_utxo_tx body with
      | Ok tx => let '(r, s) := submit_utxo_tx s now tx in Some (outcome_json r, s)
      | Err e => Some (err_json ("Invalid UTXO tx JSON: " +:+ e), s)
      end
  | RegistrySubmit =>
      match de_registry_op body with
      | Ok op => let '(r, s) := submit_registry_op s op in Some (outcome_json r, s)
      | Err e => Some (err_json ("Invalid registry op JSON: " +:+ e), s)
      end
  | CustodySubmit =>
      match de_custody body with
      | Ok op => let '(r, s) := submit_custody s op in Some (outcome_json r, s)
      | Err e => Some (err_json ("Invalid custody JSON: " +:+ e), s)
      end
  | TxTransfer =>
      match de_json body with
      | Some j => '(r, s) ← submit_transfer s now (transfer_of_json j); Some (outcome_json r, s)
      | None => Some (err_json "Invalid JSON", s)
      end
  | _ => Some (JNull, s)
  end.
Definition is_submit (e : Endpoint) : bool :=
  match e with TxSubmit | UtxoSubmit | RegistrySubmit | CustodySubmit | TxTransfer => true | _ => false end.

(** Content type, body and cache control of a reading endpoint; [None] when a nonce walk of
    the account pool does not return, and for the submissions. *)
Definition json_type : string := "application/json".
Definition read_endpoint (v : Server) (now elapsed : Z) (body : bytes) (e : Endpoint) : option (string * Body * string) :=
  let s := srv_state v in
  let db := srv_index v in
  let live v := Some (json_type, Value v, "no-store") in
  let cached t v := Some (json_type, Value v, "public, max-age=" +:+ t) in
  let text := bytes_str in
  match e with
  | Page name => Some (if String.eqb name "index.html" then "text/html; charset=utf-8"
                       else if String.eqb name "app.js" then "application/javascript; charset=utf-8" else "text/css; charset=utf-8",
                       File name, if String.eqb name "index.html" then "no-cache" else "public, max-age=60")
  | LatestBlocks => live (JArr (latest_blocks s 200))
  | MiningStats => live (mining_stats s now)
  | BlockIssuance id => cached "10" (found_or "Block not found" (get_block_issuance s (text id)))
  | BlockFamily id => cached "5" (found_or "Block not found" (get_block_family s (text id)))
  | BlockAudit id => cached "30" (found_or "Block not found" (audit_block_dump s (text id)))
  | BlockMergeset id => cached "10" (found_or "Block not found" (mergeset_edges s (text id)))
  | Titles => live (JArr (list_titles s 200))
  | Title id => cached "5" (found_or "Title not found" (get_title s (text id)))
  | Escrows => live (JArr (list_escrows s 200))
  | EscrowOf id => cached "5" (found_or "Escrow not found" (get_escrow s (text id)))
  | OwnerTitles addr => live (JArr (titles_for_owner s (text addr)))
  | CustodyVerify =>
      live (match de_custody body with Ok c => outcome_json (verify_custody c) | Err _ => err_json "Invalid custody JSON" end)
  | BdpeVaults addr limit => live (JArr (list_bdpe_vaults s (text <$> addr) limit))
  | MempoolTxs => live (JArr (mempool_txs s))
  | CustodyList => live (list_custody s)
  | LightMine n d => live (light_mine s now elapsed n d)
  | LightTip => live (light_tip s 32)
  | GhostdagInfo id => cached "10" (found_or "not found" (ghostdag_info s (text id)))
  | Utxos addr => live (list_utxos s (text addr))
  | FeeEstimates => v ← fee_estimate s; live v
  | FeeHistory => cached "15" (fee_history_export s)
  | Template => v ← api_block_template s now; live v
  | Supply => live (get_supply s)
  | Snapshot limit => cached "10" (utxo_snapshot s limit)
  | AuditDiff from to => cached "10" (audit_diff s (text from) (text to))
  | AccountOf addr => live (account s (text addr))
  | Status => live (status (srv_net v) s now)
  | BlockEntity id =>
      match get_block_economic_entity s (text id) with
      | None => cached "5" (err_json "Block not found")
      | Some j => j ← j; cached "5" j
      end
  | BlockBiography id => cached "5" (found_or "Block not found" (get_block_economic_biography s (text id)))
  | BlockRich id => cached "5" (found_or "Block not found" (get_block_rich s (text id)))
  | TxEntity id => cached "5" (found_or "Transfer not found" (get_tx_economic_entity s (text id)))
  | AiTrace => live (ai_trace (srv_trace v) 200)
  | AiBlock h => live (ai_trace_block (srv_trace v) (text h))
  | VersionBitsStatus => live (version_bits_json (version_bits_status s))
  | Network => live (network (srv_net v) s)
  | StratumStatus => live (stratum_status stratum_password s now)
  | VerificationEconomics => ve ← verification_snapshot s; live (verification_json ve)
  | PruningStats => cached "30" (pruning_proof_stats s now)
  | PruningProof => cached "60" (pruning_proof_download s now)
  | AuditPack block => j ← audit_pack (srv_net v) s now (text <$> block); live j
  | SearchFor q => live (search db q)
  | Analytics limit => live (analytics db limit)
  | IndexStatus => live (index_status db index_path)
  | Labels => cached "15" (labels_report db)
  | AddressHistory addr => live (address_history db (text addr) 100)
  | TxSubmit | UtxoSubmit | RegistrySubmit | CustodySubmit | TxTransfer => None
  end.

(** ** The server *)

(** The [Access-Control-Allow-Origin] header, and whether [Vary] goes with it. *)
Definition cors_of (policy : NetPolicy) (origin : option bytes) : option (bytes * bool) :=
  match origin with
  | Some o => if cors_allows policy o then Some (o, true) else (λ single, (single, false)) <$> cors_header_value policy
  | None => (λ single, (single, false)) <$> cors_header_value policy
  end.
Definition plain_error (status : string) (v : Json) : Reply :=
  Respond {| rs_status := status; rs_type := json_type; rs_body := Value v; rs_cache := ""; rs_cors := None |}.
Definition static_path (p : bytes) : bool := path_is p ["/"; "/explorer"; "/app.js"; "/style.css"].
Definition is_write (p : bytes) : bool :=
  path_is p ["/api/v1/tx/submit"; "/api/v1/tx/transfer"; "/api/v1/utxo/submit"; "/api/v1/custody/submit"; "/api/v1/registry/submit";
             "/api/v1/mining/light"].
(** The checks of a write: the first refusal. *)
Definition write_refused (policy : NetPolicy) (request : bytes) : option Reply :=
  let foreign := from_option (λ o, negb (origin_is_local o) && negb (cors_allows policy o)) false (header_value request (str_bytes "origin")) in
  if foreign then Some (plain_error "403 Forbidden" (err_json "cross-site write rejected")) else
  if writes_require_token policy && negb (token_ok policy (bearer_token request))
  then Some (plain_error "401 Unauthorized" (err_json "unauthorized — set Authorization: Bearer <HASSAN_API_TOKEN>")) else None.

Definition with_srv_state (v : Server) (s : ChainState) : Server :=
  {| srv_state := s; srv_index := srv_index v; srv_trace := srv_trace v; srv_net := srv_net v; srv_limiter := srv_limiter v;
     srv_streams := srv_streams v; srv_active := srv_active v |}.
Definition with_trace (v : Server) (log : AiTraceLog) : Server :=
  {| srv_state := srv_state v; srv_index := srv_index v; srv_trace := log; srv_net := srv_net v; srv_limiter := srv_limiter v;
     srv_streams := srv_streams v; srv_active := srv_active v |}.
Definition with_limiter (v : Server) (l : RateLimiter) : Server :=
  {| srv_state := srv_state v; srv_index := srv_index v; srv_trace := srv_trace v; srv_net := srv_net v; srv_limiter := l;
     srv_streams := srv_streams v; srv_active := srv_active v |}.
Definition with_streams (v : Server) (n : Z) : Server :=
  {| srv_state := srv_state v; srv_index := srv_index v; srv_trace := srv_trace v; srv_net := srv_net v; srv_limiter := srv_limiter v;
     srv_streams := n; srv_active := srv_active v |}.
Definition with_active (v : Server) (n : Z) : Server :=
  {| srv_state := srv_state v; srv_index := srv_index v; srv_trace := srv_trace v; srv_net := srv_net v; srv_limiter := srv_limiter v;
     srv_streams := srv_streams v; srv_active := n |}.
(** A verified custody certificate is entered in the trace. *)
Definition traced (v : Server) (now : Z) (body : bytes) (e : Endpoint) : Server :=
  match e with
  | CustodyVerify =>
      match de_custody body with
      | Ok c => if is_ok (verify_custody c) then with_trace v (record_custody (srv_trace v) now c) else v
      | Err _ => v
      end
  | _ => v
  end.

(** The rate limit, which the explorer's own files are exempt from. *)
Definition rate_check (v : Server) (instant : Z) (ip : IpAddr) (p : bytes) : result unit * Server :=
  if static_path p then (Ok (), v) else
  let '(r, l) := check_request (srv_limiter v) instant ip in (r, with_limiter v l).
(** [acquire_sse_slot]. *)
Definition acquire_sse_slot (v : Server) : bool * Server :=
  if MAX_SSE_STREAMS <=? srv_streams v then (false, v) else (true, with_streams v (srv_streams v + 1)).
(** The routed part of [handle_request]. *)
Definition answer (policy : NetPolicy) (now elapsed : Z) (request p query : bytes) (v : Server) : option (Reply * Server) :=
  let cors := cors_of policy (header_value request (str_bytes "origin")) in
  let s := srv_state v in
  match route (tip_height s) p query with
  | None => Some (Respond {| rs_status := "404 Not Found"; rs_type := "text/plain"; rs_body := Text "Not Found"; rs_cache := "no-store"; rs_cors := cors |}, v)
  | Some e =>
      if is_submit e then
        '(j, s) ← submit s now (body_str request) e;
        Some (Respond {| rs_status := "200 OK"; rs_type := json_type; rs_body := Value j; rs_cache := "no-store"; rs_cors := cors |}, with_srv_state v s)
      else
        '(ty, b, cache) ← read_endpoint v now elapsed (body_str request) e;
        Some (Respond {| rs_status := "200 OK"; rs_type := ty; rs_body := b; rs_cache := cache; rs_cors := cors |},
              traced v now (body_str request) e)
  end.
(** [handle_request]; [now] is the wall clock, [instant] the monotonic one, [elapsed] the time a
    light-mining search takes; [None] when a nonce walk of the account pool does not return. *)
Definition handle_request (policy : NetPolicy) (now instant elapsed : Z) (peer_ip : IpAddr) (raw : result bytes) (v : Server)
    : option (Reply * Server) :=
  match raw with
  | Err reason => Some (plain_error "413 Payload Too Large" (err_json reason), v)
  | Ok raw =>
      if bool_decide (raw = []) then Some (Dropped, v) else
      let request := from_utf8_lossy raw in
      let '(p, query) := request_target request in
      match rate_check v instant peer_ip p with
      | (Err reason, v) => Some (plain_error "429 Too Many Requests" (err_json reason), v)
      | (Ok _, v) =>
          match (if is_write p then write_refused policy request else None) with
          | Some refusal => Some (refusal, v)
          | None =>
              if path_is p ["/api/v1/events"; "/api/v1/events/sse"] then
                match acquire_sse_slot v with
                | (false, v) => Some (plain_error "503 Service Unavailable" (err_json "too many concurrent event streams"), v)
                | (true, v) => Some (EventStream (cors_of policy (header_value request (str_bytes "origin"))), v)
                end
              else answer policy now elapsed request p query v
          end
      end
  end.

(** [start_api_server]: where it binds, when it refuses to, and the connection cap. *)
Definition api_bind (env : string → option bytes) : bytes :=
  default (str_bytes "127.0.0.1:" ++ default (str_bytes "8080") (env "HASSAN_API_PORT")) (env "HASSAN_API_BIND").
Definition bind_host (bind : bytes) : bytes := from_option (λ hp, trim_matches is_bracket hp.1) bind (rsplit_once COLON bind).
Definition public_bind (bind : bytes) : bool := negb (path_is (bind_host bind) ["127.0.0.1"; "localhost"; "::1"]).
Definition serves (policy : NetPolicy) (env : string → option bytes) : bool :=
  negb (public_bind (api_bind env) && bool_decide (api_token policy = None)).

(** [serve_sse]: a frame for each tick of the loop, then the end; writing stops at the first
    frame the connection does not take. *)
Definition tip_frame (snap : bytes) : bytes := str_bytes "event: tip" ++ [10] ++ str_bytes "data: " ++ snap ++ [10; 10].
Definition keepalive_frame : bytes := str_bytes ": keepalive" ++ [10; 10].
Definition end_frame : bytes := str_bytes "event: end" ++ [10] ++ str_bytes "data: {" ++ [34] ++ str_bytes "ok" ++ [34] ++ str_bytes ":true}" ++ [10; 10].
Fixpoint sse_loop (prev : bytes) (ticks : list (ChainState * Z)) : list bytes :=
  match ticks with
  | [] => [end_frame]
  | (s, now) :: ticks =>
      let snap := json_text (events_snapshot s now) in
      (if bool_decide (snap = prev) then keepalive_frame else tip_frame snap) :: sse_loop snap ticks
  end.
Definition serve_sse (taken : nat) (ticks : list (ChainState * Z)) : list bytes := take taken (sse_loop [] ticks).

(** What happens to a server: a connection arrives, one is answered, a stream ends, and the
    other threads of the node move on. *)
Inductive HttpEvent :=
| HAccept
| HNode (s : ChainState) (db : IndexerDb) (log : AiTraceLog) (net : NetworkStatus)
| HRequest (now instant elapsed : Z) (peer_ip : IpAddr) (reads : list bytes) (fin : option string)
| HStreamEnd.
Definition http_step (policy : NetPolicy) (v : Server) (ev : HttpEvent) : option (Reply * Server) :=
  match ev with
  | HAccept => Some (Dropped, if MAX_API_CONNECTIONS <=? srv_active v then v else with_active v (srv_active v + 1))
  | HNode s db log net =>
      Some (Dropped, {| srv_state := s; srv_index := db; srv_trace := log; srv_net := net; srv_limiter := srv_limiter v;
                        srv_streams := srv_streams v; srv_active := srv_active v |})
  | HRequest now instant elapsed ip reads fin =>
      if srv_active v - srv_streams v <=? 0 then Some (Dropped, v) else
      '(r, v) ← handle_request policy now instant elapsed ip (read_request MAX_REQUEST_BYTES [] reads fin) v;
      Some (r, match r with EventStream _ => v | _ => with_active v (srv_active v - 1) end)
  | HStreamEnd =>
      if srv_streams v <=? 0 then Some (Dropped, v) else
      Some (Dropped, with_active (with_streams v (srv_streams v - 1)) (srv_active v - 1))
  end.
End http.

(** ** Writes are guarded *)

Lemma find_map_inv {A B} (f : A → option B) l b : find_map f l = Some b → ∃ a, a ∈ l ∧ f a = Some b.
Proof.
  induction l as [|a l IH]; [done|]. simpl. destruct (f a) as [b'|] eqn:Hf.
  - intros [= <-]. exists a. split; [by apply elem_of_cons; left|done].
  - intros (x & Hx & He)%IH. exists x. split; [by apply elem_of_cons; right|done].
Qed.
Lemma path_is_mono p l l' : l ⊆ l' → path_is p l = true → path_is p l' = true.
Proof. unfold path_is. rewrite !bool_decide_eq_true, !list_elem_of_fmap. intros Hl (x & -> & Hx). exists x. split; [done|by apply Hl]. Qed.
(** An arm that cannot lead to a submission, or only from a guarded path. *)
Definition guarded (p : bytes) (arm : option Endpoint) : Prop := ∀ e, arm = Some e → is_submit e = true → is_write p = true.
Lemma guarded_exactly p names e : is_submit e = false ∨ names ⊆ ["/api/v1/tx/submit"; "/api/v1/tx/transfer"; "/api/v1/utxo/submit"; "/api/v1/custody/submit"; "/api/v1/registry/submit"; "/api/v1/mining/light"] →
  guarded p (exactly p names e).
Proof.
  intros H e'. unfold exactly. destruct (path_is p names) eqn:Hp; [|done]. intros [= <-] Hs. destruct H as [H|H]; [congruence|].
  by eapply path_is_mono in Hp.
Qed.
Lemma guarded_under p pre f : (∀ x, is_submit (f x) = false) → guarded p (under p pre f).
Proof. intros Hf e. unfold under. destruct (strip_prefix _ p); [|done]. intros [= <-]. by rewrite Hf. Qed.
Lemma guarded_between p pre suf f : (∀ x, is_submit (f x) = false) → guarded p (between p pre suf f).
Proof. intros Hf e. unfold between. destruct (strip_prefix _ p); [|done]. destruct (ends_with _ p); [|done]. intros [= <-]. by rewrite Hf. Qed.

Lemma route_guarded tip p query e : route tip p query = Some e → is_submit e = true → is_write p = true.
Proof.
  unfold route, first_arm. intros (arm & Hin & Ha)%find_map_inv. unfold id in Ha. subst arm. revert Hin.
  assert (Forall (guarded p) (explorer_arms p ++ block_arms p ++ registry_arms p ++ submit_arms p query ++ report_arms tip p query ++ index_arms p query)) as Hf.
  { unfold explorer_arms, block_arms, registry_arms, submit_arms, report_arms, index_arms. cbn [app].
    repeat (apply Forall_cons; split; [first [apply guarded_under; done|apply guarded_between; done|apply guarded_exactly; first [by left|right; set_solver]]|]).
    apply Forall_nil. done. }
  intros Hin. rewrite Forall_forall in Hf. by apply (Hf _ Hin).
Qed.

Section theorems.
Context `{!Crypto, !DualCrypto, !BodyCodec, !NodeEnv, !PoolEnv, !ApiEnv, !IndexEnv, !StratumEnv, !JsonText, !ExplorerEnv, !HttpCodec, !HostEnv}.

(** Past the refusals of a guarded result. *)
Ltac guards H := repeat match type of H with (if ?c then Err _ else _) = _ => destruct c; [discriminate H|] end.
(** A submission touches the mempools only. *)
Lemma submit_pools s now body e j s' : submit s now body e = Some (j, s') → ∃ p, s' = set_pools s p.
Proof.
  assert (∃ p, s = set_pools s p) as Hsame by (exists (cs_pools s); by rewrite set_pools_same).
  unfold submit. destruct e; try by intros [= _ <-].
  - destruct (de_tx_submit body) as [req|]; [|by intros [= _ <-]]. unfold submit_tx. change (negb ACCOUNT_PEER_TRANSFERS) with true. cbv iota.
    cbn [mbind option_bind]. by intros [= _ <-].
  - destruct (de_utxo_tx body) as [tx|]; [|by intros [= _ <-]]. unfold submit_utxo_tx. destruct (admit_utxo_pools s now tx) as [p Hp].
    destruct (admit_utxo_to_mempool s now tx) as [r s1]. simpl in Hp. intros [= _ <-]. by exists p.
  - destruct (de_registry_op body) as [op|]; [|by intros [= _ <-]]. unfold submit_registry_op.
    destruct (admit_registry_to_mempool s op) as [s1|] eqn:Ha; [|by intros [= _ <-]]. intros [= _ <-].
    unfold admit_registry_to_mempool in Ha. cbv zeta in Ha. guards Ha. apply (f_equal (λ r, match r with Ok x => x | Err _ => s end)) in Ha. cbv beta iota in Ha. subst s1. by eexists.
  - destruct (de_custody body) as [op|]; [|by intros [= _ <-]]. unfold submit_custody.
    destruct (admit_custody_to_mempool s op) as [s1|] eqn:Ha; [|by intros [= _ <-]]. intros [= _ <-].
    unfold admit_custody_to_mempool in Ha. cbv zeta in Ha. guards Ha.
    destruct (parse_settlement_id _ _ _) as [sid|]; [|done]. cbn [mbind result_bind] in Ha. destruct (custody_verify op sid); [|done]. cbn [mbind result_bind] in Ha.
    destruct (check_custody_anchor _ op); [|done]. cbn [mbind result_bind] in Ha. guards Ha. apply (f_equal (λ r, match r with Ok x => x | Err _ => s end)) in Ha. cbv beta iota in Ha. subst s1. by eexists.
  - destruct (de_json body) as [v|]; [|by intros [= _ <-]]. unfold submit_transfer, admit_transparent_to_mempool. change (negb ACCOUNT_PEER_TRANSFERS) with true. cbv iota.
    cbn [mbind option_bind]. by intros [= _ <-].
Qed.

Lemma traced_same v now body e : srv_state (traced v now body e) = srv_state v ∧ srv_active (traced v now body e) = srv_active v ∧ srv_streams (traced v now body e) = srv_streams v.
Proof. unfold traced. destruct e; try done. destruct (de_custody body); [|done]. by destruct (is_ok _). Qed.

Lemma write_refused_None policy request :
  write_refused policy request = None →
  (∀ o, header_value request (str_bytes "origin") = Some o → origin_is_local o = true ∨ cors_allows policy o = true) ∧
  (∀ t, api_token policy = Some t → bearer_token request = Some t).
Proof.
  unfold write_refused. cbv zeta. destruct (from_option _ false (header_value request (str_bytes "origin"))) eqn:Ho; [done|].
  destruct (writes_require_token policy && negb (token_ok policy (bearer_token request))) eqn:Ht; [done|]. intros _. split.
  - intros o Hv. rewrite Hv in Ho. cbn [from_option] in Ho. destruct (origin_is_local o); [by left|]. destruct (cors_allows policy o); [by right|done].
  - intros t Hp. unfold writes_require_token in Ht. rewrite bool_decide_eq_true_2 in Ht by (rewrite Hp; by eexists). cbn [andb] in Ht.
    unfold token_ok in Ht. rewrite Hp in Ht. destruct (bearer_token request) as [got|]; [|done]. apply negb_false_iff, constant_time_eq_iff in Ht. by subst.
Qed.

(** C16. Whatever bytes arrive from whatever address, the chain state changes only through one of
    the guarded paths, from an address within its rate limit, without an origin or with a
    local or allowed one, and with the configured token when there is one; and then nothing
    but the mempools changes. *)
Theorem write_gate policy now instant elapsed ip raw v reply v' :
  handle_request policy now instant elapsed ip raw v = Some (reply, v') → srv_state v' ≠ srv_state v →
  ∃ bs, raw = Ok bs ∧
    let request := from_utf8_lossy bs in
    is_write (request_target request).1 = true ∧
    (∀ o, header_value request (str_bytes "origin") = Some o → origin_is_local o = true ∨ cors_allows policy o = true) ∧
    (∀ t, api_token policy = Some t → bearer_token request = Some t) ∧
    (check_request (srv_limiter v) instant ip).1 = Ok () ∧
    ∃ pools, srv_state v' = set_pools (srv_state v) pools.
Proof.
  unfold handle_request. destruct raw as [bs|e]; [|by intros [= _ <-]]. case_bool_decide as Hb; [by intros [= _ <-]|]. cbv zeta.
  destruct (request_target (from_utf8_lossy bs)) as [p query] eqn:Ht. intros Hh Hne. exists bs. split; [done|]. cbv zeta. rewrite Ht. cbn [fst].
  unfold rate_check in Hh.
  assert (∃ v1, srv_state v1 = srv_state v ∧ (static_path p = false → (check_request (srv_limiter v) instant ip).1 = Ok ()) ∧
    match (if is_write p then write_refused policy (from_utf8_lossy bs) else None) with
    | Some refusal => Some (refusal, v1)
    | None =>
        if path_is p ["/api/v1/events"; "/api/v1/events/sse"] then
          match acquire_sse_slot v1 with
          | (false, v2) => Some (plain_error "503 Service Unavailable" (err_json "too many concurrent event streams"), v2)
          | (true, v2) => Some (EventStream (cors_of policy (header_value (from_utf8_lossy bs) (str_bytes "origin"))), v2)
          end
        else answer policy now elapsed (from_utf8_lossy bs) p query v1
    end = Some (reply, v')) as (v1 & Hs1 & Hrate & Hrest).
  { destruct (static_path p) eqn:Hst; [by exists v|]. destruct (check_request (srv_limiter v) instant ip) as [[[]|e] l]; [by exists (with_limiter v l)|].
    injection Hh as _ <-. done. }
  clear Hh. assert (srv_state v' ≠ srv_state v1) as Hne1 by congruence. rewrite <- Hs1.
  destruct (if is_write p then write_refused policy (from_utf8_lossy bs) else None) as [refusal|] eqn:Hw; [by injection Hrest as _ <-|].
  destruct (path_is p ["/api/v1/events"; "/api/v1/events/sse"]).
  { unfold acquire_sse_slot in Hrest. destruct (MAX_SSE_STREAMS <=? srv_streams v1); by injection Hrest as _ <-. }
  unfold answer in Hrest. cbv zeta in Hrest. destruct (route (tip_height (srv_state v1)) p query) as [e|] eqn:Hr; [|by injection Hrest as _ <-].
  destruct (is_submit e) eqn:Hsub.
  - destruct (submit (srv_state v1) now (body_str (from_utf8_lossy bs)) e) as [[j s]|] eqn:Hsu; [|done]. injection Hrest as _ <-.
    destruct (submit_pools _ _ _ _ _ _ Hsu) as [pl ->]. pose proof (route_guarded _ _ _ _ Hr Hsub) as Hwr. rewrite Hwr in Hw.
    destruct (write_refused_None _ _ Hw) as [Ho Htk]. split_and!; [done|done|done| |by exists pl].
    apply Hrate. apply not_true_iff_false. intros Hst. clear -Hwr Hst. unfold is_write, static_path, path_is in *.
    apply bool_decide_eq_true in Hwr, Hst. apply list_elem_of_fmap in Hst as (x & -> & Hx).
    rewrite !elem_of_cons, elem_of_nil in Hx. apply (bool_decide_eq_true_2 _) in Hwr. by destruct Hx as [->|[->|[->|[->|[]]]]].
  - destruct (read_endpoint _ _ _ _ e) as [[[ty b] cache]|]; [|done]. injection Hrest as _ <-. by destruct (traced_same v1 now (body_str (from_utf8_lossy bs)) e) as (? & _).
Qed.

(** The two counters of the server. *)
Definition server_ok (v : Server) : Prop := 0 <= srv_streams v <= MAX_SSE_STREAMS ∧ srv_streams v <= srv_active v <= MAX_API_CONNECTIONS.
Lemma handle_request_counts policy now instant elapsed ip raw v reply v' :
  handle_request policy now instant elapsed ip raw v = Some (reply, v') →
  srv_active v' = srv_active v ∧
  match reply with
  | EventStream _ => srv_streams v' = srv_streams v + 1 ∧ srv_streams v < MAX_SSE_STREAMS
  | _ => srv_streams v' = srv_streams v
  end.
Proof.
  unfold handle_request. destruct raw as [bs|e]; [|by intros [= <- <-]]. case_bool_decide as Hb; [by intros [= <- <-]|]. cbv zeta.
  destruct (request_target (from_utf8_lossy bs)) as [p query]. destruct (rate_check v instant ip p) as [r v1] eqn:Hr.
  assert (srv_active v1 = srv_active v ∧ srv_streams v1 = srv_streams v) as [<- <-].
  { unfold rate_check in Hr. destruct (static_path p); [by injection Hr as _ <-|]. destruct (check_request _ _ _). by injection Hr as _ <-. }
  destruct r as [[]|e]; [|by intros [= <- <-]].
  destruct (if is_write p then write_refused policy (from_utf8_lossy bs) else None) as [refusal|] eqn:Hw.
  { intros [= <- <-]. destruct (is_write p); [|done]. unfold write_refused in Hw. cbv zeta in Hw. destruct (from_option _ _ _); [by injection Hw as <-|].
    destruct (_ && _); [by injection Hw as <-|done]. }
  destruct (path_is p ["/api/v1/events"; "/api/v1/events/sse"]).
  { unfold acquire_sse_slot. destruct (Z.leb_spec MAX_SSE_STREAMS (srv_streams v1)); by intros [= <- <-]. }
  unfold answer. cbv zeta. destruct (route _ p query) as [e|]; [|by intros [= <- <-]]. destruct (is_submit e).
  - destruct (submit _ _ _ e) as [[j s]|]; [|done]. by intros [= <- <-].
  - destruct (read_endpoint _ _ _ _ e) as [[[ty b] cache]|]; [|done]. intros [= <- <-]. by destruct (traced_same v1 now (body_str (from_utf8_lossy bs)) e) as (_ & ? & ?).
Qed.
Lemma http_step_ok policy v ev reply v' : server_ok v → http_step policy v ev = Some (reply, v') → server_ok v'.
Proof.
  intros [[Hs1 Hs2] [Ha1 Ha2]]. unfold http_step. destruct ev as [|s db log net|now instant elapsed ip reads fin|].
  - intros [= _ <-]. destruct (Z.leb_spec MAX_API_CONNECTIONS (srv_active v)); [by split|]. split; cbn [with_active srv_streams srv_active]; lia.
  - by intros [= _ <-].
  - destruct (Z.leb_spec (srv_active v - srv_streams v) 0); [by intros [= _ <-]|].
    destruct (handle_request _ _ _ _ _ _ v) as [[r v1]|] eqn:Hh; [|done]. cbn [mbind option_bind]. apply handle_request_counts in Hh as [Ha Hs].
    intros [= _ <-]. unfold server_ok. destruct r; cbn [with_active srv_streams srv_active]; rewrite ?Ha; lia.
  - destruct (Z.leb_spec (srv_streams v) 0); [by intros [= _ <-]|]. intros [= _ <-]. unfold server_ok. cbn [with_active with_streams srv_streams srv_active]. lia.
Qed.
(** C38. The server stays within its limits: at most 256 connections, of which at most 32 are event
    streams, whatever arrives in whatever order, as long as every request is answered (a run
    with a request whose handler does not return has no result here). *)
Theorem server_bounded policy v evs v' :
  server_ok v → foldl (λ o ev, v ← o; '(_, v) ← http_step policy v ev; Some v) (Some v) evs = Some v' → server_ok v'.
Proof.
  revert v. induction evs as [|ev evs IH]; intros v Hv; [by intros [= <-]|]. cbn [foldl mbind option_bind].
  destruct (http_step policy v ev) as [[r v1]|] eqn:Hs; cbn [mbind option_bind].
  - apply IH. by eapply http_step_ok.
  - assert (∀ l, foldl (λ o ev, v ← o; '(_, v) ← http_step policy v ev; Some v) None l = None) as -> by (induction l; [done|by simpl]). done.
Qed.

(** Consecutive ticks at different times. *)
Definition moving (ticks : list (ChainState * Z)) : Prop :=
  ∀ i a b, ticks !! i = Some a → ticks !! S i = Some b → a.2 ≠ b.2.
Lemma sse_frames prev ticks :
  (∀ s n s' n', json_text (events_snapshot s n) = json_text (events_snapshot s' n') → n = n') → moving ticks →
  (∀ s now, head ticks = Some (s, now) → json_text (events_snapshot s now) ≠ prev) →
  sse_loop prev ticks = ((λ t, tip_frame (json_text (events_snapshot t.1 t.2))) <$> ticks) ++ [end_frame].
Proof.
  intros Htext. revert prev. induction ticks as [|[s now] ticks IH]; intros prev Hm Hfirst; [done|]. cbn [sse_loop fmap list_fmap app fst snd]. cbv zeta.
  rewrite bool_decide_eq_false_2 by (by apply Hfirst). f_equal. apply IH; [intros i a b; apply (Hm (S i))|].
  intros s' now' Hh Heq. apply Htext in Heq. destruct ticks as [|t ticks]; [done|]. injection Hh as ->.
  apply (Hm 0%nat (s, now) (s', now') eq_refl eq_refl). done.
Qed.
(** The event stream never rests: the snapshot carries the clock, so every tick sends it whole,
    also when neither the chain nor the mempools changed, and no keep-alive is ever sent. *)
Theorem sse_always_pulses ticks :
  (∀ s n s' n', json_text (events_snapshot s n) = json_text (events_snapshot s' n') → n = n') → (∀ v, json_text v ≠ []) → moving ticks →
  serve_sse (S (length ticks)) ticks = ((λ t, tip_frame (json_text (events_snapshot t.1 t.2))) <$> ticks) ++ [end_frame].
Proof.
  intros Htext Hne Hm. unfold serve_sse. rewrite sse_frames by (try done; intros s now _; apply Hne). apply take_ge. rewrite length_app, length_fmap. simpl. lia.
Qed.
End theorems.

(** ** A request is read whole *)

Lemma strip_prefix_ext pat l rest : strip_prefix pat l = None → (length pat <= length l)%nat → strip_prefix pat (l ++ rest) = None.
Proof.
  revert l. induction pat as [|x pat IH]; intros [|b l]; simpl; intros Hn Hl; try done; [lia|]. destruct (x =? b); [|done]. apply IH; [done|lia].
Qed.
Lemma strip_prefix_app pat l y rest : strip_prefix pat l = Some y → strip_prefix pat (l ++ rest) = Some (y ++ rest).
Proof. revert l. induction pat as [|x pat IH]; intros [|b l]; simpl; intros H; try done; [by injection H as <-|by injection H as <-|]. destruct (x =? b); [|done]. by apply IH. Qed.
Lemma split_at_str_len pat l x y : split_at_str pat l = Some (x, y) → l = x ++ pat ++ y.
Proof.
  revert x. induction l as [|b l IH]; intros x; cbn [split_at_str]; destruct (strip_prefix pat _) as [r|] eqn:Hp; try done.
  - intros [= <- <-]. by apply strip_prefix_len in Hp.
  - intros [= <- <-]. by apply strip_prefix_len in Hp.
  - destruct (split_at_str pat l) as [[x' y']|]; [|done]. cbn [mbind option_bind]. intros [= <- <-]. by rewrite (IH _ eq_refl).
Qed.
Lemma split_at_str_app pat l x y rest : split_at_str pat l = Some (x, y) → split_at_str pat (l ++ rest) = Some (x, y ++ rest).
Proof.
  revert x. induction l as [|b l IH]; intros x Hs; pose proof (split_at_str_len _ _ _ _ Hs) as Hl; revert Hs; cbn [split_at_str]; destruct (strip_prefix pat _) as [r|] eqn:Hp; try done.
  - intros [= <- <-]. apply (strip_prefix_app _ _ _ rest) in Hp. cbn [app] in *. destruct rest; cbn [split_at_str]; by rewrite Hp.
  - intros [= <- <-]. apply (strip_prefix_app _ _ _ rest) in Hp. cbn [app split_at_str] in *. by rewrite Hp.
  - destruct (split_at_str pat l) as [[x' y']|]; [|done]. cbn [mbind option_bind]. intros [= <- <-].
    apply (strip_prefix_ext _ _ rest) in Hp; [|rewrite Hl, !length_app; lia]. cbn [app split_at_str] in *. rewrite Hp. by rewrite (IH _ eq_refl).
Qed.

(** A request whose headers announce its body is returned whole and unchanged, however the
    network cut it, and whatever would come after it. *)
Theorem request_reassembled max_bytes headers body reads fin :
  split_at_str CRLF2 (headers ++ CRLF2 ++ body) = Some (headers, body) → content_length headers = len body →
  len (headers ++ CRLF2 ++ body) <= max_bytes → Forall (λ r, r ≠ []) reads → concat reads = headers ++ CRLF2 ++ body →
  read_request max_bytes [] reads fin = Ok (headers ++ CRLF2 ++ body).
Proof.
  intros Hsp Hcl Hmax Hne. set (r := headers ++ CRLF2 ++ body) in *.
  assert (len r = len headers + 4 + len body) as Hlen by (unfold r, len; rewrite !length_app; change (length CRLF2) with 4%nat; lia).
  assert (progress max_bytes r = Complete) as Hdone.
  { unfold progress. rewrite (proj2 (Z.ltb_ge _ _)), Hsp by lia. cbv zeta. rewrite Hcl. unfold sat_sub. rewrite (proj2 (Z.ltb_ge _ _)) by lia. by rewrite Z.leb_refl. }
  assert (∀ buf rest, buf ++ rest = r → rest ≠ [] → progress max_bytes buf = More) as Hmore.
  { intros buf rest Hbr Hrest. assert (len buf + len rest = len r) by (rewrite <- Hbr; unfold len; rewrite length_app; lia).
    assert (0 < len rest) by (unfold len; destruct rest; [done|simpl; lia]). pose proof (len_nonneg body). unfold progress. rewrite (proj2 (Z.ltb_ge _ _)) by lia.
    destruct (split_at_str CRLF2 buf) as [[h b]|] eqn:Hb; [|done]. apply (split_at_str_app _ _ _ _ rest) in Hb. rewrite Hbr, Hsp in Hb. injection Hb as <- Hbody. cbv zeta.
    assert (len body = len b + len rest) by (rewrite Hbody; unfold len; rewrite length_app; lia). rewrite Hcl. unfold sat_sub.
    rewrite (proj2 (Z.ltb_ge _ _)), (proj2 (Z.leb_gt _ _)) by lia. done. }
  assert (∀ reads buf, Forall (λ r, r ≠ []) reads → reads ≠ [] → buf ++ concat reads = r → read_request max_bytes buf reads fin = Ok r) as Hgo.
  { clear reads Hne. induction reads as [|c reads IH]; intros buf Hne Hnil Hcat; [done|]. inversion_clear Hne as [|? ? Hc Hrest]. cbn [concat] in Hcat. rewrite app_assoc in Hcat.
    cbn [read_request]. destruct c as [|b c]; [done|]. cbv zeta. destruct reads as [|c' reads].
    - cbn [concat] in Hcat. rewrite app_nil_r in Hcat. by rewrite Hcat, Hdone.
    - rewrite (Hmore _ (concat (c' :: reads)) Hcat); [apply IH; done|]. inversion_clear Hrest. cbn [concat]. by destruct c'. }
  intros Hcat. apply Hgo; [done| |done]. intros ->. cbn [concat] in Hcat. rewrite <- Hcat in Hlen. change (len (@nil Z)) with 0 in Hlen.
  pose proof (len_nonneg headers). pose proof (len_nonneg body). lia.
Qed.

(** No request above the cap gets through. *)
Lemma read_request_bounded max_bytes buf reads fin r : len buf <= max_bytes → read_request max_bytes buf reads fin = Ok r → len r <= max_bytes.
Proof.
  revert buf. induction reads as [|[|b c] reads IH]; intros buf Hb; cbn [read_request]; [destruct fin; [done|by intros [= <-]]|by intros [= <-]|]. cbv zeta.
  destruct (progress max_bytes (buf ++ b :: c)) eqn:Hp; [done| |]; unfold progress in Hp; destruct (Z.ltb_spec max_bytes (len (buf ++ b :: c))); try done.
  - by intros [= <-].
  - apply IH. lia.
Qed.

(** ** Percent encoding *)

(** RFC 3986: every byte as [%XX]. *)
Definition percent_encode (l : bytes) : bytes :=
  concat ((λ b, [37; (if b / 16 <? 10 then 48 + b / 16 else 55 + b / 16); (if b mod 16 <? 10 then 48 + b mod 16 else 55 + b mod 16)]) <$> l).
Lemma hex_pair_byte b : is_u8 b →
  hex_pair (if b / 16 <? 10 then 48 + b / 16 else 55 + b / 16) (if b mod 16 <? 10 then 48 + b mod 16 else 55 + b mod 16) = Some b.
Proof.
  intros Hb. set (f b := bool_decide (hex_pair (if b / 16 <? 10 then 48 + b / 16 else 55 + b / 16) (if b mod 16 <? 10 then 48 + b mod 16 else 55 + b mod 16) = Some b)).
  assert (f b = true) as Hf; [|by apply bool_decide_eq_true in Hf]. apply (forallb_seqZ f 256); [vm_compute; reflexivity|].
  unfold in_width in Hb. change (umax 8) with 255 in Hb. lia.
Qed.
(** Decoding undoes encoding, for every valid text. *)
Theorem percent_roundtrip s : is_bytes s → from_utf8_lossy s = s → percent_decode (percent_encode s) = s.
Proof.
  intros Hs Hu. unfold percent_decode. transitivity (from_utf8_lossy s); [f_equal|exact Hu].
  assert (∀ fuel, (length s <= fuel)%nat → percent_loop fuel (percent_encode s) = s) as Hgo.
  { clear Hu. induction Hs as [|b s Hb _ IH]; intros fuel Hf; [by destruct fuel|]. destruct fuel as [|fuel]; [simpl in Hf; lia|].
    unfold percent_encode in *. cbn [fmap list_fmap concat app percent_loop]. change (37 =? 37) with true. cbv iota. rewrite hex_pair_byte by done. cbn [mbind option_bind].
    rewrite IH; [done|]. simpl in Hf. lia. }
  apply Hgo. clear. induction s as [|b s IH]; [done|]. unfold percent_encode in *. cbn [fmap list_fmap concat]. rewrite length_app. simpl. lia.
Qed.

(** ** Unreachable answers *)

(** The second name of the vault list is taken by an earlier arm: the request for the list is
    answered as a request for the escrow named [vaults]. *)
Theorem vault_alias_shadowed tip query :
  route tip (str_bytes "/api/v1/escrow/vaults") query = Some (EscrowOf (str_bytes "vaults")).
Proof. vm_compute. reflexivity. Qed.
(** A page of the node's own machine under its IPv6 name counts as foreign unless its origin
    names a port. *)
Theorem ipv6_origin_refused :
  origin_is_local (str_bytes "http://[::1]") = false ∧ origin_is_local (str_bytes "http://[::1]:8080") = true ∧
  origin_is_local (str_bytes "http://127.0.0.1") = true.
Proof. vm_compute. done. Qed.

(** ** Example: a payment is posted *)

Module HttpExample.
#[export] Existing Instances PoolExample.ex_crypto PoolExample.ex_dual PoolExample.ex_body PoolExample.ex_env PoolExample.ex_pool_env.
#[export] Instance ex_api : ApiEnv := {|
  titles_iter m := (map_to_list m).*2; escrows_iter m := (map_to_list m).*2; accounts_iter m := map_to_list m; staked_iter m := map_to_list m;
  senders_iter _ := []; debug_predicate _ := ""; json_utxo_tx _ := JNull; json_registry_op _ := JNull; json_custody_op _ := JNull;
  json_title_event _ := JNull; json_abs_signature _ := JNull |}.
#[export] Instance ex_codec : HttpCodec := {|
  de_tx_submit _ := None; de_utxo_tx l := if bool_decide (l = str_bytes "payment") then Ok PoolExample.parent else Err "syntax";
  de_registry_op _ := Err "syntax"; de_custody _ := Err "syntax"; de_json _ := None |}.
#[export] Instance ex_index : IndexEnv := {| tx_order m := (map_to_list m).*1; ser_index _ := None; de_index _ := Err "" |}.
#[export] Instance ex_stratum : StratumEnv := {| job_order m := (map_to_list m).*1 |}.
(** A value is written as its clock. *)
#[export] Instance ex_text : JsonText := {| json_text v := 35 :: match json_get v "ts_ms" with Some (JNum n) => str_bytes (pretty n) | _ => [] end |}.
#[export] Instance ex_explorer : ExplorerEnv :=
  {| by_hash_iter := map_to_list; txs_iter := map_to_list; labels_iter := map_to_list; to_lowercase := to_ascii_lowercase; ser_linear_proof _ := None;
     ser_multilevel_proof _ := None; json_multilevel_proof _ := None; json_cost_basis _ := JNull; ratio_text _ _ := "" |}.
#[export] Instance ex_host : HostEnv := {| stratum_password := None; index_path := "" |}.
Definition policy : NetPolicy :=
  {| np_public_mode := false; api_token := Some (str_bytes "secret"); strict_dials := false; peer_msg_limit := 4000; stark_verifies_per_window := 16;
     stark_window := 10000; cors_origins := []; api_write_limit_per_window := 60 |}.
Definition ip : IpAddr := V4 [10; 0; 0; 7].
Definition head_text (token : string) : bytes :=
  str_bytes "POST /api/v1/utxo/submit HTTP/1.1" ++ [13; 10] ++ str_bytes "Content-Length: 7" ++ [13; 10] ++ str_bytes "authorization: Bearer " ++ str_bytes token.
Definition post (token : string) : bytes := head_text token ++ CRLF2 ++ str_bytes "payment".
Definition server : Server := {| srv_state := PoolExample.s0; srv_index := IndexerDb_new; srv_trace := AiTraceLog_default;
  srv_net := {| ns_peer_count := 0; ns_listening := false; ns_listen_addr := None; ns_banned_count := 0; ns_known_addrs := 0 |}; srv_limiter := ∅; srv_streams := 0; srv_active := 1 |}.
Definition served (token : string) : option (Reply * Server) := handle_request policy 7 0 0 ip (Ok (post token)) server.
Definition pool_size (o : option (Reply * Server)) : Z := from_option (λ rv, len (utxo_mempool (cs_pools (srv_state rv.2)))) (-1) o.
Lemma posted : pool_size (served "secret") = 1 ∧ pool_size (served "guess") = 0.
Proof. vm_compute. done. Qed.
End HttpExample.

Section witnesses.
Import HttpExample.

Lemma write_gate_witness : is_write (request_target (from_utf8_lossy (post "secret"))).1 = true ∧ bearer_token (from_utf8_lossy (post "secret")) = Some (str_bytes "secret").
Proof.
  pose proof (proj1 posted) as Hp. destruct (served "secret") as [[r v']|] eqn:Hs; [|done]. cbn [pool_size from_option snd] in Hp.
  destruct (write_gate policy 7 0 0 ip (Ok (post "secret")) server r v' Hs) as (bs & Hbs & Hw & _ & Ht & _).
  - intros Heq. rewrite Heq in Hp. vm_compute in Hp. discriminate Hp.
  - injection Hbs as <-. split; [exact Hw|]. apply Ht. reflexivity.
Defined.
Lemma server_bounded_witness : server_ok (with_active server 2).
Proof. apply (server_bounded policy server [HAccept]); [split; vm_compute; split; discriminate|reflexivity]. Defined.
Lemma request_reassembled_witness : read_request MAX_REQUEST_BYTES [] [take 50 (post "x"); drop 50 (post "x")] (Some "timed out") = Ok (post "x").
Proof.
  apply (request_reassembled MAX_REQUEST_BYTES (head_text "x") (str_bytes "payment")); [vm_compute; reflexivity|vm_compute; reflexivity|vm_compute; discriminate| |vm_compute; reflexivity].
  repeat constructor; vm_compute; discriminate.
Defined.
Lemma percent_roundtrip_witness : percent_decode (percent_encode (str_bytes "a b")) = str_bytes "a b".
Proof. apply percent_roundtrip; [apply (Forall_impl (λ b, 0 <= b <= 255)); [repeat constructor; vm_compute; discriminate|done]|vm_compute; reflexivity]. Defined.
Lemma sse_always_pulses_witness :
  serve_sse 3 [(PoolExample.s0, 1); (PoolExample.s0, 401)] = [tip_frame (str_bytes "#1"); tip_frame (str_bytes "#401"); end_frame].
Proof.
  refine (sse_always_pulses [(PoolExample.s0, 1); (PoolExample.s0, 401)] _ _ _).
  - intros s n s' n' He. assert (str_bytes (pretty n) = str_bytes (pretty n')) as Hp by exact (f_equal tail He).
    apply (f_equal bytes_str) in Hp. rewrite !bytes_str_bytes in Hp. by apply (inj pretty) in Hp.
  - intros v. done.
  - intros [|[|i]] a b Ha Hb; [|done|done]. injection Ha as <-. injection Hb as <-. done.
Defined.
End witnesses.
