(* ===== verification/Startup.v ===== *)
(** * Starting, saving and stopping a node

    [main] of [src/src/main.rs]: the command line and environment become a profile, a
    network policy, a chain state and a set of dials; the thread that saves the chain, the
    shutdown handler, and the mempool dump of [src/src/lib.rs].  The components it starts are
    those of the other files: [NodeRole], [Net], [Tor], [Persist], [AccountPool], [Http].

    The data directory is the [Files] of [Persist].  Creating and writing the temporary file
    succeeds; the two backup renames may each fail.  What is printed is left out. *)

From S2P Require Import Prelude Genesis Crypto Address Predicate Utxo UtxoTx Registry Custody Block Ledger.
From S2P Require Import Dag Ghostdag Reachability FeeHistory Stark Superproof State Chain ChainInv Persist Mempool AccountPool Net PeerPin NodeRole.
From S2P Require Import Stream Tor Api Http.

(** [bincode] on the transparent pool. *)
Class PoolCodec := {
  encode_pool : list TransparentTx → result bytes;
  decode_pool : bytes → result (list TransparentTx);
}.

(** [split([',', ';'])]. *)
Definition split_list (l : bytes) : list bytes := split_at 44 ((λ b, if b =? 59 then 44 else b) <$> l).
(** The peers to dial: those of the profile, else those of the environment. *)
Definition start_peers (p : NodeProfile) (env : Env) : list bytes :=
  if negb (bool_decide (pr_peers p = [])) then pr_peers p else
  let one := from_option (λ o, if bool_decide (trim o = []) then [] else [o]) [] (env "HASSAN_P2P_PEER") in
  let many := from_option (λ m, List.filter (λ q, negb (bool_decide (q = []))) (trim <$> split_list m)) [] (env "HASSAN_P2P_PEERS") in
  one ++ many.
Definition start_listen (env : Env) : option bytes :=
  l ← env "HASSAN_P2P_LISTEN"; if bool_decide (l = []) then None else Some l.
Definition start_archival (p : NodeProfile) (env : Env) : bool :=
  pr_archival p ||
  from_option (λ v, arg_is v "1" || bool_decide (to_ascii_lowercase v = str_bytes "true")) false (env "HASSAN_ARCHIVAL").
Definition set_archival (s : ChainState) : ChainState :=
  {| cs_dag := cs_dag s; cs_tips := cs_tips s; cs_main_chain := cs_main_chain s; cs_ledger := cs_ledger s;
     cs_difficulty := cs_difficulty s; cs_chain_id := cs_chain_id s; cs_ghostdag := cs_ghostdag s;
     cs_reachability := cs_reachability s; cs_archival := true; cs_base := cs_base s;
     cs_base_captured := cs_base_captured s; cs_base_frontier := cs_base_frontier s;
     cs_pruning_point := cs_pruning_point s; cs_pruning_ledger := cs_pruning_ledger s;
     cs_pruned_selected_blocks := cs_pruned_selected_blocks s; cs_pools := cs_pools s |}.

Section startup.
Context `{!Crypto, !DualCrypto, !BodyCodec, !NodeEnv, !PoolEnv, !StateCodec, !PoolCodec, !Sockets}.

(** ** The mempool dump *)

Definition POOL_MAGIC : bytes := str_bytes "HSNMEMPOOL1".
Definition dump_mempool_to (s : ChainState) : result bytes :=
  let pool := transparent_mempool (cs_pools s) in
  blob ← map_err (String.append "serialize mempool: ") (encode_pool pool);
  Ok (POOL_MAGIC ++ le_bytes 4 (len pool) ++ blob).
(** Every transfer of the dump is admitted as one that arrives now; [None] when an
    admission does not return. *)
Fixpoint load_pool (s : ChainState) (now loaded : Z) (txs : list TransparentTx) : option (Z * ChainState) :=
  match txs with
  | [] => Some (loaded, s)
  | tx :: txs =>
      '(r, s) ← admit_transparent_to_mempool (pool_fuel s) s now tx;
      load_pool s now (if is_ok r then loaded + 1 else loaded) txs
  end.
(** [load_mempool_from] on the bytes of the file. *)
Definition load_mempool_from (s : ChainState) (now : Z) (file : bytes) : option (result Z * ChainState) :=
  if (len file <? 15) || negb (bool_decide (take 11 file = POOL_MAGIC)) then Some (Err "not a Hassan mempool dump", s) else
  match map_err (String.append "deserialize mempool: ") (decode_pool (drop 15 file)) with
  | Err e => Some (Err e, s)
  | Ok txs => '(loaded, s) ← load_pool s now 0 txs; Some (Ok loaded, s)
  end.

(** ** The chain state *)

(** The state a process starts with, or the code it exits with. *)
Definition boot_state (fs : Files) : Z + ChainState :=
  if exists_file Primary fs then match load_from fs with Ok s => inr s | Err _ => inl 1 end else inr ChainState_new.

(** [save_to] on the directory: the state it leaves, the outcome and the files. *)
Definition save_to (ok1 ok2 : bool) (s : ChainState) (fs : Files) : result unit * ChainState * Files :=
  match save_bytes s with
  | (Ok data, s) => (Ok (), s, save_files ok1 ok2 data fs)
  | (Err e, s) => (Err e, s, fs)
  end.
(** One round of the thread that saves: nothing when the height is the one saved last;
    the state saved is a copy. *)
Definition autosave (ok1 ok2 : bool) (last_saved : Z) (s : ChainState) (fs : Files) : Z * Files :=
  let height := tip_height s in
  if height =? last_saved then (last_saved, fs) else
  match save_to ok1 ok2 s fs with
  | (Ok _, _, fs) => (height, fs)
  | (Err _, _, fs) => (last_saved, fs)
  end.
(** The shutdown handler: the files and the mempool dump, if one is configured. *)
Definition shutdown (ok1 ok2 : bool) (dump : bool) (s : ChainState) (fs : Files) : Files * option (result bytes) :=
  let '(_, s, fs) := save_to ok1 ok2 s fs in (fs, if dump then Some (dump_mempool_to s) else None).

(** ** The whole start *)

(** The producer's reward address is the node's own key's in every case. *)
Definition reward_address (own : string) (env : Env) : string :=
  match env "HASSAN_MINER_ADDRESS" with
  | Some a => if String.eqb (bytes_str a) own then bytes_str a
              else if is_valid_address (bytes_str a) then own else own
  | None => own
  end.
(** [su_listen] is where the peer-to-peer listener binds, [su_api] where the API server does,
    [None] when it refuses to. *)
Record Started := {
  su_env : Env;
  su_profile : NodeProfile;
  su_policy : NetPolicy;
  su_state : ChainState;
  su_miner : option string;
  su_api : option bytes;
  su_tor_proxy : option bytes;
  su_listen : option bytes;
  su_peers : list bytes;
  su_actions : list NetAction;
}.
(** What a start draws from outside: the random bytes of the display address and of the
    token, the clock, the mempool dump, and the key of the miner. *)
Record Outside := { out_onion : bytes; out_token : bytes; out_now : Z; out_dump : option bytes; out_key : string }.
(** [None] when an admission of the dump does not return; [inl] is a process that exits. *)
Definition start_node (o : Outside) (raw : list bytes) (env : Env) (fs : Files) : option (Z + Started) :=
  match parse_args raw env with
  | inl code => Some (inl code)
  | inr p =>
      match apply_env p env with
      | inl code => Some (inl code)
      | inr env =>
          match from_env env (out_token o) with
          | Err _ => Some (inl 1)
          | Ok policy =>
              match boot_state fs with
              | inl code => Some (inl code)
              | inr s =>
                  s ← match env "HASSAN_MEMPOOL_PATH", out_dump o with
                      | Some _, Some file => snd <$> load_mempool_from s (out_now o) file
                      | _, _ => Some s
                      end;
                  let s := if start_archival p env then set_archival s else s in
                  let tor := TorLayer_from_env (out_onion o) env in
                  let listen := start_listen env in
                  let peers := start_peers p env in
                  let proxy := if is_enabled tor then Some (proxy_addr tor) else None in
                  let idle := bool_decide (listen = None) && bool_decide (peers = []) in
                  Some (inr {| su_env := env; su_profile := p; su_policy := policy; su_state := s;
                               su_miner := if pr_enable_mining p then Some (reward_address (out_key o) env) else None;
                               su_api := if serves policy env then Some (api_bind env) else None;
                               su_tor_proxy := if idle then None else proxy; su_listen := listen; su_peers := peers;
                               su_actions := mjoin ((λ a, (dial_target a proxy).2) <$> peers) |})
              end
          end
      end
  end.

(** ** Restarting after a crash *)

Lemma boot_loads fs s : load_from fs = Ok s → fs Primary ≠ None → boot_state fs = inr s.
Proof. intros Hl Hp. unfold boot_state, exists_file. rewrite bool_decide_eq_true_2 by (by apply not_eq_None_Some). by rewrite Hl. Qed.
Lemma boot_empty fs : fs Primary = None → boot_state fs = inr ChainState_new.
Proof. intros Hp. unfold boot_state, exists_file. rewrite bool_decide_eq_false_2; [done|]. rewrite Hp. by intros [? ?]. Qed.
Lemma load_primary_in fs s : load_one fs Primary = Ok s → fs Primary ≠ None.
Proof. intros Hl. apply not_eq_None_Some. by eapply load_one_Some. Qed.

(** The state file after a save. *)
Lemma saved_primary ok1 ok2 data fs : save_files ok1 ok2 data fs Primary = Some data.
Proof.
  unfold save_files, publish, rename. destruct (roll_primary_files ok2 (roll_bak ok1 (write_tmp data fs))) as (_ & -> & _).
  by destruct (roll_bak_files ok1 (write_tmp data fs)) as (_ & -> & _).
Qed.
(** The directory a save leaves when its renames succeed. *)
Lemma save_ok_files data fs :
  let fs' := save_files true true data fs in
  fs' Primary = Some data ∧ fs' Tmp = None ∧
  fs' Bak = (if exists_file Primary fs then fs Primary else fs Bak) ∧
  fs' Bak1 = (if exists_file Primary fs && exists_file Bak fs then fs Bak else fs Bak1).
Proof.
  cbv zeta. unfold save_files, publish, rename. destruct (roll_bak_files true (write_tmp data fs)) as (P1 & T1 & B1 & C1).
  destruct (roll_primary_files true (roll_bak true (write_tmp data fs))) as (P2 & T2 & B2 & C2).
  assert (exists_file Primary (roll_bak true (write_tmp data fs)) = exists_file Primary fs) as HE by (unfold exists_file; by rewrite P1).
  rewrite HE in B2. rewrite T2, T1. change (write_tmp data fs Tmp) with (Some data). cbv iota. unfold set_file.
  split_and!; [done|done| |].
  - rewrite !decide_False by done. rewrite B2, P1, B1. rewrite andb_true_r.
    change (write_tmp data fs Primary) with (fs Primary). change (exists_file Primary (write_tmp data fs)) with (exists_file Primary fs).
    by destruct (exists_file Primary fs).
  - rewrite !decide_False by done. rewrite C2, C1, andb_true_r. reflexivity.
Qed.

(** C21. A start after a save that was cut short: the old state or the new one, except between the
    two renames, where the state file is absent: there [load_from] would still recover the old
    state from the backup, but a start that finds no state file does not call it and begins at
    genesis; and the third save from then on has replaced the last backup of the old chain. *)
Theorem crash_window_restarts fs partial ok1 ok2 data old new d1 d2 d3 :
  load_one fs Primary = Ok old → load_bytes data = Ok new →
  let window := roll_primary true (roll_bak ok1 (write_tmp data fs)) in
  let later := save_files true true d3 (save_files true true d2 (save_files true true d1 window)) in
  (∀ fs', fs' ∈ crash_points partial ok1 ok2 data fs →
     boot_state fs' = inr old ∨ boot_state fs' = inr new ∨ (ok2 = true ∧ fs' = window)) ∧
  load_from window = Ok old ∧ boot_state window = inr ChainState_new ∧
  later Primary = Some d3 ∧ later Bak = Some d2 ∧ later Bak1 = Some d1 ∧ later Tmp = None.
Proof.
  intros Hold Hnew window later. pose proof (load_primary_in _ _ Hold) as Hp.
  assert (load_one (write_tmp data fs) Primary = Ok old) as Hold' by (rewrite <- Hold; by apply load_one_ext).
  destruct (after_rolls (write_tmp data fs) ok1 true old (or_introl Hold')) as [Hl1 Hlw].
  destruct (roll_bak_files ok1 (write_tmp data fs)) as (P1 & T1 & _). change (write_tmp data fs Primary) with (fs Primary) in P1.
  assert (exists_file Primary (roll_bak ok1 (write_tmp data fs)) = true) as HE.
  { unfold exists_file. rewrite P1. by apply bool_decide_eq_true_2, not_eq_None_Some. }
  destruct (roll_primary_files true (roll_bak ok1 (write_tmp data fs))) as (PW & TW & BW & _). rewrite HE in PW, BW. cbn [andb] in PW, BW.
  fold window in PW, BW, Hlw. split; [|split; [exact Hlw|split; [by apply boot_empty|]]].
  - assert (∀ c, boot_state (write_tmp c fs) = inr old) as Htmp.
    { intros c. apply boot_loads; [|done]. apply load_from_primary. rewrite <- Hold. by apply load_one_ext. }
    unfold crash_points. intros fs'. rewrite !elem_of_cons. intros [->|[->|[->|[->|[->|[->|[]%not_elem_of_nil]]]]]]; auto.
    + left. apply boot_loads; [by apply load_from_primary|done].
    + left. apply boot_loads; [done|by rewrite P1].
    + destruct ok2; [by auto|]. left. unfold roll_primary. rewrite andb_false_r. apply boot_loads; [done|by rewrite P1].
    + right; left. pose proof (saved_primary ok1 ok2 data fs) as Hd.
      apply boot_loads; [|by rewrite Hd]. apply load_from_primary. unfold load_one. by rewrite Hd.
  - destruct (save_ok_files d1 window) as (p1 & t1 & b1 & c1). set (w1 := save_files true true d1 window) in *.
    destruct (save_ok_files d2 w1) as (p2 & t2 & b2 & c2). set (w2 := save_files true true d2 w1) in *.
    destruct (save_ok_files d3 w2) as (p3 & t3 & b3 & c3). fold later in p3, t3, b3, c3.
    unfold exists_file in *. rewrite p1 in b2, c2. rewrite p2 in b3, c3. cbn in b2, b3. rewrite b2 in c3. by rewrite p3, t3, b3, c3.
Qed.

(** ** Stopping and starting *)

(** C14. A clean stop of an archival node and the next start, under these conditions: the
    node admitted at least one block (the base is captured), it started from a seed within the
    supply cap, its live ledger passes the source's supply test, the state serialises, and
    decoding inverts encoding on it.  Then, whether or not the backup renames succeed, the
    files the shutdown handler leaves start into a state with the same blocks, main chain,
    finalised base, ledger and finality point as the one that was running, of which the
    invariant of block admission holds again.  The supply test is a real restriction: it
    leaves out funds held in registry escrows, so while an escrow is funded the test fails and
    this theorem does not apply. *)
Theorem stop_start L0 s data fs ok1 ok2 dump :
  (∀ i n, length (blake3_xof i n) = n) →
  (∀ payload, encode_state s = Ok payload → decode_state payload = Ok (persisted s)) →
  reachable L0 s → keys_exact (cs_dag s) → cs_base_captured s = true → 0 <= minted_supply L0 <= MAX_SUPPLY →
  supply_invariant_ok (cs_ledger s) = true → (save_bytes s).1 = Ok data →
  ∃ s', boot_state (shutdown ok1 ok2 dump s fs).1 = inr s' ∧ chain_ok L0 s' ∧ cs_dag s' = cs_dag s ∧
    cs_main_chain s' = cs_main_chain s ∧ cs_base s' = cs_base s ∧ cs_ledger s' = cs_ledger s ∧ finality_point s' = finality_point s.
Proof.
  intros Hxof Hcodec Hr Hk Hcap HL Hsup Hsave.
  destruct (reload_exact L0 s data Hxof Hcodec Hr Hk Hcap HL Hsup Hsave) as (s' & Hl & Hok & Hd & _ & _ & Hm & Hb & _ & Hled & Hf).
  exists s'. split; [|done]. unfold shutdown, save_to. destruct (save_bytes s) as [r s1]. cbn [fst] in Hsave. subst r. cbn [fst].
  pose proof (saved_primary ok1 ok2 data fs) as Hp. apply boot_loads; [|by rewrite Hp].
  apply load_from_primary. unfold load_one. by rewrite Hp.
Qed.

(** ** The mempool dump holds nothing that can be loaded *)

Lemma load_pool_none s now loaded txs : load_pool s now loaded txs = Some (loaded, s).
Proof. induction txs as [|tx txs IH]; [done|]. cbn [load_pool]. unfold admit_transparent_to_mempool. change (negb ACCOUNT_PEER_TRANSFERS) with true. exact IH. Qed.
(** Loading a dump always returns, never changes the state, and reports zero transfers when it
    succeeds: the dump is of the account pool, whose admission is switched off. *)
Theorem mempool_dump_void s now file :
  ∃ r, load_mempool_from s now file = Some (r, s) ∧ (∀ n, r = Ok n → n = 0).
Proof.
  unfold load_mempool_from. destruct (_ || _); [by eexists|]. destruct (map_err _ (decode_pool _)) as [txs|e]; [|by eexists].
  rewrite load_pool_none. eexists. split; [done|]. by intros n [= <-].
Qed.

(** ** A start that stays behind the proxy *)

Lemma start_node_inv o raw env fs r :
  start_node o raw env fs = Some (inr r) →
  let tor := TorLayer_from_env (out_onion o) (su_env r) in
  let proxy := if is_enabled tor then Some (proxy_addr tor) else None in
  parse_args raw env = inr (su_profile r) ∧ apply_env (su_profile r) env = inr (su_env r) ∧
  su_listen r = start_listen (su_env r) ∧ su_peers r = start_peers (su_profile r) (su_env r) ∧
  su_tor_proxy r = (if bool_decide (su_listen r = None) && bool_decide (su_peers r = []) then None else proxy) ∧
  su_actions r = mjoin ((λ a, (dial_target a proxy).2) <$> su_peers r) ∧
  su_api r = (if serves (su_policy r) (su_env r) then Some (api_bind (su_env r)) else None).
Proof.
  unfold start_node. destruct (parse_args raw env) as [?|p]; [done|]. destruct (apply_env p env) as [?|env'] eqn:Ha; [done|].
  destruct (from_env env' _) as [pol|]; [|done]. destruct (boot_state fs) as [?|s]; [done|].
  destruct (match env' "HASSAN_MEMPOOL_PATH" with Some _ => _ | None => _ end) as [s1|]; [|done].
  cbn [mbind option_bind]. intros [= <-]. split_and!; first [exact Ha|reflexivity].
Qed.
(** The API is bound off loopback only where it was asked to be, and with a token. *)
Lemma api_exposed p env env' policy a :
  apply_env p env = inr env' → (if serves policy env' then Some (api_bind env') else None) = Some a → public_bind a = true →
  is_Some (api_token policy) ∧ (pr_api_bind p = Some a ∨ pr_api_bind p = None ∧ env "HASSAN_API_BIND" = Some a).
Proof.
  intros Happ%applied_api. unfold serves. destruct (negb _) eqn:Hs; [|done]. intros [= <-] Hp. rewrite Hp in Hs. cbn [andb] in Hs.
  apply negb_true_iff, bool_decide_eq_false in Hs. split; [by apply not_eq_None_Some|]. unfold api_bind in *. rewrite Happ in *.
  cbn [default from_option id] in *. destruct (pr_api_bind p) as [b|]; [by left|right; split; [done|]].
  destruct (env "HASSAN_API_BIND") as [b|]; [done|]. vm_compute in Hp. discriminate Hp.
Qed.
Lemma from_env_enabled rnd env : is_enabled (TorLayer_from_env rnd env) = tor_enabled env.
Proof.
  unfold TorLayer_from_env. destruct (env "HASSAN_TOR_PROXY") as [px|]; [|done]. unfold set_proxy.
  by destruct (split_host_port px) as [[? ?]|].
Qed.

(** C33. From the command line to the wire, for a Tor-only start whose environment does not
    set [HASSAN_TOR] to anything the Tor layer refuses: the peer-to-peer listener, if there is
    one, is on the loopback interface; a node with peers to dial is configured to dial through
    the proxy; and every name resolved and address connected to while the peers are dialled
    is the proxy's.  The API server is a second listener, which the role does not confine: it
    is on loopback too unless [--api-bind] or else [HASSAN_API_BIND] names another address,
    and on that address only if an API token is set. *)
Theorem tor_start_private o raw env fs r :
  start_node o raw env fs = Some (inr r) → pr_tor_only (su_profile r) = true → env "HASSAN_TOR" = None ∨ tor_enabled env = true →
  let proxy := proxy_addr (TorLayer_from_env (out_onion o) (su_env r)) in
  (∀ l, su_listen r = Some l → is_loopback_bind l = true) ∧
  (∀ a, su_api r = Some a → public_bind a = true →
     is_Some (api_token (su_policy r)) ∧
     (pr_api_bind (su_profile r) = Some a ∨ pr_api_bind (su_profile r) = None ∧ env "HASSAN_API_BIND" = Some a)) ∧
  (su_peers r ≠ [] → su_tor_proxy r = Some proxy) ∧
  (∀ act, act ∈ su_actions r → act = Resolve proxy ∨ ∃ a rest, resolve proxy = Ok (a :: rest) ∧ act = Connect a).
Proof.
  intros Hs Ht Henv proxy. destruct (start_node_inv _ _ _ _ _ Hs) as (Hp & Ha & Hl & Hpe & Htp & Hact & Hapi).
  assert (pr_public_lock (su_profile r) = false) as Hlock.
  { destruct (pr_public_lock (su_profile r)) eqn:Hlk; [|done]. by rewrite (parse_args_public _ _ _ Hp Hlk) in Ht. }
  destruct (applied_tor _ _ _ Ha Hlock Ht) as [Htor Hlis].
  assert (is_enabled (TorLayer_from_env (out_onion o) (su_env r)) = true) as Hen.
  { rewrite from_env_enabled. unfold tor_enabled. rewrite Htor. destruct Henv as [->|He]; [done|]. unfold tor_enabled in He. by destruct (env "HASSAN_TOR"). }
  rewrite Hen in Htp, Hact. fold proxy in Htp, Hact. split_and!.
  - intros l. rewrite Hl. unfold start_listen. destruct (su_env r "HASSAN_P2P_LISTEN") as [l'|] eqn:Hl'; [|done].
    cbn [mbind option_bind]. destruct (bool_decide (l' = [])); [done|]. intros [= <-]. by apply Hlis.
  - intros a. rewrite Hapi. by apply api_exposed.
  - intros Hne. rewrite Htp, (bool_decide_eq_false_2 (su_peers r = [])) by done. by rewrite andb_false_r.
  - intros act. rewrite Hact. intros (acts & Hin & Hacts)%list_elem_of_join. apply list_elem_of_fmap in Hacts as (a & -> & _). by apply (proxied_acts a).
Qed.
End startup.

(** ** A start of the example node *)
Module StartupExample.
Import ChainExample PersistExample TorExample.
#[export] Instance ex_pool_codec : PoolCodec := {| encode_pool _ := Ok []; decode_pool _ := Ok [] |}.
Definition peer_args : list bytes := str_bytes <$> ["hassan"; "light"; "--peer"; "peer.example:9333"].
Definition no_env : Env := λ _, None.
Definition outside : Outside := {| out_onion := replicate 35 7; out_token := str_bytes "t"; out_now := 0; out_dump := None; out_key := "" |}.
Definition nothing : Files := λ _, None.
End StartupExample.

Section witnesses.
#[local] Existing Instances ChainExample.ex_crypto ChainExample.ex_dual ChainExample.ex_body ChainExample.ex_env PersistExample.ex_codec.
#[local] Existing Instances TorExample.sockets StartupExample.ex_pool_codec.
#[local] Instance pool_env : PoolEnv := {| public_mode := false; some_key m := head (elements (dom m)) |}.
Import StartupExample.

Lemma crash_window_restarts_witness :
  let window := roll_primary true (roll_bak true (write_tmp (frame [1]) PersistExample.disk)) in
  load_from window = Ok (rebuild_derived (persisted ChainExample.start)) ∧ boot_state window = inr ChainState_new.
Proof.
  destruct (crash_window_restarts PersistExample.disk [] true true (frame [1]) _ _ [] [] []
    PersistExample.start_loads PersistExample.later_loads) as (_ & Hl & Hb & _).
  split; [exact Hl|exact Hb].
Defined.

Lemma stop_start_witness :
  ∃ s', boot_state (shutdown true true false ChainExample.later nothing).1 = inr s' ∧ cs_ledger s' = cs_ledger ChainExample.later.
Proof.
  destruct ChainExample.later_facts as (_ & Hcap & Hsup & _).
  destruct (stop_start Ledger_default ChainExample.later (frame [1]) nothing true true false PersistExample.xof_length)
    as (s' & Hs' & _ & _ & _ & _ & Hl & _).
  - intros payload [= <-]. rewrite Hcap. cbn [decode_state PersistExample.ex_codec].
    rewrite bool_decide_eq_true_2 by reflexivity. reflexivity.
  - exact ChainExample.later_reachable.
  - intros h. unfold dag_keys. simpl. rewrite elem_of_elements. reflexivity.
  - exact Hcap.
  - change (0 <= 0 <= MAX_SUPPLY). clear. unfold MAX_SUPPLY. split; [reflexivity|vm_compute; discriminate].
  - exact Hsup.
  - unfold save_bytes. destruct (reachable_ok _ _ ChainExample.later_reachable) as (_ & -> & _).
    cbn [fst encode_state PersistExample.ex_codec]. rewrite Hcap. reflexivity.
  - exists s'. split; [exact Hs'|exact Hl].
Defined.

Lemma tor_start_private_witness :
  ∃ r, start_node outside peer_args no_env nothing = Some (inr r) ∧ su_actions r = [Resolve DEFAULT_TOR_PROXY; Connect TorExample.local] ∧
    su_tor_proxy r = Some DEFAULT_TOR_PROXY.
Proof.
  assert ((λ x, match x with inr r => Some (pr_tor_only (su_profile r), su_actions r, su_peers r, proxy_addr (TorLayer_from_env (out_onion outside) (su_env r)))
    | inl _ => None end) <$> start_node outside peer_args no_env nothing
    = Some (Some (true, [Resolve DEFAULT_TOR_PROXY; Connect TorExample.local], [TorExample.peer_name], DEFAULT_TOR_PROXY))) as Hc by (vm_compute; reflexivity).
  destruct (start_node outside peer_args no_env nothing) as [[?|r]|] eqn:Hs; [discriminate Hc| |discriminate Hc].
  injection Hc as Ht Ha Hp Hx. exists r. split; [reflexivity|]. split; [exact Ha|].
  rewrite <- Hx. apply (tor_start_private outside peer_args no_env nothing r Hs Ht); [left; reflexivity|rewrite Hp; discriminate].
Defined.
End witnesses.
