(* ===== verification/Signing.v ===== *)
(** * Producing signatures and certificates

    The signing side of the program: the Absolute Binding Signature of [src/src/abs_sig.rs]
    and of a transfer, [RegistryOp::sign] of [src/src/registry.rs], the second signature of
    [src/src/dual_sig.rs], and [issue_custody] of [src/src/custody.rs]; with the miner that
    searches alone ([SoloMiner] of [src/src/consensus.rs]) and the pinned digest of
    [src/src/assume_valid.rs].

    The randomness of a signature is an argument.  Decimal text of big integers is the
    [num-bigint] crate's, SLH-DSA signing the [fips205] crate's: the classes [BigText] and
    [DualSigner]. *)

From S2P Require Import Prelude Genesis Crypto Address Predicate Utxo UtxoTx Registry Custody Block.
From S2P Require Import Ledger State Chain ChainInv Net NodeRole Mempool Mining Indexer.

Class BigText := {
  (** [BigUint::to_str_radix(10)], [parse::<BigUint>]. *)
  big_to_str : Z → string;
  big_parse : string → option Z;
}.
Class BigTextLaws `{!BigText} : Prop := {
  big_parse_to_str n : 0 <= n → big_parse (big_to_str n) = Some n;
  big_parse_nonneg t n : big_parse t = Some n → 0 <= n;
}.
Class DualSigner := {
  (** [PrivateKey::try_sign]: key, message, context, randomness. *)
  slh_sign : bytes → bytes → bytes → bytes → result bytes;
}.

(** ** Numbers as bytes *)

(** [BigUint::to_bytes_be]: no leading zero, one byte for zero. *)
Definition biguint_bytes (n : Z) : bytes := be_bytes (Z.to_nat (Z.log2 n / 8 + 1)) n.

(** ** Absolute Binding Signatures *)

Definition ABS_SCHEME_ML_DSA_87 : Z := 87.
Definition ABS_SCHEME_NAME : string := "ML-DSA-87".
Record AbsSignature := {
  abs_scheme : Z;
  abs_scheme_name : string;
  abs_digest512 : string;
  abs_value : string;
  abs_value_hex : string;
  abs_public_key : string;
}.

Section signing.
Context `{!Crypto, !BigText}.

Definition abs_from_parts (digest signature public_key : bytes) : AbsSignature :=
  {| abs_scheme := ABS_SCHEME_ML_DSA_87; abs_scheme_name := ABS_SCHEME_NAME; abs_digest512 := hex_encode digest;
     abs_value := big_to_str (be_int signature); abs_value_hex := hex_encode signature; abs_public_key := hex_encode public_key |}.
Definition abs_sign (domain message secret_key public_key rng : bytes) : result AbsSignature :=
  let digest := digest512 domain message in
  sig ← sign_message secret_key digest rng;
  Ok (abs_from_parts digest sig public_key).
(** The decimal number against the bytes: padded on the left to their length. *)
Definition number_matches (value : string) (sig : bytes) : bool :=
  match big_parse value with
  | Some n =>
      let from_num := biguint_bytes n in
      if len sig <? len from_num then false
      else bool_decide (replicate (length sig - length from_num) 0 ++ from_num = sig)
  | None => false
  end.
Definition decode_sized (size : Z) (text : string) : option bytes :=
  b ← hex_decode text; if len b =? size then Some b else None.
Definition abs_verify (a : AbsSignature) (domain message : bytes) : bool :=
  if negb (abs_scheme a =? ABS_SCHEME_ML_DSA_87) then false else
  let digest := digest512 domain message in
  if negb (bool_decide (hex_encode digest = abs_digest512 a)) then false else
  match decode_sized PQ_PUBLIC_KEY_SIZE (abs_public_key a), decode_sized PQ_SIGNATURE_SIZE (abs_value_hex a) with
  | Some pk, Some sig => if negb (number_matches (abs_value a) sig) then false else verify_signature pk digest sig
  | _, _ => false
  end.
(** [TransparentTx::abs_signature]. *)
Definition tt_abs_signature (tx : TransparentTx) : AbsSignature :=
  abs_from_parts (digest512 (str_bytes "transparent-tx") (tt_signing_bytes tx)) (tt_signature tx) (tt_from_pubkey tx).

(** ** Registry operations *)

Definition op_with_signature (op : RegistryOp) (sig : bytes) : RegistryOp :=
  match op with
  | IssueTitle pk owner class desc seed n c _ => IssueTitle pk owner class desc seed n c sig
  | TransferTitle pk tid to memo n c _ => TransferTitle pk tid to memo n c sig
  | OpenEscrow pk buyer seller arbiter amount tid memo seed timeout n c _ => OpenEscrow pk buyer seller arbiter amount tid memo seed timeout n c sig
  | FundEscrow pk eid amount n c _ => FundEscrow pk eid amount n c sig
  | ReleaseEscrow pk eid n c _ => ReleaseEscrow pk eid n c sig
  | RefundEscrow pk eid n c _ => RefundEscrow pk eid n c sig
  | TimeoutClaimEscrow pk eid n c _ => TimeoutClaimEscrow pk eid n c sig
  end.
Definition op_sign (op : RegistryOp) (secret_key rng : bytes) : result RegistryOp :=
  sig ← sign_pq512 (str_bytes "registry-op") (op_signing_bytes op) secret_key rng;
  Ok (op_with_signature op sig).
End signing.

(** ** Custody certificates *)

Record DualSigKeypair := { dk_public_key : bytes; dk_secret_key : bytes }.
Record CustodyRequest := {
  cr_kind : CustodyKind;
  cr_block : Block;
  cr_foreign_chain_id : Z;
  cr_amount : Z;
  cr_title_id : option Hash;
  cr_owner_sk : bytes;
  cr_owner_pk : bytes;
  cr_nonce : Z;
  cr_chain_id : Z;
  cr_dual_sig_keypair : option DualSigKeypair;
}.
Definition SCHEME_NAME : string := "SLH-DSA-SHAKE-256s".
Definition cc_with_signatures (c : CustodyCertificate) (sig : bytes) (dual : option DualSignature) : CustodyCertificate :=
  {| cc_kind := cc_kind c; cc_block_hash := cc_block_hash c; cc_settlement_id := cc_settlement_id c;
     cc_birth_certificate := cc_birth_certificate c; cc_issuer_pubkey := cc_issuer_pubkey c;
     cc_foreign_chain_id := cc_foreign_chain_id c; cc_amount := cc_amount c; cc_title_id := cc_title_id c; cc_owner := cc_owner c;
     cc_nonce := cc_nonce c; cc_chain_id := cc_chain_id c; cc_signature := sig; cc_from_pubkey := cc_from_pubkey c;
     cc_dual_signature := dual |}.

Section custody_issue.
Context `{!Crypto, !DualCrypto, !BodyCodec, !DualSigner}.

Definition dual_sign (domain message : bytes) (keypair : DualSigKeypair) (rng : bytes) : result bytes :=
  map_err (String.append "SLH-DSA sign failed: ")
    (slh_sign (dk_secret_key keypair) (digest512 domain message) (str_bytes "hassan-dual-sig-v1") rng).
Definition dual_create (domain message : bytes) (keypair : DualSigKeypair) (rng : bytes) : result DualSignature :=
  signature ← dual_sign domain message keypair rng;
  Ok {| ds_scheme := SCHEME_NAME; ds_public_key_hex := hex_encode (dk_public_key keypair); ds_signature_hex := hex_encode signature |}.
Definition custody_sign (c : CustodyCertificate) (secret_key rng : bytes) : result CustodyCertificate :=
  sig ← sign_pq512 (str_bytes "custody") (message_bytes c) secret_key rng;
  Ok (cc_with_signatures c sig (cc_dual_signature c)).
Definition custody_sign_dual (c : CustodyCertificate) (keypair : DualSigKeypair) (rng : bytes) : result CustodyCertificate :=
  sig ← dual_create (str_bytes "custody") (message_bytes c) keypair rng;
  Ok (cc_with_signatures c (cc_signature c) (Some sig)).
(** The unsigned certificate of a request. *)
Definition unsigned_custody (req : CustodyRequest) : CustodyCertificate :=
  let b := cr_block req in
  {| cc_kind := cr_kind req; cc_block_hash := block_hash b; cc_settlement_id := hex_encode (settlement_id b);
     cc_birth_certificate := blk_birth_certificate b; cc_issuer_pubkey := blk_creator_pubkey b;
     cc_foreign_chain_id := cr_foreign_chain_id req; cc_amount := cr_amount req; cc_title_id := cr_title_id req;
     cc_owner := hash_to_address (cr_owner_pk req); cc_nonce := cr_nonce req; cc_chain_id := cr_chain_id req;
     cc_signature := []; cc_from_pubkey := cr_owner_pk req; cc_dual_signature := None |}.
Definition issue_custody (req : CustodyRequest) (rng rng_dual : bytes) : result CustodyCertificate :=
  _ ← verify_issuance (cr_block req);
  cert ← custody_sign (unsigned_custody req) (cr_owner_sk req) rng;
  cert ← match cr_dual_sig_keypair req with Some kp => custody_sign_dual cert kp rng_dual | None => Ok cert end;
  _ ← custody_verify cert (settlement_id (cr_block req));
  Ok cert.

(** ** The solitary miner *)

Record SoloMiner := {
  sm_address : string;
  sm_public_key : bytes;
  sm_secret_key : bytes;
  sm_running : bool;
  sm_hashes_per_second : Z;
}.
(** The search of [SoloMiner::start_mining]; [fuel] is how many nonces are tried before the
    search budget is used up. *)
Fixpoint solo_search (fuel : nat) (target : Hash) (template : Block) (nonce : Z) : option (Z * Hash) :=
  match fuel with
  | O => None
  | S fuel =>
      if U64_MAX <=? nonce then None else
      let b := with_header template (blk_merkle_root template) (blk_miner template) (blk_creator_pubkey template) nonce in
      if hash_meets_target (block_hash b) target then Some (nonce, block_hash b) else solo_search fuel target template (nonce + 1)
  end.
(** [start_mining]: the first nonce is tried whatever the budget; [elapsed] is the time of the
    search in milliseconds. *)
Definition start_mining (m : SoloMiner) (work : MiningWork) (retries : nat) (elapsed : Z) : option StratumShare * SoloMiner :=
  let t := mw_block_template work in
  let t := with_header t (blk_merkle_root t) (address_hash (sm_public_key m)) (sm_public_key m) (blk_nonce t) in
  match solo_search (S retries) (mw_target work) t 0 with
  | Some (nonce, hash) =>
      (Some {| sr_job_id := mw_job_id work; sr_nonce := nonce; sr_miner := sm_address m; sr_result := hash; sr_tor_proof := None |},
       {| sm_address := sm_address m; sm_public_key := sm_public_key m; sm_secret_key := sm_secret_key m; sm_running := true;
          sm_hashes_per_second := sat_mul 64 (nonce / Z.max elapsed 1) 1000 |})
  | None =>
      (None, {| sm_address := sm_address m; sm_public_key := sm_public_key m; sm_secret_key := sm_secret_key m; sm_running := true;
                sm_hashes_per_second := sm_hashes_per_second m |})
  end.

(** ** The assumed-valid digest *)

(** [pinned_digest] of an environment; no digest is compiled in. *)
Definition pinned_of_env (env : Env) : option Hash :=
  raw ← env "HASSAN_ASSUME_VALID";
  let raw := trim raw in
  if bool_decide (raw = []) then None else
  b ← hex_decode (bytes_str raw);
  if len b =? HASH_SIZE then Some (be_int b) else None.
End custody_issue.

(** ** Numbers and bytes *)

Lemma le_int_inj a b : is_bytes a → is_bytes b → length a = length b → le_int a = le_int b → a = b.
Proof.
  intros Ha. revert b. induction Ha as [|x a Hx Ha IH]; intros b Hb Hl He; [by destruct b|].
  destruct b as [|y b]; [done|]. apply Forall_cons in Hb as [Hy Hb]. cbn [le_int] in He. unfold in_width in Hx, Hy. change (umax 8) with 255 in *.
  assert (x = y ∧ le_int a = le_int b) as [-> Hr] by lia. f_equal. apply IH; [done|by injection Hl|done].
Qed.
Lemma be_int_inj a b : is_bytes a → is_bytes b → length a = length b → be_int a = be_int b → a = b.
Proof.
  intros Ha Hb Hl He. rewrite <- (rev_involutive a), <- (rev_involutive b). f_equal.
  apply le_int_inj; [by apply List.Forall_rev..|by rewrite !length_rev|done].
Qed.
Lemma biguint_bytes_int n : 0 <= n → be_int (biguint_bytes n) = n.
Proof.
  intros Hn. apply be_int_bytes. split; [done|]. pose proof (Z.log2_nonneg n). rewrite Z2Nat.id by (pose proof (Z.div_pos (Z.log2 n) 8); lia).
  destruct (Z.eq_dec n 0) as [->|Hz]; [done|]. change 256 with (2 ^ 8). rewrite <- Z.pow_mul_r by (try lia; pose proof (Z.div_pos (Z.log2 n) 8); lia).
  eapply Z.lt_le_trans; [apply (Z.log2_spec n); lia|]. apply Z.pow_le_mono_r; [lia|]. pose proof (Z.div_mod (Z.log2 n) 8). pose proof (Z.mod_pos_bound (Z.log2 n) 8). lia.
Qed.
Lemma biguint_bytes_short n k : 0 <= n < 256 ^ Z.of_nat k → (0 < k)%nat → (length (biguint_bytes n) <= k)%nat.
Proof.
  intros [Hn Hk] Hpos. unfold biguint_bytes. rewrite length_be_bytes. apply Nat2Z.inj_le. pose proof (Z.log2_nonneg n).
  rewrite Z2Nat.id by (pose proof (Z.div_pos (Z.log2 n) 8); lia). destruct (Z.eq_dec n 0) as [->|Hz]; [change (Z.log2 0 / 8 + 1) with 1; lia|].
  assert (Z.log2 n < 8 * Z.of_nat k) as Hl; [|assert (Z.log2 n / 8 < Z.of_nat k) by (apply Z.div_lt_upper_bound; lia); lia].
  apply Z.log2_lt_pow2; [lia|]. rewrite Z.pow_mul_r by lia. exact Hk.
Qed.

Section signing_theorems.
Context `{!Crypto, !CryptoLaws, !BigText, !BigTextLaws}.

(** The number of a signature denotes exactly its bytes, leading zeros included. *)
Lemma number_matches_iff value sig :
  is_bytes sig → sig ≠ [] → number_matches value sig = true ↔ big_parse value = Some (be_int sig).
Proof.
  intros Hb Hne. unfold number_matches. destruct (big_parse value) as [n|] eqn:Hp; [|done].
  pose proof (big_parse_nonneg _ _ Hp) as Hn. assert (0 < length sig)%nat as Hpos by (destruct sig; [done|simpl; lia]). split.
  - destruct (Z.ltb_spec (len sig) (len (biguint_bytes n))); [done|]. intros Heq%bool_decide_eq_true. f_equal.
    apply (f_equal be_int) in Heq. rewrite be_int_zeros, biguint_bytes_int in Heq by done. done.
  - intros [= ->]. pose proof (be_int_range _ Hb) as Hr. pose proof (biguint_bytes_short (be_int sig) (length sig) Hr Hpos) as Hs.
    rewrite (proj2 (Z.ltb_ge _ _)) by (unfold len; lia). apply bool_decide_eq_true.
    apply be_int_inj; [|done| |by rewrite be_int_zeros, biguint_bytes_int].
    + apply Forall_app. split; [apply Forall_replicate; unfold in_width; change (umax 8) with 255; lia|apply be_bytes_is_bytes].
    + rewrite length_app, length_replicate. lia.
Qed.

(** What a binding signature is accepted for: the scheme is ML-DSA-87, the digest is that of
    the message, the decimal number and the bytes are the same value, and the signature
    verifies under the key. *)
Theorem abs_verify_exact a domain message pk sig :
  hex_decode (abs_public_key a) = Some pk → hex_decode (abs_value_hex a) = Some sig → is_bytes sig → (0 < SIG_LEN)%nat →
  abs_verify a domain message = true ↔
  abs_scheme a = ABS_SCHEME_ML_DSA_87 ∧ abs_digest512 a = hex_encode (digest512 domain message) ∧
  big_parse (abs_value a) = Some (be_int sig) ∧ verify_pq512 domain message pk sig = true.
Proof.
  intros Hpk Hsig Hb Hpos. unfold abs_verify, decode_sized. rewrite Hpk, Hsig. cbn [mbind option_bind].
  destruct (Z.eqb_spec (abs_scheme a) ABS_SCHEME_ML_DSA_87) as [Hs|Hs]; cbn [negb]; [|by split; [|intros [? _]]].
  destruct (bool_decide_reflect (hex_encode (digest512 domain message) = abs_digest512 a)) as [Hd|Hd]; cbn [negb]; [|split; [done|intros (_ & He & _); by symmetry in He]].
  assert (verify_pq512 domain message pk sig = true → len pk = PQ_PUBLIC_KEY_SIZE ∧ len sig = PQ_SIGNATURE_SIZE) as Hsize by apply verify_pq512_sizes.
  destruct (Z.eqb_spec (len pk) PQ_PUBLIC_KEY_SIZE) as [Hp|Hp]; [|split; [done|intros (_ & _ & _ & Hv); by destruct (Hsize Hv)]].
  destruct (Z.eqb_spec (len sig) PQ_SIGNATURE_SIZE) as [Hq|Hq]; [|split; [done|intros (_ & _ & _ & Hv); by destruct (Hsize Hv)]].
  assert (sig ≠ []) as Hne by (intros ->; unfold PQ_SIGNATURE_SIZE, len in Hq; simpl in Hq; lia).
  pose proof (number_matches_iff (abs_value a) sig Hb Hne) as Hn. destruct (number_matches (abs_value a) sig); cbn [negb].
  - split; [intros Hv; split_and!; [done|done|by apply Hn|done]|by intros (_ & _ & _ & ?)].
  - split; [done|]. intros (_ & _ & Hv & _). by apply Hn in Hv.
Qed.

(** A working key pair: what [fips204] documents of keys generated together. *)
Record key_pair (sk pk : bytes) : Prop := {
  kp_sk : length sk = SK_LEN;
  kp_pk : length pk = PK_LEN;
  kp_bytes : is_bytes pk;
  kp_parses : ml_dsa_pk_parses pk = true;
  kp_signs m rng : ∃ sig, ml_dsa_sign sk m rng = Ok sig ∧ is_bytes sig ∧ ml_dsa_verify pk m sig = true;
}.
Lemma key_pair_signs sk pk domain message rng : key_pair sk pk →
  ∃ sig, sign_pq512 domain message sk rng = Ok sig ∧ is_bytes sig ∧ verify_pq512 domain message pk sig = true.
Proof.
  intros [Hsk Hpk _ Hp Hs]. destruct (Hs (digest512 domain message) rng) as (sig & Hsig & Hb & Hv). exists sig.
  unfold sign_pq512, sign_message, verify_pq512, verify_signature, PQ_SECRET_KEY_SIZE, PQ_PUBLIC_KEY_SIZE, PQ_SIGNATURE_SIZE, len.
  rewrite Hsk, Hpk, (ml_dsa_sign_length _ _ _ _ Hsig), Hp, !Z.eqb_refl. cbn [negb]. done.
Qed.

(** What is signed verifies: signing with a working key returns a binding signature that is
    accepted for the message, also when the signature starts with zero bytes, which its
    decimal number does not show. *)
Theorem abs_roundtrip domain message sk pk rng :
  key_pair sk pk → (0 < SIG_LEN)%nat →
  ∃ a, abs_sign domain message sk pk rng = Ok a ∧ abs_verify a domain message = true.
Proof.
  intros Hk Hpos. destruct (key_pair_signs sk pk domain message rng Hk) as (sig & Hs & Hb & Hv).
  exists (abs_from_parts (digest512 domain message) sig pk). unfold abs_sign. unfold sign_pq512 in Hs. rewrite Hs. split; [done|].
  apply (abs_verify_exact _ domain message pk sig); cbn [abs_from_parts abs_public_key abs_value_hex abs_scheme abs_digest512 abs_value];
    [apply hex_decode_encode, (kp_bytes _ _ Hk)|by apply hex_decode_encode|done|done|].
  split_and!; [done|done|apply big_parse_to_str, be_int_range; done|done].
Qed.
(** Signing a registry operation changes nothing but its signature, and the result verifies. *)
Theorem op_sign_verifies op sk rng :
  key_pair sk (op_pubkey op) →
  ∃ sig, op_sign op sk rng = Ok (op_with_signature op sig) ∧ op_verify (op_with_signature op sig) = true ∧
    op_signing_bytes (op_with_signature op sig) = op_signing_bytes op.
Proof.
  intros Hk. destruct (key_pair_signs _ _ (str_bytes "registry-op") (op_signing_bytes op) rng Hk) as (sig & Hs & _ & Hv).
  exists sig. unfold op_sign. rewrite Hs. split; [done|]. split; [|by destruct op]. unfold op_verify. by destruct op.
Qed.
End signing_theorems.

Section issue_theorems.
Context `{!Crypto, !CryptoLaws, !DualCrypto, !BodyCodec, !DualSigner}.

(** A working SLH-DSA key pair. *)
Record dual_pair (kp : DualSigKeypair) : Prop := {
  dp_pk : length (dk_public_key kp) = SLH_PK_LEN;
  dp_bytes : is_bytes (dk_public_key kp);
  dp_parses : slh_pk_parses (dk_public_key kp) = true;
  dp_signs m ctx rng : ∃ sig, slh_sign (dk_secret_key kp) m ctx rng = Ok sig ∧ is_bytes sig ∧ length sig = SLH_SIG_LEN ∧
    slh_verify (dk_public_key kp) m sig ctx = true;
}.
Lemma dual_create_verifies domain message kp rng : dual_pair kp →
  ∃ d, dual_create domain message kp rng = Ok d ∧ dual_signature_verify d domain message = true.
Proof.
  intros [Hpk Hb Hp Hs]. destruct (Hs (digest512 domain message) (str_bytes "hassan-dual-sig-v1") rng) as (sig & Hsig & Hsb & Hl & Hv).
  eexists. unfold dual_create, dual_sign. rewrite Hsig. split; [reflexivity|]. unfold dual_signature_verify. cbn [ds_public_key_hex ds_signature_hex].
  rewrite !hex_decode_encode by done. unfold dual_verify, len. rewrite Hpk, Hl, !Z.eqb_refl, Hp. done.
Qed.

(** Issuing is complete: anchored to a sealed block, a request of an owner with a working key,
    with or without a working second key, yields a certificate, which every node accepts for
    that block and which carries the request unchanged. *)
Theorem custody_issued req rng rng_dual :
  verify_issuance (cr_block req) = Ok () → blk_parents (cr_block req) ≠ [] → key_pair (cr_owner_sk req) (cr_owner_pk req) →
  (∀ kp, cr_dual_sig_keypair req = Some kp → dual_pair kp) →
  ∃ c, issue_custody req rng rng_dual = Ok c ∧ custody_verify c (settlement_id (cr_block req)) = Ok () ∧
    message_bytes c = message_bytes (unsigned_custody req) ∧ cc_from_pubkey c = cr_owner_pk req ∧
    (is_Some (cc_dual_signature c) ↔ is_Some (cr_dual_sig_keypair req)).
Proof.
  intros Hiss Hpar Hk Hdual. set (u := unsigned_custody req). destruct (key_pair_signs _ _ (str_bytes "custody") (message_bytes u) rng Hk) as (sig & Hs & _ & Hv).
  assert (birth_verify (blk_birth_certificate (cr_block req)) (settlement_id (cr_block req)) (blk_creator_pubkey (cr_block req)) = true) as Hbirth.
  { unfold verify_issuance in Hiss. rewrite bool_decide_eq_false_2 in Hiss by done. destruct (negb (len _ =? _)); [done|]. destruct (negb (_ =? _)); [done|].
    by destruct (birth_verify _ _ _). }
  assert (∀ dual, match dual with Some d => dual_signature_verify d (str_bytes "custody") (message_bytes u) = true | None => True end →
    custody_verify (cc_with_signatures u sig dual) (settlement_id (cr_block req)) = Ok ()) as Hok.
  { intros dual Hd. unfold custody_verify. cbn [cc_with_signatures cc_from_pubkey cc_owner cc_signature cc_dual_signature cc_settlement_id cc_birth_certificate cc_issuer_pubkey].
    change (message_bytes (cc_with_signatures u sig dual)) with (message_bytes u). cbn [u unsigned_custody cc_from_pubkey cc_owner cc_settlement_id cc_birth_certificate cc_issuer_pubkey].
    unfold len at 1, PQ_PUBLIC_KEY_SIZE. rewrite (kp_pk _ _ Hk), Z.eqb_refl. cbn [negb]. fold u. rewrite Hv.
    unfold address_matches_pubkey. rewrite addresses_equivalent_refl. cbn [orb negb]. rewrite Hbirth, bool_decide_eq_true_2 by done.
    destruct dual as [d|]; [by rewrite Hd|done]. }
  unfold issue_custody, custody_sign. rewrite Hiss. fold u. rewrite Hs. cbn [mbind result_bind].
  destruct (cr_dual_sig_keypair req) as [kp|].
  - destruct (dual_create_verifies (str_bytes "custody") (message_bytes u) kp rng_dual (Hdual kp eq_refl)) as (d & Hc & Hd).
    unfold custody_sign_dual. change (message_bytes (cc_with_signatures u sig (cc_dual_signature u))) with (message_bytes u). rewrite Hc. cbn [mbind result_bind].
    exists (cc_with_signatures u sig (Some d)). pose proof (Hok (Some d) Hd) as Hfin.
    change (cc_with_signatures (cc_with_signatures u sig (cc_dual_signature u)) _ (Some d)) with (cc_with_signatures u sig (Some d)). rewrite Hfin.
    split_and!; [done..|]. by split; intros _; eexists.
  - exists (cc_with_signatures u sig None). pose proof (Hok None I) as Hfin. change (cc_dual_signature u) with (@None DualSignature). cbn [mbind result_bind]. rewrite Hfin.
    split; [done|]. split; [done|]. split; [done|]. split; [done|]. by split; intros [? ?].
Qed.

(** A nonce the solitary miner returns meets the target. *)
Lemma solo_search_sound fuel target t n0 n h :
  solo_search fuel target t n0 = Some (n, h) →
  n0 <= n ∧ h = block_hash (with_header t (blk_merkle_root t) (blk_miner t) (blk_creator_pubkey t) n) ∧ hash_meets_target h target = true.
Proof.
  revert n0. induction fuel as [|fuel IH]; intros n0; [done|]. cbn [solo_search]. cbv zeta. destruct (U64_MAX <=? n0); [done|].
  destruct (hash_meets_target (block_hash _) target) eqn:Hm; [intros Heq; injection Heq as <- <-; by split_and!|]. intros Hs%IH. destruct Hs as (? & ? & ?). split; [lia|done].
Qed.
End issue_theorems.

(** ** Examples *)
Module SigningExample.
(** Numbers as hexadecimal text. *)
#[export] Instance ex_big : BigText :=
  {| big_to_str n := Toy.encode_hex (biguint_bytes n);
     big_parse t := l ← Toy.decode_hex t; if bool_decide (0 <= be_int l) then Some (be_int l) else None |}.
#[export] Instance ex_big_laws : BigTextLaws.
Proof.
  split.
  - intros n Hn. cbn [big_parse big_to_str ex_big].
    pose proof (@hex_decode_encode Toy.toy_crypto Toy.toy_laws (biguint_bytes n) (be_bytes_is_bytes _ _)) as Hd. cbn [hex_decode hex_encode Toy.toy_crypto] in Hd.
    rewrite Hd. cbn [mbind option_bind]. rewrite biguint_bytes_int by done. by rewrite bool_decide_eq_true_2.
  - intros t n. cbn [big_parse ex_big]. destruct (Toy.decode_hex t) as [l|]; [|done]. cbn [mbind option_bind].
    destruct (bool_decide_reflect (0 <= be_int l)); [|done]. by intros [= <-].
Qed.
#[export] Instance ex_signer : DualSigner := {| slh_sign _ _ _ _ := Ok [0] |}.
Definition key : bytes := [1; 2].
Lemma ex_pair : @key_pair ChainExample.ex_crypto key key.
Proof.
  split; [done|done|by repeat constructor|done|]. intros m rng. eexists. split; [reflexivity|]. split; [apply le_bytes_is_bytes|]. by apply bool_decide_eq_true.
Qed.
Definition dual_key : DualSigKeypair := {| dk_public_key := [7]; dk_secret_key := [] |}.
Lemma ex_dual_pair : @dual_pair ChainExample.ex_dual ex_signer dual_key.
Proof. split; [done|by repeat constructor|done|]. intros m ctx rng. exists [0]. by repeat constructor. Qed.
Definition lock : CustodyRequest :=
  {| cr_kind := StakeLock; cr_block := ChainExample.first_block; cr_foreign_chain_id := 0; cr_amount := 5; cr_title_id := None;
     cr_owner_sk := key; cr_owner_pk := key; cr_nonce := 0; cr_chain_id := CHAIN_ID; cr_dual_sig_keypair := Some dual_key |}.
Definition op : RegistryOp := FundEscrow key 7 500 0 1 [].
End SigningExample.

Section witnesses.
#[local] Existing Instances ChainExample.ex_crypto ChainExample.ex_dual ChainExample.ex_body.
#[local] Existing Instances IndexExample.ex_laws SigningExample.ex_big SigningExample.ex_big_laws SigningExample.ex_signer.
Import SigningExample.

Lemma abs_roundtrip_witness : ∃ a, abs_sign [1] [2] key key [] = Ok a ∧ abs_verify a [1] [2] = true.
Proof. apply (abs_roundtrip [1] [2] key key [] ex_pair). vm_compute. lia. Defined.
Lemma abs_verify_exact_witness :
  let a := abs_from_parts (digest512 [1] [2]) [0; 0; 0; 9] key in
  abs_verify a [1] [2] = true ↔ abs_scheme a = ABS_SCHEME_ML_DSA_87 ∧ abs_digest512 a = hex_encode (digest512 [1] [2]) ∧
    big_parse (abs_value a) = Some (be_int [0; 0; 0; 9]) ∧ verify_pq512 [1] [2] key [0; 0; 0; 9] = true.
Proof.
  apply (abs_verify_exact (abs_from_parts (digest512 [1] [2]) [0; 0; 0; 9] key) [1] [2] key [0; 0; 0; 9]);
    [reflexivity|reflexivity|by repeat constructor|vm_compute; lia].
Defined.
Lemma op_sign_verifies_witness : ∃ sig, op_verify (op_with_signature op sig) = true.
Proof. destruct (op_sign_verifies op key [] ex_pair) as (sig & _ & Hv & _). exists sig. exact Hv. Defined.
Lemma custody_issued_witness :
  ∃ c, issue_custody lock [] [] = Ok c ∧ is_Some (cc_dual_signature c).
Proof.
  destruct (custody_issued lock [] []) as (c & Hc & _ & _ & _ & Hd).
  - vm_compute. reflexivity.
  - vm_compute. discriminate.
  - exact ex_pair.
  - intros kp [= <-]. exact ex_dual_pair.
  - exists c. split; [exact Hc|]. apply Hd. by eexists.
Defined.
End witnesses.
