(* ===== verification/LongChain.v ===== *)
(** * A node past the finality depth

    Finality needs 432001 blocks, too many to evaluate one by one.  [long_run n] is the
    state of a node that keeps its history after it has mined and admitted [n] blocks on
    genesis, one every millisecond, each on the last one.  [long_run_spine] shows, by
    induction on [n], that every one of these blocks passes all the checks of admission;
    so a state with a finality point is reached, and the theorems on finality apply to it.

    The digest of this instance is the timestamp field of the bytes hashed, which makes
    the proof of work immediate and the hashes of the blocks their timestamps. *)

From S2P Require Import Prelude Genesis Crypto Address Predicate Utxo UtxoTx Registry Custody Block Ledger.
From S2P Require Import Dag Ghostdag Reachability ReachBuild FeeHistory Stark VersionBits Superproof State Chain ChainInv.
From S2P Require Import Admission Mempool NodeInv Mining Economics.

Module LongChain.
#[export] Instance long_crypto : Crypto := {|
  blake3_xof i n := be_bytes n (le_int (le_bytes 8 (le_int (take 8 (drop 26 i)))));
  PK_LEN := 2; SK_LEN := 2; SIG_LEN := 4;
  ml_dsa_pk_parses _ := true;
  ml_dsa_verify pk m s := bool_decide (s = le_bytes 4 (Toy.quick_mix (pk ++ m)));
  ml_dsa_sign sk m _ := Ok (le_bytes 4 (Toy.quick_mix (sk ++ m)));
  hex_encode := Toy.encode_hex; hex_decode := Toy.decode_hex;
|}.
#[export] Existing Instances ChainExample.ex_dual ChainExample.ex_body ChainExample.ex_env NodeExample.ex_pool_env.
#[export] Existing Instances MinerExample.ex_miner_env MinerExample.ex_miner_ok.

(** ** The run *)

Definition key : bytes := ChainExample.pk.
Definition owner : Miner :=
  {| mi_address := hash_to_address key; mi_public_key := key; mi_signing_key := Some key;
     mi_stake := 0; mi_hashrate := 0; mi_tor_address := None; mi_is_pool := false |}.
Definition long_time (n : nat) : Z := GENESIS_TIMESTAMP_MS + Z.of_nat n.
Definition next_header (s : ChainState) (ts : Z) : Block :=
  {| blk_height := 0; blk_timestamp := ts; blk_parents := template_parents s; blk_interlinks := [];
     blk_transparent_txs := []; blk_utxo_txs := []; blk_registry_ops := []; blk_custody_ops := [];
     blk_merkle_root := HASH_ZERO; blk_state_root := HASH_ZERO; blk_miner := address_hash key; blk_creator_pubkey := key;
     blk_nonce := 0; blk_difficulty := expected_difficulty_at s (template_parents s) ts; blk_version := 0;
     blk_coinbase_entropy := 0; blk_stark_proof := []; blk_birth_certificate := []; blk_size := 0 |}.
Definition next_template (s : ChainState) (ts : Z) : Block :=
  match bind_parent_commitments s (next_header s ts) with Ok b => b | Err _ => next_header s ts end.
Definition next_block (s : ChainState) (ts : Z) : Block :=
  let c := with_nonce_of (next_template s ts) 0 in
  with_witness c (stark_prove (hash_bytes (block_hash c)))
    (le_bytes 4 (Toy.quick_mix (key ++ digest512 (str_bytes "birth-certificate") (settlement_id c)))) 0.
Definition grow (s : ChainState) (ts : Z) : ChainState :=
  match add_block s ts (next_block s ts) with Ok s' => s' | Err _ => s end.
Fixpoint long_run (n : nat) : ChainState :=
  match n with
  | O => seeded Ledger_default
  | S n => grow (long_run n) (long_time (S n))
  end.

(** ** Hashes are timestamps *)

Lemma hash_is_time b : 0 <= blk_timestamp b <= U64_MAX → block_hash b = blk_timestamp b.
Proof.
  intros Ht. unfold block_hash, blake3_512, absorb_identity. cbn [blake3_xof long_crypto].
  assert (length (GENESIS_DOMAIN ++ le_bytes 8 (blk_height b)) = 26%nat) as Hl by (rewrite length_app, length_le_bytes; reflexivity).
  rewrite app_assoc, <- Hl, drop_app_length. clear Hl.
  rewrite take_app_length' by (by rewrite length_le_bytes).
  assert (0 <= blk_timestamp b < 256 ^ Z.of_nat 8) as Hb by (split; [lia|]; eapply Z.le_lt_trans; [apply Ht|]; vm_compute; reflexivity).
  rewrite !le_int_bytes by (by rewrite ?le_int_bytes).
  apply be_int_bytes. split; [lia|]. eapply Z.le_lt_trans; [apply Ht|]. vm_compute. reflexivity.
Qed.
Lemma genesis_is_time : genesis_hash = long_time 0.
Proof. vm_compute. reflexivity. Qed.
Lemma time_range n : Z.of_nat n * SCALE < SPACE_END → 0 <= long_time n <= U64_MAX.
Proof. unfold long_time, SCALE, SPACE_END, GENESIS_TIMESTAMP_MS, umax. lia. Qed.
(** A timestamp meets the target of every 64-bit difficulty. *)
Lemma time_meets_target ts d : 0 <= ts <= U64_MAX → d <= U64_MAX → hash_meets_target ts (pow_target d) = true.
Proof.
  intros Ht Hd. unfold hash_meets_target. rewrite pow_target_eq. apply Z.ltb_lt.
  assert (MAX_TARGET / 2 ^ 64 <= MAX_TARGET / Z.max d 1) as Hle.
  { apply Z.div_le_compat_l; [vm_compute; discriminate|]. unfold umax in Hd. lia. }
  eapply Z.lt_le_trans; [|exact Hle]. eapply Z.le_lt_trans; [apply Ht|]. vm_compute. reflexivity.
Qed.

(** ** One step *)

(** A state of the run: one tip, every hash and timestamp below the clock. *)
Record spine (n : nat) (s : ChainState) : Prop := {
  spine_reach : reachable Ledger_default s;
  spine_tip : cs_tips s = [long_time n];
  spine_past h b : cs_dag s !! h = Some b → h <= long_time n ∧ blk_timestamp b <= long_time n;
  spine_work b : cs_dag s !! long_time n = Some b → blk_difficulty b <= U64_MAX;
  spine_score : score_of (cs_ghostdag s) (long_time n) = Z.of_nat n;
  spine_size : size (cs_dag s) = S n;
  spine_pool : custody_mempool (cs_pools s) = [];
}.

Lemma spine_start : spine 0 (seeded Ledger_default).
Proof.
  split; cbn [seeded cs_tips cs_dag cs_ghostdag cs_pools]; rewrite ?genesis_is_time; try done.
  - apply reachable_seeded.
  - intros h b [<- <-]%lookup_singleton_Some. split; [done|]. vm_compute. discriminate.
  - intros b [_ <-]%lookup_singleton_Some. vm_compute. discriminate.
Qed.

(** Admission never adds to the pool of custody operations. *)
Lemma connect_pool s b d : cs_archival s = true → custody_mempool (cs_pools s) = [] → custody_mempool (cs_pools (connect_block s b d)) = [].
Proof.
  intros Har Hp. unfold connect_block. cbv zeta. set (u := update_ledger (insert_block s b d)).
  assert (cs_pools u = cs_pools s ∧ cs_archival u = true) as [Hu Hua].
  { subst u. unfold update_ledger, recompute_virtual_state, advance_finalized_base, capture_base, order_main_chain.
    repeat case_match; split; (reflexivity || exact Har). }
  assert (cs_archival (cache_difficulty (drop_included_from_mempools (record_selected_chain_fee_samples u) b)) = true ∧
    custody_mempool (cs_pools (cache_difficulty (drop_included_from_mempools (record_selected_chain_fee_samples u) b))) = []) as [Ha Hc].
  { unfold cache_difficulty, drop_included_from_mempools, record_selected_chain_fee_samples.
    destruct (selected_tip (cs_ghostdag u) (cs_tips u)); (split; [exact Hua|]);
      cbn [set_difficulty set_pools cs_pools drop_included with_fee_history custody_mempool]; by rewrite Hu, Hp. }
  unfold prune_bodies. rewrite Ha. unfold prune_history. by rewrite Ha.
Qed.

Section step.
Context (n : nat) (s : ChainState) (Hs : spine n s) (Hroom : Z.of_nat (S n) * SCALE < SPACE_END).
Abbreviation tip := (long_time n).
Abbreviation ts := (long_time (S n)).

Lemma step_parents : template_parents s = [tip].
Proof.
  unfold template_parents. rewrite (spine_tip _ _ Hs).
  pose proof (merge_sort_Permutation (tip_ge (cs_ghostdag s)) [tip]) as Hp%symmetry%Permutation_singleton_l. by rewrite Hp.
Qed.
Lemma step_known : tip ∈ dom (cs_dag s) ∧ tip ∈ dom (cs_ghostdag s).
Proof.
  destruct (reachable_ok _ _ (spine_reach _ _ Hs)) as (Hok & _). destruct (rbuilt_ok _ _ _ (ok_graph _ _ Hok)) as (Hi & _).
  rewrite (inv_dom _ _ Hi). assert (tip ∈ cs_tips s) as [Ht _]%(ok_tips _ _ Hok) by (rewrite (spine_tip _ _ Hs); apply list_elem_of_here). done.
Qed.
Lemma step_selected : select_parent (cs_ghostdag s) [tip] = Some tip.
Proof.
  unfold select_parent. simpl. rewrite bool_decide_eq_true_2; [done|]. apply step_known.
Qed.
(** A block on the tip alone merges nothing and raises the score by one. *)
Definition step_data : GhostdagData :=
  {| gd_blue_score := Z.of_nat (S n); gd_selected_parent := Some tip; gd_mergeset_blues := [tip]; gd_mergeset_reds := [] |}.
Lemma step_ghostdag :
  try_compute_ghostdag_data (cs_reachability s) (cs_dag s) (cs_ghostdag s) [tip] MAX_MERGESET_SIZE = Ok step_data.
Proof.
  unfold try_compute_ghostdag_data. rewrite step_selected.
  assert (mergeset (cs_dag s) [tip] tip = []) as ->.
  { destruct (mergeset (cs_dag s) [tip] tip) as [|x l] eqn:Hm; [done|].
    assert (x ∈ mergeset (cs_dag s) [tip] tip) as [(p & ->%list_elem_of_singleton & Hx) Hn]%elem_of_mergeset by (rewrite Hm; apply list_elem_of_here). done. }
  assert (topological_order (cs_reachability s) (cs_dag s) [] = []) as ->
    by (apply Permutation_nil_r, topological_order_permutation).
  cbn [foldl col_blues col_reds]. change (MAX_MERGESET_SIZE <? len []) with false. cbv iota.
  rewrite (spine_score _ _ Hs), wrap_small; [unfold step_data; do 2 f_equal; unfold len; simpl length; lia|].
  unfold in_width, umax, len, SCALE, SPACE_END in *. simpl length. lia.
Qed.
Lemma step_difficulty : expected_difficulty_at s [tip] ts <= U64_MAX.
Proof.
  unfold expected_difficulty_at. rewrite step_selected.
  assert (era_min_difficulty lab_easy (minted_supply (cs_ledger s)) ts <= U64_MAX) as Hf.
  { unfold era_min_difficulty. destruct (_ || _); vm_compute; discriminate. }
  pose proof (proj1 step_known) as [b Hb]%elem_of_dom. rewrite Hb. cbn [from_option]. pose proof (spine_work _ _ Hs b Hb).
  assert (∀ x, wrap 64 x <= U64_MAX) as Hw by (intros x; unfold wrap, umax; pose proof (Z.mod_pos_bound x (2 ^ 64) eq_refl); lia).
  apply Z.max_lub; [|done]. destruct (_ <? _); [by apply Z.max_lub|]. apply Hw.
Qed.
Lemma step_median : past_median_time s tip < ts.
Proof.
  assert (∀ k h x, x ∈ median_times k (cs_dag s) (cs_ghostdag s) h → x <= tip) as Hm.
  { induction k as [|k IH]; intros h x; [by intros ?%not_elem_of_nil|]. cbn [median_times].
    destruct (cs_dag s !! h) as [b|] eqn:Hb; [|by intros ?%not_elem_of_nil]. destruct (spine_past _ _ Hs h b Hb) as [_ Hle].
    intros [->|Hx]%elem_of_cons; [done|]. destruct (_ ≫= _) as [sp|]; [|by apply not_elem_of_nil in Hx].
    destruct (sp =? h); [by apply not_elem_of_nil in Hx|]. by apply IH in Hx. }
  assert (0 <= tip < ts) as Hlt by (unfold long_time, GENESIS_TIMESTAMP_MS; lia). unfold past_median_time.
  match goal with |- default 0 ?o < _ => destruct o as [x|] eqn:Ho end; cbn [from_option]; [|lia].
  apply list_elem_of_lookup_2 in Ho. rewrite merge_sort_Permutation in Ho. apply Hm in Ho. unfold id. lia.
Qed.
Lemma step_timely : timely s ts ts.
Proof.
  pose proof (time_range (S n) Hroom) as Hr. unfold timely. rewrite step_parents. split_and!.
  - pose proof (proj1 step_known) as [b Hb]%elem_of_dom. unfold max_timestamp. simpl. rewrite Hb. cbn.
    destruct (spine_past _ _ Hs _ _ Hb) as [_ Hle]. unfold long_time in *. lia.
  - unfold sat_add, MAX_FUTURE_DRIFT_MS. lia.
  - intros t Ht. rewrite (spine_tip _ _ Hs) in Ht. unfold selected_tip in Ht. fold (select_parent (cs_ghostdag s) [tip]) in Ht.
    rewrite step_selected in Ht. injection Ht as <-. exact step_median.
Qed.
Lemma step_template : ∃ root,
  next_template s ts = with_commitments (next_header s ts) (expected_interlinks s tip) root ∧
  template_for s ts owner (next_template s ts) step_data tip root.
Proof.
  assert (∃ root, post_mergeset_state_root s tip (merged step_data) (next_header s ts) (gd_blue_score step_data) = Ok root) as [root Hroot].
  { unfold post_mergeset_state_root, post_mergeset_ledger, simulate_apply_block_body.
    cbn [next_header blk_transparent_txs blk_utxo_txs blk_registry_ops blk_custody_ops try_fold mbind result_bind fmap result_fmap]. by eexists. }
  assert (bind_parent_commitments s (next_header s ts) = Ok (with_commitments (next_header s ts) (expected_interlinks s tip) root)) as Hb.
  { unfold bind_parent_commitments. change (blk_parents (next_header s ts)) with (template_parents s). rewrite step_parents, step_ghostdag.
    cbn [mbind result_bind gd_selected_parent step_data ok_or]. rewrite (post_root_same s tip _ _ (next_header s ts)) by (split; reflexivity).
    change {| gd_blue_score := _ |} with step_data.
    rewrite Hroot. reflexivity. }
  exists root. assert (next_template s ts = with_commitments (next_header s ts) (expected_interlinks s tip) root) as -> by (unfold next_template; by rewrite Hb).
  split; [reflexivity|]. split; try reflexivity; [rewrite step_parents; exact step_ghostdag| |apply Forall_nil_2|intros x Hx%not_elem_of_nil; destruct Hx].
  rewrite <- Hroot. apply post_root_same. split; reflexivity.
Qed.
Lemma step_hash : block_hash (next_block s ts) = ts.
Proof.
  destruct step_template as (root & Ht & _). unfold next_block. rewrite Ht. rewrite hash_is_time; [done|]. exact (time_range (S n) Hroom).
Qed.
Lemma step_admitted : check_block s ts (next_block s ts) = Ok step_data.
Proof.
  destruct step_template as (root & Ht & Htf). set (c := with_nonce_of (next_template s ts) 0).
  assert (block_hash c = ts) as Hc by (unfold c; rewrite Ht, hash_is_time; [done|exact (time_range (S n) Hroom)]).
  unfold next_block. cbv zeta. fold c.
  apply (witness_admitted Ledger_default s ts ts owner (next_template s ts) step_data tip root 0).
  - exists s. split; [apply (spine_reach _ _ Hs)|]. by destruct s.
  - exact Htf.
  - exact step_timely.
  - fold c. rewrite Hc, (tf_difficulty _ _ _ _ _ _ _ Htf), step_parents.
    apply time_meets_target; [exact (time_range (S n) Hroom)|exact step_difficulty].
  - fold c. unfold verify_pq512, verify_signature. cbn [mi_public_key owner]. generalize (digest512 (str_bytes "birth-certificate") (settlement_id c)).
    intros m. change (len key =? PQ_PUBLIC_KEY_SIZE) with true. cbn [negb ml_dsa_pk_parses long_crypto].
    unfold len at 1. rewrite length_le_bytes. change (Z.of_nat 4 =? PQ_SIGNATURE_SIZE) with true. cbn [negb]. by apply bool_decide_eq_true_2.
  - done.
  - rewrite Ht. done.
  - rewrite (spine_pool _ _ Hs). apply Forall_nil_2.
  - fold c. intros [b Hb]%elem_of_dom. apply (spine_past _ _ Hs) in Hb as [Hle _].
    assert (ts <= tip); [|unfold long_time in *; lia]. rewrite <- Hc. exact Hle.
  - reflexivity.
  - vm_compute. discriminate.
Qed.

Lemma step_grown : add_block s ts (next_block s ts) = Ok (grow s ts).
Proof.
  assert (add_block s ts (next_block s ts) = Ok (connect_block s (next_block s ts) step_data)) as Ha.
  { unfold add_block. rewrite step_admitted. reflexivity. }
  unfold grow. rewrite Ha. reflexivity.
Qed.
Lemma step_spine : spine (S n) (grow s ts).
Proof.
  destruct (reachable_ok _ _ (spine_reach _ _ Hs)) as (Hok & Har & _).
  assert (Z.of_nat (size (cs_dag s)) * SCALE < SPACE_END) as Hsz by (rewrite (spine_size _ _ Hs); exact Hroom).
  pose proof step_grown as Hadd.
  pose proof (reachable_block _ _ _ _ _ (spine_reach _ _ Hs) Hsz Hadd) as Hr.
  destruct (add_block_ok _ _ _ _ _ Hok Har Hsz Hadd) as (d & Hc & _ & _ & Hd & Hg & Ht & _).
  rewrite step_admitted in Hc. injection Hc as <-. unfold insert_block in Hd, Hg, Ht. cbv zeta in Hd, Hg, Ht. rewrite step_hash in Hd, Hg, Ht.
  cbn [set_graph cs_dag cs_ghostdag cs_tips] in Hd, Hg, Ht.
  destruct step_template as (root & Htm & Htf). pose proof step_difficulty as Hdiff.
  assert (cs_dag s !! ts = None) as Hfresh.
  { destruct (cs_dag s !! ts) as [b|] eqn:Hb; [|done]. apply (spine_past _ _ Hs) in Hb as [Hle _]. unfold long_time in Hle. lia. }
  split.
  - exact Hr.
  - rewrite Ht, (spine_tip _ _ Hs). change (blk_parents (next_block s ts)) with (blk_parents (next_template s ts)).
    rewrite (tf_parents _ _ _ _ _ _ _ Htf), step_parents. cbn [foldl List.filter]. by rewrite Z.eqb_refl.
  - intros h b. rewrite Hd. intros [[<- <-]|[_ Hb%(spine_past _ _ Hs)]]%lookup_insert_Some.
    + split; [done|]. change (blk_timestamp (next_block s ts)) with (blk_timestamp (next_template s ts)). by rewrite (tf_timestamp _ _ _ _ _ _ _ Htf).
    + unfold long_time in *. lia.
  - intros b. rewrite Hd, lookup_insert_eq. intros [= <-]. change (blk_difficulty (next_block s ts)) with (blk_difficulty (next_template s ts)).
    by rewrite (tf_difficulty _ _ _ _ _ _ _ Htf), step_parents.
  - rewrite Hg. unfold score_of. by rewrite lookup_insert_eq.
  - by rewrite Hd, map_size_insert_None, (spine_size _ _ Hs).
  - apply (f_equal (λ r, match r with Ok x => custody_mempool (cs_pools x) | Err _ => [] end)) in Hadd. rewrite <- Hadd.
    unfold add_block. rewrite step_admitted. cbn [mbind result_bind]. apply connect_pool, Hs. done.
Qed.
End step.

(** ** A finality point *)

Lemma long_run_spine n : Z.of_nat n * SCALE < SPACE_END → spine n (long_run n).
Proof.
  induction n as [|n IH]; intros Hn; [exact spine_start|]. cbn [long_run]. apply step_spine; [|exact Hn].
  apply IH. unfold SCALE, SPACE_END in *. lia.
Qed.
Lemma long_run_step n :
  Z.of_nat (S n) * SCALE < SPACE_END →
  add_block (long_run n) (long_time (S n)) (next_block (long_run n) (long_time (S n))) = Ok (long_run (S n)).
Proof.
  intros Hn. assert (spine n (long_run n)) as Hs by (apply long_run_spine; unfold SCALE, SPACE_END in *; lia).
  exact (step_grown n (long_run n) Hs Hn).
Qed.
(** The chain of the run starts at genesis, which is on it at any length. *)
Lemma long_run_genesis n :
  Z.of_nat n * SCALE < SPACE_END →
  selected_tip (cs_ghostdag (long_run n)) (cs_tips (long_run n)) = Some (long_time n) ∧
  genesis_hash ∈ selected_chain (cs_ghostdag (long_run n)) (long_time n) ∧ score_of (cs_ghostdag (long_run n)) genesis_hash = 0.
Proof.
  intros Hn%long_run_spine. generalize dependent (long_run n). intros s Hs.
  destruct (selected_from_genesis _ s (long_time n) (spine_reach _ _ Hs) (proj1 (step_known n s Hs))) as [Hg Hz].
  split_and!; [|by apply head_Some_elem_of|done]. rewrite (spine_tip _ _ Hs). exact (step_selected n s Hs).
Qed.
Lemma long_run_final n :
  FINALITY_DEPTH < Z.of_nat n → Z.of_nat n * SCALE < SPACE_END →
  is_Some (finality_point (long_run n)) ∧ ef_is_economically_final (finality_of (long_run n) genesis_hash) = true.
Proof.
  intros Hdeep Hn. destruct (long_run_genesis n Hn) as (Ht & Hg & Hz). pose proof (long_run_spine n Hn) as Hs.
  generalize dependent (long_run n). intros s Ht Hg Hz Hs. pose proof (spine_score _ _ Hs) as Hsc.
  destruct (reachable_ok _ _ (spine_reach _ _ Hs)) as (Hok & _). destruct (rbuilt_ok _ _ _ (ok_graph _ _ Hok)) as (Hi & _).
  destruct (ok_main _ _ Hok) as (tip & Ht' & Hm). rewrite Ht in Ht'. injection Ht' as <-.
  split.
  - destruct (below_finality_point s (long_time n) genesis_hash Hi Ht Hg) as (fp & Hfp & _); [lia|lia|]. by exists fp.
  - apply finality_of_true; [lia|]. rewrite Hm. split_and!; [done| |].
    + apply (chain_dom _ _ Hi (long_time n)); [exact (proj2 (step_known n s Hs))|done].
    + rewrite Hz. unfold selected_tip_blue_score. rewrite Ht. cbn [mbind option_bind].
      destruct (proj1 (elem_of_dom _ _) (proj2 (step_known n s Hs))) as [d Hd]. unfold score_of in Hsc. rewrite Hd in Hsc |- *.
      cbn [fmap option_fmap option_map from_option id] in *. rewrite Hsc. lia.
Qed.

(** The shortest run with a finality point. *)
Definition deep : nat := Z.to_nat (FINALITY_DEPTH + 1).
Lemma deep_enough : FINALITY_DEPTH < Z.of_nat deep ∧ Z.of_nat (S deep) * SCALE < SPACE_END.
Proof. unfold deep. rewrite Nat2Z.inj_succ, Z2Nat.id by (vm_compute; discriminate). vm_compute. done. Qed.
Lemma deep_facts :
  reachable Ledger_default (long_run deep) ∧ Z.of_nat (size (cs_dag (long_run deep))) * SCALE < SPACE_END ∧
  add_block (long_run deep) (long_time (S deep)) (next_block (long_run deep) (long_time (S deep))) = Ok (long_run (S deep)) ∧
  is_Some (finality_point (long_run deep)) ∧ ef_is_economically_final (finality_of (long_run deep) genesis_hash) = true.
Proof.
  destruct deep_enough as [Hd Hr]. generalize dependent deep. intros n Hd Hr.
  assert (Z.of_nat n * SCALE < SPACE_END) as Hn by (unfold SCALE, SPACE_END in *; lia). pose proof (long_run_spine n Hn) as Hs.
  split_and!; [exact (spine_reach _ _ Hs)|rewrite (spine_size _ _ Hs); exact Hr|exact (long_run_step n Hr)|apply (long_run_final n Hd Hn)..].
Qed.
End LongChain.

(** ** Witnesses *)

Section deep_witnesses.
Import LongChain.

Lemma finality_irreversible_witness :
  ∃ fp fp' rest, finality_point (long_run deep) = Some fp ∧ finality_point (long_run (S deep)) = Some fp' ∧
    fp ∈ selected_chain (cs_ghostdag (long_run (S deep))) fp' ∧
    canonical_order (cs_dag (long_run (S deep))) (cs_ghostdag (long_run (S deep))) (cs_tips (long_run (S deep))) =
      canonical_order_at (cs_dag (long_run deep)) (cs_ghostdag (long_run deep)) fp ++ rest.
Proof.
  destruct deep_facts as (Hr & Hsz & Hadd & [fp Hfp] & _).
  destruct (finality_irreversible Ledger_default (long_run deep) (long_time (S deep)) (next_block (long_run deep) (long_time (S deep)))
    (long_run (S deep)) Hr Hsz Hadd fp Hfp) as (fp' & rest & Hfp' & Hin & Hord & _).
  exists fp, fp', rest. exact (conj Hfp (conj Hfp' (conj Hin Hord))).
Defined.

Lemma economic_finality_kept_witness :
  ef_is_economically_final (finality_of (long_run deep) genesis_hash) = true ∧
  ef_is_economically_final (finality_of (long_run (S deep)) genesis_hash) = true.
Proof.
  destruct deep_facts as (Hr & Hsz & Hadd & _ & Hf). split; [exact Hf|].
  exact (economic_finality_kept Ledger_default (long_run deep) (long_time (S deep)) (next_block (long_run deep) (long_time (S deep)))
    (long_run (S deep)) Hr Hsz Hadd genesis_hash Hf).
Defined.
End deep_witnesses.
